(* ===== verification/_CoqProject ===== *)
-Q . S2P
Prelude.v
Time.v
Lists.v
OsHash.v
Ostr.v
CString.v
RtData.v
Fifo.v
DictTypes.v
Msg.v
MsgBuf.v
MsgDict.v
MsgTree.v
MsgRules.v
Dispatch.v
Dict.v
DictSpec.v
DictMsg.v
Sessions.v
SessSpec.v
SentReq.v
Apps.v
DictFct.v
Endpoints.v
Effect.v
CoreMsg.v
CoreInst.v
PeerTypes.v
Peer.v
LinkLocal.v
Capab.v
Exchange.v
Psm.v
PeerExamples.v
PsmInv.v
PsmSafe.v
CapabSpec.v
PsmReq.v
PsmSpec.v
Watchdog.v
Daemon.v
PeerList.v
PeerNames.v
PeerListSpec.v
Routing.v
RoutingSpec.v
NaiSpec.v
RtInSpec.v
RtOutSpec.v
RtBuiltin.v
Relay.v
RtExamples.v
AclWl.v
AclWlSpec.v
RtDefault.v
RtDefaultSpec.v
MagicConfig.v
MagicPolicy.v
MagicPolicySpec.v
MagicSession.v
MagicSessionSpec.v
MagicTft.v
MagicTftSpec.v
