(* ===== verification/Prelude.v ===== *)
(** * freeDiameter: a verification library for the Diameter protocol core

    The repository is a fork of freeDiameter, a Diameter node in C: a protocol
    library ([src/libfdproto]), the core of the daemon ([src/libfdcore]), and
    extensions.  This development models the protocol library; of the core, what
    makes two nodes talk to each other and a node relay messages: the messages of
    the base protocol, the requests in flight, the state machine of a peer, the
    list of the peers and the routing threads; and of the extensions the whitelist
    of peers ([src/acl_wl]), the routing by rules ([src/rt_default]) and the
    decisions of the MAGIC server ([src/app_magic]: links, sessions, filters), which
    this fork adds.

    *** The parts and the files

    A C function keeps its name.  A call returns [res]: a value, an error code, or
    [Crash], which stands for a failed [ASSERT] and for an access outside of the
    memory that the code owns; the calls on a peer return an [outcome] over the
    [world], as an error leaves what was changed before it, and a failed assertion
    tells whose it is: of the state machine and its connections, of the requests in
    flight, of a value that is read, or of the functions on messages.

    - This file: error codes, [res], integers of fixed width, lists, [compare]
      functions; [Time] ([struct timespec], lists ordered by date); [Effect] (the
      calls on a state, and [wp], what a call may end in).
    - Protocol library: [Lists] ([lists.c], on an explicit heap of nodes), [Ostr]
      and [OsHash] ([ostr.c]), [RtData] ([rt_data.c]), [Fifo] ([fifo.c], threads as
      an interleaving of critical sections), [DictTypes], [Dict], [DictSpec]
      ([dictionary.c]), [DictFct] ([dictionary_functions.c]), [Msg], [MsgBuf],
      [MsgDict], [MsgTree], [MsgRules] ([messages.c]: the tree, the bytes, the
      models of the dictionary, browsing and answers, the rules), [Dispatch]
      ([dispatch.c] and [fd_msg_dispatch]), [Sessions] and [SessSpec]
      ([sessions.c]).
    - Core: [SentReq] ([p_sr.c]), [Apps] ([apps.c]), [Endpoints] ([endpoints.c]),
      [CoreMsg] ([messages.c] of the core), and the peer: [PeerTypes] (its data),
      [Peer] ([p_out.c], [p_expiry.c], what [p_psm.c] and [peers.c] do to it),
      [LinkLocal] ([p_dw.c], [p_dp.c]), [Capab] and [Exchange] ([p_ce.c]), [Psm]
      ([p_psm.c]: each event in each state, and the labels of the thread).
    - The daemon: [Daemon] (the peers, the queues and the messages in memory, and
      the calls on one peer lifted to all of them), [PeerList] ([peers.c]: the
      ordered lists, new peers and new CERs, the end), [Routing]
      ([routing_dispatch.c]: the callbacks of extensions, what the three threads do
      with a message, their control); [PeerNames], [PeerListSpec], [RoutingSpec],
      [NaiSpec], [RtInSpec], [RtOutSpec] and [RtBuiltin] hold the theorems of each
      part, [Relay] those of two threads together, [RtExamples] a concrete relay.
    - Whitelist: [AclWl] ([aw_tree.c], [acl_wl.c], the actions of [aw_conf.l]) and
      [AclWlSpec]; routing by rules: [RtDefault] ([rtd_rules.c], [rt_default.c], the
      actions of [rtd_conf.y]) and [RtDefaultSpec]; the comparisons of C strings that
      both use are in [CString].
    - MAGIC: [MagicConfig] ([magic_config.h], the searches of [magic_config.c]),
      [MagicPolicy] ([magic_policy.c], the allocation with its fallback in
      [magic_cic.c]), [MagicSession] ([magic_session.c], what the handlers of
      [magic_cic.c] and [magic_cic_push.c] do with the sessions), [MagicTft]
      ([magic_tft_validator.c], [magic_napt_validator.c]), each with its theorems
      in the file of the same name with [Spec].

    *** How the parts interact

    The messages know the dictionary through the classes [MsgDictionary],
    [DispDictionary] and [CoreDictionary], and the sessions through [MsgSessions] and
    [NewSessions]: the theorems on messages and on peers are proved for any instance
    with the laws they state, and [DictMsg] and [CoreInst] prove that the
    well-formed dictionaries and the session module are instances.  The state
    machine calls everything else that works on one peer; the list of peers runs
    it on the [world] of each peer, and the routing threads reach a peer through
    the list, by its identity.  What the system answers to it (the clock,
    random numbers, connections, callbacks of extensions) is the record [env], and
    the theorems hold for every [env]; the callbacks of the routing are arguments,
    and the two that the daemon itself registers are definitions.  The whitelist
    is one of the callbacks that decide on a new peer: it answers a [validator].
    The parts of MAGIC share the configuration; its sessions live in one table of
    a hundred slots and are referred to by their index.

    *** What the theorems show

    - Messages: received bytes are parsed without an access outside of the
      buffer; a typed message is written into exactly its length; writing and
      parsing give back the tree; the rules accept exactly the messages they
      describe; browsing is in preorder; an answer has the identifiers of its
      request; the callbacks run in the documented order ([MsgBuf], [MsgDict],
      [MsgTree], [MsgRules], [Dispatch]).
    - Dictionary: its lists stay ordered and complete, searches find what was
      created, deletion refuses what is still in use, and it implements the
      interface of the messages ([DictSpec], [DictMsg]).
    - Sessions: the steps of the threads, in any interleaving, abort in two races
      only, which are described exactly; one session per identifier; the expiry
      thread terminates; identifiers do not repeat ([SessSpec]).
    - Requests in flight: they refine a map from identifiers to requests, each of
      which is answered, expired, failed over or still there ([SentReq]).
    - Containers and strings: queues, lists, endpoints, applications, identities,
      URIs, the hash, addresses and times ([Fifo], [Lists], [Endpoints], [Apps],
      [Ostr], [OsHash], [DictFct], [RtData]).
    - The peer: in a round of its state machine no assertion of the machine, of the
      connections or of the requests in flight fails, outside of the state
      OPEN_HANDSHAKE; those on the values of received messages can, and examples
      show messages that make them fail; each reachable world is consistent
      ([PsmInv], [PsmSafe], [PsmReq], [PsmSpec]).  A peer that stops answering is
      given up ([Watchdog]); two peers read from each other what they are configured
      with, keep after an election the connection of the one with the smaller name,
      and agree on the protection of the connection but in one case ([CapabSpec]).
    - The daemon: the list of peers stays ordered without two equal identities
      ([PeerListSpec]); an incoming request is refused, kept, submitted again or
      forwarded as an abstract decision on its AVPs says ([RtInSpec]), the rewriting
      of decorated names ends ([NaiSpec]); a message leaves to the candidate with
      the most points that can take it, errors go back to the source ([RtOutSpec],
      [RtBuiltin]), callbacks run in their order ([RoutingSpec]), and a relayed
      request ends in the queue of the next hop or is answered ([Relay]).
    - The whitelist: the tree of a file implements two maps of names and stars, and
      a peer is authorized exactly when an entry of the file is for it and the
      connection is protected as the entry asks ([AclWlSpec]).
    - The routing by rules: each candidate gets the sum of the scores of the lines
      that apply to it and to the message ([RtDefaultSpec]).
    - MAGIC: the policy engine answers with the best of the links that pass its
      tests ([MagicPolicySpec]); the tables of the sessions are consistent in each
      run, and fill up after a hundred sessions ([MagicSessionSpec]); a rule for
      traffic is granted exactly when the whitelist contains it ([MagicTftSpec]).

    The properties that are about a defect of the code state what the code does;
    their comments say what it means to do.

    *** Bounds and fuel

    Recursion over a list or a tree is structural, except: parsing with the
    dictionary creates the children of a group, so [fuel] bounds the depth, and
    the theorems ask for a fuel above the depth of the tree or the length of the
    buffer; the walk of a linked list on the heap has as fuel the number of its
    nodes; an AVP in a message that is routed is parsed with that fuel again, and
    the relay needs a fuel above its depth.  The table of MAGIC has a hundred
    slots, a client ten sessions, the tree of the whitelist ten levels, as in the
    code.  The scores of links are binary floating-point numbers ([SpecFloat]
    of the Standard Library).  Integers are [Z]; where the width matters the wrap-around is written
    ([w32], [w64], shifts and masks), and [size_t] has 64 bits.

    *** Not modelled, and why

    Allocation succeeds, and so do the POSIX calls on mutexes and threads.  Dumps,
    logs and hooks are display and are dropped, the hook of dropped messages apart.
    A thread is the sequence of its rounds, each of which runs while it holds its
    lock; in the state machine the other threads run between its rounds, and it is
    cancelled ([fd_psm_abord]) between two rounds.  Of the sessions, a step is what
    runs under one lock: [fd_sess_fromsid], [fd_sess_reclaim_msg] and a turn of the
    expiry thread are two steps each; [fd_sess_reclaim] and the
    deletion of a session, whose locks nest under that of the hash line, are one.  Posting
    to a full queue of the daemon waits for room: the model appends ([Fifo] has the
    waiting).  The freeing of messages is modelled where the daemon owns them by
    address; the code of one peer drops them, and does not release their session.
    The destruction of connections is modelled.  In MAGIC one call on the tables
    runs at a time (the mutex).

    Not modelled at all, as their work is done by the system or by other libraries:
    the sockets and TLS ([cnxctx.c] but for what the peer calls, [tcp.c], [sctp.c],
    [sctp3436.c], [server.c], the thread of [p_cnx.c]), the generated parsers and
    the start of the daemon ([config.c], [core.c], [fdd.y], [extensions.c]); the
    XML configuration, the AVPs, link managers, packet filters and accounting of
    MAGIC.  The dictionary extensions ([dict_]) and [dict_base_proto.c] are data,
    calls of [fd_dict_new] with constants.  The other routing extensions ([rt_])
    are callbacks, arguments of the routing here; the other applications ([app_]) sit
    on databases, RADIUS and EAP libraries. *)

From stdpp Require Import base list gmap sorting.
From Stdlib Require Import ZArith Zbitwise Lia.

Open Scope Z_scope.

(** ** Error codes and outcomes

    The C functions return an [int]: 0 or a POSIX error code.  [errno] lists
    the codes the modelled functions return. *)

Inductive errno :=
  | EINVAL | ENOMEM | EEXIST | ENOENT | EBADMSG | ENOTSUP | ENOSPC | EFAULT
  | EWOULDBLOCK | EPIPE | ETIMEDOUT | EALREADY | EPERM | EDESTADDRREQ.

#[export] Instance errno_eq_dec : EqDecision errno.
Proof. solve_decision. Defined.

(** The outcome of a call: normal return, an error code, or [Crash]: a failed
    [ASSERT] (the process aborts) or an access outside the memory the code
    owns. *)
Inductive res (A : Type) :=
  | Ok (a : A)
  | Err (e : errno)
  | Crash.
Arguments Ok {A} a.
Arguments Err {A} e.
Arguments Crash {A}.

#[export] Instance res_eq_dec {A} `{!EqDecision A} : EqDecision (res A).
Proof. solve_decision. Defined.

Definition res_bind {A B} (m : res A) (f : A → res B) : res B :=
  match m with
  | Ok a => f a
  | Err e => Err e
  | Crash => Crash
  end.

Declare Scope fd_scope.
Delimit Scope fd_scope with fd.
Open Scope fd_scope.

Notation "'let*' x := m 'in' f" := (res_bind m (λ x, f))
  (at level 200, x pattern, m at level 100, f at level 200) : fd_scope.
(** [CHECK_PARAMS]: return [EINVAL] unless the condition holds. *)
Notation "'check' b 'in' f" := (if b then f else Err EINVAL)
  (at level 200, b at level 100, f at level 200) : fd_scope.
(** [ASSERT]: abort unless the condition holds. *)
Notation "'assert!' b 'in' f" := (if b then f else Crash)
  (at level 200, b at level 100, f at level 200) : fd_scope.

Definition is_ok {A} (r : res A) : Prop := ∃ a, r = Ok a.

Lemma res_bind_ok {A B} (m : res A) (f : A → res B) b :
  res_bind m f = Ok b ↔ ∃ a, m = Ok a ∧ f a = Ok b.
Proof. destruct m; naive_solver. Qed.

Lemma res_bind_assoc {A B C} (m : res A) (f : A → res B) (g : B → res C) :
  res_bind (res_bind m f) g = res_bind m (λ a, res_bind (f a) g).
Proof. by destruct m. Qed.

(** [destruct_res] opens every bind of a successful computation in the
    hypotheses. *)
Ltac destruct_res :=
  repeat match goal with
  | H : res_bind _ _ = Ok _ |- _ => apply res_bind_ok in H as (? & ? & ?)
  | H : Ok _ = Ok _ |- _ => injection H as H
  | H : Err _ = Ok _ |- _ => discriminate H
  | H : Crash = Ok _ |- _ => discriminate H
  | H : Ok _ = Err _ |- _ => discriminate H
  | H : Ok _ = Crash |- _ => discriminate H
  | H : (if ?b then _ else Err _) = Ok _ |- _ =>
      let E := fresh "E" in destruct b eqn:E; [|discriminate H]
  | H : (if ?b then _ else Crash) = Ok _ |- _ =>
      let E := fresh "E" in destruct b eqn:E; [|discriminate H]
  end.

(** Discharge a closed decidable goal by evaluation. *)
Ltac by_compute := apply (bool_decide_unpack _); vm_compute; exact I.

(** ** Strings *)

(** The parts of a string between the separators. *)
Fixpoint split_on (sep : Z) (s : list Z) : list (list Z) :=
  match s with
  | [] => [[]]
  | c :: s =>
      if decide (c = sep) then [] :: split_on sep s
      else match split_on sep s with t :: l => (c :: t) :: l | [] => [[c]] end
  end.

(** ** Machine integers

    An unsigned [w]-bit integer is a [Z] in [0 .. 2^w - 1]; arithmetic wraps. *)

Definition w8 (x : Z) : Z := x mod 2 ^ 8.
Definition w16 (x : Z) : Z := x mod 2 ^ 16.
Definition w24 (x : Z) : Z := x mod 2 ^ 24.
Definition w32 (x : Z) : Z := x mod 2 ^ 32.
Definition w64 (x : Z) : Z := x mod 2 ^ 64.

(** The value of the [w]-bit pattern [x] read as a signed integer. *)
Definition signed (w x : Z) : Z :=
  let y := x mod 2 ^ w in if decide (y < 2 ^ (w - 1)) then y else y - 2 ^ w.

Definition is_byte (b : Z) : Prop := 0 ≤ b < 256.
Abbreviation bytes := (list Z).
Definition is_bytes (bs : bytes) : Prop := Forall is_byte bs.

#[export] Instance is_byte_dec b : Decision (is_byte b).
Proof. unfold is_byte. apply _. Defined.
#[export] Instance is_bytes_dec bs : Decision (is_bytes bs).
Proof. unfold is_bytes. apply _. Defined.

Lemma is_bytes_cons b l : is_bytes (b :: l) ↔ is_byte b ∧ is_bytes l.
Proof. apply Forall_cons. Qed.
Lemma is_bytes_app l k : is_bytes (l ++ k) ↔ is_bytes l ∧ is_bytes k.
Proof. apply Forall_app. Qed.

(** Split the hypotheses about explicit byte lists into ranges. *)
Ltac destruct_bytes :=
  repeat match goal with
  | H : is_bytes (_ :: _) |- _ => apply is_bytes_cons in H as [? H]
  | H : is_bytes (_ ++ _) |- _ => apply is_bytes_app in H as [? H]
  | H : is_byte _ |- _ => unfold is_byte in H
  end.

(** Powers of two as literals, so that [lia] sees constant divisors. *)
Ltac pow_const :=
  change (2 ^ 8) with 256 in *; change (2 ^ 16) with 65536 in *;
  change (2 ^ 24) with 16777216 in *; change (2 ^ 32) with 4294967296 in *.

(** Linear arithmetic with division and remainder by literals. *)
Ltac div_lia := pow_const; Z.to_euclidean_division_equations; lia.

Ltac solve_bytes :=
  repeat (apply is_bytes_cons; split; [unfold is_byte; lia|]); first [assumption|apply List.Forall_nil].

Lemma w32_small x : 0 ≤ x < 2 ^ 32 → w32 x = x.
Proof. apply Z.mod_small. Qed.
Lemma w64_small x : 0 ≤ x < 2 ^ 64 → w64 x = x.
Proof. apply Z.mod_small. Qed.
Lemma w32_range x : 0 ≤ w32 x < 2 ^ 32.
Proof. apply Z.mod_pos_bound. lia. Qed.

Create HintDb fd.
#[export] Hint Resolve w32_range : fd.
#[export] Hint Rewrite @length_app @length_cons @length_nil @length_replicate
  @length_take @length_drop : fd_len.

(** [zlen l]: the length of a list as the [size_t] the code keeps beside it. *)
Definition zlen {A} (l : list A) : Z := Z.of_nat (length l).

Lemma zlen_nonneg {A} (l : list A) : 0 ≤ zlen l.
Proof. unfold zlen. lia. Qed.
Lemma zlen_app {A} (l k : list A) : zlen (l ++ k) = zlen l + zlen k.
Proof. unfold zlen. rewrite length_app. lia. Qed.
Lemma zlen_cons {A} (x : A) l : zlen (x :: l) = 1 + zlen l.
Proof. unfold zlen. simpl. lia. Qed.
Lemma zlen_nil {A} : zlen (@nil A) = 0.
Proof. done. Qed.
(** The length without an element that occurs once at most. *)
Lemma zlen_removed {A} `{!EqDecision A} (o : A) l :
  NoDup l → zlen (filter (λ p, p ≠ o) l) = zlen l - (if decide (o ∈ l) then 1 else 0).
Proof.
  induction 1 as [|y l Hy Hnd IH]; [done|]. rewrite filter_cons, zlen_cons. destruct (decide (y ≠ o)) as [Hne|Hne].
  - rewrite zlen_cons, IH. repeat case_decide; try lia; set_solver.
  - apply dec_stable in Hne as ->. rewrite IH. repeat case_decide; try lia; set_solver.
Qed.
#[export] Hint Resolve zlen_nonneg : fd.
#[export] Hint Rewrite @zlen_app @zlen_cons @zlen_nil : fd_len.

(** ** Ordering functions and ordered insertion

    The C comparison functions return a negative, zero or positive [int].
    [CmpOrder] is what the ordered containers need of one. *)

Class CmpOrder {A} (cmp : A → A → Z) : Prop := {
  cmp_refl x : cmp x x = 0;
  cmp_sym x y : cmp x y < 0 ↔ 0 < cmp y x;
  cmp_trans x y z : cmp x y ≤ 0 → cmp y z ≤ 0 → cmp x z ≤ 0 }.

(** Strictly increasing lists: the order without duplicates that ordered
    insertion maintains. *)
Definition Increasing {A} (cmp : A → A → Z) : list A → Prop :=
  StronglySorted (λ x y, cmp x y < 0).

Section cmp.
Context {A : Type} (cmp : A → A → Z) `{!CmpOrder cmp}.

Lemma cmp_lt_gt x y : cmp x y < 0 → 0 < cmp y x.
Proof. apply cmp_sym. Qed.
Lemma cmp_gt_lt x y : 0 < cmp x y → cmp y x < 0.
Proof. apply cmp_sym. Qed.
Lemma cmp_zero_sym x y : cmp x y = 0 → cmp y x = 0.
Proof.
  intros E. destruct (Z.lt_total (cmp y x) 0) as [Hlt|[?|Hgt]]; [|done|].
  - apply cmp_lt_gt in Hlt. lia.
  - apply cmp_gt_lt in Hgt. lia.
Qed.
Lemma cmp_lt_le_trans x y z : cmp x y < 0 → cmp y z ≤ 0 → cmp x z < 0.
Proof.
  intros H1 H2. destruct (decide (cmp x z < 0)) as [?|Hn]; [done|]. exfalso.
  assert (cmp z x ≤ 0).
  { destruct (decide (cmp z x ≤ 0)) as [|Hz]; [done|].
    assert (cmp x z < 0) by (apply cmp_gt_lt; lia). lia. }
  apply cmp_lt_gt in H1. pose proof (cmp_trans y z x). lia.
Qed.
Lemma cmp_le_lt_trans x y z : cmp x y ≤ 0 → cmp y z < 0 → cmp x z < 0.
Proof.
  intros H1 H2. destruct (decide (cmp x z < 0)) as [?|Hn]; [done|]. exfalso.
  assert (cmp z x ≤ 0).
  { destruct (decide (cmp z x ≤ 0)) as [|Hz]; [done|].
    assert (cmp x z < 0) by (apply cmp_gt_lt; lia). lia. }
  apply cmp_lt_gt in H2. pose proof (cmp_trans z x y). lia.
Qed.
Lemma cmp_lt_trans x y z : cmp x y < 0 → cmp y z < 0 → cmp x z < 0.
Proof. intros. eapply cmp_lt_le_trans; [done|lia]. Qed.

(** [ordered_split x l]: the position of [x] in [l] (what stays before, what
    goes behind), or the first element that compares equal to it. *)
Fixpoint ordered_split (x : A) (l : list A) : (list A * list A) + A :=
  match l with
  | [] => inl ([], [])
  | y :: l' =>
      if decide (cmp x y = 0) then inr y
      else if decide (cmp x y < 0) then inl ([], l)
      else match ordered_split x l' with
           | inl (a, b) => inl (y :: a, b)
           | inr d => inr d
           end
  end.

Lemma ordered_split_app x l a b : ordered_split x l = inl (a, b) → l = a ++ b.
Proof.
  revert a. induction l as [|y l IH]; intros a; simpl; [naive_solver|].
  repeat case_decide; [done|naive_solver|].
  destruct (ordered_split x l) as [[a' b']|]; [|done]. intros [= <- <-]. simpl. f_equal. by apply IH.
Qed.

Lemma ordered_split_dup x l d : ordered_split x l = inr d → d ∈ l ∧ cmp x d = 0.
Proof.
  induction l as [|y l IH]; simpl; [done|]. repeat case_decide; [|done|].
  - intros [= <-]. split; [by left|done].
  - destruct (ordered_split x l) as [[]|]; [done|]. intros [= <-].
    destruct IH; [done|]. split; [by right|done].
Qed.

(** On an increasing list the position found separates the smaller from the
    greater elements: insertion keeps the list increasing, and a duplicate is
    reported whenever there is one. *)
Lemma ordered_split_bounds x l a b :
  Increasing cmp l → ordered_split x l = inl (a, b) →
  Forall (λ y, cmp y x < 0) a ∧ Forall (λ y, cmp x y < 0) b.
Proof.
  intros Hs. revert a. induction Hs as [|y l Hs IH Hy]; intros a; simpl; [naive_solver|].
  repeat case_decide; [done| |].
  - intros [= <- <-]. split; [done|]. constructor; [done|].
    eapply Forall_impl; [done|]. simpl. intros z ?. by eapply cmp_lt_trans.
  - destruct (ordered_split x l) as [[a' b']|] eqn:E; [|done]. intros [= <- <-].
    destruct (IH a' eq_refl). split; [|done]. constructor; [|done]. apply cmp_gt_lt. lia.
Qed.

Lemma StronglySorted_mid (R : A → A → Prop) a x b :
  StronglySorted R (a ++ b) → Forall (λ y, R y x) a → Forall (R x) b →
  StronglySorted R (a ++ x :: b).
Proof.
  induction a as [|y a IH]; simpl; [by constructor|].
  intros [Hs Hy]%StronglySorted_inv [Hyx Ha]%Forall_cons Hb.
  constructor; [by apply IH|]. apply Forall_app in Hy as [? ?].
  apply Forall_app. split; [done|]. by constructor.
Qed.

Lemma ordered_split_increasing x l a b :
  Increasing cmp l → ordered_split x l = inl (a, b) → Increasing cmp (a ++ x :: b).
Proof.
  intros Hs E. destruct (ordered_split_bounds _ _ _ _ Hs E).
  apply ordered_split_app in E. apply StronglySorted_mid; [by rewrite <- E|done..].
Qed.

Lemma ordered_split_absent x l a b y :
  Increasing cmp l → ordered_split x l = inl (a, b) → y ∈ l → cmp x y ≠ 0.
Proof.
  intros Hs E Hy Hz. destruct (ordered_split_bounds _ _ _ _ Hs E) as [Ha Hb].
  apply ordered_split_app in E. rewrite E in Hy. rewrite Forall_forall in Ha, Hb.
  apply elem_of_app in Hy as [Hy|Hy].
  - apply Ha in Hy. apply cmp_lt_gt in Hy. lia.
  - apply Hb in Hy. lia.
Qed.
End cmp.
Arguments ordered_split {A} cmp x l.

(** Only the comparisons between elements matter. *)
Lemma Increasing_ext {A} (cmp cmp' : A → A → Z) l :
  (∀ x y, x ∈ l → y ∈ l → cmp x y = cmp' x y) → Increasing cmp l → Increasing cmp' l.
Proof.
  intros He Hs. induction Hs as [|x l Hs IH Hx]; constructor.
  - apply IH. intros y z Hy Hz. apply He; by right.
  - rewrite Forall_forall in *. intros y Hy. rewrite <- He; [by apply Hx|by left|by right].
Qed.

Lemma Increasing_filter {A} (cmp : A → A → Z) (P : A → Prop) `{∀ x, Decision (P x)} l :
  Increasing cmp l → Increasing cmp (filter P l).
Proof.
  induction 1 as [|x l Hs IH Hx]; [constructor|]. rewrite filter_cons. case_decide; [|done].
  constructor; [done|]. rewrite Forall_forall in *. intros y [_ Hy]%list_elem_of_filter. by apply Hx.
Qed.

Lemma Increasing_NoDup {A} (cmp : A → A → Z) `{!CmpOrder cmp} l : Increasing cmp l → NoDup l.
Proof.
  induction 1 as [|x l Hs IH Hx]; constructor; [|done]. rewrite Forall_forall in Hx. intros Hin.
  specialize (Hx x Hin). rewrite cmp_refl in Hx. lia.
Qed.

(** In an increasing list an element is known by its place in the order. *)
Lemma Increasing_inj {A} (cmp : A → A → Z) `{!CmpOrder cmp} l x y :
  Increasing cmp l → x ∈ l → y ∈ l → cmp x y = 0 → x = y.
Proof.
  induction 1 as [|z l Hs IH Hz]; [by intros ?%not_elem_of_nil|]. rewrite Forall_forall in Hz.
  intros [->|Hx]%elem_of_cons [->|Hy]%elem_of_cons Hk; [done|..|by apply IH]; exfalso.
  - specialize (Hz y Hy). lia.
  - specialize (Hz x Hx). apply (cmp_lt_gt cmp) in Hz. lia.
Qed.

(** An order on keys is one on the elements that have the keys. *)
Lemma CmpOrder_key {A K} (cmp : K → K → Z) `{!CmpOrder cmp} (f : A → K) : CmpOrder (λ x y, cmp (f x) (f y)).
Proof. split; intros; [apply cmp_refl|apply cmp_sym|by eapply cmp_trans]. Qed.

(** Comparison of integer keys by subtraction. *)
#[export] Instance Z_sub_cmp : CmpOrder Z.sub.
Proof. split; intros; lia. Qed.

(** ** Disjoint bit patterns *)

Lemma testbit_small a n i : 0 ≤ a < 2 ^ n → n ≤ i → Z.testbit a i = false.
Proof.
  intros Ha Hi. destruct (decide (a = 0)) as [->|?]; [apply Z.bits_0|].
  apply Z.bits_above_log2; [lia|]. assert (Z.log2 a < n); [|lia].
  apply Z.log2_lt_pow2; lia.
Qed.

Lemma land_shift_zero a b n : 0 ≤ n → 0 ≤ a < 2 ^ n → Z.land a (Z.shiftl b n) = 0.
Proof.
  intros Hn Ha. apply Z.bits_inj'. intros i Hi. rewrite Z.land_spec, Z.shiftl_spec, Z.bits_0 by done.
  destruct (decide (i < n)).
  - rewrite (Z.testbit_neg_r b) by lia. apply andb_false_r.
  - by rewrite (testbit_small a n i) by lia.
Qed.

(** Or-ing a shifted value into the free low bits is an addition. *)
Lemma lor_shift_add a b n : 0 ≤ n → 0 ≤ a < 2 ^ n → Z.lor a (Z.shiftl b n) = a + b * 2 ^ n.
Proof.
  intros Hn Ha. rewrite <- Z.shiftl_mul_pow2 by done.
  pose proof (Z.add_lor_land a (Z.shiftl b n)). pose proof (land_shift_zero a b n Hn Ha). lia.
Qed.
Lemma lxor_shift_add a b n : 0 ≤ n → 0 ≤ a < 2 ^ n → Z.lxor a (Z.shiftl b n) = a + b * 2 ^ n.
Proof.
  intros Hn Ha. rewrite <- Z.shiftl_mul_pow2 by done.
  pose proof (Z.add_lxor_2land a (Z.shiftl b n)). pose proof (land_shift_zero a b n Hn Ha). lia.
Qed.

(** A masked low part. *)
Lemma land_ones_mod a n : 0 ≤ n → Z.land a (2 ^ n - 1) = a mod 2 ^ n.
Proof. intros Hn. rewrite <- Z.land_ones by done. by rewrite Z.ones_equiv, <- Z.sub_1_r. Qed.

(** ** Computations over lists *)

Section list_res.
Context {A B S : Type}.

(** Apply a fallible function to every element, from left to right. *)
Definition mapR (f : A → res B) : list A → res (list B) :=
  fix go l := match l with
              | [] => Ok []
              | x :: l => let* y := f x in let* ys := go l in Ok (y :: ys)
              end.

(** Thread a state through a list. *)
Definition foldR (f : A → S → res S) : list A → S → res S :=
  fix go l s := match l with
                | [] => Ok s
                | x :: l => let* s := f x s in go l s
                end.
End list_res.

Lemma mapR_ok {A B} (f : A → res B) l ys :
  mapR f l = Ok ys ↔ Forall2 (λ x y, f x = Ok y) l ys.
Proof.
  revert ys. induction l as [|x l IH]; intros ys; simpl.
  - split; [intros [= <-]; constructor|by inversion 1].
  - split.
    + intros (y & Hy & (ys' & Hys & [= <-])%res_bind_ok)%res_bind_ok. constructor; [done|]. by apply IH.
    + inversion 1 as [|? y ? ys' Hy Hys]; subst. rewrite Hy. simpl. by rewrite (proj2 (IH ys') Hys).
Qed.

Lemma foldR_map {A B S} (f : B → S → res S) (g : A → B) l s :
  foldR f (map g l) s = foldR (λ a, f (g a)) l s.
Proof. revert s. induction l as [|a l IH]; intros s; simpl; [done|]. destruct (f (g a) s); simpl; auto. Qed.

(** ** Big-endian numbers *)

Fixpoint be (n : nat) (v : Z) : bytes :=
  match n with
  | 0%nat => []
  | S n => (v / 2 ^ (8 * Z.of_nat n)) mod 256 :: be n v
  end.

Definition unbe (l : bytes) : Z := foldl (λ a b, a * 256 + b) 0 l.

Lemma length_be n v : length (be n v) = n.
Proof. induction n; simpl; congruence. Qed.
Lemma zlen_be n v : zlen (be n v) = Z.of_nat n.
Proof. unfold zlen. by rewrite length_be. Qed.

Lemma be_is_bytes n v : is_bytes (be n v).
Proof.
  induction n as [|n IH]; [constructor|]. simpl. apply is_bytes_cons. split; [|done].
  unfold is_byte. apply Z.mod_pos_bound. lia.
Qed.

Lemma unbe_foldl a l : foldl (λ a b, a * 256 + b) a l = a * 2 ^ (8 * zlen l) + unbe l.
Proof.
  unfold unbe. revert a. induction l as [|b l IH]; intros a.
  - change (8 * zlen (@nil Z)) with 0. cbn. lia.
  - cbn [foldl]. rewrite IH, (IH (0 * 256 + b)), zlen_cons.
    rewrite Z.mul_add_distr_l, Z.pow_add_r by (pose proof (zlen_nonneg l); lia). lia.
Qed.

Lemma unbe_cons b l : unbe (b :: l) = b * 2 ^ (8 * zlen l) + unbe l.
Proof. unfold unbe at 1. cbn [foldl]. rewrite unbe_foldl. lia. Qed.

Lemma unbe_be n v : unbe (be n v) = v mod 2 ^ (8 * Z.of_nat n).
Proof.
  induction n as [|n IH]; [simpl; by rewrite Z.mod_1_r|].
  cbn [be]. rewrite unbe_cons, IH, zlen_be.
  replace (8 * Z.of_nat (S n)) with (8 * Z.of_nat n + 8) by lia.
  rewrite Z.pow_add_r, Z.rem_mul_r by lia. change (2 ^ 8) with 256. lia.
Qed.

Lemma unbe_be_small n v : 0 ≤ v < 2 ^ (8 * Z.of_nat n) → unbe (be n v) = v.
Proof. intros. rewrite unbe_be. by apply Z.mod_small. Qed.

Lemma unbe_range l : is_bytes l → 0 ≤ unbe l < 2 ^ (8 * zlen l).
Proof.
  induction l as [|b l IH]; [done|]. intros [Hb Hl]%is_bytes_cons. specialize (IH Hl).
  rewrite unbe_cons, zlen_cons, Z.mul_add_distr_l, Z.pow_add_r by (pose proof (zlen_nonneg l); lia).
  unfold is_byte in Hb. change (2 ^ (8 * 1)) with 256. nia.
Qed.

Lemma be_unbe l : is_bytes l → be (length l) (unbe l) = l.
Proof.
  induction l as [|b l IH]; [done|]. intros [Hb Hl]%is_bytes_cons. cbn [length be].
  pose proof (unbe_range l Hl) as Hr. unfold zlen in Hr. rewrite unbe_cons. unfold zlen. f_equal.
  - rewrite Z.div_add_l by lia. rewrite (Z.div_small (unbe l)) by lia. rewrite Z.add_0_r.
    apply Z.mod_small. exact Hb.
  - transitivity (be (length l) (unbe l)); [|by apply IH].
    generalize (unbe l). intros v. set (m := length l). clearbody m.
    assert (∀ n k, (n ≤ m)%nat → be n (b * 2 ^ (8 * Z.of_nat m) + k) = be n k) as Hbe; [|by apply Hbe].
    intros n. induction n as [|n IHn]; intros k Hn; [done|]. cbn [be]. rewrite IHn by lia. f_equal.
    replace (8 * Z.of_nat m) with (8 * (Z.of_nat m - Z.of_nat n - 1) + 8 + 8 * Z.of_nat n) by lia.
    rewrite !Z.pow_add_r by lia. rewrite !Z.mul_assoc, Z.div_add_l by lia.
    change (2 ^ 8) with 256. rewrite Z.add_comm, Z.mod_add by lia. done.
Qed.

(** ** Writing into a buffer *)

(** [memcpy(buffer + off, data, ..)]: a write outside of the buffer is a
    [Crash]. *)
Definition blit (off : Z) (data buffer : bytes) : res bytes :=
  if decide (0 ≤ off ∧ off + zlen data ≤ zlen buffer) then
    Ok (take (Z.to_nat off) buffer ++ data ++ drop (Z.to_nat (off + zlen data)) buffer)
  else Crash.

Lemma blit_app l data k m :
  length k = length data → blit (zlen l) data (l ++ k ++ m) = Ok (l ++ data ++ m).
Proof.
  intros Hk. unfold blit. rewrite !zlen_app. unfold zlen. rewrite decide_True by lia.
  rewrite Nat2Z.id, take_app_length. do 3 f_equal.
  replace (Z.to_nat (Z.of_nat (length l) + Z.of_nat (length data))) with (length l + length k)%nat by lia.
  by rewrite <- drop_drop, !drop_app_length.
Qed.
