(* ===== verification/Time.v ===== *)
(** * Dates, and lists ordered by date ([libfdproto.h])

    [struct timespec] and its comparison, and what the lists of expiring
    objects share: sorted lists, and insertion before or behind the elements of
    an equal date. *)

From stdpp Require Import base sets sorting list.
From Stdlib Require Import ZArith Lia.
From S2P Require Import Prelude.

Record timespec := TS { tv_sec : Z; tv_nsec : Z }.

Definition TS_IS_INFERIOR (ts1 ts2 : timespec) : bool :=
  bool_decide (tv_sec ts1 < tv_sec ts2) ||
  (bool_decide (tv_sec ts1 = tv_sec ts2) && bool_decide (tv_nsec ts1 < tv_nsec ts2)).

Definition ts_lt (a b : timespec) : Prop := tv_sec a < tv_sec b ∨ (tv_sec a = tv_sec b ∧ tv_nsec a < tv_nsec b).
Definition ts_le (a b : timespec) : Prop := ¬ ts_lt b a.

Lemma TS_IS_INFERIOR_true a b : TS_IS_INFERIOR a b = true ↔ ts_lt a b.
Proof. unfold TS_IS_INFERIOR, ts_lt. by rewrite orb_true_iff, andb_true_iff, !bool_decide_eq_true. Qed.
Lemma TS_IS_INFERIOR_false a b : TS_IS_INFERIOR a b = false ↔ ts_le b a.
Proof. unfold ts_le. rewrite <- TS_IS_INFERIOR_true. by destruct (TS_IS_INFERIOR a b). Qed.

Ltac ts_lia := unfold ts_le, ts_lt in *; lia.

(** ** Sorted lists *)

Lemma StronglySorted_ext {A} (R R' : A → A → Prop) l :
  (∀ x y, x ∈ l → y ∈ l → R x y → R' x y) → StronglySorted R l → StronglySorted R' l.
Proof.
  intros He Hs. induction Hs as [|x l Hs IH Hx]; constructor.
  - apply IH. intros y z Hy Hz. apply He; by right.
  - rewrite Forall_forall in Hx. apply Forall_forall. intros y Hy. apply He; [by left|by right|by apply Hx].
Qed.

Lemma StronglySorted_filter {A} (R : A → A → Prop) (P : A → Prop) `{∀ x, Decision (P x)} l :
  StronglySorted R l → StronglySorted R (filter P l).
Proof.
  induction 1 as [|x l Hs IH Hx]; [constructor|]. rewrite filter_cons. case_decide; [|done].
  constructor; [done|]. rewrite Forall_forall in Hx. apply Forall_forall. intros y [_ Hy]%list_elem_of_filter. by apply Hx.
Qed.

Lemma StronglySorted_sublist {A} (R : A → A → Prop) k l : sublist k l → StronglySorted R l → StronglySorted R k.
Proof.
  induction 1 as [|x k l Hkl IH|x k l Hkl IH]; [done|..]; intros [Hs Hx]%StronglySorted_inv.
  - constructor; [by apply IH|]. rewrite Forall_forall in *. intros y Hy. apply Hx. by eapply elem_of_sublist.
  - by apply IH.
Qed.

Lemma StronglySorted_app_r {A} (R : A → A → Prop) a b : StronglySorted R (a ++ b) → StronglySorted R b.
Proof. induction a as [|x a IH]; [done|]. cbn. intros [Hs _]%StronglySorted_inv. by apply IH. Qed.

Lemma StronglySorted_app_last {A} (R : A → A → Prop) a z b : StronglySorted R (a ++ z :: b) → Forall (λ y, R y z) a.
Proof.
  induction a as [|x a IH]; [constructor|]. cbn. intros [Hs Hx]%StronglySorted_inv. constructor; [|by apply IH].
  rewrite Forall_forall in Hx. apply Hx. set_solver.
Qed.

Lemma list_filter_all {A} (P : A → Prop) `{∀ x, Decision (P x)} l : Forall P l → filter P l = l.
Proof. induction 1 as [|x l Hx _ IH]; [done|]. by rewrite filter_cons, decide_True, IH. Qed.

(** [fd_list_unlink] of an element that may be in the list. *)
Definition unlink (x : nat) (l : list nat) : list nat := filter (λ y, y ≠ x) l.

Lemma elem_of_unlink x y l : y ∈ unlink x l ↔ y ≠ x ∧ y ∈ l.
Proof. unfold unlink. by rewrite list_elem_of_filter. Qed.

Lemma unlink_absent x l : x ∉ l → unlink x l = l.
Proof. intros Hx. apply list_filter_all, Forall_forall. by intros y Hy ->. Qed.

(** ** Insertion by date *)

Section dates.
Context {A : Type} (date : A → timespec).

Definition by_date : list A → Prop := StronglySorted (λ x y, ts_le (date x) (date y)).

Lemma ts_mid x (l a b : list A) (t : timespec) :
  l = a ++ b → by_date l → date x = t →
  (∀ y, y ∈ a → ts_le (date y) t) → (∀ y, y ∈ b → ts_le t (date y)) → by_date (a ++ x :: b).
Proof.
  intros -> Hs Ht Ha Hb. apply StronglySorted_mid; [done|apply Forall_forall; intros y Hy..]; rewrite Ht; auto.
Qed.

Lemma sorted_head_le t z b : by_date (z :: b) → ts_le t (date z) → ∀ y, y ∈ z :: b → ts_le t (date y).
Proof.
  intros [_ Hz]%StronglySorted_inv Ht y [->|Hy]%elem_of_cons; [done|]. rewrite Forall_forall in Hz.
  specialize (Hz y Hy). ts_lia.
Qed.

(** The place in front of the first element that is not before [t]. *)
Lemma by_date_first x t a b :
  by_date (a ++ b) → date x = t → (∀ y, y ∈ a → ts_lt (date y) t) →
  match b with [] => True | z :: _ => ts_le t (date z) end → by_date (a ++ x :: b).
Proof.
  intros Hs Ht Ha Hb. eapply ts_mid; [done..| |].
  - intros y Hy. specialize (Ha y Hy). ts_lia.
  - apply StronglySorted_app_r in Hs. destruct b as [|z b]; [set_solver|]. by apply sorted_head_le.
Qed.

(** The place behind the last element that is before [t]; [b] is what the walk
    from the end has left, in reverse order. *)
Lemma by_date_last x t a b :
  by_date (rev b ++ rev a) → date x = t → (∀ y, y ∈ a → ts_le t (date y)) →
  match b with [] => True | z :: _ => ts_lt (date z) t end → by_date (rev b ++ x :: rev a).
Proof.
  intros Hs Ht Ha Hb. eapply ts_mid; [done..| |].
  - intros y Hy. destruct b as [|z b]; [by apply not_elem_of_nil in Hy|]. cbn [rev] in Hy, Hs.
    rewrite <- app_assoc in Hs. cbn [app] in Hs. apply StronglySorted_app_last in Hs. rewrite Forall_forall in Hs.
    apply elem_of_app in Hy as [Hy|Hy%list_elem_of_singleton]; [specialize (Hs y Hy)|subst y]; ts_lia.
  - intros y Hy. apply Ha. by rewrite list_elem_of_In, in_rev, <- list_elem_of_In.
Qed.
End dates.
