(* ===== verification/Lists.v ===== *)
(** * Doubly linked lists ([libfdproto/lists.c], [struct fd_list])

    The store is a finite map from addresses to list nodes; every operation
    reads and writes it field by field, in the order of the code, so aliasing
    between the sentinel, the reference and the item is the code's own.  A read
    of an address that holds no node, and a failed [ASSERT], is [Crash].

    [is_list h s xs] is the abstract view: the ring that starts at the sentinel
    [s] holds exactly the nodes [xs], in order.  Every operation is shown to
    implement the obvious operation on the sequence [xs]; the components above
    keep their [fd_list] chains as such sequences. *)

From stdpp Require Import base list gmap sorting.
From Stdlib Require Import ZArith Lia.
From S2P Require Import Prelude.

Abbreviation loc := positive.

Section lists.
Context {O : Type}.

(** [struct fd_list]. *)
Record fd_list := FdList { next : loc; prev : loc; head : loc; o : O }.

Abbreviation heap := (gmap loc fd_list).

Definition rd (h : heap) (p : loc) : res fd_list :=
  match h !! p with Some n => Ok n | None => Crash end.

Definition with_next (v : loc) (n : fd_list) := FdList v (prev n) (head n) (o n).
Definition with_prev (v : loc) (n : fd_list) := FdList (next n) v (head n) (o n).
Definition with_head (v : loc) (n : fd_list) := FdList (next n) (prev n) v (o n).

(** A field assignment through a pointer. *)
Definition store (f : fd_list → fd_list) (h : heap) (p : loc) : res heap :=
  let* n := rd h p in Ok (<[p := f n]> h).

(** [fd_list_init]: the node at [p] becomes a ring of one.  The storage is the
    caller's, so the write also allocates. *)
Definition fd_list_init (h : heap) (p : loc) (obj : O) : heap :=
  <[p := FdList p p p obj]> h.

Definition check_single (h : heap) (li : loc) : res bool :=
  let* n := rd h li in
  Ok (bool_decide (next n = li) && bool_decide (prev n = li) && bool_decide (head n = li)).

Definition list_insert_after (h : heap) (ref item : loc) : res heap :=
  let* h := store (with_prev ref) h item in
  let* r := rd h ref in
  let* h := store (with_next (next r)) h item in
  let* r := rd h ref in
  let* h := store (with_head (head r)) h item in
  let* r := rd h ref in
  let* h := store (with_prev item) h (next r) in
  store (with_next item) h ref.

Definition fd_list_insert_after (h : heap) (ref item : loc) : res heap :=
  let* single := check_single h item in
  assert! single in
  let* r := rd h ref in
  assert! bool_decide (head r ≠ item) in
  list_insert_after h ref item.

(** The loop of [fd_list_move_end]: [for (li = ...; li != senti; li = li->next)
    li->head = ref;].  The fuel bounds the number of nodes walked; running out
    of it would be an endless walk. *)
Fixpoint move_heads (fuel : nat) (h : heap) (li senti ref : loc) : res heap :=
  if decide (li = senti) then Ok h else
  match fuel with
  | 0%nat => Crash
  | S fuel =>
      let* h := store (with_head ref) h li in
      let* n := rd h li in
      move_heads fuel h (next n) senti ref
  end.

Definition fd_list_move_end (h : heap) (ref senti : loc) : res heap :=
  let* r := rd h ref in
  assert! bool_decide (head r = ref) in
  let* s := rd h senti in
  assert! bool_decide (head s = senti) in
  if decide (next s = senti) then Ok h else
  let* h := move_heads (size h) h (next s) senti ref in
  let* s := rd h senti in let* r := rd h ref in
  let* h := store (with_prev (prev r)) h (next s) in
  let* s := rd h senti in let* r := rd h ref in
  let* h := store (with_next (next s)) h (prev r) in
  let* s := rd h senti in
  let* h := store (with_next ref) h (prev s) in
  let* s := rd h senti in
  let* h := store (with_prev (prev s)) h ref in
  let* h := store (with_prev senti) h senti in
  store (with_next senti) h senti.

Definition list_insert_before (h : heap) (ref item : loc) : res heap :=
  let* r := rd h ref in
  let* h := store (with_prev (prev r)) h item in
  let* h := store (with_next ref) h item in
  let* r := rd h ref in
  let* h := store (with_head (head r)) h item in
  let* r := rd h ref in
  let* h := store (with_next item) h (prev r) in
  store (with_prev item) h ref.

Definition fd_list_insert_before (h : heap) (ref item : loc) : res heap :=
  let* single := check_single h item in
  assert! single in
  let* r := rd h ref in
  assert! bool_decide (head r ≠ item) in
  list_insert_before h ref item.

(** The search of [fd_list_insert_ordered], from [ptr]: either the position
    after which the item goes, or the object of the element that compares
    equal. *)
Fixpoint ordered_search (fuel : nat) (cmp_fct : O → O → Z) (h : heap)
    (hd item ptr : loc) : res (loc + O) :=
  let* p := rd h ptr in
  if decide (next p = hd) then Ok (inl ptr) else
  match fuel with
  | 0%nat => Crash
  | S fuel =>
      let* it := rd h item in
      let* n := rd h (next p) in
      let cmp := cmp_fct (o it) (o n) in
      if decide (cmp = 0) then Ok (inr (o n))
      else if decide (cmp < 0) then Ok (inl ptr)
      else ordered_search fuel cmp_fct h hd item (next p)
  end.

(** The result is [(h', None)] for a return value of 0, and [(h, Some d)] for
    [EEXIST] with [*ref_duplicate = d]. *)
Definition fd_list_insert_ordered (h : heap) (hd item : loc) (cmp_fct : O → O → Z)
    : res (heap * option O) :=
  let* n := rd h hd in
  assert! bool_decide (head n = hd) in
  let* single := check_single h item in
  assert! single in
  let* r := ordered_search (size h) cmp_fct h hd item hd in
  match r with
  | inr d => Ok (h, Some d)
  | inl ptr => let* h' := list_insert_after h ptr item in Ok (h', None)
  end.

Definition fd_list_unlink (h : heap) (item : loc) : res heap :=
  let* it := rd h item in
  if decide (head it = item) then Ok h else
  let* h := store (with_prev (prev it)) h (next it) in
  let* it := rd h item in
  let* h := store (with_next (next it)) h (prev it) in
  let* h := store (with_next item) h item in
  let* h := store (with_prev item) h item in
  store (with_head item) h item.

(** [FD_IS_LIST_EMPTY]. *)
Definition FD_IS_LIST_EMPTY (h : heap) (li : loc) : res bool :=
  let* n := rd h li in
  Ok (bool_decide (head n = li) && bool_decide (next n = li)).

(** ** The abstract view *)

Definition nx (h : heap) (p : loc) : option loc := next <$> h !! p.
Definition pv (h : heap) (p : loc) : option loc := prev <$> h !! p.
Definition hdp (h : heap) (p : loc) : option loc := head <$> h !! p.
Definition obj (h : heap) (p : loc) : option O := o <$> h !! p.

(** Consecutive addresses of [l] are linked in both directions. *)
Fixpoint links (h : heap) (l : list loc) : Prop :=
  match l with
  | a :: ((b :: _) as t) => nx h a = Some b ∧ pv h b = Some a ∧ links h t
  | _ => True
  end.

Definition is_list (h : heap) (s : loc) (xs : list loc) : Prop :=
  NoDup (s :: xs) ∧ Forall (λ x, hdp h x = Some s) (s :: xs) ∧ links h (s :: xs ++ [s]).

(** ** Field lookups after an assignment *)

Section fields.
Context (h : heap).

Lemma nx_next v p q :
  nx (alter (with_next v) p h) q = if decide (p = q) then (λ _, v) <$> nx h q else nx h q.
Proof. unfold nx. rewrite lookup_alter. case_decide; [subst|done]. by destruct (h !! q). Qed.
Lemma nx_prev v p q : nx (alter (with_prev v) p h) q = nx h q.
Proof. unfold nx. rewrite lookup_alter. case_decide; [subst|done]. by destruct (h !! q). Qed.
Lemma nx_head v p q : nx (alter (with_head v) p h) q = nx h q.
Proof. unfold nx. rewrite lookup_alter. case_decide; [subst|done]. by destruct (h !! q). Qed.
Lemma pv_prev v p q :
  pv (alter (with_prev v) p h) q = if decide (p = q) then (λ _, v) <$> pv h q else pv h q.
Proof. unfold pv. rewrite lookup_alter. case_decide; [subst|done]. by destruct (h !! q). Qed.
Lemma pv_next v p q : pv (alter (with_next v) p h) q = pv h q.
Proof. unfold pv. rewrite lookup_alter. case_decide; [subst|done]. by destruct (h !! q). Qed.
Lemma pv_head v p q : pv (alter (with_head v) p h) q = pv h q.
Proof. unfold pv. rewrite lookup_alter. case_decide; [subst|done]. by destruct (h !! q). Qed.
Lemma hdp_head v p q :
  hdp (alter (with_head v) p h) q = if decide (p = q) then (λ _, v) <$> hdp h q else hdp h q.
Proof. unfold hdp. rewrite lookup_alter. case_decide; [subst|done]. by destruct (h !! q). Qed.
Lemma hdp_next v p q : hdp (alter (with_next v) p h) q = hdp h q.
Proof. unfold hdp. rewrite lookup_alter. case_decide; [subst|done]. by destruct (h !! q). Qed.
Lemma hdp_prev v p q : hdp (alter (with_prev v) p h) q = hdp h q.
Proof. unfold hdp. rewrite lookup_alter. case_decide; [subst|done]. by destruct (h !! q). Qed.
Lemma obj_next v p q : obj (alter (with_next v) p h) q = obj h q.
Proof. unfold obj. rewrite lookup_alter. case_decide; [subst|done]. by destruct (h !! q). Qed.
Lemma obj_prev v p q : obj (alter (with_prev v) p h) q = obj h q.
Proof. unfold obj. rewrite lookup_alter. case_decide; [subst|done]. by destruct (h !! q). Qed.
Lemma obj_head v p q : obj (alter (with_head v) p h) q = obj h q.
Proof. unfold obj. rewrite lookup_alter. case_decide; [subst|done]. by destruct (h !! q). Qed.

Lemma hdp_is_Some p : is_Some (hdp h p) ↔ is_Some (h !! p).
Proof. unfold hdp. apply fmap_is_Some. Qed.

(** A read and an assignment succeed on an allocated node. *)
Lemma rd_fields p hd n v :
  hdp h p = Some hd → nx h p = Some n → pv h p = Some v →
  ∃ ob, obj h p = Some ob ∧ rd h p = Ok (FdList n v hd ob).
Proof.
  unfold rd, hdp, nx, pv, obj. destruct (h !! p) as [[? ? ? ob]|] eqn:E; simpl; [|done].
  intros. simplify_eq/=. eauto.
Qed.
Lemma store_alter f p : is_Some (h !! p) → store f h p = Ok (alter f p h).
Proof.
  unfold store, rd. intros [n E]. rewrite E. simpl. f_equal. apply map_eq. intros i.
  rewrite lookup_alter, lookup_insert. case_decide; simplify_eq; [by rewrite E|done].
Qed.
End fields.

Lemma alter_is_Some (f : fd_list → fd_list) (h : heap) p q :
  is_Some (alter f p h !! q) ↔ is_Some (h !! q).
Proof. rewrite lookup_alter. case_decide; [subst; apply fmap_is_Some|done]. Qed.

(** ** Rings *)

Lemma links_split (h : heap) l1 a l2 :
  links h (l1 ++ a :: l2) ↔ links h (l1 ++ [a]) ∧ links h (a :: l2).
Proof.
  induction l1 as [|b [|c l1] IH]; simpl in *; [by destruct l2; naive_solver|naive_solver|].
  rewrite IH. naive_solver.
Qed.

(** [links] reads the [next] field of every element but the last, and the
    [prev] field of every element but the first. *)
Lemma links_frame (h h' : heap) l :
  links h l →
  Forall (λ x, nx h' x = nx h x) (removelast l) →
  Forall (λ x, pv h' x = pv h x) (tail l) →
  links h' l.
Proof.
  induction l as [|a [|b l] IH]; [done..|].
  intros (Hn & Hp & Hl) Hnx Hpv. cbn [removelast tail] in *.
  apply Forall_cons in Hnx as [Hnx1 Hnx]. apply Forall_cons in Hpv as [Hpv1 Hpv].
  split; [congruence|]. split; [congruence|]. by apply IH.
Qed.

Lemma links_frame_eq (h h' : heap) l :
  links h l → (∀ x, x ∈ l → nx h' x = nx h x ∧ pv h' x = pv h x) → links h' l.
Proof.
  intros Hl Hx. apply (links_frame h); [done|apply Forall_forall..]; intros x Hin; apply Hx.
  - clear -Hin. induction l as [|a [|b l] IH]; [by apply elem_of_nil in Hin..|].
    cbn [removelast] in Hin. apply elem_of_cons in Hin as [->|?]; set_solver.
  - destruct l; set_solver.
Qed.

(** A ring is unchanged by an operation that keeps the three link fields of its
    nodes. *)
Definition same_links (h h' : heap) (P : loc → Prop) : Prop :=
  ∀ p, P p → nx h' p = nx h p ∧ pv h' p = pv h p ∧ hdp h' p = hdp h p.

Lemma is_list_frame (h h' : heap) s xs :
  is_list h s xs → same_links h h' (λ p, p ∈ s :: xs) → is_list h' s xs.
Proof.
  intros (Hnd & Hhd & Hl) Hs. split; [done|]. split.
  - rewrite Forall_forall in *. intros x Hx. destruct (Hs x Hx) as (_ & _ & ->). auto.
  - eapply links_frame_eq; [done|]. intros x Hx. destruct (Hs x) as (? & ? & ?); [|done].
    set_solver.
Qed.

Lemma is_list_init (h : heap) p ob : is_list (fd_list_init h p ob) p [].
Proof.
  unfold is_list, fd_list_init, nx, pv, hdp. split; [apply NoDup_singleton|].
  rewrite Forall_singleton. simpl. unfold nx, pv. by rewrite lookup_insert_eq.
Qed.

Lemma is_list_head (h : heap) s xs p : is_list h s xs → p ∈ s :: xs → hdp h p = Some s.
Proof. intros (_ & Hhd & _) Hp. by eapply (proj1 (Forall_forall _ _) Hhd). Qed.

Lemma single_fields (h : heap) p :
  is_list h p [] → hdp h p = Some p ∧ nx h p = Some p ∧ pv h p = Some p.
Proof.
  intros Hl. split; [by eapply is_list_head; [|left]|].
  destruct Hl as (_ & _ & ? & ? & _). done.
Qed.

Lemma check_single_spec (h : heap) p : is_list h p [] → check_single h p = Ok true.
Proof.
  intros (Hhd & Hn & Hp)%single_fields.
  destruct (rd_fields h p p p p) as (ob & _ & E); [done..|].
  unfold check_single. rewrite E. simpl. by rewrite !bool_decide_true.
Qed.

(** The node before and the node after a cut of the ring. *)
Lemma is_list_cut (h : heap) s xs ys :
  is_list h s (xs ++ ys) →
  ∃ l1 r n l2, s :: xs = l1 ++ [r] ∧ ys ++ [s] = n :: l2 ∧ r = List.last xs s ∧
    n = List.hd s ys ∧ links h (l1 ++ [r]) ∧ links h (n :: l2) ∧ nx h r = Some n ∧ pv h n = Some r.
Proof.
  intros (_ & _ & Hl).
  destruct (exists_last (l:=s :: xs)) as (l1 & r & Hr); [done|].
  destruct (ys ++ [s]) as [|n l2] eqn:Hn; [by destruct ys|].
  assert (s :: (xs ++ ys) ++ [s] = l1 ++ r :: n :: l2) as E.
  { by rewrite <- app_assoc, app_comm_cons, Hr, <- app_assoc, Hn. }
  rewrite E in Hl. apply links_split in Hl as (Hl1 & Hx & Hy & Hl2).
  exists l1, r, n, l2. repeat split; try done; [|by destruct ys; simplify_eq/=].
  rewrite <- (last_last l1 r s), <- Hr. clear. revert s.
  induction xs as [|a xs IH]; intros s; [done|]. destruct xs; [done|]. apply (IH s).
Qed.

(** ** Insertion *)

(** [item] has been linked between [r] and [n], under the sentinel [s]; nothing
    else has changed. *)
Record linked_in (h h' : heap) (s r item n : loc) : Prop := {
  li_nx q : nx h' q = if decide (q = r) then Some item
                      else if decide (q = item) then Some n else nx h q;
  li_pv q : pv h' q = if decide (q = n) then Some item
                      else if decide (q = item) then Some r else pv h q;
  li_hd q : hdp h' q = if decide (q = item) then Some s else hdp h q;
  li_obj q : obj h' q = obj h q }.

(** The two halves of a cut ring, as [links_frame] looks at them. *)
Lemma cut_left (s r : loc) xs l1 :
  s :: xs = l1 ++ [r] → NoDup (s :: xs) →
  (∀ q, q ∈ removelast (l1 ++ [r]) → q ∈ s :: xs ∧ q ≠ r) ∧
  (∀ q, q ∈ tail (l1 ++ [r]) → q ∈ xs).
Proof.
  intros E Hnd. rewrite removelast_last. split; [|by rewrite <- E].
  intros q Hq. rewrite E in *. apply NoDup_app in Hnd as (_ & Hr & _). set_solver.
Qed.

Lemma cut_right (s n : loc) ys l2 :
  ys ++ [s] = n :: l2 → NoDup ys → s ∉ ys →
  (∀ q, q ∈ removelast (n :: l2) → q ∈ ys) ∧ (∀ q, q ∈ l2 → q ≠ n ∧ q ∈ s :: ys).
Proof.
  intros E Hnd Hs. split; intros q Hq.
  - by rewrite <- E, removelast_last in Hq.
  - assert (q ∈ ys ++ [s]) by (rewrite E; set_solver). split; [|set_solver]. intros ->.
    destruct ys as [|y ys]; simplify_eq/=; [set_solver|].
    apply NoDup_cons in Hnd as [? _]. set_solver.
Qed.

Lemma linked_in_list (h h' : heap) s xs ys item r n :
  is_list h s (xs ++ ys) → item ∉ s :: xs ++ ys →
  r = List.last xs s → n = List.hd s ys → linked_in h h' s r item n →
  is_list h' s (xs ++ item :: ys).
Proof.
  intros Hl Hni -> -> [Hnx Hpv Hhd _].
  destruct (is_list_cut _ _ _ _ Hl) as (l1 & r & n & l2 & E1 & E2 & Hr & Hn & L1 & L2 & Hrn & Hnr).
  rewrite <- Hr, <- Hn in *. destruct Hl as (Hnd & Hhds & _).
  rewrite app_comm_cons, NoDup_app in Hnd. destruct Hnd as (Hnd1 & Hdis & Hnd2).
  destruct (cut_left _ _ _ _ E1 Hnd1) as [C1 C2].
  destruct (cut_right _ _ _ _ E2 Hnd2) as [C3 C4]; [apply Hdis; set_solver|].
  assert (r ∈ s :: xs) as Hrin by (rewrite E1; set_solver).
  assert (n ∈ s :: ys) as Hnin by (rewrite Hn; destruct ys; set_solver).
  assert (n ∉ xs) as Hnx1.
  { apply elem_of_cons in Hnin as [->|?]; [by apply NoDup_cons in Hnd1 as [? _]|set_solver]. }
  split; [|split].
  - rewrite app_comm_cons. apply NoDup_app. split; [done|]. split.
    + intros q Hq [->|?]%elem_of_cons; [set_solver|]. by apply (Hdis q).
    + apply NoDup_cons. split; [set_solver|done].
  - rewrite Forall_forall in *. intros q Hq. rewrite Hhd. case_decide; [done|].
    apply Hhds. set_solver.
  - assert (s :: (xs ++ item :: ys) ++ [s] = l1 ++ r :: item :: n :: l2) as ->.
    { by rewrite app_comm_cons, app_comm_cons, E1, <- !app_assoc; cbn [app]; rewrite E2. }
    apply links_split. split; [|split; [|split; [|split; [|split]]]].
    + apply (links_frame h); [done|apply Forall_forall..]; intros q Hq.
      * destruct (C1 q Hq). rewrite Hnx, !decide_False; [done|set_solver..].
      * specialize (C2 q Hq). rewrite Hpv, !decide_False; [done|set_solver..].
    + by rewrite Hnx, decide_True.
    + rewrite Hpv, decide_False, decide_True; [done..|set_solver].
    + rewrite Hnx, decide_False, decide_True; [done..|set_solver].
    + by rewrite Hpv, decide_True.
    + apply (links_frame h); [done|apply Forall_forall..]; intros q Hq.
      * specialize (C3 q Hq). rewrite Hnx, !decide_False; [done|set_solver..].
      * destruct (C4 q Hq). rewrite Hpv, !decide_False; [done|set_solver..].
Qed.

(** ** Executing the assignments *)

Hint Rewrite nx_next nx_prev nx_head pv_next pv_prev pv_head
  hdp_next hdp_prev hdp_head obj_next obj_prev obj_head : fields.

Lemma rd_next (h : heap) p v : nx h p = Some v → ∃ n, rd h p = Ok n ∧ next n = v.
Proof. unfold rd, nx. destruct (h !! p); simpl; naive_solver. Qed.
Lemma rd_prev (h : heap) p v : pv h p = Some v → ∃ n, rd h p = Ok n ∧ prev n = v.
Proof. unfold rd, pv. destruct (h !! p); simpl; naive_solver. Qed.
Lemma rd_head (h : heap) p v : hdp h p = Some v → ∃ n, rd h p = Ok n ∧ head n = v.
Proof. unfold rd, hdp. destruct (h !! p); simpl; naive_solver. Qed.
Lemma rd_obj (h : heap) p v : obj h p = Some v → ∃ n, rd h p = Ok n ∧ o n = v.
Proof. unfold rd, obj. destruct (h !! p); simpl; naive_solver. Qed.

Lemma rd_alter_ne f (h : heap) p q : p ≠ q → rd (alter f p h) q = rd h q.
Proof. intros. unfold rd. by rewrite lookup_alter_ne. Qed.

Lemma nx_alloc (h : heap) p v : nx h p = Some v → is_Some (h !! p).
Proof. unfold nx. intros E. apply fmap_is_Some with (f:=next). eauto. Qed.
Lemma pv_alloc (h : heap) p v : pv h p = Some v → is_Some (h !! p).
Proof. unfold pv. intros E. apply fmap_is_Some with (f:=prev). eauto. Qed.
Lemma hdp_alloc (h : heap) p v : hdp h p = Some v → is_Some (h !! p).
Proof. unfold hdp. intros E. apply fmap_is_Some with (f:=head). eauto. Qed.

Lemma alloc_fields (h : heap) p :
  is_Some (h !! p) → ∃ n v d, nx h p = Some n ∧ pv h p = Some v ∧ hdp h p = Some d.
Proof. intros [[n v d ob] E]. exists n, v, d. unfold nx, pv, hdp. by rewrite E. Qed.

(** [fields]: compute a field of an updated heap, deciding the address
    comparisons from the hypotheses. *)
Ltac fields :=
  autorewrite with fields;
  repeat (case_decide; simplify_eq; try done); simplify_option_eq; try done; try congruence.
(** [read H]: run a read whose field is given by the lookup [H] of the initial
    heap. *)
Ltac read_with lem v :=
  let n := fresh "n" in let E := fresh "E" in let Hv := fresh "Hv" in
  edestruct lem as (n & E & Hv);
  [|rewrite E; cbn [res_bind]; rewrite ?Hv; clear E]; [instantiate (1 := v); by fields|].
Ltac write :=
  rewrite store_alter; [cbn [res_bind]|by rewrite ?alter_is_Some; eauto using nx_alloc, pv_alloc, hdp_alloc].

Lemma list_insert_after_run (h : heap) s r item n :
  hdp h r = Some s → nx h r = Some n → is_Some (h !! item) → is_Some (h !! n) →
  r ≠ item → n ≠ item →
  ∃ h', list_insert_after h r item = Ok h' ∧ linked_in h h' s r item n.
Proof.
  intros Hs Hn Hi Hnn Hri Hni. unfold list_insert_after.
  write. read_with rd_next n. write. read_with rd_head s. write. read_with rd_next n.
  write. write. eexists. split; [done|].
  destruct (alloc_fields _ _ Hi) as (? & ? & ? & ? & ? & ?).
  destruct (alloc_fields _ _ Hnn) as (? & ? & ? & ? & ? & ?).
  split; intros q; fields.
Qed.

Lemma list_insert_before_run (h : heap) s r item n :
  hdp h n = Some s → pv h n = Some r → is_Some (h !! item) → is_Some (h !! r) →
  r ≠ item → n ≠ item →
  ∃ h', list_insert_before h n item = Ok h' ∧ linked_in h h' s r item n.
Proof.
  intros Hs Hr Hi Hrr Hri Hni. unfold list_insert_before.
  read_with rd_prev r. write. write. read_with rd_head s. write. read_with rd_prev r.
  write. write. eexists. split; [done|].
  destruct (alloc_fields _ _ Hi) as (? & ? & ? & ? & ? & ?).
  destruct (alloc_fields _ _ Hrr) as (? & ? & ? & ? & ? & ?).
  split; intros q; fields.
Qed.

(** [item] has been cut out from between [r] and [n] and made a ring of one. *)
Record linked_out (h h' : heap) (r item n : loc) : Prop := {
  lo_nx q : nx h' q = if decide (q = item) then Some item
                      else if decide (q = r) then Some n else nx h q;
  lo_pv q : pv h' q = if decide (q = item) then Some item
                      else if decide (q = n) then Some r else pv h q;
  lo_hd q : hdp h' q = if decide (q = item) then Some item else hdp h q;
  lo_obj q : obj h' q = obj h q }.

Lemma fd_list_unlink_run (h : heap) s r item n :
  hdp h item = Some s → s ≠ item → pv h item = Some r → nx h item = Some n →
  is_Some (h !! r) → is_Some (h !! n) → r ≠ item → n ≠ item →
  ∃ h', fd_list_unlink h item = Ok h' ∧ linked_out h h' r item n.
Proof.
  intros Hs Hsi Hr Hn Hrr Hnn Hri Hni. unfold fd_list_unlink.
  destruct (rd_fields h item s n r) as (ob & Ho & E); [done..|].
  rewrite E. cbn [res_bind head prev next]. rewrite decide_False by done.
  write. rewrite rd_alter_ne, E by done. cbn [res_bind prev next].
  write. write. write. write. eexists. split; [done|].
  destruct (alloc_fields _ _ Hrr) as (? & ? & ? & ? & ? & ?).
  destruct (alloc_fields _ _ Hnn) as (? & ? & ? & ? & ? & ?).
  split; intros q; fields.
Qed.

Lemma linked_out_list (h h' : heap) s xs ys item r n :
  is_list h s (xs ++ item :: ys) → r = List.last xs s → n = List.hd s ys →
  linked_out h h' r item n →
  is_list h' s (xs ++ ys) ∧ is_list h' item [].
Proof.
  intros Hl -> -> [Hnx Hpv Hhd _].
  destruct (is_list_cut _ _ _ _ Hl) as (l1 & r & ? & ? & E1 & E2 & Hr & -> & L1 & L2 & Hrn & Hnr).
  rewrite <- Hr in *. cbn [List.hd app] in *. injection E2 as <-. 
  assert (∃ n l2, ys ++ [s] = n :: l2 ∧ n = List.hd s ys) as (n & l2 & E2 & Hn).
  { destruct ys; simpl; eauto. }
  rewrite <- Hn in *. destruct Hl as (Hnd & Hhds & _).
  rewrite app_comm_cons, NoDup_app in Hnd. destruct Hnd as (Hnd1 & Hdis & [Hi Hnd2]%NoDup_cons).
  destruct (cut_left _ _ _ _ E1 Hnd1) as [C1 C2].
  assert (s ∉ item :: ys) by (apply Hdis; set_solver).
  destruct (cut_right _ _ _ _ E2 Hnd2) as [C3 C4]; [set_solver|].
  assert (r ∈ s :: xs) as Hrin by (rewrite E1; set_solver).
  assert (n ∈ s :: ys) as Hnin by (rewrite Hn; destruct ys; set_solver).
  assert (∀ q, q ∈ s :: xs → q ≠ item) as Hni by (intros q Hq ->; by apply (Hdis item); [|left]).
  assert (n ∉ xs) as Hnx1.
  { apply elem_of_cons in Hnin as [->|?]; [by apply NoDup_cons in Hnd1 as [? _]|set_solver]. }
  split; [split; [|split]|].
  - rewrite app_comm_cons. apply NoDup_app. set_solver.
  - rewrite Forall_forall in *. intros q Hq. rewrite Hhd, decide_False; [apply Hhds|]; set_solver.
  - assert (s :: (xs ++ ys) ++ [s] = l1 ++ r :: n :: l2) as ->.
    { by rewrite app_comm_cons, app_comm_cons, E1, <- !app_assoc, E2. }
    rewrite E2 in L2. destruct L2 as (_ & _ & L2).
    apply links_split. split; [|split; [|split]].
    + apply (links_frame h); [done|apply Forall_forall..]; intros q Hq.
      * destruct (C1 q Hq). rewrite Hnx, !decide_False; [done|set_solver..].
      * specialize (C2 q Hq). rewrite Hpv, !decide_False; [done|set_solver..].
    + rewrite Hnx, decide_False, decide_True; [done..|set_solver].
    + rewrite Hpv, decide_False, decide_True; [done..|set_solver].
    + apply (links_frame h); [done|apply Forall_forall..]; intros q Hq.
      * specialize (C3 q Hq). rewrite Hnx, !decide_False; [done|set_solver..].
      * destruct (C4 q Hq). rewrite Hpv, !decide_False; [done|set_solver..].
  - split; [apply NoDup_singleton|]. split; [by repeat constructor; rewrite Hhd, decide_True|].
    simpl. by rewrite Hnx, Hpv, !decide_True.
Qed.

(** ** Moving a whole list *)

(** The fuel used by the loops is enough: a ring has fewer nodes than the
    heap. *)
Lemma is_list_size (h : heap) s xs : is_list h s xs → (length xs < size h)%nat.
Proof.
  intros (Hnd & Hhd & _). rewrite <- (size_dom (D:=gset loc)).
  assert (list_to_set (s :: xs) ⊆ dom h) as Hsub%subseteq_size.
  { intros q. rewrite elem_of_list_to_set, elem_of_dom. intros Hq. eapply hdp_alloc.
    by eapply (proj1 (Forall_forall _ _) Hhd). }
  rewrite size_list_to_set in Hsub by done. simpl in Hsub. lia.
Qed.

Lemma move_heads_run fuel (h : heap) zs senti ref :
  links h (zs ++ [senti]) → NoDup zs → senti ∉ zs → Forall (λ z, is_Some (h !! z)) zs →
  (length zs ≤ fuel)%nat →
  ∃ h', move_heads fuel h (List.hd senti zs) senti ref = Ok h' ∧
    (∀ q, nx h' q = nx h q ∧ pv h' q = pv h q ∧ obj h' q = obj h q ∧
          hdp h' q = if decide (q ∈ zs) then Some ref else hdp h q).
Proof.
  revert h zs. induction fuel as [|fuel IH]; intros h zs Hl Hnd Hs Hal Hf.
  - destruct zs; [|simpl in Hf; lia]. exists h. split; [by simpl; rewrite decide_True|].
    intros q. repeat split; try (case_decide; [set_solver|done]).
  - destruct zs as [|z zs]; simpl.
    { rewrite decide_True by done. exists h. split; [done|].
      intros q. repeat split; try (case_decide; [set_solver|done]). }
    rewrite decide_False by set_solver. apply NoDup_cons in Hnd as [Hz Hnd].
    apply Forall_cons in Hal as [Hza Hal].
    assert (∃ n l2, zs ++ [senti] = n :: l2 ∧ n = List.hd senti zs) as (n & l2 & E & ->).
    { destruct zs; simpl; eauto. }
    simpl in Hl. rewrite E in Hl. destruct Hl as (Hn & _ & Hl). rewrite <- E in Hl.
    write. read_with rd_next (List.hd senti zs).
    destruct (IH (alter (with_head ref) z h) zs) as (h' & -> & Hh').
    { eapply links_frame_eq; [done|]. intros. by autorewrite with fields. }
    { done. } { set_solver. }
    { eapply Forall_impl; [done|]. intros. by apply alter_is_Some. }
    { simpl in Hf. lia. }
    exists h'. split; [done|]. intros q. destruct (Hh' q) as (-> & -> & -> & ->).
    autorewrite with fields. repeat split.
    destruct (alloc_fields _ _ Hza) as (? & ? & ? & ? & ? & ?).
    destruct (decide (q ∈ zs)); [by rewrite decide_True by (by right)|].
    destruct (decide (z = q)) as [->|]; [by rewrite H1, decide_True by left|].
    rewrite decide_False; [done|]. by intros [->|?]%elem_of_cons.
Qed.

(** The nodes [ys], of which [f] is the first and [l] the last, have been cut
    from the sentinel [senti] and linked between [rp] and [ref]. *)
Record moved (h h' : heap) (ref rp senti f l : loc) (ys : list loc) : Prop := {
  mv_nx q : nx h' q = if decide (q = senti) then Some senti
                      else if decide (q = l) then Some ref
                      else if decide (q = rp) then Some f else nx h q;
  mv_pv q : pv h' q = if decide (q = senti) then Some senti
                      else if decide (q = ref) then Some l
                      else if decide (q = f) then Some rp else pv h q;
  mv_hd q : hdp h' q = if decide (q ∈ ys) then Some ref else hdp h q;
  mv_obj q : obj h' q = obj h q }.

(** The links at the two ends of a list. *)
Lemma is_list_first (h : heap) s xs :
  is_list h s xs → nx h s = Some (List.hd s xs) ∧ pv h (List.hd s xs) = Some s.
Proof.
  intros Hl. by destruct (is_list_cut h s [] xs Hl) as (? & ? & ? & ? & _ & _ & -> & -> & _ & _ & ?).
Qed.

Lemma is_list_last (h : heap) s xs :
  is_list h s xs →
  nx h (List.last xs s) = Some s ∧ pv h s = Some (List.last xs s) ∧ List.last xs s ∈ s :: xs.
Proof.
  intros Hl. pose proof (is_list_cut h s xs []) as C. rewrite app_nil_r in C.
  destruct (C Hl) as (? & ? & ? & ? & E & _ & Hr & -> & _ & _ & ? & ?).
  subst. cbn [List.hd] in *. split; [done|]. split; [done|]. rewrite E. set_solver.
Qed.

Lemma last_elem_of (A : Type) (x y : A) (l : list A) : List.last (x :: l) y ∈ x :: l.
Proof. revert x. induction l as [|z l IH]; intros x; [by left|]. right. apply IH. Qed.

Lemma fd_list_move_end_run (h : heap) ref xs senti f ys :
  is_list h ref xs → is_list h senti (f :: ys) →
  (∀ q, q ∈ ref :: xs → q ∉ senti :: f :: ys) →
  ∃ h', fd_list_move_end h ref senti = Ok h' ∧
    moved h h' ref (List.last xs ref) senti f (List.last (f :: ys) senti) (f :: ys).
Proof.
  intros Hr Hs Hdis.
  pose proof (is_list_size _ _ _ Hs) as Hsz.
  pose proof (last_elem_of _ f senti ys) as Hlin.
  destruct (is_list_last _ _ _ Hr) as (Hrp & Hpr & Hrpin).
  destruct (is_list_last _ _ _ Hs) as (Hls & Hsl & _).
  destruct (is_list_first _ _ _ Hs) as (Hsf & Hfs). cbn [List.hd] in Hsf, Hfs.
  set (rp := List.last xs ref) in *. set (l := List.last (f :: ys) senti) in *.
  pose proof (is_list_head _ _ _ ref Hr (list_elem_of_here _ _)) as Hhr.
  pose proof (is_list_head _ _ _ senti Hs (list_elem_of_here _ _)) as Hhs.
  destruct Hs as (Hnd & Hhds & _ & _ & Hlinks). apply NoDup_cons in Hnd as [Hsn Hnd].
  destruct (move_heads_run (size h) h (f :: ys) senti ref) as (h1 & Hrun & Hh1); [done..| |lia|].
  { apply Forall_cons in Hhds as [_ Hhds]. eapply Forall_impl; [done|]. intros ?. apply hdp_alloc. }
  assert (∀ q, nx h1 q = nx h q) as N by (intros q; apply Hh1).
  assert (∀ q, pv h1 q = pv h q) as P by (intros q; apply Hh1).
  assert (∀ q, obj h1 q = obj h q) as B by (intros q; apply Hh1).
  assert (∀ q, hdp h1 q = if decide (q ∈ f :: ys) then Some ref else hdp h q) as D by (intros q; apply Hh1).
  rewrite <- N in Hrp, Hls, Hsf. rewrite <- P in Hpr, Hsl, Hfs.
  assert (ref ≠ senti ∧ ref ≠ f ∧ ref ≠ l ∧ rp ≠ senti ∧ rp ≠ f ∧ rp ≠ l) as (?&?&?&?&?&?).
  { assert (∀ p q, p ∈ ref :: xs → q ∈ senti :: f :: ys → p ≠ q) as Hne
      by (intros p q Hp Hq ->; by eapply Hdis).
    assert (ref ∈ ref :: xs) by left. assert (senti ∈ senti :: f :: ys) by left.
    assert (f ∈ senti :: f :: ys) by (right; left). assert (l ∈ senti :: f :: ys) by by right.
    repeat split; by apply Hne. }
  assert (senti ≠ f ∧ senti ≠ l) as (?&?).
  { split; intros E; apply Hsn; rewrite E; [left|done]. }
  destruct (rd_fields h senti senti f l) as (ob & _ & E); [congruence..|].
  unfold fd_list_move_end. read_with rd_head ref. rewrite bool_decide_true, E by done.
  cbn [res_bind head next]. rewrite bool_decide_true, decide_False by done.
  cbn [List.hd] in Hrun. rewrite Hrun. cbn [res_bind].
  read_with rd_next f. read_with rd_prev rp. write.
  read_with rd_next f. read_with rd_prev rp. write.
  read_with rd_prev l. write. read_with rd_prev l. write. write. write.
  eexists. split; [done|]. split; intros q; autorewrite with fields; rewrite ?N, ?P, ?B, ?D; try done.
  - rewrite <- N. clearbody l rp. clear -Hrp Hls Hsf. repeat case_decide; simplify_option_eq; congruence.
  - rewrite <- P. clearbody l rp. clear -Hpr Hsl Hfs. repeat case_decide; simplify_option_eq; congruence.
Qed.

Lemma moved_list (h h' : heap) ref xs senti f ys :
  is_list h ref xs → is_list h senti (f :: ys) →
  (∀ q, q ∈ ref :: xs → q ∉ senti :: f :: ys) →
  moved h h' ref (List.last xs ref) senti f (List.last (f :: ys) senti) (f :: ys) →
  is_list h' ref (xs ++ f :: ys) ∧ is_list h' senti [].
Proof.
  intros Hr Hs Hdis [Hnx Hpv Hhd _].
  pose proof (is_list_cut h ref xs []) as Cr. rewrite app_nil_r in Cr.
  destruct (Cr Hr) as (l1 & rp & ? & ? & Er & _ & Erp & _ & L1 & _). clear Cr.
  pose proof (is_list_cut h senti (f :: ys) []) as Cs. rewrite app_nil_r in Cs.
  destruct (Cs Hs) as (m1 & l & ? & ? & Es & _ & El & _ & M1 & _). clear Cs.
  rewrite <- Erp, <- El in *. destruct Hr as (Hndr & Hhr & _), Hs as (Hnds & Hhs & _).
  destruct m1 as [|? m1]; [discriminate Es|]. injection Es as <- Es.
  assert (links h (m1 ++ [l])) as M2 by (destruct m1; [done|apply M1]). clear M1.
  destruct (cut_left _ _ _ _ Er Hndr) as [C1 C2].
  assert (rp ∈ ref :: xs) as Hrp by (rewrite Er; set_solver).
  apply NoDup_cons in Hnds as [Hsn Hnds].
  assert (∀ p q, p ∈ ref :: xs → q ∈ senti :: f :: ys → p ≠ q) as Hne
    by (intros p q Hp Hq ->; by eapply Hdis).
  assert (l ∈ f :: ys) as Hl by (rewrite Es; set_solver).
  assert (senti ∈ senti :: f :: ys) as Hsin by left.
  assert (∀ q, q ∈ f :: ys → q ≠ senti ∧ q ∈ senti :: f :: ys) as Hys
    by (intros q Hq; split; [by intros ->|by right]).
  assert (f ∈ f :: ys) as Hf by left.
  assert (ref ∈ ref :: xs) as Hrefin by left.
  split; [split; [|split]|].
  - rewrite app_comm_cons. apply NoDup_app. split; [done|]. split; [|done].
    intros q Hq Hq'. by apply (Hne q q); [|right|].
  - rewrite Forall_forall in *. intros q Hq. rewrite Hhd. case_decide; [done|].
    apply Hhr. set_solver.
  - assert (ref :: (xs ++ f :: ys) ++ [ref] = l1 ++ rp :: (f :: ys) ++ [ref]) as ->.
    { by rewrite <- app_assoc, app_comm_cons, Er, <- app_assoc. }
    apply links_split. split; [|split; [|split]].
    + apply (links_frame h); [done|apply Forall_forall..]; intros q Hq.
      * destruct (C1 q Hq). rewrite Hnx, !decide_False; [done|done|by apply Hne; [|apply Hys]|by apply Hne].
      * specialize (C2 q Hq). rewrite Hpv, !decide_False; [done| | |].
        -- apply Hne; [by right|apply Hys; left].
        -- intros ->. by apply NoDup_cons in Hndr as [? _].
        -- apply Hne; [by right|done].
    + rewrite Hnx, 2!decide_False, decide_True; [done|done|by apply Hne; [|apply Hys]|by apply Hne].
    + rewrite Hpv, 2!decide_False, decide_True; [done|done| |by apply Hys].
      intros ->. by apply (Hne ref ref); [|right|].
    + change (links h' ((f :: ys) ++ [ref])). rewrite Es, <- app_assoc.
      apply links_split. split; [|split; [|split; [|done]]].
      * apply (links_frame h); [done|apply Forall_forall..]; intros q Hq.
        -- rewrite removelast_last in Hq. assert (q ∈ f :: ys) by (rewrite Es; set_solver).
           rewrite Hnx, !decide_False; [done| | |by apply Hys].
           ++ intros ->. by apply (Hne rp rp); [|apply Hys|].
           ++ intros ->. rewrite Es in Hnds. apply NoDup_app in Hnds as (_ & Hd & _). set_solver.
        -- rewrite <- Es in Hq. cbn [tail] in Hq.
           rewrite Hpv, !decide_False; [done| | |by apply Hys; right].
           ++ intros ->. by apply NoDup_cons in Hnds as [? _].
           ++ intros ->. by apply (Hne ref ref); [|right; right|].
      * rewrite Hnx, decide_False, decide_True; [done..|by apply Hys].
      * rewrite Hpv, decide_False, decide_True; [done..|by apply Hne].
  - split; [apply NoDup_singleton|]. split.
    + repeat constructor. rewrite Hhd, decide_False by done.
      eapply (Forall_forall (λ x, hdp h x = Some senti)); [exact Hhs|left].
    + simpl. by rewrite Hnx, Hpv, !decide_True.
Qed.

(** ** Ordered insertion *)

(** The objects attached to the nodes of a list. *)
Definition objs (h : heap) (xs : list loc) (os : list O) : Prop :=
  Forall2 (λ p ob, obj h p = Some ob) xs os.

Lemma ordered_search_run cmp_fct fuel (h : heap) s item ob xs ys os :
  is_list h s (xs ++ ys) → objs h ys os → obj h item = Some ob → (length ys ≤ fuel)%nat →
  match ordered_split cmp_fct ob os with
  | inr d => ordered_search fuel cmp_fct h s item (List.last xs s) = Ok (inr d)
  | inl (pre, post) => ∃ ys1 ys2, ys = ys1 ++ ys2 ∧ length ys1 = length pre ∧
      ordered_search fuel cmp_fct h s item (List.last xs s) = Ok (inl (List.last (xs ++ ys1) s))
  end.
Proof.
  revert xs ys os. induction fuel as [|fuel IH]; intros xs ys os Hl Hos Hob Hf.
  all: destruct (is_list_cut _ _ _ _ Hl) as (l1 & r & n & l2 & E1 & E2 & Hr & Hn & _ & _ & Hrn & _).
  all: rewrite <- Hr; inversion Hos as [|y yo ys' os' Hyo Hos' Ey Eo]; simplify_eq/=; try lia.
  all: edestruct rd_next as (nd & Erd & Hnd); [exact Hrn|].
  1,2: exists [], []; split; [done|]; split; [done|]; rewrite app_nil_r, Erd; simpl; by rewrite Hnd, decide_True.
  rewrite Erd. simpl. rewrite Hnd.
  assert (y ≠ s) as Hys.
  { destruct Hl as ([Hnin _]%NoDup_cons & _). intros ->. apply Hnin. set_solver. }
  rewrite (decide_False (P:=y = s)) by done.
  edestruct rd_obj as (it & Eit & Hit); [exact Hob|]. rewrite Eit. simpl.
  edestruct rd_obj as (yn & Eyn & Hyn); [exact Hyo|]. rewrite Eyn. simpl. rewrite Hit, Hyn.
  case_decide; [done|]. case_decide.
  { exists [], (y :: ys'). split; [done|]. split; [done|]. by rewrite app_nil_r. }
  specialize (IH (xs ++ [y]) ys' os'). rewrite last_last in IH.
  assert (is_list h s ((xs ++ [y]) ++ ys')) as Hl' by (by rewrite <- app_assoc).
  specialize (IH Hl' Hos' Hob ltac:(lia)).
  destruct (ordered_split cmp_fct ob os') as [[pre post]|d]; [|done].
  destruct IH as (ys1 & ys2 & -> & Hlen & Hrun). exists (y :: ys1), ys2.
  split; [done|]. split; [simpl; lia|]. by rewrite <- app_assoc in Hrun.
Qed.

(** ** What the operations promise

    [frame h h' ps]: only the links of the nodes [ps] have changed, and no
    object. *)
Definition frame (h h' : heap) (ps : list loc) : Prop :=
  (∀ p, obj h' p = obj h p) ∧ same_links h h' (λ p, p ∉ ps).

Lemma linked_in_frame (h h' : heap) s xs ys item r n :
  linked_in h h' s r item n → r ∈ s :: xs → n ∈ s :: ys → frame h h' (s :: item :: xs ++ ys).
Proof.
  intros [Hnx Hpv Hhd Ho] Hr Hn. split; [done|]. intros p Hp.
  assert (p ≠ r ∧ p ≠ n ∧ p ≠ item) as (?&?&?) by (repeat split; intros ->; set_solver).
  rewrite Hnx, Hpv, Hhd. by rewrite !decide_False.
Qed.

Lemma linked_out_frame (h h' : heap) s xs ys item r n :
  linked_out h h' r item n → r ∈ s :: xs → n ∈ s :: ys → frame h h' (s :: item :: xs ++ ys).
Proof.
  intros [Hnx Hpv Hhd Ho] Hr Hn. split; [done|]. intros p Hp.
  assert (p ≠ r ∧ p ≠ n ∧ p ≠ item) as (?&?&?) by (repeat split; intros ->; set_solver).
  rewrite Hnx, Hpv, Hhd. by rewrite !decide_False.
Qed.

Lemma objs_frame (h h' : heap) xs os :
  (∀ p, obj h' p = obj h p) → objs h xs os → objs h' xs os.
Proof. intros Ho Hos. eapply Forall2_impl; [exact Hos|]. intros p ob. by rewrite Ho. Qed.

(** The neighbours of a cut, as insertion and removal use them. *)
Lemma cut_neighbours (h : heap) s xs ys :
  is_list h s (xs ++ ys) →
  let r := List.last xs s in let n := List.hd s ys in
  nx h r = Some n ∧ pv h n = Some r ∧ hdp h r = Some s ∧ hdp h n = Some s ∧
  r ∈ s :: xs ∧ n ∈ s :: ys ∧ is_Some (h !! r) ∧ is_Some (h !! n).
Proof.
  intros Hl r n.
  destruct (is_list_cut _ _ _ _ Hl) as (l1 & ? & ? & l2 & E1 & E2 & -> & -> & _ & _ & Hrn & Hnr).
  assert (r ∈ s :: xs) as Hr by (unfold r; rewrite E1; set_solver).
  assert (n ∈ s :: ys) as Hn by (subst n; destruct ys; set_solver).
  assert (hdp h r = Some s) by (eapply is_list_head; [done|set_solver]).
  assert (hdp h n = Some s) by (eapply is_list_head; [done|set_solver]).
  eauto 10 using hdp_alloc.
Qed.

(** [fd_list_insert_after] and [fd_list_insert_before] put a single node
    into a list at the place next to the reference (the sentinel being the
    place before the first and after the last element), never abort, and touch
    no node outside the list. *)
Theorem fd_list_insert_spec (h : heap) s item xs ys :
  is_list h s (xs ++ ys) → is_list h item [] → item ∉ s :: xs ++ ys →
  (∃ h', fd_list_insert_after h (List.last xs s) item = Ok h' ∧
     is_list h' s (xs ++ item :: ys) ∧ frame h h' (s :: item :: xs ++ ys)) ∧
  (∃ h', fd_list_insert_before h (List.hd s ys) item = Ok h' ∧
     is_list h' s (xs ++ item :: ys) ∧ frame h h' (s :: item :: xs ++ ys)).
Proof.
  intros Hl Hi Hni.
  destruct (cut_neighbours _ _ _ _ Hl) as (Hrn & Hnr & Hhr & Hhn & Hr & Hn & Har & Han).
  assert (is_Some (h !! item)) as Hai by (eapply hdp_alloc, single_fields, Hi).
  assert (s ≠ item) as Hs by set_solver.
  assert (List.last xs s ≠ item) by (intros E; apply Hni; rewrite <- E; set_solver).
  assert (List.hd s ys ≠ item) by (intros E; apply Hni; rewrite <- E; set_solver).
  unfold fd_list_insert_after, fd_list_insert_before. rewrite check_single_spec by done.
  cbn [res_bind]. split.
  - read_with rd_head s. rewrite bool_decide_true by done.
    destruct (list_insert_after_run h s (List.last xs s) item (List.hd s ys)) as (h' & -> & L); [done..|].
    exists h'. split; [done|]. split; [by eapply linked_in_list|by eapply linked_in_frame].
  - read_with rd_head s. rewrite bool_decide_true by done.
    destruct (list_insert_before_run h s (List.last xs s) item (List.hd s ys)) as (h' & -> & L); [done..|].
    exists h'. split; [done|]. split; [by eapply linked_in_list|by eapply linked_in_frame].
Qed.

(** [fd_list_unlink] removes a node from the list it is in, leaves it a
    ring of one, and touches no node outside the list; on a node that is in no
    list it does nothing. *)
Theorem fd_list_unlink_spec (h : heap) s item xs ys :
  is_list h s (xs ++ item :: ys) →
  ∃ h', fd_list_unlink h item = Ok h' ∧ is_list h' s (xs ++ ys) ∧ is_list h' item [] ∧
    frame h h' (s :: item :: xs ++ ys) ∧ fd_list_unlink h' item = Ok h'.
Proof.
  intros Hl.
  destruct (cut_neighbours _ _ _ _ Hl) as (Hrn & Hnr & _ & Hhi & Hr & _ & Har & _).
  assert (is_list h s ((xs ++ [item]) ++ ys)) as Hl2 by by rewrite <- app_assoc.
  destruct (cut_neighbours _ _ _ _ Hl2) as (Hin & Hni & _ & _ & _ & Hn & _ & Han).
  rewrite last_last in *. cbn [List.hd] in *.
  assert (NoDup (s :: xs ++ item :: ys)) as Hnd by apply Hl.
  rewrite app_comm_cons, NoDup_app in Hnd. destruct Hnd as (_ & Hdis & [Hi _]%NoDup_cons).
  assert (s ≠ item) as Hs by (intros ->; apply (Hdis item); left).
  assert (List.last xs s ≠ item) by (intros E; apply (Hdis item); [by rewrite <- E|left]).
  assert (List.hd s ys ≠ item).
  { intros E. rewrite E in Hn. apply elem_of_cons in Hn as [?|?]; congruence. }
  destruct (fd_list_unlink_run h s (List.last xs s) item (List.hd s ys)) as (h' & -> & L); [done..|].
  destruct (linked_out_list _ _ _ _ _ _ _ _ Hl eq_refl eq_refl L) as [Hl' Hsi].
  exists h'. split; [done|]. split; [done|]. split; [done|]. split; [by eapply linked_out_frame|].
  unfold fd_list_unlink. apply single_fields in Hsi as (? & ? & ?). read_with rd_head item.
  by rewrite decide_True.
Qed.

Lemma moved_frame (h h' : heap) ref xs senti f ys :
  moved h h' ref (List.last xs ref) senti f (List.last (f :: ys) senti) (f :: ys) →
  List.last xs ref ∈ ref :: xs → frame h h' (ref :: xs ++ senti :: f :: ys).
Proof.
  intros [Hnx Hpv Hhd Ho] Hr. split; [done|]. intros p Hp.
  pose proof (last_elem_of _ f senti ys) as Hl.
  rewrite app_comm_cons in Hp. apply not_elem_of_app in Hp as [Hp1 Hp2].
  apply not_elem_of_cons in Hp2 as [? Hp2].
  rewrite Hnx, Hpv, Hhd, !decide_False; try done; (intros ->; try done);
    [by apply Hp2; left|by apply Hp1; left].
Qed.

(** [fd_list_move_end] appends a whole list to another and leaves the
    source empty.  Its walk over the source terminates within the number of
    nodes of the heap. *)
Theorem fd_list_move_end_spec (h : heap) ref xs senti ys :
  is_list h ref xs → is_list h senti ys → (∀ q, q ∈ ref :: xs → q ∉ senti :: ys) →
  ∃ h', fd_list_move_end h ref senti = Ok h' ∧
    is_list h' ref (xs ++ ys) ∧ is_list h' senti [] ∧ frame h h' (ref :: xs ++ senti :: ys).
Proof.
  intros Hr Hs Hdis. destruct ys as [|f ys].
  - exists h. rewrite app_nil_r. repeat split; [|by apply Hr..|by apply Hs|by apply Hs|by apply Hs|by apply Hs].
    pose proof (is_list_head _ _ _ ref Hr (list_elem_of_here _ _)) as Hhr.
    apply single_fields in Hs as (Hhs & Hns & Hps).
    unfold fd_list_move_end. read_with rd_head ref. rewrite bool_decide_true by done.
    destruct (rd_fields h senti _ _ _ Hhs Hns Hps) as (? & _ & ->). cbn [res_bind head next].
    by rewrite bool_decide_true, decide_True.
  - destruct (fd_list_move_end_run h ref xs senti f ys) as (h' & -> & M); [done..|].
    destruct (moved_list h h' ref xs senti f ys) as [? ?]; [done..|].
    exists h'. repeat (split; [done|]). eapply moved_frame; [done|]. by eapply is_list_last.
Qed.

(** [fd_list_insert_ordered] on an increasing list: it reports [EEXIST]
    with the element that compares equal and changes nothing, or inserts the
    item and keeps the list increasing.  The search terminates. *)
Theorem fd_list_insert_ordered_spec cmp_fct `{!CmpOrder cmp_fct} (h : heap) s item ob xs os :
  is_list h s xs → objs h xs os → Increasing cmp_fct os →
  is_list h item [] → obj h item = Some ob → item ∉ s :: xs →
  (∃ d, d ∈ os ∧ cmp_fct ob d = 0 ∧ fd_list_insert_ordered h s item cmp_fct = Ok (h, Some d)) ∨
  (∃ h' xs' os', fd_list_insert_ordered h s item cmp_fct = Ok (h', None) ∧
     is_list h' s xs' ∧ objs h' xs' os' ∧ xs' ≡ₚ item :: xs ∧ os' ≡ₚ ob :: os ∧
     Increasing cmp_fct os' ∧ (∀ d, d ∈ os → cmp_fct ob d ≠ 0) ∧ frame h h' (s :: item :: xs)).
Proof.
  intros Hl Hos Hinc Hi Hob Hni. unfold fd_list_insert_ordered.
  pose proof (is_list_head _ _ _ s Hl (list_elem_of_here _ _)) as Hhs.
  pose proof (is_list_size _ _ _ Hl) as Hsz.
  read_with rd_head s. rewrite bool_decide_true, check_single_spec by done. cbn [res_bind].
  pose proof (ordered_search_run cmp_fct (size h) h s item ob [] xs os Hl Hos Hob ltac:(lia)) as R.
  destruct (ordered_split cmp_fct ob os) as [[pre post]|d] eqn:Eo.
  - right. destruct R as (ys1 & ys2 & -> & Hlen & R). cbn [List.last app] in R.
    rewrite R. cbn [res_bind].
    destruct (cut_neighbours _ _ _ _ Hl) as (Hrn & _ & Hhr & _ & Hr & Hn & _ & Han).
    assert (is_Some (h !! item)) as Hai by (eapply hdp_alloc, single_fields, Hi).
    destruct (list_insert_after_run h s (List.last ys1 s) item (List.hd s ys2)) as (h' & -> & L); try done.
    { intros E. apply Hni. rewrite <- E. set_solver. }
    { intros E. apply Hni. rewrite <- E. set_solver. }
    cbn [res_bind]. exists h', (ys1 ++ item :: ys2), (pre ++ ob :: post).
    pose proof (ordered_split_app _ _ _ _ _ Eo) as ->.
    assert (objs h' (ys1 ++ item :: ys2) (pre ++ ob :: post)) as Ho.
    { apply (objs_frame h h'); [apply L|].
      apply Forall2_app_inv in Hos as [Ho1 Ho2]; [|done]. by apply Forall2_app; [|constructor]. }
    split; [done|]. split; [by eapply linked_in_list|]. split; [done|].
    split; [by rewrite <- Permutation_middle|]. split; [by rewrite <- Permutation_middle|].
    split; [by eapply ordered_split_increasing|].
    split; [intros d Hd; by eapply ordered_split_absent|by eapply linked_in_frame].
  - left. cbn [List.last] in R. rewrite R. apply ordered_split_dup in Eo as [? ?]. by exists d.
Qed.

End lists.
Arguments fd_list : clear implicits.

(** [is_list] can be decided, so the hypotheses of the theorems can be checked
    on concrete heaps by evaluation. *)
#[export] Instance links_dec {O} (h : gmap loc (fd_list O)) l : Decision (links h l).
Proof. induction l as [|a [|b l] IH]; simpl; apply _. Defined.
#[export] Instance is_list_dec {O} (h : gmap loc (fd_list O)) s xs : Decision (is_list h s xs).
Proof. unfold is_list. apply _. Defined.

Module Examples.
Open Scope positive_scope.

(** Two sentinels, 1 and 9; node 2 is in the first list, node 7 in the second,
    node 3 in none.  The objects are integers. *)
Definition ex_init : gmap loc (fd_list Z) :=
  fd_list_init (fd_list_init (fd_list_init (fd_list_init (fd_list_init ∅ 1 0%Z) 2 20%Z) 3 30%Z) 7 70%Z) 9 90%Z.
Definition ex_heap : gmap loc (fd_list Z) :=
  match (let* h := fd_list_insert_after ex_init 1 2 in fd_list_insert_before h 9 7) with
  | Ok h => h | _ => ex_init
  end.

Lemma fd_list_insert_witness :
  (∃ h', fd_list_insert_after ex_heap 2 3 = Ok h' ∧
     is_list h' 1 [2; 3] ∧ frame ex_heap h' [1; 3; 2]) ∧
  (∃ h', fd_list_insert_before ex_heap 1 3 = Ok h' ∧
     is_list h' 1 [2; 3] ∧ frame ex_heap h' [1; 3; 2]).
Proof. apply (fd_list_insert_spec ex_heap 1 3 [2] []); by_compute. Defined.

Lemma fd_list_unlink_witness :
  ∃ h', fd_list_unlink ex_heap 2 = Ok h' ∧ is_list h' 1 [] ∧ is_list h' 2 [] ∧
    frame ex_heap h' [1; 2] ∧ fd_list_unlink h' 2 = Ok h'.
Proof. apply (fd_list_unlink_spec ex_heap 1 2 [] []). by_compute. Defined.

Lemma fd_list_move_end_witness :
  ∃ h', fd_list_move_end ex_heap 1 9 = Ok h' ∧
    is_list h' 1 [2; 7] ∧ is_list h' 9 [] ∧ frame ex_heap h' [1; 2; 9; 7].
Proof.
  apply (fd_list_move_end_spec ex_heap 1 [2] 9 [7]); [by_compute..|].
  intros q Hq. repeat (apply elem_of_cons in Hq as [->|Hq]; [by_compute|]). by apply elem_of_nil in Hq.
Defined.
Lemma fd_list_insert_ordered_witness :
  (∃ d, d ∈ [20%Z] ∧ (30 - d = 0)%Z ∧ fd_list_insert_ordered ex_heap 1 3 Z.sub = Ok (ex_heap, Some d)) ∨
  (∃ h' xs' os', fd_list_insert_ordered ex_heap 1 3 Z.sub = Ok (h', None) ∧
     is_list h' 1 xs' ∧ objs h' xs' os' ∧ xs' ≡ₚ [3; 2] ∧ os' ≡ₚ [30%Z; 20%Z] ∧
     Increasing Z.sub os' ∧ (∀ d, d ∈ [20%Z] → (30 - d ≠ 0)%Z) ∧ frame ex_heap h' [1; 3; 2]).
Proof.
  apply (fd_list_insert_ordered_spec Z.sub ex_heap 1 3 30%Z [2] [20%Z]); [by_compute| | |by_compute..].
  - by repeat constructor.
  - by repeat constructor.
Defined.
End Examples.
