(* ===== verification/OsHash.v ===== *)
(** * The hash function of octet strings ([fd_os_hash], [libfdproto/ostr.c])

    MurmurHash2 with a second code path for strings whose address is not a
    multiple of four.  A 32-bit read takes the bytes in little-endian order, as
    on the supported hosts; [align] is the address modulo 4. *)

From stdpp Require Import base list.
From Stdlib Require Import ZArith Lia.
From S2P Require Import Prelude.

Definition m_const : Z := 1540483477.   (* 0x5bd1e995 *)

(** [_HASH_MIX(h, k, m)] with [r = 24]; the new value of [h]. *)
Definition hash_mix (h k : Z) : Z :=
  let k := w32 (k * m_const) in
  let k := Z.lxor k (Z.shiftr k 24) in
  let k := w32 (k * m_const) in
  let h := w32 (h * m_const) in
  Z.lxor h k.

(** A read of a [uint32_t]. *)
Definition le32 (a b c d : Z) : Z := a + b * 2 ^ 8 + c * 2 ^ 16 + d * 2 ^ 24.

(** The bytes or-ed together by the fall-through [switch]es:
    [data[2] << 16 | data[1] << 8 | data[0]]. *)
Definition gather (data : bytes) : Z :=
  match data with
  | [] => 0
  | [a] => a
  | [a; b] => Z.lor (Z.shiftl b 8) a
  | a :: b :: c :: _ => Z.lor (Z.lor (Z.shiftl c 16) (Z.shiftl b 8)) a
  end.

(** [switch(len) { case 3: hash ^= data[2] << 16; ... hash *= m; }]. *)
Definition hash_tail (h : Z) (data : bytes) : Z :=
  match data with
  | [] => h
  | [a] => w32 (Z.lxor h a * m_const)
  | [a; b] => w32 (Z.lxor (Z.lxor h (Z.shiftl b 8)) a * m_const)
  | a :: b :: c :: _ =>
      w32 (Z.lxor (Z.lxor (Z.lxor h (Z.shiftl c 16)) (Z.shiftl b 8)) a * m_const)
  end.

(** The aligned path: [while(len >= 4)] and the tail. *)
Fixpoint hash_aligned (h : Z) (data : bytes) : Z :=
  match data with
  | a :: b :: c :: d :: data => hash_aligned (hash_mix h (le32 a b c d)) data
  | _ => hash_tail h data
  end.

(** The end of the unaligned path, with fewer than four bytes left; [t] is the
    last word read. *)
Definition hash_unaligned_end (align : nat) (h t : Z) (data : bytes) : Z :=
  let sl := 8 * (4 - Z.of_nat align) in
  let sr := 8 * Z.of_nat align in
  if decide (align ≤ length data)%nat then
    let d := gather (take align data) in
    let k := Z.lor (Z.shiftr t sr) (w32 (Z.shiftl d sl)) in
    hash_tail (hash_mix h k) (drop align data)
  else
    let d := gather data in
    w32 (Z.lxor h (Z.lor (Z.shiftr t sr) (w32 (Z.shiftl d sl))) * m_const).

(** The loop of the unaligned path: [t] holds the word before [data]. *)
Fixpoint hash_unaligned (align : nat) (h t : Z) (data : bytes) : Z :=
  match data with
  | a :: b :: c :: d0 :: data' =>
      let sl := 8 * (4 - Z.of_nat align) in
      let sr := 8 * Z.of_nat align in
      let d := le32 a b c d0 in
      let k := Z.lor (Z.shiftr t sr) (w32 (Z.shiftl d sl)) in
      hash_unaligned align (hash_mix h k) d data'
  | _ => hash_unaligned_end align h t data
  end.

Definition hash_final (h : Z) : Z :=
  let h := Z.lxor h (Z.shiftr h 13) in
  let h := w32 (h * m_const) in
  Z.lxor h (Z.shiftr h 15).

Definition fd_os_hash (align : nat) (string : bytes) : Z :=
  let hash := w32 (zlen string) in
  hash_final
    (if decide (align = 0%nat ∨ (length string < 4)%nat) then hash_aligned hash string
     else
       let t := w32 (Z.shiftl (gather (take (4 - align) string)) (8 * Z.of_nat align)) in
       hash_unaligned align hash t (drop (4 - align) string)).

(** ** The two paths agree *)

Lemma gather_spec data :
  is_bytes data → (length data ≤ 3)%nat →
  gather data = match data with
                | [a] => a | [a; b] => a + b * 2 ^ 8
                | [a; b; c] => a + b * 2 ^ 8 + c * 2 ^ 16 | _ => 0 end.
Proof.
  intros Hb Hl. destruct data as [|a [|b [|c [|? ?]]]]; simpl in Hl; try lia; try done.
  all: destruct_bytes; unfold gather.
  - rewrite Z.lor_comm, lor_shift_add; lia.
  - rewrite (Z.lor_comm _ a), (Z.lor_comm (Z.shiftl c 16)), Z.lor_assoc.
    rewrite (lor_shift_add a), lor_shift_add; lia.
Qed.

(** The word assembled from the last word [t] read and the next one is the word
    at the unaligned position: its low bytes are the top bytes [p] of [t]. *)
Lemma splice align t p d x :
  (1 ≤ align ≤ 3)%nat → 0 ≤ t < 2 ^ 32 → 0 ≤ d →
  Z.shiftr t (8 * Z.of_nat align) = p → 0 ≤ x → d mod 2 ^ (8 * Z.of_nat align) = x →
  Z.lor (Z.shiftr t (8 * Z.of_nat align)) (w32 (Z.shiftl d (8 * (4 - Z.of_nat align)))) =
  p + x * 2 ^ (8 * (4 - Z.of_nat align)).
Proof.
  intros Ha Ht Hd Hp Hx Hdx. rewrite Hp.
  assert (0 ≤ p < 2 ^ (8 * (4 - Z.of_nat align))) as Hpb.
  { rewrite <- Hp, Z.shiftr_div_pow2 by lia. split; [apply Z.div_pos; lia|].
    apply Z.div_lt_upper_bound; [lia|]. rewrite <- Z.pow_add_r by lia.
    replace (8 * Z.of_nat align + 8 * (4 - Z.of_nat align)) with 32; lia. }
  assert (w32 (Z.shiftl d (8 * (4 - Z.of_nat align))) = Z.shiftl x (8 * (4 - Z.of_nat align))) as ->.
  { unfold w32. rewrite !Z.shiftl_mul_pow2, <- Hdx by lia.
    replace (2 ^ 32) with (2 ^ (8 * Z.of_nat align) * 2 ^ (8 * (4 - Z.of_nat align)))
      by (rewrite <- Z.pow_add_r by lia; f_equal; lia).
    by rewrite Z.mul_mod_distr_r by lia. }
  rewrite lor_shift_add by lia. lia.
Qed.

Lemma hash_tail_spec h data :
  is_bytes data → (1 ≤ length data ≤ 3)%nat →
  hash_tail h data = w32 (Z.lxor h (gather data) * m_const).
Proof.
  intros Hb Hl. rewrite gather_spec by (done || lia).
  destruct data as [|a [|b [|c [|? ?]]]]; simpl in Hl; try lia; try done.
  all: destruct_bytes; unfold hash_tail; do 2 f_equal; rewrite !Z.lxor_assoc; f_equal.
  - rewrite Z.lxor_comm, lxor_shift_add; lia.
  - rewrite (Z.lxor_comm _ a), (Z.lxor_comm (Z.shiftl c 16)).
    rewrite (lxor_shift_add a), lxor_shift_add; lia.
Qed.

Lemma le32_range a b c d : is_byte a → is_byte b → is_byte c → is_byte d → 0 ≤ le32 a b c d < 2 ^ 32.
Proof. unfold is_byte, le32. lia. Qed.

(** [shorter l n]: a list of a given length, element by element. *)
Ltac explode l :=
  destruct l as [|? l]; [|destruct l as [|? l]; [|destruct l as [|? l]; [|destruct l as [|? l]]]];
  simpl length in *; try lia.

(** Evaluate the shift amounts for a concrete [align]. *)
Ltac fold_shifts :=
  change (8 * (4 - Z.of_nat 1)) with 24 in *; change (8 * (4 - Z.of_nat 2)) with 16 in *;
  change (8 * (4 - Z.of_nat 3)) with 8 in *; change (8 * Z.of_nat 1) with 8 in *;
  change (8 * Z.of_nat 2) with 16 in *; change (8 * Z.of_nat 3) with 24 in *.

Lemma gather_range align data :
  (1 ≤ align ≤ 3)%nat → is_bytes data → (length data ≤ align)%nat →
  0 ≤ gather data ∧ gather data mod 2 ^ (8 * Z.of_nat align) = gather data.
Proof.
  intros Ha Hb Hl. rewrite gather_spec by (done || lia).
  assert (align = 1 ∨ align = 2 ∨ align = 3)%nat as [->| [->| ->]] by lia.
  all: fold_shifts; explode data; destruct_bytes; split; try lia; try (apply Z.mod_small; lia).
Qed.

Lemma hash_unaligned_end_spec align h t pend data :
  (1 ≤ align ≤ 3)%nat → length pend = (4 - align)%nat → (length data ≤ 3)%nat →
  is_bytes pend → is_bytes data → 0 ≤ t < 2 ^ 32 →
  Z.shiftr t (8 * Z.of_nat align) = gather pend →
  hash_unaligned_end align h t data = hash_aligned h (pend ++ data).
Proof.
  intros Ha Hp Hd Hbp Hbd Ht Hs. unfold hash_unaligned_end. rewrite gather_spec in Hs by (done || lia).
  case_decide as Hal.
  - assert (is_bytes (take align data)) as Hbt by by apply Forall_take.
    destruct (gather_range align (take align data)) as [Hg Hgm]; [lia|done|rewrite length_take; lia|].
    erewrite splice; [|done|done|done|exact Hs|done|exact Hgm].
    rewrite gather_spec by (done || (rewrite length_take; lia)).
    assert (align = 1 ∨ align = 2 ∨ align = 3)%nat as [->| [->| ->]] by lia; explode pend; explode data.
    all: cbn [app take drop hash_aligned]; fold_shifts; f_equal; f_equal; unfold le32; lia.
  - assert (length (pend ++ data) ≤ 3)%nat as Hlen by (rewrite length_app; lia).
    assert (hash_aligned h (pend ++ data) = hash_tail h (pend ++ data)) as ->.
    { clear -Hlen. generalize dependent (pend ++ data). intros l Hl. by explode l. }
    assert (1 ≤ length (pend ++ data))%nat by (rewrite length_app; lia).
    rewrite hash_tail_spec, !gather_spec by first [done|lia|by apply is_bytes_app].
    rewrite <- (gather_spec data) by (done || lia).
    destruct (gather_range align data) as [Hg Hgm]; [lia|done|lia|].
    erewrite splice; [|done|done|done|exact Hs|done|exact Hgm].
    rewrite gather_spec by (done || lia).
    assert (align = 1 ∨ align = 2 ∨ align = 3)%nat as [->| [->| ->]] by lia.
    all: explode pend; explode data; cbn [app]; fold_shifts.
    all: f_equal; f_equal; f_equal; lia.
Qed.

Lemma hash_aligned_word h a b c d l :
  hash_aligned h (a :: b :: c :: d :: l) = hash_aligned (hash_mix h (le32 a b c d)) l.
Proof. done. Qed.

Lemma hash_unaligned_spec n align h t pend data :
  (length data ≤ n)%nat → (1 ≤ align ≤ 3)%nat → length pend = (4 - align)%nat →
  is_bytes pend → is_bytes data → 0 ≤ t < 2 ^ 32 →
  Z.shiftr t (8 * Z.of_nat align) = gather pend →
  hash_unaligned align h t data = hash_aligned h (pend ++ data).
Proof.
  revert h t pend data. induction n as [|n IH]; intros h t pend data Hn Ha Hp Hbp Hbd Ht Hs.
  { destruct data; [|simpl in Hn; lia]. apply hash_unaligned_end_spec; try done; simpl; lia. }
  destruct data as [|a [|b [|c [|d data]]]];
    try (apply hash_unaligned_end_spec; try done; simpl; lia).
  cbn [hash_unaligned]. destruct_bytes. rewrite gather_spec in Hs by (done || lia).
  assert (0 ≤ le32 a b c d < 2 ^ 32) as Hr by (apply le32_range; done).
  assert (align = 1 ∨ align = 2 ∨ align = 3)%nat as [->| [->| ->]] by lia; explode pend.
  - rewrite (splice 1 t _ (le32 a b c d) a Ha Ht (proj1 Hr) Hs), (IH _ _ [b; c; d]);
      try done; try lia; try solve_bytes.
    + rewrite gather_spec by ((simpl; lia) || solve_bytes). fold_shifts.
      rewrite Z.shiftr_div_pow2 by lia. unfold le32. div_lia.
    + fold_shifts. unfold le32. div_lia.
  - rewrite (splice 2 t _ (le32 a b c d) (a + b * 2 ^ 8) Ha Ht (proj1 Hr) Hs), (IH _ _ [c; d]);
      try done; try lia; try solve_bytes.
    + cbn [app]. rewrite (hash_aligned_word h _ _ a b). fold_shifts. f_equal. f_equal. unfold le32. div_lia.
    + rewrite gather_spec by ((simpl; lia) || solve_bytes). fold_shifts.
      rewrite Z.shiftr_div_pow2 by lia. unfold le32. div_lia.
    + fold_shifts. unfold le32. div_lia.
  - rewrite (splice 3 t _ (le32 a b c d) (a + b * 2 ^ 8 + c * 2 ^ 16) Ha Ht (proj1 Hr) Hs), (IH _ _ [d]);
      try done; try lia; try solve_bytes.
    + cbn [app]. rewrite (hash_aligned_word h _ a b c). fold_shifts. f_equal. f_equal. unfold le32. div_lia.
    + rewrite gather_spec by ((simpl; lia) || solve_bytes). fold_shifts.
      rewrite Z.shiftr_div_pow2 by lia. unfold le32. div_lia.
    + fold_shifts. unfold le32. div_lia.
Qed.

(** the code path for unaligned strings computes the same hash as the
    aligned one: the hash of a string does not depend on its address. *)
Theorem fd_os_hash_alignment align string :
  (align < 4)%nat → is_bytes string → fd_os_hash align string = fd_os_hash 0 string.
Proof.
  intros Ha Hb. unfold fd_os_hash. rewrite (decide_True (P:=0%nat = 0%nat ∨ _)) by by left.
  case_decide as Hc; [done|]. f_equal.
  rewrite (hash_unaligned_spec (length string) _ _ _ (take (4 - align) string));
    rewrite ?take_drop, ?length_drop, ?length_take; try done; try lia.
  - by apply Forall_take.
  - by apply Forall_drop.
  - apply w32_range.
  - assert (is_bytes (take (4 - align) string)) by by apply Forall_take.
    rewrite gather_spec by (done || (rewrite length_take; lia)).
    assert (align = 1 ∨ align = 2 ∨ align = 3)%nat as [->| [->| ->]] by lia; fold_shifts.
    all: explode string; try lia; cbn [take Nat.sub] in *; destruct_bytes.
    all: rewrite Z.shiftr_div_pow2, Z.shiftl_mul_pow2 by lia; unfold w32; div_lia.
Qed.

Lemma fd_os_hash_alignment_witness :
  fd_os_hash 3 [97; 97; 97; 58; 47; 47; 104] = fd_os_hash 0 [97; 97; 97; 58; 47; 47; 104].
Proof. apply (fd_os_hash_alignment 3 [97; 97; 97; 58; 47; 47; 104]); [lia|by_compute]. Defined.
