(* ===== verification/Ostr.v ===== *)
(** * Octet strings ([libfdproto/ostr.c])

    Comparison and search of octet strings, validation of DiameterIdentity,
    parsing of DiameterURI, and the hash function.

    A string passed with its size is a list of bytes; where the code may look
    past the size (a terminator, a [strlen]), the argument is the memory from
    the pointer on, and a read outside of it is [Crash].  The library is
    modelled in its default configuration: neither [DIAMID_IDNA_IGNORE] nor
    [DIAMID_IDNA_REJECT], SCTP enabled.  [idn2_to_ascii_8z] of libidn2 is a
    parameter.  The comparison functions of the C library are those of the "C"
    locale; [memcmp] is given the results -1, 0, 1 (C only fixes the sign).
    Allocation does not fail. *)

From stdpp Require Import base list gmap sorting.
From Stdlib Require Import ZArith Lia.
From S2P Require Import Prelude.

(** ** Memory access *)

Definition rdb (m : bytes) (i : Z) : res Z :=
  if decide (i < 0) then Crash else
  match m !! Z.to_nat i with Some b => Ok b | None => Crash end.

(** [cstr m]: the C string at the start of [m]; without a terminator inside the
    memory the scan leaves it. *)
Fixpoint cstr (m : bytes) : res bytes :=
  match m with
  | [] => Crash
  | b :: m => if decide (b = 0) then Ok [] else let* s := cstr m in Ok (b :: s)
  end.

Definition os0dup_int (s : bytes) (l : Z) : bytes := take (Z.to_nat l) s ++ [0].

(** ** Comparison *)

Fixpoint memcmp (l k : bytes) : Z :=
  match l, k with
  | a :: l, b :: k => if decide (a = b) then memcmp l k else if decide (a < b) then -1 else 1
  | _, _ => 0
  end.

Definition fd_os_cmp_int (os1 os2 : bytes) : Z :=
  if decide (zlen os1 < zlen os2) then -1
  else if decide (zlen os1 > zlen os2) then 1
  else memcmp os1 os2.

Definition asciitolower (a : Z) : Z := if decide (65 ≤ a ≤ 90) then a + 32 else a.

(** The loop of [fd_os_almostcasesrch_int]; [r] is the variable [res]. *)
Fixpoint almost_loop (r : Z) (os1 os2 : bytes) : Z :=
  match os1, os2 with
  | a :: os1, b :: os2 =>
      if decide (a = b) then almost_loop r os1 os2 else
      let r := if decide (r = 0) then (if decide (a < b) then -1 else 1) else r in
      if decide (asciitolower a = asciitolower b) then almost_loop r os1 os2 else r
  | _, _ => 0
  end.

(** The result and the value stored in [*maybefurther]. *)
Definition fd_os_almostcasesrch_int (os1 os2 : bytes) : Z * bool :=
  if decide (zlen os1 < zlen os2) then (-1, false)
  else if decide (zlen os1 > zlen os2) then (1, true)
  else (almost_loop 0 os1 os2, true).

(** ** DiameterIdentity *)

(** The tests of the character loop, in the order of the code. *)
Definition identity_char (c : Z) : bool :=
  if decide (c > 122) then false
  else if decide (97 ≤ c) then true
  else if decide (65 ≤ c ∧ c ≤ 90) then true
  else if decide (c = 45 ∨ c = 46) then true
  else bool_decide (48 ≤ c ∧ c ≤ 57).

(** [for (i=0; i < ossz; i++)]: the index where the loop stops. *)
Fixpoint identity_scan (os : bytes) (ossz : nat) (i : Z) {struct ossz} : res Z :=
  match ossz with
  | 0%nat => Ok i
  | S n => match os with
           | [] => Crash
           | c :: os => if identity_char c then identity_scan os n (i + 1) else Ok i
           end
  end.

(** [(os[i+1] & 0xC0) == 0x80 && ...] for [n] continuation bytes. *)
Fixpoint continuation (os : bytes) (i : Z) (n : nat) : res bool :=
  match n with
  | 0%nat => Ok true
  | S n => let* c := rdb os i in
           if decide (Z.land c 192 = 128) then continuation os (i + 1) n else Ok false
  end.

(** The number of bytes [nb] displayed for an invalid UTF-8 sequence of [n + 1]
    bytes.  [i < ossz - n] is computed in [size_t] and wraps. *)
Definition utf8_display (os : bytes) (ossz i : Z) (n : nat) : res Z :=
  if decide (i < w64 (ossz - Z.of_nat n)) then
    let* b := continuation os (i + 1) n in Ok (if b then 1 + Z.of_nat n else 1)
  else Ok 1.

(** [os] is the memory at the pointer, [ossz] the size. *)
Definition fd_os_is_valid_DiameterIdentity (os : bytes) (ossz : Z) : res bool :=
  let* i := identity_scan os (Z.to_nat ossz) 0 in
  if decide (i < ossz) then
    let* c := rdb os i in
    let* _ :=
      if decide (Z.land c 224 = 192) then utf8_display os ossz i 1
      else if decide (Z.land c 240 = 224) then utf8_display os ossz i 2
      else if decide (Z.land c 248 = 240) then utf8_display os ossz i 3
      else if decide (Z.land c 252 = 248) then utf8_display os ossz i 4
      else if decide (Z.land c 254 = 252) then utf8_display os ossz i 5
      else Ok 1 in
    Ok false
  else Ok true.

Section with_idn.
Context (idn2_to_ascii_8z : bytes → option bytes).

(** [id] is the block [*id] points to, [inoutsz] is [*inoutsz] (0: compute it);
    [memory = false] means that the block can be reallocated, [true] that a new
    one must be returned.  The result is the block and the size on return. *)
Definition fd_os_validate_DiameterIdentity (id : bytes) (inoutsz : Z) (memory : bool)
    : res (bytes * Z) :=
  let gotsize := bool_decide (inoutsz ≠ 0) in
  let* sz := if gotsize then Ok inoutsz else let* s := cstr id in Ok (zlen s) in
  let* valid := fd_os_is_valid_DiameterIdentity id sz in
  if valid then
    Ok (if memory then os0dup_int id sz else id, sz)
  else
    let id := if gotsize then
                if memory then os0dup_int id sz
                else take (Z.to_nat sz) id ++ [48]   (* realloc, then the character '0' behind the end *)
              else id in
    let* s := cstr id in
    match idn2_to_ascii_8z s with
    | Some processed => Ok (processed ++ [0], zlen processed)
    | None => Err EINVAL
    end.

(** ** DiameterURI *)

Definition IPPROTO_TCP := 6.
Definition IPPROTO_UDP := 17.
Definition IPPROTO_SCTP := 132.

Record diameter_uri := DiameterURI {
  diamid : bytes; secure : bool; port : Z; transport : Z; proto : Z }.

Definition str_aaa : bytes := [97; 97; 97].
Definition str_sep : bytes := [58; 47; 47].                                    (* "://" *)
Definition str_transport : bytes := [59; 116; 114; 97; 110; 115; 112; 111; 114; 116; 61]. (* ";transport=" *)
Definition str_tcp : bytes := [116; 99; 112].
Definition str_udp : bytes := [117; 100; 112].
Definition str_sctp : bytes := [115; 99; 116; 112].
Definition str_protocol : bytes := [59; 112; 114; 111; 116; 111; 99; 111; 108; 61].     (* ";protocol=" *)
Definition str_diameter : bytes := [100; 105; 97; 109; 101; 116; 101; 114].
Definition str_radius : bytes := [114; 97; 100; 105; 117; 115].
Definition str_tacacs : bytes := [116; 97; 99; 97; 99; 115; 43].               (* "tacacs+" *)

(** [!memcmp(m + off, s, strlen(s))] and [!strncasecmp(m + off, s, strlen(s))],
    for a constant [s]. *)
Fixpoint memeq_at (m s : bytes) {struct s} : res bool :=
  match s, m with
  | [], _ => Ok true
  | _ :: _, [] => Crash
  | b :: s, a :: m => let* r := memeq_at m s in Ok (bool_decide (a = b) && r)
  end.
Fixpoint caseeq_at (m s : bytes) {struct s} : res bool :=
  match s, m with
  | [], _ => Ok true
  | _ :: _, [] => Crash
  | b :: s, a :: m =>
      if decide (asciitolower a = asciitolower b) then caseeq_at m s else Ok false
  end.

(** [for ( ; offset < urisz ; offset++ )], stopped by ':' or ';'. *)
Fixpoint fqdn_end (fuel : nat) (uri : bytes) (urisz offset : Z) : res Z :=
  match fuel with
  | 0%nat => Crash
  | S fuel =>
      if decide (offset < urisz) then
        let* c := rdb uri offset in
        if decide (c = 58 ∨ c = 59) then Ok offset else fqdn_end fuel uri urisz (offset + 1)
      else Ok offset
  end.

(** The [do ... while (1)] loop over the digits of the port: [offset] is the
    value before the increment.  [(uint32_t)((char)uri[offset] - '0')]: the
    character is signed. *)
Fixpoint uri_port (fuel : nat) (uri : bytes) (urisz offset p : Z) : res (Z * Z) :=
  match fuel with
  | 0%nat => Crash
  | S fuel =>
      let offset := offset + 1 in
      if decide (offset = urisz) then Ok (offset, p) else
      let* c := rdb uri offset in
      let t := w32 (signed 8 c - 48) in
      if decide (t > 9) then Ok (offset, p) else
      let t := w32 (t + p * 10) in
      if decide (65536 ≤ t) then Err EINVAL else
      uri_port fuel uri urisz offset (w16 t)
  end.

(** From "Is there a transport?" to [after_transport]: either the function
    returns there ([inl]), or it goes on with the offset and the transport. *)
Definition uri_transport (uri : bytes) (urisz offset : Z) : res (Z + Z * Z) :=
  let* marker := if decide (urisz - offset > 11)
                 then caseeq_at (drop (Z.to_nat offset) uri) str_transport else Ok false in
  if marker : bool then
    let offset := offset + 11 in
    if decide (urisz - offset < 3) then Ok (inl 0) else
    let at_off := drop (Z.to_nat offset) uri in
    let* tcp := caseeq_at at_off str_tcp in
    if tcp : bool then Ok (inr (offset + 3, IPPROTO_TCP)) else
    let* udp := caseeq_at at_off str_udp in
    if udp : bool then Ok (inr (offset + 3, IPPROTO_UDP)) else
    let* sctp := if decide (urisz - offset > 3) then caseeq_at at_off str_sctp else Ok false in
    if sctp : bool then Ok (inr (offset + 4, IPPROTO_SCTP)) else
    Err EINVAL
  else Ok (inr (offset, 0)).

(** From "Is there a protocol?" to [after_proto]. *)
Definition uri_protocol (uri : bytes) (urisz offset : Z) : res (Z * Z) :=
  let* marker := if decide (urisz - offset > 10)
                 then caseeq_at (drop (Z.to_nat offset) uri) str_protocol else Ok false in
  if marker : bool then
    let offset := offset + 10 in
    let at_off := drop (Z.to_nat offset) uri in
    let* d := if decide (8 ≤ urisz - offset) then caseeq_at at_off str_diameter else Ok false in
    if d : bool then Ok (offset + 8, 100) else
    let* r := if decide (6 ≤ urisz - offset) then caseeq_at at_off str_radius else Ok false in
    if r : bool then Ok (offset + 6, 114) else
    let* t := if decide (7 ≤ urisz - offset) then caseeq_at at_off str_tacacs else Ok false in
    if t : bool then Ok (offset + 7, 116) else
    Err EINVAL
  else Ok (offset, 0).

(** [uri] is the memory at the pointer; the outputs are those of a call with no
    [NULL] output pointer. *)
Definition fd_os_parse_DiameterURI (uri : bytes) (urisz : Z) : res diameter_uri :=
  check bool_decide (urisz > 7) in
  let* aaa := memeq_at uri str_aaa in
  if negb aaa then Err EINVAL else
  let* c := rdb uri 3 in
  let sec := bool_decide (c = 115) in
  let offset := if sec then 4 else 3 in
  let* sep := memeq_at (drop (Z.to_nat offset) uri) str_sep in
  if negb sep then Err EINVAL else
  let start := offset + 3 in
  let* offset := fqdn_end (S (Z.to_nat (urisz - start))) uri urisz start in
  let* (blk, len) := fd_os_validate_DiameterIdentity (drop (Z.to_nat start) uri) (offset - start) true in
  let id := take (Z.to_nat len) blk in
  if decide (offset = urisz) then Ok (DiameterURI id sec 0 0 0) else
  let* c := rdb uri offset in
  let* (offset, p) := if decide (c = 58) then uri_port (S (Z.to_nat (urisz - offset))) uri urisz offset 0
                      else Ok (offset, 0) in
  if decide (offset = urisz) then Ok (DiameterURI id sec p 0 0) else
  let* tr := uri_transport uri urisz offset in
  match tr with
  | inl tp => Ok (DiameterURI id sec p tp 0)
  | inr (offset, tp) =>
      if decide (offset = urisz) then Ok (DiameterURI id sec p tp 0) else
      let* (offset, pr) := uri_protocol uri urisz offset in
      if decide (offset = urisz) then Ok (DiameterURI id sec p tp pr) else
      Err EINVAL
  end.

End with_idn.

(** ** Comparison and search *)

Lemma memcmp_sym l k : memcmp l k < 0 ↔ 0 < memcmp k l.
Proof.
  revert k. induction l as [|a l IH]; intros [|b k]; simpl; try lia.
  repeat case_decide; try lia; try congruence. apply IH.
Qed.

Lemma memcmp_trans l k j :
  length l = length k → length k = length j →
  memcmp l k ≤ 0 → memcmp k j ≤ 0 → memcmp l j ≤ 0.
Proof.
  revert k j. induction l as [|a l IH]; intros [|b k] [|c j]; simpl; try lia.
  intros Hl Hk. repeat case_decide; subst; try lia; try congruence. apply IH; lia.
Qed.

Lemma memcmp_refl l : memcmp l l = 0.
Proof. induction l; simpl; [done|]. by rewrite decide_True. Qed.

Lemma memcmp_zero l k : length l = length k → memcmp l k = 0 → l = k.
Proof.
  revert k. induction l as [|a l IH]; intros [|b k]; simpl; try done.
  intros [= Hl]. repeat case_decide; try lia. intros H'. f_equal; [done|]. by apply IH.
Qed.

#[export] Instance fd_os_cmp_order : CmpOrder fd_os_cmp_int.
Proof.
  unfold fd_os_cmp_int, zlen. split.
  - intros x. rewrite !decide_False by lia. apply memcmp_refl.
  - intros x y. repeat case_decide; try lia. apply memcmp_sym.
  - intros x y z. repeat case_decide; try lia. apply memcmp_trans; lia.
Qed.

Lemma fd_os_cmp_zero x y : fd_os_cmp_int x y = 0 ↔ x = y.
Proof.
  split; [|intros ->; apply cmp_refl].
  unfold fd_os_cmp_int, zlen. repeat case_decide; try lia. apply memcmp_zero. lia.
Qed.

(** [fd_os_cmp] is a total order on octet strings, shorter strings first,
    and equal only on equal strings. *)
Theorem fd_os_cmp_total_order :
  CmpOrder fd_os_cmp_int ∧ (∀ x y, fd_os_cmp_int x y = 0 ↔ x = y) ∧
  (∀ x y, zlen x < zlen y → fd_os_cmp_int x y < 0).
Proof.
  split; [apply _|]. split; [apply fd_os_cmp_zero|].
  intros x y Hl. unfold fd_os_cmp_int. by rewrite decide_True.
Qed.

(** Equality up to the case of ASCII letters. *)
Definition case_equal (x y : bytes) : Prop := asciitolower <$> x = asciitolower <$> y.

Lemma case_equal_length x y : case_equal x y → length x = length y.
Proof. intros E. apply (f_equal length) in E. by rewrite !length_fmap in E. Qed.

Lemma almost_loop_zero r x y :
  length x = length y → (almost_loop r x y = 0 ↔ case_equal x y).
Proof.
  revert r y. induction x as [|a x IH]; intros r [|b y]; try done.
  intros [= Hl]. unfold case_equal in *. rewrite !fmap_cons. cbn [almost_loop].
  repeat case_decide; subst.
  all: try (rewrite IH by done; split; [by intros ->; f_equal|by intros [=]]).
  all: split; [lia|intros [=]; congruence].
Qed.

Lemma almost_loop_sign r x y :
  length x = length y → almost_loop r x y ≠ 0 →
  almost_loop r x y = if decide (r = 0) then memcmp x y else r.
Proof.
  revert r y. induction x as [|a x IH]; intros r [|b y]; try done.
  intros [= Hl]. cbn [almost_loop memcmp].
  destruct (decide (a = b)) as [->|Hab]; [by apply IH|].
  set (r' := if decide (r = 0) then if decide (a < b) then -1 else 1 else r).
  assert (r' ≠ 0 ∧ r' = if decide (r = 0) then if decide (a < b) then -1 else 1 else r) as [Hr' E].
  { split; [|done]. unfold r'. repeat case_decide; lia. }
  destruct (decide (asciitolower a = asciitolower b)) as [?|?].
  - intros Hz. by rewrite IH, decide_False, E.
  - intros _. by rewrite E.
Qed.

Lemma almost_spec x y :
  let r := fst (fd_os_almostcasesrch_int x y) in
  (r = 0 ↔ case_equal x y) ∧ (r ≠ 0 → r = fd_os_cmp_int x y).
Proof.
  unfold fd_os_almostcasesrch_int, fd_os_cmp_int, zlen. repeat case_decide; simpl.
  - split; [|done]. split; [lia|]. intros E%case_equal_length. lia.
  - split; [|done]. split; [lia|]. intros E%case_equal_length. lia.
  - split; [apply almost_loop_zero; lia|]. intros Hz.
    rewrite (almost_loop_sign 0) by (done || lia). done.
Qed.

(** what [fd_os_almostcasesrch] returns: zero exactly on strings equal up to
    case, and otherwise the result of [fd_os_cmp]. *)
Theorem fd_os_almostcasesrch_spec x y :
  let r := fst (fd_os_almostcasesrch_int x y) in
  (r = 0 ↔ case_equal x y) ∧ (r ≠ 0 → r = fd_os_cmp_int x y).
Proof. apply almost_spec. Qed.

Lemma almost_stop x y l :
  Increasing fd_os_cmp_int (y :: l) → snd (fd_os_almostcasesrch_int x y) = false →
  ∀ z, z ∈ y :: l → ¬ case_equal x z.
Proof.
  intros [_ Hy]%StronglySorted_inv Hm z Hz E%case_equal_length.
  unfold fd_os_almostcasesrch_int, zlen in Hm. repeat case_decide; try done.
  apply elem_of_cons in Hz as [->|Hz]; [lia|].
  rewrite Forall_forall in Hy. specialize (Hy z Hz). unfold fd_os_cmp_int, zlen in Hy.
  repeat case_decide; lia.
Qed.

(** [maybefurther = 0] may end a search through a list ordered by
    [fd_os_cmp]: neither the element at hand nor any later one is equal to the
    string searched for, up to case. *)
Theorem fd_os_almostcasesrch_stop x y l :
  Increasing fd_os_cmp_int (y :: l) → snd (fd_os_almostcasesrch_int x y) = false →
  ∀ z, z ∈ y :: l → ¬ case_equal x z.
Proof. apply almost_stop. Qed.

Lemma fd_os_almostcasesrch_stop_witness : ¬ case_equal [97] [97; 98].
Proof.
  apply (fd_os_almostcasesrch_stop [97] [66; 99] [[97; 98]; [97; 100]]);
    [by repeat constructor|done|by_compute].
Defined.

(** ** Reading a memory at an offset *)

(** [at_off m i l]: the memory [m] holds [l] from offset [i] to its end. *)
Definition at_off (m : bytes) (i : Z) (l : bytes) : Prop := 0 ≤ i ∧ drop (Z.to_nat i) m = l.

Lemma at_off_start m : at_off m 0 m.
Proof. done. Qed.

Lemma at_off_app m i l k : at_off m i (l ++ k) → at_off m (i + zlen l) k.
Proof.
  intros [Hi Hd]. unfold zlen. split; [lia|].
  rewrite Z2Nat.inj_add, Nat2Z.id, <- drop_drop, Hd by lia. by rewrite drop_app_length.
Qed.

Lemma at_off_cons m i c l : at_off m i (c :: l) → rdb m i = Ok c ∧ at_off m (i + 1) l.
Proof.
  intros H. split; [|exact (at_off_app m i [c] l H)].
  destruct H as [Hi Hd]. unfold rdb. rewrite decide_False by lia.
  rewrite <- (Nat.add_0_r (Z.to_nat i)), <- lookup_drop, Hd. done.
Qed.

Lemma at_off_drop m i l : at_off m i l → drop (Z.to_nat i) m = l.
Proof. by intros [_ ?]. Qed.

Lemma at_off_read m i j : 0 ≤ i → i + j < zlen m → 0 ≤ j → ∃ c, rdb m (i + j) = Ok c.
Proof.
  intros Hi Hj Hj0. unfold rdb, zlen in *. rewrite decide_False by lia.
  destruct (lookup_lt_is_Some_2 m (Z.to_nat (i + j))) as [c ->]; [lia|]. eauto.
Qed.

(** ** DiameterIdentity *)

Definition valid_identity (s : bytes) : bool := forallb identity_char s.

Lemma identity_scan_spec s rest i :
  ∃ k, identity_scan (s ++ rest) (length s) i = Ok (i + Z.of_nat k) ∧ (k ≤ length s)%nat ∧
    (valid_identity s = true ↔ k = length s) ∧ valid_identity (take k s) = true.
Proof.
  revert i. induction s as [|c s IH]; intros i; simpl.
  - exists 0%nat. split; [f_equal; lia|done].
  - destruct (identity_char c) eqn:Hc; simpl.
    + destruct (IH (i + 1)) as (k & -> & Hk & Hv & Ht). exists (S k). simpl. rewrite Hc. simpl.
      split; [f_equal; lia|]. split; [lia|]. split; [rewrite Hv; lia|done].
    + exists 0%nat. split; [f_equal; lia|]. split; [lia|]. by split; [split|].
Qed.

(** A byte that continues no UTF-8 sequence, such as a terminator, stops the look
    at the continuation bytes. *)
Definition no_continuation (t : Z) : Prop := Z.land t 192 ≠ 128.

Lemma continuation_ok t s rest i n : no_continuation t →
  0 ≤ i ≤ zlen s → ∃ b, continuation (s ++ t :: rest) i n = Ok b.
Proof.
  intros Ht. revert i. induction n as [|n IH]; intros i Hi; simpl; [eauto|].
  destruct (decide (i = zlen s)) as [->|Hne].
  - destruct (at_off_cons (s ++ t :: rest) (zlen s) t rest) as [-> _].
    { apply (at_off_app _ 0 s). apply at_off_start. }
    simpl. rewrite decide_False by done. eauto.
  - destruct (at_off_read (s ++ t :: rest) i 0) as [c E]; [lia|unfold zlen in *; rewrite length_app; lia|done|].
    rewrite Z.add_0_r in E. rewrite E. simpl. case_decide; [|eauto]. apply IH. lia.
Qed.

Lemma utf8_display_ok t s rest i n : no_continuation t →
  0 ≤ i < zlen s → ∃ nb, utf8_display (s ++ t :: rest) (zlen s) i n = Ok nb.
Proof.
  intros Ht Hi. unfold utf8_display. case_decide; [|eauto].
  destruct (continuation_ok t s rest (i + 1) n) as [b ->]; [done|lia|]. simpl. eauto.
Qed.

Lemma is_valid_stopped t s rest : no_continuation t →
  fd_os_is_valid_DiameterIdentity (s ++ t :: rest) (zlen s) = Ok (valid_identity s).
Proof.
  intros Ht. unfold fd_os_is_valid_DiameterIdentity. unfold zlen at 1. rewrite Nat2Z.id.
  destruct (identity_scan_spec s (t :: rest) 0) as (k & -> & Hk & Hv & _). cbn [res_bind].
  case_decide as Hlt.
  - assert (valid_identity s = false) as ->.
    { apply not_true_iff_false. rewrite Hv. unfold zlen in Hlt. lia. }
    destruct (at_off_read (s ++ t :: rest) 0 (0 + Z.of_nat k)) as [c E];
      [lia|unfold zlen in *; rewrite length_app; simpl; lia|lia|].
    rewrite Z.add_0_l in E. rewrite E. cbn [res_bind].
    repeat (case_decide; [match goal with |- context [utf8_display _ _ _ ?n] =>
      destruct (utf8_display_ok t s rest (0 + Z.of_nat k) n) as [? ->]; [done|lia|done] end|]).
    done.
  - f_equal. symmetry. apply Hv. unfold zlen in Hlt. lia.
Qed.

Lemma is_valid_terminated s rest :
  fd_os_is_valid_DiameterIdentity (s ++ 0 :: rest) (zlen s) = Ok (valid_identity s).
Proof. by apply is_valid_stopped. Qed.

(** on a terminated string, [fd_os_is_valid_DiameterIdentity] reads inside
    the string only and accepts exactly the strings of letters, digits, hyphens
    and dots. *)
Theorem fd_os_is_valid_spec s rest :
  fd_os_is_valid_DiameterIdentity (s ++ 0 :: rest) (zlen s) = Ok (valid_identity s).
Proof. apply is_valid_terminated. Qed.

(** Without a terminator the guards of the display code do not protect it: the
    subtraction wraps below the size. *)
Example fd_os_is_valid_overread : fd_os_is_valid_DiameterIdentity [226] 1 = Crash.
Proof. reflexivity. Qed.

Lemma fd_os_is_valid_true m sz :
  0 ≤ sz → fd_os_is_valid_DiameterIdentity m sz = Ok true →
  sz ≤ zlen m ∧ valid_identity (take (Z.to_nat sz) m) = true.
Proof.
  intros Hsz. unfold fd_os_is_valid_DiameterIdentity.
  assert (∀ n m i k, identity_scan m n i = Ok k → k ≤ i + Z.of_nat n ∧
    (k = i + Z.of_nat n → (n ≤ length m)%nat ∧ valid_identity (take n m) = true)) as Hscan.
  { clear. induction n as [|n IH]; intros m i k; simpl.
    - intros [= <-]. split; [lia|done || (intros; split; [lia|done])].
    - destruct m as [|c m]; [done|]. destruct (identity_char c) eqn:Hc.
      + intros E. destruct (IH _ _ _ E) as [H1 H2]. split; [lia|]. intros ->.
        destruct H2; [lia|]. simpl. rewrite Hc. simpl. split; [lia|done].
      + intros [= <-]. split; [lia|]. lia. }
  destruct (identity_scan m (Z.to_nat sz) 0) as [k| |] eqn:E; [|done..]. cbn [res_bind].
  destruct (Hscan _ _ _ _ E) as [H1 H2]. case_decide.
  - destruct (rdb m k); [|done..]. cbn [res_bind].
    match goal with |- res_bind ?x _ = _ → _ => by destruct x end.
  - intros _. destruct H2; [lia|]. unfold zlen. split; [lia|done].
Qed.

Section validate.
Context (idn2_to_ascii_8z : bytes → option bytes).

Lemma validate_valid s rest :
  valid_identity s = true → s ≠ [] →
  fd_os_validate_DiameterIdentity idn2_to_ascii_8z (s ++ 0 :: rest) (zlen s) true =
    Ok (s ++ [0], zlen s).
Proof.
  intros Hv Hs. unfold fd_os_validate_DiameterIdentity.
  assert (zlen s ≠ 0) by (destruct s; [done|rewrite zlen_cons; pose proof (zlen_nonneg s); lia]).
  rewrite bool_decide_true by done. cbn [res_bind]. rewrite is_valid_terminated, Hv. cbn [res_bind].
  unfold os0dup_int, zlen. by rewrite Nat2Z.id, take_app_length.
Qed.

(** the identity that [fd_os_validate_DiameterIdentity] returns is a valid
    one whenever libidn2 only produces letters, digits, hyphens and dots, as
    its STD3 rules say; and if a new block was asked for it is terminated. *)
Theorem fd_os_validate_result id inoutsz memory blk len :
  (∀ s p, idn2_to_ascii_8z s = Some p → valid_identity p = true) → 0 ≤ inoutsz →
  fd_os_validate_DiameterIdentity idn2_to_ascii_8z id inoutsz memory = Ok (blk, len) →
  valid_identity (take (Z.to_nat len) blk) = true ∧ len ≤ zlen blk ∧
  (memory = true → blk = take (Z.to_nat len) blk ++ [0]).
Proof.
  intros Hidn Hsz. unfold fd_os_validate_DiameterIdentity.
  intros (sz & Hszd & (v & Hv & H)%res_bind_ok)%res_bind_ok.
  assert (0 ≤ sz) as Hsz0.
  { revert Hszd. case_bool_decide; intros; destruct_res; subst; [done|apply zlen_nonneg]. }
  destruct v.
  - injection H as <- <-. apply fd_os_is_valid_true in Hv as [Hl Hv]; [|done].
    assert (length (take (Z.to_nat sz) id) = Z.to_nat sz) as Hlen
      by (rewrite length_take; unfold zlen in Hl; lia).
    destruct memory; unfold os0dup_int; [|done].
    assert (take (Z.to_nat sz) (take (Z.to_nat sz) id ++ [0]) = take (Z.to_nat sz) id) as ->.
    { rewrite take_app_le, take_take by lia. f_equal. lia. }
    split; [done|]. split; [|done]. rewrite zlen_app. unfold zlen. rewrite Hlen. simpl. lia.
  - apply res_bind_ok in H as (s & _ & H).
    destruct (idn2_to_ascii_8z s) as [p|] eqn:Hp; [|done]. injection H as <- <-.
    assert (take (Z.to_nat (zlen p)) (p ++ [0]) = p) as ->.
    { unfold zlen. by rewrite Nat2Z.id, take_app_length. }
    split; [by eapply Hidn|]. rewrite zlen_app. split; [unfold zlen; simpl; lia|done].
Qed.

(** the re-allocated copy of an invalid identity of known size is not
    terminated: the code stores the character '0' (48) where it means to store
    the terminator, and libidn2 is given a string that runs past the block. *)
Theorem fd_os_validate_unterminated s rest :
  s ≠ [] → Forall (λ c, c ≠ 0) s → valid_identity s = false →
  fd_os_validate_DiameterIdentity idn2_to_ascii_8z (s ++ 0 :: rest) (zlen s) false = Crash.
Proof.
  intros Hs Hnz Hv. unfold fd_os_validate_DiameterIdentity.
  assert (zlen s ≠ 0) by (destruct s; [done|rewrite zlen_cons; pose proof (zlen_nonneg s); lia]).
  rewrite bool_decide_true by done. cbn [res_bind]. rewrite is_valid_terminated, Hv. cbn [res_bind].
  unfold zlen. rewrite Nat2Z.id, take_app_length.
  assert (cstr (s ++ [48]) = Crash) as ->; [|done].
  clear -Hnz. induction Hnz as [|c s Hc _ IH]; simpl; [done|]. by rewrite decide_False, IH.
Qed.

End validate.

Lemma fd_os_validate_result_witness :
  valid_identity (take 4 [97; 46; 98; 99; 0]) = true ∧ 4 ≤ zlen [97; 46; 98; 99; 0] ∧
  (true = true → [97; 46; 98; 99; 0] = take 4 [97; 46; 98; 99; 0] ++ [0]).
Proof.
  apply (fd_os_validate_result (λ s, if valid_identity s then Some s else None)
           [97; 46; 98; 99; 0] 0 true [97; 46; 98; 99; 0] 4); [|lia|reflexivity].
  intros s p H. destruct (valid_identity s) eqn:E; [congruence|discriminate].
Defined.

Lemma fd_os_validate_unterminated_witness :
  fd_os_validate_DiameterIdentity (λ s, Some s) ([97; 95] ++ [0; 1]) (zlen [97; 95]) false = Crash.
Proof.
  apply (fd_os_validate_unterminated (λ s, Some s) [97; 95] [1]); [done|by repeat constructor|reflexivity].
Defined.

(** ** DiameterURI: printing and parsing *)

Inductive uri_tp := TP_tcp | TP_udp | TP_sctp.
Inductive uri_pr := PR_diameter | PR_radius | PR_tacacs.

(** The parts of a URI; the port is the list of its decimal digits. *)
Record uri_text := UriText {
  t_secure : bool; t_fqdn : bytes; t_port : option bytes;
  t_transport : option uri_tp; t_proto : option uri_pr }.

Definition tp_text (t : uri_tp) : bytes :=
  match t with TP_tcp => str_tcp | TP_udp => str_udp | TP_sctp => str_sctp end.
Definition tp_value (t : uri_tp) : Z :=
  match t with TP_tcp => IPPROTO_TCP | TP_udp => IPPROTO_UDP | TP_sctp => IPPROTO_SCTP end.
Definition pr_text (p : uri_pr) : bytes :=
  match p with PR_diameter => str_diameter | PR_radius => str_radius | PR_tacacs => str_tacacs end.
Definition pr_value (p : uri_pr) : Z :=
  match p with PR_diameter => 100 | PR_radius => 114 | PR_tacacs => 116 end.

Definition port_value (p : Z) (ds : bytes) : Z := foldl (λ p d, p * 10 + d) p ds.

Definition print_port (t : uri_text) : bytes :=
  match t_port t with Some ds => 58 :: map (Z.add 48) ds | None => [] end.
Definition print_transport (t : uri_text) : bytes :=
  match t_transport t with Some tp => str_transport ++ tp_text tp | None => [] end.
Definition print_proto (t : uri_text) : bytes :=
  match t_proto t with Some pr => str_protocol ++ pr_text pr | None => [] end.
Definition print_uri (t : uri_text) : bytes :=
  str_aaa ++ (if t_secure t then [115] else []) ++ str_sep ++ t_fqdn t ++
  print_port t ++ print_transport t ++ print_proto t.

Definition uri_meaning (t : uri_text) : diameter_uri :=
  DiameterURI (t_fqdn t) (t_secure t)
    (match t_port t with Some ds => port_value 0 ds | None => 0 end)
    (match t_transport t with Some tp => tp_value tp | None => 0 end)
    (match t_proto t with Some pr => pr_value pr | None => 0 end).

Definition uri_wf (t : uri_text) : Prop :=
  t_fqdn t ≠ [] ∧ valid_identity (t_fqdn t) = true ∧
  match t_port t with
  | Some ds => Forall (λ d, 0 ≤ d ≤ 9) ds ∧ port_value 0 ds < 65536
  | None => True
  end ∧
  7 < zlen (print_uri t).

Lemma memeq_at_self s m : memeq_at (s ++ m) s = Ok true.
Proof. induction s as [|b s IH]; simpl; [done|]. rewrite IH. simpl. by rewrite bool_decide_true. Qed.
Lemma caseeq_at_self s m : caseeq_at (s ++ m) s = Ok true.
Proof. induction s as [|b s IH]; simpl; [done|]. by rewrite decide_True. Qed.

Lemma valid_identity_stop c s :
  valid_identity s = true → c ∈ s → c ≠ 58 ∧ c ≠ 59.
Proof.
  unfold valid_identity. rewrite forallb_forall. intros Hs Hc%list_elem_of_In%Hs.
  unfold identity_char in Hc. repeat case_decide; try case_bool_decide; try done; lia.
Qed.

Lemma fqdn_end_spec fuel m urisz i s rest :
  at_off m i (s ++ rest) → (∀ c, c ∈ s → c ≠ 58 ∧ c ≠ 59) →
  i + zlen s ≤ urisz → (i + zlen s < urisz → ∃ c k, rest = c :: k ∧ (c = 58 ∨ c = 59)) →
  urisz - i < Z.of_nat fuel →
  fqdn_end fuel m urisz i = Ok (i + zlen s).
Proof.
  revert i s. induction fuel as [|fuel IH]; intros i s Hat Hs Hle Hstop Hf.
  { pose proof (zlen_nonneg s). lia. }
  simpl. destruct s as [|c s].
  - rewrite zlen_nil, Z.add_0_r in *. case_decide as Hlt; [|done].
    destruct (Hstop Hlt) as (c & k & -> & Hc). apply at_off_cons in Hat as [-> _]. simpl.
    by rewrite decide_True.
  - rewrite zlen_cons in *. pose proof (zlen_nonneg s). rewrite decide_True by lia.
    apply at_off_cons in Hat as [-> Hat]. simpl.
    rewrite decide_False by (destruct (Hs c); [left|lia]).
    rewrite (IH (i + 1) s); [f_equal; lia|done|intros; apply Hs; by right|lia| |lia].
    intros. apply Hstop. lia.
Qed.

Lemma port_value_mono p ds : 0 ≤ p → Forall (λ d, 0 ≤ d ≤ 9) ds → p ≤ port_value p ds.
Proof.
  intros Hp Hds. revert p Hp. induction Hds as [|d ds Hd _ IH]; intros p Hp; [done|].
  unfold port_value in *. simpl. specialize (IH (p * 10 + d)). lia.
Qed.

Lemma uri_port_spec fuel m urisz i c ds p rest :
  at_off m i (c :: map (Z.add 48) ds ++ rest) → Forall (λ d, 0 ≤ d ≤ 9) ds →
  0 ≤ p → port_value p ds < 65536 →
  i + 1 + zlen ds ≤ urisz → (i + 1 + zlen ds < urisz → ∃ k, rest = 59 :: k) →
  urisz - i < Z.of_nat fuel →
  uri_port fuel m urisz i p = Ok (i + 1 + zlen ds, port_value p ds).
Proof.
  revert i c ds p. induction fuel as [|fuel IH]; intros i c ds p Hat Hds Hp Hv Hle Hstop Hf.
  { pose proof (zlen_nonneg ds). lia. }
  cbn [uri_port]. apply at_off_cons in Hat as [_ Hat]. destruct ds as [|d ds].
  - rewrite zlen_nil, Z.add_0_r in *. case_decide as Hend; [done|].
    destruct (Hstop ltac:(lia)) as (k & ->). apply at_off_cons in Hat as [-> _]. done.
  - rewrite zlen_cons in *. pose proof (zlen_nonneg ds). apply Forall_cons in Hds as [Hd Hds].
    rewrite decide_False by lia. pose proof Hat as Hat'.
    apply at_off_cons in Hat' as [-> _]. cbn [res_bind].
    assert (w32 (signed 8 (48 + d) - 48) = d) as ->.
    { unfold signed. rewrite (Z.mod_small (48 + d)) by lia. rewrite decide_True by (simpl; lia).
      rewrite w32_small; lia. }
    rewrite decide_False by lia. unfold port_value in Hv. cbn [foldl] in Hv. fold (port_value (p * 10 + d) ds) in Hv.
    pose proof (port_value_mono (p * 10 + d) ds ltac:(lia) Hds).
    assert (w32 (d + p * 10) = p * 10 + d) as -> by (rewrite w32_small; lia).
    rewrite decide_False by lia. unfold w16. rewrite Z.mod_small by lia.
    rewrite (IH (i + 1) (48 + d) ds (p * 10 + d)); [|done|done|lia|done|lia| |lia].
    + by replace (i + 1 + 1 + zlen ds) with (i + 1 + (1 + zlen ds)) by lia.
    + intros. apply Hstop. lia.
Qed.

Lemma is_valid_prefix s rest :
  valid_identity s = true → fd_os_is_valid_DiameterIdentity (s ++ rest) (zlen s) = Ok true.
Proof.
  intros Hv. unfold fd_os_is_valid_DiameterIdentity. unfold zlen at 1. rewrite Nat2Z.id.
  destruct (identity_scan_spec s rest 0) as (k & -> & _ & Hk & _). cbn [res_bind].
  apply Hk in Hv as ->. rewrite decide_False by (unfold zlen; lia). done.
Qed.

Lemma uri_transport_spec m i t rest :
  at_off m i (print_transport t ++ print_proto t ++ rest) → print_transport t ++ print_proto t ≠ [] →
  uri_transport m (i + zlen (print_transport t ++ print_proto t)) i =
  Ok (inr (i + zlen (print_transport t), from_option tp_value 0 (t_transport t))).
Proof.
  intros [Hi Hd] Hne. unfold uri_transport, print_transport, print_proto in *.
  destruct (t_transport t) as [tp|].
  - rewrite decide_True by (rewrite !zlen_app; destruct tp; pose proof (zlen_nonneg
      (match t_proto t with Some pr => str_protocol ++ pr_text pr | None => [] end)); unfold zlen in *; simpl; lia).
    rewrite Hd, <- !app_assoc, caseeq_at_self. cbn [res_bind].
    replace (Z.to_nat (i + 11)) with (Z.to_nat i + length str_transport)%nat by (simpl; lia).
    rewrite <- drop_drop, Hd, <- !app_assoc, drop_app_length.
    set (k := match t_proto t with Some pr => str_protocol ++ pr_text pr | None => [] end).
    rewrite decide_False by (rewrite !zlen_app; pose proof (zlen_nonneg k); destruct tp; unfold zlen; simpl; lia).
    destruct tp; cbn [tp_text].
    1: rewrite caseeq_at_self; cbn [res_bind]; do 3 f_equal; unfold zlen; simpl; lia.
    1: simpl; do 3 f_equal; unfold zlen; simpl; lia.
    rewrite !zlen_app. rewrite (decide_True (P := _ > 3)) by (pose proof (zlen_nonneg k); unfold zlen; simpl; lia).
    rewrite caseeq_at_self. simpl. do 3 f_equal; unfold zlen; simpl; lia.
  - destruct (t_proto t) as [pr|]; [|done]. simpl in Hd. rewrite Hd.
    assert (∀ k, caseeq_at (58 :: k) str_transport = Ok false) as Hx by done.
    rewrite decide_True by (destruct pr; unfold zlen; simpl; lia). simpl.
    do 3 f_equal. unfold zlen. simpl. lia.
Qed.

Lemma uri_protocol_spec m i t rest :
  at_off m i (print_proto t ++ rest) → print_proto t ≠ [] →
  uri_protocol m (i + zlen (print_proto t)) i =
  Ok (i + zlen (print_proto t), from_option pr_value 0 (t_proto t)).
Proof.
  intros [Hi Hd] Hne. unfold uri_protocol, print_proto in *.
  destruct (t_proto t) as [pr|]; [|done].
  rewrite decide_True by (destruct pr; unfold zlen; simpl; lia).
  rewrite Hd, <- !app_assoc, caseeq_at_self. cbn [res_bind].
  replace (Z.to_nat (i + 10)) with (Z.to_nat i + length str_protocol)%nat by (simpl; lia).
  rewrite <- drop_drop, Hd, <- !app_assoc, drop_app_length.
  destruct pr; cbn [pr_text from_option pr_value].
  - rewrite decide_True by (unfold zlen; simpl; lia). rewrite caseeq_at_self. cbn [res_bind].
    do 2 f_equal; unfold zlen; simpl; lia.
  - rewrite (decide_False (P := 8 ≤ _)) by (unfold zlen; simpl; lia). cbn [res_bind].
    rewrite decide_True by (unfold zlen; simpl; lia). rewrite caseeq_at_self. cbn [res_bind].
    do 2 f_equal; unfold zlen; simpl; lia.
  - rewrite (decide_False (P := 8 ≤ _)) by (unfold zlen; simpl; lia). cbn [res_bind].
    rewrite (decide_True (P := 6 ≤ _)) by (unfold zlen; simpl; lia).
    rewrite (decide_True (P := 7 ≤ _)) by (unfold zlen; simpl; lia). rewrite caseeq_at_self. simpl.
    do 2 f_equal; unfold zlen; simpl; lia.
Qed.

Section parse.
Context (idn2_to_ascii_8z : bytes → option bytes).

Lemma validate_prefix s rest :
  valid_identity s = true → s ≠ [] →
  fd_os_validate_DiameterIdentity idn2_to_ascii_8z (s ++ rest) (zlen s) true =
    Ok (s ++ [0], zlen s).
Proof.
  intros Hv Hs. unfold fd_os_validate_DiameterIdentity.
  assert (zlen s ≠ 0) by (destruct s; [done|rewrite zlen_cons; pose proof (zlen_nonneg s); lia]).
  rewrite bool_decide_true by done. cbn [res_bind]. rewrite is_valid_prefix by done. cbn [res_bind].
  unfold os0dup_int, zlen. by rewrite Nat2Z.id, take_app_length.
Qed.

(** What follows the FQDN and the port in a printed URI starts with ';'. *)
Lemma print_tail_start t k rest :
  print_transport t ++ print_proto t ++ rest = k → print_transport t ++ print_proto t ≠ [] →
  ∃ k', k = 59 :: k'.
Proof.
  unfold print_transport, print_proto. intros <-.
  destruct (t_transport t), (t_proto t); simpl; eauto. done.
Qed.

(** The end of the parser, from "Is there a transport?" on. *)
Lemma parse_tail_spec m i t rest id sec p :
  at_off m i (print_transport t ++ print_proto t ++ rest) → print_transport t ++ print_proto t ≠ [] →
  (let urisz := i + zlen (print_transport t ++ print_proto t) in
   let* tr := uri_transport m urisz i in
   match tr with
   | inl tp => Ok (DiameterURI id sec p tp 0)
   | inr (offset, tp) =>
       if decide (offset = urisz) then Ok (DiameterURI id sec p tp 0) else
       let* (offset, pr) := uri_protocol m urisz offset in
       if decide (offset = urisz) then Ok (DiameterURI id sec p tp pr) else Err EINVAL
   end) =
  Ok (DiameterURI id sec p (from_option tp_value 0 (t_transport t))
        (from_option pr_value 0 (t_proto t))).
Proof.
  intros Hat Hne. cbv zeta. rewrite (uri_transport_spec m i t rest) by done. cbn [res_bind].
  rewrite zlen_app, Z.add_assoc. apply at_off_app in Hat.
  destruct (decide (print_proto t = [])) as [E|Hp].
  - rewrite E, zlen_nil, Z.add_0_r, decide_True by done.
    assert (t_proto t = None) as -> by (unfold print_proto in E; by destruct (t_proto t)). done.
  - rewrite decide_False.
    + rewrite (uri_protocol_spec m _ t rest) by done. cbn [res_bind]. by rewrite decide_True.
    + intros E. destruct (print_proto t); [done|].
      match type of E with _ = _ + zlen (_ :: ?l) => rewrite zlen_cons in E; pose proof (zlen_nonneg l) end. lia.
Qed.

(** The start of a printed URI: the scheme, and the FQDN at offset [start]. *)
Lemma print_front_spec t rest :
  let m := print_uri t ++ rest in
  let k := print_port t ++ print_transport t ++ print_proto t in
  ∃ c, memeq_at m str_aaa = Ok true ∧ rdb m 3 = Ok c ∧ bool_decide (c = 115) = t_secure t ∧
    let o := if t_secure t then 4 else 3 in
    memeq_at (drop (Z.to_nat o) m) str_sep = Ok true ∧
    at_off m (o + 3) (t_fqdn t ++ k ++ rest) ∧
    zlen (print_uri t) = o + 3 + zlen (t_fqdn t) + zlen k.
Proof.
  cbv zeta. exists (if t_secure t then 115 else 58). unfold print_uri. rewrite !zlen_app.
  rewrite <- !app_assoc. destruct (t_secure t); repeat split; unfold zlen; simpl; lia.
Qed.

(** The port of a printed URI and what follows it. *)
Lemma parse_port_spec m i t rest :
  let k := print_transport t ++ print_proto t in
  at_off m i (print_port t ++ k ++ rest) → uri_wf t → print_port t ++ k ≠ [] →
  let urisz := i + zlen (print_port t ++ k) in
  ∃ c, rdb m i = Ok c ∧
    (if decide (c = 58) then uri_port (S (Z.to_nat (urisz - i))) m urisz i 0 else Ok (i, 0)) =
    Ok (i + zlen (print_port t), from_option (port_value 0) 0 (t_port t)).
Proof.
  intros k Hat (_ & _ & Hp & _) Hne urisz. unfold print_port in *.
  assert (k ≠ [] → ∃ k', k ++ rest = 59 :: k') as Hk.
  { intros ?. apply (print_tail_start t _ rest); [by unfold k; rewrite <- app_assoc|done]. }
  pose proof (zlen_nonneg k). assert (∀ ds, zlen (map (Z.add 48) ds) = zlen ds) as Hds.
  { intros ds. unfold zlen. by rewrite length_map. }
  destruct (t_port t) as [ds|]; cbn [from_option].
  - destruct Hp. exists 58. split; [exact (proj1 (at_off_cons _ _ _ _ Hat))|].
    pose proof (zlen_nonneg ds). unfold urisz. rewrite zlen_app, zlen_cons, Hds.
    rewrite decide_True, (uri_port_spec _ m _ i 58 ds 0 (k ++ rest)); try done; try lia.
    + do 2 f_equal. lia.
    + intros Hlt. apply Hk. intros ->. rewrite zlen_nil in Hlt. lia.
  - destruct (Hk Hne) as [k' E]. exists 59. cbn [app] in Hat. rewrite E in Hat.
    split; [exact (proj1 (at_off_cons _ _ _ _ Hat))|]. rewrite decide_False by done. do 2 f_equal. unfold zlen. simpl. lia.
Qed.

(** [fd_os_parse_DiameterURI] is a left inverse of printing: a well-formed
    URI of at least 8 characters is parsed into its parts, whatever follows it
    in memory. *)
Theorem fd_os_parse_print t rest :
  uri_wf t →
  fd_os_parse_DiameterURI idn2_to_ascii_8z (print_uri t ++ rest) (zlen (print_uri t)) =
  Ok (uri_meaning t).
Proof.
  intros Hwf. pose proof Hwf as (Hne & Hv & _ & Hlen). unfold fd_os_parse_DiameterURI, uri_meaning.
  rewrite bool_decide_true by lia.
  destruct (print_front_spec t rest) as (c & -> & -> & Hc & Hsep & Hat & Hsz).
  cbn [res_bind negb]. rewrite Hc, Hsep. cbn [res_bind negb]. clear c Hc Hsep Hlen.
  set (m := print_uri t ++ rest) in *. set (start := (if t_secure t then 4 else 3) + 3) in *.
  set (k := print_transport t ++ print_proto t) in *. rewrite Hsz.
  pose proof (zlen_nonneg (print_port t ++ k)). pose proof (zlen_nonneg (t_fqdn t)).
  rewrite (fqdn_end_spec _ m _ start (t_fqdn t) ((print_port t ++ k) ++ rest));
    [|done|by intros; eapply valid_identity_stop|lia| |lia].
  2: { intros Hlt. assert (print_port t ++ k ≠ []) by (intros E; rewrite E, zlen_nil in Hlt; lia).
       unfold print_port in *. destruct (t_port t); [simpl; eauto|]. rewrite app_nil_l in *.
       destruct (print_tail_start t (k ++ rest) rest) as [k' ->]; [by unfold k; rewrite <- app_assoc|done|eauto]. }
  cbn [res_bind]. replace (start + zlen (t_fqdn t) - start) with (zlen (t_fqdn t)) by lia.
  rewrite (at_off_drop _ _ _ Hat), validate_prefix by done. cbn [res_bind].
  assert (take (Z.to_nat (zlen (t_fqdn t))) (t_fqdn t ++ [0]) = t_fqdn t) as ->
    by (unfold zlen; by rewrite Nat2Z.id, take_app_length).
  apply at_off_app in Hat. rewrite <- app_assoc in Hat. set (i := start + zlen (t_fqdn t)) in *.
  destruct (decide (print_port t ++ k = [])) as [E|E].
  - rewrite decide_True by (rewrite E, zlen_nil; lia). apply app_nil in E as [E1 [E2 E3]%app_nil].
    unfold print_port, print_transport, print_proto in E1, E2, E3.
    by destruct (t_port t), (t_transport t), (t_proto t).
  - rewrite decide_False by (destruct (print_port t ++ k) as [|x y]; [done|]; rewrite zlen_cons; pose proof (zlen_nonneg y); lia).
    destruct (parse_port_spec m i t rest Hat Hwf E) as (c & -> & Hport). cbn [res_bind].
    fold k in Hport. rewrite Hport. cbn [res_bind]. clear Hport. apply at_off_app in Hat.
    fold (from_option (port_value 0) 0 (t_port t)). rewrite zlen_app.
    destruct (decide (k = [])) as [Ek|Ek].
    + rewrite decide_True by (rewrite Ek, zlen_nil; lia). apply app_nil in Ek as [E2 E3].
      unfold print_transport, print_proto in E2, E3. by destruct (t_transport t), (t_proto t).
    + rewrite decide_False by (destruct k as [|x y]; [done|]; rewrite zlen_cons; pose proof (zlen_nonneg y); lia).
      rewrite Z.add_assoc. unfold k in Hat. rewrite <- app_assoc in Hat.
      by rewrite (parse_tail_spec m _ t rest _ _ _ Hat Ek).
Qed.

End parse.

Lemma fd_os_parse_print_witness :
  fd_os_parse_DiameterURI (λ _, None)
    (print_uri (UriText true [97; 46; 98] (Some [3; 8; 6; 8]) (Some TP_sctp) (Some PR_radius)) ++ [])
    (zlen (print_uri (UriText true [97; 46; 98] (Some [3; 8; 6; 8]) (Some TP_sctp) (Some PR_radius)))) =
  Ok (DiameterURI [97; 46; 98] true 3868 132 114).
Proof.
  apply (fd_os_parse_print (λ _, None)
    (UriText true [97; 46; 98] (Some [3; 8; 6; 8]) (Some TP_sctp) (Some PR_radius)) []).
  unfold uri_wf. split; [done|]. split; [done|]. split; [|by_compute].
  simpl. split; [repeat constructor; lia|done].
Defined.
