(* ===== verification/CString.v ===== *)
(** * Strings of C

    The comparisons of the C library on terminated strings, and the order that
    they follow.  A string is its bytes in front of the terminator. *)

From Stdlib Require Import ZArith Lia String.
From stdpp Require Import base list.
From S2P Require Import Prelude Ostr.

(** [strcmp] *)
Fixpoint strcmp (a b : bytes) : Z :=
  match a, b with
  | [], [] => 0
  | [], _ :: _ => -1
  | _ :: _, [] => 1
  | x :: a, y :: b => if decide (x = y) then strcmp a b else x - y
  end.

(** [strncasecmp], with the terminator of a string at its end. *)
Fixpoint strncasecmp (n : nat) (a b : bytes) : Z :=
  match n with
  | 0%nat => 0
  | S n =>
      match a, b with
      | [], [] => 0
      | [], y :: _ => - asciitolower y
      | x :: _, [] => asciitolower x
      | x :: a, y :: b => if decide (asciitolower x = asciitolower y) then strncasecmp n a b else asciitolower x - asciitolower y
      end
  end.

(** ** The order *)

Definition lower (s : bytes) : bytes := asciitolower <$> s.

#[export] Instance strcmp_order : CmpOrder strcmp.
Proof.
  split.
  - induction x as [|x a IH]; cbn; [done|]. by rewrite decide_True.
  - induction x as [|x a IH]; intros [|y b]; cbn; [lia..|].
    destruct (decide (x = y)), (decide (y = x)); subst; first [apply IH|lia|done].
  - induction x as [|x a IH]; intros [|y b] [|z c]; cbn; try lia. repeat case_decide; subst; first [apply IH|lia|done].
Qed.

Lemma strcmp_eq a b : strcmp a b = 0 ↔ a = b.
Proof.
  split; [|intros ->; apply cmp_refl]. revert b. induction a as [|x a IH]; intros [|y b]; cbn; try done.
  case_decide as He; [|lia]. subst. intros H. f_equal. by apply IH.
Qed.

(** A string that is smaller than another one is smaller than all that follow. *)
Lemma strncasecmp_mono n a b b' :
  Forall (λ x, 0 <= x) a → Forall (λ x, 0 < x) b' → lower b = b → lower b' = b' → strcmp b b' < 0 →
  strncasecmp n a b < 0 → strncasecmp n a b' < 0.
Proof.
  revert a b b'. induction n as [|n IH]; intros a b b' Ha Hb' Lb Lb'; cbn [strncasecmp]; [done|].
  assert (∀ x, 0 <= x → 0 <= asciitolower x) as Hpos by (intros x; unfold asciitolower; case_decide; lia).
  destruct b' as [|y' b']; [destruct b; cbn; lia|]. apply Forall_cons in Hb' as [Hy' Hb']. injection Lb' as Ly' Lb'.
  destruct a as [|x a]; [rewrite Ly'; lia|]. apply Forall_cons in Ha as [Hx Ha]. destruct b as [|y b]; [specialize (Hpos x Hx); lia|].
  injection Lb as Ly Lb. rewrite Ly, Ly'. cbn [strcmp]. fold (lower b) in Lb. fold (lower b') in Lb'.
  destruct (decide (y = y')) as [->|Hy].
  - case_decide; [|done]. by apply IH.
  - intros ?. case_decide.
    + intros _. rewrite decide_False by lia. lia.
    + intros ?. rewrite decide_False by lia. lia.
Qed.
