(* ===== verification/RtData.v ===== *)
(** * Routing data of a message ([libfdproto/rt_data.c])

    The candidates for the next hop of a message, the errors received for it,
    and the operations the routing-out callbacks perform on them.  The chained
    lists are Rocq lists ([Lists.v] shows that the pointer operations implement
    them); an identity is the list of its bytes.  Where a function is given a
    pointer and a size, the model is given the memory at the pointer. *)

From stdpp Require Import base list gmap sorting.
From Stdlib Require Import ZArith Lia.
From S2P Require Import Prelude Ostr.

Record rtd_candidate := RtdCandidate {
  c_diamid : bytes; c_realm : option bytes; c_score : Z }.

Record rtd_error := RtdError {
  e_nexthop : bytes; e_erh : option bytes; e_code : Z }.

Record rt_data := RtData {
  extracted : Z; candidates : list rtd_candidate; errors : list rtd_error }.

#[export] Instance rtd_candidate_eq_dec : EqDecision rtd_candidate.
Proof. solve_decision. Defined.
#[export] Instance rtd_error_eq_dec : EqDecision rtd_error.
Proof. solve_decision. Defined.
#[export] Instance rt_data_eq_dec : EqDecision rt_data.
Proof. solve_decision. Defined.

Definition fd_rtd_init : rt_data := RtData 0 [] [].

(** The search from the end: [inl (a, b)] when the new entry goes between [a]
    and [b], [inr tt] when the peer is in the list already.  [rl] is what
    remains in front of [prev], reversed; [b] what has been passed. *)
Fixpoint candidate_pos (peerid : bytes) (rl b : list rtd_candidate)
    : (list rtd_candidate * list rtd_candidate) + unit :=
  match rl with
  | [] => inl ([], b)
  | cp :: rl' =>
      let cmp := fd_os_cmp_int peerid (c_diamid cp) in
      if decide (cmp > 0) then inl (rev rl, b)
      else if decide (cmp = 0) then inr tt
      else candidate_pos peerid rl' (cp :: b)
  end.

Definition fd_rtd_candidate_add (rtd : rt_data) (peerid : bytes) (realm : option bytes)
    : res rt_data :=
  check bool_decide (peerid ≠ []) in
  match candidate_pos peerid (rev (candidates rtd)) [] with
  | inl (a, b) =>
      Ok (RtData (extracted rtd) (a ++ RtdCandidate peerid realm 0 :: b) (errors rtd))
  | inr _ => Ok rtd
  end.

(** The loop of [fd_rtd_candidate_del]. *)
Fixpoint candidate_del_loop (extr : Z) (id : bytes) (l : list rtd_candidate)
    : list rtd_candidate :=
  match l with
  | [] => []
  | c :: l' =>
      let '(cmp, cont) := fd_os_almostcasesrch_int id (c_diamid c) in
      if decide (cmp = 0) then l'
      else if cont then c :: candidate_del_loop extr id l'
      else if decide (extr = 0) then l
      else c :: candidate_del_loop extr id l'
  end.

Definition fd_rtd_candidate_del (rtd : rt_data) (id : bytes) (idsz : Z) : res rt_data :=
  if decide (idsz = 0) then Ok rtd else
  let* valid := fd_os_is_valid_DiameterIdentity id idsz in
  if valid : bool then
    Ok (RtData (extracted rtd)
          (candidate_del_loop (extracted rtd) (take (Z.to_nat idsz) id) (candidates rtd))
          (errors rtd))
  else Ok rtd.

(** The search in the list of errors: the errors before and after the position
    found, and [match]. *)
Fixpoint error_pos (sentto : bytes) (l : list rtd_error)
    : list rtd_error * list rtd_error * bool :=
  match l with
  | [] => ([], [], false)
  | e :: l' =>
      let cmp := fd_os_cmp_int sentto (e_nexthop e) in
      if decide (cmp > 0) then
        let '(a, b, m) := error_pos sentto l' in (e :: a, b, m)
      else ([], l, bool_decide (cmp = 0))
  end.

(** What [fd_rtd_error_add] makes of its argument [origin]: the pointer and the
    size in use after the new error has been filled in. *)
Definition error_origin (origin : option bytes) (originsz : Z) : res (option bytes * Z) :=
  match origin with
  | None => Ok (None, originsz)
  | Some o =>
      if decide (originsz = 0) then let* s := cstr o in Ok (Some o, zlen s)
      else let* valid := fd_os_is_valid_DiameterIdentity o originsz in
           Ok (if valid : bool then Some o else None, originsz)
  end.

(** [sentto] is the memory at the pointer and [senttolen] the size; the second
    result is the value for [*sendingattempts]. *)
Definition fd_rtd_error_add (rtd : rt_data) (sentto : bytes) (senttolen : Z)
    (origin : option bytes) (originsz rcode : Z) : res (rt_data * Z) :=
  check bool_decide (senttolen ≠ 0) in
  let hop := take (Z.to_nat senttolen) sentto in
  let '(a, b, m) := error_pos hop (errors rtd) in
  let* (rtd, origin, originsz) :=
    if m : bool then Ok (rtd, origin, originsz) else
    let* (origin, originsz) := error_origin origin originsz in
    let e := RtdError hop (take (Z.to_nat originsz) <$> origin) rcode in
    Ok (RtData (extracted rtd) (candidates rtd) (a ++ e :: b), origin, originsz) in
  let* rtd := fd_rtd_candidate_del rtd sentto senttolen in
  let* rtd := match origin with
              | Some o => fd_rtd_candidate_del rtd o originsz
              | None => Ok rtd
              end in
  Ok (rtd, extracted rtd).

Definition fd_rtd_get_nb_attempts (rtd : rt_data) : Z := extracted rtd.

Definition set_score (s : Z) (c : rtd_candidate) : rtd_candidate :=
  RtdCandidate (c_diamid c) (c_realm c) s.

(** The candidates list handed out is the one of the structure: the callbacks
    work on it in place. *)
Definition fd_rtd_candidate_extract (rtd : rt_data) (ini_score : Z) : rt_data :=
  RtData (signed 32 (extracted rtd + 1)) (set_score ini_score <$> candidates rtd) (errors rtd).

(** "Insert at normal place in the list". *)
Fixpoint insert_by_score (c : rtd_candidate) (l : list rtd_candidate) : list rtd_candidate :=
  match l with
  | [] => [c]
  | cnext :: l' => if decide (c_score c ≤ c_score cnext) then c :: l
                   else cnext :: insert_by_score c l'
  end.

(** The [while] loop of [fd_rtd_candidate_reorder]; [rand n] is the low bit of
    the [n]-th call of [rand()]. *)
Fixpoint reorder_loop (rand : nat → bool) (n : nat) (hs : Z)
    (unordered cands highest : list rtd_candidate) : list rtd_candidate * list rtd_candidate :=
  match unordered with
  | [] => (cands, highest)
  | c :: unordered =>
      let '(cands, highest, hs) :=
        if decide (c_score c > hs) then (cands ++ highest, [], c_score c)
        else (cands, highest, hs) in
      if decide (c_score c = hs) then
        let highest := if rand n then c :: highest else highest ++ [c] in
        reorder_loop rand (S n) hs unordered cands highest
      else reorder_loop rand n hs unordered (insert_by_score c cands) highest
  end.

Definition fd_rtd_candidate_reorder (rand : nat → bool) (cands : list rtd_candidate)
    : list rtd_candidate :=
  let '(cands, highest) := reorder_loop rand 0 (-1) cands [] [] in cands ++ highest.

(** ** Candidates *)

#[export] Instance case_equal_dec x y : Decision (case_equal x y).
Proof. unfold case_equal. apply _. Defined.

Abbreviation Ids l := (c_diamid <$> l).

(** The well-formedness of the structure, as its comment has it. *)
Definition rtd_wf (rtd : rt_data) : Prop :=
  0 ≤ extracted rtd ∧
  (extracted rtd = 0 → Increasing fd_os_cmp_int (Ids (candidates rtd))) ∧
  Increasing fd_os_cmp_int (e_nexthop <$> errors rtd).

Lemma Increasing_app {A} (cmp : A → A → Z) l k :
  Increasing cmp (l ++ k) ↔
  Increasing cmp l ∧ Increasing cmp k ∧ Forall (λ x, Forall (λ y, cmp x y < 0) k) l.
Proof.
  unfold Increasing. induction l as [|x l IH]; simpl.
  - split; [intros; split_and!; try done; constructor|naive_solver].
  - split.
    + intros [Hs [H1 H2]%Forall_app]%StronglySorted_inv. apply IH in Hs as (? & ? & ?).
      split_and!; [by constructor|done|by constructor].
    + intros ([H1 H2]%StronglySorted_inv & H3 & [H4 H5]%Forall_cons).
      constructor; [by apply IH|by apply Forall_app].
Qed.

Lemma candidate_pos_spec x rl b :
  Increasing fd_os_cmp_int (Ids (rev rl ++ b)) → Forall (λ y, fd_os_cmp_int x y < 0) (Ids b) →
  match candidate_pos x rl b with
  | inl (a', b') => a' ++ b' = rev rl ++ b ∧ Forall (λ y, fd_os_cmp_int y x < 0) (Ids a') ∧
                    Forall (λ y, fd_os_cmp_int x y < 0) (Ids b')
  | inr _ => x ∈ Ids (rev rl ++ b)
  end.
Proof.
  revert b. induction rl as [|cp rl IH]; intros b Hs Hb; cbn [candidate_pos]; [done|].
  cbn [rev] in *. case_decide as Hgt.
  - split; [done|]. split; [|done]. rewrite !fmap_app in *. apply Forall_app.
    apply Increasing_app in Hs as (Hs & _). apply Increasing_app in Hs as (_ & _ & Hs).
    assert (fd_os_cmp_int (c_diamid cp) x < 0) by (apply cmp_gt_lt; [apply _|lia]).
    split; [|by constructor]. eapply Forall_impl; [exact Hs|]. simpl.
    intros y [Hy _]%Forall_cons. by eapply cmp_lt_trans; [apply _|..].
  - case_decide as Hz.
    + apply fd_os_cmp_zero in Hz as ->. rewrite !fmap_app. apply elem_of_app. left.
      apply elem_of_app. right. by left.
    + rewrite <- app_assoc in *. apply IH; [done|]. simpl. constructor; [lia|done].
Qed.

Lemma fd_rtd_candidate_add_ok rtd x r :
  rtd_wf rtd → extracted rtd = 0 → x ≠ [] →
  (∃ a b, candidates rtd = a ++ b ∧ x ∉ Ids (candidates rtd) ∧
     fd_rtd_candidate_add rtd x r =
       Ok (RtData 0 (a ++ RtdCandidate x r 0 :: b) (errors rtd)) ∧
     Increasing fd_os_cmp_int (Ids (a ++ RtdCandidate x r 0 :: b))) ∨
  (x ∈ Ids (candidates rtd) ∧ fd_rtd_candidate_add rtd x r = Ok rtd).
Proof.
  intros (_ & Hs & _) E0 Hx. specialize (Hs E0). unfold fd_rtd_candidate_add.
  rewrite bool_decide_true by done.
  pose proof (candidate_pos_spec x (rev (candidates rtd)) []) as H.
  rewrite rev_involutive, app_nil_r in H. specialize (H Hs ltac:(constructor)).
  destruct (candidate_pos _ _ _) as [[a b]|]; [left|right; done].
  destruct H as (E & Ha & Hb). exists a, b. rewrite E0, <- E in *. split; [done|].
  rewrite !fmap_app in *. split; [|split; [done|]].
  - rewrite Forall_forall in Ha, Hb. intros [Hin|Hin]%elem_of_app.
    + apply Ha in Hin. rewrite cmp_refl in Hin. lia.
    + apply Hb in Hin. rewrite cmp_refl in Hin. lia.
  - by apply StronglySorted_mid.
Qed.

(** [remove_first P l] drops the first element that satisfies [P]. *)
Fixpoint remove_first {A} (P : A → Prop) `{∀ x, Decision (P x)} (l : list A) : list A :=
  match l with
  | [] => []
  | x :: l => if decide (P x) then l else x :: remove_first P l
  end.

Lemma remove_first_none {A} (P : A → Prop) `{∀ x, Decision (P x)} l :
  Forall (λ x, ¬ P x) l → remove_first P l = l.
Proof. induction 1; simpl; [done|]. by rewrite decide_False, IHForall. Qed.

Lemma remove_first_sub {A} (P : A → Prop) `{∀ x, Decision (P x)} l :
  sublist (remove_first P l) l.
Proof.
  induction l as [|x l IH]; simpl; [constructor|]. case_decide; by constructor.
Qed.

Lemma Increasing_sublist {A} (cmp : A → A → Z) l k :
  sublist l k → Increasing cmp k → Increasing cmp l.
Proof.
  induction 1 as [|x l k Hs IH|x l k Hs IH]; [done|..]; intros [H1 H2]%StronglySorted_inv.
  - constructor; [by apply IH|]. rewrite Forall_forall in *. intros y Hy. apply H2.
    by eapply sublist_subseteq.
  - by apply IH.
Qed.

Definition is_candidate (id : bytes) (c : rtd_candidate) : Prop := case_equal id (c_diamid c).
#[export] Instance is_candidate_dec id c : Decision (is_candidate id c).
Proof. unfold is_candidate. apply _. Defined.

(** The early exit of the loop loses nothing. *)
Lemma candidate_del_loop_spec extr id l :
  (extr = 0 → Increasing fd_os_cmp_int (Ids l)) →
  candidate_del_loop extr id l = remove_first (is_candidate id) l.
Proof.
  induction l as [|c l IH]; intros Hs; [done|]. cbn [candidate_del_loop remove_first].
  destruct (almost_spec id (c_diamid c)) as [Hz _].
  pose proof (almost_stop id (c_diamid c) (Ids l)) as Hstop.
  destruct (fd_os_almostcasesrch_int id (c_diamid c)) as [cmp cont]. simpl in *.
  destruct (decide (cmp = 0)) as [Ec|Ec].
  { rewrite decide_True; [done|]. by apply Hz. }
  rewrite (decide_False (P:=is_candidate _ _)) by (unfold is_candidate; rewrite <- Hz; done).
  assert (extr = 0 → Increasing fd_os_cmp_int (Ids l)) as Hs'.
  { intros E. by destruct (StronglySorted_inv (Hs E)). }
  destruct cont; [by rewrite IH|]. case_decide as Hx; [|by rewrite IH].
  rewrite remove_first_none; [done|]. apply Forall_forall. intros c' Hc'. unfold is_candidate.
  apply (Hstop (Hs Hx) eq_refl). right. by apply list_elem_of_fmap_2.
Qed.

Definition drop_candidate (id : bytes) (rtd : rt_data) : rt_data :=
  RtData (extracted rtd) (remove_first (is_candidate id) (candidates rtd)) (errors rtd).

Lemma valid_identity_case x y : case_equal x y → valid_identity x = valid_identity y.
Proof.
  revert y. induction x as [|a x IH]; intros [|b y]; unfold case_equal in *; simpl; try done.
  intros [= Hab E]. rewrite (IH y E). f_equal. revert Hab. unfold asciitolower, identity_char.
  repeat case_decide; intros; try done; repeat case_bool_decide; try done; lia.
Qed.

Definition ids_valid (rtd : rt_data) : Prop :=
  Forall (λ c, valid_identity (c_diamid c) = true) (candidates rtd).

Lemma candidate_del_run rtd s rest :
  rtd_wf rtd → ids_valid rtd → s ≠ [] →
  fd_rtd_candidate_del rtd (s ++ 0 :: rest) (zlen s) = Ok (drop_candidate s rtd).
Proof.
  intros (_ & Hs & _) Hv Hne. unfold fd_rtd_candidate_del.
  rewrite decide_False by (destruct s; [done|rewrite zlen_cons; pose proof (zlen_nonneg s); lia]).
  rewrite is_valid_terminated. cbn [res_bind]. unfold drop_candidate.
  destruct (valid_identity s) eqn:E.
  - unfold zlen. rewrite Nat2Z.id, take_app_length. by rewrite candidate_del_loop_spec.
  - rewrite remove_first_none; [by destruct rtd|]. unfold ids_valid in Hv.
    eapply Forall_impl; [exact Hv|]. simpl. intros c Hc Hcase.
    apply valid_identity_case in Hcase. congruence.
Qed.

Lemma drop_candidate_wf s rtd : rtd_wf rtd → rtd_wf (drop_candidate s rtd).
Proof.
  intros (? & Hs & ?). split; [done|]. split; [|done]. simpl. intros E.
  eapply Increasing_sublist; [|by apply Hs]. apply fmap_sublist, remove_first_sub.
Qed.

Lemma drop_candidate_valid s rtd : ids_valid rtd → ids_valid (drop_candidate s rtd).
Proof.
  unfold ids_valid. simpl. rewrite !Forall_forall. intros Hv c Hc. apply Hv.
  eapply sublist_subseteq; [apply (remove_first_sub (is_candidate s))|done].
Qed.

(** ** Errors *)

Lemma error_pos_spec x l a b m :
  Increasing fd_os_cmp_int (e_nexthop <$> l) → error_pos x l = (a, b, m) →
  l = a ++ b ∧ (m = true ↔ x ∈ e_nexthop <$> l) ∧
  (m = false → ∀ r c, Increasing fd_os_cmp_int (e_nexthop <$> a ++ RtdError x r c :: b)).
Proof.
  revert a. induction l as [|e l IH]; intros a Hs; cbn [error_pos].
  - intros [= <- <- <-]. split; [done|]. split; [split; [done|by intros ?%elem_of_nil]|].
    intros _ r c. repeat constructor.
  - destruct (decide (_ > 0)) as [Hgt|Hgt].
    + destruct (error_pos x l) as [[a' b'] m'] eqn:E. intros [= <- <- <-]. rewrite fmap_cons in Hs.
      apply StronglySorted_inv in Hs as [Hs He].
      destruct (IH a' Hs eq_refl) as (-> & Hm & Hi). split; [done|]. rewrite fmap_cons. split.
      * rewrite Hm. split; [by right|]. intros [->|?]%elem_of_cons; [|done].
        rewrite cmp_refl in Hgt. lia.
      * intros Hf r c. specialize (Hi Hf r c). cbn [app]. rewrite fmap_cons. constructor; [done|].
        assert (fd_os_cmp_int (e_nexthop e) x < 0) by (apply cmp_gt_lt; [apply _|lia]).
        rewrite fmap_app in *. apply Forall_app in He as [? ?]. apply Forall_app. split; [done|]. by constructor.
    + intros [= <- <- <-]. split; [done|]. rewrite bool_decide_eq_true, bool_decide_eq_false.
      rewrite fmap_cons. split.
      * rewrite fd_os_cmp_zero. split; [intros ->; by left|]. intros [->|Hin]%elem_of_cons; [done|].
        apply StronglySorted_inv in Hs as [_ Hs]. rewrite Forall_forall in Hs. apply Hs in Hin.
        apply cmp_lt_gt in Hin; [lia|apply _].
      * intros Hz r c. simpl in *. constructor; [done|]. constructor; [lia|].
        apply StronglySorted_inv in Hs as [_ Hs]. eapply Forall_impl; [exact Hs|]. simpl.
        intros y Hy. eapply cmp_lt_trans; [apply _|..|exact Hy]. lia.
Qed.

Lemma hop_take (s rest : bytes) : take (Z.to_nat (zlen s)) (s ++ 0 :: rest) = s.
Proof. unfold zlen. by rewrite Nat2Z.id, take_app_length. Qed.

Lemma zlen_ne_nil (s : bytes) : s ≠ [] → zlen s ≠ 0.
Proof. destruct s; [done|]. rewrite zlen_cons. pose proof (zlen_nonneg s). lia. Qed.

(** The list of errors after [fd_rtd_error_add]. *)
Definition with_error (s : bytes) (erh : option bytes) (rcode : Z) (rtd : rt_data) : rt_data :=
  let '(a, b, m) := error_pos s (errors rtd) in
  if m : bool then rtd else RtData (extracted rtd) (candidates rtd) (a ++ RtdError s erh rcode :: b).

Lemma with_error_wf s erh rcode rtd :
  rtd_wf rtd → rtd_wf (with_error s erh rcode rtd) ∧ s ∈ e_nexthop <$> errors (with_error s erh rcode rtd).
Proof.
  intros Hwf. pose proof Hwf as (? & ? & He). unfold with_error.
  destruct (error_pos s (errors rtd)) as [[a b] m] eqn:E.
  destruct (error_pos_spec _ _ _ _ _ He E) as (Hab & Hm & Hi). destruct m.
  - split; [done|]. by apply Hm.
  - split; [split; [done|split; [done|by apply Hi]]|]. simpl. rewrite fmap_app.
    apply elem_of_app. right. by left.
Qed.

(** The error of an answer received from the peer [s] whose Origin-Host is [o]. *)
Lemma error_add_run rtd s r o r' rcode :
  rtd_wf rtd → ids_valid rtd → s ≠ [] → o ≠ [] →
  fd_rtd_error_add rtd (s ++ 0 :: r) (zlen s) (Some (o ++ 0 :: r')) (zlen o) rcode =
  Ok (drop_candidate o (drop_candidate s
        (with_error s (if valid_identity o then Some o else None) rcode rtd)), extracted rtd).
Proof.
  intros Hwf Hv Hs Ho. unfold fd_rtd_error_add. rewrite bool_decide_true by (by apply zlen_ne_nil).
  rewrite hop_take. pose proof (proj1 (with_error_wf s (if valid_identity o then Some o else None) rcode rtd Hwf)) as Hw.
  unfold with_error in *. destruct (error_pos s (errors rtd)) as [[a b] m].
  assert (∀ rtd', rtd_wf rtd' → ids_valid rtd' → valid_identity o = false →
    drop_candidate o (drop_candidate s rtd') = drop_candidate s rtd') as Hnov.
  { intros rtd' Hw' Hv' E. assert (ids_valid (drop_candidate s rtd')) as Hv'' by by apply drop_candidate_valid.
    unfold drop_candidate at 1. rewrite remove_first_none; [by destruct rtd'|].
    eapply Forall_impl; [exact Hv''|]. simpl. intros c Hc Hcase%valid_identity_case. congruence. }
  destruct m; cbn [res_bind].
  - rewrite candidate_del_run by done. cbn [res_bind].
    by rewrite candidate_del_run by (done || by apply drop_candidate_wf || by apply drop_candidate_valid).
  - unfold error_origin. rewrite decide_False by (by apply zlen_ne_nil).
    rewrite is_valid_terminated. cbn [res_bind]. destruct (valid_identity o) eqn:E; cbn [option_fmap option_map].
    + simpl (_ <$> _). rewrite hop_take, candidate_del_run by done. cbn [res_bind].
      by rewrite candidate_del_run by (done || by apply drop_candidate_wf || by apply drop_candidate_valid).
    + simpl (_ <$> _). rewrite candidate_del_run by done. cbn [res_bind]. by rewrite Hnov.
Qed.

(** ** Reordering *)

Definition Scored : list rtd_candidate → Prop := StronglySorted (λ a b, c_score a ≤ c_score b).

Lemma insert_by_score_perm c l : insert_by_score c l ≡ₚ c :: l.
Proof.
  induction l as [|c' l IH]; simpl; [done|]. case_decide; [done|]. rewrite IH. apply perm_swap.
Qed.

Lemma insert_by_score_sorted c l : Scored l → Scored (insert_by_score c l).
Proof.
  unfold Scored. induction 1 as [|c' l Hs IH Hc']; simpl; [repeat constructor|].
  case_decide as Hle.
  - constructor; [by constructor|]. constructor; [done|]. eapply Forall_impl; [exact Hc'|]. simpl. lia.
  - constructor; [done|]. rewrite insert_by_score_perm. constructor; [lia|done].
Qed.

Lemma Scored_app l k hs :
  Scored l → Forall (λ c, c_score c ≤ hs) l → Forall (λ c, c_score c = hs) k → Scored (l ++ k).
Proof.
  unfold Scored. intros Hl Hle Hk. induction Hl as [|c l Hl IH Hc]; simpl.
  - induction Hk as [|c k Hc Hk IH]; [constructor|]. constructor; [done|].
    eapply Forall_impl; [exact Hk|]. simpl. lia.
  - apply Forall_cons in Hle as [? Hle]. constructor; [by apply IH|]. apply Forall_app. split; [done|].
    eapply Forall_impl; [exact Hk|]. simpl. lia.
Qed.

(** The invariant of the loop: [cands] is sorted and bounded by the high score
    [hs], which every member of [highest] has. *)
Lemma reorder_loop_spec rand n hs un cands highest cands' highest' :
  Scored cands → Forall (λ c, c_score c ≤ hs) cands → Forall (λ c, c_score c = hs) highest →
  reorder_loop rand n hs un cands highest = (cands', highest') →
  Scored (cands' ++ highest') ∧ cands' ++ highest' ≡ₚ un ++ cands ++ highest.
Proof.
  revert n hs cands highest. induction un as [|c un IH]; intros n hs cands highest Hs Hle Hh; cbn [reorder_loop].
  - intros [= <- <-]. split; [by eapply Scored_app|done].
  - destruct (decide (c_score c > hs)) as [Hgt|Hgt].
    + rewrite decide_True by done. intros E. apply IH in E as [? Hp]; clear IH.
      * split; [done|]. rewrite Hp. simpl. rewrite <- !app_assoc. destruct (rand n); simpl; solve_Permutation.
      * by eapply Scored_app.
      * apply Forall_app. split; [eapply Forall_impl; [exact Hle|]|eapply Forall_impl; [exact Hh|]]; simpl; lia.
      * destruct (rand n); repeat constructor.
    + case_decide as Heq; intros E; apply IH in E as [? Hp]; clear IH; try done.
      * split; [done|]. rewrite Hp. destruct (rand n); simpl; solve_Permutation.
      * destruct (rand n); [by constructor|]. apply Forall_app. split; [done|by constructor].
      * split; [done|]. rewrite Hp, insert_by_score_perm. simpl. solve_Permutation.
      * by apply insert_by_score_sorted.
      * rewrite insert_by_score_perm. constructor; [lia|done].
Qed.

(** ** The properties *)

(** A step of the life of the routing data.  The list of candidates is only
    handed out by [fd_rtd_candidate_extract], so it is reordered after that; the
    counter [extracted] does not overflow. *)
Inductive rtd_step (rtd : rt_data) : rt_data → Prop :=
  | step_add id realm rtd' : fd_rtd_candidate_add rtd id realm = Ok rtd' → rtd_step rtd rtd'
  | step_del id idsz rtd' : fd_rtd_candidate_del rtd id idsz = Ok rtd' → rtd_step rtd rtd'
  | step_error sentto sz origin osz rcode rtd' n :
      fd_rtd_error_add rtd sentto sz origin osz rcode = Ok (rtd', n) → rtd_step rtd rtd'
  | step_extract ini :
      extracted rtd < 2 ^ 31 - 1 → rtd_step rtd (fd_rtd_candidate_extract rtd ini)
  | step_reorder rand :
      extracted rtd ≠ 0 →
      rtd_step rtd (RtData (extracted rtd) (fd_rtd_candidate_reorder rand (candidates rtd)) (errors rtd)).

Lemma candidate_add_wf rtd id r rtd' :
  rtd_wf rtd → fd_rtd_candidate_add rtd id r = Ok rtd' → rtd_wf rtd'.
Proof.
  intros Hwf H. assert (id ≠ []) as Hid.
  { unfold fd_rtd_candidate_add in H. by case_bool_decide. }
  destruct (decide (extracted rtd = 0)) as [E|E].
  - destruct (fd_rtd_candidate_add_ok rtd id r Hwf E Hid) as [(a & b & _ & _ & E' & Hi)|[_ E']].
    + rewrite E' in H. injection H as <-. destruct Hwf as (_ & _ & He).
      split; [done|]. split; [by intros _|done].
    + rewrite E' in H. by injection H as <-.
  - destruct Hwf as (? & _ & ?). unfold fd_rtd_candidate_add in H. rewrite bool_decide_true in H by done.
    destruct (candidate_pos _ _ _) as [[a b]|]; injection H as <-; (split; [done|]; split; [done|done]).
Qed.

Lemma candidate_del_wf rtd id idsz rtd' :
  rtd_wf rtd → fd_rtd_candidate_del rtd id idsz = Ok rtd' → rtd_wf rtd'.
Proof.
  unfold fd_rtd_candidate_del. intros Hwf. case_decide; [by intros [= <-]|].
  intros (v & _ & E)%res_bind_ok. destruct v; injection E as <-; [|done].
  pose proof Hwf as (_ & Hs & _). rewrite candidate_del_loop_spec by done.
  apply (drop_candidate_wf (take (Z.to_nat idsz) id) rtd Hwf).
Qed.

Lemma error_add_wf rtd sentto sz origin osz rcode rtd' n :
  rtd_wf rtd → fd_rtd_error_add rtd sentto sz origin osz rcode = Ok (rtd', n) → rtd_wf rtd'.
Proof.
  unfold fd_rtd_error_add. intros Hwf. case_bool_decide; [|done].
  set (hop := take (Z.to_nat sz) sentto).
  destruct (error_pos hop (errors rtd)) as [[a b] m] eqn:E.
  intros ([[rtd1 o1] sz1] & H1 & (rtd2 & H2 & (rtd3 & H3 & H4)%res_bind_ok)%res_bind_ok)%res_bind_ok.
  injection H4 as -> _. assert (rtd_wf rtd1) as Hwf1.
  { destruct m; [injection H1 as <- _ _; done|].
    apply res_bind_ok in H1 as ([o' sz'] & _ & H1). injection H1 as <- _ _.
    pose proof (with_error_wf hop (take (Z.to_nat sz') <$> o') rcode rtd Hwf) as [Hw _].
    unfold with_error in Hw. by rewrite E in Hw. }
  assert (rtd_wf rtd2) as Hwf2 by by eapply candidate_del_wf.
  destruct o1; [by eapply candidate_del_wf|by injection H3 as <-].
Qed.

(** in every state the operations lead to, the candidates are ordered and
    without duplicates as long as they have not been extracted, and the errors
    are ordered and without duplicates. *)
Theorem rtd_reachable_wf rtd : rtc rtd_step fd_rtd_init rtd → rtd_wf rtd.
Proof.
  assert (rtd_wf fd_rtd_init) as H0 by (split; [done|]; split; [intros _|]; constructor).
  revert H0. generalize fd_rtd_init. intros rtd0 H0 Hr. induction Hr as [|x y z Hs _ IH]; [done|].
  apply IH. clear IH. destruct Hs.
  - by eapply candidate_add_wf.
  - by eapply candidate_del_wf.
  - by eapply error_add_wf.
  - destruct H0 as (? & Hs & ?). assert (signed 32 (extracted x + 1) = extracted x + 1) as E.
    { unfold signed. rewrite Z.mod_small by lia. rewrite decide_True by lia. done. }
    split; [simpl; lia|]. split; [simpl; lia|done].
  - destruct H0 as (? & ? & ?). split; [done|]. split; [done|done].
Qed.

(** before extraction [fd_rtd_candidate_add] inserts an absent peer at its
    place, with no score, and does nothing for a peer of the list. *)
Theorem fd_rtd_candidate_add_spec rtd x r :
  rtd_wf rtd → extracted rtd = 0 → x ≠ [] →
  ∃ rtd', fd_rtd_candidate_add rtd x r = Ok rtd' ∧
    Increasing fd_os_cmp_int (Ids (candidates rtd')) ∧ errors rtd' = errors rtd ∧
    if decide (x ∈ Ids (candidates rtd)) then rtd' = rtd
    else candidates rtd' ≡ₚ RtdCandidate x r 0 :: candidates rtd.
Proof.
  intros Hwf E Hx. destruct (fd_rtd_candidate_add_ok rtd x r Hwf E Hx) as [(a & b & Hab & Hn & -> & Hi)|[Hin ->]].
  - eexists. split; [done|]. split; [done|]. split; [done|]. rewrite decide_False by done. simpl.
    rewrite Hab. solve_Permutation.
  - exists rtd. destruct Hwf as (_ & Hs & _). rewrite decide_True by done. auto.
Qed.

Lemma remove_first_gone id l :
  NoDup (fmap asciitolower <$> Ids l) → Forall (λ c, ¬ is_candidate id c) (remove_first (is_candidate id) l).
Proof.
  induction l as [|c l IH]; simpl; [constructor|]. intros [Hc Hl]%NoDup_cons.
  case_decide as Hid; [|by constructor; [|apply IH]].
  apply Forall_forall. intros c' Hc' Hid'. apply Hc. unfold is_candidate, case_equal in *.
  rewrite <- Hid, Hid'. by do 2 apply list_elem_of_fmap_2.
Qed.

(** after an error received from the peer [s] with Origin-Host [o], the
    error is recorded, the first candidates that equal [s] and [o] up to case
    are gone, and when no two candidates differ by case only, no candidate for
    the message is [s] or [o]. *)
Theorem fd_rtd_error_add_spec rtd s r o r' rcode :
  rtd_wf rtd → ids_valid rtd → s ≠ [] → o ≠ [] →
  ∃ rtd', fd_rtd_error_add rtd (s ++ 0 :: r) (zlen s) (Some (o ++ 0 :: r')) (zlen o) rcode =
      Ok (rtd', extracted rtd) ∧ rtd_wf rtd' ∧ extracted rtd' = extracted rtd ∧
    s ∈ e_nexthop <$> errors rtd' ∧
    candidates rtd' = remove_first (is_candidate o) (remove_first (is_candidate s) (candidates rtd)) ∧
    (NoDup (fmap asciitolower <$> Ids (candidates rtd)) →
     Forall (λ c, ¬ is_candidate s c ∧ ¬ is_candidate o c) (candidates rtd')).
Proof.
  intros Hwf Hv Hs Ho. rewrite error_add_run by done. eexists. split; [done|].
  set (erh := if valid_identity o then Some o else None).
  destruct (with_error_wf s erh rcode rtd Hwf) as [Hw Hin].
  assert (candidates (with_error s erh rcode rtd) = candidates rtd ∧
          extracted (with_error s erh rcode rtd) = extracted rtd) as [Ec Ee].
  { unfold with_error. destruct (error_pos s (errors rtd)) as [[a b] []]; done. }
  split; [by do 2 apply drop_candidate_wf|]. split; [done|]. split; [done|]. simpl. rewrite Ec.
  split; [done|]. intros Hnd. apply Forall_and. split.
  - pose proof (remove_first_gone s _ Hnd) as Hg. rewrite Forall_forall in *. intros c Hc. apply Hg.
    eapply sublist_subseteq; [apply (remove_first_sub (is_candidate o))|done].
  - apply remove_first_gone. eapply sublist_NoDup; [exact Hnd|].
    do 2 apply fmap_sublist. apply remove_first_sub.
Qed.

(** [fd_rtd_candidate_reorder] orders the candidates by score, whatever the
    random numbers are; none is lost or duplicated. *)
Theorem fd_rtd_candidate_reorder_spec rand l :
  Scored (fd_rtd_candidate_reorder rand l) ∧ fd_rtd_candidate_reorder rand l ≡ₚ l.
Proof.
  unfold fd_rtd_candidate_reorder. destruct (reorder_loop rand 0 (-1) l [] []) as [c h] eqn:E.
  destruct (reorder_loop_spec rand 0 (-1) l [] [] c h) as [? Hp]; [constructor..|done|].
  split; [done|]. by rewrite Hp, app_nil_l, app_nil_r.
Qed.

Module Examples.
Definition ex1 : rt_data :=
  RtData 0 [RtdCandidate [97] None 0; RtdCandidate [97; 98] (Some [99]) 0] [].

Lemma rtd_reachable_wf_witness :
  rtd_wf (RtData 1 [RtdCandidate [97] None 5; RtdCandidate [98] None 5] []).
Proof.
  apply rtd_reachable_wf.
  eapply rtc_l; [apply (step_add _ [98] None); reflexivity|].
  eapply rtc_l; [apply (step_add _ [97] None); reflexivity|].
  eapply rtc_l; [apply (step_extract _ 5); by_compute|].
  eapply rtc_l; [apply (step_reorder _ (λ _, false)); by_compute|]. apply rtc_refl.
Defined.

Lemma ex1_wf : rtd_wf ex1.
Proof. split; [done|]. split; [intros _|constructor]. by repeat constructor. Qed.

Lemma fd_rtd_candidate_add_witness :
  ∃ rtd', fd_rtd_candidate_add ex1 [98] None = Ok rtd' ∧
    candidates rtd' ≡ₚ RtdCandidate [98] None 0 :: candidates ex1.
Proof.
  destruct (fd_rtd_candidate_add_spec ex1 [98] None ex1_wf) as (rtd' & E & _ & _ & H); [done|done|].
  exists rtd'. split; [done|]. exact H.
Defined.

Lemma fd_rtd_error_add_witness :
  ∃ rtd', fd_rtd_error_add ex1 ([97] ++ [0]) 1 (Some ([65; 66] ++ [0])) 2 3002 = Ok (rtd', 0) ∧
    candidates rtd' = [].
Proof.
  destruct (fd_rtd_error_add_spec ex1 [97] [] [65; 66] [] 3002 ex1_wf) as (rtd' & E & _ & _ & _ & H & _);
    [by repeat constructor|done|done|].
  exists rtd'. split; [exact E|exact H].
Defined.
End Examples.
