(* ===== verification/Fifo.v ===== *)
(** * Message queues ([libfdproto/fifo.c])

    A queue is a record of the fields of [struct fifo]; the chained list of
    items is a Rocq list.  The functions that block are cut at
    [pthread_cond_wait]: a definition is the code that one thread runs while it
    holds the mutex, and [exec] interleaves these sections of any number of
    threads.  The readings of the clock are arguments.  The POSIX calls do not
    fail, a C [int] or [long long] counter does not overflow. *)

From stdpp Require Import base list.
From Stdlib Require Import ZArith Lia.
From S2P Require Import Prelude Time.


(** The threshold callbacks are outside of this library: a queue records
    whether they are set, and a call is part of the result. *)
Record fifo {A : Type} := Fifo {
  eyec : bool;                        (* the queue is valid *)
  items : list (A * timespec);        (* an item and [posted_on] *)
  count : Z; thrs : Z; max : Z; thrs_push : Z;
  high : Z; low : Z; data : bool; h_cb : bool; l_cb : bool;
  highest : Z; highest_ever : Z;
  total_items : Z; total_time : timespec; blocking_time : timespec; last_time : timespec }.
Arguments fifo : clear implicits.

(** [t] nanoseconds, as the code stores them in a [struct timespec]. *)
Definition timespec_of (s t : Z) : timespec :=
  TS (s + Z.quot t 1000000000) (Z.rem t 1000000000).

Definition ns (t : timespec) : Z := tv_sec t * 1000000000 + tv_nsec t.

(** [a - b] in nanoseconds. *)
Definition elapsed (a b : timespec) : Z :=
  (tv_sec a - tv_sec b) * 1000000000 + (tv_nsec a - tv_nsec b).

Section fifo.
Context {A : Type}.
Implicit Types (q : fifo A) (x : A).

Definition set_thrs (n : Z) q := Fifo A (eyec q) (items q) (count q) n (max q) (thrs_push q)
  (high q) (low q) (data q) (h_cb q) (l_cb q) (highest q) (highest_ever q) (total_items q)
  (total_time q) (blocking_time q) (last_time q).
Definition set_thrs_push (n : Z) q := Fifo A (eyec q) (items q) (count q) (thrs q) (max q) n
  (high q) (low q) (data q) (h_cb q) (l_cb q) (highest q) (highest_ever q) (total_items q)
  (total_time q) (blocking_time q) (last_time q).
Definition set_highest (n : Z) q := Fifo A (eyec q) (items q) (count q) (thrs q) (max q) (thrs_push q)
  (high q) (low q) (data q) (h_cb q) (l_cb q) n (highest_ever q) (total_items q)
  (total_time q) (blocking_time q) (last_time q).
Definition set_eyec (b : bool) q := Fifo A b (items q) (count q) (thrs q) (max q) (thrs_push q)
  (high q) (low q) (data q) (h_cb q) (l_cb q) (highest q) (highest_ever q) (total_items q)
  (total_time q) (blocking_time q) (last_time q).

Definition fd_fifo_new (mx : Z) : fifo A :=
  let z := TS 0 0 in
  Fifo A true [] 0 0 mx 0 0 0 false false false 0 0 0 z z z.

Definition fd_fifo_set_max q (mx : Z) : fifo A :=
  Fifo A (eyec q) (items q) (count q) (thrs q) mx (thrs_push q)
    (high q) (low q) (data q) (h_cb q) (l_cb q) (highest q) (highest_ever q) (total_items q)
    (total_time q) (blocking_time q) (last_time q).

(** [fd_fifo_del] up to the invalidation of the queue ... *)
Definition fd_fifo_del_start q : res (fifo A) :=
  check eyec q in
  if decide (count q ≠ 0) then Err EINVAL
  else if data q then Err EINVAL
  else Ok (set_eyec false q).

(** ... and its end, once no thread waits for an item. *)
Definition fd_fifo_del_end q : res unit :=
  assert! bool_decide (items q = []) in Ok tt.

(** [fd_fifo_move] up to the invalidation of [old], ... *)
Definition fd_fifo_move_start (old new : fifo A) : res (fifo A) :=
  check eyec old && eyec new in
  check negb (data old) in
  check bool_decide (thrs_push old = 0) in
  Ok (set_eyec false old).

(** ... and its end, once [thrs old] is 0; the result is (old, new). *)
Definition fd_fifo_move_end (old new : fifo A) : fifo A * fifo A :=
  let merge a b := TS (tv_sec a + (tv_sec b + Z.quot (tv_nsec a + tv_nsec b) 1000000000))
                     (Z.rem (tv_nsec a + tv_nsec b) 1000000000) in
  let z := TS 0 0 in
  (Fifo A true [] 0 (thrs old) (max old) (thrs_push old)
     (high old) (low old) (data old) (h_cb old) (l_cb old) (highest old) (highest_ever old)
     0 z z (last_time old),
   Fifo A (eyec new) (items new ++ items old) (count new + count old) (thrs new) (max new) (thrs_push new)
     (high new) (low new) (data new) (h_cb new) (l_cb new) (highest new) (highest_ever new)
     (total_items new + total_items old) (merge (total_time new) (total_time old))
     (merge (blocking_time new) (blocking_time old)) (last_time new)).

(** The values stored through the pointers, in the order of the arguments. *)
Definition fd_fifo_getstats q : res (Z * Z * Z * Z * timespec * timespec * timespec) :=
  check eyec q in
  Ok (count q, max q, highest_ever q, total_items q, total_time q, blocking_time q, last_time q).

Definition fd_fifo_length q : Z := if eyec q then count q else 0.

Definition fd_fifo_setthrhd q (dt : bool) (hi : Z) (h : bool) (lo : Z) (l : bool) : res (fifo A) :=
  check eyec q && bool_decide (hi > lo) && negb (data q) in
  Ok (Fifo A (eyec q) (items q) (count q) (thrs q) (max q) (thrs_push q)
        hi lo dt h l (highest q) (highest_ever q) (total_items q)
        (total_time q) (blocking_time q) (last_time q)).

(** ** Posting *)

Definition fifo_cleanup_push q : fifo A := set_thrs_push (thrs_push q - 1) q.

(** [fd_fifo_post_internal] from "Create a new list item" on; the second result
    tells if [h_cb] is called.  [queued_on] is the second reading of the clock. *)
Definition post_item q x (posted_on queued_on : timespec) : fifo A * bool :=
  let cnt := count q + 1 in
  let call_cb := bool_decide (high q ≠ 0) && bool_decide (Z.rem cnt (high q) = 0) in
  let blocked_ns := elapsed queued_on posted_on + tv_nsec (blocking_time q) in
  (Fifo A (eyec q) (items q ++ [(x, posted_on)]) cnt (thrs q) (max q) (thrs_push q)
     (high q) (low q) (data q) (h_cb q) (l_cb q)
     (if call_cb then cnt else highest q)
     (if decide (highest_ever q < cnt) then cnt else highest_ever q)
     (total_items q) (total_time q)
     (timespec_of (tv_sec (blocking_time q)) blocked_ns) (last_time q),
   call_cb && h_cb q).

(** The test of the [while] loop: [None] when the thread goes to sleep on
    [cond_push]. *)
Definition post_while q x (posted_on queued_on : timespec) : fifo A * option bool :=
  if decide (max q ≤ count q) then (set_thrs_push (thrs_push q + 1) q, None)
  else let '(q, cb) := post_item q x posted_on queued_on in (q, Some cb).

Definition fd_fifo_post_internal q x (skip_max : bool) (posted_on queued_on : timespec)
    : fifo A * option bool :=
  if negb skip_max && bool_decide (max q ≠ 0) then post_while q x posted_on queued_on
  else let '(q, cb) := post_item q x posted_on queued_on in (q, Some cb).

(** The thread returns from [pthread_cond_wait] (signalled or not). *)
Definition post_resume q x (posted_on queued_on : timespec) : fifo A * option bool :=
  post_while (set_thrs_push (thrs_push q - 1) q) x posted_on queued_on.

Definition fd_fifo_post_int q x (posted_on queued_on : timespec) : res (fifo A * option bool) :=
  check eyec q in Ok (fd_fifo_post_internal q x false posted_on queued_on).

Definition fd_fifo_post_noblock q x (posted_on queued_on : timespec) : res (fifo A * option bool) :=
  check eyec q in Ok (fd_fifo_post_internal q x true posted_on queued_on).

(** ** Pulling *)

Definition mq_pop q (now : timespec) : res (fifo A * A) :=
  match items q with
  | [] => Crash
  | (x, posted_on) :: rest =>
      let el := elapsed now posted_on in
      Ok (Fifo A (eyec q) rest (count q - 1) (thrs q) (max q) (thrs_push q)
            (high q) (low q) (data q) (h_cb q) (l_cb q) (highest q) (highest_ever q)
            (total_items q + 1)
            (timespec_of (tv_sec (total_time q)) (el + tv_nsec (total_time q)))
            (blocking_time q) (timespec_of 0 el), x)
  end.

Definition test_l_cb q : fifo A * bool :=
  if decide (high q = 0 ∨ low q = 0 ∨ l_cb q = false) then (q, false)
  else if decide (Z.rem (count q) (high q) = low q ∧ highest q > count q) then
    (set_highest (highest q - high q) q, true)
  else (q, false).

(** Picking the first item: the item and whether [l_cb] is called. *)
Definition pull q (now : timespec) : res (fifo A * A * bool) :=
  let* (q, x) := mq_pop q now in
  let '(q, call_cb) := test_l_cb q in Ok (q, x, call_cb).

(** The first and the second section of [fd_fifo_tryget_int]; in the first,
    [inr tt] means that the mutex is released for a while for the thread that
    tries to push, before the second. *)
Definition fd_fifo_tryget_int q (now : timespec) : res (fifo A * (option (A * bool) + unit)) :=
  check eyec q in
  if decide (count q > 0) then let* (q, x, cb) := pull q now in Ok (q, inl (Some (x, cb)))
  else if decide (thrs_push q > 0) then Ok (q, inr tt)
  else Ok (q, inl None).

Definition tryget_second q (now : timespec) : res (fifo A * option (A * bool)) :=
  if decide (count q > 0) then let* (q, x, cb) := pull q now in Ok (q, Some (x, cb))
  else Ok (q, None).

Definition fifo_cleanup q : fifo A := set_thrs (thrs q - 1) q.

(** [fifo_tget] from the label [awaken]: an item, or [None] when the thread goes
    to sleep on [cond_pull]. *)
Definition tget_awaken q (now : timespec) : res (fifo A * option (A * bool)) :=
  if negb (eyec q) then Err EPIPE
  else if decide (count q > 0) then let* (q, x, cb) := pull q now in Ok (q, Some (x, cb))
  else Ok (set_thrs (thrs q + 1) q, None).

Definition fifo_tget q (now : timespec) : res (fifo A * option (A * bool)) :=
  check eyec q in tget_awaken q now.

(** The thread returns from the wait: [timedout] tells with what result; then
    the function returns [ETIMEDOUT]. *)
Definition tget_resume q (timedout : bool) (now : timespec) : res (fifo A * option (A * bool)) :=
  let q := set_thrs (thrs q - 1) q in
  if timedout then Ok (q, None) else tget_awaken q now.

(** [fd_fifo_select] from [awaken]; [None] when the thread goes to sleep. *)
Definition select_awaken q (abstime : bool) : fifo A * option Z :=
  let ret := if decide (count q > 0) then count q else 0 in
  if bool_decide (ret = 0) && abstime then (set_thrs (thrs q + 1) q, None) else (q, Some ret).

Definition fd_fifo_select q (abstime : bool) : res (fifo A * option Z) :=
  check eyec q in Ok (select_awaken q abstime).

Definition select_resume q (timedout : bool) : fifo A * option Z :=
  let q := set_thrs (thrs q - 1) q in
  if timedout then (q, Some 0) else select_awaken q true.

(** ** Threads *)

Inductive puller := Getting | Selecting.

(** The queue, the threads that sleep on it, and two ghost logs: the items in
    the order they have been queued and pulled. *)
Record system := System {
  queue : fifo A;
  pushers : list (A * timespec);
  pullers : list puller;
  queued : list A;
  pulled : list A }.

Inductive event :=
  | EvPost (x : A) (skip_max : bool) (posted_on queued_on : timespec)
  | EvPushWake (i : nat) (queued_on : timespec)
  | EvPushCancel (i : nat)
  | EvGet (now : timespec)
  | EvTryget (now : timespec)
  | EvTrygetSecond (now : timespec)
  | EvSelect (abstime : bool)
  | EvPullWake (i : nat) (timedout : bool) (now : timespec)
  | EvPullCancel (i : nat)
  | EvSetMax (mx : Z)
  | EvSetThreshold (dt : bool) (hi : Z) (h : bool) (lo : Z) (l : bool)
  | EvDel.

(** An error code that a call returns leaves the queue as it is. *)
Definition on_err {B} (m : res B) (s : system) (f : B → system) : res system :=
  match m with Ok b => Ok (f b) | Err _ => Ok s | Crash => Crash end.

Definition posted (s : system) (x : A) (t : timespec) (ps : list (A * timespec))
    (r : fifo A * option bool) : system :=
  let '(q, out) := r in
  match out with
  | Some _ => System q ps (pullers s) (queued s ++ [x]) (pulled s)
  | None => System q (ps ++ [(x, t)]) (pullers s) (queued s) (pulled s)
  end.

Definition got (s : system) (ps sleep : list puller) (r : fifo A * option (A * bool)) : system :=
  let '(q, out) := r in
  match out with
  | Some (x, _) => System q (pushers s) ps (queued s) (pulled s ++ [x])
  | None => System q (pushers s) sleep (queued s) (pulled s)
  end.

Definition selected (s : system) (ps : list puller) (r : fifo A * option Z) : system :=
  let '(q, out) := r in
  System q (pushers s) (if out then ps else ps ++ [Selecting]) (queued s) (pulled s).

Definition with_queue (s : system) q : system :=
  System q (pushers s) (pullers s) (queued s) (pulled s).

(** One section of one thread.  An event about a thread that does not sleep
    does nothing. *)
Definition exec (s : system) (e : event) : res system :=
  let q := queue s in
  match e with
  | EvPost x skip p t =>
      on_err (if skip then fd_fifo_post_noblock q x p t else fd_fifo_post_int q x p t) s
        (posted s x p (pushers s))
  | EvPushWake i t =>
      match pushers s !! i with
      | Some (x, p) => Ok (posted s x p (delete i (pushers s)) (post_resume q x p t))
      | None => Ok s
      end
  | EvPushCancel i =>
      match pushers s !! i with
      | Some _ => Ok (System (fifo_cleanup_push q) (delete i (pushers s)) (pullers s) (queued s) (pulled s))
      | None => Ok s
      end
  | EvGet now => on_err (fifo_tget q now) s (got s (pullers s) (pullers s ++ [Getting]))
  | EvTryget now =>
      on_err (fd_fifo_tryget_int q now) s
        (λ '(q, r), got s (pullers s) (pullers s) (q, match r with inl o => o | inr _ => None end))
  | EvTrygetSecond now =>
      on_err (tryget_second q now) s (got s (pullers s) (pullers s))
  | EvSelect a => on_err (fd_fifo_select q a) s (selected s (pullers s))
  | EvPullWake i timedout now =>
      match pullers s !! i with
      | Some Getting =>
          let ps := delete i (pullers s) in
          match tget_resume q timedout now with
          | Ok r => Ok (got s ps (if timedout then ps else ps ++ [Getting]) r)
          | Err _ => Ok (System (set_thrs (thrs q - 1) q) (pushers s) ps (queued s) (pulled s))
          | Crash => Crash
          end
      | Some Selecting => Ok (selected s (delete i (pullers s)) (select_resume q timedout))
      | None => Ok s
      end
  | EvPullCancel i =>
      match pullers s !! i with
      | Some _ => Ok (System (fifo_cleanup q) (pushers s) (delete i (pullers s)) (queued s) (pulled s))
      | None => Ok s
      end
  | EvSetMax m => Ok (with_queue s (fd_fifo_set_max q m))
  | EvSetThreshold d hi h lo l => on_err (fd_fifo_setthrhd q d hi h lo l) s (with_queue s)
  | EvDel => on_err (fd_fifo_del_start q) s (with_queue s)
  end.

Fixpoint run (s : system) (es : list event) : res system :=
  match es with
  | [] => Ok s
  | e :: es => let* s := exec s e in run s es
  end.

Definition start (mx : Z) : system := System (fd_fifo_new mx) [] [] [] [].
End fifo.
Arguments event : clear implicits.
Arguments system : clear implicits.

(** ** The structural invariant *)

Section proofs.
Context {A : Type}.
Implicit Types (q : fifo A) (s : system A).

Lemma zlen_delete {B} (l : list B) i x : l !! i = Some x → zlen (delete i l) = zlen l - 1.
Proof.
  intros Hi. unfold zlen. pose proof (lookup_lt_Some _ _ _ Hi). rewrite length_delete by eauto. lia.
Qed.

Lemma zlen_zero {B} (l : list B) : zlen l = 0 → l = [].
Proof. destruct l; [done|]. rewrite zlen_cons. pose proof (zlen_nonneg l). lia. Qed.

(** The settings of a queue and the numbers of its waiting threads. *)
Definition env q := (eyec q, max q, high q, low q, data q, h_cb q, l_cb q).

Lemma test_l_cb_highest q : ∃ n cb, test_l_cb q = (set_highest n q, cb).
Proof.
  unfold test_l_cb. repeat case_decide; [exists (highest q), false; by destruct q|eauto|exists (highest q), false; by destruct q].
Qed.

Lemma pull_spec q now :
  count q = zlen (items q) → 0 < count q →
  ∃ x t rest q' cb, items q = (x, t) :: rest ∧ pull q now = Ok (q', x, cb) ∧
    items q' = rest ∧ count q' = count q - 1 ∧ thrs q' = thrs q ∧ thrs_push q' = thrs_push q ∧
    highest_ever q' = highest_ever q ∧ total_items q' = total_items q + 1 ∧ env q' = env q.
Proof.
  intros Hc Hp. unfold pull, mq_pop. destruct (items q) as [|[x t] rest].
  { rewrite zlen_nil in Hc. lia. }
  cbn [res_bind]. exists x, t, rest.
  match goal with |- context [test_l_cb ?p] => destruct (test_l_cb_highest p) as (n & cb & ->) end.
  eexists _, cb. split; [done|]. split; [done|]. repeat split.
Qed.

Definition fifo_inv s : Prop :=
  count (queue s) = zlen (items (queue s)) ∧
  thrs (queue s) = zlen (pullers s) ∧
  thrs_push (queue s) = zlen (pushers s) ∧
  queued s = pulled s ++ (fst <$> items (queue s)) ∧
  total_items (queue s) = zlen (pulled s) ∧
  count (queue s) ≤ highest_ever (queue s).

Lemma start_inv mx : fifo_inv (start mx : system A).
Proof. done. Qed.

(** What a post leaves, asleep or done; [pull_inv] is the same for a pull. *)
Lemma post_while_inv s q x p t ps :
  fifo_inv (System q ps (pullers s) (queued s) (pulled s)) →
  fifo_inv (posted s x p ps (post_while q x p t)).
Proof.
  intros (H1 & H2 & H3 & H4 & H5 & H6). unfold post_while. case_decide; simpl in *.
  - repeat split; simpl; try done. rewrite zlen_app, zlen_cons, zlen_nil. lia.
  - unfold posted, post_item, fifo_inv. simpl. autorewrite with fd_len.
    rewrite fmap_app, H4, <- app_assoc. repeat split; try done; try lia. case_decide; lia.
Qed.

Lemma post_item_inv s q x p t ps :
  fifo_inv (System q ps (pullers s) (queued s) (pulled s)) →
  fifo_inv (posted s x p ps (let '(q, cb) := post_item q x p t in (q, Some cb))).
Proof.
  intros (H1 & H2 & H3 & H4 & H5 & H6). simpl in *. unfold fifo_inv. simpl. autorewrite with fd_len.
  rewrite fmap_app, H4, <- app_assoc. repeat split; try done; try lia. case_decide; lia.
Qed.

Lemma pull_inv s q now ps sleep :
  fifo_inv (System q (pushers s) ps (queued s) (pulled s)) → 0 < count q →
  ∃ q' x cb, pull q now = Ok (q', x, cb) ∧ fifo_inv (got s ps sleep (q', Some (x, cb))).
Proof.
  intros (H1 & H2 & H3 & H4 & H5 & H6) Hc. simpl in *.
  destruct (pull_spec q now H1 Hc) as (x & t & rest & q' & cb & Hi & -> & E1 & E2 & E3 & E4 & E5 & E6 & _).
  exists q', x, cb. split; [done|]. unfold fifo_inv. simpl. autorewrite with fd_len.
  rewrite E1, E2, E3, E4, E5, E6, H4, Hi, <- app_assoc in *. rewrite zlen_cons in H1.
  repeat split; try done; lia.
Qed.

Lemma tget_awaken_inv s q now ps :
  fifo_inv (System q (pushers s) ps (queued s) (pulled s)) →
  match tget_awaken q now with
  | Ok r => fifo_inv (got s ps (ps ++ [Getting]) r)
  | Err _ => True
  | Crash => False
  end.
Proof.
  intros Hi. unfold tget_awaken. destruct (eyec q); simpl; [|done]. case_decide.
  - destruct (pull_inv s q now ps (ps ++ [Getting]) Hi) as (q' & x & cb & -> & H'); [lia|done].
  - destruct Hi as (H1 & H2 & H3 & H4 & H5 & H6). repeat split; simpl in *; try done.
    rewrite zlen_app, zlen_cons, zlen_nil. lia.
Qed.

Lemma select_awaken_inv s q a ps :
  fifo_inv (System q (pushers s) ps (queued s) (pulled s)) →
  fifo_inv (selected s ps (select_awaken q a)).
Proof.
  intros (H1 & H2 & H3 & H4 & H5 & H6). unfold select_awaken.
  destruct (_ && a); repeat split; simpl in *; try done.
  rewrite zlen_app, zlen_cons, zlen_nil. lia.
Qed.

Lemma exec_inv s e : fifo_inv s → ∃ s', exec s e = Ok s' ∧ fifo_inv s'.
Proof.
  intros Hi. assert (∀ ps n, zlen ps = n → thrs_push (queue s) = thrs_push (queue s) →
    fifo_inv (System (set_thrs n (queue s)) (pushers s) ps (queued s) (pulled s))) as Hthrs.
  { intros ps n Hn _. destruct Hi as (? & ? & ? & ? & ? & ?). by repeat split. }
  assert (∀ ps n, zlen ps = n →
    fifo_inv (System (set_thrs_push n (queue s)) ps (pullers s) (queued s) (pulled s))) as Hpush.
  { intros ps n Hn. destruct Hi as (? & ? & ? & ? & ? & ?). by repeat split. }
  assert (fifo_inv (System (queue s) (pushers s) (pullers s) (queued s) (pulled s))) as Hself by by destruct s.
  pose proof Hi as (_ & Ht & Hp & _).
  destruct e as [x skip p t|i t|i|now|now|now|a|i to now|i|m|d hi h lo l|]; cbn [exec].
  - unfold fd_fifo_post_noblock, fd_fifo_post_int, fd_fifo_post_internal.
    destruct (eyec (queue s)), skip; simpl; eauto.
    + eexists. split; [done|]. by apply post_item_inv.
    + case_bool_decide; eexists; (split; [done|]); [by apply post_while_inv|by apply post_item_inv].
  - destruct (pushers s !! i) as [[x p]|] eqn:E; [|eauto]. eexists. split; [done|].
    apply post_while_inv, Hpush. rewrite (zlen_delete _ _ _ E). lia.
  - destruct (pushers s !! i) as [[x p]|] eqn:E; [|eauto]. eexists. split; [done|].
    apply Hpush. rewrite (zlen_delete _ _ _ E). lia.
  - unfold fifo_tget. pose proof (tget_awaken_inv s (queue s) now (pullers s) Hself) as H.
    destruct (eyec (queue s)); simpl; [|eauto]. destruct (tget_awaken _ _); simpl; [eauto|eauto|done].
  - unfold fd_fifo_tryget_int. destruct (eyec (queue s)); simpl; [|eauto]. case_decide.
    + destruct (pull_inv s (queue s) now (pullers s) (pullers s) Hself) as (q' & x & cb & -> & H'); [lia|]. simpl. eauto.
    + case_decide; simpl; eauto.
  - unfold tryget_second. case_decide; simpl; [|eauto].
    destruct (pull_inv s (queue s) now (pullers s) (pullers s) Hself) as (q' & x & cb & -> & H'); [lia|]. simpl. eauto.
  - unfold fd_fifo_select. destruct (eyec (queue s)); simpl; [|eauto].
    eexists. split; [done|]. by apply select_awaken_inv.
  - destruct (pullers s !! i) as [k|] eqn:E; [|eauto].
    specialize (Hthrs (delete i (pullers s)) (thrs (queue s) - 1) ltac:(rewrite (zlen_delete _ _ _ E); lia) eq_refl).
    destruct k.
    + unfold tget_resume. destruct to; [by eauto|].
      pose proof (tget_awaken_inv s _ now _ Hthrs) as H. destruct (tget_awaken _ _); [eauto|eauto|done].
    + eexists. split; [done|]. unfold select_resume. destruct to; [done|]. by apply select_awaken_inv.
  - destruct (pullers s !! i) as [k|] eqn:E; [|eauto]. eexists. split; [done|].
    apply Hthrs; [|done]. rewrite (zlen_delete _ _ _ E). lia.
  - eauto.
  - unfold fd_fifo_setthrhd. destruct (_ && _); simpl; eauto.
  - unfold fd_fifo_del_start. destruct (eyec (queue s)); simpl; [|eauto]. case_decide; simpl; [eauto|].
    destruct (data (queue s)); simpl; eauto.
Qed.

Lemma run_inv s es : fifo_inv s → ∃ s', run s es = Ok s' ∧ fifo_inv s'.
Proof.
  revert s. induction es as [|e es IH]; intros s Hi; simpl; [eauto|].
  destruct (exec_inv s e Hi) as (s' & -> & Hi'). simpl. by apply IH.
Qed.

(** C40: any interleaving of posts, pulls, wake-ups, timeouts and cancellations
    on a new queue runs without a failed assertion; the counters of items and
    of sleeping threads are exact, and the items leave in the order they came. *)
Theorem fifo_run_inv mx (es : list (event A)) : ∃ s, run (start mx) es = Ok s ∧ fifo_inv s.
Proof. apply run_inv, start_inv. Qed.

(** ** Invariants of the queue under the other fields *)

(** A property of the queue that the sections preserve is an invariant of the
    run.  The wait counters and the validity are the fields every section may
    change. *)
Section queue_inv.
Context (P : fifo A → Prop) (ok : event A → Prop).
Context (P_thrs : ∀ q n, P q → P (set_thrs n q)).
Context (P_push : ∀ q n, P q → P (set_thrs_push n q)).
Context (P_eyec : ∀ q b, P q → P (set_eyec b q)).
Context (P_pull : ∀ q now q' x cb, P q → 0 < count q → pull q now = Ok (q', x, cb) → P q').
Context (P_post : ∀ q x p t, P q → max q = 0 ∨ count q < max q → P (fst (post_item q x p t))).
Context (P_skip : ∀ q x p t, P q → ok (EvPost x true p t) → P (fst (post_item q x p t))).
Context (P_max : ∀ q m, P q → ok (EvSetMax m) → P (fd_fifo_set_max q m)).
Context (P_thr : ∀ q q' d hi h lo l, P q → ok (EvSetThreshold d hi h lo l) →
  fd_fifo_setthrhd q d hi h lo l = Ok q' → P q').

Lemma post_while_P s q x p t ps : P q → P (queue (posted s x p ps (post_while q x p t))).
Proof.
  intros H. unfold post_while. case_decide; simpl; [by apply P_push|].
  apply (P_post q x p t H). lia.
Qed.

Lemma tget_awaken_P s q now ps sleep r :
  P q → tget_awaken q now = Ok r → P (queue (got s ps sleep r)).
Proof.
  intros H. unfold tget_awaken. destruct (eyec q); [|done]. simpl. case_decide.
  - intros ([[q' x] cb] & E & [= <-])%res_bind_ok. simpl. eapply P_pull; [done|lia|done].
  - intros [= <-]. by apply P_thrs.
Qed.

Lemma select_awaken_P s q a ps : P q → P (queue (selected s ps (select_awaken q a))).
Proof. intros H. unfold select_awaken. destruct (_ && a); simpl; [by apply P_thrs|done]. Qed.

Lemma exec_P s e s' : P (queue s) → ok e → exec s e = Ok s' → P (queue s').
Proof.
  intros H Hok. destruct e as [x skip p t|i t|i|now|now|now|a|i to now|i|m|d hi h lo l|]; cbn [exec].
  - unfold fd_fifo_post_noblock, fd_fifo_post_int, fd_fifo_post_internal.
    destruct (eyec (queue s)), skip; cbn [on_err negb andb]; try (by intros [= <-]).
    + intros [= <-]. by apply (P_skip (queue s) x p t).
    + case_bool_decide as Hm; intros [= <-]; [by apply post_while_P|].
      apply (P_post (queue s) x p t H). by left.
  - destruct (pushers s !! i) as [[x p]|]; intros [= <-]; [|done]. by apply post_while_P, P_push.
  - destruct (pushers s !! i) as [[x p]|]; intros [= <-]; [|done]. by apply P_push.
  - unfold fifo_tget. destruct (eyec (queue s)); [|by intros [= <-]].
    destruct (tget_awaken _ _) eqn:E; intros [= <-]; [by eapply tget_awaken_P|done].
  - unfold fd_fifo_tryget_int. destruct (eyec (queue s)); [|by intros [= <-]]. case_decide.
    + destruct (pull _ _) as [[[q' x] cb]| |] eqn:E; intros [= <-]; [|done]. simpl. eapply P_pull; [done|lia|done].
    + case_decide; by intros [= <-].
  - unfold tryget_second. case_decide; [|by intros [= <-]].
    destruct (pull _ _) as [[[q' x] cb]| |] eqn:E; intros [= <-]; [|done]. simpl. eapply P_pull; [done|lia|done].
  - unfold fd_fifo_select. destruct (eyec (queue s)); intros [= <-]; [|done]. by apply select_awaken_P.
  - destruct (pullers s !! i) as [[]|]; [..|by intros [= <-]].
    + unfold tget_resume. destruct to; [intros [= <-]; by apply P_thrs|].
      destruct (tget_awaken _ _) eqn:E; intros [= <-]; [|by apply P_thrs].
      eapply tget_awaken_P; [by apply P_thrs|done].
    + intros [= <-]. unfold select_resume. destruct to; [by apply P_thrs|].
      apply select_awaken_P. by apply P_thrs.
  - destruct (pullers s !! i); intros [= <-]; [by apply P_thrs|done].
  - intros [= <-]. by apply P_max.
  - destruct (fd_fifo_setthrhd _ _ _ _ _ _) eqn:E; intros [= <-]; [by eapply P_thr|done].
  - unfold fd_fifo_del_start. destruct (eyec (queue s)); [|by intros [= <-]].
    case_decide; [by intros [= <-]|]. destruct (data (queue s)); intros [= <-]; [done|by apply P_eyec].
Qed.

Lemma run_P s es s' : P (queue s) → Forall ok es → run s es = Ok s' → P (queue s').
Proof.
  intros H Hok. revert s H. induction Hok as [|e es He _ IH]; intros s H; simpl; [by intros [= <-]|].
  intros (s1 & E & Hr)%res_bind_ok. apply (IH s1); [by eapply exec_P|done].
Qed.
End queue_inv.

(** ** Capacity *)

Definition keeps_limit (e : event A) : Prop :=
  match e with EvPost _ true _ _ | EvSetMax _ => False | _ => True end.

Definition within q (mx : Z) : Prop := max q = mx ∧ count q ≤ mx.

Lemma pull_count q now q' x cb :
  pull q now = Ok (q', x, cb) → count q' = count q - 1 ∧ env q' = env q.
Proof.
  unfold pull, mq_pop. destruct (items q) as [|[y t] rest]; [done|]. cbn [res_bind].
  match goal with |- context [test_l_cb ?p] => destruct (test_l_cb_highest p) as (n & cb' & ->) end.
  by intros [= <- <- <-].
Qed.

(** a queue with a maximum never holds more items, as long as every post
    accepts to block and the maximum is not changed. *)
Theorem fifo_bounded mx es s :
  0 < mx → Forall keeps_limit es → run (start mx) es = Ok s → count (queue s) ≤ mx.
Proof.
  intros Hmx Hes Hr. cut (within (queue s) mx); [by intros [_ ?]|].
  revert Hes Hr. apply (run_P (λ q, within q mx)); unfold within; simpl; try done.
  - intros q now q' x cb [? ?] _ [-> E]%pull_count. unfold env in E. simplify_eq. lia.
  - intros q x p t [-> ?]. lia.
  - intros q q' d hi h lo l ? _. unfold fd_fifo_setthrhd. destruct (_ && _); [|done]. by intros [= <-].
  - lia.
Qed.

(** ** Thresholds *)

Definition no_threshold_change (e : event A) : Prop :=
  match e with EvSetThreshold _ _ _ _ _ => False | _ => True end.

(** [highest] is the level that has been signalled and not taken back: the [n]-th
    multiple of [high], with the number of items between the points where the
    level would change. *)
Definition level q (hi lo : Z) (n : Z) : Prop :=
  0 ≤ n ∧ highest q = n * hi ∧ 0 ≤ count q < (n + 1) * hi ∧ (0 < n → (n - 1) * hi + lo < count q).

Definition leveled q (hi lo : Z) : Prop :=
  high q = hi ∧ low q = lo ∧ l_cb q = true ∧ ∃ n, level q hi lo n.

Lemma rem_level a hi k : 0 < hi → 0 ≤ a → k * hi ≤ a < (k + 1) * hi → Z.rem a hi = a - k * hi.
Proof.
  intros Hh Ha Hk. rewrite Z.rem_mod_nonneg by lia. symmetry. apply Zmod_unique with k; lia.
Qed.

Lemma div_level a hi : 0 < hi → ∃ k, k * hi ≤ a < (k + 1) * hi.
Proof. intros. exists (a / hi). pose proof (Z.div_mod a hi). pose proof (Z.mod_pos_bound a hi). lia. Qed.

Lemma post_item_level q x p t hi lo :
  0 < lo < hi → leveled q hi lo → leveled (fst (post_item q x p t)) hi lo.
Proof.
  intros Hlo (Hh & Hl & Hcb & n & Hn & Hhi & Hc & Hb). unfold leveled. simpl. rewrite Hh.
  split_and!; try done. rewrite bool_decide_true by lia. simpl.
  destruct (div_level (count q + 1) hi) as [k Hk]; [lia|].
  rewrite (rem_level _ _ k) by lia. unfold level. simpl. case_bool_decide as E.
  - exists k. assert (0 < k) by nia. split_and!; nia.
  - assert (count q + 1 ≠ (n + 1) * hi) by (intros E'; assert (k = n + 1) as -> by nia; lia).
    exists n. split_and!; [done|done|lia..].
Qed.

Lemma pull_level q now q' x cb hi lo :
  0 < lo < hi → leveled q hi lo → 0 < count q → pull q now = Ok (q', x, cb) → leveled q' hi lo.
Proof.
  intros Hlo (Hh & Hl & Hcb & n & Hn & Hhi & Hc & Hb) Hpos. unfold pull, mq_pop.
  destruct (items q) as [|[y t] rest]; [done|]. cbn [res_bind]. unfold test_l_cb. cbn [high low l_cb count highest].
  rewrite decide_False by (rewrite Hh, Hl, Hcb; lia || (intros [?|[?|?]]; [lia|lia|done])).
  destruct (div_level (count q - 1) hi) as [k Hk]; [lia|].
  rewrite Hh, Hl, Hhi, (rem_level _ _ k) by lia.
  destruct (decide _) as [[E Hgt]|E]; intros [= <- _ _]; unfold leveled, level; simpl; split_and!; try done.
  - exists (n - 1). split_and!; nia.
  - exists n. split_and!; try nia. intros Hn0. destruct (decide ((n - 1) * hi + lo = count q - 1)) as [E'|]; [|lia].
    exfalso. apply E. assert (k = n - 1) as -> by nia. lia.
Qed.

(** after thresholds are set on a new queue, the level signalled always
    matches the number of items: the high callback has been called up to a
    level [n * high] that is above the items less a [high], and a level is
    taken back as soon as the items are down to [low] above the level below.
    In particular nothing is left signalled when the items are down to [low]. *)
Theorem fifo_thresholds mx hi lo h es s :
  0 < lo < hi → Forall no_threshold_change es →
  run (start mx) (EvSetThreshold true hi h lo true :: es) = Ok s →
  (∃ n, level (queue s) hi lo n) ∧ (count (queue s) ≤ lo → highest (queue s) = 0).
Proof.
  intros Hlo Hes. cbn [run exec]. unfold fd_fifo_setthrhd. rewrite bool_decide_true by lia. simpl. intros Hr.
  assert (leveled (queue s) hi lo) as (_ & _ & _ & n & Hl).
  { revert Hes Hr. apply (run_P (λ q, leveled q hi lo)); try done.
    - intros. by eapply pull_level.
    - intros. by apply post_item_level.
    - intros. by apply post_item_level.
    - split_and!; try done. exists 0. unfold level. simpl. lia. }
  split; [by exists n|]. intros Hc. destruct Hl as (? & -> & ? & Hb). assert (n = 0) by nia. lia.
Qed.

(** ** Moving, and threads that sleep *)

(** [fd_fifo_move] appends the old items to the new queue, leaves the old
    queue empty and valid, and adds up the counters and the times. *)
Theorem fd_fifo_move_spec (old new : fifo A) :
  let '(old', new') := fd_fifo_move_end old new in
  items old' = [] ∧ count old' = 0 ∧ eyec old' = true ∧
  items new' = items new ++ items old ∧
  (count old = zlen (items old) → count new = zlen (items new) → count new' = zlen (items new')) ∧
  total_items new' = total_items new + total_items old ∧
  ns (total_time new') = ns (total_time new) + ns (total_time old) ∧
  ns (blocking_time new') = ns (blocking_time new) + ns (blocking_time old).
Proof.
  simpl. split_and!; try done.
  - intros -> ->. by rewrite zlen_app.
  - unfold ns. simpl. pose proof (Z.quot_rem' (tv_nsec (total_time new) + tv_nsec (total_time old)) 1000000000). lia.
  - unfold ns. simpl. pose proof (Z.quot_rem' (tv_nsec (blocking_time new) + tv_nsec (blocking_time old)) 1000000000). lia.
Qed.

(** the limit 0 means no limit to a new post, but a thread that sleeps on a
    full queue is not released by [fd_fifo_set_max (queue, 0)]: whenever it
    wakes up it goes to sleep again. *)
Theorem fd_fifo_set_max_unlimited q (x : A) p t :
  0 ≤ count q →
  let q' := fd_fifo_set_max q 0 in
  snd (post_resume q' x p t) = None ∧ fst (post_resume q' x p t) = q' ∧
  snd (fd_fifo_post_internal q' x false p t) ≠ None.
Proof.
  intros Hc. unfold post_resume, post_while, fd_fifo_post_internal. simpl.
  rewrite decide_True by lia. simpl. split; [done|]. split; [|done].
  unfold fd_fifo_set_max, set_thrs_push. simpl. f_equal. lia.
Qed.

(** of the threads that sleep on an empty queue being deleted, the one that
    waits for an item leaves with [EPIPE] when it is woken up, but the one that
    waits in [fd_fifo_select] goes back to sleep; [fd_fifo_del] waits for both. *)
Theorem fd_fifo_del_sleepers q q' now :
  count q = 0 → fd_fifo_del_start q = Ok q' →
  tget_resume q' false now = Err EPIPE ∧ select_resume q' false = (q', None).
Proof.
  intros Hc. unfold fd_fifo_del_start. destruct (eyec q); [|done]. rewrite decide_False by lia.
  destruct (data q); [done|]. intros [= <-]. split; [done|].
  unfold select_resume, select_awaken. simpl. rewrite Hc. simpl.
  unfold set_thrs, set_eyec. simpl. do 2 f_equal. lia.
Qed.
End proofs.

Module Examples.
Definition t0 := TS 0 0.

(** The state after a sequence of events. *)
Definition final (mx : Z) (es : list (event Z)) : system Z :=
  match run (start mx) es with Ok s => s | _ => start mx end.

(** Two posts on a queue of one, the second one sleeping until a pull. *)
Definition full_events : list (event Z) :=
  [EvPost 7 false t0 t0; EvPost 8 false t0 t0; EvGet t0; EvPushWake 0 t0].

Lemma fifo_bounded_witness : count (queue (final 1 full_events)) ≤ 1.
Proof. apply (fifo_bounded (A:=Z) 1 full_events (final 1 full_events)); [lia|by repeat constructor|reflexivity]. Defined.

Definition thr_events : list (event Z) :=
  [EvPost 1 true t0 t0; EvPost 2 true t0 t0; EvGet t0].

Lemma fifo_thresholds_witness :
  let s := final 0 (EvSetThreshold true 2 true 1 true :: thr_events) in
  (∃ n, level (queue s) 2 1 n) ∧ (count (queue s) ≤ 1 → highest (queue s) = 0).
Proof.
  intros s. apply (fifo_thresholds (A:=Z) 0 2 1 true thr_events s); [lia|by repeat constructor|reflexivity].
Defined.

Lemma fd_fifo_set_max_unlimited_witness :
  snd (post_resume (fd_fifo_set_max (fd_fifo_new (A:=Z) 1) 0) 7 t0 t0) = None.
Proof. apply (fd_fifo_set_max_unlimited (fd_fifo_new (A:=Z) 1) 7 t0 t0). done. Defined.

Lemma fd_fifo_del_sleepers_witness :
  tget_resume (set_eyec false (fd_fifo_new (A:=Z) 0)) false t0 = Err EPIPE.
Proof.
  apply (fd_fifo_del_sleepers (fd_fifo_new (A:=Z) 0) (set_eyec false (fd_fifo_new 0)) t0); done.
Defined.

(** The largest number of items is not updated by a move. *)
Example fd_fifo_move_highest_ever :
  let q := fst (post_item (fd_fifo_new (A:=Z) 0) 7 t0 t0) in
  let new := snd (fd_fifo_move_end q (fd_fifo_new 0)) in
  count new = 1 ∧ highest_ever new = 0.
Proof. done. Qed.
End Examples.
