(* ===== verification/DictTypes.v ===== *)
(** * The data of the dictionary, and what the messages module needs of it
    ([libfdproto.h], [dictionary.c])

    The data structures of the objects, and the interface [MsgDictionary]: the
    searches that [messages.c] performs.  The clients are proved against the
    interface; [Dict.v] implements it. *)

From stdpp Require Import base list.
From Stdlib Require Import ZArith Lia.
From S2P Require Import Prelude.

(** A pointer to a dictionary object. *)
Abbreviation obj := nat.

Inductive dict_avp_basetype :=
  | AVP_TYPE_GROUPED | AVP_TYPE_OCTETSTRING | AVP_TYPE_INTEGER32 | AVP_TYPE_INTEGER64
  | AVP_TYPE_UNSIGNED32 | AVP_TYPE_UNSIGNED64 | AVP_TYPE_FLOAT32 | AVP_TYPE_FLOAT64.

#[export] Instance dict_avp_basetype_eq_dec : EqDecision dict_avp_basetype.
Proof. solve_decision. Defined.

(** [union avp_value]: an octet string, or the bit pattern of a number. *)
Inductive avp_value := OS (os : bytes) | NUM (bits : Z).

#[export] Instance avp_value_eq_dec : EqDecision avp_value.
Proof. solve_decision. Defined.

Definition AVP_FLAG_VENDOR := 128.
Definition AVP_FLAG_MANDATORY := 64.
Definition CMD_FLAG_REQUEST := 128.
Definition CMD_FLAG_PROXIABLE := 64.
Definition CMD_FLAG_ERROR := 32.
Definition CMD_FLAG_RETRANSMIT := 16.

(** [fl & m], as the condition of an [if]. *)
Definition has (fl m : Z) : bool := bool_decide (Z.land fl m ≠ 0).

Record dict_avp_data := DictAvpData {
  a_code : Z; a_vendor : Z; a_name : bytes; a_flag_mask : Z; a_flag_val : Z;
  a_basetype : dict_avp_basetype }.

Record dict_cmd_data := DictCmdData {
  c_code : Z; c_name : bytes; c_flag_mask : Z; c_flag_val : Z }.

Inductive rule_position := RULE_FIXED_HEAD | RULE_REQUIRED | RULE_OPTIONAL | RULE_FIXED_TAIL.

Record dict_rule_data := DictRuleData {
  rule_avp : obj; rule_pos : rule_position; rule_order : Z; rule_min : Z; rule_max : Z }.

#[export] Instance dict_avp_data_eq_dec : EqDecision dict_avp_data.
Proof. solve_decision. Defined.
#[export] Instance dict_cmd_data_eq_dec : EqDecision dict_cmd_data.
Proof. solve_decision. Defined.
#[export] Instance rule_position_eq_dec : EqDecision rule_position.
Proof. solve_decision. Defined.
#[export] Instance dict_rule_data_eq_dec : EqDecision dict_rule_data.
Proof. solve_decision. Defined.

Inductive dict_object_type :=
  | DICT_VENDOR | DICT_APPLICATION | DICT_TYPE | DICT_ENUMVAL | DICT_AVP | DICT_COMMAND | DICT_RULE.

#[export] Instance dict_object_type_eq_dec : EqDecision dict_object_type.
Proof. solve_decision. Defined.

(** What [messages.c] asks of a dictionary.  The results [None] of the first
    functions stand for an object that is not valid or of another type, for
    which [fd_dict_getval] returns [EINVAL]; the [None] of a search is the
    object [NULL]. *)
Class MsgDictionary (D : Type) := {
  avp_data : D → obj → option dict_avp_data;
  cmd_data : D → obj → option dict_cmd_data;
  (** [AVP_BY_CODE], and [AVP_BY_STRUCT] with a vendor id and a code *)
  avp_by_code : D → Z → res (option obj);
  avp_by_struct : D → Z → Z → res (option obj);
  (** [AVP_BY_NAME] *)
  avp_by_name : D → bytes → res (option obj);
  (** [CMD_BY_CODE_R] (true), [CMD_BY_CODE_A] (false), and [CMD_ANSWER] *)
  cmd_by_code : D → bool → Z → option obj;
  cmd_answer : D → obj → res obj;
  error_cmd : D → obj;
  (** the [type_check] callback of the derived type of an AVP, if any *)
  type_check : D → obj → avp_value → option errno;
  (** the rules of a command or a grouped AVP, in the order of their list *)
  dict_rules : D → obj → res (list dict_rule_data);
  (** the identifier of the application of a command *)
  cmd_application : D → obj → Z }.

(** The laws: a search returns a valid object that has the key, and does not
    crash. *)
Class MsgDictionaryLaws (D : Type) `{!MsgDictionary D} : Prop := {
  avp_by_code_found (d : D) code o :
    avp_by_code d code = Ok (Some o) → ∃ a, avp_data d o = Some a ∧ a_code a = code ∧ a_vendor a = 0;
  avp_by_struct_found (d : D) vendor code o :
    avp_by_struct d vendor code = Ok (Some o) →
    ∃ a, avp_data d o = Some a ∧ a_code a = code ∧ a_vendor a = vendor;
  cmd_by_code_found (d : D) r code o :
    cmd_by_code d r code = Some o →
    ∃ c, cmd_data d o = Some c ∧ c_code c = code ∧ has (c_flag_val c) CMD_FLAG_REQUEST = r;
  avp_by_code_safe (d : D) code : avp_by_code d code ≠ Crash;
  avp_by_struct_safe (d : D) vendor code : avp_by_struct d vendor code ≠ Crash;
  (** the rules of a command, of a grouped AVP and of the error command exist *)
  dict_rules_cmd (d : D) o : is_Some (cmd_data d o) → is_ok (dict_rules d o);
  dict_rules_avp (d : D) o a :
    avp_data d o = Some a → a_basetype a = AVP_TYPE_GROUPED → is_ok (dict_rules d o);
  dict_rules_error (d : D) : is_ok (dict_rules d (error_cmd d)) }.

(** What the dispatch asks of a dictionary: the type of an object that is valid,
    [TYPE_OF_ENUMVAL], [TYPE_OF_AVP], [APPLICATION_BY_ID], and
    [ENUMVAL_BY_STRUCT] with a type and a value. *)
Class DispDictionary (D : Type) := {
  object_type : D → obj → option dict_object_type;
  type_of_enumval : D → obj → option obj;
  type_of_avp : D → obj → option obj;
  application_by_id : D → Z → option obj;
  enumval_by_value : D → obj → avp_value → res (option obj) }.

(** [avp_value_sizes]. *)
Definition avp_value_sizes (t : dict_avp_basetype) : Z :=
  match t with
  | AVP_TYPE_GROUPED | AVP_TYPE_OCTETSTRING => 0
  | AVP_TYPE_INTEGER32 | AVP_TYPE_UNSIGNED32 | AVP_TYPE_FLOAT32 => 4
  | AVP_TYPE_INTEGER64 | AVP_TYPE_UNSIGNED64 | AVP_TYPE_FLOAT64 => 8
  end.

(** ** A small dictionary

    The interface on a list of AVPs and a list of commands: object [i] is the
    [i]-th AVP; the commands follow.  The examples of the client files use it. *)
Module Small.
Record dict := Dict {
  avps : list dict_avp_data; cmds : list dict_cmd_data; rules : obj → list dict_rule_data }.

Definition find_avp (p : dict_avp_data → bool) (d : dict) : option obj := fst <$> list_find p (avps d).

#[export] Instance small_dictionary : MsgDictionary dict := {
  avp_data d o := avps d !! o;
  cmd_data d o := cmds d !! (o - length (avps d))%nat;
  avp_by_code d code := Ok (find_avp (λ a, bool_decide (a_code a = code ∧ a_vendor a = 0)) d);
  avp_by_struct d vendor code :=
    Ok (if decide (vendor = 0 ∨ code = 0) then None else find_avp (λ a, bool_decide (a_code a = code ∧ a_vendor a = vendor)) d);
  avp_by_name d name := Ok (find_avp (λ a, bool_decide (a_name a = name ∧ a_vendor a = 0)) d);
  cmd_by_code d r code :=
    (λ '(i, _), length (avps d) + i)%nat <$>
      list_find (λ c, c_code c = code ∧ has (c_flag_val c) CMD_FLAG_REQUEST = r) (cmds d);
  cmd_answer d o :=
    match cmds d !! (o - length (avps d))%nat with
    | None => Err EINVAL
    | Some c =>
        match list_find (λ c', c_code c' = c_code c ∧ has (c_flag_val c') CMD_FLAG_REQUEST = false) (cmds d) with
        | Some (i, _) => Ok (length (avps d) + i)%nat
        | None => Err ENOENT
        end
    end;
  error_cmd d := length (avps d);
  type_check d o v := None;
  dict_rules d o := Ok (rules d o);
  cmd_application d o := 0 }.

(** Object 100 is the application 0; no AVP has a derived type. *)
#[export] Instance small_disp_dictionary : DispDictionary dict := {
  object_type d o :=
    if decide (o < length (avps d))%nat then Some DICT_AVP
    else if decide (o < length (avps d) + length (cmds d))%nat then Some DICT_COMMAND
    else if decide (o = 100%nat) then Some DICT_APPLICATION else None;
  type_of_enumval d o := None;
  type_of_avp d o := None;
  application_by_id d i := if decide (i = 0) then Some 100%nat else None;
  enumval_by_value d t v := Ok None }.

Lemma find_avp_found p d o : find_avp p d = Some o → ∃ a, avps d !! o = Some a ∧ p a = true.
Proof.
  unfold find_avp. intros ([i a] & (Hi & Ha & _)%list_find_Some & ->)%fmap_Some. exists a.
  split; [done|]. by apply Is_true_eq_true.
Qed.

#[export] Instance small_laws : MsgDictionaryLaws dict.
Proof.
  split; intros d.
  - intros code o [= (a & Ha & ?%bool_decide_eq_true)%find_avp_found]. by exists a.
  - intros vendor code o. cbn [avp_by_struct small_dictionary]. case_decide; [done|].
    intros [= (a & Ha & ?%bool_decide_eq_true)%find_avp_found]. by exists a.
  - intros r code o ([i c] & (Hi & Hc & _)%list_find_Some & ->)%fmap_Some. exists c.
    split; [|done]. simpl. by replace (length (avps d) + i - length (avps d))%nat with i by lia.
  - done.
  - done.
  - intros o _. by eexists.
  - intros o a _ _. by eexists.
  - by eexists.
Qed.

(** Codes and types of the base protocol. *)
Definition base : dict := Dict
  [DictAvpData 263 0 [83; 101; 115; 115; 105; 111; 110; 45; 73; 100] 192 64 AVP_TYPE_OCTETSTRING;
   DictAvpData 268 0 [82] 192 64 AVP_TYPE_UNSIGNED32;
   DictAvpData 260 0 [86] 192 64 AVP_TYPE_GROUPED;
   DictAvpData 266 0 [73] 192 64 AVP_TYPE_UNSIGNED32;
   DictAvpData 1000 10415 [86; 66] 192 192 AVP_TYPE_UNSIGNED64;
   DictAvpData 284 0 [80] 192 64 AVP_TYPE_GROUPED]
  [DictCmdData 257 [67; 82] 224 128; DictCmdData 257 [67; 65] 160 0]
  (λ o, []).
End Small.
