(* ===== verification/Msg.v ===== *)
(** * Messages: objects, tree, lengths ([libfdproto/messages.c])

    A message is a header and a tree of AVPs; the chained lists of children are
    Rocq lists.  The place of an AVP is the path of positions that leads to it
    from the top of its tree.  Memory that the AVP owns (a copied octet string,
    the raw data) is a list of bytes; [source] is the memory from the pointer
    [avp_source] to the end of the buffer it points into. *)

From stdpp Require Import base list.
From Stdlib Require Import ZArith Lia.
From S2P Require Import Prelude DictTypes.

(** ** Objects *)

Record avp_hdr := AvpHdr { avp_code : Z; avp_flags : Z; avp_len : Z; avp_vendor : Z }.

Record msg_hdr := MsgHdr {
  msg_version : Z; msg_length : Z; msg_flags : Z; msg_code : Z;
  msg_appl : Z; msg_hbhid : Z; msg_eteid : Z }.

#[export] Instance avp_hdr_eq_dec : EqDecision avp_hdr.
Proof. solve_decision. Defined.
#[export] Instance msg_hdr_eq_dec : EqDecision msg_hdr.
Proof. solve_decision. Defined.

(** [avp_model_not_found] is a pair (code, vendor); the value is the one
    [avp_public.avp_value] points to. *)
Inductive avp := Avp {
  avp_model : option obj;
  avp_mnf : Z * Z;
  avp_public : avp_hdr;
  avp_val : option avp_value;
  avp_source : option bytes;
  avp_rawdata : option bytes;
  avp_children : list avp }.

(** Induction with the hypothesis for the children. *)
Section avp_ind.
Context (P : avp → Prop) (HP : ∀ m n h v s r l, Forall P l → P (Avp m n h v s r l)).
Fixpoint avp_tree_ind (a : avp) : P a :=
  match a with
  | Avp m n h v s r l =>
      HP m n h v s r l ((fix go (l : list avp) : Forall P l :=
        match l with
        | [] => List.Forall_nil P
        | c :: l => List.Forall_cons P c l (avp_tree_ind c) (go l)
        end) l)
  end.
End avp_ind.

(** The callbacks, the routing data and the session are the concern of other
    components; here they are opaque handles. *)
Record msg_cb := MsgCb {
  anscb : option nat; expirecb : option nat; cb_data : option nat; cb_timeout : Z * Z }.

Record msg := Msg {
  msg_model : option obj;
  msg_mnf : Z * Z;
  msg_public : msg_hdr;
  msg_rawbuffer : option bytes;
  msg_routable : Z;
  msg_query : option nat; msg_associated : bool;
  msg_rtdata : option nat; msg_sess : option nat;
  msg_callbacks : msg_cb;
  msg_src_id : option bytes;
  msg_children : list avp }.

Definition GETAVPHDRSZ (fl : Z) : Z := if has fl AVP_FLAG_VENDOR then 12 else 8.
Definition GETMSGHDRSZ : Z := 20.
Definition DIAMETER_VERSION := 1.

(** [PAD4(x)] for an operand of any unsigned type. *)
Definition PAD4 (x : Z) : Z := x + Z.land (4 - x) 3.

Definition AVPFL_SET_BLANK_VALUE := 1.
Definition AVPFL_SET_RAWDATA_FROM_AVP := 2.
Definition MSGFL_ALLOC_ETEID := 1.
Definition MSGFL_ANSW_ERROR := 2.
Definition MSGFL_ANSW_NOSID := 4.
Definition MSGFL_ANSW_NOPROXYINFO := 8.

Definition CHECK_AVPFL (fl : Z) : bool := bool_decide (Z.land fl (-4) = 0).
Definition CHECK_MSGFL (fl : Z) : bool := bool_decide (Z.land fl (-16) = 0).

Definition init_avp : avp := Avp None (0, 0) (AvpHdr 0 0 0 0) None None None [].

Definition init_msg : msg :=
  Msg None (0, 0) (MsgHdr 0 0 0 0 0 0 0) None 0 None false None None
    (MsgCb None None None (0, 0)) None [].

Section objects.
Context {D : Type} `{!MsgDictionary D} (d : D).

(** [orig] is the AVP [*avp] on entry, of which [AVPFL_SET_RAWDATA_FROM_AVP]
    takes the length.  A blank value is the zeroed storage. *)
Definition fd_msg_avp_new (model : option obj) (flags : Z) (orig : option avp_hdr) : res avp :=
  check CHECK_AVPFL flags in
  let* (m, h) :=
    match model with
    | None => Ok (None, AvpHdr 0 0 0 0)
    | Some o =>
        match avp_data d o with
        | None => Err EINVAL
        | Some data =>
            Ok (Some o, AvpHdr (a_code data) (a_flag_val data)
                          (avp_value_sizes (a_basetype data) + GETAVPHDRSZ (a_flag_val data)) (a_vendor data))
        end
    end in
  let v := if has flags AVPFL_SET_BLANK_VALUE then Some (NUM 0) else None in
  let* raw :=
    if has flags AVPFL_SET_RAWDATA_FROM_AVP then
      match orig with
      | None => Crash
      | Some h =>
          let n := w32 (avp_len h - GETAVPHDRSZ (avp_flags h)) in
          Ok (if decide (n = 0) then None else Some (replicate (Z.to_nat n) 0))
      end
    else Ok None in
  Ok (Avp m (0, 0) h v None raw []).

(** [eteid] is the counter [fd_eteid]; the second result is its new value. *)
Definition fd_msg_eteid_get (eteid : Z) : Z * Z := (eteid, w32 (eteid + 1)).

Definition fd_msg_new (model : option obj) (flags : Z) (eteid : Z) : res (msg * Z) :=
  check CHECK_MSGFL flags in
  let* (m, fl, code, appl) :=
    match model with
    | None => Ok (None, 0, 0, 0)
    | Some o =>
        match cmd_data d o with
        | None => Err EINVAL
        | Some data => Ok (Some o, c_flag_val data, c_code data, cmd_application d o)
        end
    end in
  let '(ete, eteid) := if has flags MSGFL_ALLOC_ETEID then fd_msg_eteid_get eteid else (0, eteid) in
  Ok (Msg m (0, 0) (MsgHdr DIAMETER_VERSION GETMSGHDRSZ fl code appl 0 ete) None 0 None false
        None None (MsgCb None None None (0, 0)) None [], eteid).

(** ** Values *)

(** [value = None] deletes the value. *)
Definition fd_msg_avp_setvalue (a : avp) (value : option avp_value) : res avp :=
  match avp_model a with
  | None => Err EINVAL
  | Some o =>
      match avp_data d o with
      | None => Err EINVAL
      | Some data =>
          check bool_decide (a_basetype data ≠ AVP_TYPE_GROUPED) in
          Ok (Avp (avp_model a) (avp_mnf a) (avp_public a) value (avp_source a) (avp_rawdata a)
                (avp_children a))
      end
  end.

(** ** Lengths *)

(** Another length in the header of an AVP, other children. *)
Definition with_len (n : Z) (a : avp) : avp :=
  let h := avp_public a in
  Avp (avp_model a) (avp_mnf a) (AvpHdr (avp_code h) (avp_flags h) n (avp_vendor h))
    (avp_val a) (avp_source a) (avp_rawdata a) (avp_children a).

Definition with_children (l : list avp) (a : avp) : avp :=
  Avp (avp_model a) (avp_mnf a) (avp_public a) (avp_val a) (avp_source a) (avp_rawdata a) l.

(** "Recurse in all children and update the sz information": the sum of the
    padded sizes, where [PAD4] is computed in [uint32_t]. *)
Definition children_size (sz : Z) (l : list avp) : Z :=
  foldl (λ sz c, sz + w32 (PAD4 (avp_len (avp_public c)))) sz l.

(** [fd_msg_update_length] of an AVP.  An error leaves the children before it
    updated; here the error is all that is returned. *)
Fixpoint update_length_avp (a : avp) : res avp :=
  match a with
  | Avp m n h v s r l =>
      match m with
      | None => Ok a
      | Some o =>
          match avp_data d o with
          | None => Err EINVAL
          | Some data =>
              match a_basetype data with
              | AVP_TYPE_GROUPED =>
                  let* l := mapR update_length_avp l in
                  Ok (with_len (w32 (children_size (GETAVPHDRSZ (avp_flags h)) l)) (Avp m n h v s r l))
              | t =>
                  assert! bool_decide (l = []) in
                  match v with
                  | None => Err EINVAL
                  | Some v' =>
                      let* sz := match t, v' with
                                 | AVP_TYPE_OCTETSTRING, OS os => Ok (zlen os)
                                 | AVP_TYPE_OCTETSTRING, NUM _ => Crash
                                 | _, _ => Ok (avp_value_sizes t)
                                 end in
                      Ok (with_len (w32 (GETAVPHDRSZ (avp_flags h) + sz)) a)
                  end
              end
          end
      end
  end.

Definition with_msg_length (n : Z) (l : list avp) (m : msg) : msg :=
  let h := msg_public m in
  Msg (msg_model m) (msg_mnf m)
    (MsgHdr (msg_version h) n (msg_flags h) (msg_code h) (msg_appl h) (msg_hbhid h) (msg_eteid h))
    (msg_rawbuffer m) (msg_routable m) (msg_query m) (msg_associated m) (msg_rtdata m) (msg_sess m)
    (msg_callbacks m) (msg_src_id m) l.

(** [fd_msg_update_length] of a message. *)
Definition fd_msg_update_length (m : msg) : res msg :=
  let* _ := match msg_model m with
            | None => Ok tt
            | Some o => match cmd_data d o with None => Err EINVAL | Some _ => Ok tt end
            end in
  let* l := mapR update_length_avp (msg_children m) in
  Ok (with_msg_length (w32 (children_size GETMSGHDRSZ l)) l m).

(** ** The tree *)

(** The children of an object of the tree under the top [a]. *)
Fixpoint subtree (a : avp) (path : list nat) : option avp :=
  match path with
  | [] => Some a
  | i :: path => match avp_children a !! i with Some c => subtree c path | None => None end
  end.

Inductive msg_brw_dir :=
  | MSG_BRW_NEXT | MSG_BRW_PREV | MSG_BRW_FIRST_CHILD | MSG_BRW_LAST_CHILD
  | MSG_BRW_PARENT | MSG_BRW_WALK.
End objects.
