(* ===== verification/MsgBuf.v ===== *)
(** * Messages: writing and parsing buffers ([libfdproto/messages.c])

    [fd_msg_bufferize] and [fd_msg_parse_buffer], down to the bytes.  A buffer
    is a list of bytes; an access outside of it is a [Crash].  The buffer and
    the offset are the state that the writing functions thread. *)

From stdpp Require Import base list.
From Stdlib Require Import ZArith Lia.
From S2P Require Import Prelude DictTypes Msg.

(** ** Creating a buffer *)

(** [PUT_in_buf_32], [PUT_in_buf_64]. *)
Definition PUT_in_buf_32 (v off : Z) (buffer : bytes) : res bytes := blit off (be 4 v) buffer.
Definition PUT_in_buf_64 (v off : Z) (buffer : bytes) : res bytes := blit off (be 8 v) buffer.

(** The state: the buffer and [*offset]. *)
Definition wst : Type := bytes * Z.

(** [buffer[*offset] = b]. *)
Definition put_byte (b off : Z) (buffer : bytes) : res bytes := blit off [b] buffer.

Definition bufferize_msg (buflen : Z) (m : msg) (st : wst) : res wst :=
  let '(buffer, offset) := st in
  let h := msg_public m in
  if decide (w64 (buflen - offset) < GETMSGHDRSZ) then Err ENOSPC else
  if decide (Z.land offset 3 ≠ 0) then Err EFAULT else
  let* buffer := PUT_in_buf_32 (msg_length h) offset buffer in
  let* buffer := put_byte (msg_version h) offset buffer in
  let offset := offset + 4 in
  let* buffer := PUT_in_buf_32 (msg_code h) offset buffer in
  let* buffer := put_byte (msg_flags h) offset buffer in
  let offset := offset + 4 in
  let* buffer := PUT_in_buf_32 (msg_appl h) offset buffer in
  let offset := offset + 4 in
  let* buffer := PUT_in_buf_32 (msg_hbhid h) offset buffer in
  let offset := offset + 4 in
  let* buffer := PUT_in_buf_32 (msg_eteid h) offset buffer in
  let offset := offset + 4 in
  Ok (buffer, offset).

Section bufferize.
Context {D : Type} `{!MsgDictionary D} (d : D).

(** "Write the header". *)
Definition bufferize_avp_hdr (h : avp_hdr) (st : wst) : res wst :=
  let '(buffer, offset) := st in
  let* buffer := PUT_in_buf_32 (avp_code h) offset buffer in
  let offset := offset + 4 in
  let* buffer := PUT_in_buf_32 (avp_len h) offset buffer in
  let* buffer := put_byte (avp_flags h) offset buffer in
  let offset := offset + 4 in
  if has (avp_flags h) AVP_FLAG_VENDOR then
    let* buffer := PUT_in_buf_32 (avp_vendor h) offset buffer in Ok (buffer, offset + 4)
  else Ok (buffer, offset).

(** The value of an AVP that is not grouped, by the type of the model. *)
Definition bufferize_value (t : dict_avp_basetype) (v : avp_value) (st : wst) : res wst :=
  let '(buffer, offset) := st in
  match t, v with
  | AVP_TYPE_OCTETSTRING, OS os =>
      let* buffer := if decide (zlen os = 0) then Ok buffer else blit offset os buffer in
      Ok (buffer, offset + PAD4 (zlen os))
  | (AVP_TYPE_INTEGER32 | AVP_TYPE_UNSIGNED32 | AVP_TYPE_FLOAT32), NUM n =>
      let* buffer := PUT_in_buf_32 n offset buffer in Ok (buffer, offset + 4)
  | (AVP_TYPE_INTEGER64 | AVP_TYPE_UNSIGNED64 | AVP_TYPE_FLOAT64), NUM n =>
      let* buffer := PUT_in_buf_64 n offset buffer in Ok (buffer, offset + 8)
  | _, _ => Crash
  end.

Fixpoint bufferize_avp (buflen : Z) (a : avp) (st : wst) : res wst :=
  match a with
  | Avp m _ h v s r l =>
      let '(buffer, offset) := st in
      if decide (w64 (buflen - offset) < avp_len h) then Err ENOSPC else
      let* (buffer, offset) := bufferize_avp_hdr h st in
      match m with
      | None =>
          match r, s with
          | Some raw, _ =>
              let* buffer := blit offset raw buffer in Ok (buffer, offset + PAD4 (zlen raw))
          | None, Some src =>
              let datalen := w32 (avp_len h - GETAVPHDRSZ (avp_flags h)) in
              if decide (zlen src < datalen) then Crash else
              let* buffer := blit offset (take (Z.to_nat datalen) src) buffer in
              Ok (buffer, offset + PAD4 datalen)
          | None, None => Ok (buffer, offset)
          end
      | Some o =>
          match avp_data d o with
          | None => Err EINVAL
          | Some data =>
              match a_basetype data with
              | AVP_TYPE_GROUPED => foldR (bufferize_avp buflen) l (buffer, offset)
              | t => match v with
                     | None => Err EINVAL
                     | Some v => bufferize_value t v (buffer, offset)
                     end
              end
          end
      end
  end.

Definition bufferize_chain (buflen : Z) (l : list avp) (st : wst) : res wst :=
  foldR (bufferize_avp buflen) l st.

(** The buffer, and the message with its lengths updated. *)
Definition fd_msg_bufferize (m : msg) : res (bytes * msg) :=
  let* m := fd_msg_update_length d m in
  let len := msg_length (msg_public m) in
  let buf := replicate (Z.to_nat len) 0 in
  let* st := bufferize_msg len m (buf, 0) in
  let* st := bufferize_chain len (msg_children m) st in
  let '(buf, offset) := st in
  assert! bool_decide (offset = len) in
  Ok (buf, m).
End bufferize.

(** ** Parsing a buffer *)

(** [n] bytes of memory from offset [off], as a number in network byte order. *)
Definition get (n : nat) (off : Z) (buf : bytes) : res Z :=
  if decide (0 ≤ off ∧ off + Z.of_nat n ≤ zlen buf) then
    Ok (unbe (take n (drop (Z.to_nat off) buf)))
  else Crash.

(** The loop of [parsebuf_list]: the AVPs added to the list, and the error that
    ends it if any.  A turn consumes at least 8 bytes, so that [fuel] is enough
    when it is more than the number of bytes left. *)
Fixpoint parsebuf_loop (fuel : nat) (buf : bytes) (buflen offset : Z)
    : res (list avp * option errno) :=
  match fuel with
  | 0%nat => Crash
  | S fuel =>
      if decide (offset < buflen) then
        if decide (w64 (buflen - offset) < 8) then Ok ([], Some EBADMSG) else
        let* code := get 4 offset buf in
        let* flags := get 1 (offset + 4) buf in
        let* b5 := get 1 (offset + 5) buf in
        let* b6 := get 1 (offset + 6) buf in
        let* b7 := get 1 (offset + 7) buf in
        let len := Z.lor (Z.lor (Z.shiftl b5 16) (Z.shiftl b6 8)) b7 in
        let offset := offset + 8 in
        let vend := has flags AVP_FLAG_VENDOR in
        if vend && bool_decide (w64 (buflen - offset) < 4) then Ok ([], Some EBADMSG) else
        let* vendor := if vend then get 4 offset buf else Ok 0 in
        let offset := if vend then offset + 4 else offset in
        let hdrsz := GETAVPHDRSZ flags in
        if decide (len < hdrsz) then Ok ([], Some EBADMSG) else
        if decide (len > hdrsz ∧ w64 (buflen - offset) < w32 (len - hdrsz)) then Ok ([], Some EBADMSG) else
        let a := Avp None (0, 0) (AvpHdr code flags len vendor) None
                   (Some (drop (Z.to_nat offset) buf)) None [] in
        let* (l, e) := parsebuf_loop fuel buf buflen (offset + w32 (PAD4 (w32 (len - hdrsz)))) in
        Ok (a :: l, e)
      else Ok ([], None)
  end.

Definition parsebuf_list (buf : bytes) (buflen : Z) : res (list avp * option errno) :=
  parsebuf_loop (S (Z.to_nat buflen)) buf buflen 0.

(** [buf] is the memory at [*buffer], which becomes the raw buffer of the
    message. *)
Definition fd_msg_parse_buffer (buf : bytes) (buflen : Z) : res msg :=
  check bool_decide (GETMSGHDRSZ ≤ buflen) in
  let* version := get 1 0 buf in
  if decide (version ≠ DIAMETER_VERSION) then Err EBADMSG else
  let* w := get 4 0 buf in
  let msglen := Z.land w 16777215 in
  if decide (buflen < msglen) then Err EBADMSG else
  if decide (msglen < GETMSGHDRSZ) then Err EBADMSG else
  let* flags := get 1 4 buf in
  let* w := get 4 4 buf in
  let code := Z.land w 16777215 in
  let* appl := get 4 8 buf in
  let* hbhid := get 4 12 buf in
  let* eteid := get 4 16 buf in
  let* (l, e) := parsebuf_list (drop 20 buf) (buflen - GETMSGHDRSZ) in
  match e with Some e => Err e | None =>
  Ok (Msg None (0, 0) (MsgHdr version msglen flags code appl hbhid eteid) (Some buf) 0 None false
        None None (MsgCb None None None (0, 0)) None l)
  end.

(** ** The encoding as a function of the tree *)

Lemma PAD4_mod x : PAD4 x = x + (4 - x) mod 4.
Proof. unfold PAD4. f_equal. by apply (land_ones_mod (4 - x) 2). Qed.

Ltac pad_lia := rewrite ?PAD4_mod in *; Z.to_euclidean_division_equations; lia.

Definition pad (l : bytes) : bytes := l ++ replicate (Z.to_nat (PAD4 (zlen l) - zlen l)) 0.

Lemma zlen_replicate {A} n (x : A) : zlen (replicate n x) = Z.of_nat n.
Proof. unfold zlen. by rewrite length_replicate. Qed.

Lemma zlen_pad l : zlen (pad l) = PAD4 (zlen l).
Proof. unfold pad. rewrite zlen_app, zlen_replicate. pose proof (zlen_nonneg l). pad_lia. Qed.

Lemma GETAVPHDRSZ_range fl : GETAVPHDRSZ fl = 8 ∨ GETAVPHDRSZ fl = 12.
Proof. unfold GETAVPHDRSZ. destruct (has fl AVP_FLAG_VENDOR); auto. Qed.

Definition hdr_bytes (h : avp_hdr) (len : Z) : bytes :=
  be 4 (avp_code h) ++ avp_flags h :: be 3 len ++
  (if has (avp_flags h) AVP_FLAG_VENDOR then be 4 (avp_vendor h) else []).

Lemma zlen_hdr_bytes h len : zlen (hdr_bytes h len) = GETAVPHDRSZ (avp_flags h).
Proof.
  unfold hdr_bytes, GETAVPHDRSZ. rewrite !zlen_app, zlen_cons, zlen_app, !zlen_be.
  destruct (has _ _); rewrite ?zlen_be, ?zlen_nil; lia.
Qed.

Section encoding.
Context {D : Type} `{!MsgDictionary D} (d : D).

Definition value_size (t : dict_avp_basetype) (v : avp_value) : Z :=
  match t, v with
  | AVP_TYPE_OCTETSTRING, OS os => zlen os
  | _, _ => avp_value_sizes t
  end.

(** The size of an AVP, without wrap-around. *)
Fixpoint avp_size (a : avp) : Z :=
  match a with
  | Avp m _ h v _ _ l =>
      match m with
      | None => avp_len h
      | Some o =>
          match avp_data d o with
          | None => 0
          | Some data =>
              GETAVPHDRSZ (avp_flags h) +
              match a_basetype data, v with
              | AVP_TYPE_GROUPED, _ => foldr (λ c sz, PAD4 (avp_size c) + sz) 0 l
              | t, Some v => value_size t v
              | t, None => 0
              end
          end
      end
  end.

Definition chain_size (l : list avp) : Z := foldr (λ c sz, PAD4 (avp_size c) + sz) 0 l.

(** A value that suits the type. *)
Definition value_ok (t : dict_avp_basetype) (v : option avp_value) : bool :=
  match t, v with
  | AVP_TYPE_OCTETSTRING, Some (OS _) => true
  | (AVP_TYPE_INTEGER32 | AVP_TYPE_UNSIGNED32 | AVP_TYPE_FLOAT32), Some (NUM _) => true
  | (AVP_TYPE_INTEGER64 | AVP_TYPE_UNSIGNED64 | AVP_TYPE_FLOAT64), Some (NUM _) => true
  | _, _ => false
  end.

(** A tree that can be written: the models are valid, the values suit them, and
    the length of an AVP without a model is the one of its data. *)
Fixpoint typed (a : avp) : bool :=
  match a with
  | Avp m _ h v s r l =>
      match m with
      | None =>
          bool_decide (l = []) &&
          match r, s with
          | Some raw, _ => bool_decide (avp_len h = GETAVPHDRSZ (avp_flags h) + zlen raw)
          | None, Some src =>
              bool_decide (GETAVPHDRSZ (avp_flags h) ≤ avp_len h) &&
              bool_decide (avp_len h ≤ GETAVPHDRSZ (avp_flags h) + zlen src)
          | None, None => bool_decide (avp_len h = GETAVPHDRSZ (avp_flags h))
          end
      | Some o =>
          match avp_data d o with
          | None => false
          | Some data =>
              match a_basetype data with
              | AVP_TYPE_GROUPED => forallb typed l
              | t => bool_decide (l = []) && value_ok t v
              end
          end
      end
  end.

Definition value_bytes (t : dict_avp_basetype) (v : avp_value) : bytes :=
  match v with
  | OS os => os
  | NUM n => be (Z.to_nat (avp_value_sizes t)) n
  end.

(** The data of an AVP without a model. *)
Definition raw_bytes (h : avp_hdr) (s r : option bytes) : bytes :=
  match r, s with
  | Some raw, _ => raw
  | None, Some src => take (Z.to_nat (avp_len h - GETAVPHDRSZ (avp_flags h))) src
  | None, None => []
  end.

Fixpoint enc_avp (a : avp) : bytes :=
  match a with
  | Avp m _ h v s r l =>
      hdr_bytes h (avp_size a) ++
      match m with
      | None => pad (raw_bytes h s r)
      | Some o =>
          match avp_data d o, v with
          | Some data, _ =>
              match a_basetype data, v with
              | AVP_TYPE_GROUPED, _ => flat_map enc_avp l
              | t, Some v => pad (value_bytes t v)
              | t, None => []
              end
          | None, _ => []
          end
      end
  end.

Definition enc_chain (l : list avp) : bytes := flat_map enc_avp l.

(** The tree with its lengths. *)
Fixpoint resize (a : avp) : avp :=
  match a with
  | Avp m n h v s r l =>
      with_len (avp_size a) (Avp m n h v s r (match m with None => l | Some _ => map resize l end))
  end.

Lemma PAD4_ge x : x ≤ PAD4 x.
Proof. pad_lia. Qed.
Lemma PAD4_aligned x : x mod 4 = 0 → PAD4 x = x.
Proof. pad_lia. Qed.
Lemma PAD4_mod4 x : PAD4 x mod 4 = 0.
Proof. pad_lia. Qed.

Lemma value_bytes_size t v : value_ok t (Some v) = true → zlen (value_bytes t v) = value_size t v.
Proof. destruct t, v; try done; intros _; cbn [value_bytes]; by rewrite ?zlen_be. Qed.

Lemma value_size_nonneg t v : 0 ≤ value_size t v.
Proof. destruct t, v; simpl; try lia; apply zlen_nonneg. Qed.

Lemma chain_size_nonneg l : Forall (λ a, 0 ≤ avp_size a) l → 0 ≤ chain_size l.
Proof. induction 1 as [|a l Ha _ IH]; unfold chain_size in *; simpl; [lia|]. pose proof (PAD4_ge (avp_size a)). lia. Qed.

Lemma chain_size_aligned l : chain_size l mod 4 = 0.
Proof.
  induction l as [|a l IH]; [done|]. simpl. fold (chain_size l).
  rewrite Z.add_mod, IH, PAD4_mod4 by done. done.
Qed.

Lemma raw_bytes_size m n h v s r l :
  m = None → typed (Avp m n h v s r l) = true →
  zlen (raw_bytes h s r) = avp_len h - GETAVPHDRSZ (avp_flags h).
Proof.
  intros -> [_ Ht]%andb_prop. unfold raw_bytes. destruct r, s; try apply andb_prop in Ht as [H1 H2];
    repeat match goal with H : bool_decide _ = true |- _ => apply bool_decide_eq_true in H end;
    try (unfold zlen in *; rewrite length_take; lia); rewrite ?zlen_nil; lia.
Qed.

Lemma typed_size_nonneg a : typed a = true → 0 ≤ avp_size a.
Proof.
  induction a as [m n h v s r l IH] using avp_tree_ind. cbn [typed avp_size].
  pose proof (GETAVPHDRSZ_range (avp_flags h)).
  destruct m as [o|].
  - destruct (avp_data d o) as [data|]; [|lia].
    destruct (a_basetype data); intros Ht; try (destruct v as [v|]; [|lia];
      match goal with |- context [value_size ?t v] => pose proof (value_size_nonneg t v) end; lia).
    rewrite forallb_forall in Ht.
    enough (0 ≤ chain_size l) by (unfold chain_size in *; lia).
    apply chain_size_nonneg. rewrite Forall_forall in *. intros a Ha. apply IH; [done|].
    apply Ht. by apply list_elem_of_In.
  - intros Ht. pose proof (raw_bytes_size None n h v s r l eq_refl Ht).
    pose proof (zlen_nonneg (raw_bytes h s r)). lia.
Qed.

Lemma zlen_enc_chain l :
  Forall (λ a, zlen (enc_avp a) = PAD4 (avp_size a)) l → zlen (enc_chain l) = chain_size l.
Proof.
  induction 1 as [|a l Ha _ IH]; [done|]. cbn [enc_chain flat_map]. rewrite zlen_app, Ha. simpl.
  unfold chain_size, enc_chain in IH. rewrite IH. done.
Qed.

Lemma zlen_enc a : typed a = true → zlen (enc_avp a) = PAD4 (avp_size a).
Proof.
  induction a as [m n h v s r l IH] using avp_tree_ind. intros Ht.
  cbn [enc_avp]. rewrite zlen_app, zlen_hdr_bytes. pose proof (GETAVPHDRSZ_range (avp_flags h)) as Hh.
  destruct m as [o|].
  - cbn [typed avp_size] in *. destruct (avp_data d o) as [data|]; [|done].
    destruct (a_basetype data) eqn:Et.
    1: { rewrite forallb_forall in Ht. fold (enc_chain l). fold (chain_size l).
         rewrite zlen_enc_chain.
         - rewrite PAD4_aligned; [done|]. rewrite Z.add_mod, chain_size_aligned by done. destruct Hh as [->| ->]; done.
         - rewrite Forall_forall in *. intros a Ha. apply IH; [done|]. apply Ht. by apply list_elem_of_In. }
    all: apply andb_prop in Ht as [_ Ht]; destruct v as [v|]; [|done];
      rewrite zlen_pad, (value_bytes_size _ _ Ht); destruct Hh as [->| ->]; pad_lia.
  - pose proof (raw_bytes_size None n h v s r l eq_refl Ht) as Hr. rewrite zlen_pad, Hr. cbn [avp_size].
    destruct Hh as [->| ->]; pad_lia.
Qed.

(** ** Updating the lengths *)

Lemma resize_len a : avp_len (avp_public (resize a)) = avp_size a.
Proof. by destruct a. Qed.

Lemma children_size_chain sz l :
  Forall (λ a, 0 ≤ PAD4 (avp_size a) < 2 ^ 32) l →
  children_size sz (map resize l) = sz + chain_size l.
Proof.
  intros Hl. revert sz. induction Hl as [|a l Ha _ IH]; intros sz; unfold children_size, chain_size in *.
  - simpl. lia.
  - cbn [map foldl foldr]. rewrite resize_len, IH, (w32_small (PAD4 (avp_size a))) by done. lia.
Qed.

Lemma chain_size_bound l a :
  Forall (λ a, 0 ≤ avp_size a) l → a ∈ l → PAD4 (avp_size a) ≤ chain_size l.
Proof.
  intros Hl Ha. induction Hl as [|b l Hb Hl IH]; [by apply elem_of_nil in Ha|].
  pose proof (chain_size_nonneg l Hl). pose proof (PAD4_ge (avp_size b)).
  unfold chain_size in *. simpl. apply elem_of_cons in Ha as [->|Ha]; [lia|]. specialize (IH Ha). lia.
Qed.

Lemma typed_chain_nonneg l : forallb typed l = true → Forall (λ a, 0 ≤ avp_size a) l.
Proof.
  rewrite forallb_forall. intros Ht. apply Forall_forall. intros a Ha. apply typed_size_nonneg, Ht.
  by apply list_elem_of_In.
Qed.

Lemma chain_small l B :
  forallb typed l = true → chain_size l < B → Forall (λ a, 0 ≤ PAD4 (avp_size a) < B) l.
Proof.
  intros Ht HB. pose proof (typed_chain_nonneg l Ht) as Hn. apply Forall_forall. intros a Ha.
  pose proof (chain_size_bound l a Hn Ha). rewrite Forall_forall in Hn. specialize (Hn a Ha).
  pose proof (PAD4_ge (avp_size a)). lia.
Qed.

Lemma mapR_resize l :
  Forall (λ a, update_length_avp d a = Ok (resize a)) l →
  mapR (update_length_avp d) l = Ok (map resize l).
Proof. intros Hl. apply mapR_ok. induction Hl; simpl; by constructor. Qed.

Lemma update_length_resize a :
  typed a = true → avp_size a < 2 ^ 32 → update_length_avp d a = Ok (resize a).
Proof.
  induction a as [m n h v s r l IH] using avp_tree_ind. intros Ht Hsz.
  pose proof (typed_size_nonneg _ Ht) as Hnn. destruct m as [o|]; cbn [update_length_avp].
  2: { destruct h. cbn [resize]. unfold with_len. cbn. done. }
  cbn [typed avp_size resize] in *. destruct (avp_data d o) as [data|]; [|done].
  pose proof (GETAVPHDRSZ_range (avp_flags h)) as Hh. destruct (a_basetype data) eqn:Et.
  1: { fold (chain_size l) in *. pose proof (typed_chain_nonneg l Ht) as Hn.
       rewrite mapR_resize.
       - cbn [res_bind]. unfold with_len. cbn. rewrite children_size_chain.
         + rewrite w32_small by lia. done.
         + apply chain_small; [done|lia].
       - rewrite Forall_forall in *. intros a Ha. pose proof (chain_size_bound l a (typed_chain_nonneg l Ht) Ha).
         pose proof (PAD4_ge (avp_size a)). apply IH; [done| |lia].
         rewrite forallb_forall in Ht. apply Ht. by apply list_elem_of_In. }
  all: apply andb_prop in Ht as [Hl Ht]; rewrite Hl; apply bool_decide_eq_true in Hl as ->;
    destruct v as [[os|z]|]; try done.
  all: cbn [res_bind value_size] in *; rewrite w32_small by lia; by destruct h.
Qed.

(** ** Writing *)

(** The state after [pre] has been written to a zeroed buffer. *)
Definition written (pre : bytes) (n : Z) : wst := (pre ++ replicate (Z.to_nat n) 0, zlen pre).

(** [f] writes [data] at the offset. *)
Definition writes (buflen : Z) (f : wst → res wst) (data : bytes) : Prop :=
  ∀ pre n, zlen pre + n = buflen → zlen data ≤ n → f (written pre n) = Ok (written (pre ++ data) (n - zlen data)).

Lemma blit_zeros pre n data :
  zlen data ≤ n → blit (zlen pre) data (pre ++ replicate (Z.to_nat n) 0) =
    Ok ((pre ++ data) ++ replicate (Z.to_nat (n - zlen data)) 0).
Proof.
  intros Hn. pose proof (zlen_nonneg data).
  replace (Z.to_nat n) with (length data + Z.to_nat (n - zlen data))%nat by (unfold zlen in *; lia).
  rewrite replicate_add, blit_app by (by rewrite length_replicate). by rewrite <- app_assoc.
Qed.

Lemma writes_foldr buflen {A} (f : A → wst → res wst) (enc : A → bytes) l :
  Forall (λ a, writes buflen (f a) (enc a)) l → writes buflen (foldR f l) (flat_map enc l).
Proof.
  induction 1 as [|a l Ha _ IH]; intros pre n Hn Hd; cbn [foldR flat_map] in *.
  - by rewrite zlen_nil, app_nil_r, Z.sub_0_r.
  - rewrite zlen_app in *. pose proof (zlen_nonneg (flat_map enc l)).
    rewrite (Ha pre n Hn) by lia. cbn [res_bind].
    rewrite IH by (rewrite ?zlen_app; lia). by rewrite <- app_assoc, Z.sub_add_distr.
Qed.

Lemma be_4 v : be 4 v = (v / 2 ^ 24) mod 256 :: be 3 v.
Proof. done. Qed.

Lemma put_hdr_word pre n v b :
  4 ≤ n →
  (let* buffer := PUT_in_buf_32 v (zlen pre) (pre ++ replicate (Z.to_nat n) 0) in
   put_byte b (zlen pre) buffer) =
  Ok ((pre ++ b :: be 3 v) ++ replicate (Z.to_nat (n - 4)) 0).
Proof.
  intros Hn. unfold PUT_in_buf_32, put_byte. rewrite blit_zeros by (rewrite zlen_be; lia).
  cbn [res_bind]. rewrite be_4, <- !app_assoc, <- app_comm_cons, zlen_cons, zlen_be.
  change ((v / 2 ^ 24) mod 256 :: be 3 v ++ ?x) with ([(v / 2 ^ 24) mod 256] ++ be 3 v ++ x).
  rewrite blit_app by done. simpl. do 3 f_equal.
Qed.

Lemma writes_put32 pre n v :
  4 ≤ n → PUT_in_buf_32 v (zlen pre) (pre ++ replicate (Z.to_nat n) 0) =
    Ok ((pre ++ be 4 v) ++ replicate (Z.to_nat (n - 4)) 0).
Proof. intros Hn. unfold PUT_in_buf_32. by rewrite blit_zeros, zlen_be by (rewrite zlen_be; lia). Qed.

Lemma bufferize_hdr_writes buflen h len :
  avp_len h = len → writes buflen (bufferize_avp_hdr h) (hdr_bytes h len).
Proof.
  intros <- pre n Hn Hd. rewrite zlen_hdr_bytes in *. unfold bufferize_avp_hdr, written, hdr_bytes, GETAVPHDRSZ in *.
  rewrite writes_put32 by (destruct (has _ _); lia). cbn [res_bind].
  replace (zlen pre + 4) with (zlen (pre ++ be 4 (avp_code h))) by (rewrite zlen_app, zlen_be; lia).
  rewrite <- res_bind_assoc. rewrite put_hdr_word by (destruct (has _ _); lia). cbn [res_bind].
  set (pre2 := (pre ++ be 4 (avp_code h)) ++ avp_flags h :: be 3 (avp_len h)).
  replace (zlen (pre ++ be 4 (avp_code h)) + 4) with (zlen pre2)
    by (unfold pre2; rewrite !zlen_app, zlen_cons, !zlen_be; lia).
  destruct (has (avp_flags h) AVP_FLAG_VENDOR).
  - rewrite writes_put32 by lia. cbn [res_bind]. unfold pre2.
    replace (n - 4 - 4 - 4) with (n - 12) by lia. rewrite <- !app_assoc. cbn [app]. rewrite <- !app_assoc.
    do 2 f_equal. autorewrite with fd_len. rewrite !zlen_be. lia.
  - unfold pre2. replace (n - 4 - 4) with (n - 8) by lia. by rewrite app_nil_r, <- !app_assoc.
Qed.

Lemma pad_zeros pre n data :
  PAD4 (zlen data) ≤ n →
  (pre ++ data) ++ replicate (Z.to_nat (n - zlen data)) 0 =
  (pre ++ pad data) ++ replicate (Z.to_nat (n - zlen (pad data))) 0.
Proof.
  intros Hn. rewrite zlen_pad. unfold pad. rewrite <- !app_assoc, <- replicate_add.
  do 2 f_equal. pose proof (PAD4_ge (zlen data)). f_equal. lia.
Qed.

(** Writing the data of an AVP, and skipping its padding. *)
Lemma blit_pad_writes pre n data :
  PAD4 (zlen data) ≤ n →
  (let* buffer := blit (zlen pre) data (pre ++ replicate (Z.to_nat n) 0) in
   Ok (buffer, zlen pre + PAD4 (zlen data))) = Ok (written (pre ++ pad data) (n - zlen (pad data))).
Proof.
  intros Hn. pose proof (PAD4_ge (zlen data)). rewrite blit_zeros by lia. cbn [res_bind].
  unfold written. rewrite pad_zeros, zlen_app, !zlen_pad by done. done.
Qed.

Lemma pad_be n v : (n = 4 ∨ n = 8)%nat → pad (be n v) = be n v.
Proof. intros [->| ->]; unfold pad; rewrite zlen_be; by rewrite app_nil_r. Qed.

Lemma bufferize_value_writes buflen t v :
  value_ok t (Some v) = true → writes buflen (bufferize_value t v) (pad (value_bytes t v)).
Proof.
  intros Ht pre n Hn Hd. rewrite zlen_pad in Hd. unfold written at 1.
  destruct t, v as [os|z]; try done; cbn [value_bytes avp_value_sizes] in *; unfold bufferize_value.
  1: { rewrite <- blit_pad_writes by done. case_decide as E; [|done].
       destruct os as [|b os]; [|rewrite zlen_cons in E; pose proof (zlen_nonneg os); lia].
       pose proof (blit_app pre [] [] (replicate (Z.to_nat n) 0) eq_refl) as Hb. simpl app in Hb. by rewrite Hb. }
  all: rewrite zlen_be in Hd; unfold PUT_in_buf_32, PUT_in_buf_64.
  all: match goal with |- context [blit _ (be ?k _)] =>
    pose proof (blit_pad_writes pre n (be k z)) as Hb; rewrite zlen_be in Hb end.
  all: apply Hb; exact Hd.
Qed.

Lemma writes_seq buflen f g data1 data2 pre n :
  zlen pre + n = buflen → zlen (data1 ++ data2) ≤ n →
  writes buflen f data1 →
  (zlen data2 ≤ n - zlen data1 → g (written (pre ++ data1) (n - zlen data1)) =
     Ok (written ((pre ++ data1) ++ data2) (n - zlen data1 - zlen data2))) →
  (let* st := f (written pre n) in g st) =
  Ok (written (pre ++ data1 ++ data2) (n - zlen (data1 ++ data2))).
Proof.
  rewrite zlen_app. intros Hn Hd Hf Hg. pose proof (zlen_nonneg data2). rewrite Hf by lia. cbn [res_bind].
  rewrite Hg by lia. by rewrite <- app_assoc, Z.sub_add_distr.
Qed.

(** The data of an AVP without a model. *)
Lemma bufferize_raw_writes n0 h v s r l pre n :
  typed (Avp None n0 h v s r l) = true → avp_len h < 2 ^ 32 →
  zlen (pad (raw_bytes h s r)) ≤ n →
  match r, s with
  | Some raw, _ =>
      let* buffer := blit (zlen pre) raw (pre ++ replicate (Z.to_nat n) 0) in
      Ok (buffer, zlen pre + PAD4 (zlen raw))
  | None, Some src =>
      let datalen := w32 (avp_len h - GETAVPHDRSZ (avp_flags h)) in
      if decide (zlen src < datalen) then Crash else
      let* buffer := blit (zlen pre) (take (Z.to_nat datalen) src) (pre ++ replicate (Z.to_nat n) 0) in
      Ok (buffer, zlen pre + PAD4 datalen)
  | None, None => Ok (pre ++ replicate (Z.to_nat n) 0, zlen pre)
  end = Ok (written (pre ++ pad (raw_bytes h s r)) (n - zlen (pad (raw_bytes h s r)))).
Proof.
  intros Ht Hlen Hd. pose proof (raw_bytes_size None n0 h v s r l eq_refl Ht) as Hsz.
  pose proof (GETAVPHDRSZ_range (avp_flags h)). rewrite zlen_pad in Hd.
  destruct r as [raw|]; [by apply blit_pad_writes|]. destruct s as [src|].
  - cbn [raw_bytes] in *. pose proof (zlen_nonneg (take (Z.to_nat (avp_len h - GETAVPHDRSZ (avp_flags h))) src)).
    cbv zeta. rewrite w32_small by lia. rewrite decide_False.
    + set (dd := take _ src) in *. rewrite <- Hsz. by apply blit_pad_writes.
    + rewrite <- Hsz. unfold zlen. rewrite length_take. lia.
  - change (pad (raw_bytes h None None)) with (@nil Z). rewrite app_nil_r. unfold written.
    replace (n - zlen (@nil Z)) with n by (unfold zlen; simpl; lia). done.
Qed.

Lemma bufferize_avp_writes buflen a :
  typed a = true → avp_size a < 2 ^ 32 → buflen < 2 ^ 64 →
  writes buflen (bufferize_avp d buflen (resize a)) (enc_avp a).
Proof.
  intros Ht Hsz Hbl. revert Ht Hsz.
  induction a as [m n0 h v s r l IH] using avp_tree_ind. intros Ht Hsz pre n Hn Hd.
  pose proof (typed_size_nonneg _ Ht) as Hnn. pose proof (zlen_enc _ Ht) as Henc.
  pose proof (PAD4_ge (avp_size (Avp m n0 h v s r l))). pose proof (zlen_nonneg pre).
  cbn [resize]. unfold with_len. cbn [avp_public avp_model avp_mnf avp_val avp_source avp_rawdata avp_children].
  cbn [bufferize_avp]. unfold written at 1. cbn [avp_len].
  rewrite decide_False by (unfold w64; rewrite Z.mod_small by lia; lia).
  fold (written pre n). cbn [enc_avp avp_flags] in *.
  set (sz := avp_size (Avp m n0 h v s r l)) in *. set (h' := AvpHdr (avp_code h) (avp_flags h) sz (avp_vendor h)).
  match goal with |- (let* x := _ in @?g x) = _ =>
    apply (writes_seq buflen (bufferize_avp_hdr h') g (hdr_bytes h sz)) end;
    [done|done|exact (bufferize_hdr_writes buflen h' sz eq_refl)|].
  intros Hd2. set (pre2 := pre ++ hdr_bytes h _) in *. rewrite zlen_hdr_bytes in *.
  set (n2 := n - GETAVPHDRSZ (avp_flags h)) in *. unfold written at 1.
  assert (zlen pre2 + n2 = buflen) as Hn2 by (unfold pre2, n2; rewrite zlen_app, zlen_hdr_bytes; lia).
  destruct m as [o|]; [|by apply (bufferize_raw_writes n0 h v s r l)].
  unfold sz in Hsz. cbn [typed avp_size] in Ht, Hsz. destruct (avp_data d o) as [data|]; [|done].
  pose proof (GETAVPHDRSZ_range (avp_flags h)).
  destruct (a_basetype data) eqn:Et.
  1: { fold (chain_size l) in *. pose proof (chain_small l (2 ^ 32) Ht) as Hsm.
       assert (writes buflen (foldR (bufferize_avp d buflen) (map resize l)) (flat_map enc_avp l)) as Hw; [|by apply Hw].
       intros p k Hp Hk. rewrite foldR_map. revert p k Hp Hk. apply writes_foldr.
       rewrite Forall_forall in *. intros a Ha. apply IH; [done| |].
       - rewrite forallb_forall in Ht. apply Ht. by apply list_elem_of_In.
       - specialize (Hsm ltac:(lia) a Ha). pose proof (PAD4_ge (avp_size a)). lia. }
  all: apply andb_prop in Ht as [_ Ht]; destruct v as [v|]; [|done]; by apply (bufferize_value_writes buflen).
Qed.

(** ** The whole message *)

Definition msg_size (m : msg) : Z := GETMSGHDRSZ + chain_size (msg_children m).

Definition msg_typed (m : msg) : bool :=
  match msg_model m with Some o => bool_decide (is_Some (cmd_data d o)) | None => true end &&
  forallb typed (msg_children m).

Definition msg_hdr_bytes (h : msg_hdr) (len : Z) : bytes :=
  (msg_version h :: be 3 len) ++ (msg_flags h :: be 3 (msg_code h)) ++
  be 4 (msg_appl h) ++ be 4 (msg_hbhid h) ++ be 4 (msg_eteid h).

Definition enc_msg (m : msg) : bytes :=
  msg_hdr_bytes (msg_public m) (msg_size m) ++ enc_chain (msg_children m).

Definition resize_msg (m : msg) : msg := with_msg_length (msg_size m) (map resize (msg_children m)) m.

Lemma update_length_msg m :
  msg_typed m = true → msg_size m < 2 ^ 32 → fd_msg_update_length d m = Ok (resize_msg m).
Proof.
  intros [Hm Ht]%andb_prop Hsz. unfold fd_msg_update_length, resize_msg, msg_size, GETMSGHDRSZ in *.
  pose proof (typed_chain_nonneg _ Ht) as Hn. pose proof (chain_size_nonneg _ Hn).
  pose proof (chain_small _ (2 ^ 32) Ht ltac:(lia)) as Hsm.
  assert (match msg_model m with None => Ok tt | Some o =>
    match cmd_data d o with None => Err EINVAL | Some _ => Ok tt end end = Ok tt) as ->.
  { destruct (msg_model m) as [o|]; [|done]. apply bool_decide_eq_true in Hm as [c ->]. done. }
  cbn [res_bind]. rewrite mapR_resize.
  - cbn [res_bind]. rewrite children_size_chain by done. rewrite w32_small by lia. done.
  - rewrite Forall_forall in *. intros a Ha. apply update_length_resize.
    + rewrite forallb_forall in Ht. apply Ht. by apply list_elem_of_In.
    + specialize (Hsm a Ha). pose proof (PAD4_ge (avp_size a)). lia.
Qed.

Lemma zlen_enc_msg m : msg_typed m = true → zlen (enc_msg m) = msg_size m.
Proof.
  intros [_ Ht]%andb_prop. unfold enc_msg, msg_hdr_bytes, msg_size. rewrite zlen_app, zlen_enc_chain.
  - autorewrite with fd_len. rewrite !zlen_be. unfold GETMSGHDRSZ. lia.
  - apply Forall_forall. intros a Ha. apply zlen_enc. rewrite forallb_forall in Ht. apply Ht. by apply list_elem_of_In.
Qed.

Lemma bufferize_msg_writes m n buflen :
  20 ≤ n → n = buflen → buflen < 2 ^ 64 →
  bufferize_msg buflen m (written [] n) =
    Ok (written (msg_hdr_bytes (msg_public m) (msg_length (msg_public m))) (n - 20)).
Proof.
  intros Hn -> Hb. unfold bufferize_msg, written. rewrite zlen_nil.
  rewrite decide_False by (unfold w64, GETMSGHDRSZ; rewrite Z.mod_small by lia; lia).
  rewrite decide_False by (intros E; by apply E). set (h := msg_public m).
  assert (∀ pre off k v b, off = zlen pre → 4 ≤ k →
    (let* buffer := PUT_in_buf_32 v off (pre ++ replicate (Z.to_nat k) 0) in put_byte b off buffer) =
    Ok ((pre ++ b :: be 3 v) ++ replicate (Z.to_nat (k - 4)) 0)) as Hword by (intros ? ? ? ? ? ->; apply put_hdr_word).
  assert (∀ pre off k v, off = zlen pre → 4 ≤ k → PUT_in_buf_32 v off (pre ++ replicate (Z.to_nat k) 0) =
    Ok ((pre ++ be 4 v) ++ replicate (Z.to_nat (k - 4)) 0)) as Hput by (intros ? ? ? ? ->; apply writes_put32).
  rewrite <- res_bind_assoc, (Hword [] 0) by (done || lia). cbn [res_bind]. rewrite app_nil_l.
  set (p1 := msg_version h :: be 3 (msg_length h)).
  assert (zlen p1 = 4) as E1 by (unfold p1; rewrite zlen_cons, zlen_be; lia).
  rewrite <- res_bind_assoc, (Hword p1) by lia. cbn [res_bind].
  set (p2 := p1 ++ _). assert (zlen p2 = 8) as E2 by (unfold p2; rewrite zlen_app, zlen_cons, zlen_be; lia).
  rewrite (Hput p2) by lia. cbn [res_bind].
  rewrite (Hput (p2 ++ _)) by (rewrite ?zlen_app, ?zlen_be; lia). cbn [res_bind].
  rewrite (Hput ((p2 ++ _) ++ _)) by (rewrite ?zlen_app, ?zlen_be; lia). cbn [res_bind].
  unfold p2, p1, msg_hdr_bytes. replace (buflen - 4 - 4 - 4 - 4 - 4) with (buflen - 20) by lia.
  cbn [app]. rewrite <- !app_assoc. cbn [app]. rewrite <- ?app_assoc. do 2 f_equal.
Qed.

Lemma bufferize_enc m :
  msg_typed m = true → msg_size m < 2 ^ 32 →
  fd_msg_bufferize d m = Ok (enc_msg m, resize_msg m) ∧ zlen (enc_msg m) = msg_size m.
Proof.
  intros Ht Hsz. split; [|by apply zlen_enc_msg]. unfold fd_msg_bufferize.
  rewrite update_length_msg by done. cbn [res_bind].
  change (msg_length (msg_public (resize_msg m))) with (msg_size m).
  pose proof (proj2 (andb_prop _ _ Ht)) as Hc. pose proof (chain_size_nonneg _ (typed_chain_nonneg _ Hc)) as Hn.
  pose proof (zlen_enc_msg m Ht) as Hz. unfold msg_size in Hsz, Hz |- * at 1 2 3. unfold GETMSGHDRSZ in *.
  set (len := 20 + chain_size (msg_children m)) in *.
  change (replicate (Z.to_nat len) 0, 0) with (written [] len).
  rewrite bufferize_msg_writes by lia. cbn [res_bind].
  change (msg_length (msg_public (resize_msg m))) with (msg_size m).
  unfold bufferize_chain. change (msg_children (resize_msg m)) with (map resize (msg_children m)).
  rewrite foldR_map.
  assert (zlen (msg_hdr_bytes (msg_public m) (msg_size m)) = 20) as Hh.
  { unfold msg_hdr_bytes. autorewrite with fd_len. rewrite !zlen_be. lia. }
  assert (zlen (flat_map enc_avp (msg_children m)) = len - 20) as Hcl.
  { unfold enc_msg in Hz. rewrite zlen_app, Hh in Hz. unfold enc_chain in Hz. lia. }
  change (msg_hdr_bytes (msg_public (resize_msg m)) (msg_size m)) with (msg_hdr_bytes (msg_public m) (msg_size m)).
  rewrite (writes_foldr len (λ a, bufferize_avp d len (resize a)) enc_avp); [|apply Forall_forall|lia|lia].
  - cbn [res_bind]. unfold written. rewrite Hcl. replace (len - 20 - (len - 20)) with 0 by lia.
    rewrite zlen_app, Hh, Hcl. rewrite bool_decide_true by (change (msg_size m) with len; lia). by rewrite app_nil_r.
  - intros a Ha. apply bufferize_avp_writes; [|..].
    + rewrite forallb_forall in Hc. apply Hc. by apply list_elem_of_In.
    + pose proof (chain_small _ (2 ^ 32) Hc ltac:(unfold len in *; lia)) as Hsm.
      rewrite Forall_forall in Hsm. specialize (Hsm a Ha). pose proof (PAD4_ge (avp_size a)). lia.
    + lia.
Qed.

(** C26: a message whose values suit their models and whose size fits in 32 bits
    is written as the concatenation of its header and the encodings of its AVPs,
    into a buffer of exactly the updated length: no write leaves the buffer, the
    padding is zero, the final assertion holds and the lengths are updated. *)
Theorem fd_msg_bufferize_spec m :
  msg_typed m = true → msg_size m < 2 ^ 32 →
  fd_msg_bufferize d m = Ok (enc_msg m, resize_msg m) ∧ zlen (enc_msg m) = msg_size m.
Proof. apply bufferize_enc. Qed.
End encoding.

(** ** Parsing is safe *)

Lemma get_ok n off buf :
  is_bytes buf → 0 ≤ off → off + Z.of_nat n ≤ zlen buf →
  ∃ v, get n off buf = Ok v ∧ 0 ≤ v < 2 ^ (8 * Z.of_nat n).
Proof.
  intros Hb H0 Hn. unfold get. rewrite decide_True by done. eexists. split; [done|].
  assert (zlen (take n (drop (Z.to_nat off) buf)) = Z.of_nat n) as <-
    by (unfold zlen in *; rewrite length_take, length_drop; lia).
  apply unbe_range. by apply Forall_take, Forall_drop.
Qed.

Lemma get_app n off pre data rest :
  off = zlen pre → length data = n → get n off (pre ++ data ++ rest) = Ok (unbe data).
Proof.
  intros -> <-. unfold get. rewrite decide_True by (rewrite !zlen_app; unfold zlen; lia).
  unfold zlen. by rewrite Nat2Z.id, drop_app_length, take_app_length.
Qed.

(** The length field of an AVP. *)
Lemma len_field b5 b6 b7 :
  is_byte b5 → is_byte b6 → is_byte b7 →
  Z.lor (Z.lor (Z.shiftl b5 16) (Z.shiftl b6 8)) b7 = unbe [b5; b6; b7].
Proof.
  unfold is_byte. intros. rewrite Z.lor_comm.
  rewrite (Z.lor_comm (Z.shiftl b5 16)), Z.lor_assoc, (lor_shift_add b7 b6 8) by lia.
  rewrite lor_shift_add by lia. unfold unbe. simpl. lia.
Qed.

(** An AVP as [parsebuf_list] leaves it: the data lies inside the memory that
    the pointer [avp_source] gives access to. *)
Definition fresh (a : avp) : Prop :=
  let h := avp_public a in
  avp_model a = None ∧ avp_mnf a = (0, 0) ∧ avp_val a = None ∧ avp_rawdata a = None ∧
  avp_children a = [] ∧ 0 ≤ avp_code h < 2 ^ 32 ∧ is_byte (avp_flags h) ∧ 0 ≤ avp_vendor h < 2 ^ 32 ∧
  GETAVPHDRSZ (avp_flags h) ≤ avp_len h < 2 ^ 24 ∧
  ∃ src, avp_source a = Some src ∧ is_bytes src ∧
    avp_len h - GETAVPHDRSZ (avp_flags h) ≤ zlen src.

Definition parse_result (buf : bytes) (buflen : Z) (r : res (list avp * option errno)) : Prop :=
  ∃ l e, r = Ok (l, e) ∧ Forall fresh l ∧
    Forall (λ a, ∃ src, avp_source a = Some src ∧ zlen src + 8 ≤ zlen buf) l ∧ (e = None ∨ e = Some EBADMSG).

Lemma parse_result_stop buf buflen e :
  e = None ∨ e = Some EBADMSG → parse_result buf buflen (Ok ([], e)).
Proof. intros He. exists [], e. split; [done|]. split; [constructor|]. split; [constructor|done]. Qed.

Lemma drop_bytes off buf : is_bytes buf → is_bytes (drop off buf).
Proof. apply Forall_drop. Qed.

Lemma parsebuf_loop_safe fuel buf buflen offset :
  is_bytes buf → 0 ≤ offset → buflen ≤ zlen buf → buflen < 2 ^ 64 →
  buflen - offset < Z.of_nat fuel → (0 < fuel)%nat →
  parse_result buf buflen (parsebuf_loop fuel buf buflen offset).
Proof.
  intros Hb H0 Hbl H64. revert offset H0. induction fuel as [|fuel IH]; intros offset H0 Hf Hp0; cbn [parsebuf_loop].
  - lia.
  - case_decide as Hlt; [|apply parse_result_stop; by left]. rewrite (w64_small (buflen - offset)) by lia.
    case_decide; [apply parse_result_stop; by right|].
    destruct (get_ok 4 offset buf Hb) as (code & -> & Hcode); [lia..|].
    destruct (get_ok 1 (offset + 4) buf Hb) as (fl & -> & Hfl); [lia..|].
    destruct (get_ok 1 (offset + 5) buf Hb) as (b5 & -> & H5); [lia..|].
    destruct (get_ok 1 (offset + 6) buf Hb) as (b6 & -> & H6); [lia..|].
    destruct (get_ok 1 (offset + 7) buf Hb) as (b7 & -> & H7); [lia..|].
    cbn [res_bind]. rewrite len_field by (unfold is_byte; lia).
    assert (0 ≤ unbe [b5; b6; b7] < 2 ^ 24) as Hlen.
    { apply (unbe_range [b5; b6; b7]). repeat (apply is_bytes_cons; split; [unfold is_byte; lia|]). constructor. }
    set (len := unbe [b5; b6; b7]) in *.
    pose proof (GETAVPHDRSZ_range fl) as Hh. set (hs := GETAVPHDRSZ fl) in *.
    rewrite (w64_small (buflen - (offset + 8))) by lia.
    set (vend := has fl AVP_FLAG_VENDOR) in *.
    destruct (vend && bool_decide (buflen - (offset + 8) < 4)) eqn:Ev; [apply parse_result_stop; by right|].
    assert ((if vend then offset + 8 + 4 else offset + 8) = offset + hs) as -> by (unfold hs, GETAVPHDRSZ; fold vend; destruct vend; lia).
    assert (offset + hs ≤ buflen) as Ho.
    { unfold hs, GETAVPHDRSZ in *. fold vend in Hh |- *. destruct vend; [|lia]. simpl in Ev.
      apply bool_decide_eq_false in Ev. lia. }
    assert (∃ v, (if vend then get 4 (offset + 8) buf else Ok 0) = Ok v ∧ 0 ≤ v < 2 ^ 32) as (v & -> & Hv).
    { unfold hs, GETAVPHDRSZ in *. fold vend in Hh, Ho. destruct vend; [|exists 0; split; [done|lia]].
      destruct (get_ok 4 (offset + 8) buf Hb) as (v & -> & Hv); [lia..|]. by exists v. }
    cbn [res_bind]. destruct (decide (len < hs)); [apply parse_result_stop; by right|].
    rewrite (w64_small (buflen - (offset + hs))), (w32_small (len - hs)) by lia.
    match goal with |- context [if decide ?P then _ else _] => destruct (decide P) as [Hd|Hd] end; [apply parse_result_stop; by right|].
    assert (len - hs ≤ buflen - (offset + hs)) as Hfit by lia.
    pose proof (PAD4_ge (len - hs)).
    assert (PAD4 (len - hs) < 2 ^ 24 + 4) as Hp by pad_lia. rewrite (w32_small (PAD4 _)) by lia.
    specialize (IH (offset + hs + PAD4 (len - hs)) ltac:(lia) ltac:(lia) ltac:(lia)) as (l & e & -> & IH1 & IH2 & IH3).
    cbn [res_bind]. eexists _, e. split; [done|].
    assert (zlen (drop (Z.to_nat (offset + hs)) buf) = zlen buf - (offset + hs)) as Hz
      by (unfold zlen in *; rewrite length_drop; lia).
    split; [|split; [|done]]; (constructor; [|done]).
    + unfold fresh; simpl. repeat split; try done; try lia; unfold is_byte; try lia.
      eexists. split; [done|]. split; [by apply drop_bytes|]. lia.
    + eexists. split; [done|]. lia.
Qed.

Lemma parsebuf_list_safe buf buflen :
  is_bytes buf → 0 ≤ buflen ≤ zlen buf → buflen < 2 ^ 64 → parse_result buf buflen (parsebuf_list buf buflen).
Proof. intros. apply parsebuf_loop_safe; [done|lia..]. Qed.

Lemma land_mask24 w : 0 ≤ w → 0 ≤ Z.land w 16777215 < 2 ^ 24.
Proof. intros Hw. rewrite (land_ones_mod w 24 ltac:(lia) : Z.land w 16777215 = _). apply Z.mod_pos_bound. lia. Qed.

(** What [fd_msg_parse_buffer] returns. *)
Definition parse_buffer_ok (buf : bytes) (r : res msg) : Prop :=
  match r with
  | Ok m =>
      msg_version (msg_public m) = DIAMETER_VERSION ∧
      GETMSGHDRSZ ≤ msg_length (msg_public m) ≤ zlen buf ∧ msg_rawbuffer m = Some buf ∧
      msg_model m = None ∧ msg_mnf m = (0, 0) ∧
      Forall (λ a, fresh a ∧ ∃ src, avp_source a = Some src ∧ zlen src + 28 ≤ zlen buf) (msg_children m)
  | Err e => e = EINVAL ∧ zlen buf < GETMSGHDRSZ ∨ e = EBADMSG ∧ GETMSGHDRSZ ≤ zlen buf
  | Crash => False
  end.

Lemma parse_buffer_result buf :
  is_bytes buf → zlen buf < 2 ^ 64 → parse_buffer_ok buf (fd_msg_parse_buffer buf (zlen buf)).
Proof.
  intros Hb H64. unfold parse_buffer_ok, fd_msg_parse_buffer, GETMSGHDRSZ. case_bool_decide as Hlen; [|left; split; [done|lia]].
  destruct (get_ok 1 0 buf Hb) as (v & -> & _); [lia..|]. cbn [res_bind].
  destruct (decide (v ≠ DIAMETER_VERSION)) as [|Hv]; [by right|]. apply dec_stable in Hv as ->.
  destruct (get_ok 4 0 buf Hb) as (w & -> & Hw); [lia..|]. cbn [res_bind].
  pose proof (land_mask24 w ltac:(lia)). case_decide; [by right|]. case_decide; [by right|].
  destruct (get_ok 1 4 buf Hb) as (fl & -> & _); [lia..|].
  destruct (get_ok 4 4 buf Hb) as (w2 & -> & _); [lia..|].
  destruct (get_ok 4 8 buf Hb) as (appl & -> & _); [lia..|].
  destruct (get_ok 4 12 buf Hb) as (hbh & -> & _); [lia..|].
  destruct (get_ok 4 16 buf Hb) as (ete & -> & _); [lia..|]. cbn [res_bind].
  assert (zlen (drop 20 buf) = zlen buf - 20) as Hd by (unfold zlen in *; rewrite length_drop; lia).
  pose proof (parsebuf_list_safe (drop 20 buf) (zlen buf - 20) (drop_bytes 20 buf Hb)) as Hs.
  specialize (Hs ltac:(lia) ltac:(lia)) as (l & e & -> & Hl & Hsl & He). cbn [res_bind].
  destruct He as [->| ->]; [|by right].
  cbn [msg_public msg_version msg_length msg_children msg_rawbuffer msg_model msg_mnf].
  split; [done|]. split; [lia|]. repeat (split; [done|]). rewrite Forall_forall in *. intros a Ha.
  split; [by apply Hl|]. destruct (Hsl a Ha) as (src & Hsrc & ?). exists src. split; [done|lia].
Qed.

(** C27: whatever the bytes received, [fd_msg_parse_buffer] reads no byte outside
    of the buffer and terminates: it returns a message whose AVPs lie in the
    buffer, or [EINVAL] for a buffer smaller than a header, or [EBADMSG]. *)
Theorem fd_msg_parse_buffer_safe buf :
  is_bytes buf → zlen buf < 2 ^ 64 → parse_buffer_ok buf (fd_msg_parse_buffer buf (zlen buf)).
Proof. apply parse_buffer_result. Qed.

(** ** Parsing what has been written *)

Section roundtrip.
Context {D : Type} `{!MsgDictionary D} (d : D).

(** The header of an AVP that a buffer can hold. *)
Definition hdr_fits (h : avp_hdr) (size : Z) : Prop :=
  0 ≤ avp_code h < 2 ^ 32 ∧ is_byte (avp_flags h) ∧ 0 ≤ avp_vendor h < 2 ^ 32 ∧ size < 2 ^ 24.

#[export] Instance hdr_fits_dec h size : Decision (hdr_fits h size).
Proof. unfold hdr_fits. apply _. Defined.

(** What is read of an AVP followed by [rest]: [body] is its encoding without
    the header. *)
Definition enc_body (a : avp) : bytes :=
  drop (Z.to_nat (GETAVPHDRSZ (avp_flags (avp_public a)))) (enc_avp d a).

Definition unparsed (a : avp) (rest : bytes) : avp :=
  let h := avp_public a in
  Avp None (0, 0)
    (AvpHdr (avp_code h) (avp_flags h) (avp_size d a)
       (if has (avp_flags h) AVP_FLAG_VENDOR then avp_vendor h else 0))
    None (Some (enc_body a ++ rest)) None [].

Fixpoint unparsed_chain (l : list avp) (rest : bytes) : list avp :=
  match l with
  | [] => []
  | a :: l => unparsed a (enc_chain d l ++ rest) :: unparsed_chain l rest
  end.

Lemma enc_split a : enc_avp d a = hdr_bytes (avp_public a) (avp_size d a) ++ enc_body a.
Proof.
  unfold enc_body. destruct a as [m n h v s r l]. cbn [avp_public].
  set (b := enc_avp d (Avp m n h v s r l)). assert (∃ k, b = hdr_bytes h (avp_size d (Avp m n h v s r l)) ++ k) as [k Hk].
  { unfold b. cbn [enc_avp]. eauto. }
  rewrite Hk. f_equal.
  assert (Z.to_nat (GETAVPHDRSZ (avp_flags h)) = length (hdr_bytes h (avp_size d (Avp m n h v s r l)))) as ->.
  { pose proof (zlen_hdr_bytes h (avp_size d (Avp m n h v s r l))) as Hz. unfold zlen in Hz. lia. }
  by rewrite drop_app_length.
Qed.

Lemma typed_hdr_size a : typed d a = true → GETAVPHDRSZ (avp_flags (avp_public a)) ≤ avp_size d a.
Proof.
  destruct a as [m n h v s r l]. intros Ht. cbn [avp_public]. destruct m as [o|].
  - cbn [typed avp_size] in *. destruct (avp_data d o) as [data|]; [|done].
    destruct (a_basetype data) eqn:Et.
    1: { pose proof (chain_size_nonneg d l (typed_chain_nonneg d l Ht)). unfold chain_size in *. lia. }
    all: apply andb_prop in Ht as [_ Ht]; destruct v as [v|]; [|done];
      match goal with |- context [value_size ?t v] => pose proof (value_size_nonneg t v) end; lia.
  - pose proof (raw_bytes_size d None n h v s r l eq_refl Ht). pose proof (zlen_nonneg (raw_bytes h s r)).
    cbn [avp_size]. lia.
Qed.

Lemma unbe_be3 size : 0 ≤ size < 2 ^ 24 →
  ∃ b5 b6 b7, be 3 size = [b5; b6; b7] ∧ is_byte b5 ∧ is_byte b6 ∧ is_byte b7 ∧ unbe [b5; b6; b7] = size.
Proof.
  intros Hs. pose proof (unbe_be_small 3 size Hs) as Hu. pose proof (be_is_bytes 3 size) as Hb.
  cbn [be] in *. destruct_bytes. do 3 eexists. split; [done|]. done.
Qed.

Lemma parse_enc_chain fuel pre l rest :
  forallb (typed d) l = true → Forall (λ a, hdr_fits (avp_public a) (avp_size d a)) l →
  zlen (pre ++ enc_chain d l) < 2 ^ 64 → zlen (enc_chain d l) < Z.of_nat fuel →
  parsebuf_loop fuel (pre ++ enc_chain d l ++ rest) (zlen (pre ++ enc_chain d l)) (zlen pre) =
  Ok (unparsed_chain l rest, None).
Proof.
  revert pre fuel. induction l as [|a l IH]; intros pre fuel Ht Hh H64 Hf.
  - destruct fuel; [unfold zlen in Hf; simpl in Hf; lia|]. cbn [parsebuf_loop enc_chain flat_map].
    rewrite app_nil_r, decide_False by lia. done.
  - cbn [forallb] in Ht. apply andb_prop in Ht as [Ha Ht]. apply Forall_cons in Hh as [(Hcode & Hfl & Hv & Hsz) Hh].
    cbn [enc_chain flat_map] in *. fold (enc_chain d l) in *.
    pose proof (zlen_enc d a Ha) as Hze. pose proof (typed_size_nonneg d a Ha) as Hn. pose proof (typed_hdr_size a Ha) as Hhs.
    pose proof (GETAVPHDRSZ_range (avp_flags (avp_public a))) as Hr.
    pose proof (PAD4_ge (avp_size d a)). pose proof (zlen_nonneg (enc_chain d l)). pose proof (zlen_nonneg pre).
    rewrite !zlen_app in *. destruct fuel as [|fuel]; [lia|]. cbn [parsebuf_loop unparsed_chain].
    rewrite decide_True by lia. rewrite w64_small by lia. rewrite decide_False by lia.
    set (h := avp_public a) in *. set (hs := GETAVPHDRSZ (avp_flags h)) in *.
    destruct (unbe_be3 (avp_size d a) (conj Hn Hsz)) as (b5 & b6 & b7 & E3 & Hb5 & Hb6 & Hb7 & Hlen).
    (* the bytes of the header *)
    assert (pre ++ (enc_avp d a ++ enc_chain d l) ++ rest =
      pre ++ be 4 (avp_code h) ++ [avp_flags h] ++ [b5] ++ [b6] ++ [b7] ++
      (if has (avp_flags h) AVP_FLAG_VENDOR then be 4 (avp_vendor h) else []) ++ enc_body a ++ enc_chain d l ++ rest) as Ebuf.
    { rewrite enc_split. fold h. unfold hdr_bytes. rewrite E3. rewrite <- !app_assoc. cbn [app]. rewrite <- ?app_assoc. done. }
    set (tl := (if has (avp_flags h) AVP_FLAG_VENDOR then be 4 (avp_vendor h) else []) ++ enc_body a ++ enc_chain d l ++ rest) in *.
    set (buf := pre ++ (enc_avp d a ++ enc_chain d l) ++ rest) in *.
    set (buflen := zlen pre + (zlen (enc_avp d a) + zlen (enc_chain d l))) in *.
    assert (∀ n off k data r, buf = k ++ data ++ r → off = zlen k → length data = n →
      get n off buf = Ok (unbe data)) as Hget by (intros n off k data r -> -> <-; by apply get_app).
    rewrite (Hget 4%nat (zlen pre) pre (be 4 (avp_code h)) _ Ebuf eq_refl eq_refl).
    rewrite (unbe_be_small 4 (avp_code h) Hcode). cbn [res_bind].
    rewrite (Hget 1%nat (zlen pre + 4) (pre ++ be 4 (avp_code h)) [avp_flags h] ([b5] ++ [b6] ++ [b7] ++ tl));
      [|by rewrite <- !app_assoc|rewrite zlen_app, zlen_be; lia|done].
    rewrite (Hget 1%nat (zlen pre + 5) (pre ++ be 4 (avp_code h) ++ [avp_flags h]) [b5] ([b6] ++ [b7] ++ tl));
      [|by rewrite <- !app_assoc|rewrite !zlen_app, zlen_be; unfold zlen; simpl; lia|done].
    rewrite (Hget 1%nat (zlen pre + 6) (pre ++ be 4 (avp_code h) ++ [avp_flags h] ++ [b5]) [b6] ([b7] ++ tl));
      [|by rewrite <- !app_assoc|rewrite !zlen_app, zlen_be; unfold zlen; simpl; lia|done].
    rewrite (Hget 1%nat (zlen pre + 7) (pre ++ be 4 (avp_code h) ++ [avp_flags h] ++ [b5] ++ [b6]) [b7] tl);
      [|by rewrite <- !app_assoc|rewrite !zlen_app, zlen_be; unfold zlen; simpl; lia|done].
    change (unbe [avp_flags h]) with (avp_flags h). change (unbe [b5]) with b5. change (unbe [b6]) with b6. change (unbe [b7]) with b7.
    cbn [res_bind]. rewrite len_field, Hlen by done. fold hs.
    set (vend := has (avp_flags h) AVP_FLAG_VENDOR) in *.
    assert (vend && bool_decide (w64 (buflen - (zlen pre + 8)) < 4) = false) as ->.
    { unfold hs, GETAVPHDRSZ in Hr, Hhs. fold vend in Hr, Hhs. destruct vend; [|done]. simpl.
      rewrite w64_small by lia. apply bool_decide_eq_false. lia. }
    assert ((if vend then zlen pre + 8 + 4 else zlen pre + 8) = zlen pre + hs) as ->
      by (unfold hs, GETAVPHDRSZ; fold vend; destruct vend; lia).
    assert ((if vend then get 4 (zlen pre + 8) buf else Ok 0) = Ok (if vend then avp_vendor h else 0)) as ->.
    { unfold tl in *. destruct vend; [|done].
      rewrite (Hget 4%nat (zlen pre + 8) (pre ++ be 4 (avp_code h) ++ [avp_flags h] ++ [b5] ++ [b6] ++ [b7])
        (be 4 (avp_vendor h)) (enc_body a ++ enc_chain d l ++ rest));
        [|by rewrite <- !app_assoc|rewrite !zlen_app, zlen_be; unfold zlen; simpl; lia|done].
      by rewrite (unbe_be_small 4 (avp_vendor h) Hv). }
    cbn [res_bind]. rewrite decide_False by lia. rewrite w64_small by lia. rewrite w32_small by lia.
    rewrite decide_False by lia.
    assert (PAD4 (avp_size d a - hs) + hs = PAD4 (avp_size d a)) as Hpad by (destruct Hr as [->| ->]; pad_lia).
    rewrite w32_small by (pose proof (PAD4_ge (avp_size d a - hs)); pad_lia).
    replace (zlen pre + hs + PAD4 (avp_size d a - hs)) with (zlen (pre ++ enc_avp d a)) by (rewrite zlen_app; lia).
    assert (buf = (pre ++ enc_avp d a) ++ enc_chain d l ++ rest) as -> by (unfold buf; by rewrite <- !app_assoc).
    assert (buflen = zlen ((pre ++ enc_avp d a) ++ enc_chain d l)) as -> by (unfold buflen; rewrite !zlen_app; lia).
    rewrite IH; [|done|done|done|lia]. cbn [res_bind]. unfold unparsed. fold h.
    do 4 f_equal. rewrite enc_split. fold h. rewrite <- !app_assoc.
    replace (Z.to_nat (zlen pre + hs)) with (length pre + length (hdr_bytes h (avp_size d a)))%nat
      by (pose proof (zlen_hdr_bytes h (avp_size d a)) as Hz; fold hs in Hz; unfold zlen in *; lia).
    by rewrite <- drop_drop, !drop_app_length.
Qed.

(** The fields of a message header that a buffer can hold. *)
Definition msg_fits (h : msg_hdr) (len : Z) : Prop :=
  msg_version h = DIAMETER_VERSION ∧ is_byte (msg_flags h) ∧ 0 ≤ msg_code h < 2 ^ 24 ∧
  0 ≤ msg_appl h < 2 ^ 32 ∧ 0 ≤ msg_hbhid h < 2 ^ 32 ∧ 0 ≤ msg_eteid h < 2 ^ 32 ∧
  GETMSGHDRSZ ≤ len < 2 ^ 24.

#[export] Instance msg_fits_dec h len : Decision (msg_fits h len).
Proof. unfold msg_fits. apply _. Defined.

Lemma unbe_word b v : 0 ≤ v < 2 ^ 24 → 0 ≤ b → Z.land (unbe (b :: be 3 v)) 16777215 = v.
Proof.
  intros Hv Hb. rewrite (land_ones_mod _ 24 ltac:(lia) : Z.land _ 16777215 = _).
  rewrite unbe_cons, zlen_be, (unbe_be_small 3 v Hv). change (8 * Z.of_nat 3) with 24.
  rewrite Z.add_comm, Z.mod_add by lia. by apply Z.mod_small.
Qed.

(** The message built from a header with the length [len] and a chain of AVPs. *)
Definition received (h : msg_hdr) (len : Z) (l : list avp) (buf : bytes) : msg :=
  Msg None (0, 0)
    (MsgHdr (msg_version h) len (msg_flags h) (msg_code h) (msg_appl h) (msg_hbhid h) (msg_eteid h))
    (Some buf) 0 None false None None (MsgCb None None None (0, 0)) None l.

Lemma parse_buffer_enc h len l :
  forallb (typed d) l = true → Forall (λ a, hdr_fits (avp_public a) (avp_size d a)) l →
  msg_fits h len → len ≤ zlen (msg_hdr_bytes h len ++ enc_chain d l) < 2 ^ 32 →
  let buf := msg_hdr_bytes h len ++ enc_chain d l in
  fd_msg_parse_buffer buf (zlen buf) = Ok (received h len (unparsed_chain l []) buf).
Proof.
  intros Ht Hh (Hver & Hfl & Hcode & Happl & Hhbh & Hete & Hlen) Hsz buf.
  unfold fd_msg_parse_buffer, GETMSGHDRSZ in *.
  assert (zlen (msg_hdr_bytes h len) = 20) as Hhd.
  { unfold msg_hdr_bytes. autorewrite with fd_len. rewrite !zlen_be. lia. }
  rewrite bool_decide_true by (unfold buf; lia).
  assert (∀ n off k data r, buf = k ++ data ++ r → off = zlen k → length data = n →
    get n off buf = Ok (unbe data)) as Hget by (intros n off k data r -> -> <-; by apply get_app).
  assert (buf = [] ++ (msg_version h :: be 3 len) ++ (msg_flags h :: be 3 (msg_code h)) ++
    be 4 (msg_appl h) ++ be 4 (msg_hbhid h) ++ be 4 (msg_eteid h) ++ enc_chain d l) as Eb.
  { unfold buf, msg_hdr_bytes. by rewrite <- !app_assoc. }
  set (w1 := msg_version h :: be 3 len) in *. set (w2 := msg_flags h :: be 3 (msg_code h)) in *.
  assert (zlen w1 = 4) as E1 by (unfold w1; rewrite zlen_cons, zlen_be; lia).
  assert (zlen w2 = 4) as E2 by (unfold w2; rewrite zlen_cons, zlen_be; lia).
  rewrite (Hget 1%nat 0 [] [msg_version h] (be 3 len ++ w2 ++ be 4 (msg_appl h) ++ be 4 (msg_hbhid h) ++ be 4 (msg_eteid h) ++ enc_chain d l));
    [|exact Eb|done|done].
  change (unbe [msg_version h]) with (msg_version h). cbn [res_bind]. rewrite decide_False by (by intros []).
  assert (Z.land (unbe w1) 16777215 = len) as U1 by (apply unbe_word; [lia|rewrite Hver; done]).
  assert (Z.land (unbe w2) 16777215 = msg_code h) as U2 by (apply unbe_word; [lia|unfold is_byte in *; lia]).
  rewrite (Hget 4%nat 0 [] w1 _ Eb eq_refl eq_refl). cbn [res_bind]. rewrite U1.
  rewrite decide_False by (unfold buf; lia). rewrite decide_False by lia.
  rewrite (Hget 1%nat 4 w1 [msg_flags h] (be 3 (msg_code h) ++ be 4 (msg_appl h) ++ be 4 (msg_hbhid h) ++ be 4 (msg_eteid h) ++ enc_chain d l));
    [|exact Eb|done|done].
  rewrite (Hget 4%nat 4 w1 w2 _ Eb eq_refl eq_refl).
  change (unbe [msg_flags h]) with (msg_flags h). cbn [res_bind]. rewrite U2.
  rewrite (Hget 4%nat 8 (w1 ++ w2) (be 4 (msg_appl h)) (be 4 (msg_hbhid h) ++ be 4 (msg_eteid h) ++ enc_chain d l));
    [|by rewrite <- app_assoc|rewrite zlen_app; lia|done].
  rewrite (Hget 4%nat 12 (w1 ++ w2 ++ be 4 (msg_appl h)) (be 4 (msg_hbhid h)) (be 4 (msg_eteid h) ++ enc_chain d l));
    [|by rewrite <- !app_assoc|rewrite !zlen_app, zlen_be; lia|done].
  rewrite (Hget 4%nat 16 (w1 ++ w2 ++ be 4 (msg_appl h) ++ be 4 (msg_hbhid h)) (be 4 (msg_eteid h)) (enc_chain d l));
    [|by rewrite <- !app_assoc|rewrite !zlen_app, !zlen_be; lia|done].
  cbn [res_bind]. rewrite (unbe_be_small 4 (msg_appl h)), (unbe_be_small 4 (msg_hbhid h)), (unbe_be_small 4 (msg_eteid h)) by done.
  assert (drop 20 buf = [] ++ enc_chain d l ++ []) as ->.
  { unfold buf. replace 20%nat with (length (msg_hdr_bytes h len)) by (unfold zlen in Hhd; lia).
    by rewrite drop_app_length, app_nil_r. }
  assert (zlen buf - 20 = zlen ([] ++ enc_chain d l)) as -> by (unfold buf; rewrite zlen_app, app_nil_l; lia).
  unfold parsebuf_list. rewrite (parse_enc_chain _ [] l []); [done|done|done| |].
  - rewrite app_nil_l. unfold buf in Hsz. rewrite zlen_app in Hsz. lia.
  - rewrite app_nil_l. lia.
Qed.
End roundtrip.

(** ** Examples *)

Module Examples.
Import Small.

Definition leaf (o : obj) (h : avp_hdr) (v : avp_value) : avp := Avp (Some o) (0, 0) h (Some v) None None [].

(** A request with a string, a grouped AVP that has a number, and a 64-bit
    number with a vendor. *)
Definition cer : msg :=
  Msg (Some 6%nat) (0, 0) (MsgHdr 1 0 128 257 0 77 99) None 0 None false None None
    (MsgCb None None None (0, 0)) None
    [leaf 0 (AvpHdr 263 64 0 0) (OS [97; 98; 99]);
     Avp (Some 2%nat) (0, 0) (AvpHdr 260 64 0 0) None None None [leaf 3 (AvpHdr 266 64 0 0) (NUM 10415)];
     leaf 4 (AvpHdr 1000 192 0 10415) (NUM 18446744073709551615)].

Lemma fd_msg_bufferize_witness :
  fd_msg_bufferize base cer = Ok (enc_msg base cer, resize_msg base cer) ∧
  zlen (enc_msg base cer) = msg_size base cer.
Proof. apply (fd_msg_bufferize_spec base cer); [reflexivity|vm_compute; reflexivity]. Defined.

Lemma fd_msg_parse_buffer_safe_witness :
  let buf := [1; 0; 0; 28; 128; 0; 1; 1; 0; 0; 0; 0; 0; 0; 0; 1; 0; 0; 0; 2; 0; 0; 1; 7; 64; 0; 0; 9] in
  parse_buffer_ok buf (fd_msg_parse_buffer buf (zlen buf)).
Proof. intros buf. apply (fd_msg_parse_buffer_safe buf); [by_compute|reflexivity]. Defined.
End Examples.
