(* ===== verification/MsgDict.v ===== *)
(** * Messages: parsing with the dictionary ([libfdproto/messages.c])

    [fd_msg_parse_dict]: resolving the models of a message and of its AVPs, and
    interpreting their data.  A failure leaves the tree partly resolved and says
    where it happened: the functions return the tree together with the error,
    and with what they write to [error_info], where an AVP is given by its path
    in the tree.  Resolving a grouped AVP creates its children, so the recursion
    is on [fuel], a bound on the depth. *)

From stdpp Require Import base list.
From Stdlib Require Import ZArith Lia.
From S2P Require Import Prelude DictTypes Msg MsgBuf.

(** ** Errors *)

Inductive pei_errcode :=
  | DIAMETER_AVP_UNSUPPORTED | DIAMETER_INVALID_AVP_LENGTH | DIAMETER_INVALID_AVP_VALUE
  | DIAMETER_COMMAND_UNSUPPORTED | DIAMETER_AVP_NOT_ALLOWED | DIAMETER_AVP_OCCURS_TOO_MANY_TIMES
  | DIAMETER_MISSING_AVP.

#[export] Instance pei_errcode_eq_dec : EqDecision pei_errcode.
Proof. solve_decision. Defined.

(** [struct fd_pei] *)
Record fd_pei := Pei { pei_code : pei_errcode; pei_avp : option (list nat); pei_protoerr : bool }.

#[export] Instance fd_pei_eq_dec : EqDecision fd_pei.
Proof. solve_decision. Defined.

Definition perr : Type := errno * option fd_pei.

Definition pei_here (c : pei_errcode) : option fd_pei := Some (Pei c (Some []) false).

(** The error of the [i]-th child, seen from the parent. *)
Definition at_child (i : nat) (e : perr) : perr :=
  (fst e, (λ p, Pei (pei_code p) (cons i <$> pei_avp p) (pei_protoerr p)) <$> snd e).

(** ** Fields *)

Definition with_model (m : option obj) (a : avp) : avp :=
  Avp m (avp_mnf a) (avp_public a) (avp_val a) (avp_source a) (avp_rawdata a) (avp_children a).
Definition with_mnf (n : Z * Z) (a : avp) : avp :=
  Avp (avp_model a) n (avp_public a) (avp_val a) (avp_source a) (avp_rawdata a) (avp_children a).
Definition with_value (v : option avp_value) (a : avp) : avp :=
  Avp (avp_model a) (avp_mnf a) (avp_public a) v (avp_source a) (avp_rawdata a) (avp_children a).
Definition with_source (s : option bytes) (a : avp) : avp :=
  Avp (avp_model a) (avp_mnf a) (avp_public a) (avp_val a) s (avp_rawdata a) (avp_children a).
Definition with_rawdata (r : option bytes) (a : avp) : avp :=
  Avp (avp_model a) (avp_mnf a) (avp_public a) (avp_val a) (avp_source a) r (avp_children a).

(** A write to [avp_storage]: it shows when [avp_value] already points there. *)
Definition store_value (v : avp_value) (a : avp) : avp := with_value ((λ _, v) <$> avp_val a) a.

(** The length of the data, computed in [uint32_t]. *)
Definition avp_datalen (a : avp) : Z :=
  w32 (avp_len (avp_public a) - GETAVPHDRSZ (avp_flags (avp_public a))).

Section parsedict.
Context {D : Type} `{!MsgDictionary D} (d : D).

(** "Check if we already searched for this model without success", "Now try and
    resolve the model from the avp code and vendor". *)
Definition avp_resolve (a : avp) : res (avp * option errno) :=
  let h := avp_public a in
  if decide (avp_mnf a = (avp_code h, avp_vendor h)) then Ok (a, None) else
  match
    (if has (avp_flags h) AVP_FLAG_VENDOR then avp_by_struct d (avp_vendor h) (avp_code h)
     else avp_by_code d (avp_code h))
  with
  | Ok (Some o) => Ok (with_model (Some o) a, None)
  | Ok None => Ok (with_mnf (avp_code h, avp_vendor h) a, None)
  | Err e => Ok (a, Some e)
  | Crash => Crash
  end.

(** "First handle the case where we have not found this AVP in the dictionary". *)
Definition avp_unknown (mandatory : bool) (a : avp) : res (avp * option perr) :=
  if mandatory && has (avp_flags (avp_public a)) AVP_FLAG_MANDATORY then
    Ok (a, Some (ENOTSUP, pei_here DIAMETER_AVP_UNSUPPORTED))
  else
    match avp_source a with
    | None => Ok (a, None)
    | Some src =>
        match avp_rawdata a with
        | Some _ => Ok (a, Some (EINVAL, None))
        | None =>
            let rawlen := avp_datalen a in
            if decide (rawlen = 0) then Ok (with_source None a, None) else
            if decide (zlen src < rawlen) then Crash else
            Ok (with_source None (with_rawdata (Some (take (Z.to_nat rawlen) src)) a), None)
        end
    end.

(** The value of a type that is not grouped, from the memory at [source]. *)
Definition read_value (t : dict_avp_basetype) (len : Z) (source : bytes) : res avp_value :=
  match t with
  | AVP_TYPE_OCTETSTRING =>
      if decide (zlen source < len) then Crash else Ok (OS (take (Z.to_nat len) source))
  | AVP_TYPE_INTEGER32 | AVP_TYPE_UNSIGNED32 | AVP_TYPE_FLOAT32 =>
      let* n := get 4 0 source in Ok (NUM n)
  | AVP_TYPE_INTEGER64 | AVP_TYPE_UNSIGNED64 | AVP_TYPE_FLOAT64 =>
      let* n := get 8 0 source in Ok (NUM n)
  | AVP_TYPE_GROUPED => Crash
  end.

(** "Now get the value inside", and the check of the derived type; [a] has lost
    its source. *)
Definition avp_interpret (o : obj) (t : dict_avp_basetype) (source : option bytes) (a : avp)
    : res (avp * option perr) :=
  let h := avp_public a in
  if decide (t = AVP_TYPE_OCTETSTRING ∧ avp_len h < GETAVPHDRSZ (avp_flags h)) then
    Ok (with_source source a, Some (EBADMSG, pei_here DIAMETER_INVALID_AVP_LENGTH))
  else
    let* v := read_value t (avp_datalen a) (default [] source) in
    match type_check d o v with
    | Some e => Ok (store_value v a, Some (e, pei_here DIAMETER_INVALID_AVP_VALUE))
    | None => Ok (with_value (Some v) a, None)
    end.

(** [parsedict_do_chain]: the rest of the list is untouched after an error. *)
Definition parsedict_chain (f : avp → res (avp * option perr)) :
    nat → list avp → res (list avp * option perr) :=
  fix go i l :=
    match l with
    | [] => Ok ([], None)
    | a :: l =>
        let* (a, e) := f a in
        match e with
        | Some e => Ok (a :: l, Some (at_child i e))
        | None => let* (l, e) := go (S i) l in Ok (a :: l, e)
        end
    end.

Definition on_children (f : avp → res (avp * option perr)) (a : avp) : res (avp * option perr) :=
  let* (l, e) := parsedict_chain f 0 (avp_children a) in Ok (with_children l a, e).

(** [mandatory && (avp_flags & AVP_FLAG_MANDATORY)] *)
Definition sub_mandatory (mandatory : bool) (a : avp) : bool :=
  mandatory && has (avp_flags (avp_public a)) AVP_FLAG_MANDATORY.

(** [parsedict_do_avp] of an AVP without a model; [down] processes the children. *)
Definition parsedict_new (mandatory : bool) (down : avp → res (avp * option perr)) (a : avp)
    : res (avp * option perr) :=
  let* (a, e) := avp_resolve a in
  match e with
  | Some e => Ok (a, Some (e, None))
  | None =>
      match avp_model a with
      | None => avp_unknown mandatory a
      | Some o =>
          match avp_data d o with
          | None => Ok (a, Some (EINVAL, None))
          | Some data =>
              let a := match avp_rawdata a with Some r => with_source (Some r) a | None => a end in
              let t := a_basetype data in
              if decide (avp_value_sizes t ≠ 0 ∧ avp_datalen a ≠ avp_value_sizes t) then
                Ok (with_model None a, Some (EBADMSG, pei_here DIAMETER_INVALID_AVP_LENGTH))
              else
                let source := avp_source a in
                let a := with_source None a in
                match t with
                | AVP_TYPE_GROUPED =>
                    let* (l, e) := parsebuf_list (default [] source) (avp_datalen a) in
                    let a := with_children (avp_children a ++ l) a in
                    match e with
                    | Some e => Ok (with_source source a, Some (e, pei_here DIAMETER_INVALID_AVP_VALUE))
                    | None => down a
                    end
                | t => avp_interpret o t source a
                end
          end
      end
  end.

Fixpoint parsedict_do_avp (fuel : nat) (mandatory : bool) (a : avp) : res (avp * option perr) :=
  match fuel with
  | 0%nat => Crash
  | S fuel =>
      let down a := on_children (parsedict_do_avp fuel (sub_mandatory mandatory a)) a in
      match avp_model a with
      | Some o =>
          match avp_data d o with
          | None => Ok (a, Some (EINVAL, None))
          | Some data =>
              if decide (avp_code (avp_public a) = a_code data) then down a
              else parsedict_new mandatory down (with_model None a)
          end
      | None => parsedict_new mandatory down a
      end
  end.

Definition parsedict_do_chain (fuel : nat) (mandatory : bool) (l : list avp) : res (list avp * option perr) :=
  parsedict_chain (parsedict_do_avp fuel mandatory) 0 l.

(** *** Messages *)

Definition with_msg_model (o : option obj) (n : Z * Z) (m : msg) : msg :=
  Msg o n (msg_public m) (msg_rawbuffer m) (msg_routable m) (msg_query m) (msg_associated m)
    (msg_rtdata m) (msg_sess m) (msg_callbacks m) (msg_src_id m) (msg_children m).
Definition with_parsed (l : list avp) (raw : option bytes) (m : msg) : msg :=
  Msg (msg_model m) (msg_mnf m) (msg_public m) raw (msg_routable m) (msg_query m) (msg_associated m)
    (msg_rtdata m) (msg_sess m) (msg_callbacks m) (msg_src_id m) l.

(** The check that the model "is still valid for the message data"; the operator
    between the flags and the mask is [&&]. *)
Definition msg_model_valid (data : dict_cmd_data) (h : msg_hdr) : bool :=
  bool_decide (c_code data = msg_code h) &&
  bool_decide (Z.land (c_flag_val data) (c_flag_mask data) =
    Z.b2z (bool_decide (msg_flags h ≠ 0) && bool_decide (c_flag_mask data ≠ 0))).

(** The part at [chain:]. *)
Definition parsedict_msg_chain (fuel : nat) (only_hdr : bool) (m : msg) : res (msg * option perr) :=
  if only_hdr then Ok (m, None) else
  let* (l, e) := parsedict_do_chain fuel true (msg_children m) in
  Ok (with_parsed l (match e with None => None | Some _ => msg_rawbuffer m end) m, e).

Definition no_model : perr := (ENOTSUP, Some (Pei DIAMETER_COMMAND_UNSUPPORTED None true)).

(** The search of the model. *)
Definition parsedict_msg_search (fuel : nat) (only_hdr : bool) (m : msg) : res (msg * option perr) :=
  let h := msg_public m in
  if decide (msg_mnf m = (msg_code h, msg_flags h)) then Ok (m, Some no_model) else
  match cmd_by_code d (has (msg_flags h) CMD_FLAG_REQUEST) (msg_code h) with
  | None => Ok (with_msg_model None (msg_code h, msg_flags h) m, Some no_model)
  | Some o => parsedict_msg_chain fuel only_hdr (with_msg_model (Some o) (0, snd (msg_mnf m)) m)
  end.

Definition parsedict_do_msg (fuel : nat) (only_hdr : bool) (m : msg) : res (msg * option perr) :=
  match msg_model m with
  | Some o =>
      match cmd_data d o with
      | None => Crash
      | Some data =>
          if msg_model_valid data (msg_public m) then parsedict_msg_chain fuel only_hdr m
          else parsedict_msg_search fuel only_hdr (with_msg_model None (msg_mnf m) m)
      end
  | None => parsedict_msg_search fuel only_hdr m
  end.

(** [fd_msg_parse_dict] of a message. *)
Definition fd_msg_parse_dict (fuel : nat) (m : msg) : res (msg * option perr) :=
  parsedict_do_msg fuel false m.
End parsedict.

(** ** What parsing establishes *)

Section results.
Context {D : Type} `{!MsgDictionary D} (d : D).

(** The search for the model of a header. *)
Definition lookup_model (h : avp_hdr) : res (option obj) :=
  if has (avp_flags h) AVP_FLAG_VENDOR then avp_by_struct d (avp_vendor h) (avp_code h)
  else avp_by_code d (avp_code h).

(** A parsed AVP: either a model with the code of the header, and a value of its
    type that its check accepts or parsed children; or no model, and the data
    kept as raw data, which is not allowed of a mandatory AVP. *)
Fixpoint parsed (mandatory : bool) (a : avp) : bool :=
  match a with
  | Avp m n h v s r l =>
      match m with
      | Some o =>
          match avp_data d o with
          | None => false
          | Some data =>
              bool_decide (avp_code h = a_code data) &&
              match a_basetype data with
              | AVP_TYPE_GROUPED => forallb (parsed (mandatory && has (avp_flags h) AVP_FLAG_MANDATORY)) l
              | t =>
                  bool_decide (l = []) && value_ok t v &&
                  match v with Some v => bool_decide (type_check d o v = None) | None => false end
              end
          end
      | None =>
          bool_decide (n = (avp_code h, avp_vendor h)) && bool_decide (l = []) && bool_decide (s = None) &&
          bool_decide (avp_len h = GETAVPHDRSZ (avp_flags h) + zlen (default [] r)) &&
          negb (mandatory && has (avp_flags h) AVP_FLAG_MANDATORY)
      end
  end.

(** The depth of a tree. *)
Fixpoint depth (a : avp) : nat :=
  match a with Avp _ _ _ _ _ _ l => S (foldr (λ c n, Nat.max (depth c) n) 0%nat l) end.

Lemma depth_child (a : avp) l : a ∈ l → (depth a ≤ foldr (λ c n, Nat.max (depth c) n) 0 l)%nat.
Proof.
  induction l as [|b l IH]; [by intros ?%elem_of_nil|]. simpl. intros [->|Ha]%elem_of_cons; [lia|].
  specialize (IH Ha). lia.
Qed.

Lemma parsedict_chain_same (f : avp → res (avp * option perr)) i l :
  Forall (λ a, f a = Ok (a, None)) l → parsedict_chain f i l = Ok (l, None).
Proof.
  intros Hl. revert i. induction Hl as [|a l Ha _ IH]; intros i; [done|]. cbn [parsedict_chain].
  rewrite Ha. cbn [res_bind]. by rewrite IH.
Qed.

(** Parsing a parsed tree again changes nothing. *)
Lemma parsedict_again fuel mandatory a :
  parsed mandatory a = true → (depth a ≤ fuel)%nat → parsedict_do_avp d fuel mandatory a = Ok (a, None).
Proof.
  revert mandatory fuel. induction a as [m n h v s r l IH] using avp_tree_ind. intros mandatory fuel Hp Hf.
  cbn [depth] in Hf. destruct fuel as [|fuel]; [lia|]. cbn [parsed parsedict_do_avp avp_model avp_public] in *.
  destruct m as [o|].
  - destruct (avp_data d o) as [data|]; [|done]. apply andb_prop in Hp as [Hc Hp].
    apply bool_decide_eq_true in Hc. rewrite decide_True by done. unfold on_children. cbn [avp_children].
    assert (Forall (λ a, parsedict_do_avp d fuel (sub_mandatory mandatory (Avp (Some o) n h v s r l)) a = Ok (a, None)) l) as Hall.
    { destruct (a_basetype data).
      1: { rewrite forallb_forall in Hp. rewrite Forall_forall in *. intros a Ha. apply IH; [done| |].
           - apply Hp. by apply list_elem_of_In.
           - pose proof (depth_child a l Ha). lia. }
      all: apply andb_prop in Hp as [[->%bool_decide_eq_true _]%andb_prop _]; by constructor. }
    by rewrite (parsedict_chain_same _ 0 l Hall).
  - repeat match goal with H : _ && _ = true |- _ => apply andb_prop in H as [? ?] end.
    repeat match goal with H : bool_decide _ = true |- _ => apply bool_decide_eq_true in H end. subst.
    unfold parsedict_new, avp_resolve. cbn [avp_mnf avp_public]. rewrite decide_True by done.
    cbn [res_bind avp_model]. unfold avp_unknown. cbn [avp_public avp_source].
    match goal with H : negb _ = true |- _ => apply negb_true_iff in H as -> end. done.
Qed.

(** An AVP that the dictionary does not have; the code 0 without a vendor is never
    searched. *)
Definition unknown_avp (h : avp_hdr) : Prop := lookup_model h = Ok None ∨ (avp_code h, avp_vendor h) = (0, 0).
Definition known_avp (h : avp_hdr) (o : obj) (data : dict_avp_data) : Prop :=
  lookup_model h = Ok (Some o) ∧ avp_data d o = Some data.

#[export] Instance unknown_avp_dec h : Decision (unknown_avp h).
Proof. unfold unknown_avp. apply _. Defined.

(** Each AVP of a tree has the model that the dictionary gives for its header, or
    none because there is none. *)
Fixpoint looked_up (a : avp) : bool :=
  match a with
  | Avp m n h v s r l =>
      match m with Some o => bool_decide (lookup_model h = Ok (Some o)) | None => bool_decide (unknown_avp h) end &&
      forallb looked_up l
  end.

(** The AVP at a path of a received one, of which the data of groups is split
    again; and whether a mandatory AVP without a model is refused there. *)
Inductive wire_at : bool → avp → list nat → bool → avp → Prop :=
  | wire_here mandatory a : wire_at mandatory a [] mandatory a
  | wire_in mandatory a o data l i b path mandatory' c :
      known_avp (avp_public a) o data → a_basetype data = AVP_TYPE_GROUPED →
      parsebuf_list (default [] (avp_source a)) (avp_datalen a) = Ok (l, None) → l !! i = Some b →
      wire_at (sub_mandatory mandatory a) b path mandatory' c →
      wire_at mandatory a (i :: path) mandatory' c.

(** What is wrong with a received AVP, by the code that is reported for it. *)
Definition defect (mandatory : bool) (a : avp) (e : errno) (code : option pei_errcode) : Prop :=
  let h := avp_public a in
  match code with
  | None => lookup_model h = Err e
  | Some DIAMETER_AVP_UNSUPPORTED =>
      e = ENOTSUP ∧ unknown_avp h ∧ mandatory = true ∧ has (avp_flags h) AVP_FLAG_MANDATORY = true
  | Some DIAMETER_INVALID_AVP_LENGTH =>
      e = EBADMSG ∧ ∃ o data, known_avp h o data ∧
        avp_value_sizes (a_basetype data) ≠ 0 ∧ avp_datalen a ≠ avp_value_sizes (a_basetype data)
  | Some DIAMETER_INVALID_AVP_VALUE =>
      ∃ o data, known_avp h o data ∧
        if decide (a_basetype data = AVP_TYPE_GROUPED)
        then e = EBADMSG ∧ ∃ l, parsebuf_list (default [] (avp_source a)) (avp_datalen a) = Ok (l, Some e)
        else ∃ v, read_value (a_basetype data) (avp_datalen a) (default [] (avp_source a)) = Ok v ∧ type_check d o v = Some e
  | _ => False
  end.

(** The error of a failed parse of [a], which leaves [a']: the received AVP at
    some path has the defect that is reported, and [error_info], if it is filled,
    names the AVP at that path of the resulting tree. *)
Definition pei_ok (mandatory : bool) (a a' : avp) (e : perr) : Prop :=
  ∃ path mandatory' b, wire_at mandatory a path mandatory' b ∧ defect mandatory' b (fst e) (pei_code <$> snd e) ∧
    ∀ p, snd e = Some p → pei_avp p = Some path ∧ pei_protoerr p = false ∧
      ∃ b', subtree a' path = Some b' ∧ avp_public b' = avp_public b.

(** What [parsedict_do_avp] returns. *)
Definition parsedict_ok (mandatory : bool) (a : avp) (n : nat) (r : res (avp * option perr)) : Prop :=
  ∃ a' e, r = Ok (a', e) ∧ avp_public a' = avp_public a ∧
    match e with
    | None => parsed mandatory a' = true ∧ looked_up a' = true ∧ (depth a' ≤ n)%nat
    | Some e => pei_ok mandatory a a' e
    end.

Definition source_len (a : avp) : nat := length (default [] (avp_source a)).

(** What the loop over a list leaves: the AVPs in front of the one that fails are
    parsed. *)
Definition chain_ok (mandatory : bool) (k : nat) (l : list avp) (n : nat) (r : res (list avp * option perr)) : Prop :=
  ∃ l' e, r = Ok (l', e) ∧
    match e with
    | None => forallb (parsed mandatory) l' = true ∧ forallb looked_up l' = true ∧ Forall (λ a, depth a ≤ n)%nat l'
    | Some e => ∃ i a a' e0, l !! i = Some a ∧ l' !! i = Some a' ∧ e = at_child (k + i) e0 ∧ pei_ok mandatory a a' e0 ∧
        forallb (parsed mandatory) (take i l') = true ∧ forallb looked_up (take i l') = true
    end.

(** The error of a child, seen from the group. *)
Lemma pei_ok_child mandatory a a' o data l i b b' e :
  known_avp (avp_public a) o data → a_basetype data = AVP_TYPE_GROUPED →
  parsebuf_list (default [] (avp_source a)) (avp_datalen a) = Ok (l, None) →
  l !! i = Some b → avp_children a' !! i = Some b' →
  pei_ok (sub_mandatory mandatory a) b b' e → pei_ok mandatory a a' (at_child i e).
Proof.
  intros Hk Ht Hl Hi Hi' (path & m & c & Hw & Hd & Hp). exists (i :: path), m, c. split; [by eapply wire_in|].
  destruct e as [en [p|]]; unfold at_child in *; cbn [fst snd fmap option_fmap option_map] in *; [|by split].
  split; [done|]. intros ? [= <-]. destruct (Hp p eq_refl) as (Ha & He & b2 & Hs & Hh). cbn [pei_avp pei_protoerr]. rewrite Ha.
  split; [done|]. split; [done|]. exists b2. split; [cbn [subtree]; by rewrite Hi'|done].
Qed.

Lemma parsedict_chain_ok mandatory f n k l :
  Forall (λ a, parsedict_ok mandatory a n (f a)) l → chain_ok mandatory k l n (parsedict_chain f k l).
Proof.
  intros Hl. revert k. induction Hl as [|a l (a' & e & Hf & Hh & He) _ IH]; intros k.
  - exists [], None. split; [done|]. split; [done|]. split; [done|constructor].
  - cbn [parsedict_chain]. rewrite Hf. cbn [res_bind]. destruct e as [e|].
    + eexists _, _. split; [done|]. exists 0%nat, a, a', e. rewrite Nat.add_0_r. by repeat split.
    + destruct He as (Hp & Hk & Hd). specialize (IH (S k)) as (l' & e & -> & IH). cbn [res_bind]. eexists _, _. split; [done|].
      destruct e as [e|].
      * destruct IH as (i & b & b' & e0 & Hi & Hi' & -> & Hb & Ht & Ht'). exists (S i), b, b', e0. cbn [lookup list_lookup take forallb].
        rewrite Hp, Hk, Ht, Ht'. repeat split; try done. f_equal. lia.
      * destruct IH as (IHp & IHk & IHd). cbn [forallb]. rewrite Hp, Hk, IHp, IHk. split; [done|]. split; [done|]. by constructor.
Qed.

Lemma depth_children m n0 h v s r l n :
  Forall (λ a, depth a ≤ n)%nat l → (depth (Avp m n0 h v s r l) ≤ S n)%nat.
Proof. intros Hl. cbn [depth]. apply le_n_S. induction Hl; simpl; lia. Qed.

Lemma datalen_fresh a : fresh a → avp_datalen a = avp_len (avp_public a) - GETAVPHDRSZ (avp_flags (avp_public a)).
Proof.
  intros (_ & _ & _ & _ & _ & _ & _ & _ & Hl & _). unfold avp_datalen.
  pose proof (GETAVPHDRSZ_range (avp_flags (avp_public a))). apply w32_small. lia.
Qed.

(** Reading a value of the right size. *)
Lemma read_value_ok t len source :
  t ≠ AVP_TYPE_GROUPED → is_bytes source → 0 ≤ len ≤ zlen source →
  avp_value_sizes t = 0 ∨ len = avp_value_sizes t →
  ∃ v, read_value t len source = Ok v ∧ value_ok t (Some v) = true.
Proof.
  intros Ht Hb Hl Hs.
  assert (∀ n, Z.of_nat n = len → ∃ v, get n 0 source = Ok v) as Hget.
  { intros n Hn. destruct (get_ok n 0 source Hb) as (v & -> & _); [lia..|]. by exists v. }
  destruct t; try done; cbn [avp_value_sizes] in Hs; unfold read_value.
  1: { rewrite decide_False by lia. by eexists. }
  all: destruct Hs as [?| ->]; [done|].
  all: first [destruct (Hget 4%nat eq_refl) as [v ->]|destruct (Hget 8%nat eq_refl) as [v ->]]; by exists (NUM v).
Qed.

Context `{!MsgDictionaryLaws D}.

Lemma lookup_model_safe h : lookup_model h ≠ Crash.
Proof. unfold lookup_model. destruct (has _ _); [apply avp_by_struct_safe|apply avp_by_code_safe]. Qed.

Lemma lookup_model_found h o :
  lookup_model h = Ok (Some o) → ∃ data, avp_data d o = Some data ∧ avp_code h = a_code data.
Proof.
  unfold lookup_model. destruct (has _ _).
  - intros (data & Hd & Hc & _)%avp_by_struct_found. eauto.
  - intros (data & Hd & Hc & _)%avp_by_code_found. eauto.
Qed.

(** An AVP without a model in the dictionary. *)
Lemma avp_unknown_ok mandatory a n :
  fresh a → unknown_avp (avp_public a) → parsedict_ok mandatory a (S n)
    (avp_unknown mandatory (with_mnf (avp_code (avp_public a), avp_vendor (avp_public a)) a)).
Proof.
  intros Hfr Hun. pose proof (datalen_fresh a Hfr) as Hdl. pose proof (GETAVPHDRSZ_range (avp_flags (avp_public a))).
  destruct a as [m n0 h v s r l].
  destruct Hfr as (E1 & _ & _ & E2 & E3 & _ & _ & _ & Hlen & src & E4 & Hsb & Hsl).
  cbn [avp_model avp_rawdata avp_children avp_source avp_public] in *. subst.
  unfold avp_unknown, with_mnf. cbn [avp_public avp_source avp_rawdata avp_model avp_val avp_children].
  destruct (mandatory && has (avp_flags h) AVP_FLAG_MANDATORY) eqn:Em.
  - eexists _, _. split; [done|]. split; [done|]. apply andb_prop in Em as [-> ?].
    eexists [], _, _. split; [constructor|]. split; [by repeat split|]. intros ? [= <-]. repeat split. by eexists.
  - change (avp_datalen _) with (avp_datalen (Avp None n0 h v (Some src) None [])). rewrite Hdl.
    assert (∀ raw, zlen (default [] raw) = avp_len h - GETAVPHDRSZ (avp_flags h) →
      parsed mandatory (Avp None (avp_code h, avp_vendor h) h v None raw []) = true) as Hp.
    { intros raw Hr. cbn [parsed]. rewrite Em, Hr, !bool_decide_true by (done || lia). done. }
    case_decide; [|rewrite decide_False by lia]; eexists _, _; (split; [done|]); (split; [done|]);
      (split; [apply Hp|split; [cbn; by rewrite bool_decide_true|cbn; lia]]).
    + cbn. unfold zlen; simpl. lia.
    + cbn [with_rawdata avp_rawdata default from_option id]. unfold zlen in *. rewrite length_take. lia.
Qed.

(** An AVP of a type that is not grouped. *)
Lemma avp_interpret_ok mandatory a n o data source :
  fresh a → avp_source a = Some source → known_avp (avp_public a) o data → avp_code (avp_public a) = a_code data →
  a_basetype data ≠ AVP_TYPE_GROUPED →
  avp_value_sizes (a_basetype data) = 0 ∨ avp_datalen a = avp_value_sizes (a_basetype data) →
  parsedict_ok mandatory a (S n)
    (avp_interpret d o (a_basetype data) (Some source) (with_source None (with_model (Some o) a))).
Proof.
  intros Hfr Hs [Hk Hd] Hc Ht Hsz. pose proof (datalen_fresh a Hfr) as Hdl. destruct a as [m n0 h v s r l].
  destruct Hfr as (E1 & _ & E5 & E2 & E3 & _ & _ & _ & Hlen & src & E4 & Hsb & Hsl).
  cbn [avp_model avp_rawdata avp_children avp_source avp_public avp_val] in *. subst. injection Hs as ->.
  unfold avp_interpret, with_model, with_source, store_value, with_value.
  cbn [avp_public avp_source avp_rawdata avp_model avp_val avp_children avp_mnf].
  rewrite decide_False by lia. change (avp_datalen _) with (avp_datalen (Avp None n0 h None (Some source) None [])).
  change (default [] (Some source)) with source. destruct (read_value_ok (a_basetype data) (avp_datalen (Avp None n0 h None (Some source) None [])) source Ht Hsb)
    as (v & Hrv & Hv); [lia|done|]. rewrite Hrv. cbn [default from_option id res_bind].
  destruct (type_check d o v) as [e|] eqn:Etc; eexists _, _; (split; [done|]); (split; [done|]).
  - eexists [], _, _. split; [constructor|]. split; [|intros ? [= <-]; repeat split; by eexists].
    exists o, data. split; [done|]. rewrite decide_False by done. by exists v.
  - split; [|split; [cbn; by rewrite bool_decide_true|cbn [depth foldr]; lia]]. cbn [parsed]. rewrite Hd, bool_decide_true by done. cbn [andb].
    destruct (a_basetype data); try done; rewrite Hv, !bool_decide_true by done; done.
Qed.

(** A grouped AVP whose children could be split. *)
Lemma on_children_ok mandatory f a o data l n :
  known_avp (avp_public a) o data → avp_code (avp_public a) = a_code data → a_basetype data = AVP_TYPE_GROUPED →
  parsebuf_list (default [] (avp_source a)) (avp_datalen a) = Ok (l, None) →
  Forall (λ b, parsedict_ok (sub_mandatory mandatory a) b n (f b)) l →
  ∀ b, avp_public b = avp_public a → avp_model b = Some o → avp_children b = l →
  parsedict_ok mandatory a (S n) (on_children f b).
Proof.
  intros [Hk Hd] Hc Ht Hl Hf [m n0 h v s r l0] Hh Hm Hch. unfold on_children. cbn [avp_public avp_model avp_children] in *. subst.
  destruct (parsedict_chain_ok (sub_mandatory mandatory a) f n 0 l Hf) as (l' & e & -> & He). cbn [res_bind].
  eexists _, _. split; [done|]. split; [done|]. unfold with_children.
  cbn [avp_model avp_mnf avp_public avp_val avp_source avp_rawdata]. destruct e as [e|].
  - destruct He as (i & b & b' & e0 & Hi & Hi' & -> & He & _). by eapply pei_ok_child.
  - destruct He as (Hp & Hlk & Hdp). split; [|split; [|by apply depth_children]].
    + cbn [parsed]. rewrite Hd, bool_decide_true, Ht by done. done.
    + cbn [looked_up]. by rewrite bool_decide_true.
Qed.

Lemma parsedict_avp_ok fuel mandatory a :
  fresh a → (source_len a < fuel)%nat → parsedict_ok mandatory a fuel (parsedict_do_avp d fuel mandatory a).
Proof.
  revert mandatory a. induction fuel as [|fuel IH]; intros mandatory a Hfr Hf; [lia|].
  pose proof (datalen_fresh a Hfr) as Hdl. pose proof Hfr as Hfr'.
  destruct Hfr as (E1 & E0 & E5 & E2 & E3 & Hcode & Hfl & Hv & Hlen & src & E4 & Hsb & Hsl).
  cbn [parsedict_do_avp]. rewrite E1. unfold parsedict_new, avp_resolve.
  fold (lookup_model (avp_public a)). case_decide as Emnf.
  { (* code 0 without a vendor: never searched *)
    cbn [res_bind]. rewrite E1. replace a with (with_mnf (avp_code (avp_public a), avp_vendor (avp_public a)) a) at 2
      by (rewrite <- Emnf; by destruct a). apply avp_unknown_ok; [done|]. right. by rewrite <- Emnf, E0. }
  pose proof (lookup_model_safe (avp_public a)) as Hsafe.
  destruct (lookup_model (avp_public a)) as [[o|]|e|] eqn:Elk; [| | |done]; cbn [res_bind].
  - destruct (lookup_model_found _ _ Elk) as (data & Hd & Hc). cbn [avp_model with_model avp_rawdata]. rewrite Hd, E2.
    assert (known_avp (avp_public a) o data) as Hk by done.
    fold (with_model (Some o) a). change (avp_datalen (with_model (Some o) a)) with (avp_datalen a).
    case_decide as Esz.
    { eexists _, _. split; [done|]. split; [done|]. eexists [], _, _. split; [constructor|].
      split; [split; [done|by exists o, data]|]. intros ? [= <-]. repeat split. by eexists. }
    change (avp_source (with_model (Some o) a)) with (avp_source a). rewrite E4.
    assert (avp_value_sizes (a_basetype data) = 0 ∨ avp_datalen a = avp_value_sizes (a_basetype data)) as Hsz by lia.
    destruct (a_basetype data) eqn:Et; try (rewrite <- Et; apply avp_interpret_ok; try done; by rewrite Et).
    change (avp_datalen (with_source None (with_model (Some o) a))) with (avp_datalen a).
    change (avp_children (with_source None (with_model (Some o) a))) with (avp_children a). rewrite E3. cbn [default from_option id app].
    pose proof (GETAVPHDRSZ_range (avp_flags (avp_public a))).
    destruct (parsebuf_list_safe src (avp_datalen a) Hsb) as (l & e & Hpl & Hl & Hlen2 & He); [lia|lia|]. rewrite Hpl. cbn [res_bind].
    assert (default [] (avp_source a) = src) as Hsrc by (by rewrite E4). rewrite <- Hsrc in Hpl.
    unfold source_len in *. rewrite E4 in Hf. cbn [default from_option id] in Hf.
    destruct He as [->| ->].
    + eapply on_children_ok; [done..| |done|done|done]. fold (sub_mandatory mandatory a).
      rewrite Forall_forall in *. intros b Hb. apply IH; [by apply Hl|].
      destruct (Hlen2 b Hb) as (bs & -> & Hbs). cbn [default from_option id]. unfold zlen in *. lia.
    + eexists _, _. split; [done|]. split; [done|]. eexists [], _, _. split; [constructor|]. split.
      * exists o, data. split; [done|]. rewrite decide_True by done. split; [done|]. by exists l.
      * intros ? [= <-]. repeat split. by eexists.
  - change (avp_model (with_mnf _ a)) with (avp_model a). rewrite E1. apply avp_unknown_ok; [done|by left].
  - eexists _, _. split; [done|]. split; [done|]. eexists [], _, _. split; [constructor|]. split; [done|]. by intros ? [=].
Qed.

(** *** A received message *)

(** A message as [fd_msg_parse_buffer] makes it. *)
Definition received_msg (m : msg) : Prop :=
  msg_model m = None ∧ msg_mnf m = (0, 0) ∧ Forall fresh (msg_children m).

(** The longest data of the AVPs of a message. *)
Definition max_source (m : msg) : nat := foldr (λ a n, Nat.max (source_len a) n) 0%nat (msg_children m).

Lemma max_source_in m a : a ∈ msg_children m → (source_len a ≤ max_source m)%nat.
Proof.
  unfold max_source. induction (msg_children m) as [|b l IH]; [by intros ?%elem_of_nil|].
  simpl. intros [->|Ha]%elem_of_cons; [lia|]. specialize (IH Ha). lia.
Qed.

Lemma parsedict_msg_chain_again fuel m :
  forallb (parsed true) (msg_children m) = true → Forall (λ a, depth a ≤ fuel)%nat (msg_children m) →
  msg_rawbuffer m = None → parsedict_msg_chain d fuel false m = Ok (m, None).
Proof.
  intros Hp Hd Hr. unfold parsedict_msg_chain, parsedict_do_chain. rewrite parsedict_chain_same.
  - cbn [res_bind]. destruct m. cbn in *. by subst.
  - rewrite forallb_forall in Hp. rewrite Forall_forall in *. intros a Ha.
    apply parsedict_again; [|by apply Hd]. apply Hp. by apply list_elem_of_In.
Qed.

Lemma parsedict_msg_again fuel m o data n :
  msg_model m = Some o → cmd_data d o = Some data → msg_mnf m = (0, n) →
  cmd_by_code d (has (msg_flags (msg_public m)) CMD_FLAG_REQUEST) (msg_code (msg_public m)) = Some o →
  msg_mnf m ≠ (msg_code (msg_public m), msg_flags (msg_public m)) →
  forallb (parsed true) (msg_children m) = true → Forall (λ a, depth a ≤ fuel)%nat (msg_children m) →
  msg_rawbuffer m = None → fd_msg_parse_dict d fuel m = Ok (m, None).
Proof.
  intros Hm Hd Hn Hs Hne Hp Hdp Hr. unfold fd_msg_parse_dict, parsedict_do_msg. rewrite Hm, Hd.
  destruct (msg_model_valid data (msg_public m)); [by apply parsedict_msg_chain_again|].
  unfold parsedict_msg_search. cbn [msg_mnf with_msg_model msg_public]. rewrite decide_False by done. rewrite Hs.
  assert (with_msg_model (Some o) (0, snd (msg_mnf m)) (with_msg_model None (msg_mnf m) m) = m) as ->
    by (destruct m; cbn in *; by subst).
  by apply parsedict_msg_chain_again.
Qed.

(** What [fd_msg_parse_dict] returns for a received message. *)
Definition parse_dict_ok (fuel : nat) (m : msg) (r : res (msg * option perr)) : Prop :=
  ∃ m' e, r = Ok (m', e) ∧ msg_public m' = msg_public m ∧
    let h := msg_public m in
    let cmd := cmd_by_code d (has (msg_flags h) CMD_FLAG_REQUEST) (msg_code h) in
    match e with
    | None =>
        forallb (parsed true) (msg_children m') = true ∧ forallb looked_up (msg_children m') = true ∧ msg_rawbuffer m' = None ∧
        (∃ o c, cmd = Some o ∧ msg_model m' = Some o ∧ cmd_data d o = Some c ∧ c_code c = msg_code h ∧
           has (c_flag_val c) CMD_FLAG_REQUEST = has (msg_flags h) CMD_FLAG_REQUEST) ∧
        fd_msg_parse_dict d fuel m' = Ok (m', None)
    | Some e =>
        msg_rawbuffer m' = msg_rawbuffer m ∧
        (msg_model m' = None ∧ e = no_model ∧ (cmd = None ∨ (msg_code h, msg_flags h) = (0, 0)) ∨
         ∃ i a a' e0, msg_children m !! i = Some a ∧ msg_children m' !! i = Some a' ∧ e = at_child i e0 ∧ pei_ok true a a' e0 ∧
           forallb (parsed true) (take i (msg_children m')) = true ∧ forallb looked_up (take i (msg_children m')) = true)
    end.

Lemma parse_dict_result fuel m :
  received_msg m → (max_source m < fuel)%nat → parse_dict_ok fuel m (fd_msg_parse_dict d fuel m).
Proof.
  intros (Hm & Hn & Hfr) Hf. unfold fd_msg_parse_dict, parsedict_do_msg. rewrite Hm.
  unfold parsedict_msg_search. rewrite Hn. case_decide as Hcode.
  { eexists _, _. split; [done|]. split; [done|]. split; [done|]. left. by repeat split; [..|right]. }
  destruct (cmd_by_code d _ _) as [o|] eqn:Ho.
  2: { eexists _, _. split; [done|]. split; [done|]. cbn zeta. rewrite Ho. split; [done|]. left. by repeat split; [..|left]. }
  destruct (cmd_by_code_found d _ _ o Ho) as (c & Hc & Hcc & Hcr).
  unfold parsedict_msg_chain, parsedict_do_chain. cbn [msg_children with_msg_model snd].
  destruct (parsedict_chain_ok true (parsedict_do_avp d fuel true) fuel 0 (msg_children m)) as (l & e & -> & He).
  { rewrite Forall_forall in *. intros a Ha. apply parsedict_avp_ok; [by apply Hfr|].
    pose proof (max_source_in m a Ha). lia. }
  cbn [res_bind]. eexists _, _. split; [done|]. split; [done|]. cbn zeta. rewrite Ho. destruct e as [e|].
  - split; [done|]. right. destruct He as (i & a & a' & e0 & Hi & Hi' & -> & He). exists i, a, a', e0. destruct He as (? & ? & ?). by split_and!.
  - destruct He as (Hp & Hk & Hd). split; [done|]. split; [done|]. split; [done|]. split; [by exists o, c|].
    by apply (parsedict_msg_again fuel _ o c 0).
Qed.

Lemma max_source_received m n :
  Forall (λ a, ∃ src, avp_source a = Some src ∧ zlen src + 28 ≤ Z.of_nat n) (msg_children m) → (max_source m ≤ n)%nat.
Proof.
  unfold max_source. induction 1 as [|a l (src & Hs & Hl) _ IH]; [simpl; lia|]. cbn [foldr].
  unfold source_len at 1. rewrite Hs. cbn [default from_option id]. unfold zlen in *. lia.
Qed.

(** C1: receiving a message, from its bytes to its interpretation with a
    dictionary, terminates without reading outside of the buffer, whatever the
    bytes.  Parsing with the dictionary either finds the command and gives every
    AVP of the tree the model that the dictionary has for its header, or none when
    it has none and the AVP is not mandatory, with values of the type of the model
    that its check accepts; then the buffer is released and parsing again changes
    nothing.  Or it fails: the command is not in the dictionary, or the AVP at a
    path of the received data, behind AVPs that are parsed, has the defect that is
    reported (the dictionary has no model for a mandatory AVP; its length is not
    that of its type; its group cannot be split, or the check of its type refuses
    the value; or the search itself fails), and [error_info] names it. *)
Theorem fd_msg_receive_ok buf :
  is_bytes buf → zlen buf < 2 ^ 64 →
  match fd_msg_parse_buffer buf (zlen buf) with
  | Ok m => parse_dict_ok (S (length buf)) m (fd_msg_parse_dict d (S (length buf)) m)
  | Err e => e = EINVAL ∨ e = EBADMSG
  | Crash => False
  end.
Proof.
  intros Hb H64. pose proof (parse_buffer_result buf Hb H64) as Hr.
  destruct (fd_msg_parse_buffer buf (zlen buf)) as [m|e|]; [|naive_solver|done].
  destruct Hr as (_ & _ & _ & Hm & Hn & Hl). apply parse_dict_result.
  - split; [done|]. split; [done|]. eapply Forall_impl; [done|]. by intros a [? _].
  - apply le_n_S, max_source_received. eapply Forall_impl; [done|]. intros a [_ Ha]. exact Ha.
Qed.
End results.

(** ** Sending and receiving *)

Section roundtrip.
Context {D : Type} `{!MsgDictionary D} (d : D).

Definition value_fits (v : avp_value) (t : dict_avp_basetype) : bool :=
  match v with OS _ => true | NUM n => bool_decide (0 ≤ n < 2 ^ (8 * avp_value_sizes t)) end.

(** The vendor that is sent. *)
Definition sent_vendor (h : avp_hdr) : Z := if has (avp_flags h) AVP_FLAG_VENDOR then avp_vendor h else 0.

(** A tree that the receiver, with the same dictionary, accepts: the header
    fields fit, the model is the one the header designates, the values fit in
    their types and pass their checks; an AVP without a model has none in the
    dictionary and is not mandatory. *)
Fixpoint sendable (mandatory : bool) (a : avp) : bool :=
  match a with
  | Avp m n h v s r l =>
      bool_decide (hdr_fits h (avp_size d a)) &&
      match m with
      | Some o =>
          bool_decide ((0, 0) ≠ (avp_code h, sent_vendor h)) &&
          bool_decide (lookup_model d h = Ok (Some o)) &&
          match avp_data d o with
          | None => false
          | Some data =>
              match a_basetype data with
              | AVP_TYPE_GROUPED => forallb (sendable (mandatory && has (avp_flags h) AVP_FLAG_MANDATORY)) l
              | t =>
                  bool_decide (l = []) && value_ok t v &&
                  match v with
                  | Some v => value_fits v t && bool_decide (type_check d o v = None)
                  | None => false
                  end
              end
          end
      | None =>
          typed d a && bool_decide (lookup_model d h = Ok None) &&
          negb (mandatory && has (avp_flags h) AVP_FLAG_MANDATORY)
      end
  end.

(** The tree that the receiver builds. *)
Fixpoint canonical (a : avp) : avp :=
  match a with
  | Avp m n h v s r l =>
      let h' := AvpHdr (avp_code h) (avp_flags h) (avp_size d a) (sent_vendor h) in
      match m with
      | Some o =>
          let grouped := match avp_data d o with
                         | Some data => bool_decide (a_basetype data = AVP_TYPE_GROUPED)
                         | None => false
                         end in
          Avp m (0, 0) h' (if grouped then None else v) None None (map canonical l)
      | None =>
          Avp None (avp_code h, sent_vendor h) h' None None
            (match raw_bytes h s r with [] => None | raw => Some raw end) []
      end
  end.

Lemma sendable_typed mandatory a : sendable mandatory a = true → typed d a = true.
Proof.
  revert mandatory. induction a as [m n h v s r l IH] using avp_tree_ind. intros mandatory.
  cbn [sendable]. intros [_ Hs]%andb_prop. destruct m as [o|].
  - apply andb_prop in Hs as [_ Hs]. cbn [typed]. destruct (avp_data d o) as [data|]; [|done].
    destruct (a_basetype data).
    1: { rewrite forallb_forall in *. intros a Ha. rewrite Forall_forall in IH.
         eapply IH; [by apply list_elem_of_In|by apply Hs]. }
    all: apply andb_prop in Hs as [Hs _]; by apply andb_prop in Hs as [-> ->].
  - by apply andb_prop in Hs as [[? _]%andb_prop _].
Qed.

Lemma sendable_chain_typed mandatory l : forallb (sendable mandatory) l = true → forallb (typed d) l = true.
Proof. rewrite !forallb_forall. intros Hl a Ha. eapply sendable_typed, Hl, Ha. Qed.

Lemma sendable_fits mandatory l :
  forallb (sendable mandatory) l = true → Forall (λ a, hdr_fits (avp_public a) (avp_size d a)) l.
Proof.
  rewrite forallb_forall, Forall_forall. intros Hl a Ha%list_elem_of_In%Hl. destruct a. cbn [sendable] in Ha.
  apply andb_prop in Ha as [Ha%bool_decide_eq_true _]. done.
Qed.

Lemma enc_body_eq a body :
  enc_avp d a = hdr_bytes (avp_public a) (avp_size d a) ++ body → enc_body d a = body.
Proof. rewrite enc_split. apply app_inv_head. Qed.

Lemma parsedict_chain_unparsed f i l rest :
  Forall (λ a, ∀ rest, f (unparsed d a rest) = Ok (canonical a, None)) l →
  parsedict_chain f i (unparsed_chain d l rest) = Ok (map canonical l, None).
Proof.
  intros Hl. revert i. induction Hl as [|a l Ha _ IH]; intros i; [done|].
  cbn [unparsed_chain parsedict_chain map]. rewrite Ha. cbn [res_bind]. by rewrite IH.
Qed.

(** The length and the data that the receiver sees. *)
Lemma unparsed_datalen a rest :
  typed d a = true → hdr_fits (avp_public a) (avp_size d a) →
  avp_datalen (unparsed d a rest) = avp_size d a - GETAVPHDRSZ (avp_flags (avp_public a)).
Proof.
  intros Ht (_ & _ & _ & Hs). unfold avp_datalen, unparsed. cbn [avp_public avp_len avp_flags].
  pose proof (typed_hdr_size d a Ht). pose proof (GETAVPHDRSZ_range (avp_flags (avp_public a))).
  apply w32_small. lia.
Qed.

Lemma read_value_enc t v rest :
  value_ok t (Some v) = true → value_fits v t = true →
  read_value t (value_size t v) (pad (value_bytes t v) ++ rest) = Ok v.
Proof.
  intros Ht Hv. unfold pad. rewrite <- app_assoc.
  assert (∀ n z r, 0 ≤ z < 2 ^ (8 * Z.of_nat n) → get n 0 (be n z ++ r) = Ok z) as Hget.
  { intros n z r Hz. pose proof (get_app n 0 [] (be n z) r eq_refl (length_be n z)) as E. cbn [app] in E.
    by rewrite E, unbe_be_small. }
  destruct t, v as [os|z]; try done; cbn [value_fits] in Hv; try apply bool_decide_eq_true in Hv;
    cbn [read_value value_size value_bytes avp_value_sizes] in *.
  1: { rewrite decide_False by (rewrite !zlen_app; unfold zlen; lia). unfold zlen.
       by rewrite Nat2Z.id, take_app_length. }
  all: first [change (Z.to_nat 4) with 4%nat|change (Z.to_nat 8) with 8%nat]; by rewrite Hget.
Qed.

(** Splitting the data of a grouped AVP. *)
Lemma parsebuf_list_enc l rest :
  forallb (typed d) l = true → Forall (λ a, hdr_fits (avp_public a) (avp_size d a)) l →
  chain_size d l < 2 ^ 32 →
  parsebuf_list (enc_chain d l ++ rest) (chain_size d l) = Ok (unparsed_chain d l rest, None).
Proof.
  intros Ht Hh Hlt. assert (zlen (enc_chain d l) = chain_size d l) as Hz.
  { apply zlen_enc_chain, Forall_forall. intros b Hb. apply zlen_enc. rewrite forallb_forall in Ht.
    apply Ht. by apply list_elem_of_In. }
  rewrite <- Hz in *. unfold parsebuf_list.
  pose proof (parse_enc_chain d (S (Z.to_nat (zlen (enc_chain d l)))) [] l rest Ht Hh) as Hp.
  cbn [app] in Hp. change (zlen (@nil Z)) with 0 in Hp. apply Hp; lia.
Qed.

Lemma lookup_sent a rest : lookup_model d (avp_public (unparsed d a rest)) = lookup_model d (avp_public a).
Proof.
  unfold lookup_model, unparsed. cbn [avp_public avp_flags avp_vendor avp_code].
  by destruct (has (avp_flags (avp_public a)) AVP_FLAG_VENDOR).
Qed.

Lemma enc_known o data n h v s r l :
  avp_data d o = Some data →
  enc_body d (Avp (Some o) n h v s r l) =
    match a_basetype data, v with
    | AVP_TYPE_GROUPED, _ => enc_chain d l
    | t, Some v => pad (value_bytes t v)
    | t, None => []
    end.
Proof. intros Hd. apply enc_body_eq. cbn [enc_avp]. rewrite Hd. cbn [avp_public]. by destruct (a_basetype data), v. Qed.

Lemma parse_unknown mandatory n h v s r l rest :
  sendable mandatory (Avp None n h v s r l) = true →
  ∀ m, m = (avp_code h, sent_vendor h) →
  avp_unknown mandatory (with_mnf m (unparsed d (Avp None n h v s r l) rest)) =
    Ok (canonical (Avp None n h v s r l), None).
Proof.
  intros Hs m ->. cbn [sendable] in Hs. apply andb_prop in Hs as [Hf Hs]. apply bool_decide_eq_true in Hf.
  apply andb_prop in Hs as [[Ht _]%andb_prop Hm%negb_true_iff].
  pose proof (unparsed_datalen (Avp None n h v s r l) rest Ht Hf) as Hdl. cbn [avp_public] in Hdl.
  pose proof (raw_bytes_size d None n h v s r l eq_refl Ht) as Hraw.
  assert (enc_body d (Avp None n h v s r l) = pad (raw_bytes h s r)) as Hb by (by apply enc_body_eq).
  unfold avp_unknown. change (avp_flags (avp_public (with_mnf _ _))) with (avp_flags h). rewrite Hm.
  change (avp_datalen (with_mnf _ ?a)) with (avp_datalen a). rewrite Hdl. cbn [avp_size]. rewrite <- Hraw.
  unfold with_mnf, unparsed. cbn [avp_source avp_rawdata avp_model avp_mnf avp_public avp_val avp_children].
  rewrite Hb. unfold pad. rewrite <- app_assoc. cbn [canonical]. case_decide as E.
  - destruct (raw_bytes h s r) as [|b raw]; [done|]. exfalso. unfold zlen in E. simpl in E. lia.
  - rewrite decide_False by (rewrite !zlen_app; pose proof (zlen_nonneg (replicate (Z.to_nat (PAD4 (zlen (raw_bytes h s r)) - zlen (raw_bytes h s r))) 0 ++ rest)) as Hz; rewrite zlen_app in Hz; lia).
    unfold zlen at 1. rewrite Nat2Z.id, take_app_length. by destruct (raw_bytes h s r).
Qed.

Lemma parse_unparsed fuel mandatory a :
  sendable mandatory a = true → (depth a ≤ fuel)%nat →
  ∀ rest, parsedict_do_avp d fuel mandatory (unparsed d a rest) = Ok (canonical a, None).
Proof.
  revert fuel mandatory. induction a as [m n h v s r l IH] using avp_tree_ind. intros fuel mandatory Hs Hf rest.
  cbn [depth] in Hf. destruct fuel as [|fuel]; [lia|]. set (a := Avp m n h v s r l) in *.
  pose proof (sendable_typed _ _ Hs) as Ht. pose proof Hs as Hs'. cbn [sendable] in Hs. fold a in Hs.
  apply andb_prop in Hs as [Hfit Hs]. apply bool_decide_eq_true in Hfit.
  pose proof (unparsed_datalen a rest Ht Hfit) as Hdl. cbn [parsedict_do_avp].
  change (avp_model (unparsed d a rest)) with (@None obj). cbv iota. unfold parsedict_new, avp_resolve.
  fold (lookup_model d (avp_public (unparsed d a rest))). rewrite lookup_sent.
  change (avp_mnf (unparsed d a rest)) with (0, 0).
  change (avp_code (avp_public (unparsed d a rest)), avp_vendor (avp_public (unparsed d a rest)))
    with (avp_code h, sent_vendor h).
  change (avp_public a) with h in *. destruct m as [o|].
  2: { apply andb_prop in Hs as [[_ Hlk%bool_decide_eq_true]%andb_prop _]. case_decide as E; [|rewrite Hlk]; cbn [res_bind].
       - change (avp_model (unparsed d a rest)) with (@None obj). cbv iota.
         exact (parse_unknown mandatory n h v s r l rest Hs' (0, 0) E).
       - change (avp_model (with_mnf _ (unparsed d a rest))) with (@None obj). cbv iota.
         by apply parse_unknown. }
  apply andb_prop in Hs as [[Hne%bool_decide_eq_true Hlk%bool_decide_eq_true]%andb_prop Hs].
  rewrite decide_False, Hlk by done. cbn [res_bind]. change (avp_model (with_model (Some o) _)) with (Some o).
  cbv iota. destruct (avp_data d o) as [data|] eqn:Ed; [|done].
  change (avp_rawdata (with_model (Some o) (unparsed d a rest))) with (@None bytes). cbv iota.
  change (avp_datalen (with_model (Some o) (unparsed d a rest))) with (avp_datalen (unparsed d a rest)). 
  pose proof (enc_known o data n h v s r l Ed) as Hb. fold a in Hb.
  assert (avp_size d a = GETAVPHDRSZ (avp_flags h) + match a_basetype data, v with
    | AVP_TYPE_GROUPED, _ => chain_size d l | t, Some v => value_size t v | t, None => 0 end) as Esz
    by (unfold a; cbn [avp_size]; by rewrite Ed).
  rewrite Esz, Z.add_simpl_l in Hdl. rewrite Hdl.
  change (avp_source (with_model (Some o) (unparsed d a rest))) with (Some (enc_body d a ++ rest)).
  rewrite Hb. clear Hb.
  destruct (a_basetype data) eqn:Et.
  1: { rewrite decide_False by (intros [[] _]; done).
       change (avp_datalen (with_source None (with_model (Some o) (unparsed d a rest)))) with (avp_datalen (unparsed d a rest)).
       rewrite Hdl. cbn [default from_option id].
       pose proof (sendable_chain_typed _ _ Hs) as Hct. pose proof (sendable_fits _ _ Hs) as Hcf.
       rewrite (parsebuf_list_enc l rest); [|done|done|].
       2: { rewrite <- Hdl. apply w32_range. }
       cbn [res_bind]. change (avp_children (with_source None _)) with (@nil avp). cbn [app].
       unfold on_children. cbn [avp_children with_children]. rewrite parsedict_chain_unparsed.
       - cbn [res_bind]. unfold a. cbn [canonical]. rewrite Ed, Et, bool_decide_true by done. done.
       - rewrite Forall_forall in *. intros b Hb rest'. apply IH; [done| |pose proof (depth_child b l Hb); lia].
         rewrite forallb_forall in Hs. apply Hs. by apply list_elem_of_In. }
  all: apply andb_prop in Hs as [[Hnil%bool_decide_eq_true Hv]%andb_prop Hs]; destruct v as [v|]; [|done];
    apply andb_prop in Hs as [Hvf Htc%bool_decide_eq_true].
  all: rewrite decide_False by (intros [? Hneq]; destruct v; try done; by apply Hneq).
  all: unfold avp_interpret.
  all: change (avp_datalen (with_source None (with_model (Some o) (unparsed d a rest)))) with (avp_datalen (unparsed d a rest)).
  all: rewrite Hdl; cbn [default from_option id].
  all: rewrite read_value_enc by done; cbn [res_bind]; rewrite Htc.
  all: rewrite decide_False.
  all: try (intros [? Hlt]; done).
  all: try (unfold a; cbn [canonical]; rewrite Ed, Et; subst l; done).
  intros [_ Hlt]. change (avp_size d a < GETAVPHDRSZ (avp_flags h)) in Hlt. rewrite Esz in Hlt.
  pose proof (value_size_nonneg AVP_TYPE_OCTETSTRING v). lia.
Qed.

(** The message that the receiver builds; [o] is the model of its command. *)
Definition canonical_msg (o : obj) (m : msg) : msg :=
  let h := msg_public m in
  Msg (Some o) (0, 0)
    (MsgHdr (msg_version h) (msg_size d m) (msg_flags h) (msg_code h) (msg_appl h) (msg_hbhid h) (msg_eteid h))
    None 0 None false None None (MsgCb None None None (0, 0)) None (map canonical (msg_children m)).

(** A message that the receiver accepts. *)
Definition msg_sendable (o : obj) (m : msg) : Prop :=
  let h := msg_public m in
  msg_typed d m = true ∧ msg_fits h (msg_size d m) ∧ (0, 0) ≠ (msg_code h, msg_flags h) ∧
  cmd_by_code d (has (msg_flags h) CMD_FLAG_REQUEST) (msg_code h) = Some o ∧
  forallb (sendable true) (msg_children m) = true.

#[export] Instance msg_sendable_dec o m : Decision (msg_sendable o m).
Proof. unfold msg_sendable. apply _. Defined.

(** C2: a message that is written, sent as bytes, split and parsed with the same
    dictionary is rebuilt: the receiver obtains the same tree, with every model
    resolved, every value back, the lengths computed, and the data of the
    unknown AVPs kept as it was sent. *)
Theorem fd_msg_roundtrip fuel o m :
  msg_sendable o m → Forall (λ a, depth a ≤ fuel)%nat (msg_children m) →
  (let* (buf, m1) := fd_msg_bufferize d m in
   let* m2 := fd_msg_parse_buffer buf (zlen buf) in
   fd_msg_parse_dict d fuel m2) = Ok (canonical_msg o m, None).
Proof.
  intros (Ht & Hfit & Hne & Hcmd & Hs) Hdp. pose proof Hfit as (_ & _ & _ & _ & _ & _ & Hlen).
  destruct (bufferize_enc d m) as [-> Hz]; [done|lia|]. cbn [res_bind]. unfold enc_msg in *.
  rewrite parse_buffer_enc; [|by eapply sendable_chain_typed|by eapply sendable_fits|done|lia]. cbn [res_bind].
  unfold fd_msg_parse_dict, parsedict_do_msg, received. cbn [msg_model].
  unfold parsedict_msg_search. cbn [msg_mnf msg_public msg_code msg_flags].
  rewrite decide_False, Hcmd by done. unfold parsedict_msg_chain, parsedict_do_chain.
  cbn [msg_children with_msg_model snd]. rewrite parsedict_chain_unparsed; [done|].
  rewrite forallb_forall in Hs. rewrite Forall_forall in *. intros a Ha rest.
  apply parse_unparsed; [|by apply Hdp]. apply Hs. by apply list_elem_of_In.
Qed.
End roundtrip.

(** ** Examples *)

Module Examples.
Import Small MsgBuf.Examples.

Lemma fd_msg_receive_ok_witness :
  let buf := [1; 0; 0; 32; 128; 0; 1; 1; 0; 0; 0; 0; 0; 0; 0; 1; 0; 0; 0; 2; 0; 0; 1; 7; 64; 0; 0; 11; 120; 121; 122; 0] in
  match fd_msg_parse_buffer buf (zlen buf) with
  | Ok m => parse_dict_ok base (S (length buf)) m (fd_msg_parse_dict base (S (length buf)) m)
  | Err e => e = EINVAL ∨ e = EBADMSG
  | Crash => False
  end.
Proof. intros buf. apply (fd_msg_receive_ok base buf); [by_compute|reflexivity]. Defined.

Lemma fd_msg_roundtrip_witness :
  (let* (buf, m1) := fd_msg_bufferize base cer in
   let* m2 := fd_msg_parse_buffer buf (zlen buf) in
   fd_msg_parse_dict base 2 m2) = Ok (canonical_msg base 6%nat cer, None).
Proof. apply (fd_msg_roundtrip base 2 6%nat cer); by_compute. Defined.

(** A Vendor-Specific-Application-Id whose data is cut: the first parse reports
    it, but leaves the model set, so that the second one accepts the message. *)
Definition cut : bytes :=
  [1; 0; 0; 40; 128; 0; 1; 1; 0; 0; 0; 0; 0; 0; 0; 1; 0; 0; 0; 2;
   0; 0; 1; 4; 64; 0; 0; 20; 0; 0; 1; 10; 64; 0; 0; 13; 0; 0; 0; 1].

Example parse_dict_again_accepts :
  (let* m := fd_msg_parse_buffer cut (zlen cut) in
   let* (m, e1) := fd_msg_parse_dict base 5 m in
   let* (m, e2) := fd_msg_parse_dict base 5 m in
   Ok (e1, e2)) =
  Ok (Some (EBADMSG, Some (Pei DIAMETER_INVALID_AVP_VALUE (Some [0%nat]) false)), None).
Proof. vm_compute. reflexivity. Qed.

(** The model of a request that was just created from it is judged invalid. *)
Example model_judged_invalid :
  (let* (m, _) := fd_msg_new base (Some 6%nat) 0 0 in
   Ok (msg_model_valid (DictCmdData 257 [67; 82] 224 128) (msg_public m))) = Ok false.
Proof. vm_compute. reflexivity. Qed.
End Examples.
