(* ===== verification/MsgTree.v ===== *)
(** * Messages: the tree, and the data attached to a message
    ([libfdproto/messages.c])

    [fd_msg_browse], [fd_msg_avp_add], [fd_msg_search_avp], the associations of
    a message (query, callbacks, source, session) and
    [fd_msg_new_answer_from_req].  An object of a tree is designated by its path
    from the top; the top is a message or an AVP that is not chained.  A message
    enters as the list of its AVPs. *)

From stdpp Require Import base list gmap.
From Stdlib Require Import ZArith Lia.
From S2P Require Import Prelude DictTypes Msg MsgBuf MsgDict.

(** ** Browsing *)

Abbreviation path := (list nat).

(** The children of the object at a path below the list [l] of the top. *)
Fixpoint children_at (l : list avp) (p : path) : option (list avp) :=
  match p with
  | [] => Some l
  | i :: p => match l !! i with Some a => children_at (avp_children a) p | None => None end
  end.

(** The AVP at a path that is not the top. *)
Definition is_object (l : list avp) (p : path) : bool := bool_decide (is_Some (children_at l p)).

(** The part of [MSG_BRW_WALK] that looks for a "next" at this level or one of
    the parents'; the path is reversed, and the number is what the depth loses. *)
Fixpoint climb (l : list avp) (rp : path) : option path * Z :=
  match rp with
  | [] => (None, 0)
  | i :: up =>
      if is_object l (reverse up ++ [S i]) then (Some (reverse up ++ [S i]), 0)
      else let '(r, diff) := climb l up in (r, diff - 1)
  end.

(** The result (NULL if none) and the change of the depth; [msg] says that the
    top is a message. *)
Definition fd_msg_browse (msg : bool) (l : list avp) (ref : path) (dir : msg_brw_dir)
    : res (option path * Z) :=
  let sibling (f : nat → option nat) :=
    check negb (msg && bool_decide (ref = [])) in
    match reverse ref with
    | [] => Ok (None, 0)
    | i :: up =>
        match f i with
        | Some j => let q := reverse up ++ [j] in Ok (if is_object l q then Some q else None, 0)
        | None => Ok (None, 0)
        end
    end in
  match children_at l ref with
  | None => Crash
  | Some ch =>
      match dir with
      | MSG_BRW_NEXT => sibling (λ i, Some (S i))
      | MSG_BRW_PREV => sibling (λ i, match i with 0%nat => None | S i => Some i end)
      | MSG_BRW_FIRST_CHILD =>
          match ch with [] => Ok (None, 0) | _ => Ok (Some (ref ++ [0%nat]), 1) end
      | MSG_BRW_LAST_CHILD =>
          match ch with [] => Ok (None, 0) | _ => Ok (Some (ref ++ [pred (length ch)]), 1) end
      | MSG_BRW_PARENT =>
          match reverse ref with [] => Ok (None, 0) | i :: up => Ok (Some (reverse up), -1) end
      | MSG_BRW_WALK =>
          match ch with
          | [] => Ok (climb l (reverse ref))
          | _ => Ok (Some (ref ++ [0%nat]), 1)
          end
      end
  end.

(** *** Walking through a tree *)

(** The objects below a list of AVPs in the order of the document, from the
    [i]-th on. *)
Fixpoint avp_preorder (a : avp) : list path :=
  match a with
  | Avp _ _ _ _ _ _ l =>
      [] :: (fix go (i : nat) (l : list avp) : list path :=
               match l with
               | [] => []
               | c :: l => (cons i <$> avp_preorder c) ++ go (S i) l
               end) 0%nat l
  end.

Fixpoint preorder_from (i : nat) (l : list avp) : list path :=
  match l with
  | [] => []
  | c :: l => (cons i <$> avp_preorder c) ++ preorder_from (S i) l
  end.

(** The top and all the objects below it. *)
Definition preorder (l : list avp) : list path := [] :: preorder_from 0 l.

Lemma avp_preorder_eq a : avp_preorder a = preorder (avp_children a).
Proof.
  destruct a as [m n h v s r l]. unfold preorder. cbn [avp_preorder avp_children]. done.
Qed.

(** The walk: start from the top and call [fd_msg_browse] with [MSG_BRW_WALK]
    until it returns NULL; [fuel] bounds the number of calls. *)
Fixpoint walk (fuel : nat) (msg : bool) (l : list avp) (p : path) (depth : Z) : res (list (path * Z)) :=
  match fuel with
  | 0%nat => Crash
  | S fuel =>
      let* (next, diff) := fd_msg_browse msg l p MSG_BRW_WALK in
      match next with
      | None => Ok [(p, depth)]
      | Some q => let* ps := walk fuel msg l q (depth + diff) in Ok ((p, depth) :: ps)
      end
  end.

Lemma children_at_app l p q :
  children_at l (p ++ q) = match children_at l p with Some l' => children_at l' q | None => None end.
Proof.
  revert l. induction p as [|i p IH]; intros l; [done|]. cbn [app children_at]. by destruct (l !! i).
Qed.

Lemma is_object_snoc l p i ch :
  children_at l p = Some ch → is_object l (p ++ [i]) = bool_decide (i < length ch)%nat.
Proof.
  intros Hp. unfold is_object. rewrite children_at_app, Hp. cbn [children_at].
  apply bool_decide_ext. destruct (ch !! i) eqn:E.
  - apply lookup_lt_Some in E. by split.
  - apply lookup_ge_None in E. split; [by intros [? ?]|lia].
Qed.

(** Where the walk goes after the subtree at [p]: [rest] is the sequence still
    to come after it. *)
Definition continues (l : list avp) (p : path) (rest : list path) : Prop :=
  match rest with
  | [] => climb l (reverse p) = (None, - zlen p)
  | q :: _ => climb l (reverse p) = (Some q, zlen q - zlen p)
  end.

Definition steps (l : list avp) (p : path) (rest : list path) : Prop :=
  match rest with
  | [] => ∃ n, fd_msg_browse true l p MSG_BRW_WALK = Ok (None, n) ∧
               fd_msg_browse false l p MSG_BRW_WALK = Ok (None, n)
  | q :: _ => fd_msg_browse true l p MSG_BRW_WALK = Ok (Some q, zlen q - zlen p) ∧
              fd_msg_browse false l p MSG_BRW_WALK = Ok (Some q, zlen q - zlen p)
  end.

(** Every object of a sequence is followed by the next one. *)
Fixpoint walked (l : list avp) (ps rest : list path) : Prop :=
  match ps with
  | [] => True
  | p :: ps => steps l p (ps ++ rest) ∧ walked l ps rest
  end.

Lemma walked_app l ps qs rest : walked l (ps ++ qs) rest ↔ walked l ps (qs ++ rest) ∧ walked l qs rest.
Proof.
  induction ps as [|p ps IH]; [simpl; tauto|]. cbn [app walked]. rewrite IH, <- app_assoc. tauto.
Qed.

Lemma climb_snoc l p i ch :
  children_at l p = Some ch →
  (S i < length ch)%nat → climb l (reverse (p ++ [i])) = (Some (p ++ [S i]), 0).
Proof.
  intros Hp Hi. rewrite reverse_app. cbn [reverse]. rewrite reverse_singleton. cbn [app climb].
  rewrite reverse_involutive, (is_object_snoc l p (S i) ch Hp), bool_decide_true by done. done.
Qed.

Lemma climb_last l p i ch rest :
  children_at l p = Some ch → (length ch ≤ S i)%nat →
  continues l p rest → continues l (p ++ [i]) rest.
Proof.
  intros Hp Hi Hc. unfold continues in *. rewrite reverse_app, reverse_singleton. cbn [app climb].
  rewrite reverse_involutive, (is_object_snoc l p (S i) ch Hp), bool_decide_false by lia.
  rewrite zlen_app, zlen_cons. change (zlen (@nil nat)) with 0.
  destruct rest; rewrite Hc; f_equal; lia.
Qed.

Lemma children_at_child l p i ch a :
  children_at l p = Some ch → ch !! i = Some a → children_at l (p ++ [i]) = Some (avp_children a).
Proof. intros Hp Hi. by rewrite children_at_app, Hp; cbn [children_at]; rewrite Hi. Qed.

Lemma fmap_app_cons (p : path) i (ps : list path) :
  app p <$> (cons i <$> ps) = app (p ++ [i]) <$> ps.
Proof. rewrite <- list_fmap_compose. apply list_fmap_ext. intros j q _. simpl. by rewrite <- app_assoc. Qed.

(** The objects of the [i]-th and the following children of [p]. *)
Lemma walked_children l p ch rest i :
  children_at l p = Some ch → continues l p rest →
  Forall (λ a, ∀ p rest, children_at l p = Some (avp_children a) → continues l p rest →
            walked l (app p <$> avp_preorder a) rest) ch →
  (i ≤ length ch)%nat → walked l (app p <$> preorder_from i (drop i ch)) rest.
Proof.
  intros Hp Hc Hall Hi. remember (length ch - i)%nat as k eqn:Hk. revert i Hi Hk.
  induction k as [|k IH]; intros i Hi Hk.
  - rewrite drop_ge by lia. done.
  - destruct (lookup_lt_is_Some_2 ch i) as [a Ha]; [lia|]. rewrite (drop_S _ _ _ Ha). cbn [preorder_from].
    rewrite fmap_app, fmap_app_cons. apply walked_app. split; [|by apply IH; lia].
    rewrite Forall_forall in Hall. apply Hall; [by eapply list_elem_of_lookup_2|by eapply children_at_child|].
    destruct (decide (S i < length ch)%nat) as [Hlt|].
    + destruct (lookup_lt_is_Some_2 ch (S i) Hlt) as [b Hb]. rewrite (drop_S _ _ _ Hb). cbn [preorder_from].
      rewrite avp_preorder_eq. unfold preorder. rewrite fmap_cons. cbn [app]. rewrite fmap_cons. cbn [app continues].
      rewrite (climb_snoc l p i ch) by done. rewrite !zlen_app. f_equal. unfold zlen; simpl. lia.
    + rewrite drop_ge by lia. apply (climb_last l p i ch rest Hp); [lia|done].
Qed.

Lemma walked_object l a p rest :
  children_at l p = Some (avp_children a) → continues l p rest → walked l (app p <$> avp_preorder a) rest.
Proof.
  revert p rest. induction a as [m n h v s r ch IH] using avp_tree_ind. intros p rest Hp Hc.
  rewrite avp_preorder_eq. cbn [avp_children] in *. unfold preorder. rewrite fmap_cons, app_nil_r.
  split; [|apply (walked_children l p ch rest 0); [done..|lia]].
  destruct ch as [|c ch].
  - cbn [preorder_from app fmap list_fmap]. unfold steps, continues, fd_msg_browse in *. rewrite Hp.
    destruct rest as [|q rest]; [eexists; by rewrite Hc|by rewrite Hc].
  - cbn [preorder_from]. rewrite avp_preorder_eq. unfold preorder. rewrite fmap_cons. cbn [app]. rewrite fmap_cons.
    cbn [app steps]. unfold fd_msg_browse. rewrite Hp. split; do 2 f_equal; rewrite zlen_app; unfold zlen; simpl; lia.
Qed.

Lemma walk_walked l ps p fuel msg :
  walked l (p :: ps) [] → (length ps < fuel)%nat →
  walk fuel msg l p (zlen p) = Ok ((λ p, (p, zlen p)) <$> (p :: ps)).
Proof.
  revert p fuel. induction ps as [|q ps IH]; intros p fuel [Hs Hw] Hf; (destruct fuel as [|fuel]; [simpl in Hf; lia|]).
  - destruct Hs as (n & H1 & H2). cbn [walk]. by destruct msg; rewrite ?H1, ?H2.
  - cbn [app steps] in Hs. destruct Hs as [H1 H2]. simpl in Hf. specialize (IH q fuel Hw ltac:(lia)).
    cbn [walk]. destruct msg; rewrite ?H1, ?H2; cbn [res_bind]; rewrite Zplus_minus, IH; done.
Qed.

(** *** The sequence is the document *)

Lemma preorder_from_index i l p : p ∈ preorder_from i l → ∃ j q, p = j :: q ∧ (i ≤ j)%nat.
Proof.
  revert i. induction l as [|a l IH]; intros i; cbn [preorder_from]; [by intros ?%elem_of_nil|].
  intros [(q & -> & _)%list_elem_of_fmap|(j & q & -> & ?)%IH]%elem_of_app; [by exists i, q|].
  exists j, q. split; [done|lia].
Qed.

Lemma preorder_from_NoDup i l : Forall (λ a, NoDup (avp_preorder a)) l → NoDup (preorder_from i l).
Proof.
  intros Hl. revert i. induction Hl as [|a l Ha Hl IH]; intros i; [constructor|]. cbn [preorder_from].
  apply NoDup_app. split_and!; [apply NoDup_fmap_2; [by intros ?? [= ->]|done]| |apply IH].
  intros p (q & -> & _)%list_elem_of_fmap (j & q' & [= <- _] & Hj)%preorder_from_index. lia.
Qed.

Lemma preorder_NoDup l : NoDup (preorder l).
Proof.
  assert (∀ a, NoDup (avp_preorder a)) as Ha.
  { induction a as [m n h v s r ch IH] using avp_tree_ind. rewrite avp_preorder_eq. constructor; [|by apply preorder_from_NoDup].
    by intros (j & q & ? & _)%preorder_from_index. }
  constructor; [by intros (j & q & ? & _)%preorder_from_index|]. apply preorder_from_NoDup. apply Forall_forall. auto.
Qed.

Lemma elem_of_preorder_from p i l :
  p ∈ preorder_from i l ↔ ∃ k a q, l !! k = Some a ∧ p = (i + k)%nat :: q ∧ q ∈ avp_preorder a.
Proof.
  revert i. induction l as [|c l IH]; intros i; cbn [preorder_from].
  - split; [by intros ?%elem_of_nil|]. by intros (k & a & q & ? & _).
  - rewrite elem_of_app, list_elem_of_fmap, IH. split.
    + intros [(q & -> & Hq)|(k & a & q & Hk & -> & Hq)].
      * exists 0%nat, c, q. by rewrite Nat.add_0_r.
      * exists (S k), a, q. by rewrite Nat.add_succ_r.
    + intros ([|k] & a & q & Hk & -> & Hq).
      * left. exists q. injection Hk as ->. by rewrite Nat.add_0_r.
      * right. exists k, a, q. by rewrite Nat.add_succ_r.
Qed.

Lemma elem_of_preorder p l : p ∈ preorder l ↔ is_object l p = true.
Proof.
  revert l. induction p as [|i p IH]; intros l; unfold preorder; rewrite elem_of_cons, elem_of_preorder_from.
  - split; [intros _; unfold is_object; by rewrite bool_decide_true by (by exists l)|by left].
  - unfold is_object. cbn [children_at]. split.
    + intros [?|(k & a & q & Hk & [= -> ->] & Hq)]; [done|]. simpl. rewrite Hk. apply IH. by rewrite <- avp_preorder_eq.
    + intros H. right. destruct (l !! i) as [a|] eqn:Hi; [|by apply bool_decide_eq_true in H as [? ?]].
      exists i, a, p. split; [done|]. split; [done|]. rewrite avp_preorder_eq. by apply IH.
Qed.

Lemma walked_preorder l : walked l (preorder l) [].
Proof.
  pose proof (walked_object l (with_children l init_avp) [] []) as H. rewrite avp_preorder_eq in H.
  cbn [avp_children with_children] in H.
  assert (app [] <$> preorder l = preorder l) as E by apply list_fmap_id. rewrite E in H. by apply H.
Qed.

(** The AVP at the path of an object. *)
Lemma subtree_children a p :
  children_at (avp_children a) p = avp_children <$> subtree a p.
Proof.
  revert a. induction p as [|i p IH]; intros a; [done|]. cbn [children_at subtree].
  destruct (avp_children a !! i) as [c|]; [apply IH|done].
Qed.

(** walking through a message or a grouped AVP with [MSG_BRW_WALK] terminates
    and visits every object of the tree exactly once, in the order of the
    document, a parent before its children; the depth that is counted is the
    depth of the object. *)
Theorem fd_msg_browse_walk msg l :
  let ps := preorder l in
  walk (length ps) msg l [] 0 = Ok ((λ p, (p, zlen p)) <$> ps) ∧
  NoDup ps ∧ ∀ p, p ∈ ps ↔ is_object l p = true.
Proof.
  intros ps. split; [|split; [apply preorder_NoDup|intros p; apply elem_of_preorder]].
  change 0 with (zlen (@nil nat)). apply walk_walked; [apply walked_preorder|]. simpl. lia.
Qed.

(** The messages by address. *)
Abbreviation msgs := (gmap nat msg).

(** ** Changing the tree *)

(** Apply a change to the list of children of the object at a path. *)
Fixpoint edit_at (f : list avp → res (list avp)) (l : list avp) (p : path) : res (list avp) :=
  match p with
  | [] => f l
  | i :: p =>
      match l !! i with
      | None => Crash
      | Some a => let* ch := edit_at f (avp_children a) p in Ok (<[i := with_children ch a]> l)
      end
  end.

(** The AVP that is added is not chained; a reference that is an AVP without a
    parent has no list to insert into (the code would make a list without a
    sentinel), for which [Crash] stands. *)
Definition fd_msg_avp_add (msg : bool) (l : list avp) (ref : path) (dir : msg_brw_dir) (a : avp)
    : res (list avp) :=
  let beside (k : nat → nat) :=
    check negb (msg && bool_decide (ref = [])) in
    match reverse ref with
    | [] => Crash
    | i :: up => edit_at (λ ch, Ok (take (k i) ch ++ a :: drop (k i) ch)) l (reverse up)
    end in
  match dir with
  | MSG_BRW_NEXT => beside S
  | MSG_BRW_PREV => beside id
  | MSG_BRW_FIRST_CHILD => edit_at (λ ch, Ok (a :: ch)) l ref
  | MSG_BRW_LAST_CHILD => edit_at (λ ch, Ok (ch ++ [a])) l ref
  | _ => Err EINVAL
  end.

Definition fd_msg_unhook_avp (l : list avp) (ref : path) : res (list avp) :=
  match reverse ref with
  | [] => Ok l
  | i :: up => edit_at (λ ch, Ok (delete i ch)) l (reverse up)
  end.

Section attached.
Context {D : Type} `{!MsgDictionary D} (d : D).

(** The place of the AVP that is found, which has been parsed with the
    dictionary; [want] says that the parameter [avp] is given. *)
Definition fd_msg_search_avp (fuel : nat) (l : list avp) (what : obj) (want : bool)
    : res (option nat * list avp) :=
  match avp_data d what with
  | None => Err EINVAL
  | Some data =>
      match list_find (λ a, avp_code (avp_public a) = a_code data ∧ avp_vendor (avp_public a) = a_vendor data) l with
      | None => if want then Ok (None, l) else Err ENOENT
      | Some (i, a) =>
          if want then let* (a, _) := parsedict_do_avp d fuel false a in Ok (Some i, <[i := a]> l)
          else Ok (None, l)
      end
  end.

(** ** The data attached to a message *)

Definition with_attached (query : option nat) (assoc : bool) (rt sess : option nat) (cb : msg_cb)
    (src : option bytes) (routable : Z) (m : msg) : msg :=
  Msg (msg_model m) (msg_mnf m) (msg_public m) (msg_rawbuffer m) routable query assoc rt sess cb src
    (msg_children m).

Definition set_query (q : option nat) (m : msg) : msg :=
  with_attached q (msg_associated m) (msg_rtdata m) (msg_sess m) (msg_callbacks m) (msg_src_id m) (msg_routable m) m.
Definition set_associated (b : bool) (m : msg) : msg :=
  with_attached (msg_query m) b (msg_rtdata m) (msg_sess m) (msg_callbacks m) (msg_src_id m) (msg_routable m) m.
Definition set_sess (s : option nat) (m : msg) : msg :=
  with_attached (msg_query m) (msg_associated m) (msg_rtdata m) s (msg_callbacks m) (msg_src_id m) (msg_routable m) m.
Definition set_cb (cb : msg_cb) (m : msg) : msg :=
  with_attached (msg_query m) (msg_associated m) (msg_rtdata m) (msg_sess m) cb (msg_src_id m) (msg_routable m) m.
Definition set_children (l : list avp) (m : msg) : msg := with_parsed l (msg_rawbuffer m) m.

Definition fd_msg_answ_associate (answer query : nat) (ms : msgs) : res msgs :=
  match ms !! answer, ms !! query with
  | Some a, Some q =>
      check bool_decide (msg_query a = None) in
      Ok (alter (set_associated true) query (alter (set_query (Some query)) answer ms))
  | _, _ => Err EINVAL
  end.

Definition fd_msg_answ_getq (answer : nat) (ms : msgs) : res (option nat) :=
  match ms !! answer with Some a => Ok (msg_query a) | None => Err EINVAL end.

Definition fd_msg_answ_detach (answer : nat) (ms : msgs) : res msgs :=
  match ms !! answer with
  | None => Err EINVAL
  | Some a =>
      match msg_query a with
      | None => Crash
      | Some q => Ok (alter (set_query None) answer (alter (set_associated false) q ms))
      end
  end.

Definition fd_msg_anscb_associate (acb data ecb : option nat) (timeout : option (Z * Z)) (m : msg) : res msg :=
  if negb (has (msg_flags (msg_public m)) CMD_FLAG_REQUEST) then
    match acb with Some _ => Err EINVAL | None => Ok m end
  else
    let cb := msg_callbacks m in
    check bool_decide (acb = None) || bool_decide (anscb cb = None) in
    check bool_decide (ecb = None) || bool_decide (expirecb cb = None) in
    let cb := match acb with Some _ => MsgCb acb (expirecb cb) data (cb_timeout cb) | None => cb end in
    let cb := match ecb with Some _ => MsgCb (anscb cb) ecb data (default (cb_timeout cb) timeout) | None => cb end in
    Ok (set_cb cb m).

Definition fd_msg_anscb_reset (clear_anscb clear_expirecb : bool) (m : msg) : msg :=
  let cb := msg_callbacks m in
  let cb := if clear_anscb then MsgCb None (expirecb cb) None (cb_timeout cb) else cb in
  let cb := if clear_expirecb then MsgCb (anscb cb) None (cb_data cb) (0, 0) else cb in
  set_cb cb m.

Definition fd_msg_anscb_get (m : msg) : option nat * option nat * option nat :=
  let cb := msg_callbacks m in (anscb cb, expirecb cb, cb_data cb).

Definition fd_msg_anscb_gettimeout (m : msg) : option (Z * Z) :=
  let t := cb_timeout (msg_callbacks m) in if decide (fst t = 0) then None else Some t.

(** The result, and the message with the cached answer. *)
Definition fd_msg_is_routable (m : msg) : bool * msg :=
  let r := if decide (msg_routable m = 0) then
             if decide (msg_appl (msg_public m) ≠ 0 ∨ Z.land (msg_flags (msg_public m)) CMD_FLAG_PROXIABLE ≠ 0)
             then 1 else 2
           else msg_routable m in
  (bool_decide (r = 1),
   with_attached (msg_query m) (msg_associated m) (msg_rtdata m) (msg_sess m) (msg_callbacks m) (msg_src_id m) r m).

Definition fd_msg_source_set (diamid : option bytes) (m : msg) : msg :=
  with_attached (msg_query m) (msg_associated m) (msg_rtdata m) (msg_sess m) (msg_callbacks m) diamid (msg_routable m) m.

Definition AC_ROUTE_RECORD := 282.
Definition AC_SESSION_ID := 263.
Definition AC_PROXY_INFO := 284.

(** The model of Route-Record is searched once and kept; here each time. *)
Definition fd_msg_source_setrr (diamid : bytes) (m : msg) : res msg :=
  let* rr := avp_by_code d AC_ROUTE_RECORD in
  match rr with
  | None => Err ENOENT
  | Some o =>
      let* a := fd_msg_avp_new d (Some o) 0 None in
      let* a := fd_msg_avp_setvalue d a (Some (OS diamid)) in
      let* l := fd_msg_avp_add true (msg_children m) [] MSG_BRW_LAST_CHILD a in
      Ok (set_children l m)
  end.

Definition fd_msg_sess_set (session : nat) (m : msg) : res msg :=
  check bool_decide (msg_sess m = None) in Ok (set_sess (Some session) m).
End attached.

(** ** Sessions and answers *)

(** What [messages.c] asks of the sessions: [fd_sess_fromsid_msg] (the session of
    an identifier, and whether it was created), [fd_sess_getsid],
    [fd_sess_ref_msg], and [fd_sess_reclaim_msg], whose error is ignored when a
    message is freed. *)
Class MsgSessions (S : Type) := {
  sess_fromsid_msg : S → bytes → res (nat * bool * S);
  sess_getsid : S → nat → res bytes;
  sess_ref_msg : S → nat → res S;
  sess_reclaim_msg : S → nat → S }.

Section answer.
Context {D S : Type} `{!MsgDictionary D} `{!MsgSessions S} (d : D).

Definition is_avp (code : Z) (a : avp) : Prop :=
  avp_code (avp_public a) = code ∧ avp_vendor (avp_public a) = 0.

#[export] Instance is_avp_dec code a : Decision (is_avp code a).
Proof. unfold is_avp. apply _. Defined.

(** The outcome: an error, or the session and [*new] where it is set. *)
Definition fd_msg_sess_get (fuel : nat) (m : msg) (st : S)
    : res (msg * S * (errno + option nat * option bool)) :=
  match msg_sess m with
  | Some s => Ok (m, st, inr (Some s, Some false))
  | None =>
      match list_find (is_avp AC_SESSION_ID) (msg_children m) with
      | None => Ok (m, st, inr (None, None))
      | Some (i, a) =>
          let* (a, e) :=
            match avp_model a with
            | Some _ => Ok (a, None)
            | None => parsedict_do_avp d fuel false a
            end in
          let m := set_children (<[i := a]> (msg_children m)) m in
          match e with
          | Some (e, _) => Ok (m, st, inl e)
          | None =>
              match avp_val a with
              | Some (OS sid) =>
                  if decide (0 < zlen sid) then
                    match sess_fromsid_msg st sid with
                    | Ok (s, new, st) => Ok (set_sess (Some s) m, st, inr (Some s, Some new))
                    | Err e => Ok (m, st, inl e)
                    | Crash => Crash
                    end
                  else Ok (m, st, inr (None, None))
              | _ => Crash
              end
          end
      end
  end.

(** The bytes of an AVP, and the AVP with its length updated, as the loop on the
    Proxy-Info AVPs makes them. *)
Definition avp_to_buffer (a : avp) : res (bytes * avp) :=
  let* a := update_length_avp d a in
  let len := avp_len (avp_public a) in
  let* (buf, _) := bufferize_avp d len a (replicate (Z.to_nat len) 0, 0) in
  Ok (buf, a).

(** "Add all Proxy-Info AVPs from the query if any": the children of the query
    (the lengths of the copied ones are updated) and the copies. *)
Fixpoint copy_proxy_info (fuel : nat) (l : list avp) : res (list avp * list avp) :=
  match l with
  | [] => Ok ([], [])
  | a :: l =>
      if decide (is_avp AC_PROXY_INFO a) then
        let* (buf, a) := avp_to_buffer a in
        let* (cpy, e) := parsebuf_list buf (avp_len (avp_public a)) in
        match e with
        | Some e => Err e
        | None =>
            let* (cpy, e) := parsedict_do_chain d fuel false cpy in
            match e with
            | Some (e, _) => Err e
            | None => let* (l, rest) := copy_proxy_info fuel l in Ok (a :: l, cpy ++ rest)
            end
        end
      else let* (l, rest) := copy_proxy_info fuel l in Ok (a :: l, rest)
  end.

Definition str_session_id : bytes := [83; 101; 115; 115; 105; 111; 110; 45; 73; 100].

(** "Add the Session-Id AVP if session is known". *)
Definition add_session_id (sess : option nat) (st : S) (ans : msg) : res (msg * S) :=
  match sess with
  | None => Ok (ans, st)
  | Some s =>
      let* o := avp_by_name d str_session_id in
      match o with
      | None => Err ENOENT
      | Some o =>
          let* sid := sess_getsid st s in
          let* a := fd_msg_avp_new d (Some o) 0 None in
          let* a := fd_msg_avp_setvalue d a (Some (OS sid)) in
          let* l := fd_msg_avp_add true (msg_children ans) [] MSG_BRW_FIRST_CHILD a in
          let* st := sess_ref_msg st s in
          Ok (set_sess (Some s) (set_children l ans), st)
      end
  end.

(** "Set information in the answer as in the query". *)
Definition as_query (q : msg_hdr) (m : msg) : msg :=
  let h := msg_public m in
  Msg (msg_model m) (msg_mnf m)
    (MsgHdr (msg_version h) (msg_length h) (msg_flags h) (msg_code q) (msg_appl q) (msg_hbhid q) (msg_eteid q))
    (msg_rawbuffer m) (msg_routable m) (msg_query m) (msg_associated m) (msg_rtdata m) (msg_sess m)
    (msg_callbacks m) (msg_src_id m) (msg_children m).

(** "Find the model for the answer": the query as it is left, and the model. *)
Definition answer_model (fuel : nat) (flags : Z) (qry : msg) : res (msg * option obj) :=
  if has flags MSGFL_ANSW_ERROR then Ok (qry, Some (error_cmd d))
  else
    let* (qry, _) := parsedict_do_msg d fuel true qry in
    match msg_model qry with
    | None => Ok (qry, None)
    | Some o => let* o := cmd_answer d o in Ok (qry, Some o)
    end.

(** The answer, the query, the sessions and the end-to-end counter; [addr] is the
    address of the query. *)
Definition fd_msg_new_answer_from_req (fuel : nat) (flags : Z) (addr : nat) (qry : msg) (st : S) (eteid : Z)
    : res (msg * msg * S * Z) :=
  check has (msg_flags (msg_public qry)) CMD_FLAG_REQUEST in
  let* (qry, st, sess) :=
    if has flags MSGFL_ANSW_NOSID then Ok (qry, st, None)
    else let* (qry, st, r) := fd_msg_sess_get fuel qry st in
         Ok (qry, st, match r with inl _ => None | inr (s, _) => s end) in
  let* (qry, model) := answer_model fuel flags qry in
  let* (ans, eteid) := fd_msg_new d model flags eteid in
  let ans := as_query (msg_public qry) ans in
  let* (ans, st) := add_session_id sess st ans in
  let* (ql, cpy) :=
    if has flags MSGFL_ANSW_NOPROXYINFO then Ok (msg_children qry, [])
    else copy_proxy_info fuel (msg_children qry) in
  let ans := set_children (msg_children ans ++ cpy) ans in
  Ok (set_query (Some addr) ans, set_associated true (set_children ql qry), st, eteid).

(** *** The answer that is made *)

(** A Proxy-Info that can be copied: its size is a multiple of 4, as that of any
    grouped AVP of the dictionary. *)
Definition proxy_ok (a : avp) : Prop :=
  is_avp AC_PROXY_INFO a → sendable d false a = true ∧ avp_size d a mod 4 = 0.

#[export] Instance proxy_ok_dec a : Decision (proxy_ok a).
Proof. unfold proxy_ok. apply _. Defined.

Lemma avp_to_buffer_enc a :
  typed d a = true → avp_size d a < 2 ^ 24 → avp_size d a mod 4 = 0 →
  avp_to_buffer a = Ok (enc_avp d a, resize d a).
Proof.
  intros Ht Hs H4. unfold avp_to_buffer. rewrite update_length_resize by (done || lia). cbn [res_bind].
  rewrite resize_len. 
  assert (writes (avp_size d a) (bufferize_avp d (avp_size d a) (resize d a)) (enc_avp d a)) as Hw
    by (apply bufferize_avp_writes; [done|lia..]).
  specialize (Hw [] (avp_size d a)). pose proof (zlen_enc d a Ht) as Hz. rewrite PAD4_aligned in Hz by done.
  unfold written in Hw. cbn [app] in Hw. change (zlen (@nil Z)) with 0 in Hw. rewrite Hw by lia. cbn [res_bind].
  rewrite Hz, Z.sub_diag. by rewrite app_nil_r.
Qed.

(** The copies are what a receiver would make of the original AVPs. *)
Lemma copy_proxy_info_spec fuel l :
  Forall proxy_ok l → Forall (λ a, depth a ≤ fuel)%nat l →
  copy_proxy_info fuel l =
    Ok ((λ a, if decide (is_avp AC_PROXY_INFO a) then resize d a else a) <$> l,
        canonical d <$> filter (is_avp AC_PROXY_INFO) l).
Proof.
  induction 1 as [|a l Ha Hl IH]; intros Hd; [done|]. apply Forall_cons in Hd as [Hda Hd]. cbn [copy_proxy_info].
  rewrite fmap_cons, filter_cons. case_decide as Hp; [|by rewrite IH].
  destruct (Ha Hp) as [Hs H4]. pose proof (sendable_typed d _ _ Hs) as Ht.
  assert (hdr_fits (avp_public a) (avp_size d a)) as Hf.
  { pose proof (sendable_fits d false [a]) as Hf. cbn [forallb] in Hf. rewrite Hs in Hf.
    by destruct (Forall_cons_1 _ _ _ (Hf eq_refl)). }
  pose proof Hf as (_ & _ & _ & Hlt). rewrite avp_to_buffer_enc by done. cbn [res_bind]. rewrite resize_len.
  pose proof (parsebuf_list_enc d [a] [] ) as Hpl. cbn [enc_chain flat_map forallb] in Hpl. unfold chain_size in Hpl.
  cbn [foldr] in Hpl. rewrite !app_nil_r, Z.add_0_r, PAD4_aligned, Ht in Hpl by done. rewrite Hpl; [|done|by constructor|lia].
  cbn [res_bind unparsed_chain]. unfold parsedict_do_chain. cbn [parsedict_chain enc_chain flat_map app].
  rewrite parse_unparsed by done. cbn [res_bind]. by rewrite IH.
Qed.

(** C30: the answer to a request has the command code, the application and the
    two identifiers of the request, and the flags of the command model found
    (no R flag when it is the model of the answers); it starts with the
    Session-Id of the session the request was found to belong to, and carries a
    copy of every Proxy-Info of the request in the same order; the request is
    associated with it and only its computed lengths have changed. *)
Theorem fd_msg_new_answer_spec fuel flags addr qry st eteid qry1 st1 sess model cmd :
  has (msg_flags (msg_public qry)) CMD_FLAG_REQUEST = true → CHECK_MSGFL flags = true →
  has flags MSGFL_ANSW_NOPROXYINFO = false → has flags MSGFL_ANSW_NOSID = false →
  fd_msg_sess_get fuel qry st = Ok (qry1, st1, inr (sess, None)) ∨
  (∃ new, fd_msg_sess_get fuel qry st = Ok (qry1, st1, inr (sess, Some new))) →
  ∀ qry2, answer_model fuel flags qry1 = Ok (qry2, Some model) → cmd_data d model = Some cmd →
  Forall proxy_ok (msg_children qry2) → Forall (λ a, depth a ≤ fuel)%nat (msg_children qry2) →
  ∀ ans qry3 st3 eteid3,
  fd_msg_new_answer_from_req fuel flags addr qry st eteid = Ok (ans, qry3, st3, eteid3) →
  let h := msg_public ans in
  let q := msg_public qry2 in
  (msg_code h, msg_appl h, msg_hbhid h, msg_eteid h) = (msg_code q, msg_appl q, msg_hbhid q, msg_eteid q) ∧
  msg_flags h = c_flag_val cmd ∧ msg_model ans = Some model ∧ msg_query ans = Some addr ∧
  msg_associated qry3 = true ∧ msg_sess ans = sess ∧
  ∃ pre, msg_children ans = pre ++ (canonical d <$> filter (is_avp AC_PROXY_INFO) (msg_children qry2)) ∧
    match sess with
    | None => pre = []
    | Some s => ∃ a sid, pre = [a] ∧ sess_getsid st1 s = Ok sid ∧ avp_val a = Some (OS sid)
    end.
Proof.
  intros Hr Hfl Hnp Hns Hsess qry2 Hm Hc Hpx Hdp ans qry3 st3 eteid3. unfold fd_msg_new_answer_from_req.
  rewrite Hr, Hns, Hnp.
  assert ((let* (qry, st, r) := fd_msg_sess_get fuel qry st in
           Ok (qry, st, match r with inl _ => None | inr (s, _) => s end)) = Ok (qry1, st1, sess)) as ->
    by (by destruct Hsess as [->|[new ->]]).
  cbn [res_bind]. rewrite Hm. cbn [res_bind]. unfold fd_msg_new. rewrite Hfl, Hc. cbn [res_bind].
  destruct (if has flags MSGFL_ALLOC_ETEID then _ else _) as [ete eteid1]. cbn [res_bind].
  rewrite copy_proxy_info_spec by done.
  destruct (add_session_id sess st1 _) as [[ans1 st4]|e|] eqn:Ea; cbn [res_bind]; [|done..].
  intros [= <- <- <- <-]. unfold add_session_id in Ea. destruct sess as [s|].
  - destruct (avp_by_name d str_session_id) as [[o|]|e|]; cbn [res_bind] in Ea; try done.
    destruct (sess_getsid st1 s) as [sid|e|] eqn:Esid; cbn [res_bind] in Ea; try done.
    destruct (fd_msg_avp_new d (Some o) 0 None) as [a|e|] eqn:En; cbn [res_bind] in Ea; try done.
    destruct (fd_msg_avp_setvalue d a (Some (OS sid))) as [a'|e|] eqn:Ev; cbn [res_bind fd_msg_avp_add edit_at] in Ea; try done.
    destruct (sess_ref_msg st1 s) as [st5|e|]; cbn [res_bind] in Ea; try done. injection Ea as <- <-.
    repeat (split; [done|]). exists [a']. split; [done|]. exists a', sid. split; [done|]. split; [done|].
    unfold fd_msg_avp_setvalue in Ev. destruct (avp_model a); [|done]. destruct (avp_data d _); [|done].
    destruct (bool_decide _); [|done]. by injection Ev as <-.
  - injection Ea as <- <-. repeat (split; [done|]). by exists [].
Qed.
End answer.

(** ** Examples *)

Module Examples.
Import Small MsgBuf.Examples.

(** Sessions as the list of their identifiers. *)
#[export] Instance small_sessions : MsgSessions (list bytes) := {
  sess_fromsid_msg st sid :=
    match list_find (eq sid) st with
    | Some (i, _) => Ok (i, false, st)
    | None => Ok (length st, true, st ++ [sid])
    end;
  sess_getsid st s := match st !! s with Some sid => Ok sid | None => Err EINVAL end;
  sess_ref_msg st s := Ok st;
  sess_reclaim_msg st s := st }.

(** A received request of the session "abc" that went through a proxy. *)
Definition request : msg :=
  Msg None (0, 0) (MsgHdr 1 0 192 257 4 77 99) None 0 None false None None
    (MsgCb None None None (0, 0)) None
    [leaf 0 (AvpHdr 263 64 0 0) (OS [97; 98; 99]);
     Avp (Some 5%nat) (0, 0) (AvpHdr 284 64 0 0) None None None [leaf 3 (AvpHdr 266 64 0 0) (NUM 10415)];
     leaf 4 (AvpHdr 1000 192 0 10415) (NUM 7)].

Definition answered := fd_msg_new_answer_from_req (S:=list bytes) base 3 0 1 request [] 0.

Definition query_with_model : msg :=
  match answer_model base 3 0 (set_sess (Some 0%nat) request) with Ok (q, _) => q | _ => init_msg end.
Definition the_answer : msg := match answered with Ok (a, _, _, _) => a | _ => init_msg end.
Definition the_query : msg := match answered with Ok (_, q, _, _) => q | _ => init_msg end.

Lemma fd_msg_new_answer_witness :
  let h := msg_public the_answer in
  (msg_code h, msg_appl h, msg_hbhid h, msg_eteid h) = (257, 4, 77, 99) ∧ msg_flags h = 0 ∧
  msg_query the_answer = Some 1%nat ∧ msg_associated the_query = true ∧ msg_sess the_answer = Some 0%nat.
Proof.
  assert (fd_msg_sess_get (S:=list bytes) base 3 request [] =
    Ok (set_sess (Some 0%nat) request, [[97; 98; 99]], inr (Some 0%nat, Some true))) as Hs1
    by (vm_compute; reflexivity).
  assert (answer_model base 3 0 (set_sess (Some 0%nat) request) = Ok (query_with_model, Some 7%nat)) as Hm1
    by (vm_compute; reflexivity).
  assert (answered = Ok (the_answer, the_query, [[97; 98; 99]], 0)) as Ha1 by (vm_compute; reflexivity).
  destruct (fd_msg_new_answer_spec (S:=list bytes) base 3 0 1 request [] 0
    (set_sess (Some 0%nat) request) [[97; 98; 99]] (Some 0%nat) 7%nat
    (DictCmdData 257 [67; 65] 160 0) eq_refl eq_refl eq_refl eq_refl (or_intror (ex_intro _ true Hs1))
    query_with_model Hm1 eq_refl ltac:(by_compute) ltac:(by_compute) the_answer the_query [[97; 98; 99]] 0 Ha1)
    as (Hh & Hf & Hm & Hq & Ha & Hs & _).
  split; [exact Hh|]. split; [exact Hf|]. split; [exact Hq|]. split; [exact Ha|exact Hs].
Defined.
End Examples.
