(* ===== verification/MsgRules.v ===== *)
(** * Messages: the rules of commands and grouped AVPs ([libfdproto/messages.c])

    [fd_msg_parse_rules]: a message is compared with the rules (the ABNF) of its
    command, and recursively each grouped AVP with the rules of its model. *)

From stdpp Require Import base list.
From Stdlib Require Import ZArith Lia.
From S2P Require Import Prelude DictTypes Msg MsgBuf MsgDict.

(** What an error says: the code, and an AVP of the tree or a new one made for
    the report (NULL if it could not be made). *)
Inductive pei_ref := InTree (p : list nat) | Fresh (a : option avp).
Record rules_pei := RulesPei { rp_code : pei_errcode; rp_avp : option pei_ref; rp_protoerr : bool }.
Definition rules_err : Type := errno * rules_pei.

(** The error of the [i]-th child. *)
Definition rules_at_child (i : nat) (e : rules_err) : rules_err :=
  (fst e, RulesPei (rp_code (snd e))
            ((λ r, match r with InTree p => InTree (i :: p) | r => r end) <$> rp_avp (snd e))
            (rp_protoerr (snd e))).

(** One turn of the loop of [parserules_stat_avps]; the state is [curpos],
    [*count], [*firstpos], [*lastpos]. *)
Definition stat_step (model : obj) (s : Z * Z * Z * Z) (a : avp) : Z * Z * Z * Z :=
  let '(curpos, count, firstpos, lastpos) := s in
  let curpos := curpos + 1 in
  let lastpos := if decide (lastpos ≠ 0) then lastpos + 1 else lastpos in
  if decide (avp_model a = Some model) then
    (curpos, count + 1, if decide (firstpos = 0) then curpos else firstpos, 1)
  else (curpos, count, firstpos, lastpos).

(** The number of instances, the position of the first one, and the position of
    the last one from the end. *)
Definition parserules_stat_avps (model : obj) (l : list avp) : Z * Z * Z :=
  let '(_, count, firstpos, lastpos) := foldl (stat_step model) (0, 0, 0, 0) l in
  (count, firstpos, lastpos).

Section rules.
Context {D : Type} `{!MsgDictionary D} (d : D).

Definition empty_avp (model : obj) : option avp :=
  match fd_msg_avp_new d (Some model) 0 None, avp_data d model with
  | Ok a, Some info =>
      let t := a_basetype info in
      let len := w32 (GETAVPHDRSZ (avp_flags (avp_public a)) + avp_value_sizes t) in
      let set len v := match fd_msg_avp_setvalue d (with_len len a) (Some v) with Ok a => Some a | _ => None end in
      match t with
      | AVP_TYPE_OCTETSTRING => set (w32 (len + 1)) (OS [0])
      | AVP_TYPE_GROUPED => Some (with_len len a)
      | _ => set len (NUM 0)
      end
  | _, _ => None
  end.

(** The smallest number of occurrences that a rule asks for. *)
Definition rule_minimum (r : dict_rule_data) : Z :=
  if decide (rule_min r = -1) then match rule_pos r with RULE_OPTIONAL => 0 | _ => 1 end else rule_min r.

Definition parserules_check_one_rule (l : list avp) (r : dict_rule_data) : option rules_err :=
  let '(count, first, last) := parserules_stat_avps (rule_avp r) l in
  let conflict c := Some (EBADMSG, RulesPei c (Some (Fresh (empty_avp (rule_avp r)))) false) in
  if decide (count < rule_minimum r) then conflict DIAMETER_MISSING_AVP
  else if decide (rule_max r ≠ -1 ∧ count > rule_max r) then
    conflict (if decide (rule_max r = 0) then DIAMETER_AVP_NOT_ALLOWED else DIAMETER_AVP_OCCURS_TOO_MANY_TIMES)
  else
    match rule_pos r with
    | RULE_OPTIONAL | RULE_REQUIRED => None
    | RULE_FIXED_HEAD => if decide (first > rule_order r) then conflict DIAMETER_MISSING_AVP else None
    | RULE_FIXED_TAIL => if decide (last > rule_order r) then conflict DIAMETER_MISSING_AVP else None
    end.

(** [fd_dict_iterate_rules] with [parserules_check_one_rule]: the first conflict. *)
Fixpoint check_rules (l : list avp) (rs : list dict_rule_data) : option rules_err :=
  match rs with
  | [] => None
  | r :: rs => match parserules_check_one_rule l r with Some e => Some e | None => check_rules l rs end
  end.

Definition iterate_rules (model : obj) (l : list avp) : res (option rules_err) :=
  let* rs := dict_rules d model in Ok (check_rules l rs).

(** The loop on the children: the first error. *)
Definition rules_children (f : avp → res (option rules_err)) : nat → list avp → res (option rules_err) :=
  fix go i l :=
    match l with
    | [] => Ok None
    | a :: l =>
        let* e := f a in
        match e with Some e => Ok (Some (rules_at_child i e)) | None => go (S i) l end
    end.

(** [parserules_do] of an AVP. *)
Fixpoint parserules_do_avp (mandatory : bool) (a : avp) : res (option rules_err) :=
  match a with
  | Avp m _ h _ _ _ l =>
      match m with
      | None =>
          Ok (if mandatory && has (avp_flags h) AVP_FLAG_MANDATORY then
                Some (EBADMSG, RulesPei DIAMETER_AVP_UNSUPPORTED (Some (InTree [])) false)
              else None)
      | Some o =>
          match avp_data d o with
          | None => Err EINVAL
          | Some data =>
              match a_basetype data with
              | AVP_TYPE_GROUPED =>
                  let* e := rules_children (parserules_do_avp (mandatory && has (avp_flags h) AVP_FLAG_MANDATORY)) 0 l in
                  match e with Some e => Ok (Some e) | None => iterate_rules o l end
              | _ => Ok None
              end
          end
      end
  end.

(** [parserules_do] of a message. *)
Definition parserules_do (m : msg) : res (option rules_err) :=
  let model := if has (msg_flags (msg_public m)) CMD_FLAG_ERROR then Some (error_cmd d) else msg_model m in
  match model with
  | None => Ok (Some (EBADMSG, RulesPei DIAMETER_COMMAND_UNSUPPORTED None true))
  | Some o =>
      let* e := rules_children (parserules_do_avp true) 0 (msg_children m) in
      match e with Some e => Ok (Some e) | None => iterate_rules o (msg_children m) end
  end.

(** The errors of the two phases are those of [fd_msg_parse_dict] and of
    [parserules_do]. *)
Definition fd_msg_parse_rules (fuel : nat) (m : msg) : res (msg * option (perr + rules_err)) :=
  let* (m, e) := fd_msg_parse_dict d fuel m in
  match e with
  | Some e => Ok (m, Some (inl e))
  | None => let* e := parserules_do m in Ok (m, inr <$> e)
  end.

(** ** What the rules say *)

Definition instances (model : obj) (l : list avp) : Z := zlen (filter (λ a, avp_model a = Some model) l).

(** A list of AVPs complies with a rule: the number of instances, and for a
    fixed rule an instance among the first (or the last) [rule_order] AVPs
    unless there is none. *)
Definition in_position (l : list avp) (r : dict_rule_data) : Prop :=
  let n := instances (rule_avp r) l in
  match rule_pos r with
  | RULE_OPTIONAL | RULE_REQUIRED => True
  | RULE_FIXED_HEAD =>
      n = 0 ∨ ∃ i a, l !! i = Some a ∧ avp_model a = Some (rule_avp r) ∧ Z.of_nat i < rule_order r
  | RULE_FIXED_TAIL =>
      n = 0 ∨ ∃ i a, l !! i = Some a ∧ avp_model a = Some (rule_avp r) ∧ zlen l - Z.of_nat i ≤ rule_order r
  end.

Definition rule_holds (l : list avp) (r : dict_rule_data) : Prop :=
  let n := instances (rule_avp r) l in
  rule_minimum r ≤ n ∧ (rule_max r = -1 ∨ n ≤ rule_max r) ∧ in_position l r.

(** An AVP complies: a mandatory AVP has a model (unless a parent is optional),
    and the children of a grouped AVP comply with its rules, recursively. *)
Fixpoint complies (mandatory : bool) (a : avp) : Prop :=
  match a with
  | Avp m _ h _ _ _ l =>
      let mandatory := mandatory && has (avp_flags h) AVP_FLAG_MANDATORY in
      match m with
      | None => mandatory = false
      | Some o =>
          ∀ data, avp_data d o = Some data → a_basetype data = AVP_TYPE_GROUPED →
          foldr (λ c P, complies mandatory c ∧ P) True l ∧
          ∀ rs, dict_rules d o = Ok rs → Forall (rule_holds l) rs
      end
  end.

Definition msg_complies (m : msg) : Prop :=
  ∃ o, (if has (msg_flags (msg_public m)) CMD_FLAG_ERROR then Some (error_cmd d) else msg_model m) = Some o ∧
    Forall (complies true) (msg_children m) ∧ ∀ rs, dict_rules d o = Ok rs → Forall (rule_holds (msg_children m)) rs.
End rules.

(** *** The statistics *)

Section stats.
Context (model : obj).

(** [c] instances among the first AVPs; [f] and [b] are the positions. *)
Definition stats_ok (l : list avp) (s : Z * Z * Z * Z) : Prop :=
  let '(curpos, count, firstpos, lastpos) := s in
  curpos = zlen l ∧ count = instances model l ∧
  (count = 0 → firstpos = 0 ∧ lastpos = 0) ∧
  (0 < count →
    (∃ i a, l !! i = Some a ∧ avp_model a = Some model ∧ firstpos = Z.of_nat i + 1) ∧
    (∀ i a, l !! i = Some a → avp_model a = Some model → firstpos ≤ Z.of_nat i + 1) ∧
    (∃ i a, l !! i = Some a ∧ avp_model a = Some model ∧ lastpos = zlen l - Z.of_nat i) ∧
    (∀ i a, l !! i = Some a → avp_model a = Some model → lastpos ≤ zlen l - Z.of_nat i)).

Lemma instances_snoc l a :
  instances model (l ++ [a]) = instances model l + (if decide (avp_model a = Some model) then 1 else 0).
Proof.
  unfold instances. rewrite filter_app, zlen_app. f_equal. rewrite filter_cons, filter_nil.
  by case_decide.
Qed.

Lemma instances_zero l i a : instances model l = 0 → l !! i = Some a → avp_model a ≠ Some model.
Proof.
  unfold instances, zlen. intros Hz Hi Ha. assert (a ∈ filter (λ a, avp_model a = Some model) l) as Hin.
  { apply list_elem_of_filter. split; [done|]. by eapply list_elem_of_lookup_2. }
  destruct (filter _ l); [by apply elem_of_nil in Hin|simpl in Hz; lia].
Qed.

Lemma stat_step_ok l s a : stats_ok l s → stats_ok (l ++ [a]) (stat_step model s a).
Proof.
  destruct s as [[[cur n] f] b]. intros (-> & -> & H0 & H1). unfold stat_step, stats_ok.
  pose proof (zlen_nonneg (filter (λ a, avp_model a = Some model) l)) as Hnn. fold (instances model l) in Hnn.
  assert (l !! length l = None) as Hend by (apply lookup_ge_None; lia).
  assert (∀ i x, (l ++ [a]) !! i = Some x → (l !! i = Some x ∧ (i < length l)%nat) ∨ (i = length l ∧ x = a)) as Hcase.
  { intros i x Hi. apply lookup_app_Some in Hi as [Hi|[Hi Hx]]; [left; split; [done|by eapply lookup_lt_Some]|].
    right. apply list_lookup_singleton_Some in Hx as [Hx <-]. split; [lia|done]. }
  assert (zlen (l ++ [a]) = zlen l + 1) as Hz by (rewrite zlen_app; unfold zlen; simpl; lia).
  assert ((l ++ [a]) !! length l = Some a) as Hlast by (by rewrite lookup_app_r, Nat.sub_diag).
  assert (∀ i x, l !! i = Some x → (l ++ [a]) !! i = Some x) as Hkeep by (intros; by apply lookup_app_l_Some).
  destruct (decide (instances model l = 0)) as [Hi0|Hi0].
  - destruct (H0 Hi0) as [-> ->]. clear H0 H1. destruct (decide (0 ≠ 0)) as [[]|_]; [done|]. destruct (decide (0 = 0)) as [_|[]]; [|done].
    rewrite instances_snoc, Hz, Hi0. destruct (decide (avp_model a = Some model)) as [Ha|Ha].
    + split; [lia|]. split; [done|]. split; [done|]. intros _. split_and!.
      * exists (length l), a. split; [done|]. split; [done|]. unfold zlen. lia.
      * intros i x [[Hi _]|[-> ->]]%Hcase Hx; [|unfold zlen; lia]. by destruct (instances_zero l i x Hi0 Hi).
      * exists (length l), a. split; [done|]. split; [done|]. unfold zlen. lia.
      * intros i x [[Hi _]|[-> ->]]%Hcase Hx; [|unfold zlen; lia]. by destruct (instances_zero l i x Hi0 Hi).
    + split; [lia|]. split; [done|]. split; [done|lia].
  - destruct H1 as ((i1 & a1 & Hi1 & Ha1 & Hf1) & Hf & (i2 & a2 & Hi2 & Ha2 & Hb2) & Hb); [lia|].
    pose proof (lookup_lt_Some _ _ _ Hi2). assert (b ≠ 0) as Hb0 by (unfold zlen in Hb2; lia).
    rewrite (decide_True (P:=b ≠ 0)) by done. rewrite instances_snoc, Hz.
    destruct (decide (avp_model a = Some model)) as [Ha|Ha].
    + assert (f ≠ 0) as Hf0 by lia. rewrite (decide_False (P:=f = 0)) by done.
      split; [lia|]. split; [done|]. split; [lia|]. intros _. split_and!.
      * exists i1, a1. auto.
      * intros i x [[Hi _]|[-> ->]]%Hcase Hx; [by eapply Hf|]. pose proof (lookup_lt_Some _ _ _ Hi1). lia.
      * exists (length l), a. split; [done|]. split; [done|]. unfold zlen. lia.
      * intros i x [[Hi Hlt]|[-> ->]]%Hcase Hx; unfold zlen; lia.
    + split; [lia|]. split; [lia|]. split; [lia|]. intros _. split_and!.
      * exists i1, a1. auto.
      * intros i x [[Hi _]|[-> ->]]%Hcase Hx; [by eapply Hf|done].
      * exists i2, a2. split; [auto|]. split; [done|]. lia.
      * intros i x [[Hi Hlt]|[-> ->]]%Hcase Hx; [|done]. specialize (Hb i x Hi Hx). lia.
Qed.

Lemma stat_avps_ok l : stats_ok l (foldl (stat_step model) (0, 0, 0, 0) l).
Proof.
  induction l as [|a l IH] using rev_ind.
  - simpl. repeat split; done.
  - rewrite foldl_snoc. by apply stat_step_ok.
Qed.
End stats.

(** *** The checks decide compliance *)

Section compliance.
Context {D : Type} `{!MsgDictionary D} `{!MsgDictionaryLaws D} (d : D).

(** A conflict is reported for a rule that the list breaks, with the code of the
    condition. *)
Definition conflict_of (l : list avp) (r : dict_rule_data) (e : rules_err) : Prop :=
  let n := instances (rule_avp r) l in
  fst e = EBADMSG ∧ ¬ rule_holds l r ∧
  rp_avp (snd e) = Some (Fresh (empty_avp d (rule_avp r))) ∧ rp_protoerr (snd e) = false ∧
  match rp_code (snd e) with
  | DIAMETER_MISSING_AVP => n < rule_minimum r ∨ rule_minimum r ≤ n ∧ (rule_max r = -1 ∨ n ≤ rule_max r) ∧ ¬ in_position l r
  | DIAMETER_AVP_NOT_ALLOWED => rule_minimum r ≤ n ∧ rule_max r = 0 ∧ 0 < n
  | DIAMETER_AVP_OCCURS_TOO_MANY_TIMES => rule_minimum r ≤ n ∧ 0 < rule_max r < n
  | _ => False
  end.

(** The first of the rules that the list breaks. *)
Definition first_conflict (l : list avp) (rs : list dict_rule_data) (e : rules_err) : Prop :=
  ∃ i r, rs !! i = Some r ∧ Forall (rule_holds l) (take i rs) ∧ conflict_of l r e.

Lemma instances_nonneg m l : 0 ≤ instances m l.
Proof. apply zlen_nonneg. Qed.

Lemma check_one_rule_spec l r :
  -1 ≤ rule_min r → -1 ≤ rule_max r → 0 ≤ rule_order r →
  match parserules_check_one_rule d l r with
  | None => rule_holds l r
  | Some e => conflict_of l r e
  end.
Proof.
  intros Hmin Hmax Hord. unfold parserules_check_one_rule, parserules_stat_avps. pose proof (stat_avps_ok (rule_avp r) l) as Hs.
  destruct (foldl _ _ l) as [[[cur n] f] b]. destruct Hs as (_ & -> & H0 & H1).
  pose proof (instances_nonneg (rule_avp r) l) as Hnn. set (n := instances (rule_avp r) l) in *.
  unfold conflict_of, rule_holds, in_position. fold n. case_decide as Hlo.
  { split; [done|]. split; [lia|]. split; [done|]. split; [done|]. by left. }
  case_decide as Hhi.
  { split; [done|]. split; [lia|]. split; [done|]. split; [done|]. simpl. case_decide; simpl; lia. }
  assert (n = 0 ∨ 0 < n) as [Hn|Hn] by lia.
  - destruct (H0 Hn) as [-> ->]. destruct (rule_pos r); try rewrite decide_False by lia; (split; [lia|]; split; [lia|auto]).
  - destruct (H1 Hn) as ((i1 & a1 & Hi1 & Ha1 & Hf1) & Hf & (i2 & a2 & Hi2 & Ha2 & Hb2) & Hb). clear H0 H1.
    destruct (rule_pos r); try (split; [lia|]; split; [lia|done]); case_decide as Hp.
    + assert (¬ (n = 0 ∨ ∃ i a, l !! i = Some a ∧ avp_model a = Some (rule_avp r) ∧ Z.of_nat i < rule_order r)) as Hno.
      { intros [?|(i & a & Hi & Ha & Ho)]; [lia|]. specialize (Hf i a Hi Ha). lia. }
      split; [done|]. split; [by intros (_ & _ & ?)|]. split; [done|]. split; [done|]. right. split; [lia|]. split; [lia|done].
    + split; [lia|]. split; [lia|]. right. exists i1, a1. split; [done|]. split; [done|]. lia.
    + assert (¬ (n = 0 ∨ ∃ i a, l !! i = Some a ∧ avp_model a = Some (rule_avp r) ∧ zlen l - Z.of_nat i ≤ rule_order r)) as Hno.
      { intros [?|(i & a & Hi & Ha & Ho)]; [lia|]. specialize (Hb i a Hi Ha). lia. }
      split; [done|]. split; [by intros (_ & _ & ?)|]. split; [done|]. split; [done|]. right. split; [lia|]. split; [lia|done].
    + split; [lia|]. split; [lia|]. right. exists i2, a2. split; [done|]. split; [done|]. lia.
Qed.

(** The values that [fd_dict_new] accepts in a rule. *)
Definition rule_wf (r : dict_rule_data) : Prop := -1 ≤ rule_min r ∧ -1 ≤ rule_max r ∧ 0 ≤ rule_order r.
Definition rules_wf : Prop := ∀ o rs, dict_rules d o = Ok rs → Forall rule_wf rs.

Lemma check_rules_spec l rs :
  Forall rule_wf rs →
  match check_rules d l rs with
  | None => Forall (rule_holds l) rs
  | Some e => first_conflict l rs e
  end.
Proof.
  induction 1 as [|r rs (Hmin & Hmax & Ho) _ IH]; cbn [check_rules]; [done|].
  pose proof (check_one_rule_spec l r Hmin Hmax Ho) as Hr. destruct (parserules_check_one_rule d l r).
  - exists 0%nat, r. by split_and!.
  - destruct (check_rules d l rs); [|by constructor]. destruct IH as (i & r' & Hi & Hl & Hc). exists (S i), r'.
    split; [done|]. split; [by constructor|done].
Qed.

(** Where a reported conflict comes from, in the order of the checks: the children
    of a group, each of which complies but the one reported, then its rules, each
    of which holds but the one reported. *)
Inductive breaks : bool → avp → rules_err → Prop :=
  | breaks_unknown mandatory n h v s r l :
      mandatory && has (avp_flags h) AVP_FLAG_MANDATORY = true →
      breaks mandatory (Avp None n h v s r l) (EBADMSG, RulesPei DIAMETER_AVP_UNSUPPORTED (Some (InTree [])) false)
  | breaks_rule mandatory o n h v s r l rs e :
      Forall (complies d (mandatory && has (avp_flags h) AVP_FLAG_MANDATORY)) l →
      dict_rules d o = Ok rs → first_conflict l rs e → breaks mandatory (Avp (Some o) n h v s r l) e
  | breaks_child mandatory o n h v s r l i a e :
      l !! i = Some a → Forall (complies d (mandatory && has (avp_flags h) AVP_FLAG_MANDATORY)) (take i l) →
      breaks (mandatory && has (avp_flags h) AVP_FLAG_MANDATORY) a e →
      breaks mandatory (Avp (Some o) n h v s r l) (rules_at_child i e).

Definition rules_result (P : Prop) (B : rules_err → Prop) (r : res (option rules_err)) : Prop :=
  match r with
  | Ok None => P
  | Ok (Some e) => ¬ P ∧ B e
  | _ => False
  end.

Lemma foldr_Forall (P : avp → Prop) l : foldr (λ c Q, P c ∧ Q) True l ↔ Forall P l.
Proof. induction l as [|a l IH]; simpl; [split; [constructor|done]|]. by rewrite IH, Forall_cons. Qed.

Lemma rules_children_spec f i l (P : avp → Prop) (B : avp → rules_err → Prop) :
  Forall (λ a, rules_result (P a) (B a) (f a)) l →
  rules_result (Forall P l) (λ e, ∃ j a e', l !! j = Some a ∧ Forall P (take j l) ∧ B a e' ∧ e = rules_at_child (i + j) e')
    (rules_children f i l).
Proof.
  intros Hl. revert i. induction Hl as [|a l Ha _ IH]; intros i; [constructor|]. cbn [rules_children].
  destruct (f a) as [[e|]|e|]; try done; cbn [res_bind rules_result] in *.
  - destruct Ha as [Hn Hb]. split; [by intros [? _]%Forall_cons|]. exists 0%nat, a, e. rewrite Nat.add_0_r. by split_and!.
  - specialize (IH (S i)). destruct (rules_children f (S i) l) as [[e|]|e|]; try done; cbn [rules_result] in *.
    + destruct IH as [Hn (j & b & e' & Hj & Hp & Hb & ->)]. split; [by intros [_ ?]%Forall_cons|].
      exists (S j), b, e'. split; [done|]. split; [by constructor|]. split; [done|]. by rewrite Nat.add_succ_r.
    + by constructor.
Qed.

Lemma iterate_rules_spec o l :
  rules_wf → is_ok (dict_rules d o) →
  rules_result (∀ rs, dict_rules d o = Ok rs → Forall (rule_holds l) rs)
    (λ e, ∃ rs, dict_rules d o = Ok rs ∧ first_conflict l rs e) (iterate_rules d o l).
Proof.
  intros Hwf [rs Hrs]. unfold iterate_rules. rewrite Hrs. cbn [res_bind].
  pose proof (check_rules_spec l rs (Hwf o rs Hrs)) as Hc. destruct (check_rules d l rs) as [e|]; cbn [rules_result].
  - split; [|by exists rs]. destruct Hc as (i & r & Hr & _ & He). intros H. specialize (H rs eq_refl).
    rewrite Forall_forall in H. destruct He as (_ & Hn & _). apply Hn, H. by eapply list_elem_of_lookup_2.
  - by intros ? [= <-].
Qed.

Lemma parserules_avp_spec mandatory a :
  rules_wf → parsed d mandatory a = true →
  rules_result (complies d mandatory a) (breaks mandatory a) (parserules_do_avp d mandatory a).
Proof.
  intros Hwf. revert mandatory. induction a as [m n h v s r l IH] using avp_tree_ind. intros mandatory Hp.
  cbn [parsed parserules_do_avp complies] in *. destruct m as [o|].
  2: { destruct (mandatory && has (avp_flags h) AVP_FLAG_MANDATORY) eqn:Em; [|done].
       split; [done|]. by constructor. }
  destruct (avp_data d o) as [data|] eqn:Ed; [|done]. apply andb_prop in Hp as [_ Hp].
  destruct (a_basetype data) eqn:Et; try (intros data' [= <-]; by rewrite Et).
  set (sub := mandatory && has (avp_flags h) AVP_FLAG_MANDATORY) in *.
  assert (Forall (λ a, rules_result (complies d sub a) (breaks sub a) (parserules_do_avp d sub a)) l) as Hall.
  { rewrite forallb_forall in Hp. rewrite Forall_forall in *. intros a Ha. apply IH; [done|].
    apply Hp. by apply list_elem_of_In. }
  pose proof (rules_children_spec _ 0 l _ _ Hall) as Hc.
  destruct (rules_children _ 0 l) as [[e|]|e|]; try done; cbn [res_bind rules_result] in *.
  - destruct Hc as [Hn (j & a & e' & Hj & Hpre & Hb & ->)]. split.
    + intros H. destruct (H data eq_refl Et) as [H1 _]. apply Hn. by apply foldr_Forall.
    + by eapply breaks_child.
  - pose proof (iterate_rules_spec o l Hwf (dict_rules_avp d o data Ed Et)) as Hi.
    destruct (iterate_rules d o l) as [[e|]|e|]; try done; cbn [rules_result] in *.
    + destruct Hi as [Hn (rs & Hrs & He)]. split; [|by eapply breaks_rule].
      intros H. apply Hn. by destruct (H data eq_refl Et).
    + intros data' [= <-] _. split; [by apply foldr_Forall|done].
Qed.

(** What the check of a message reports, in the order of the checks. *)
Definition msg_breaks (m : msg) (e : rules_err) : Prop :=
  let model := if has (msg_flags (msg_public m)) CMD_FLAG_ERROR then Some (error_cmd d) else msg_model m in
  model = None ∧ e = (EBADMSG, RulesPei DIAMETER_COMMAND_UNSUPPORTED None true) ∨
  (∃ i a e', msg_children m !! i = Some a ∧ Forall (complies d true) (take i (msg_children m)) ∧ breaks true a e' ∧
     e = rules_at_child i e') ∨
  (∃ o rs, model = Some o ∧ Forall (complies d true) (msg_children m) ∧ dict_rules d o = Ok rs ∧ first_conflict (msg_children m) rs e).

Lemma parserules_spec m :
  rules_wf → forallb (parsed d true) (msg_children m) = true →
  (∀ o, msg_model m = Some o → is_Some (cmd_data d o)) →
  rules_result (msg_complies d m) (msg_breaks m) (parserules_do d m).
Proof.
  intros Hwf Hp Hm. unfold parserules_do, msg_complies.
  set (model := if has (msg_flags (msg_public m)) CMD_FLAG_ERROR then Some (error_cmd d) else msg_model m).
  destruct model as [o|] eqn:Eo.
  2: { split; [by intros (o & ? & _)|]. left. by fold model. }
  assert (is_ok (dict_rules d o)) as Hok.
  { unfold model in Eo. destruct (has _ _); [injection Eo as <-; apply dict_rules_error|by apply dict_rules_cmd, Hm]. }
  assert (Forall (λ a, rules_result (complies d true a) (breaks true a) (parserules_do_avp d true a)) (msg_children m)) as Hall.
  { rewrite forallb_forall in Hp. apply Forall_forall. intros a Ha. apply parserules_avp_spec; [done|].
    apply Hp. by apply list_elem_of_In. }
  pose proof (rules_children_spec _ 0 _ _ _ Hall) as Hc.
  destruct (rules_children _ 0 (msg_children m)) as [[e|]|e|]; try done; cbn [res_bind rules_result] in *.
  - destruct Hc as [Hn Hb]. split; [by intros (o' & [= <-] & ? & _)|]. right. by left.
  - pose proof (iterate_rules_spec o (msg_children m) Hwf Hok) as Hi.
    destruct (iterate_rules d o (msg_children m)) as [[e|]|e|]; try done; cbn [rules_result] in *.
    + destruct Hi as [Hn (rs & Hrs & He)]. split; [by intros (o' & [= <-] & _ & ?)|].
      right. right. exists o, rs. fold model. by split_and!.
    + by exists o.
Qed.

(** C31: [fd_msg_parse_rules] of a received message either reports why the
    message cannot be interpreted, or accepts it exactly when it complies with
    the rules of its command and, recursively, its grouped AVPs with those of
    their models.  The conflict that it reports is the first one in the order of
    the checks (the AVPs one by one, the children of a group before its rules, the
    rules in their order): a mandatory AVP that is unknown, or the first rule that
    is broken, with the code that says how: too few instances or none in the fixed
    position, some where none is allowed, or too many. *)
Theorem fd_msg_parse_rules_spec fuel m :
  rules_wf → received_msg m → (max_source m < fuel)%nat →
  ∃ m' e, fd_msg_parse_rules d fuel m = Ok (m', e) ∧
    match e with
    | None => msg_complies d m'
    | Some (inl e) => fd_msg_parse_dict d fuel m = Ok (m', Some e)
    | Some (inr e) => ¬ msg_complies d m' ∧ msg_breaks m' e
    end.
Proof.
  intros Hwf Hm Hf. destruct (parse_dict_result d fuel m Hm Hf) as (m' & e & Hd & Hh & He).
  unfold fd_msg_parse_rules. rewrite Hd. cbn [res_bind]. destruct e as [e|]; [by exists m', (Some (inl e))|].
  destruct He as (Hp & _ & _ & (o & c & _ & Hmo & Hc & _) & _).
  assert (∀ o, msg_model m' = Some o → is_Some (cmd_data d o)) as Hmod.
  { intros o' Ho'. rewrite Hmo in Ho'. injection Ho' as <-. by rewrite Hc. }
  pose proof (parserules_spec m' Hwf Hp Hmod) as Hr.
  destruct (parserules_do d m') as [[e|]|e|]; try done; [by exists m', (Some (inr e))|by exists m', None].
Qed.
End compliance.

(** ** Examples *)

Module Examples.
Import Small.

(** The base dictionary, where a Capabilities-Exchange-Request starts with a
    Session-Id and has at most one number. *)
Definition ruled : dict := Dict (avps base) (cmds base)
  (λ o, if decide (o = 6%nat) then
          [DictRuleData 0 RULE_FIXED_HEAD 1 1 1; DictRuleData 1 RULE_OPTIONAL 0 (-1) 1] else []).

Definition wire (l : list (list Z)) : bytes :=
  [1; 0; 0; 20 + zlen (concat l); 128; 0; 1; 1; 0; 0; 0; 0; 0; 0; 0; 1; 0; 0; 0; 2] ++ concat l.

Definition sid_bytes : bytes := [0; 0; 1; 7; 64; 0; 0; 9; 97; 0; 0; 0].
Definition num_bytes : bytes := [0; 0; 1; 12; 64; 0; 0; 12; 0; 0; 7; 209].

Definition split (b : bytes) : msg := match fd_msg_parse_buffer b (zlen b) with Ok m => m | _ => init_msg end.

Lemma fd_msg_parse_rules_witness :
  let m := split (wire [num_bytes; sid_bytes]) in
  ∃ m' e, fd_msg_parse_rules ruled 50 m = Ok (m', e) ∧
    match e with
    | None => msg_complies ruled m'
    | Some (inl e) => fd_msg_parse_dict ruled 50 m = Ok (m', Some e)
    | Some (inr e) => ¬ msg_complies ruled m' ∧ msg_breaks ruled m' e
    end.
Proof.
  intros m. apply (fd_msg_parse_rules_spec ruled 50 m).
  - intros o rs. cbn. intros [= <-]. case_decide; repeat constructor; simpl; lia.
  - split; [reflexivity|]. split; [reflexivity|].
    destruct (parse_buffer_result (wire [num_bytes; sid_bytes])) as (_ & _ & _ & _ & _ & Hl); [by_compute|reflexivity|].
    eapply Forall_impl; [exact Hl|]. by intros a [? _].
  - vm_compute. lia.
Defined.

(** The Session-Id is missing at the head; then it is there. *)
Example session_id_second :
  (let* (_, e) := fd_msg_parse_rules ruled 50 (split (wire [num_bytes; sid_bytes])) in
   Ok (match e with Some (inr e) => Some (rp_code (snd e)) | _ => None end)) = Ok (Some DIAMETER_MISSING_AVP).
Proof. vm_compute. reflexivity. Qed.
Example session_id_first :
  (let* (_, e) := fd_msg_parse_rules ruled 50 (split (wire [sid_bytes; num_bytes])) in
   Ok (match e with None => true | _ => false end)) = Ok true.
Proof. vm_compute. reflexivity. Qed.
End Examples.
