(* ===== verification/Dispatch.v ===== *)
(** * Dispatching messages to callbacks ([libfdproto/dispatch.c],
    [fd_msg_dispatch] of [libfdproto/messages.c])

    The handlers and the lists they are linked in, their registration, and the
    dispatch of a message.  A callback is an arbitrary function on the world: the
    messages by address, and whatever else it changes.  A handler is designated
    by its address, an AVP of a message by its path. *)

From stdpp Require Import base list gmap.
From Stdlib Require Import ZArith Lia.
From S2P Require Import Prelude DictTypes Msg MsgBuf MsgDict MsgTree.

(** ** Handlers *)

Inductive disp_how :=
  | DISP_HOW_ANY | DISP_HOW_APPID | DISP_HOW_CC | DISP_HOW_AVP | DISP_HOW_AVP_ENUMVAL.

(** [struct disp_when]; [None] is NULL. *)
Record disp_when := DispWhen {
  when_app : option obj; when_command : option obj; when_avp : option obj; when_value : option obj }.

Record disp_hdl := DispHdl { hdl_how : disp_how; hdl_when : disp_when; hdl_cb : nat; hdl_opaque : nat }.

(** The handlers by address, [all_handlers], [any_handlers], and the lists
    [disp_cbs] of the dictionary objects. *)
Record disp := Disp {
  hdls : gmap nat disp_hdl; all_handlers : list nat; any_handlers : list nat;
  disp_cbs : gmap obj (list nat) }.

Definition cbs_of (o : obj) (s : disp) : list nat := default [] (disp_cbs s !! o).

(** Where a handler is linked: [any_handlers] or the list of an object. *)
Inductive cb_list := AnyHandlers | ObjectCbs (o : obj).

Definition cb_list_of (l : cb_list) (s : disp) : list nat :=
  match l with AnyHandlers => any_handlers s | ObjectCbs o => cbs_of o s end.

Definition link_handler (l : cb_list) (h : nat) (s : disp) : disp :=
  match l with
  | AnyHandlers => Disp (hdls s) (all_handlers s) (any_handlers s ++ [h]) (disp_cbs s)
  | ObjectCbs o => Disp (hdls s) (all_handlers s) (any_handlers s) (<[o := cbs_of o s ++ [h]]> (disp_cbs s))
  end.

Section register.
Context {D : Type} `{!DispDictionary D} (d : D).

(** [fd_dict_disp_cb]: the list of callbacks of an object of the given type. *)
Definition fd_dict_disp_cb (ty : dict_object_type) (o : option obj) : res cb_list :=
  match o with
  | None => Err EINVAL
  | Some o => check bool_decide (object_type d o = Some ty) in Ok (ObjectCbs o)
  end.

(** The part of the registration by AVP, after [type_enum] for an enumerated
    value. *)
Definition avp_cb_list (w : disp_when) (type_enum : option obj) : res cb_list :=
  let* l := fd_dict_disp_cb DICT_AVP (when_avp w) in
  match type_enum, when_avp w with
  | Some te, Some a =>
      match type_of_avp d a with
      | None => Err EINVAL
      | Some ta => check bool_decide (te = ta) in Ok l
      end
  | _, _ => Ok l
  end.

(** The list that the parameters of a registration designate. *)
Definition register_list (how : disp_how) (w : disp_when) : res cb_list :=
  match how with
  | DISP_HOW_ANY => Ok AnyHandlers
  | DISP_HOW_APPID => fd_dict_disp_cb DICT_APPLICATION (when_app w)
  | DISP_HOW_CC => fd_dict_disp_cb DICT_COMMAND (when_command w)
  | DISP_HOW_AVP_ENUMVAL =>
      let* _ := fd_dict_disp_cb DICT_ENUMVAL (when_value w) in
      match when_value w with
      | None => Err EINVAL
      | Some v => match type_of_enumval d v with None => Err EINVAL | Some t => avp_cb_list w (Some t) end
      end
  | DISP_HOW_AVP => avp_cb_list w None
  end.

(** The conditions kept in the handler: those above its kind. *)
Definition kept_when (how : disp_how) (w : disp_when) : disp_when :=
  match how with
  | DISP_HOW_ANY => DispWhen None None None None
  | DISP_HOW_AVP_ENUMVAL => w
  | DISP_HOW_AVP => DispWhen (when_app w) (when_command w) (when_avp w) None
  | DISP_HOW_CC => DispWhen (when_app w) (when_command w) None None
  | DISP_HOW_APPID => DispWhen (when_app w) None None None
  end.

(** [new] is the address of the block that is allocated; [when = None] is
    NULL. *)
Definition fd_disp_register (cb : nat) (how : disp_how) (when : option disp_when) (opaque new : nat) (s : disp)
    : res disp :=
  check match how, when with DISP_HOW_ANY, _ => true | _, Some _ => true | _, None => false end in
  let w := default (DispWhen None None None None) when in
  let* l := register_list how w in
  Ok (link_handler l new
        (Disp (<[new := DispHdl how (kept_when how w) cb opaque]> (hdls s)) (all_handlers s ++ [new])
           (any_handlers s) (disp_cbs s))).
End register.

(** Unlinking removes the handler from the list it is in; a handler is in one
    list at most. *)
Definition fd_disp_unregister (h : nat) (s : disp) : res (nat * disp) :=
  match hdls s !! h with
  | None => Err EINVAL
  | Some hdl =>
      let rm := filter (λ k, k ≠ h) in
      Ok (hdl_opaque hdl,
          Disp (delete h (hdls s)) (rm (all_handlers s)) (rm (any_handlers s)) (rm <$> disp_cbs s))
  end.

(** [fd_disp_unregister_all]: one turn for each element of [all_handlers]. *)
Fixpoint fd_disp_unregister_all (fuel : nat) (s : disp) : res disp :=
  match fuel with
  | 0%nat => Crash
  | S fuel =>
      match all_handlers s with
      | [] => Ok s
      | h :: _ => let* (_, s) := fd_disp_unregister h s in fd_disp_unregister_all fuel s
      end
  end.

(** ** Calling the callbacks *)

Inductive disp_action := DISP_ACT_CONT | DISP_ACT_SEND | DISP_ACT_ERROR.

#[export] Instance disp_action_eq_dec : EqDecision disp_action.
Proof. solve_decision. Defined.

Inductive drop_reason := DROP_CALLBACK_ERROR | DROP_UNSUPPORTED_ANSWER.

(** What a callback returns: [*msg], [*action] and the returned code. *)
Record cb_result := CbResult { r_msg : option nat; r_action : disp_action; r_ret : option errno }.

(** The parameters that the dispatch may change: [*msg], [*action],
    [*error_code], and [*drop_reason] with [*drop_msg]; and the world. *)
Record dstate (W : Type) := DState {
  world : W; cur_msg : option nat; action : disp_action; app_unsupported : bool;
  dropped : option (drop_reason * option nat) }.
Arguments DState {W} _ _ _ _ _.
Arguments world {W} _.
Arguments cur_msg {W} _.
Arguments action {W} _.
Arguments app_unsupported {W} _.
Arguments dropped {W} _.

Section dispatch.
Context {D W : Type} `{!MsgDictionary D} `{!DispDictionary D} (d : D).
(** The callbacks; the messages that the world holds. *)
Context (run_cb : nat → W → nat → option path → option nat → nat → W * cb_result).
Context (messages : W → msgs).

(** The objects that a handler is compared with. *)
Record disp_objs := DispObjs {
  obj_app : option obj; obj_cmd : option obj; obj_avp : option obj; obj_enu : option obj }.

Definition matches1 (w o : option obj) : bool := bool_decide (w = None) || bool_decide (w = o).

Definition hdl_matches (w : disp_when) (o : disp_objs) : bool :=
  matches1 (when_app w) (obj_app o) && matches1 (when_command w) (obj_cmd o) &&
  matches1 (when_avp w) (obj_avp o) && matches1 (when_value w) (obj_enu o).

(** The call of one callback. *)
Definition call_hdl (h : disp_hdl) (avp : option path) (sess : option nat) (s : dstate W) : dstate W :=
  match cur_msg s with
  | None => s
  | Some m =>
      let '(w, r) := run_cb (hdl_cb h) (world s) m avp sess (hdl_opaque h) in
      match r_ret r with
      | None => DState w (r_msg r) (r_action r) (app_unsupported s) (dropped s)
      | Some _ => DState w None (r_action r) (app_unsupported s) (Some (DROP_CALLBACK_ERROR, r_msg r))
      end
  end.

(** [*action != DISP_ACT_CONT || *msg == NULL] *)
Definition stopped (s : dstate W) : bool :=
  negb (bool_decide (action s = DISP_ACT_CONT)) || bool_decide (cur_msg s = None).

(** The loop of [fd_disp_call_cb_int]. *)
Fixpoint call_cbs (hs : list disp_hdl) (avp : option path) (sess : option nat) (o : disp_objs) (s : dstate W)
    : dstate W :=
  match hs with
  | [] => s
  | h :: hs =>
      if hdl_matches (hdl_when h) o then
        let s := call_hdl h avp sess s in
        if stopped s then s else call_cbs hs avp sess o s
      else call_cbs hs avp sess o s
  end.

Definition handlers_of (l : cb_list) (st : disp) : list disp_hdl := omap (λ h, hdls st !! h) (cb_list_of l st).

Definition fd_disp_call_cb_int (st : disp) (l : cb_list) (avp : option path) (sess : option nat) (o : disp_objs)
    (s : dstate W) : dstate W := call_cbs (handlers_of l st) avp sess o s.

(** The AVP at a path of a message. *)
Definition avp_at (m : nat) (p : path) (w : W) : option avp :=
  match messages w !! m with
  | None => None
  | Some msg => subtree (with_children (msg_children msg) init_avp) p
  end.

(** "Check if the AVP has a constant value". *)
Definition find_enumval (o : obj) (v : option avp_value) : res (option obj) :=
  match v with
  | None => Ok None
  | Some v => match type_of_avp d o with None => Ok None | Some t => enumval_by_value d t v end
  end.

(** The loop on the AVPs of the message [m], from the one at [p] on; [None] for
    a failure, with the code.  The path stands for the AVP: it is read again in
    the tree as the callbacks leave it. *)
Fixpoint dispatch_avps (fuel : nat) (st : disp) (m : nat) (app cmd : obj) (sess : option nat) (p : option path)
    (s : dstate W) : res (dstate W * option errno) :=
  match fuel with
  | 0%nat => Crash
  | S fuel =>
      match p with
      | None => Ok (s, None)
      | Some p =>
          match avp_at m p (world s) with
          | None => Crash
          | Some a =>
              let continue s :=
                match messages (world s) !! m with
                | None => Crash
                | Some msg =>
                    match fd_msg_browse true (msg_children msg) p MSG_BRW_WALK with
                    | Ok (q, _) => dispatch_avps fuel st m app cmd sess q s
                    | Err e => Ok (s, Some e)
                    | Crash => Crash
                    end
                end in
              match avp_model a with
              | None => continue s
              | Some o =>
                  match fd_dict_disp_cb d DICT_AVP (Some o), find_enumval o (avp_val a) with
                  | Ok l, Ok enu =>
                      let s := fd_disp_call_cb_int st l (Some p) sess (DispObjs (Some app) (Some cmd) (Some o) enu) s in
                      if stopped s then Ok (s, None) else continue s
                  | Err e, _ => Ok (s, Some e)
                  | Ok _, Err e => Ok (s, Some e)
                  | _, _ => Crash
                  end
              end
          end
      end
  end.

(** "Now call command and application callbacks". *)
Definition dispatch_end (st : disp) (app cmd : obj) (sess : option nat) (s : dstate W) : res (dstate W * option errno) :=
  let o := DispObjs (Some app) (Some cmd) None None in
  match fd_dict_disp_cb d DICT_COMMAND (Some cmd) with
  | Err e => Ok (s, Some e)
  | Crash => Crash
  | Ok l =>
      let s := fd_disp_call_cb_int st l None sess o s in
      if stopped s then Ok (s, None) else
      match fd_dict_disp_cb d DICT_APPLICATION (Some app) with
      | Err e => Ok (s, Some e)
      | Crash => Crash
      | Ok l => Ok (fd_disp_call_cb_int st l None sess o s, None)
      end
  end.

(** The parameters [error_code], [drop_reason] and [drop_msg] are given. *)
Definition fd_msg_dispatch (fuel : nat) (st : disp) (m : nat) (sess : option nat) (w : W)
    : res (dstate W * option errno) :=
  let s := DState w (Some m) DISP_ACT_CONT false None in
  let s := fd_disp_call_cb_int st AnyHandlers None sess (DispObjs None None None None) s in
  if stopped s then Ok (s, None) else
  match cur_msg s with
  | None => Ok (s, None)
  | Some m =>
      match messages (world s) !! m with
      | None => Crash
      | Some msg =>
          match msg_model msg with
          | None => Ok (s, Some EINVAL)
          | Some cmd =>
              match application_by_id d (msg_appl (msg_public msg)) with
              | None =>
                  if has (msg_flags (msg_public msg)) CMD_FLAG_REQUEST then
                    Ok (DState (world s) (cur_msg s) DISP_ACT_ERROR true (dropped s), None)
                  else Ok (DState (world s) None (action s) (app_unsupported s) (Some (DROP_UNSUPPORTED_ANSWER, Some m)), None)
              | Some app =>
                  match fd_msg_browse true (msg_children msg) [] MSG_BRW_FIRST_CHILD with
                  | Ok (p, _) =>
                      let* (s, e) := dispatch_avps fuel st m app cmd sess p s in
                      match e with
                      | Some e => Ok (s, Some e)
                      | None => if stopped s then Ok (s, None) else dispatch_end st app cmd sess s
                      end
                  | Err e => Ok (s, Some e)
                  | Crash => Crash
                  end
              end
          end
      end
  end.
End dispatch.

(** ** The sequence of calls *)

Section sequence.
Context {D W : Type} `{!MsgDictionary D} `{!DispDictionary D} (d : D).
Context (run_cb : nat → W → nat → option path → option nat → nat → W * cb_result).
Context (messages : W → msgs).

(** A call: the handler and the AVP. *)
Definition call : Type := disp_hdl * option path.

(** The handlers of a list that match, in the order of the list. *)
Definition matching (st : disp) (l : cb_list) (avp : option path) (o : disp_objs) : list call :=
  (λ h, (h, avp)) <$> filter (λ h, hdl_matches (hdl_when h) o = true) (handlers_of l st).

(** The calls for the AVP at a path of a message. *)
Definition avp_calls (st : disp) (app cmd : obj) (l : list avp) (p : path) : list call :=
  match subtree (with_children l init_avp) p with
  | None => []
  | Some a =>
      match avp_model a with
      | None => []
      | Some o =>
          match find_enumval d o (avp_val a) with
          | Ok enu => matching st (ObjectCbs o) (Some p) (DispObjs (Some app) (Some cmd) (Some o) enu)
          | _ => []
          end
      end
  end.

(** The callbacks of the AVPs in the order of the document, of the command, and
    of the application. *)
Definition message_calls (st : disp) (app cmd : obj) (l : list avp) : list call :=
  (preorder_from 0 l ≫= avp_calls st app cmd l) ++
  matching st (ObjectCbs cmd) None (DispObjs (Some app) (Some cmd) None None) ++
  matching st (ObjectCbs app) None (DispObjs (Some app) (Some cmd) None None).

(** Making the calls one after the other, until one of them ends the dispatch. *)
Fixpoint run_calls (cs : list call) (sess : option nat) (s : dstate W) : dstate W :=
  match cs with
  | [] => s
  | (h, avp) :: cs =>
      let s := call_hdl run_cb h avp sess s in if stopped s then s else run_calls cs sess s
  end.

Lemma run_calls_app cs cs' sess s :
  stopped s = false →
  run_calls (cs ++ cs') sess s =
    let s := run_calls cs sess s in if stopped s then s else run_calls cs' sess s.
Proof.
  revert s. induction cs as [|[h p] cs IH]; intros s Hs; cbn [app run_calls]; [by rewrite Hs|].
  destruct (stopped (call_hdl run_cb h p sess s)) eqn:E; [by rewrite E|by apply IH].
Qed.

Lemma call_cb_int_calls st l avp sess o s :
  fd_disp_call_cb_int run_cb st l avp sess o s = run_calls (matching st l avp o) sess s.
Proof.
  unfold fd_disp_call_cb_int, matching. revert s. induction (handlers_of l st) as [|h hs IH]; intros s; [done|].
  cbn [call_cbs]. rewrite filter_cons. destruct (hdl_matches (hdl_when h) o) eqn:E.
  - rewrite decide_True by done. rewrite fmap_cons. cbn [run_calls]. destruct (stopped _); [done|apply IH].
  - rewrite decide_False by done. apply IH.
Qed.

(** The dictionary knows the models of the AVPs, and looks up the values. *)
Definition dispatchable (l : list avp) : Prop :=
  ∀ p a o, subtree (with_children l init_avp) p = Some a → avp_model a = Some o →
  object_type d o = Some DICT_AVP ∧ is_ok (find_enumval d o (avp_val a)).

(** A callback may do anything to the world: free the messages or replace them,
    change their contents, create others.  What the walk on the AVPs of the
    message [m] relies on: a callback of an AVP that lets the dispatch go on leaves
    the AVPs [l] of [m] as they are.  (The next AVP is found from the one just
    handled, messages.c:2875.) *)
Definition avps_of (m : nat) (s : dstate W) : option (list avp) := msg_children <$> messages (world s) !! m.

Definition leaves_avps (m : nat) (l : list avp) (sess : option nat) (cs : list call) : Prop :=
  ∀ h p s, (h, p) ∈ cs → avps_of m s = Some l →
  let s' := call_hdl run_cb h p sess s in stopped s' = false → avps_of m s' = Some l.

Lemma run_calls_avps m l cs sess s :
  leaves_avps m l sess cs → avps_of m s = Some l → stopped (run_calls cs sess s) = false →
  avps_of m (run_calls cs sess s) = Some l.
Proof.
  revert s. induction cs as [|[h p] cs IH]; intros s Hl Hs; [done|]. cbn [run_calls].
  destruct (stopped (call_hdl run_cb h p sess s)) eqn:E; [congruence|]. intros Hr. apply IH; [|by apply Hl; [left|..]|done].
  intros h' p' s' Hin. apply Hl. by right.
Qed.

Lemma avps_of_Some m s l : avps_of m s = Some l → ∃ msg, messages (world s) !! m = Some msg ∧ msg_children msg = l.
Proof. by intros (msg & -> & ?)%fmap_Some; eauto. Qed.

Lemma dispatch_avps_calls fuel st m app cmd sess l ps s :
  dispatchable l → avps_of m s = Some l → stopped s = false → walked l ps [] →
  Forall (λ p, ∃ a, subtree (with_children l init_avp) p = Some a) ps →
  leaves_avps m l sess (ps ≫= avp_calls st app cmd l) → (length ps < fuel)%nat →
  dispatch_avps d run_cb messages fuel st m app cmd sess (head ps) s =
    Ok (run_calls (ps ≫= avp_calls st app cmd l) sess s, None).
Proof.
  intros Hd. revert fuel s. induction ps as [|p ps IH]; intros fuel s Hm Hs Hw Hobj Hlv Hf;
    (destruct fuel as [|fuel]; [simpl in Hf; lia|]); [done|].
  cbn [head dispatch_avps]. destruct (avps_of_Some _ _ _ Hm) as (msg & Hmsg & El). unfold avp_at. rewrite Hmsg, El.
  apply Forall_cons in Hobj as [[a Ha] Hobj]. rewrite Ha.
  destruct Hw as [Hstep Hw]. rewrite app_nil_r in Hstep. simpl in Hf.
  assert (∃ n, fd_msg_browse true l p MSG_BRW_WALK = Ok (head ps, n)) as [n Hn].
  { destruct ps as [|q ps]; cbn [steps head] in *; [destruct Hstep as (n & ? & _)|destruct Hstep as [? _]]; eauto. }
  rewrite bind_cons. unfold avp_calls at 1. rewrite Ha. destruct (avp_model a) as [o|] eqn:Eo.
  - destruct (Hd p a o Ha Eo) as [Hty [enu Henu]]. unfold fd_dict_disp_cb. rewrite bool_decide_true, Henu by done.
    rewrite bind_cons in Hlv. unfold avp_calls at 1 in Hlv. rewrite Ha, Eo, Henu in Hlv.
    cbn [fst]. rewrite call_cb_int_calls, run_calls_app by done. cbv zeta.
    set (s1 := run_calls (matching st (ObjectCbs o) (Some p) _) sess s).
    destruct (stopped s1) eqn:E1; [done|].
    assert (avps_of m s1 = Some l) as Hm1.
    { apply run_calls_avps; [|done|done]. intros h q t Hin. apply Hlv, elem_of_app. by left. }
    destruct (avps_of_Some _ _ _ Hm1) as (msg1 & -> & ->). rewrite Hn. apply IH; try done; [|lia].
    intros h q t Hin. apply Hlv, elem_of_app. by right.
  - rewrite ?El, Hn. apply IH; try done; [|lia]. rewrite bind_cons in Hlv. unfold avp_calls at 1 in Hlv.
    by rewrite Ha, Eo in Hlv.
Qed.

(** As long as the dispatch goes on the other results are as at the start. *)
Lemma run_calls_going cs sess s :
  action s = DISP_ACT_CONT → app_unsupported s = false → dropped s = None → stopped (run_calls cs sess s) = false →
  let s' := run_calls cs sess s in action s' = DISP_ACT_CONT ∧ app_unsupported s' = false ∧ dropped s' = None.
Proof.
  revert s. induction cs as [|[h p] cs IH]; intros s Ha Hu Hd; [done|]. cbn [run_calls].
  destruct (stopped (call_hdl run_cb h p sess s)) eqn:E; [congruence|]. intros Hs. apply IH; [..|done].
  - unfold stopped in E. apply orb_false_iff in E as [E _]. by apply negb_false_iff, bool_decide_eq_true in E.
  - unfold call_hdl. destruct (cur_msg s); [|done]. destruct (run_cb _ _ _ _ _ _) as [? r]. by destruct (r_ret r).
  - revert E. unfold call_hdl. destruct (cur_msg s); [|done]. destruct (run_cb _ _ _ _ _ _) as [? r].
    destruct (r_ret r); [|done]. unfold stopped. cbn [action cur_msg]. by rewrite orb_true_r.
Qed.

Lemma preorder_objects l :
  Forall (λ p, ∃ a, subtree (with_children l init_avp) p = Some a) (preorder_from 0 l).
Proof.
  apply Forall_forall. intros p Hp. assert (p ∈ preorder l) as Hin by (by right).
  apply elem_of_preorder, bool_decide_eq_true in Hin as [ch Hch].
  pose proof (subtree_children (with_children l init_avp) p) as E.
  change (avp_children (with_children l init_avp)) with l in E.
  rewrite Hch in E. symmetry in E. apply fmap_Some in E as (a & Ha & _). by exists a.
Qed.

(** C32: [fd_msg_dispatch] on the message [m].  The handlers for any message are
    called first, in the order they were registered; if one of them ends the
    dispatch the result is the state it left.  Otherwise [msg] is the message that
    they left.  If its application is unknown, a request is to be answered with
    DIAMETER_APPLICATION_UNSUPPORTED and an answer is dropped, and no other handler
    is called.  If it is known, the handlers are called in this order until one
    ends the dispatch: for each AVP, in the order of the document, those
    registered for it that match the application, the command and the enumerated
    value; those of the command; those of the application.  The result is what
    the last call left: a callback ends the dispatch when it fails, takes the
    message or does not return DISP_ACT_CONT.

    The callbacks are arbitrary, with one hypothesis: one that is called for an AVP
    and lets the dispatch go on leaves the AVPs of this message as they are
    ([leaves_avps]).  Those that end the dispatch, and all those called for the
    message, may change, replace or free it. *)
Theorem fd_msg_dispatch_order fuel st m sess w :
  let s1 := run_calls (matching st AnyHandlers None (DispObjs None None None None)) sess
              (DState w (Some m) DISP_ACT_CONT false None) in
  let result := fd_msg_dispatch d run_cb messages fuel st m sess w in
  (stopped s1 = true → result = Ok (s1, None)) ∧
  ∀ m1 msg cmd,
  stopped s1 = false → cur_msg s1 = Some m1 → messages (world s1) !! m1 = Some msg → msg_model msg = Some cmd →
  let app := application_by_id d (msg_appl (msg_public msg)) in
  (app = None →
   result = Ok (if has (msg_flags (msg_public msg)) CMD_FLAG_REQUEST
                then DState (world s1) (Some m1) DISP_ACT_ERROR true None
                else DState (world s1) None DISP_ACT_CONT false (Some (DROP_UNSUPPORTED_ANSWER, Some m1)), None)) ∧
  ∀ a, app = Some a →
  object_type d cmd = Some DICT_COMMAND → object_type d a = Some DICT_APPLICATION →
  dispatchable (msg_children msg) → (length (preorder (msg_children msg)) < fuel)%nat →
  leaves_avps m1 (msg_children msg) sess (preorder_from 0 (msg_children msg) ≫= avp_calls st a cmd (msg_children msg)) →
  result = Ok (run_calls (message_calls st a cmd (msg_children msg)) sess s1, None).
Proof.
  intros s1 result. unfold result, fd_msg_dispatch. rewrite call_cb_int_calls. fold s1.
  split; [by intros ->|]. intros m1 msg cmd E1 Hc Hm Hmod.
  assert (action s1 = DISP_ACT_CONT ∧ app_unsupported s1 = false ∧ dropped s1 = None) as (Ea & Eu & Ed)
    by (by apply run_calls_going).
  rewrite E1, Hc, Hm, Hmod. split; [intros ->; rewrite Ea, Eu, Ed; by destruct (has _ _)|].
  intros a -> Hcmd Hat Hd Hf Hlv.
  assert (∃ n, fd_msg_browse true (msg_children msg) [] MSG_BRW_FIRST_CHILD = Ok (head (preorder_from 0 (msg_children msg)), n)) as [n ->].
  { unfold fd_msg_browse. cbn [children_at]. destruct (msg_children msg) as [|b l]; [by eexists|].
    cbn [preorder_from]. rewrite avp_preorder_eq. by eexists. }
  assert (avps_of m1 s1 = Some (msg_children msg)) as Hm1 by (unfold avps_of; by rewrite Hm).
  rewrite (dispatch_avps_calls fuel st m1 a cmd sess _ _ s1 Hd Hm1 E1 (proj2 (walked_preorder (msg_children msg)))
    (preorder_objects _) Hlv) by (unfold preorder in Hf; simpl in Hf; lia).
  cbn [res_bind]. unfold message_calls. rewrite run_calls_app by done. cbv zeta.
  set (s2 := run_calls (preorder_from 0 _ ≫= _) sess s1). destruct (stopped s2) eqn:E2; [done|].
  unfold dispatch_end, fd_dict_disp_cb. rewrite (bool_decide_true (object_type d cmd = _)), call_cb_int_calls by done.
  rewrite run_calls_app by done. cbv zeta. set (s3 := run_calls (matching _ _ _ _) sess s2).
  destruct (stopped s3); [done|]. by rewrite bool_decide_true, call_cb_int_calls.
Qed.
End sequence.

(** ** Registration *)

Section registration.
Context {D : Type} `{!DispDictionary D} (d : D).

(** The handlers that are linked are in [all_handlers]. *)
Definition disp_wf (s : disp) : Prop :=
  (∀ h, h ∈ all_handlers s → is_Some (hdls s !! h)) ∧
  (∀ h, h ∈ any_handlers s → h ∈ all_handlers s) ∧
  (∀ o h, h ∈ cbs_of o s → h ∈ all_handlers s).

Lemma filter_fresh (h : nat) (l : list nat) : h ∉ l → filter (λ k, k ≠ h) l = l.
Proof.
  intros Hl. induction l as [|k l IH]; [done|]. apply not_elem_of_cons in Hl as [? ?].
  rewrite filter_cons, decide_True by done. by rewrite IH.
Qed.

Lemma filter_added (h : nat) (l : list nat) : h ∉ l → filter (λ k, k ≠ h) (l ++ [h]) = l.
Proof.
  intros Hl. rewrite filter_app, filter_fresh by done. rewrite filter_cons, decide_False, filter_nil by naive_solver.
  apply app_nil_r.
Qed.

Lemma cbs_of_rm o (f : list nat → list nat) m al an cb :
  f [] = [] → cbs_of o (Disp m al an (f <$> cb)) = f (cbs_of o (Disp m al an cb)).
Proof. intros Hf. unfold cbs_of. cbn [disp_cbs]. rewrite lookup_fmap. by destruct (cb !! o). Qed.

(** [fd_disp_register] links a new handler behind those of the list of its
    kind, and keeps the conditions of that kind only; [fd_disp_unregister] takes
    it out again and gives the data back: the handlers are as before. *)
Theorem fd_disp_register_unregister cb how when opaque new s s1 :
  disp_wf s → hdls s !! new = None → fd_disp_register d cb how when opaque new s = Ok s1 →
  disp_wf s1 ∧
  (∃ w l, register_list d how w = Ok l ∧ cb_list_of l s1 = cb_list_of l s ++ [new] ∧
     hdls s1 !! new = Some (DispHdl how (kept_when how w) cb opaque)) ∧
  ∃ s2, fd_disp_unregister new s1 = Ok (opaque, s2) ∧
    hdls s2 = hdls s ∧ all_handlers s2 = all_handlers s ∧ any_handlers s2 = any_handlers s ∧
    ∀ o, cbs_of o s2 = cbs_of o s.
Proof.
  intros (Hall & Hany & Hcbs) Hnew. unfold fd_disp_register. intros Hr. destruct_res. subst s1.
  set (w := default _ when) in *. rename x into l. set (hdl := DispHdl how (kept_when how w) cb opaque).
  assert (new ∉ all_handlers s) as Ha by (intros Hin; destruct (Hall new Hin); congruence).
  assert (new ∉ any_handlers s) as Hn by auto. assert (∀ o, new ∉ cbs_of o s) as Hc by eauto.
  assert (∀ o' l', cbs_of o' (Disp (<[new:=hdl]> (hdls s)) (all_handlers s ++ [new]) l' (disp_cbs s)) = cbs_of o' s) as Hco by done.
  split; [|split].
  - destruct l as [|o]; unfold disp_wf; cbn [link_handler hdls all_handlers any_handlers]; split_and!.
    + intros h [Hh| ->%list_elem_of_singleton]%elem_of_app; [|by rewrite lookup_insert_eq].
      destruct (decide (h = new)) as [->|]; [by rewrite lookup_insert_eq|]. rewrite lookup_insert_ne by done. auto.
    + intros h [Hh|Hh]%elem_of_app; apply elem_of_app; auto.
    + intros o h Hh. apply elem_of_app. left. eapply Hcbs, Hh.
    + intros h [Hh| ->%list_elem_of_singleton]%elem_of_app; [|by rewrite lookup_insert_eq].
      destruct (decide (h = new)) as [->|]; [by rewrite lookup_insert_eq|]. rewrite lookup_insert_ne by done. auto.
    + intros h Hh. apply elem_of_app. auto.
    + intros o' h Hh. unfold cbs_of in Hh. cbn [disp_cbs] in Hh. apply elem_of_app.
      destruct (decide (o' = o)) as [->|]; [rewrite lookup_insert_eq in Hh|rewrite lookup_insert_ne in Hh by done].
      * cbn [default from_option id] in Hh. apply elem_of_app in Hh as [Hh|Hh]; [left; eapply Hcbs, Hh|by right].
      * left. by apply (Hcbs o').
  - exists w, l. split; [done|]. destruct l as [|o]; cbn [link_handler cb_list_of any_handlers hdls].
    + split; [done|]. by rewrite lookup_insert_eq.
    + unfold cbs_of at 1. cbn [disp_cbs]. rewrite lookup_insert_eq. split; [done|]. by rewrite lookup_insert_eq.
  - unfold fd_disp_unregister. destruct l as [|o]; cbn [link_handler hdls all_handlers any_handlers disp_cbs].
    + rewrite lookup_insert_eq. eexists. split; [done|]. cbn [hdls all_handlers any_handlers].
      rewrite delete_insert_id, !filter_added by done. split_and!; [done..|]. intros o'.
      rewrite cbs_of_rm by done. by apply filter_fresh.
    + rewrite lookup_insert_eq. eexists. split; [done|]. cbn [hdls all_handlers any_handlers].
      rewrite delete_insert_id, filter_added, filter_fresh by done. split_and!; [done..|]. intros o'.
      rewrite cbs_of_rm by done. unfold cbs_of at 1. cbn [disp_cbs].
      destruct (decide (o' = o)) as [->|]; [rewrite lookup_insert_eq|rewrite lookup_insert_ne by done].
      * by apply filter_added.
      * by apply filter_fresh.
Qed.
End registration.

(** ** Examples *)

Module Examples.
Import Small MsgBuf.Examples.

(** The world is a log of the callbacks. *)
Definition log : Type := list (nat * option path).
Definition run_log (cb : nat) (w : log) (m : nat) (p : option path) (sess : option nat) (op : nat) : log * cb_result :=
  (w ++ [(cb, p)], CbResult (Some m) (if decide (cb = 4%nat) then DISP_ACT_SEND else DISP_ACT_CONT) None).
Definition no_handlers : disp := Disp ∅ [] [] ∅.

(** Handlers 1 for any message, 2 for the AVP 3, 3 for the command, 4 (which
    sends) and 5 for the application. *)
Definition reg (cb : nat) (how : disp_how) (w : disp_when) (s : disp) : disp :=
  match fd_disp_register base cb how (Some w) 0 cb s with Ok s => s | _ => s end.
Definition registered : disp :=
  reg 5 DISP_HOW_APPID (DispWhen (Some 100%nat) None None None)
  (reg 4 DISP_HOW_APPID (DispWhen (Some 100%nat) None None None)
  (reg 3 DISP_HOW_CC (DispWhen None (Some 6%nat) None None)
  (reg 2 DISP_HOW_AVP (DispWhen None None (Some 3%nat) None)
  (reg 1 DISP_HOW_ANY (DispWhen None None None None) no_handlers)))).

Lemma dispatchable_cer : dispatchable (D:=dict) base (msg_children cer).
Proof.
  intros p a o Hp Ho.
  destruct p as [|[|[|[|i]]] [|[|j] [|k p]]]; cbn in Hp; try done; injection Hp as <-; try done;
    injection Ho as <-; (split; [done|by eexists]).
Qed.

(** The last callback frees the message that it sends. *)
Definition cer_until_sent (w : log) : msgs := if decide ((4%nat, None) ∈ w) then ∅ else {[ 9%nat := cer ]}.

Lemma fd_msg_dispatch_witness :
  fd_msg_dispatch base run_log cer_until_sent 10 registered 9 None [] =
    Ok (DState [(1%nat, None); (2%nat, Some [1%nat; 0%nat]); (3%nat, None); (4%nat, None)] (Some 9%nat) DISP_ACT_SEND false None, None).
Proof.
  refine (eq_trans (proj2 (proj2 (fd_msg_dispatch_order base run_log cer_until_sent 10 registered 9 None [])
    9%nat cer 6%nat eq_refl eq_refl eq_refl eq_refl) 100%nat eq_refl eq_refl eq_refl dispatchable_cer _ _) _); [vm_compute; lia| |].
  - intros h p [w [c|] ac u dr] Hin; [|done]. vm_compute in Hin. apply list_elem_of_singleton in Hin as [= -> ->].
    unfold avps_of, call_hdl, stopped. cbn [world cur_msg run_log hdl_cb r_ret r_action r_msg].
    unfold cer_until_sent. destruct (decide ((4%nat, None) ∈ w)) as [|Hw]; [done|]. intros _ _. rewrite decide_False; [done|].
    intros [?|[= ]%list_elem_of_singleton]%elem_of_app. done.
  - vm_compute. reflexivity.
Defined.

Lemma fd_disp_register_unregister_witness :
  ∃ s2, fd_disp_unregister 1 (reg 1 DISP_HOW_ANY (DispWhen None None None None) no_handlers) = Ok (0%nat, s2) ∧
    any_handlers s2 = [].
Proof.
  destruct (fd_disp_register_unregister (D:=dict) base 1 DISP_HOW_ANY (Some (DispWhen None None None None)) 0 1 no_handlers
    (reg 1 DISP_HOW_ANY (DispWhen None None None None) no_handlers)) as (_ & _ & s2 & Hs & _ & _ & Ha & _).
  - split_and!; [by intros h ?%elem_of_nil..|]. intros o h. unfold cbs_of. cbn. rewrite lookup_empty. by intros ?%elem_of_nil.
  - reflexivity.
  - reflexivity.
  - exists s2. split; [exact Hs|exact Ha].
Defined.
End Examples.
