(* ===== verification/Dict.v ===== *)
(** * The dictionary: objects, ordered lists, searches, creation and deletion
    ([libfdproto/dictionary.c])

    The objects are in a map from addresses; each object points to its parent
    and, for an AVP, to the vendor whose lists it is linked in.  The sentinels
    are named by [index]: the lists of the dictionary, and the lists 1 and 2 of
    an object.  Three objects are part of the dictionary itself: the vendor 0,
    the application 0 and the error command.  An access to an object that has
    been freed, or through a NULL pointer, is a [Crash]. *)

From stdpp Require Import functions base list gmap.
From Stdlib Require Import ZArith Lia.
From S2P Require Import Prelude Ostr DictTypes.

(** ** Objects *)

(** The data of the objects; the callbacks of a type are handles ([None] is
    NULL). *)
Record dict_type_data := DictTypeData {
  type_base : dict_avp_basetype; type_name : bytes; type_interpret : option nat; type_encode : option nat;
  type_dump : option nat; type_checker : option nat }.

Inductive dict_data :=
  | VendorData (vendor_id : Z) (vendor_name : bytes)
  | ApplicationData (application_id : Z) (application_name : bytes)
  | TypeData (t : dict_type_data)
  | EnumvalData (enum_name : bytes) (enum_value : avp_value)
  | AvpData (a : dict_avp_data)
  | CommandData (c : dict_cmd_data)
  | RuleData (r : dict_rule_data).

Definition type_of (d : dict_data) : dict_object_type :=
  match d with
  | VendorData _ _ => DICT_VENDOR | ApplicationData _ _ => DICT_APPLICATION | TypeData _ => DICT_TYPE
  | EnumvalData _ _ => DICT_ENUMVAL | AvpData _ => DICT_AVP | CommandData _ => DICT_COMMAND | RuleData _ => DICT_RULE
  end.

(** [o_head]: for an AVP, the vendor object that holds the sentinel of its list. *)
Record dict_object := DictObject { o_data : dict_data; o_parent : option obj; o_head : option obj }.

Inductive index := Vendors | Applications | Types | CmdName | CmdCode | List1 (o : obj) | List2 (o : obj).

#[export] Instance index_eq_dec : EqDecision index.
Proof. solve_decision. Defined.

(** [next_obj] is the address of the next block that is allocated. *)
Record dictionary := Dictionary {
  objs : gmap obj dict_object; lists : index → list obj; dict_count : dict_object_type → Z; next_obj : obj }.

Definition dict_vendors : obj := 0%nat.
Definition dict_applications : obj := 1%nat.
Definition dict_cmd_error : obj := 2%nat.

Definition NO_VENDOR_NAME : bytes := [40; 110; 111; 32; 118; 101; 110; 100; 111; 114; 41].
Definition APPLICATION_0_NAME : bytes :=
  [68; 105; 97; 109; 101; 116; 101; 114; 32; 67; 111; 109; 109; 111; 110; 32; 77; 101; 115; 115; 97; 103; 101; 115].
Definition GENERIC_ERROR_NAME : bytes :=
  [40; 103; 101; 110; 101; 114; 105; 99; 32; 101; 114; 114; 111; 114; 32; 102; 111; 114; 109; 97; 116; 41].

(** [fd_dict_init] *)
Definition fd_dict_init : dictionary :=
  Dictionary
    (<[dict_vendors := DictObject (VendorData 0 NO_VENDOR_NAME) None None]>
     (<[dict_applications := DictObject (ApplicationData 0 APPLICATION_0_NAME) None None]>
      (<[dict_cmd_error := DictObject (CommandData (DictCmdData 0 GENERIC_ERROR_NAME
           (Z.lor (Z.lor CMD_FLAG_ERROR CMD_FLAG_REQUEST) CMD_FLAG_RETRANSMIT) CMD_FLAG_ERROR)) None None]> ∅)))
    (λ _, []) (λ _, 0) 3.

(** Reading an object through a pointer. *)
Definition deref (d : dictionary) (o : obj) : res dict_object :=
  match objs d !! o with Some x => Ok x | None => Crash end.

(** [verify_object]: a freed object is recognised by its eye catcher. *)
Definition verify_object (d : dictionary) (o : option obj) : option dict_object :=
  match o with Some o => objs d !! o | None => None end.

Definition fd_dict_gettype (d : dictionary) (o : option obj) : res dict_object_type :=
  match verify_object d o with Some x => Ok (type_of (o_data x)) | None => Err EINVAL end.

Definition fd_dict_getval (d : dictionary) (o : option obj) : res dict_data :=
  match verify_object d o with Some x => Ok (o_data x) | None => Err EINVAL end.

(** ** Compare functions *)

Definition ORDER_scalar (i1 i2 : Z) : Z := if decide (i1 < i2) then -1 else if decide (i1 > i2) then 1 else 0.

(** The place of a floating point number in the order of the numbers, from its
    bit pattern of [w] bits where [inf] is the pattern of infinity; none for a
    NaN. *)
Definition float_key (w inf n : Z) : option Z :=
  let mag := n mod 2 ^ (w - 1) in
  if decide (inf < mag) then None
  else Some (if Z.testbit n (w - 1) then - mag else mag).

(** [ORDER_scalar] on floating point numbers: both comparisons are false when
    one of them is a NaN. *)
Definition ORDER_float (w inf n1 n2 : Z) : Z :=
  match float_key w inf n1, float_key w inf n2 with
  | Some k1, Some k2 => ORDER_scalar k1 k2
  | _, _ => 0
  end.

Definition inf32 : Z := 2139095040.
Definition inf64 : Z := 9218868437227405312.

(** The comparison of two values by the base type of their type. *)
Definition order_values (t : dict_avp_basetype) (v1 v2 : avp_value) : res Z :=
  match t, v1, v2 with
  | AVP_TYPE_OCTETSTRING, OS a, OS b => Ok (fd_os_cmp_int a b)
  | AVP_TYPE_INTEGER32, NUM a, NUM b => Ok (ORDER_scalar (signed 32 a) (signed 32 b))
  | AVP_TYPE_INTEGER64, NUM a, NUM b => Ok (ORDER_scalar (signed 64 a) (signed 64 b))
  | AVP_TYPE_UNSIGNED32, NUM a, NUM b => Ok (ORDER_scalar (w32 a) (w32 b))
  | AVP_TYPE_UNSIGNED64, NUM a, NUM b => Ok (ORDER_scalar (w64 a) (w64 b))
  | AVP_TYPE_FLOAT32, NUM a, NUM b => Ok (ORDER_float 32 inf32 a b)
  | AVP_TYPE_FLOAT64, NUM a, NUM b => Ok (ORDER_float 64 inf64 a b)
  | _, _, _ => Crash
  end.

Definition order_vendor_by_id (a b : dict_data) : res Z :=
  match a, b with VendorData i _, VendorData j _ => Ok (ORDER_scalar i j) | _, _ => Crash end.
Definition order_appli_by_id (a b : dict_data) : res Z :=
  match a, b with ApplicationData i _, ApplicationData j _ => Ok (ORDER_scalar i j) | _, _ => Crash end.
Definition order_type_by_name (a b : dict_data) : res Z :=
  match a, b with TypeData t, TypeData u => Ok (fd_os_cmp_int (type_name t) (type_name u)) | _, _ => Crash end.
Definition order_enum_by_name (a b : dict_data) : res Z :=
  match a, b with EnumvalData n _, EnumvalData m _ => Ok (fd_os_cmp_int n m) | _, _ => Crash end.
(** [base] is the base type of the parent of the first object. *)
Definition order_enum_by_val (base : dict_avp_basetype) (a b : dict_data) : res Z :=
  match a, b with EnumvalData _ v, EnumvalData _ w => order_values base v w | _, _ => Crash end.
Definition order_avp_by_code (a b : dict_data) : res Z :=
  match a, b with AvpData x, AvpData y => Ok (ORDER_scalar (a_code x) (a_code y)) | _, _ => Crash end.
Definition order_avp_by_name (a b : dict_data) : res Z :=
  match a, b with AvpData x, AvpData y => Ok (fd_os_cmp_int (a_name x) (a_name y)) | _, _ => Crash end.
Definition order_cmd_by_name (a b : dict_data) : res Z :=
  match a, b with CommandData x, CommandData y => Ok (fd_os_cmp_int (c_name x) (c_name y)) | _, _ => Crash end.

(** The requests come first. *)
Definition order_cmd_by_codefl (a b : dict_data) : res Z :=
  match a, b with
  | CommandData x, CommandData y =>
      let cmp := ORDER_scalar (c_code x) (c_code y) in
      Ok (if decide (cmp ≠ 0) then cmp
          else ORDER_scalar (Z.land (c_flag_val y) CMD_FLAG_REQUEST) (Z.land (c_flag_val x) CMD_FLAG_REQUEST))
  | _, _ => Crash
  end.

(** The AVP a rule refers to. *)
Definition rule_avp_data (d : dictionary) (r : dict_data) : res dict_avp_data :=
  match r with
  | RuleData r =>
      let* x := deref d (rule_avp r) in
      match o_data x with AvpData a => Ok a | _ => Crash end
  | _ => Crash
  end.

Definition order_rule_by_avpvc (d : dictionary) (a b : dict_data) : res Z :=
  let* x := rule_avp_data d a in
  let* y := rule_avp_data d b in
  let cmp := ORDER_scalar (a_vendor x) (a_vendor y) in
  Ok (if decide (cmp ≠ 0) then cmp else ORDER_scalar (a_code x) (a_code y)).

(** ** Search functions *)

(** The loops of the [SEARCH_] macros; [cmp] compares the value searched for with
    an element. *)
Fixpoint search_list (cmp : obj → res Z) (isindex : bool) (l : list obj) : res (option obj) :=
  match l with
  | [] => Ok None
  | x :: l =>
      let* c := cmp x in
      if decide (c = 0) then Ok (Some x)
      else if isindex && bool_decide (c < 0) then Ok None
      else search_list cmp isindex l
  end.

(** A comparison with a field of the data. *)
Definition on_data (d : dictionary) (f : dict_data → res Z) (o : obj) : res Z :=
  let* x := deref d o in f (o_data x).

Definition name_of (x : dict_data) : bytes :=
  match x with
  | VendorData _ n | ApplicationData _ n | EnumvalData n _ => n
  | TypeData t => type_name t
  | AvpData a => a_name a
  | CommandData c => c_name c
  | RuleData _ => []
  end.

(** [SEARCH_os0]: the element of a name; all the elements of a list have the
    same type. *)
Definition SEARCH_os0 (d : dictionary) (str : bytes) (sentinel : index) (isindex : bool) : res (option obj) :=
  search_list (on_data d (λ x, Ok (fd_os_cmp_int str (name_of x)))) isindex (lists d sentinel).

(** [SEARCH_ruleavpname] *)
Definition SEARCH_ruleavpname (d : dictionary) (str : bytes) (sentinel : index) : res (option obj) :=
  search_list (on_data d (λ x, let* a := rule_avp_data d x in Ok (fd_os_cmp_int str (a_name a)))) false
    (lists d sentinel).

(** [SEARCH_codefl]: a turn that [continue]s goes on with the next element. *)
Fixpoint SEARCH_codefl (d : dictionary) (value flag : Z) (l : list obj) : res (option obj) :=
  match l with
  | [] => Ok None
  | o :: l =>
      let* x := deref d o in
      match o_data x with
      | CommandData c =>
          let cmp := ORDER_scalar value (c_code c) in
          if decide (cmp = 0) then
            if negb (has (c_flag_mask c) CMD_FLAG_REQUEST) then SEARCH_codefl d value flag l
            else if decide (Z.land (c_flag_val c) CMD_FLAG_REQUEST ≠ flag) then SEARCH_codefl d value flag l
            else Ok (Some o)
          else if decide (cmp < 0) then Ok None
          else SEARCH_codefl d value flag l
      | _ => Crash
      end
  end.

(** [SEARCH_childs_parent] *)
Definition SEARCH_childs_parent (d : dictionary) (ty : dict_object_type) (what : option obj) (default_parent : option obj)
    : res (option obj) :=
  match verify_object d what with
  | None => Err EINVAL
  | Some x =>
      check bool_decide (type_of (o_data x) = ty) in
      Ok (match o_parent x with Some p => Some p | None => default_parent end)
  end.

Inductive vendor_criteria :=
  | VENDOR_BY_ID (id : Z) | VENDOR_BY_NAME (name : bytes)
  | VENDOR_OF_APPLICATION (o : option obj) | VENDOR_OF_AVP (o : option obj).

Definition search_vendor (d : dictionary) (c : vendor_criteria) : res (option obj) :=
  match c with
  | VENDOR_BY_ID id =>
      if decide (id = 0) then Ok (Some dict_vendors)
      else search_list (on_data d (λ x, match x with VendorData i _ => Ok (ORDER_scalar id i) | _ => Crash end)) true
             (lists d Vendors)
  | VENDOR_BY_NAME name => SEARCH_os0 d name Vendors false
  | VENDOR_OF_APPLICATION o => SEARCH_childs_parent d DICT_APPLICATION o (Some dict_vendors)
  | VENDOR_OF_AVP o =>
      match verify_object d o with
      | None => Err EINVAL
      | Some x => check bool_decide (type_of (o_data x) = DICT_AVP) in Ok (o_head x)
      end
  end.

Inductive application_criteria :=
  | APPLICATION_BY_ID (id : Z) | APPLICATION_BY_NAME (name : bytes)
  | APPLICATION_OF_TYPE (o : option obj) | APPLICATION_OF_COMMAND (o : option obj).

Definition search_application (d : dictionary) (c : application_criteria) : res (option obj) :=
  match c with
  | APPLICATION_BY_ID id =>
      if decide (id = 0) then Ok (Some dict_applications)
      else search_list (on_data d (λ x, match x with ApplicationData i _ => Ok (ORDER_scalar id i) | _ => Crash end)) true
             (lists d Applications)
  | APPLICATION_BY_NAME name => SEARCH_os0 d name Applications false
  | APPLICATION_OF_TYPE o => SEARCH_childs_parent d DICT_TYPE o (Some dict_applications)
  | APPLICATION_OF_COMMAND o => SEARCH_childs_parent d DICT_COMMAND o (Some dict_applications)
  end.

Inductive type_criteria := TYPE_BY_NAME (name : bytes) | TYPE_OF_ENUMVAL (o : option obj) | TYPE_OF_AVP (o : option obj).

Definition search_type (d : dictionary) (c : type_criteria) : res (option obj) :=
  match c with
  | TYPE_BY_NAME name => SEARCH_os0 d name Types true
  | TYPE_OF_ENUMVAL o => SEARCH_childs_parent d DICT_ENUMVAL o None
  | TYPE_OF_AVP o => SEARCH_childs_parent d DICT_AVP o None
  end.

(** [struct dict_enumval_request]: the type by its object or its name; a name,
    or else a value. *)
Record dict_enumval_request := DictEnumvalRequest {
  req_type_obj : option obj; req_type_name : option bytes; req_enum_name : option bytes; req_enum_value : avp_value }.

Definition search_enumval (d : dictionary) (what : dict_enumval_request) : res (option obj) :=
  check bool_decide (is_Some (req_type_obj what)) || bool_decide (is_Some (req_type_name what)) in
  let* parent :=
    match req_type_obj what, req_type_name what with
    | Some p, _ =>
        match verify_object d (Some p) with
        | Some x => check bool_decide (type_of (o_data x) = DICT_TYPE) in Ok (Some p)
        | None => Err EINVAL
        end
    | None, Some n => match search_type d (TYPE_BY_NAME n) with Err _ => Err EINVAL | r => r end
    | None, None => Err EINVAL
    end in
  match parent with
  | None => Crash    (* the list of a NULL parent *)
  | Some p =>
      match req_enum_name what with
      | Some n => SEARCH_os0 d n (List1 p) true
      | None =>
          let* x := deref d p in
          match o_data x with
          | TypeData t =>
              if decide (type_base t = AVP_TYPE_GROUPED) then Err EINVAL
              else search_list (on_data d (λ y, match y with
                                               | EnumvalData _ v => order_values (type_base t) (req_enum_value what) v
                                               | _ => Crash end)) true (lists d (List2 p))
          | _ => Crash
          end
      end
  end.

(** [struct dict_avp_request_ex] *)
Record dict_avp_request_ex := DictAvpRequestEx {
  req_vendor : option obj; req_vendor_id : Z; req_vendor_name : option bytes; req_code : Z; req_name : option bytes }.

Inductive avp_criteria :=
  | AVP_BY_CODE (code : Z) | AVP_BY_NAME (name : bytes)
  | AVP_BY_CODE_AND_VENDOR (code vendor : Z) | AVP_BY_NAME_AND_VENDOR (name : option bytes) (vendor : Z)
  | AVP_BY_STRUCT (r : dict_avp_request_ex) | AVP_BY_NAME_ALL_VENDORS (name : bytes).

Definition search_avp_code (d : dictionary) (code : Z) (vendor : obj) : res (option obj) :=
  search_list (on_data d (λ x, match x with AvpData a => Ok (ORDER_scalar code (a_code a)) | _ => Crash end)) true
    (lists d (List1 vendor)).

(** The loop on the vendors of [AVP_BY_NAME_ALL_VENDORS]. *)
Fixpoint search_all_vendors (d : dictionary) (name : bytes) (l : list obj) : res (option obj) :=
  match l with
  | [] => Ok None
  | v :: l =>
      let* r := SEARCH_os0 d name (List2 v) true in
      match r with Some o => Ok (Some o) | None => search_all_vendors d name l end
  end.

Definition search_avp_struct (d : dictionary) (r : dict_avp_request_ex) : res (option obj) :=
  check bool_decide (is_Some (req_vendor r)) || bool_decide (req_vendor_id r ≠ 0) || bool_decide (is_Some (req_vendor_name r)) in
  check bool_decide (req_code r ≠ 0) || bool_decide (is_Some (req_name r)) in
  let* vendor :=
    match req_vendor r with
    | Some v => check bool_decide (req_vendor_id r = 0) && bool_decide (req_vendor_name r = None) in
                let* _ := deref d v in Ok (Some v)
    | None =>
        if decide (req_vendor_id r ≠ 0) then
          check bool_decide (req_vendor_name r = None) in search_vendor d (VENDOR_BY_ID (req_vendor_id r))
        else match req_vendor_name r with Some n => search_vendor d (VENDOR_BY_NAME n) | None => Err EINVAL end
    end in
  match vendor with
  | None => Ok None
  | Some v =>
      if decide (req_code r ≠ 0) then
        check bool_decide (req_name r = None) in search_avp_code d (req_code r) v
      else match req_name r with Some n => SEARCH_os0 d n (List2 v) true | None => Err EINVAL end
  end.

Definition search_avp (d : dictionary) (c : avp_criteria) : res (option obj) :=
  match c with
  | AVP_BY_CODE code => search_avp_code d code dict_vendors
  | AVP_BY_NAME name => SEARCH_os0 d name (List2 dict_vendors) true
  | AVP_BY_CODE_AND_VENDOR code vendor =>
      let* v := search_vendor d (VENDOR_BY_ID vendor) in
      match v with None => Ok None | Some v => search_avp_code d code v end
  | AVP_BY_NAME_AND_VENDOR name vendor =>
      match name with
      | None => Err EINVAL
      | Some name =>
          let* v := search_vendor d (VENDOR_BY_ID vendor) in
          match v with None => Ok None | Some v => SEARCH_os0 d name (List2 v) true end
      end
  | AVP_BY_STRUCT r => search_avp_struct d r
  | AVP_BY_NAME_ALL_VENDORS name =>
      let* r := SEARCH_os0 d name (List2 dict_vendors) true in
      match r with Some o => Ok (Some o) | None => search_all_vendors d name (lists d Vendors) end
  end.

(** The element behind [o] in a list. *)
Fixpoint next_of (o : obj) (l : list obj) : option obj :=
  match l with
  | [] => None
  | x :: l => if decide (x = o) then head l else next_of o l
  end.

Inductive cmd_criteria := CMD_BY_NAME (name : bytes) | CMD_BY_CODE_R (code : Z) | CMD_BY_CODE_A (code : Z) | CMD_ANSWER (o : option obj).

(** [CMD_ANSWER] returns [ENOENT] and does not set [*result] when there is none. *)
Definition search_cmd_answer (d : dictionary) (req : option obj) : res (option obj) :=
  match req, verify_object d req with
  | Some o, Some x =>
      match o_data x with
      | CommandData r =>
          check has (c_flag_mask r) CMD_FLAG_REQUEST && has (c_flag_val r) CMD_FLAG_REQUEST in
          match next_of o (lists d CmdCode) with
          | None => Err ENOENT
          | Some a =>
              let* y := deref d a in
              match o_data y with
              | CommandData c =>
                  if decide (c_code c ≠ c_code r) then Err ENOENT
                  else if negb (has (c_flag_mask c) CMD_FLAG_REQUEST) then Err ENOENT
                  else if has (c_flag_val c) CMD_FLAG_REQUEST then Err ENOENT
                  else Ok (Some a)
              | _ => Crash
              end
          end
      | _ => Err EINVAL
      end
  | _, _ => Err EINVAL
  end.

Definition search_cmd (d : dictionary) (c : cmd_criteria) : res (option obj) :=
  match c with
  | CMD_BY_NAME name => SEARCH_os0 d name CmdName true
  | CMD_BY_CODE_R code => SEARCH_codefl d code CMD_FLAG_REQUEST (lists d CmdCode)
  | CMD_BY_CODE_A code => SEARCH_codefl d code 0 (lists d CmdCode)
  | CMD_ANSWER o => search_cmd_answer d o
  end.

(** A parent that can have rules: a command or a grouped AVP. *)
Definition has_rules (x : dict_data) : bool :=
  match x with
  | CommandData _ => true
  | AvpData a => bool_decide (a_basetype a = AVP_TYPE_GROUPED)
  | _ => false
  end.

(** [RULE_BY_AVP_AND_PARENT] *)
Definition search_rule (d : dictionary) (avp parent : option obj) : res (option obj) :=
  match parent, verify_object d parent, verify_object d avp with
  | Some p, Some x, Some y =>
      check has_rules (o_data x) in
      match o_data y with
      | AvpData a => SEARCH_ruleavpname d (a_name a) (List2 p)
      | _ => Err EINVAL
      end
  | _, _, _ => Err EINVAL
  end.

(** [fd_dict_search] with a place for the result, that holds [old] before: what
    the function of the type returns, except that [retval] ([None] is 0) is
    returned whenever [*result] is NULL at the end, also after an error. *)
Definition fd_dict_search (old : option obj) (retval : option errno) (r : res (option obj)) : res (option obj) :=
  let null := match retval with None => Ok None | Some e => Err e end in
  match r with
  | Ok (Some o) => Ok (Some o)
  | Ok None => null
  | Err e => match old with Some _ => Err e | None => null end
  | Crash => Crash
  end.

(** The same with [result = NULL]. *)
Definition fd_dict_search_test (r : res (option obj)) : res unit :=
  match r with Ok (Some _) => Ok tt | Ok None => Err ENOENT | Err e => Err e | Crash => Crash end.

(** ** Creation *)

(** [fd_list_insert_ordered] on a list of objects: the new list, or the element
    that compares equal. *)
Fixpoint insert_ordered (cmp : obj → res Z) (x : obj) (l : list obj) : res (list obj + obj) :=
  match l with
  | [] => Ok (inl [x])
  | y :: l' =>
      let* c := cmp y in
      if decide (c = 0) then Ok (inr y)
      else if decide (c < 0) then Ok (inl (x :: l))
      else let* r := insert_ordered cmp x l' in
           Ok (match r with inl l' => inl (y :: l') | inr z => inr z end)
  end.

Definition set_list (i : index) (l : list obj) (d : dictionary) : dictionary :=
  Dictionary (objs d) (<[i := l]> (lists d)) (dict_count d) (next_obj d).

(** The comparison that keeps a list ordered. *)
Definition index_order (d : dictionary) (i : index) (a b : dict_data) : res Z :=
  match i with
  | Vendors => order_vendor_by_id a b
  | Applications => order_appli_by_id a b
  | Types => order_type_by_name a b
  | CmdName => order_cmd_by_name a b
  | CmdCode => order_cmd_by_codefl a b
  | List1 p =>
      match a with AvpData _ => order_avp_by_code a b | _ => order_enum_by_name a b end
  | List2 p =>
      match a with
      | AvpData _ => order_avp_by_name a b
      | EnumvalData _ _ =>
          let* x := deref d p in
          match o_data x with TypeData t => order_enum_by_val (type_base t) a b | _ => Crash end
      | _ => order_rule_by_avpvc d a b
      end
  end.

(** Link an object in a list. *)
Definition link_in (d : dictionary) (i : index) (x : obj) (data : dict_data) : res (dictionary + obj) :=
  let* r := insert_ordered (on_data d (index_order d i data)) x (lists d i) in
  Ok (match r with inl l => inl (set_list i l d) | inr y => inr y end).

(** The lists an object of the data is linked in, in the order the code uses;
    [vendor] is the vendor found for an AVP. *)
Definition links_of (data : dict_data) (parent vendor : obj) : list index :=
  match data with
  | VendorData _ _ => [Vendors]
  | ApplicationData _ _ => [Applications]
  | TypeData _ => [Types]
  | EnumvalData _ _ => [List1 parent; List2 parent]
  | AvpData _ => [List1 vendor; List2 vendor]
  | CommandData _ => [CmdCode; CmdName]
  | RuleData _ => [List2 parent]
  end.

(** "Now link the object": an element that has the same key ends the loop, and
    what was done is undone. *)
Fixpoint link_all (d : dictionary) (ixs : list index) (x : obj) (data : dict_data) : res (dictionary + obj) :=
  match ixs with
  | [] => Ok (inl d)
  | i :: ixs =>
      let* r := link_in d i x data in
      match r with inl d => link_all d ixs x data | inr y => Ok (inr y) end
  end.

(** The check of the parameter [parent], by the entry of [dict_obj_info]. *)
Definition parent_type_ok (ty : dict_object_type) (x : dict_data) : bool :=
  match ty with
  | DICT_VENDOR => false
  | DICT_APPLICATION => bool_decide (type_of x = DICT_VENDOR)
  | DICT_TYPE | DICT_COMMAND => bool_decide (type_of x = DICT_APPLICATION)
  | DICT_ENUMVAL | DICT_AVP => bool_decide (type_of x = DICT_TYPE)
  | DICT_RULE => has_rules x
  end.

Definition check_parent (d : dictionary) (ty : dict_object_type) (parent : option obj) : bool :=
  match ty, parent with
  | DICT_VENDOR, None | DICT_APPLICATION, None | DICT_TYPE, None | DICT_AVP, None | DICT_COMMAND, None => true
  | _, _ => match verify_object d parent with Some x => parent_type_ok ty (o_data x) | None => false end
  end.

(** The checks of the data; the vendor of an AVP. *)
Definition check_data (d : dictionary) (data : dict_data) (parent : option obj) : res (option obj) :=
  match data with
  | VendorData id _ => check bool_decide (id ≠ 0) in Ok None
  | ApplicationData id _ => check bool_decide (id ≠ 0) in Ok None
  | AvpData a =>
      let* v := fd_dict_search None (Some ENOENT) (search_vendor d (VENDOR_BY_ID (a_vendor a))) in
      let* _ := match verify_object d parent with
                | None => Ok tt
                | Some x => match o_data x with
                            | TypeData t => check bool_decide (type_base t = a_basetype a) in Ok tt
                            | _ => Crash
                            end
                end in
      Ok v
  | RuleData r =>
      match verify_object d (Some (rule_avp r)) with
      | Some x => check bool_decide (type_of (o_data x) = DICT_AVP) in Ok None
      | None => Err EINVAL
      end
  | CommandData c => check has (c_flag_mask c) CMD_FLAG_REQUEST in Ok None
  | TypeData _ | EnumvalData _ _ => Ok None
  end.

(** A callback of the new definition of a type that differs from the known one;
    NULL does not conflict. *)
Definition cb_conflict (known new : option nat) : bool :=
  match new with None => false | Some _ => negb (bool_decide (known = new)) end.

(** The minima of two rules conflict; [p] is the position. *)
Definition rule_min_conflict (p : rule_position) (r1 r2 : Z) : bool :=
  (bool_decide (r1 ≠ -1) && bool_decide (r2 ≠ -1)) ||
  (bool_decide (p = RULE_OPTIONAL) && bool_decide (r1 ≠ 0) && bool_decide (r2 ≠ 0)) ||
  (bool_decide (r1 ≠ 1) && bool_decide (r2 ≠ 1)).

Definition masked (v m : Z) : Z := Z.land v m.

(** "We have a duplicate key in locref. Check if the pointed object is the same
    or not". *)
Definition same_object (d : dictionary) (known new : dict_data) (parent : option obj) : res bool :=
  match known, new with
  | VendorData _ n, VendorData _ m => Ok (bool_decide (fd_os_cmp_int n m = 0))
  | ApplicationData _ n, ApplicationData _ m => Ok (bool_decide (fd_os_cmp_int n m = 0))
  | TypeData t, TypeData u =>
      Ok (bool_decide (type_base t = type_base u) && negb (cb_conflict (type_interpret t) (type_interpret u)) &&
          negb (cb_conflict (type_encode t) (type_encode u)) && negb (cb_conflict (type_dump t) (type_dump u)))
  | EnumvalData n v, EnumvalData m w =>
      if decide (fd_os_cmp_int n m ≠ 0) then Ok false
      else match parent with
           | None => Crash
           | Some p =>
               let* x := deref d p in
               match o_data x with
               | TypeData t => let* c := order_values (type_base t) v w in Ok (bool_decide (c = 0))
               | _ => Crash
               end
           end
  | AvpData a, AvpData b =>
      Ok (bool_decide (a_code a = a_code b) && bool_decide (fd_os_cmp_int (a_name a) (a_name b) = 0) &&
          bool_decide (a_vendor a = a_vendor b) && bool_decide (a_flag_mask a = a_flag_mask b) &&
          bool_decide (masked (a_flag_val a) (a_flag_mask a) = masked (a_flag_val b) (a_flag_mask b)) &&
          bool_decide (a_basetype a = a_basetype b))
  | CommandData a, CommandData b =>
      Ok (bool_decide (fd_os_cmp_int (c_name a) (c_name b) = 0) && bool_decide (c_code a = c_code b) &&
          bool_decide (c_flag_mask a = c_flag_mask b) &&
          bool_decide (masked (c_flag_val a) (c_flag_mask a) = masked (c_flag_val b) (c_flag_mask b)))
  | RuleData r, RuleData q =>
      Ok (bool_decide (rule_pos r = rule_pos q) &&
          negb ((bool_decide (rule_pos r = RULE_FIXED_HEAD) || bool_decide (rule_pos r = RULE_FIXED_TAIL)) &&
                bool_decide (rule_order r ≠ rule_order q)) &&
          negb (bool_decide (rule_min r ≠ rule_min q) && rule_min_conflict (rule_pos r) (rule_min r) (rule_min q)) &&
          bool_decide (rule_max r = rule_max q))
  | _, _ => Crash
  end.

(** What [fd_dict_new] returns: the code and [*ref]. *)
Inductive new_result := Created (o : obj) | Known (o : obj) | Conflict (o : obj) | Refused (e : errno).

Definition bump (n : Z) (ty : dict_object_type) (f : dict_object_type → Z) : dict_object_type → Z :=
  λ t, if decide (t = ty) then f t + n else f t.

(** The dump of the refused data of an [ENUMVAL] reads the parent. *)
Definition refuse (data : dict_data) (parent : option obj) (e : errno) : res new_result :=
  match data, parent with EnumvalData _ _, None => Crash | _, _ => Ok (Refused e) end.

Definition fd_dict_new (d : dictionary) (data : dict_data) (parent : option obj) : res (dictionary * new_result) :=
  let ty := type_of data in
  if negb (check_parent d ty parent) then let* r := refuse data parent EINVAL in Ok (d, r) else
  match check_data d data parent with
  | Err _ => let* r := refuse data parent EINVAL in Ok (d, r)
  | Crash => Crash
  | Ok vendor =>
      let new := next_obj d in
      let head := match data with AvpData _ => vendor | _ => None end in
      let d1 := Dictionary (<[new := DictObject data parent head]> (objs d)) (lists d) (dict_count d) (S new) in
      let* r := link_all d1 (links_of data (default new parent) (default new vendor)) new data in
      match r with
      | inl d2 => Ok (Dictionary (objs d2) (lists d2) (bump 1 ty (dict_count d2)) (next_obj d2), Created new)
      | inr locref =>
          let* x := deref d locref in
          let* same := same_object d (o_data x) data parent in
          Ok (d, if (same : bool) then Known locref else Conflict locref)
      end
  end.

(** ** Deletion *)

(** The sentinels of an object: the entries of [haslist] that are 0. *)
Definition own_lists (o : obj) (x : dict_data) : list index :=
  match x with
  | VendorData _ _ | ApplicationData _ _ | TypeData _ | RuleData _ => [List1 o; List2 o]
  | EnumvalData _ _ | AvpData _ | CommandData _ => [List2 o]
  end.

Definition destroy_object (d : dictionary) (o : obj) (x : dict_data) : dictionary :=
  Dictionary (delete o (objs d)) (λ i, filter (λ p, p ≠ o) (lists d i)) (bump (-1) (type_of x) (dict_count d)) (next_obj d).

Definition fd_dict_delete (d : dictionary) (o : option obj) : res dictionary :=
  match o, verify_object d o with
  | Some o, Some x =>
      check forallb (λ i, bool_decide (lists d i = [])) (own_lists o (o_data x)) in
      Ok (destroy_object d o (o_data x))
  | _, _ => Err EINVAL
  end.

(** ** Lists and rules *)

Inductive list_criteria := L_VENDOR_BY_ID | L_APPLICATION_BY_ID | L_TYPE_BY_NAME | L_ENUMVAL_BY_NAME | L_ENUMVAL_BY_VALUE
  | L_AVP_BY_NAME | L_AVP_BY_CODE | L_CMD_BY_NAME | L_CMD_BY_CODE_R | L_RULE_BY_AVP_AND_PARENT | L_OTHER.

Definition fd_dict_getlistof (d : dictionary) (c : list_criteria) (parent : option obj) : res index :=
  let of_type ty i :=
    match parent, verify_object d parent with
    | Some p, Some x => check bool_decide (type_of (o_data x) = ty) in Ok (i p)
    | _, _ => Err EINVAL
    end in
  match c with
  | L_VENDOR_BY_ID => Ok Vendors
  | L_APPLICATION_BY_ID => Ok Applications
  | L_TYPE_BY_NAME => Ok Types
  | L_ENUMVAL_BY_NAME => of_type DICT_TYPE List1
  | L_ENUMVAL_BY_VALUE => of_type DICT_TYPE List2
  | L_AVP_BY_NAME => of_type DICT_VENDOR List2
  | L_AVP_BY_CODE => of_type DICT_VENDOR List1
  | L_CMD_BY_NAME => Ok CmdName
  | L_CMD_BY_CODE_R => Ok CmdCode
  | L_RULE_BY_AVP_AND_PARENT =>
      match parent, verify_object d parent with
      | Some p, Some x => check has_rules (o_data x) in Ok (List2 p)
      | _, _ => Err EINVAL
      end
  | L_OTHER => Err EINVAL
  end.

(** The data of the rules that [fd_dict_iterate_rules] passes to its callback. *)
Definition fd_dict_iterate_rules (d : dictionary) (parent : option obj) : res (list dict_rule_data) :=
  match parent, verify_object d parent with
  | Some p, Some x =>
      check has_rules (o_data x) in
      mapR (λ o, let* y := deref d o in match o_data y with RuleData r => Ok r | _ => Crash end) (lists d (List2 p))
  | _, _ => Err EINVAL
  end.

(** [fd_dict_get_vendorid_list]: the array is made for [dict_count] vendors and
    the final 0. *)
Definition fd_dict_get_vendorid_list (d : dictionary) : res (list Z) :=
  let* ids := mapR (λ o, let* x := deref d o in match o_data x with VendorData i _ => Ok i | _ => Crash end)
                (lists d Vendors) in
  assert! bool_decide (zlen ids ≤ dict_count d DICT_VENDOR) in
  Ok (ids ++ replicate (Z.to_nat (dict_count d DICT_VENDOR + 1 - zlen ids)) 0).
