(* ===== verification/DictSpec.v ===== *)
(** * The dictionary: what its lists and searches guarantee

    The well-formedness of a dictionary, preserved by creation and by the
    deletion of objects that nothing refers to; the correctness of the searches;
    and the dictionary as an implementation of the interfaces that the messages
    and the dispatch are proved against. *)

From stdpp Require Import functions base sorting list gmap.
From Stdlib Require Import ZArith Lia.
From S2P Require Import Prelude Ostr DictTypes Dict.

(** ** Keys *)

Inductive key := KZ (z : Z) | KS (s : bytes) | KP (a b : Z).

Definition key_tag (k : key) : Z := match k with KZ _ => 0 | KS _ => 1 | KP _ _ => 2 end.

Definition key_cmp (x y : key) : Z :=
  match x, y with
  | KZ a, KZ b => ORDER_scalar a b
  | KS a, KS b => fd_os_cmp_int a b
  | KP a b, KP a' b' => if decide (ORDER_scalar a a' ≠ 0) then ORDER_scalar a a' else ORDER_scalar b b'
  | _, _ => key_tag x - key_tag y
  end.

Lemma ORDER_scalar_cases a b :
  (a < b ∧ ORDER_scalar a b = -1) ∨ (a = b ∧ ORDER_scalar a b = 0) ∨ (b < a ∧ ORDER_scalar a b = 1).
Proof. unfold ORDER_scalar. repeat case_decide; lia. Qed.

Ltac order_cases :=
  repeat match goal with
  | |- context [ORDER_scalar ?a ?b] =>
      let H := fresh in pose proof (ORDER_scalar_cases a b) as H; destruct H as [[? ->]|[[? ->]|[? ->]]]
  | H : context [ORDER_scalar ?a ?b] |- _ =>
      let H1 := fresh in pose proof (ORDER_scalar_cases a b) as H1;
      destruct H1 as [[? E]|[[? E]|[? E]]]; rewrite E in H; clear E
  end.

#[export] Instance key_cmp_order : CmpOrder key_cmp.
Proof.
  split.
  - intros [z|s|a b]; cbn [key_cmp]; [|apply cmp_refl|]; order_cases; try lia; by case_decide.
  - intros [z|s|a b] [z'|s'|a' b']; cbn [key_cmp key_tag]; try lia; [|apply cmp_sym|];
      order_cases; repeat case_decide; try done; lia.
  - intros [z|s|a b] [z'|s'|a' b'] [z''|s''|a'' b'']; cbn [key_cmp key_tag]; try lia; [|apply cmp_trans|];
      order_cases; repeat case_decide; try done; lia.
Qed.

Lemma key_cmp_zero x y : key_cmp x y = 0 ↔ x = y.
Proof.
  split; [|intros ->; apply cmp_refl].
  destruct x as [z|s|a b], y as [z'|s'|a' b']; cbn [key_cmp key_tag]; try lia.
  - order_cases; intros; try lia. by subst.
  - intros ->%fd_os_cmp_zero. done.
  - order_cases; case_decide; try lia; intros; try lia. by subst.
Qed.

Definition value_key (t : dict_avp_basetype) (v : avp_value) : option key :=
  match t, v with
  | AVP_TYPE_OCTETSTRING, OS a => Some (KS a)
  | AVP_TYPE_INTEGER32, NUM a => Some (KZ (signed 32 a))
  | AVP_TYPE_INTEGER64, NUM a => Some (KZ (signed 64 a))
  | AVP_TYPE_UNSIGNED32, NUM a => Some (KZ (w32 a))
  | AVP_TYPE_UNSIGNED64, NUM a => Some (KZ (w64 a))
  | AVP_TYPE_FLOAT32, NUM a => KZ <$> float_key 32 inf32 a
  | AVP_TYPE_FLOAT64, NUM a => KZ <$> float_key 64 inf64 a
  | _, _ => None
  end.

Lemma order_values_key t v w k l :
  value_key t v = Some k → value_key t w = Some l → order_values t v w = Ok (key_cmp k l).
Proof.
  unfold value_key, order_values, ORDER_float. destruct t, v, w; try done; try (intros [= <-] [= <-]; done).
  all: destruct (float_key _ _ bits), (float_key _ _ bits0); try done; by intros [= <-] [= <-].
Qed.

(** The base type of the type [p]. *)
Definition base_of (d : dictionary) (p : obj) : option dict_avp_basetype :=
  match objs d !! p with Some (DictObject (TypeData t) _ _) => Some (type_base t) | _ => None end.

Definition avp_of (d : dictionary) (p : obj) : option dict_avp_data :=
  match objs d !! p with Some (DictObject (AvpData a) _ _) => Some a | _ => None end.

(** The key of an object in a list. *)
Definition data_key (d : dictionary) (i : index) (x : dict_data) : option key :=
  match i, x with
  | Vendors, VendorData id _ => Some (KZ id)
  | Applications, ApplicationData id _ => Some (KZ id)
  | Types, TypeData t => Some (KS (type_name t))
  | CmdName, CommandData c => Some (KS (c_name c))
  | CmdCode, CommandData c => Some (KP (c_code c) (- Z.land (c_flag_val c) CMD_FLAG_REQUEST))
  | List1 _, AvpData a => Some (KZ (a_code a))
  | List1 _, EnumvalData n _ => Some (KS n)
  | List2 _, AvpData a => Some (KS (a_name a))
  | List2 p, EnumvalData _ v => match base_of d p with Some t => value_key t v | None => None end
  | List2 _, RuleData r => (λ a, KP (a_vendor a) (a_code a)) <$> avp_of d (rule_avp r)
  | _, _ => None
  end.

Definition obj_key (d : dictionary) (i : index) (o : obj) : key :=
  match objs d !! o with Some x => default (KZ 0) (data_key d i (o_data x)) | None => KZ 0 end.

(** The lists an object is in. *)
Definition belongs (i : index) (o : obj) (x : dict_object) : Prop :=
  match i, o_data x with
  | Vendors, VendorData _ _ => o ≠ dict_vendors
  | Applications, ApplicationData _ _ => o ≠ dict_applications
  | Types, TypeData _ => True
  | (CmdName | CmdCode), CommandData _ => o ≠ dict_cmd_error
  | (List1 p | List2 p), AvpData _ => o_head x = Some p
  | (List1 p | List2 p), EnumvalData _ _ => o_parent x = Some p
  | List2 p, RuleData _ => o_parent x = Some p
  | _, _ => False
  end.

(** What an object refers to. *)
Definition obj_ok (d : dictionary) (o : obj) (x : dict_object) : Prop :=
  match o_data x with
  | VendorData id _ => id = 0 ↔ o = dict_vendors
  | ApplicationData id _ => id = 0 ↔ o = dict_applications
  | TypeData _ => True
  | EnumvalData _ v => ∃ p t k, o_parent x = Some p ∧ base_of d p = Some t ∧ value_key t v = Some k
  | AvpData a =>
      (∃ v n p h, o_head x = Some v ∧ objs d !! v = Some (DictObject (VendorData (a_vendor a) n) p h)) ∧
      (∀ p, o_parent x = Some p → base_of d p = Some (a_basetype a))
  | CommandData c => o = dict_cmd_error ∨ has (c_flag_mask c) CMD_FLAG_REQUEST = true
  | RuleData r =>
      (∃ p y, o_parent x = Some p ∧ objs d !! p = Some y ∧ has_rules (o_data y) = true) ∧ is_Some (avp_of d (rule_avp r))
  end.

Definition base_objects (d : dictionary) : Prop :=
  objs d !! dict_vendors = objs fd_dict_init !! dict_vendors ∧
  objs d !! dict_applications = objs fd_dict_init !! dict_applications ∧
  objs d !! dict_cmd_error = objs fd_dict_init !! dict_cmd_error.

Record dict_wf (d : dictionary) : Prop := {
  wf_base : base_objects d;
  wf_fresh o : is_Some (objs d !! o) → (o < next_obj d)%nat;
  wf_obj o x : objs d !! o = Some x → obj_ok d o x;
  wf_mem i o : o ∈ lists d i ↔ ∃ x, objs d !! o = Some x ∧ belongs i o x;
  wf_order i : Increasing (λ x y, key_cmp (obj_key d i x) (obj_key d i y)) (lists d i);
  wf_count : dict_count d DICT_VENDOR = zlen (lists d Vendors) ∧
             dict_count d DICT_APPLICATION = zlen (lists d Applications) ∧
             dict_count d DICT_TYPE = zlen (lists d Types) ∧
             dict_count d DICT_COMMAND = zlen (lists d CmdCode) }.

#[export] Instance obj_key_order d i : CmpOrder (λ x y, key_cmp (obj_key d i x) (obj_key d i y)).
Proof. apply CmpOrder_key, _. Qed.

(** ** Keys of linked objects *)

Lemma obj_ok_key d i o x : obj_ok d o x → belongs i o x → is_Some (data_key d i (o_data x)).
Proof.
  intros Hok. unfold obj_ok, belongs, data_key in *.
  destruct i, (o_data x); try done; intros Hb.
  - destruct Hok as (q & t & k & Hp & Ht & Hk). rewrite Hb in Hp. injection Hp as ->. rewrite Ht, Hk. by eexists.
  - destruct Hok as [_ [a ->]]. by eexists.
Qed.

Lemma belongs_key d i o x : dict_wf d → objs d !! o = Some x → belongs i o x → is_Some (data_key d i (o_data x)).
Proof. intros Hwf Hx. by apply obj_ok_key, (wf_obj d Hwf). Qed.

(** All the elements of a list have the same type. *)
Lemma belongs_kind d i o x o' x' :
  obj_ok d o x → obj_ok d o' x' → belongs i o x → belongs i o' x' → type_of (o_data x) = type_of (o_data x').
Proof.
  intros Hok Hok'. unfold obj_ok, belongs, base_of in *.
  destruct i, (o_data x), (o_data x'); try done; intros Hb Hb'.
  all: repeat match goal with
    | H : _ ∧ _ |- _ => destruct H | H : ∃ _, _ |- _ => destruct H
    end; simplify_eq; exfalso;
    repeat match goal with
    | H : o_head _ = Some _, H' : o_head _ = Some _ |- _ => rewrite H in H'; simplify_eq
    | H : o_parent ?x = Some _, H' : o_parent ?x = Some _ |- _ => rewrite H in H'; simplify_eq
    | H : objs _ !! ?o = Some _, H' : context [objs _ !! ?o] |- _ => rewrite H in H'; simplify_eq/=
    end; try done.
  all: repeat case_match; simplify_eq/=; done.
Qed.

Lemma rule_avp_data_ok d r a : avp_of d (rule_avp r) = Some a → rule_avp_data d (RuleData r) = Ok a.
Proof.
  unfold avp_of, rule_avp_data, deref. destruct (objs d !! rule_avp r) as [[[] ? ?]|]; try done. by intros [= ->].
Qed.

Lemma index_order_key d i a b k l :
  type_of a = type_of b → data_key d i a = Some k → data_key d i b = Some l →
  index_order d i a b = Ok (key_cmp k l).
Proof.
  unfold data_key, index_order. destruct i, a, b; try done; intros _ Hk Hl; simplify_eq; try done.
  - cbn [key_cmp order_cmd_by_codefl]. f_equal. set (f := Z.land (c_flag_val c) CMD_FLAG_REQUEST).
    set (g := Z.land (c_flag_val c0) CMD_FLAG_REQUEST). case_decide; [done|]. order_cases; lia.
  - unfold base_of, deref in *. destruct (objs d !! o) as [[[] ? ?]|]; try done. cbn [res_bind o_data].
    by apply order_values_key.
  - apply fmap_Some in Hk as (x & Hx & ->). apply fmap_Some in Hl as (y & Hy & ->).
    unfold order_rule_by_avpvc. rewrite (rule_avp_data_ok d r x Hx), (rule_avp_data_ok d r0 y Hy). done.
Qed.

(** ** Ordered insertion *)

Lemma insert_ordered_spec (cmp : obj → res Z) (K : obj → obj → Z) x l :
  Forall (λ y, cmp y = Ok (K x y)) l →
  insert_ordered cmp x l =
    Ok (match ordered_split K x l with inl (a, b) => inl (a ++ x :: b) | inr y => inr y end).
Proof.
  induction 1 as [|y l Hy _ IH]; [done|]. cbn [insert_ordered ordered_split]. rewrite Hy. cbn [res_bind].
  case_decide; [done|]. case_decide; [done|]. rewrite IH. cbn [res_bind]. by destruct (ordered_split K x l) as [[]|].
Qed.

(** The extension of a dictionary by a new object that is not linked yet. *)
Definition with_object (o : obj) (x : dict_object) (d : dictionary) : dictionary :=
  Dictionary (<[o := x]> (objs d)) (lists d) (dict_count d) (S o).

(** Two dictionaries that agree on the objects of the first have the same keys. *)
Lemma base_of_mono d d' p t : objs d ⊆ objs d' → base_of d p = Some t → base_of d' p = Some t.
Proof. unfold base_of. intros Hs. destruct (objs d !! p) eqn:E; [|done]. by rewrite (lookup_weaken _ _ _ _ E Hs). Qed.
Lemma avp_of_mono d d' p a : objs d ⊆ objs d' → avp_of d p = Some a → avp_of d' p = Some a.
Proof. unfold avp_of. intros Hs. destruct (objs d !! p) eqn:E; [|done]. by rewrite (lookup_weaken _ _ _ _ E Hs). Qed.

Lemma data_key_mono d d' i x k : objs d ⊆ objs d' → data_key d i x = Some k → data_key d' i x = Some k.
Proof.
  intros Hs. unfold data_key. destruct i, x; try done.
  - destruct (base_of d o) as [t|] eqn:E; [|done]. by rewrite (base_of_mono _ _ _ _ Hs E).
  - intros (a & Ha & ->)%fmap_Some. by rewrite (avp_of_mono _ _ _ _ Hs Ha).
Qed.

Lemma obj_key_mono d d' i o x :
  objs d ⊆ objs d' → objs d !! o = Some x → is_Some (data_key d i (o_data x)) → obj_key d' i o = obj_key d i o.
Proof.
  intros Hs Hx [k Hk]. unfold obj_key. rewrite (lookup_weaken _ _ _ _ Hx Hs), Hx, Hk, (data_key_mono _ _ _ _ _ Hs Hk). done.
Qed.

Lemma obj_ok_mono d d' o x : objs d ⊆ objs d' → obj_ok d o x → obj_ok d' o x.
Proof.
  intros Hs. unfold obj_ok. destruct (o_data x); try done.
  - intros (p & t & k & Hp & Ht & Hk). exists p, t, k. split; [done|]. split; [by eapply base_of_mono|done].
  - intros [(v & n & p & h & Hv & Ho) Hp]. split; [|intros q Hq; by eapply base_of_mono, Hp].
    exists v, n, p, h. split; [done|]. by eapply lookup_weaken.
  - intros [(p & y & Hp & Hy & Hr) [a Ha]]. split; [exists p, y; split; [done|]; split; [by eapply lookup_weaken|done]|].
    exists a. by eapply avp_of_mono.
Qed.

(** ** Linking a new object *)

Section linking.
Context (d : dictionary) (Hwf : dict_wf d) (data : dict_data) (parent head : option obj).
Local Notation new := (next_obj d).
Local Notation x := (DictObject data parent head).
Local Notation d1 := (with_object new x d).

Lemma new_fresh : objs d !! new = None.
Proof. apply eq_None_not_Some. intros H. pose proof (wf_fresh d Hwf new H). lia. Qed.

Lemma objs_grow : objs d ⊆ objs d1.
Proof. apply insert_subseteq, new_fresh. Qed.

Context (Hok : obj_ok d1 new x).

(** A state on the way: some of the lists have the new object. *)
Definition linking (done : list index) (e : dictionary) : Prop :=
  objs e = objs d1 ∧ dict_count e = dict_count d ∧ next_obj e = S new ∧
  (∀ i, i ∉ done → lists e i = lists d i) ∧
  (∀ i, i ∈ done → ∃ a b, lists d i = a ++ b ∧ lists e i = a ++ new :: b ∧
     Increasing (λ y z, key_cmp (obj_key e i y) (obj_key e i z)) (lists e i)).

Lemma obj_key_objs e e' i o : objs e = objs e' → obj_key e i o = obj_key e' i o.
Proof. intros E. unfold obj_key, data_key, base_of, avp_of. by rewrite E. Qed.

Lemma old_key i o : o ∈ lists d i → obj_key d1 i o = obj_key d i o.
Proof.
  intros (y & Hy & Hb)%(wf_mem d Hwf). eapply obj_key_mono; [apply objs_grow|done|]. by eapply belongs_key.
Qed.

Lemma link_in_spec done e i k :
  linking done e → i ∉ done → belongs i new x → data_key d1 i data = Some k →
  (∃ e', link_in e i new data = Ok (inl e') ∧ linking (i :: done) e' ∧
     (∀ y, y ∈ lists d i → obj_key d i y ≠ k)) ∨
  (∃ y, link_in e i new data = Ok (inr y) ∧ y ∈ lists d i ∧ obj_key d i y = k).
Proof.
  intros (Eo & Ec & En & Hout & Hin) Hi Hb Hk. unfold link_in.
  assert (obj_key d1 i new = k) as Hkey.
  { unfold obj_key. cbn [objs with_object]. by rewrite lookup_insert_eq; cbn [o_data]; rewrite Hk. }
  set (K := λ y z, key_cmp (obj_key d1 i y) (obj_key d1 i z)).
  assert (Forall (λ y, on_data e (index_order e i data) y = Ok (K new y)) (lists d i)) as Hcmp.
  { apply Forall_forall. intros y Hy. pose proof Hy as (z & Hz & Hbz)%(wf_mem d Hwf).
    pose proof (lookup_weaken _ _ _ _ Hz objs_grow) as Hz1. unfold on_data, deref. rewrite Eo, Hz1. cbn [res_bind].
    destruct (belongs_key d i y z Hwf Hz Hbz) as [l Hl]. pose proof (data_key_mono _ _ _ _ _ objs_grow Hl) as Hl1.
    rewrite (index_order_key e i data (o_data z) k l).
    - unfold K. rewrite Hkey. f_equal. unfold obj_key. rewrite Hz1, Hl1. done.
    - symmetry. apply (belongs_kind d1 i y z new x); [|done..].
      by eapply obj_ok_mono, wf_obj; [apply objs_grow|..].
    - revert Hk. unfold data_key, base_of, avp_of. by rewrite Eo.
    - revert Hl1. unfold data_key, base_of, avp_of. by rewrite Eo. }
  rewrite (Hout i Hi), (insert_ordered_spec _ K) by done. cbn [res_bind].
  assert (Increasing K (lists d i)) as Hinc.
  { apply (Increasing_ext _ _ _ (λ y z Hy Hz, eq_sym (f_equal2 key_cmp (old_key i y Hy) (old_key i z Hz)))), wf_order, Hwf. }
  destruct (ordered_split K new (lists d i)) as [[a b]|y] eqn:Es.
  - left. eexists. split; [done|]. split.
    + unfold linking, set_list. cbn [objs dict_count next_obj lists]. split; [done|]. split; [done|]. split; [done|].
      split; intros j Hj.
      * rewrite fn_lookup_insert_ne by set_solver. apply Hout. set_solver.
      * destruct (decide (i = j)) as [<-|Hne].
        -- exists a, b. rewrite fn_lookup_insert. split; [by apply ordered_split_app in Es|]. split; [done|].
           refine (Increasing_ext K _ _ _ (ordered_split_increasing K new _ a b Hinc Es)).
           intros y z _ _. unfold K. by f_equal; apply obj_key_objs.
        -- rewrite fn_lookup_insert_ne by done. destruct (Hin j) as (a' & b' & H1 & H2 & H3); [set_solver|].
           exists a', b'. split; [done|]. split; [done|].
           refine (Increasing_ext _ _ _ _ H3). intros y z _ _. by f_equal; apply obj_key_objs.
    + intros y Hy Hkeq. apply (ordered_split_absent K new _ a b y Hinc Es Hy). unfold K. rewrite Hkey, old_key by done.
      rewrite Hkeq. apply key_cmp_zero. done.
  - right. exists y. split; [done|]. apply ordered_split_dup in Es as [Hy Hz]. split; [done|].
    unfold K in Hz. rewrite Hkey, old_key in Hz by done. by apply key_cmp_zero in Hz.
Qed.

Lemma link_all_spec ixs done e :
  linking done e → NoDup (ixs ++ done) → (∀ i, i ∈ ixs → belongs i new x ∧ is_Some (data_key d1 i data)) →
  (∃ e', link_all e ixs new data = Ok (inl e') ∧ linking (rev ixs ++ done) e' ∧
     ∀ i y, i ∈ ixs → y ∈ lists d i → data_key d1 i data ≠ Some (obj_key d i y)) ∨
  (∃ i y, link_all e ixs new data = Ok (inr y) ∧ i ∈ ixs ∧ y ∈ lists d i ∧ data_key d1 i data = Some (obj_key d i y)).
Proof.
  revert done e. induction ixs as [|i ixs IH]; intros done e Hl Hnd Hix; cbn [link_all].
  - left. exists e. split; [reflexivity|]. split; [exact Hl|]. intros i y Hi. by apply not_elem_of_nil in Hi.
  - apply NoDup_cons in Hnd as [Hni Hnd]. destruct (Hix i) as [Hb [k Hk]]; [by left|].
    destruct (link_in_spec done e i k Hl) as [(e' & -> & Hl' & Hne)|(y & -> & Hy & Hky)]; [set_solver|done|done|..];
      cbn [res_bind].
    + destruct (IH (i :: done) e' Hl') as [(e2 & -> & Hl2 & Hne2)|(j & y & -> & Hj & Hy & Hky)].
      * rewrite <- Permutation_middle. by constructor.
      * intros j Hj. apply Hix. by right.
      * left. exists e2. split; [reflexivity|]. split; [cbn [rev]; by rewrite <- app_assoc|].
        intros j y [->|Hj]%elem_of_cons Hy; [|by apply Hne2]. rewrite Hk. intros [= ->]. by apply (Hne y).
      * right. exists j, y. split; [reflexivity|]. split; [by right|done].
    + right. exists i, y. split; [reflexivity|]. split; [by left|]. by rewrite Hk, Hky.
Qed.

(** The dictionary with the new object in its lists. *)
Lemma linking_wf ixs e :
  linking ixs e → (∀ i, belongs i new x ↔ i ∈ ixs) →
  dict_wf (Dictionary (objs e) (lists e) (bump 1 (type_of data) (dict_count e)) (next_obj e)).
Proof.
  intros (Eo & Ec & En & Hout & Hin) Hix.
  assert (∀ i o, obj_key e i o = obj_key d1 i o) as Hkey by (intros; by apply obj_key_objs).
  assert (∀ i o, i ∈ ixs → o ∈ lists e i ↔ o = new ∨ o ∈ lists d i) as Hmem.
  { intros i o Hi. destruct (Hin i Hi) as (a & b & -> & -> & _). set_solver. }
  assert (∀ i, i ∈ ixs → zlen (lists e i) = zlen (lists d i) + 1) as Hlen.
  { intros i Hi. destruct (Hin i Hi) as (a & b & -> & -> & _). autorewrite with fd_len. lia. }
  destruct (wf_base d Hwf) as (H0 & H1 & H2). pose proof (wf_fresh d Hwf) as Hfr.
  assert (∀ o y, objs d !! o = Some y → objs d1 !! o = Some y) as Hold by (intros; by eapply lookup_weaken; [|apply objs_grow]).
  split; cbn [objs lists dict_count next_obj]; rewrite ?Eo.
  - split_and!; cbn [objs]; [rewrite (Hold _ _ H0)|rewrite (Hold _ _ H1)|rewrite (Hold _ _ H2)]; done.
  - intros o. rewrite En. cbn [objs with_object]. destruct (decide (o = new)) as [->|Hne]; [lia|].
    rewrite lookup_insert_ne by done. intros Ho%Hfr. lia.
  - intros o y. cbn [objs with_object]. destruct (decide (o = new)) as [->|Hne].
    + rewrite lookup_insert_eq. intros [= <-]. by eapply (obj_ok_mono d1).
    + rewrite lookup_insert_ne by done. intros Ho%(wf_obj d Hwf). eapply (obj_ok_mono d); [|done].
      apply objs_grow.
  - intros i o. destruct (decide (i ∈ ixs)) as [Hi|Hi].
    + rewrite (Hmem i o Hi), (wf_mem d Hwf). cbn [objs with_object]. split.
      * intros [->|(y & Hy & Hb)]; [exists x; split; [by rewrite lookup_insert_eq|by apply Hix]|].
        exists y. split; [by apply Hold|done].
      * intros (y & Hy & Hb). destruct (decide (o = new)) as [->|Hne]; [by left|]. right.
        rewrite lookup_insert_ne in Hy by done. by exists y.
    + rewrite (Hout i Hi), (wf_mem d Hwf). cbn [objs with_object]. split.
      * intros (y & Hy & Hb). exists y. split; [by apply Hold|done].
      * intros (y & Hy & Hb). destruct (decide (o = new)) as [->|Hne].
        -- rewrite lookup_insert_eq in Hy. injection Hy as <-. by apply Hix in Hb.
        -- rewrite lookup_insert_ne in Hy by done. by exists y.
  - intros i. destruct (decide (i ∈ ixs)) as [Hi|Hi].
    + destruct (Hin i Hi) as (a & b & _ & _ & H). refine (Increasing_ext _ _ _ _ H).
      intros y z _ _. by f_equal; apply obj_key_objs.
    + rewrite (Hout i Hi). refine (Increasing_ext _ _ _ _ (wf_order d Hwf i)). intros y z Hy Hz.
      f_equal; (etransitivity; [symmetry; by apply old_key|by apply obj_key_objs]).
  - destruct (wf_count d Hwf) as (C0 & C1 & C2 & C3). rewrite Ec.
    assert (∀ i ty, (i ∈ ixs ↔ type_of data = ty) → dict_count d ty = zlen (lists d i) →
              bump 1 (type_of data) (dict_count d) ty = zlen (lists e i)) as Hc.
    { intros i ty Hi Hd. unfold bump. destruct (decide (ty = type_of data)) as [->|Hne].
      - rewrite Hlen by by apply Hi. lia.
      - rewrite Hout; [done|]. intros Hx%Hi. by apply Hne. }
    assert (new ≠ dict_vendors ∧ new ≠ dict_applications ∧ new ≠ dict_cmd_error) as (N0 & N1 & N2).
    { pose proof new_fresh as Hn. split_and!; intros Heq; rewrite Heq in Hn; by rewrite ?H0, ?H1, ?H2 in Hn. }
    split_and!; apply Hc; try done; rewrite <- Hix; unfold belongs; cbn [o_data]; by destruct data.
Qed.
End linking.

(** ** Searches *)

(** In a list with increasing keys an element is known by its key. *)
Lemma keys_inj (K : obj → key) l x y :
  Increasing (λ a b, key_cmp (K a) (K b)) l → x ∈ l → y ∈ l → K x = K y → x = y.
Proof.
  pose proof (CmpOrder_key key_cmp K).
  intros Hs Hx Hy Hk. apply (Increasing_inj (λ a b, key_cmp (K a) (K b)) l); [done..|]. by rewrite Hk, cmp_refl.
Qed.

(** A search, with or without the early exit, finds the element of the key. *)
Lemma search_list_key cmp isindex (K : obj → key) k l :
  Increasing (λ a b, key_cmp (K a) (K b)) l → (∀ o, o ∈ l → cmp o = Ok (key_cmp k (K o))) →
  ∃ r, search_list cmp isindex l = Ok r ∧ ∀ o, r = Some o ↔ o ∈ l ∧ K o = k.
Proof.
  intros Hs. induction Hs as [|z l Hs IH Hz]; intros Hc.
  - exists None. split; [done|]. set_solver.
  - cbn [search_list]. rewrite Hc by by left. cbn [res_bind]. rewrite Forall_forall in Hz.
    case_decide as Ek; [apply key_cmp_zero in Ek as ->|].
    + exists (Some z). split; [done|]. intros o. split; [intros [= <-]; split; [by left|done]|].
      intros [[->|Ho]%elem_of_cons Hk]; [done|]. specialize (Hz o Ho). rewrite Hk, cmp_refl in Hz. lia.
    + destruct (isindex && _) eqn:E.
      * apply andb_prop in E as [_ E%bool_decide_eq_true]. exists None. split; [done|]. intros o. split; [done|].
        intros [[->|Ho]%elem_of_cons <-]; [by rewrite cmp_refl in Ek|]. specialize (Hz o Ho).
        apply (cmp_sym (cmp:=key_cmp)) in Hz. lia.
      * destruct IH as (r & -> & Hr); [intros o Ho; apply Hc; by right|]. exists r. split; [done|].
        intros o. rewrite Hr, elem_of_cons. split; [naive_solver|]. intros [[->|Ho] Hk]; [|done].
        subst k. by rewrite cmp_refl in Ek.
Qed.

Section searches.
Context (d : dictionary) (Hwf : dict_wf d).

(** The object of a key in a list. *)
Definition has_key (i : index) (k : key) (o : obj) : Prop :=
  ∃ x, objs d !! o = Some x ∧ belongs i o x ∧ data_key d i (o_data x) = Some k.

Lemma has_key_elem i k o : has_key i k o ↔ o ∈ lists d i ∧ obj_key d i o = k.
Proof.
  rewrite (wf_mem d Hwf). unfold has_key, obj_key. split.
  - intros (x & Hx & Hb & Hk). split; [by exists x|]. by rewrite Hx, Hk.
  - intros [(x & Hx & Hb) Hk]. exists x. split; [done|]. split; [done|]. rewrite Hx in Hk.
    destruct (belongs_key d i o x Hwf Hx Hb) as [k' Hk']. rewrite Hk' in *. by subst k.
Qed.

Lemma has_key_inj i k o o' : has_key i k o → has_key i k o' → o = o'.
Proof.
  intros [Ho Hk]%has_key_elem [Ho' Hk']%has_key_elem. eapply keys_inj; [apply (wf_order d Hwf i)|done..|]. by rewrite Hk.
Qed.

Lemma search_key i isindex k f :
  (∀ o x l, objs d !! o = Some x → belongs i o x → data_key d i (o_data x) = Some l → f (o_data x) = Ok (key_cmp k l)) →
  ∃ r, search_list (on_data d f) isindex (lists d i) = Ok r ∧ ∀ o, r = Some o ↔ has_key i k o.
Proof.
  intros Hf. destruct (search_list_key (on_data d f) isindex (obj_key d i) k (lists d i)) as (r & Hr & Ho).
  - apply (wf_order d Hwf).
  - intros o (x & Hx & Hb)%(wf_mem d Hwf). destruct (belongs_key d i o x Hwf Hx Hb) as [l Hl].
    unfold on_data, deref, obj_key. rewrite Hx. cbn [res_bind]. rewrite Hl. by eapply Hf.
  - exists r. split; [done|]. intros o. by rewrite Ho, has_key_elem.
Qed.

Lemma search_vendor_by_id id :
  ∃ r, search_vendor d (VENDOR_BY_ID id) = Ok r ∧
    ∀ v, r = Some v ↔ ∃ n p h, objs d !! v = Some (DictObject (VendorData id n) p h).
Proof.
  destruct (wf_base d Hwf) as (H0 & _ & _). unfold search_vendor. case_decide as Hid.
  - exists (Some dict_vendors). split; [done|]. intros v. split.
    + intros [= <-]. rewrite H0, Hid. by vm_compute; eexists _, _, _.
    + intros (n & p & h & Hv). apply (wf_obj d Hwf) in Hv. cbn in Hv. f_equal. symmetry. by apply Hv.
  - destruct (search_key Vendors true (KZ id) (λ x, match x with VendorData i _ => Ok (ORDER_scalar id i) | _ => Crash end))
      as (r & Hr & Ho).
    { intros o [[]] l Hx Hb; try done. cbn. by intros [= <-]. }
    exists r. split; [done|]. intros v. rewrite Ho. split.
    + intros ([[] p h] & Hx & Hb & Hk); try done. injection Hk as ->. by eexists _, _, _.
    + intros (n & p & h & Hv). eexists. split; [done|]. split; [|done]. unfold belongs. cbn [o_data].
      intros ->. apply (wf_obj d Hwf) in Hv. cbn in Hv. by apply Hid, Hv.
Qed.
End searches.

(** ** Creation *)

(** The value of an [ENUMVAL] is of the base type of its parent, and not a NaN. *)
Definition suits (d : dictionary) (data : dict_data) (parent : option obj) : Prop :=
  match data with
  | EnumvalData _ v => ∃ p, parent = Some p ∧ ∀ t, base_of d p = Some t → is_Some (value_key t v)
  | _ => True
  end.

(** What the code requires of the parameters. *)
Definition new_valid (d : dictionary) (data : dict_data) (parent : option obj) : Prop :=
  check_parent d (type_of data) parent = true ∧ is_ok (check_data d data parent).

Definition new_head (data : dict_data) (vendor : option obj) : option obj :=
  match data with AvpData _ => vendor | _ => None end.

Lemma check_parent_some d ty p :
  check_parent d ty (Some p) = true → ∃ x, objs d !! p = Some x ∧ parent_type_ok ty (o_data x) = true.
Proof.
  unfold check_parent, verify_object. destruct ty; destruct (objs d !! p) as [x|]; try done; intros Hp; by exists x.
Qed.

Lemma check_parent_base d ty p :
  ty = DICT_AVP ∨ ty = DICT_ENUMVAL → check_parent d ty (Some p) = true →
  ∃ t q h, objs d !! p = Some (DictObject (TypeData t) q h).
Proof.
  intros Ht (x & Hx & Hp)%check_parent_some. destruct x as [y q h]. cbn [o_data] in Hp.
  destruct Ht as [->| ->]; apply bool_decide_eq_true in Hp; destruct y; try done; by eexists _, _, _.
Qed.

Section creation.
Context (d : dictionary) (Hwf : dict_wf d) (parent : option obj).
Local Notation new := (next_obj d).

Lemma check_data_safe data : check_parent d (type_of data) parent = true → check_data d data parent ≠ Crash.
Proof.
  intros Hp. unfold check_data. destruct data as [| | | |a| |]; try done; try (case_match; done).
  - destruct (search_vendor_by_id d Hwf (a_vendor a)) as ([v|] & -> & _); [|done]. cbn [fd_dict_search res_bind].
    destruct parent as [p|]; [|done]. apply check_parent_base in Hp as (t & q & h & Hp); [|by left].
    cbn [verify_object]. rewrite Hp. cbn [o_data]. by case_match.
  - unfold verify_object. repeat case_match; done.
Qed.

Lemma check_avp a v :
  check_data d (AvpData a) parent = Ok v →
  ∃ w n p h, v = Some w ∧ objs d !! w = Some (DictObject (VendorData (a_vendor a) n) p h) ∧
    ∀ p x, parent = Some p → objs d !! p = Some x → base_of d p = Some (a_basetype a).
Proof.
  unfold check_data. destruct (search_vendor_by_id d Hwf (a_vendor a)) as ([w|] & -> & Hv); [|done].
  destruct (proj1 (Hv w) eq_refl) as (n & p & h & Hw). cbn [fd_dict_search res_bind].
  intros H. exists w, n, p, h. destruct_res. split; [done|]. split; [done|].
  intros q x' Hq Hx'. rewrite Hq in *. cbn [verify_object] in *. rewrite Hx' in *. unfold base_of. rewrite Hx'.
  destruct x' as [[] ? ?]; try done. cbn [o_data] in *. destruct_res.
  f_equal. by eapply bool_decide_eq_true_1.
Qed.

Lemma new_links data vendor :
  check_parent d (type_of data) parent = true → check_data d data parent = Ok vendor → suits d data parent →
  let x := DictObject data parent (new_head data vendor) in
  let ixs := links_of data (default new parent) (default new vendor) in
  obj_ok (with_object new x d) new x ∧ NoDup ixs ∧
  ∀ i, (belongs i new x ↔ i ∈ ixs) ∧ (i ∈ ixs → is_Some (data_key d i data)).
Proof.
  intros Hp Hd Hs. cbv zeta. pose proof (new_fresh d Hwf) as Hfr. destruct (wf_base d Hwf) as (H0 & H1 & H2).
  assert (new ≠ dict_vendors ∧ new ≠ dict_applications ∧ new ≠ dict_cmd_error) as (N0 & N1 & N2).
  { split_and!; intros Heq; rewrite Heq in Hfr; by rewrite ?H0, ?H1, ?H2 in Hfr. }
  assert (∀ x, objs d ⊆ objs (with_object new x d)) as Hsub by (intros; by apply insert_subseteq).
  unfold obj_ok, belongs. cbn [o_data o_parent o_head].
  destruct data; cbn [links_of new_head type_of] in *.
  - unfold check_data in Hd. destruct_res. apply bool_decide_eq_true in E. split; [split; done|].
    split; [apply NoDup_singleton|]. intros []; split; set_solver.
  - unfold check_data in Hd. destruct_res. apply bool_decide_eq_true in E. split; [split; done|].
    split; [apply NoDup_singleton|]. intros []; split; set_solver.
  - split; [done|]. split; [apply NoDup_singleton|]. intros []; split; set_solver.
  - destruct Hs as (p & -> & Hb). destruct (check_parent_base d DICT_ENUMVAL p) as (t & q & h & Ht); [by right|exact Hp|].
    assert (base_of d p = Some (type_base t)) as Hbase by (unfold base_of; by rewrite Ht).
    destruct (Hb _ Hbase) as [k Hk]. split; [exists p, (type_base t), k; split_and!; [done|by apply (base_of_mono d)|done]|].
    split; [apply NoDup_cons; split; [set_solver|apply NoDup_singleton]|].
    cbn [default from_option id]. intros []; (split; [try (split; [done|set_solver]); set_solver|]); cbn [data_key].
    all: try set_solver; try (intros; by eexists).
    intros Hi. assert (o = p) as -> by set_solver. rewrite Hbase, Hk. by eexists.
  - destruct (check_avp a vendor Hd) as (w & n & p & h & -> & Hw & Hb).
    split; [split|].
    + exists w, n, p, h. split; [done|]. by eapply lookup_weaken, Hsub.
    + intros q ->. destruct (check_parent_some d _ q Hp) as (x & Hx & _). apply (base_of_mono d); [apply Hsub|]. by eapply Hb.
    + cbn [default from_option id]. split; [apply NoDup_cons; split; [set_solver|apply NoDup_singleton]|].
      intros []; (split; [set_solver|]); cbn [data_key]; intros; try by eexists. all: set_solver.
  - unfold check_data in Hd. destruct_res. split; [by right|].
    split; [apply NoDup_cons; split; [set_solver|apply NoDup_singleton]|]. intros []; split; set_solver.
  - unfold check_data, verify_object in Hd. destruct (objs d !! rule_avp r) as [y|] eqn:Hy; [|done]. destruct_res.
    apply bool_decide_eq_true in E. destruct parent as [p|]; [|done]. destruct (check_parent_some d _ p Hp) as (x & Hx & Hr).
    assert (is_Some (avp_of d (rule_avp r))) as [a Ha].
    { unfold avp_of. rewrite Hy. destruct y as [[] ? ?]; done. }
    split; [split|].
    + exists p, x. split; [done|]. split; [by eapply lookup_weaken, Hsub|done].
    + exists a. by apply (avp_of_mono d).
    + split; [apply NoDup_singleton|]. cbn [default from_option id].
      intros []; (split; [set_solver|]); cbn [data_key]; try set_solver. rewrite Ha. by eexists.
Qed.
End creation.

(** The comparison with a known object succeeds, and identical data are the same. *)
Lemma same_object_ok d known data parent :
  type_of known = type_of data →
  (∀ n v, data = EnumvalData n v → ∃ p t m w k l, parent = Some p ∧ base_of d p = Some t ∧
     known = EnumvalData m w ∧ value_key t w = Some k ∧ value_key t v = Some l) →
  ∃ same, same_object d known data parent = Ok same ∧ (known = data → same = true).
Proof.
  intros Ht He. destruct known, data; try done; cbn [same_object].
  - eexists. split; [done|]. intros [= -> ->]. rewrite bool_decide_true; [done|apply cmp_refl].
  - eexists. split; [done|]. intros [= -> ->]. rewrite bool_decide_true; [done|apply cmp_refl].
  - eexists. split; [done|]. intros [= ->]. unfold cb_conflict. rewrite bool_decide_true by done.
    repeat case_match; try done; repeat case_bool_decide; done.
  - destruct (He _ _ eq_refl) as (p & t & m & w & k & l & -> & Hb & [= <- <-] & Hk & Hl).
    unfold base_of in Hb. unfold deref. destruct (objs d !! p) as [[[] ? ?]|]; try done. injection Hb as Hb.
    cbn [res_bind o_data]. rewrite Hb, (order_values_key _ _ _ _ _ Hk Hl). cbn [res_bind].
    case_decide as Hn; eexists; (split; [done|]).
    + intros [= -> _]. by rewrite cmp_refl in Hn.
    + intros [= _ ->]. simplify_eq. rewrite bool_decide_true; [done|apply cmp_refl].
  - eexists. split; [done|]. intros [= ->]. rewrite !bool_decide_true; try done. apply cmp_refl.
  - eexists. split; [done|]. intros [= ->]. rewrite !bool_decide_true; try done. apply cmp_refl.
  - eexists. split; [done|]. intros [= ->]. generalize (rule_min_conflict (rule_pos r0) (rule_min r0) (rule_min r0)).
    intros b. repeat (case_bool_decide; try done).
Qed.

(** What the result of [fd_dict_new] says. *)
Definition new_post (d : dictionary) (data : dict_data) (parent : option obj) (d' : dictionary) (r : new_result) : Prop :=
  match r with
  | Created o =>
      new_valid d data parent ∧ objs d !! o = None ∧ (∃ h, objs d' = <[o := DictObject data parent h]> (objs d)) ∧
      ∀ i k y, o ∈ lists d' i → data_key d i data = Some k → ¬ has_key d i k y
  | Known y => d' = d ∧ new_valid d data parent ∧ ∃ i k, data_key d i data = Some k ∧ has_key d i k y
  | Conflict y => d' = d ∧ new_valid d data parent ∧ (∃ i k, data_key d i data = Some k ∧ has_key d i k y) ∧
      ∀ x, objs d !! y = Some x → o_data x ≠ data
  | Refused e => d' = d ∧ e = EINVAL ∧ ¬ new_valid d data parent
  end.

Lemma refuse_ok d data parent e : suits d data parent → refuse data parent e = Ok (Refused e).
Proof. destruct data, parent; try done. by intros (p & [=] & _). Qed.

Lemma dict_new_result d data parent :
  dict_wf d → suits d data parent → ∃ d' r, fd_dict_new d data parent = Ok (d', r) ∧ dict_wf d' ∧ new_post d data parent d' r.
Proof.
  intros Hwf Hs. unfold fd_dict_new.
  assert (∃ e, ¬ new_valid d data parent → (let* r := refuse data parent EINVAL in Ok (d, r)) = Ok (d, Refused e) ∧ e = EINVAL) as (e & He).
  { exists EINVAL. by rewrite (refuse_ok d). }
  destruct (check_parent d (type_of data) parent) eqn:Hp; cbn [negb].
  2:{ destruct He as [-> ->]; [by intros [? ?]; congruence|]. eexists _, _. split; [done|]. split; [done|].
      split; [done|]. split; [done|]. intros [? ?]; congruence. }
  destruct (check_data d data parent) as [vendor|e'|] eqn:Hd.
  2:{ destruct He as [-> ->]; [by intros [? [? ?]]; congruence|]. eexists _, _. split; [done|]. split; [done|].
      split; [done|]. split; [done|]. intros [? [? ?]]; congruence. }
  2:{ exfalso. by eapply check_data_safe. }
  assert (new_valid d data parent) as Hv by (split; [done|by eexists]).
  set (x := DictObject data parent (new_head data vendor)).
  change (Dictionary (<[next_obj d:=_]> (objs d)) (lists d) (dict_count d) (S (next_obj d))) with (with_object (next_obj d) x d).
  destruct (new_links d Hwf parent data vendor Hp Hd Hs) as (Hok & Hnd & Hix). fold x in Hok, Hix.
  set (ixs := links_of data (default (next_obj d) parent) (default (next_obj d) vendor)) in *.
  assert (∀ i, i ∈ ixs → ∃ k, data_key d i data = Some k ∧ data_key (with_object (next_obj d) x d) i data = Some k) as Hkey.
  { intros i Hi. apply (Hix i) in Hi as [k Hk]. exists k. split; [done|]. eapply data_key_mono; [|done]. by apply objs_grow. }
  destruct (link_all_spec d Hwf data parent (new_head data vendor) Hok ixs [] (with_object (next_obj d) x d))
    as [(e' & -> & Hl & Hne)|(i & y & -> & Hi & Hy & Hk)].
  - repeat (split; [done|]). intros i Hi. by apply not_elem_of_nil in Hi.
  - by rewrite app_nil_r.
  - intros i Hi. split; [by apply Hix|]. fold x. destruct (Hkey i Hi) as (k & _ & ->). by eexists.
  - cbn [res_bind]. rewrite app_nil_r in Hl.
    assert (∀ i, i ∈ rev ixs ↔ i ∈ ixs) as Hrev by (intros; rewrite !list_elem_of_In; symmetry; apply in_rev).
    eexists _, _. split; [done|]. split.
    + eapply (linking_wf d Hwf data parent (new_head data vendor) Hok); [done|]. intros i. rewrite Hrev. apply Hix.
    + split; [done|]. split; [by apply new_fresh|]. pose proof Hl as (Eo & _ & _ & Hout & _).
      split; [eexists; cbn [objs]; rewrite Eo; done|]. cbn [lists]. intros i k y Hi Hk Hy.
      destruct (decide (i ∈ ixs)) as [Hin|Hin].
      * destruct (Hkey i Hin) as (k' & Hk' & Hk1). apply has_key_elem in Hy as [Hy Hyk]; [|done].
        apply (Hne i y Hin Hy). fold x. rewrite Hk1. congruence.
      * rewrite Hout in Hi by by rewrite Hrev. apply (wf_mem d Hwf) in Hi as (z & Hz & _).
        by rewrite new_fresh in Hz.
  - cbn [res_bind]. destruct (Hkey i Hi) as (k & Hk0 & Hk1). fold x in Hk. rewrite Hk1 in Hk. injection Hk as ->.
    assert (has_key d i (obj_key d i y) y) as Hhk by by apply has_key_elem.
    pose proof Hhk as (z & Hz & Hbz & Hkz). unfold deref. rewrite Hz. cbn [res_bind].
    assert (type_of (o_data z) = type_of data) as Hty.
    { apply (belongs_kind (with_object (next_obj d) x d) i y z (next_obj d) x); [|done|done|by apply Hix].
      eapply obj_ok_mono, (wf_obj d Hwf); [|done]. by apply objs_grow. }
    destruct (same_object_ok d (o_data z) data parent Hty) as (same & -> & Hsame).
    { intros n v ->. destruct Hs as (p & -> & Hb). destruct (check_parent_base d DICT_ENUMVAL p) as (t & q & h & Ht); [by right|done|].
      assert (base_of d p = Some (type_base t)) as Hbase by (unfold base_of; by rewrite Ht).
      destruct (Hb _ Hbase) as [l Hl]. pose proof (wf_obj d Hwf y z Hz) as Hzok. unfold obj_ok in Hzok.
      unfold belongs in Hbz. destruct (o_data z) as [| | |m w| | |]; try done. destruct Hzok as (p' & t' & k' & Hp' & Ht' & Hk').
      assert (p' = p) as ->.
      { apply elem_of_cons in Hi as [->|Hi%list_elem_of_singleton]; [|subst i]; cbn in Hbz; congruence. }
      rewrite Hbase in Ht'. injection Ht' as <-. by exists p, (type_base t), m, w, k', l. }
    cbn [res_bind]. eexists _, _. split; [done|]. split; [done|].
    destruct same.
    + split; [done|]. split; [done|]. by exists i, (obj_key d i y).
    + split; [done|]. split; [done|]. split; [by exists i, (obj_key d i y)|]. intros z' Hz' Heq.
      rewrite Hz in Hz'. injection Hz' as <-. by specialize (Hsame Heq).
Qed.

(** ** The results of the searches *)

Definition data_of (d : dictionary) (o : obj) : option dict_data := o_data <$> objs d !! o.

(** A search that succeeds and finds the object that satisfies [P], which is the
    only one; or NULL when there is none. *)
Definition finds (r : res (option obj)) (P : obj → Prop) : Prop := ∃ x, r = Ok x ∧ ∀ o, x = Some o ↔ P o.

Lemma finds_ext r P Q : (∀ o, P o ↔ Q o) → finds r P → finds r Q.
Proof. intros He (x & -> & Hx). exists x. split; [done|]. intros o. by rewrite Hx. Qed.

Lemma data_of_some d o x : data_of d o = Some x ↔ ∃ p h, objs d !! o = Some (DictObject x p h).
Proof.
  unfold data_of. rewrite fmap_Some. split; [intros ([y p h] & -> & ->); by eexists _, _|].
  intros (p & h & ->). by eexists.
Qed.

Section found.
Context (d : dictionary) (Hwf : dict_wf d).

(** The search of a key, with the objects of the key described by [P]. *)
Lemma finds_key i isindex k f (P : obj → Prop) :
  (∀ o x l, objs d !! o = Some x → belongs i o x → data_key d i (o_data x) = Some l → f (o_data x) = Ok (key_cmp k l)) →
  (∀ o, has_key d i k o ↔ P o) → finds (search_list (on_data d f) isindex (lists d i)) P.
Proof. intros Hf HP. destruct (search_key d Hwf i isindex k f Hf) as (r & -> & Hr). exists r. split; [done|]. intros o. by rewrite Hr. Qed.

Lemma finds_name i n isindex (P : obj → Prop) :
  (∀ o x l, objs d !! o = Some x → belongs i o x → data_key d i (o_data x) = Some l → l = KS (name_of (o_data x))) →
  (∀ o, has_key d i (KS n) o ↔ P o) → finds (SEARCH_os0 d n i isindex) P.
Proof.
  intros Hn. apply finds_key. intros o x l Hx Hb Hk. by rewrite (Hn o x l Hx Hb Hk).
Qed.

Lemma application_by_id_finds id :
  finds (search_application d (APPLICATION_BY_ID id)) (λ o, ∃ n, data_of d o = Some (ApplicationData id n)).
Proof.
  destruct (wf_base d Hwf) as (_ & H1 & _). unfold search_application. case_decide as Hid.
  - exists (Some dict_applications). split; [done|]. intros v. split.
    + intros [= <-]. unfold data_of. rewrite H1, Hid. vm_compute. by eexists.
    + intros (n & (p & h & Hv)%data_of_some). apply (wf_obj d Hwf) in Hv. cbn in Hv. f_equal. symmetry. by apply Hv.
  - apply (finds_key _ _ (KZ id)); [intros o [[]] l Hx Hb; try done; cbn; by intros [= <-]|]. intros o. split.
    + intros ([[] p h] & Hx & Hb & Hk); try done. injection Hk as ->. eexists. apply data_of_some. by eexists _, _.
    + intros (n & (p & h & Hv)%data_of_some). eexists. split; [done|]. split; [|done]. unfold belongs. cbn [o_data].
      intros ->. apply (wf_obj d Hwf) in Hv. cbn in Hv. by apply Hid, Hv.
Qed.

Lemma vendor_by_id_finds id :
  finds (search_vendor d (VENDOR_BY_ID id)) (λ o, ∃ n, data_of d o = Some (VendorData id n)).
Proof.
  destruct (search_vendor_by_id d Hwf id) as (r & -> & Hr). exists r. split; [done|]. intros o. rewrite Hr.
  setoid_rewrite data_of_some. naive_solver.
Qed.

Lemma type_by_name_finds n :
  finds (search_type d (TYPE_BY_NAME n)) (λ o, ∃ t, data_of d o = Some (TypeData t) ∧ type_name t = n).
Proof.
  apply finds_name; [by intros o [[]] l Hx Hb; try done; intros [= <-]|]. intros o. split.
  - intros ([[] p h] & Hx & Hb & Hk); try done. injection Hk as Hk. eexists. rewrite data_of_some. split; [by eexists _, _|done].
  - intros (t & (p & h & Ht)%data_of_some & <-). by eexists.
Qed.

Lemma cmd_by_name_finds n :
  finds (search_cmd d (CMD_BY_NAME n))
    (λ o, o ≠ dict_cmd_error ∧ ∃ c, data_of d o = Some (CommandData c) ∧ c_name c = n).
Proof.
  apply finds_name; [by intros o [[]] l Hx Hb; try done; intros [= <-]|]. intros o. split.
  - intros ([[] p h] & Hx & Hb & Hk); try done. injection Hk as Hk. split; [exact Hb|].
    eexists. rewrite data_of_some. split; [by eexists _, _|done].
  - intros (He & t & (p & h & Ht)%data_of_some & <-). by eexists.
Qed.

(** The AVPs in the lists of a vendor are those of its identifier. *)
Lemma avp_head v id n o a p h :
  data_of d v = Some (VendorData id n) → objs d !! o = Some (DictObject (AvpData a) p h) →
  h = Some v ↔ a_vendor a = id.
Proof.
  intros (q & g & Hv)%data_of_some Ho. destruct (wf_obj d Hwf _ _ Ho) as [(w & m & q' & g' & Hh & Hw) _].
  cbn in Hh. subst h. split.
  - intros [= ->]. rewrite Hv in Hw. by injection Hw.
  - intros <-. f_equal. destruct (search_vendor_by_id d Hwf (a_vendor a)) as (r & _ & Hr).
    assert (r = Some w) as -> by (apply Hr; by eexists _, _, _).
    assert (Some w = Some v) as [= ->] by (apply Hr; by eexists _, _, _). done.
Qed.

(** The lists of a vendor hold AVPs only. *)
Lemma vendor_list_avps v id n i o y p h :
  data_of d v = Some (VendorData id n) → i = List1 v ∨ i = List2 v → objs d !! o = Some (DictObject y p h) →
  belongs i o (DictObject y p h) → ∃ a, y = AvpData a ∧ h = Some v.
Proof.
  intros (q & g & Hvo)%data_of_some Hi Ho Hb. pose proof (wf_obj d Hwf o _ Ho) as Hok.
  unfold obj_ok, belongs, base_of in *. cbn in *.
  destruct Hi as [->| ->], y; try done; try (by eexists); exfalso.
  all: try destruct Hok as (w & t & k & Hw & Ht & _); try destruct Hok as [(w & z & Hw & Hz & Hr) _];
    rewrite Hb in Hw; injection Hw as <-; rewrite Hvo in *; by simplify_eq/=.
Qed.

Lemma avp_key_finds i v id n o (P : dict_avp_data → Prop) k :
  data_of d v = Some (VendorData id n) → i = List1 v ∨ i = List2 v →
  (∀ a, data_key d i (AvpData a) = Some k ↔ P a) →
  has_key d i k o ↔ ∃ a, data_of d o = Some (AvpData a) ∧ P a ∧ a_vendor a = id.
Proof.
  intros Hv Hi HP. split.
  - intros ([y p h] & Hx & Hb & Hk). destruct (vendor_list_avps v id n i o y p h Hv Hi Hx Hb) as (a & -> & ->).
    exists a. rewrite data_of_some. split; [by eexists _, _|]. split; [by apply HP|]. by eapply avp_head.
  - intros (a & (p & h & Ha)%data_of_some & Hp & Hid). eexists. split; [done|]. split; [|by apply HP].
    destruct Hi as [->| ->]; unfold belongs; cbn; by eapply avp_head.
Qed.

Lemma avp_code_finds c v id n :
  data_of d v = Some (VendorData id n) →
  finds (search_avp_code d c v) (λ o, ∃ a, data_of d o = Some (AvpData a) ∧ a_code a = c ∧ a_vendor a = id).
Proof.
  intros Hv. apply (finds_key _ _ (KZ c)).
  - intros o [y p h] l Hx Hb. destruct (vendor_list_avps v id n _ o y p h Hv (or_introl eq_refl) Hx Hb) as (a & -> & _).
    by intros [= <-].
  - intros o. eapply avp_key_finds; [done|by left|]. intros a. cbn. naive_solver.
Qed.

Lemma avp_name_finds c v id n :
  data_of d v = Some (VendorData id n) →
  finds (SEARCH_os0 d c (List2 v) true) (λ o, ∃ a, data_of d o = Some (AvpData a) ∧ a_name a = c ∧ a_vendor a = id).
Proof.
  intros Hv. apply finds_name.
  - intros o [y p h] l Hx Hb. destruct (vendor_list_avps v id n _ o y p h Hv (or_intror eq_refl) Hx Hb) as (a & -> & _).
    by intros [= <-].
  - intros o. eapply avp_key_finds; [done|by right|]. intros a. cbn. naive_solver.
Qed.

Lemma vendors_data : ∃ n, data_of d dict_vendors = Some (VendorData 0 n).
Proof. destruct (wf_base d Hwf) as (H0 & _ & _). unfold data_of. rewrite H0. vm_compute. by eexists. Qed.

(** A search in the lists of a vendor that is found by its identifier. *)
Lemma by_vendor_finds id (f : obj → res (option obj)) (P : dict_avp_data → Prop) :
  (∀ v n, data_of d v = Some (VendorData id n) →
     finds (f v) (λ o, ∃ a, data_of d o = Some (AvpData a) ∧ P a ∧ a_vendor a = id)) →
  finds (let* v := search_vendor d (VENDOR_BY_ID id) in match v with None => Ok None | Some v => f v end)
    (λ o, ∃ a, data_of d o = Some (AvpData a) ∧ P a ∧ a_vendor a = id).
Proof.
  intros Hf. destruct (vendor_by_id_finds id) as ([v|] & -> & Hv); cbn [res_bind].
  - destruct (proj1 (Hv v) eq_refl) as [n Hn]. by eapply Hf.
  - exists None. split; [done|]. intros o. split; [done|]. intros (a & (p & h & Ha)%data_of_some & _ & Hid).
    destruct (wf_obj d Hwf _ _ Ha) as [(w & m & q' & g' & Hh & Hw) _]. exfalso.
    assert (None = Some w); [|done]. apply Hv. exists m. rewrite data_of_some, <- Hid. by eexists _, _.
Qed.
End found.

(** ** Commands and enumerated values *)

(** [cmd & REQUEST], as a flag: 128 or 0. *)
Lemma request_flag v : Z.land v CMD_FLAG_REQUEST = 128 ∨ Z.land v CMD_FLAG_REQUEST = 0.
Proof.
  assert (Z.land v CMD_FLAG_REQUEST = if Z.testbit v 7 then 128 else 0) as ->; [|destruct (Z.testbit v 7); auto].
  apply Z.bits_inj'. intros i Hi. rewrite Z.land_spec. unfold CMD_FLAG_REQUEST. change 128 with (2 ^ 7).
  rewrite Z.pow2_bits_eqb by lia. destruct (Z.eqb_spec 7 i) as [<-|Hne].
  - by destruct (Z.testbit v 7).
  - rewrite andb_false_r. destruct (Z.testbit v 7); [|by rewrite Z.bits_0]. rewrite Z.pow2_bits_eqb by lia.
    symmetry. by apply Z.eqb_neq.
Qed.

Section commands.
Context (d : dictionary) (Hwf : dict_wf d).

(** A command that a search can find: of a code, request or answer. *)
Definition is_command (code flag : Z) (o : obj) : Prop :=
  o ≠ dict_cmd_error ∧ ∃ c, data_of d o = Some (CommandData c) ∧ c_code c = code ∧ Z.land (c_flag_val c) CMD_FLAG_REQUEST = flag.

Lemma cmd_list o : o ∈ lists d CmdCode ↔ ∃ code flag, is_command code flag o.
Proof.
  rewrite (wf_mem d Hwf). unfold is_command, belongs. split.
  - intros ([[] p h] & Hx & Hb); try done. eexists _, _. split; [exact Hb|]. eexists. split; [|done].
    apply data_of_some. by eexists _, _.
  - intros (code & flag & Hne & c & (p & h & Hc)%data_of_some & _). eexists. split; [done|]. done.
Qed.

Lemma cmd_key o code flag : is_command code flag o ↔ o ∈ lists d CmdCode ∧ obj_key d CmdCode o = KP code (- flag).
Proof.
  rewrite cmd_list. split.
  - intros H. split; [by eexists _, _|]. destruct H as (_ & c & (p & h & Hc)%data_of_some & <- & <-).
    unfold obj_key. by rewrite Hc.
  - intros [(code' & flag' & Hne & c & Hc & Hco & Hf) Hk]. split; [done|]. exists c. split; [done|].
    apply data_of_some in Hc as (p & h & Hc). unfold obj_key in Hk. rewrite Hc in Hk. cbn in Hk. injection Hk as Hk1 Hk2.
    split; [done|lia].
Qed.

Lemma cmd_elem o : o ∈ lists d CmdCode →
  ∃ c p h, objs d !! o = Some (DictObject (CommandData c) p h) ∧ has (c_flag_mask c) CMD_FLAG_REQUEST = true ∧
    obj_key d CmdCode o = KP (c_code c) (- Z.land (c_flag_val c) CMD_FLAG_REQUEST).
Proof.
  intros (code & flag & Hne & c & (p & h & Hc)%data_of_some & _)%cmd_list. exists c, p, h. split; [done|].
  split; [by destruct (wf_obj d Hwf _ _ Hc)|]. unfold obj_key. by rewrite Hc.
Qed.

Lemma SEARCH_codefl_finds code flag l :
  (∀ o, o ∈ l → o ∈ lists d CmdCode) → Increasing (λ x y, key_cmp (obj_key d CmdCode x) (obj_key d CmdCode y)) l →
  finds (SEARCH_codefl d code flag l) (λ o, o ∈ l ∧ is_command code flag o).
Proof.
  intros Hl Hs. induction Hs as [|o l Hs IH Ho]; cbn [SEARCH_codefl]; [exists None; split; [done|]; set_solver|].
  destruct (cmd_elem o) as (c & p & h & Hc & Hm & Hk); [by apply Hl; left|]. unfold deref. rewrite Hc. cbn [res_bind o_data].
  rewrite Hm. cbn [negb]. rewrite Forall_forall in Ho.
  assert (¬ is_command code flag o → finds (SEARCH_codefl d code flag l) (λ o', o' ∈ o :: l ∧ is_command code flag o')) as Hskip.
  { intros Hn. eapply finds_ext, IH; [|intros y Hy; apply Hl; by right]. intros y. rewrite elem_of_cons. cbn beta.
    split; [naive_solver|]. intros [[->|Hy] Hc']; done. }
  destruct (ORDER_scalar_cases code (c_code c)) as [[Hlt ->]|[[-> ->]|[Hgt ->]]];
    repeat (case_decide; try lia).
  - exists None. split; [done|]. intros y. split; [done|]. intros [Hy Hc'].
    apply elem_of_cons in Hy as [->|Hy].
    + apply cmd_key in Hc' as [_ Hc']. rewrite Hk in Hc'. injection Hc' as ? ?. lia.
    + specialize (Ho y Hy). apply cmd_key in Hc' as [_ Hc']. rewrite Hk, Hc' in Ho. cbn [key_cmp] in Ho.
      order_cases; case_decide; lia.
  - apply Hskip. intros [_ Hc']%cmd_key. rewrite Hk in Hc'. injection Hc' as Hf. lia.
  - assert (is_command (c_code c) flag o) as Hcmd.
    { apply cmd_key. split; [apply Hl; by left|]. rewrite Hk. f_equal. lia. }
    exists (Some o). split; [done|]. intros y. split; [intros [= <-]; split; [by left|done]|].
    intros [[->|Hy]%elem_of_cons Hc']; [done|]. specialize (Ho y Hy). apply cmd_key in Hc' as [_ Hc'].
    apply cmd_key in Hcmd as [_ Hcmd]. rewrite Hcmd, Hc', cmp_refl in Ho. lia.
  - apply Hskip. intros [_ Hc']%cmd_key. rewrite Hk in Hc'. injection Hc' as ? ?. lia.
Qed.

Lemma cmd_by_code_finds code flag :
  finds (SEARCH_codefl d code flag (lists d CmdCode)) (is_command code flag).
Proof.
  eapply finds_ext, SEARCH_codefl_finds; [|done|apply (wf_order d Hwf)]. intros o. cbn beta. rewrite (cmd_key o). tauto.
Qed.

Lemma next_of_app o l b : o ∉ l → next_of o (l ++ o :: b) = head b.
Proof.
  induction l as [|x l IH]; cbn [next_of app]; intros Ho; [by rewrite decide_True|].
  rewrite decide_False by set_solver. apply IH. set_solver.
Qed.

Lemma StronglySorted_app_inv {A} (R : A → A → Prop) a x b : StronglySorted R (a ++ x :: b) → Forall (R x) b ∧ StronglySorted R b.
Proof. induction a as [|y a IH]; cbn [app]; intros [Hs Hx]%StronglySorted_inv; [done|by apply IH]. Qed.

(** The answer of a command follows its request in the list. *)
Lemma cmd_answer_finds o code :
  is_command code 128 o →
  (∃ a, search_cmd d (CMD_ANSWER (Some o)) = Ok (Some a) ∧ is_command code 0 a) ∨
  (search_cmd d (CMD_ANSWER (Some o)) = Err ENOENT ∧ ∀ a, ¬ is_command code 0 a).
Proof.
  intros Hcmd. pose proof Hcmd as [Ho Hk]%cmd_key. destruct (cmd_elem o Ho) as (c & p & h & Hc & Hm & Hk').
  rewrite Hk in Hk'. injection Hk' as -> Hfl. unfold search_cmd, search_cmd_answer, verify_object. rewrite Hc. cbn [o_data].
  rewrite Hm. assert (has (c_flag_val c) CMD_FLAG_REQUEST = true) as ->.
  { unfold has. apply bool_decide_true. lia. }
  cbn [andb]. pose proof (wf_order d Hwf CmdCode) as Hs. pose proof (Increasing_NoDup _ _ Hs) as Hnd.
  apply list_elem_of_split in Ho as (l1 & l2 & El). rewrite El in Hs, Hnd |- *.
  rewrite next_of_app; [|apply NoDup_app in Hnd as (_ & Hd & _); intros H1; by apply (Hd o H1); left].
  assert (∀ a, is_command (c_code c) 0 a → a ∈ l2) as Hafter.
  { intros a [Ha Hka]%cmd_key. rewrite El in Ha. apply elem_of_app in Ha as [Ha|[->|Ha]%elem_of_cons]; [| |done].
    - exfalso. apply list_elem_of_split in Ha as (l3 & l4 & ->). rewrite <- app_assoc in Hs.
      apply StronglySorted_app_inv in Hs as [Hs _]. rewrite Forall_forall in Hs. specialize (Hs o). cbn beta in Hs.
      rewrite Hka, Hk in Hs. cbn [key_cmp] in Hs. assert (o ∈ l4 ++ o :: l2) as Hin by set_solver. specialize (Hs Hin).
      order_cases; case_decide; lia.
    - rewrite Hk in Hka. by injection Hka. }
  apply StronglySorted_app_inv in Hs as [Hgt Hs].
  destruct l2 as [|a l2]; cbn [head]; [right; split; [done|]; intros a Ha%Hafter; by apply not_elem_of_nil in Ha|].
  destruct (cmd_elem a) as (c2 & p2 & h2 & Hc2 & Hm2 & Hk2); [rewrite El; set_solver|].
  unfold deref. rewrite Hc2. cbn [res_bind o_data]. rewrite Hm2. cbn [negb].
  apply Forall_cons in Hgt as [Hgt _]. cbn beta in Hgt. rewrite Hk, Hk2 in Hgt.
  apply StronglySorted_inv in Hs as [_ Hs]. rewrite Forall_forall in Hs. cbn [key_cmp] in Hgt.
  assert (c_code c2 = c_code c → Z.land (c_flag_val c2) CMD_FLAG_REQUEST = 0) as Hz.
  { intros He. destruct (request_flag (c_flag_val c2)) as [Hf|]; [|done]. rewrite He, Hf in Hgt. revert Hgt.
    order_cases; repeat case_decide; lia. }
  destruct (decide (c_code c2 ≠ c_code c)) as [Hne|Hne].
  - right. split; [done|]. intros y Hy. pose proof (Hafter y Hy) as [->|Hin]%elem_of_cons;
      apply cmd_key in Hy as [_ Hy]; [rewrite Hk2 in Hy; by injection Hy|].
    specialize (Hs y Hin). rewrite Hk2, Hy in Hs. cbn [key_cmp] in Hs. revert Hgt Hs. order_cases; repeat case_decide; lia.
  - apply dec_stable in Hne. unfold has. rewrite bool_decide_false by (specialize (Hz Hne); lia).
    left. exists a. split; [done|]. apply cmd_key. split; [rewrite El; set_solver|]. rewrite Hk2. rewrite Hne.
    f_equal. specialize (Hz Hne). lia.
Qed.
End commands.

Section enumvals.
Context (d : dictionary) (Hwf : dict_wf d) (p : obj) (t : dict_type_data) (Hp : data_of d p = Some (TypeData t)).

(** An enumerated value of the type. *)
Definition is_enumval (n : bytes) (v : avp_value) (o : obj) : Prop :=
  ∃ h, objs d !! o = Some (DictObject (EnumvalData n v) (Some p) h).

Lemma type_lists i o x :
  i = List1 p ∨ i = List2 p → objs d !! o = Some x → belongs i o x → ∃ n v, is_enumval n v o ∧ o_data x = EnumvalData n v.
Proof.
  apply data_of_some in Hp as (q & g & Hpo). intros Hi Ho Hb. pose proof (wf_obj d Hwf o _ Ho) as Hok.
  destruct x as [y q' h]. unfold obj_ok, belongs in *. cbn in *.
  destruct Hi as [->| ->], y; try done; try (exists enum_name, enum_value; split; [by exists h; rewrite <- Hb|done]); exfalso.
  all: try destruct Hok as [(w & n & q2 & g2 & Hh & Hw) _]; try destruct Hok as [(w & z & Hw & Hz & Hr) _];
    simplify_eq; by simplify_eq/=.
Qed.

Lemma enumval_by_name_finds n v :
  finds (search_enumval d (DictEnumvalRequest (Some p) None (Some n) v)) (λ o, ∃ w, is_enumval n w o).
Proof.
  pose proof Hp as (q & g & Hpo)%data_of_some. unfold search_enumval. cbn. rewrite Hpo. cbn.
  apply finds_name; [done|..].
  - intros o x l Hx Hb. destruct (type_lists _ o x (or_introl eq_refl) Hx Hb) as (m & w & _ & ->). by intros [= <-].
  - intros o. split.
    + intros (x & Hx & Hb & Hk). destruct (type_lists _ o x (or_introl eq_refl) Hx Hb) as (m & w & He & Hd).
      rewrite Hd in Hk. injection Hk as ->. by exists w.
    + intros (w & h & He). by eexists.
Qed.

(** The search for a value finds the one that is equal as a number or a string. *)
Lemma enumval_by_value_finds v k :
  value_key (type_base t) v = Some k →
  finds (search_enumval d (DictEnumvalRequest (Some p) None None v))
    (λ o, ∃ n w, is_enumval n w o ∧ value_key (type_base t) w = Some k).
Proof.
  intros Hk. pose proof Hp as (q & g & Hpo)%data_of_some. unfold search_enumval, deref. cbn. rewrite Hpo. rewrite bool_decide_true by done. cbn. rewrite Hpo.
  cbn. rewrite decide_False by (intros Hg; by rewrite Hg in Hk).
  assert (base_of d p = Some (type_base t)) as Hbase by (unfold base_of; by rewrite Hpo).
  apply (finds_key d Hwf _ _ k).
  - intros o x l Hx Hb Hl. destruct (type_lists _ o x (or_intror eq_refl) Hx Hb) as (m & w & _ & Hd).
    rewrite Hd in Hl |- *. cbn in Hl. rewrite Hbase in Hl. by apply order_values_key.
  - intros o. split.
    + intros (x & Hx & Hb & Hl). destruct (type_lists _ o x (or_intror eq_refl) Hx Hb) as (m & w & He & Hd).
      rewrite Hd in Hl. cbn in Hl. rewrite Hbase in Hl. by exists m, w.
    + intros (n & w & (h & He) & Hl). eexists. split; [done|]. split; [done|]. cbn. by rewrite Hbase.
Qed.
End enumvals.

(** What the search of each criterion that has a key finds. *)
Definition search_results (d : dictionary) : Prop :=
  (∀ id, finds (search_vendor d (VENDOR_BY_ID id)) (λ o, ∃ n, data_of d o = Some (VendorData id n))) ∧
  (∀ id, finds (search_application d (APPLICATION_BY_ID id)) (λ o, ∃ n, data_of d o = Some (ApplicationData id n))) ∧
  (∀ n, finds (search_type d (TYPE_BY_NAME n)) (λ o, ∃ t, data_of d o = Some (TypeData t) ∧ type_name t = n)) ∧
  (∀ code vendor, finds (search_avp d (AVP_BY_CODE_AND_VENDOR code vendor))
     (λ o, ∃ a, data_of d o = Some (AvpData a) ∧ a_code a = code ∧ a_vendor a = vendor)) ∧
  (∀ name vendor, finds (search_avp d (AVP_BY_NAME_AND_VENDOR (Some name) vendor))
     (λ o, ∃ a, data_of d o = Some (AvpData a) ∧ a_name a = name ∧ a_vendor a = vendor)) ∧
  (∀ n, finds (search_cmd d (CMD_BY_NAME n)) (λ o, o ≠ dict_cmd_error ∧ ∃ c, data_of d o = Some (CommandData c) ∧ c_name c = n)) ∧
  (∀ code, finds (search_cmd d (CMD_BY_CODE_R code)) (is_command d code 128)) ∧
  (∀ code, finds (search_cmd d (CMD_BY_CODE_A code)) (is_command d code 0)) ∧
  (∀ o code, is_command d code 128 o →
     (∃ a, search_cmd d (CMD_ANSWER (Some o)) = Ok (Some a) ∧ is_command d code 0 a) ∨
     (search_cmd d (CMD_ANSWER (Some o)) = Err ENOENT ∧ ∀ a, ¬ is_command d code 0 a)) ∧
  (∀ p t n v, data_of d p = Some (TypeData t) →
     finds (search_enumval d (DictEnumvalRequest (Some p) None (Some n) v)) (λ o, ∃ w, is_enumval d p n w o)) ∧
  (∀ p t v k, data_of d p = Some (TypeData t) → value_key (type_base t) v = Some k →
     finds (search_enumval d (DictEnumvalRequest (Some p) None None v))
       (λ o, ∃ n w, is_enumval d p n w o ∧ value_key (type_base t) w = Some k)).

Lemma search_results_ok d : dict_wf d → search_results d.
Proof.
  intros Hwf. split_and!.
  - by apply vendor_by_id_finds.
  - by apply application_by_id_finds.
  - by apply type_by_name_finds.
  - intros code vendor. apply (by_vendor_finds d Hwf vendor _ (λ a, a_code a = code)). intros v n. by apply avp_code_finds.
  - intros name vendor. apply (by_vendor_finds d Hwf vendor _ (λ a, a_name a = name)). intros v n. by apply avp_name_finds.
  - by apply cmd_by_name_finds.
  - intros. by apply cmd_by_code_finds.
  - intros. by apply cmd_by_code_finds.
  - by apply cmd_answer_finds.
  - intros p t n v Hp. by eapply enumval_by_name_finds.
  - intros p t v k Hp. by apply enumval_by_value_finds.
Qed.

(** ** Deletion *)

(** The references to [o] that [fd_dict_delete] does not look for: the AVPs of
    the type [o], and the rules on the AVP [o]. *)
Definition deletable (d : dictionary) (o : obj) : Prop :=
  o ≠ dict_vendors ∧ o ≠ dict_applications ∧ o ≠ dict_cmd_error ∧
  ∀ o' x, objs d !! o' = Some x →
    match o_data x with AvpData _ => o_parent x ≠ Some o | RuleData r => rule_avp r ≠ o | _ => True end.

Section deletion.
Context (d : dictionary) (Hwf : dict_wf d) (o : obj) (x : dict_object) (Hx : objs d !! o = Some x).
Context (Hempty : ∀ i, i ∈ own_lists o (o_data x) → lists d i = []) (Hdel : deletable d o).
Local Notation d' := (destroy_object d o (o_data x)).

Lemma lookup_deleted y : y ≠ o → objs d' !! y = objs d !! y.
Proof. intros Hne. cbn [objs destroy_object]. by rewrite lookup_delete_ne. Qed.

Lemma not_in_own i y z : i ∈ own_lists o (o_data x) → objs d !! y = Some z → belongs i y z → False.
Proof. intros Hi Hy Hb. assert (y ∈ lists d i) as Hin by (apply (wf_mem d Hwf); by exists z). rewrite Hempty in Hin by done. by apply not_elem_of_nil in Hin. Qed.

Lemma obj_ok_deleted y z : objs d !! y = Some z → y ≠ o → obj_ok d y z → obj_ok d' y z.
Proof.
  intros Hy Hne. pose proof (proj2 (proj2 (proj2 Hdel)) y z Hy) as Href. pose proof (not_in_own (List1 o) y z) as N1.
  pose proof (not_in_own (List2 o) y z) as N2. unfold obj_ok, belongs, base_of, avp_of in *.
  destruct (o_data z) as [| | |n v|a| |r]; try done.
  - intros (p & t & k & Hp & Ht & Hk). exists p, t, k. split; [done|]. rewrite lookup_deleted; [done|]. intros ->.
    rewrite Hx in Ht. destruct x as [[] ? ?]; try done. apply N1; [cbn; set_solver|done..].
  - intros [(v & n & p & h & Hh & Hv) Ht]. split.
    + exists v, n, p, h. split; [done|]. rewrite lookup_deleted; [done|]. intros ->. rewrite Hx in Hv. injection Hv as ->.
      apply N1; [cbn; set_solver|done..].
    + intros p' Hp. rewrite lookup_deleted by congruence. by apply Ht.
  - intros [(p & q & Hp & Hq & Hr) Ha]. split.
    + exists p, q. split; [done|]. rewrite lookup_deleted; [done|]. intros ->.
      apply N2; [destruct (o_data x); cbn; set_solver|done..].
    + by rewrite lookup_deleted.
Qed.

Lemma obj_key_deleted i y z : objs d !! y = Some z → y ≠ o → belongs i y z → obj_key d' i y = obj_key d i y.
Proof.
  intros Hy Hne Hb. symmetry. eapply obj_key_mono; [apply delete_subseteq|by rewrite lookup_deleted|].
  eapply obj_ok_key; [|done]. apply obj_ok_deleted; [done..|]. by apply (wf_obj d Hwf).
Qed.

Lemma destroy_wf : dict_wf d'.
Proof.
  destruct (wf_base d Hwf) as (H0 & H1 & H2). destruct Hdel as (N0 & N1 & N2 & Href). split.
  - by split_and!; rewrite lookup_deleted.
  - intros y Hy. cbn [objs destroy_object] in Hy. apply (wf_fresh d Hwf). destruct (decide (y = o)) as [->|Hne].
    + by rewrite lookup_delete_eq in Hy; apply is_Some_None in Hy.
    + by rewrite lookup_delete_ne in Hy.
  - intros y z Hy. destruct (decide (y = o)) as [->|Hne].
    + cbn [objs destroy_object] in Hy. by rewrite lookup_delete_eq in Hy.
    + rewrite lookup_deleted in Hy by done. apply obj_ok_deleted; [done..|]. by apply (wf_obj d Hwf).
  - intros i y. cbn [lists destroy_object]. rewrite list_elem_of_filter, (wf_mem d Hwf). split.
    + intros (Hne & z & Hz & Hb). exists z. by rewrite lookup_deleted.
    + intros (z & Hz & Hb). destruct (decide (y = o)) as [->|Hne].
      * cbn [objs destroy_object] in Hz. by rewrite lookup_delete_eq in Hz.
      * rewrite lookup_deleted in Hz by done. split; [done|]. by exists z.
  - intros i. cbn [lists destroy_object]. refine (Increasing_ext _ _ _ _ (Increasing_filter _ _ _ (wf_order d Hwf i))).
    intros y z [Hny (y' & Hy & Hyb)%(wf_mem d Hwf)]%list_elem_of_filter [Hnz (z' & Hz & Hzb)%(wf_mem d Hwf)]%list_elem_of_filter.
    symmetry. f_equal; by eapply obj_key_deleted.
  - destruct (wf_count d Hwf) as (C0 & C1 & C2 & C3).
    assert (∀ i ty, (o ∈ lists d i ↔ type_of (o_data x) = ty) → dict_count d ty = zlen (lists d i) →
              dict_count d' ty = zlen (lists d' i)) as Hc.
    { intros i ty Hi Hd. cbn [lists dict_count destroy_object].
      rewrite zlen_removed by apply (Increasing_NoDup _ _ (wf_order d Hwf i)). unfold bump.
      destruct (decide (ty = type_of (o_data x))), (decide (o ∈ lists d i)); naive_solver lia. }
    split_and!; apply Hc; try done; rewrite (wf_mem d Hwf); unfold belongs; (split;
      [intros (z & Hz & Hb); rewrite Hx in Hz; injection Hz as <-; by destruct (o_data x)
      |intros Ht; exists x; split; [done|]; by destruct (o_data x)]).
Qed.
End deletion.

(** ** Histories of a dictionary *)

Inductive dict_step : dictionary → dictionary → Prop :=
  | step_new d data parent d' r : suits d data parent → fd_dict_new d data parent = Ok (d', r) → dict_step d d'
  | step_delete d o d' : deletable d o → fd_dict_delete d (Some o) = Ok d' → dict_step d d'.

Lemma delete_result d o :
  dict_wf d →
  match verify_object d o with
  | None => fd_dict_delete d o = Err EINVAL
  | Some x =>
      ∃ p, o = Some p ∧
      ((∃ i, i ∈ own_lists p (o_data x) ∧ lists d i ≠ [] ∧ fd_dict_delete d o = Err EINVAL) ∨
       ∃ d', fd_dict_delete d o = Ok d' ∧ objs d' = delete p (objs d) ∧ (∀ i, lists d' i = filter (λ q, q ≠ p) (lists d i)) ∧
             (deletable d p → dict_wf d'))
  end.
Proof.
  intros Hwf. unfold fd_dict_delete. destruct o as [p|]; [|done]. cbn [verify_object].
  destruct (objs d !! p) as [x|] eqn:Hx; [|done]. exists p. split; [done|].
  destruct (forallb _ _) eqn:E.
  - right. exists (destroy_object d p (o_data x)). split; [done|]. split; [done|]. split; [done|].
    intros Hd. apply destroy_wf; [done..| |done]. intros i Hi. rewrite forallb_forall in E.
    apply list_elem_of_In, E, bool_decide_eq_true in Hi. done.
  - left. assert (¬ ∀ i, i ∈ own_lists p (o_data x) → lists d i = []) as Hn.
    { intros Hall. apply not_true_iff_false in E. apply E, forallb_forall. intros i Hi. apply bool_decide_eq_true, Hall.
      by apply list_elem_of_In. }
    destruct (decide (Forall (λ i, lists d i = []) (own_lists p (o_data x)))) as [Hf|Hf].
    + rewrite Forall_forall in Hf. done.
    + apply not_Forall_Exists, Exists_exists in Hf; [|apply _]. destruct Hf as (i & Hi & Hne). by exists i.
Qed.

Lemma init_wf : dict_wf fd_dict_init.
Proof.
  split.
  - done.
  - intros o [x Hx]. cbn in Hx. apply lookup_insert_Some in Hx as [[<- _]|[_ Hx]]; [cbn; unfold dict_vendors; lia|].
    apply lookup_insert_Some in Hx as [[<- _]|[_ Hx]]; [cbn; unfold dict_applications; lia|].
    apply lookup_insert_Some in Hx as [[<- _]|[_ Hx]]; [cbn; unfold dict_cmd_error; lia|]. by rewrite lookup_empty in Hx.
  - intros o x Hx. cbn in Hx. apply lookup_insert_Some in Hx as [[<- <-]|[_ Hx]]; [done|].
    apply lookup_insert_Some in Hx as [[<- <-]|[_ Hx]]; [done|].
    apply lookup_insert_Some in Hx as [[<- <-]|[_ Hx]]; [by left|]. by rewrite lookup_empty in Hx.
  - intros i o. split; [by intros ?%not_elem_of_nil|]. intros (x & Hx & Hb). exfalso. cbn in Hx.
    apply lookup_insert_Some in Hx as [[<- <-]|[_ Hx]]; [by destruct i|].
    apply lookup_insert_Some in Hx as [[<- <-]|[_ Hx]]; [by destruct i|].
    apply lookup_insert_Some in Hx as [[<- <-]|[_ Hx]]; [by destruct i|]. by rewrite lookup_empty in Hx.
  - intros i. constructor.
  - done.
Qed.

Lemma step_wf d d' : dict_wf d → dict_step d d' → dict_wf d'.
Proof.
  intros Hwf Hst. revert Hwf. destruct Hst as [d data parent d' r Hs Hn|d o d' Hd Hn]; intros Hwf.
  - destruct (dict_new_result _ _ _ Hwf Hs) as (d2 & r2 & Hn2 & Hwf2 & _). congruence.
  - pose proof (delete_result _ (Some o) Hwf) as H. destruct (verify_object _ _); [|congruence].
    destruct H as (p & [= <-] & [(i & _ & _ & He)|(d2 & Hd2 & _ & _ & Hwf2)]); [congruence|].
    rewrite Hn in Hd2. injection Hd2 as <-. by apply Hwf2.
Qed.

Lemma reachable_wf d : rtc dict_step fd_dict_init d → dict_wf d.
Proof.
  assert (∀ a b, rtc dict_step a b → dict_wf a → dict_wf b) as H; [|intros; eapply H; [done|apply init_wf]].
  induction 1; [done|]. intros. eapply IHrtc, step_wf; done.
Qed.

Lemma vendorid_list_ok d :
  dict_wf d →
  ∃ ids, fd_dict_get_vendorid_list d = Ok (ids ++ [0]) ∧ Increasing Z.sub ids ∧
    ∀ id, id ∈ ids ↔ id ≠ 0 ∧ ∃ o n, data_of d o = Some (VendorData id n).
Proof.
  intros Hwf. set (id_of := λ o, match obj_key d Vendors o with KZ i => i | _ => 0 end).
  assert (∀ o, o ∈ lists d Vendors → ∃ id n p h, objs d !! o = Some (DictObject (VendorData id n) p h) ∧ id_of o = id ∧ id ≠ 0) as Hv.
  { intros o ([[id n| | | | | |] p h] & Hx & Hb)%(wf_mem d Hwf); try done. exists id, n, p, h. split; [done|].
    unfold id_of, obj_key. rewrite Hx. split; [done|]. intros ->. pose proof (wf_obj d Hwf _ _ Hx) as Hok. cbn in Hok.
    by apply Hb, Hok. }
  exists (id_of <$> lists d Vendors). split_and!.
  - unfold fd_dict_get_vendorid_list.
    assert (mapR (λ o, let* x := deref d o in match o_data x with VendorData i _ => Ok i | _ => Crash end) (lists d Vendors)
            = Ok (id_of <$> lists d Vendors)) as ->.
    { apply mapR_ok, Forall2_fmap_r, Forall_Forall2_diag, Forall_forall. intros o (id & n & p & h & Hx & Hi & _)%Hv.
      unfold deref. rewrite Hx. cbn. by rewrite Hi. }
    cbn [res_bind]. destruct (wf_count d Hwf) as [-> _]. unfold zlen. rewrite length_fmap, bool_decide_true by lia.
    do 2 f_equal. by replace (Z.of_nat (length (lists d Vendors)) + 1 - Z.of_nat (length (lists d Vendors))) with 1 by lia.
  - pose proof (wf_order d Hwf Vendors) as Hs. revert Hv. induction Hs as [|o l Hs IH Ho]; intros Hv; [constructor|].
    rewrite fmap_cons. constructor; [apply IH; intros; apply Hv; by right|]. rewrite Forall_forall in Ho. apply Forall_forall.
    intros i (o' & -> & Ho')%list_elem_of_fmap. specialize (Ho o' Ho'). cbn beta in Ho.
    destruct (Hv o) as (i1 & n1 & p1 & h1 & Hx1 & H1 & _); [by left|].
    destruct (Hv o') as (i2 & n2 & p2 & h2 & Hx2 & H2 & _); [by right|]. rewrite H1, H2. unfold obj_key in Ho.
    rewrite Hx1, Hx2 in Ho. cbn in Ho. order_cases; lia.
  - intros id. rewrite list_elem_of_fmap. split.
    + intros (o & -> & (i & n & p & h & Hx & <- & Hi)%Hv). split; [done|]. exists o, n. apply data_of_some. by eexists _, _.
    + intros (Hi & o & n & (p & h & Hx)%data_of_some). exists o. unfold id_of, obj_key. rewrite Hx. split; [done|].
      apply (wf_mem d Hwf). eexists. split; [done|]. intros ->. apply (wf_obj d Hwf) in Hx. cbn in Hx. by apply Hi, Hx.
Qed.

(** C28: In every dictionary that creations and deletions of unreferenced
    objects produce from the initial one, the lists of the dictionary are
    ordered, hold exactly the objects that belong to them and are counted;
    every keyed search finds the one object of its key, or NULL when there is
    none, and the answer of a request is found behind it; and the array of the
    vendor identifiers is increasing and ends with 0. *)
Theorem dict_reachable_wf d :
  rtc dict_step fd_dict_init d →
  dict_wf d ∧ search_results d ∧
  ∃ ids, fd_dict_get_vendorid_list d = Ok (ids ++ [0]) ∧ Increasing Z.sub ids ∧
    ∀ id, id ∈ ids ↔ id ≠ 0 ∧ ∃ o n, data_of d o = Some (VendorData id n).
Proof.
  intros Hwf%reachable_wf. split; [done|]. split; [by apply search_results_ok|by apply vendorid_list_ok].
Qed.

(** C29: [fd_dict_new] does not abort on a well-formed dictionary, and leaves a
    well-formed one: it creates the object when the parameters are valid and no
    key of the new object is in a list yet; it reports an element of one of the
    keys otherwise, as a conflict only when the data differ; and it returns
    [EINVAL], without a change, exactly when the parameters are not valid. *)
Theorem fd_dict_new_spec d data parent :
  dict_wf d → suits d data parent →
  ∃ d' r, fd_dict_new d data parent = Ok (d', r) ∧ dict_wf d' ∧ new_post d data parent d' r.
Proof. apply dict_new_result. Qed.

(** [fd_dict_delete] refuses an object that is not valid or whose own lists
    are not empty; it takes any other one out of all lists, and leaves a
    well-formed dictionary when no AVP has it for type and no rule is on it. *)
Theorem fd_dict_delete_spec d o :
  dict_wf d →
  match verify_object d o with
  | None => fd_dict_delete d o = Err EINVAL
  | Some x =>
      ∃ p, o = Some p ∧
      ((∃ i, i ∈ own_lists p (o_data x) ∧ lists d i ≠ [] ∧ fd_dict_delete d o = Err EINVAL) ∨
       ∃ d', fd_dict_delete d o = Ok d' ∧ objs d' = delete p (objs d) ∧ (∀ i, lists d' i = filter (λ q, q ≠ p) (lists d i)) ∧
             (deletable d p → dict_wf d'))
  end.
Proof. apply delete_result. Qed.

(** ** Examples *)

Module Examples.
Definition build1 (d : dictionary) (c : dict_data * option obj) : dictionary :=
  match fd_dict_new d c.1 c.2 with Ok (d', _) => d' | _ => d end.

(** A vendor (3), a type (4) with a value (5), an AVP of the type (6), a
    command and its answer (7, 8), a rule on the AVP (9), a grouped AVP (10). *)
Definition creations : list (dict_data * option obj) :=
  [(VendorData 10415 [51], None); (TypeData (DictTypeData AVP_TYPE_UNSIGNED32 [69] None None None None), Some dict_applications);
   (EnumvalData [79; 75] (NUM 1), Some 4%nat);
   (AvpData (DictAvpData 1000 10415 [82] 192 192 AVP_TYPE_UNSIGNED32), Some 4%nat);
   (CommandData (DictCmdData 257 [67; 82] 224 128), Some dict_applications);
   (CommandData (DictCmdData 257 [67; 65] 160 0), Some dict_applications);
   (RuleData (DictRuleData 6 RULE_REQUIRED 0 (-1) (-1)), Some 7%nat);
   (AvpData (DictAvpData 260 0 [86] 192 64 AVP_TYPE_GROUPED), None)].

Definition d0 : dictionary := foldl build1 fd_dict_init creations.

Lemma build1_step d data parent :
  dict_wf d → suits d data parent → dict_step d (build1 d (data, parent)).
Proof.
  intros Hwf Hs. destruct (dict_new_result d data parent Hwf Hs) as (d' & r & Hn & _).
  apply (step_new _ data parent _ r Hs). unfold build1. cbn [fst snd]. by rewrite Hn.
Qed.

Definition suits_all (d : dictionary) (l : list (dict_data * option obj)) : Prop :=
  ∀ l1 c l2, l = l1 ++ c :: l2 → suits (foldl build1 d l1) c.1 c.2.

Lemma build_reach d l : dict_wf d → suits_all d l → rtc dict_step d (foldl build1 d l).
Proof.
  revert d. induction l as [|[data parent] l IH]; intros d Hwf Hs; [apply rtc_refl|]. cbn [foldl].
  pose proof (build1_step d data parent Hwf (Hs [] _ l eq_refl)) as Hstep.
  eapply rtc_l; [done|]. apply IH; [by eapply step_wf|]. intros l1 c l2 ->. by apply (Hs ((data, parent) :: l1) c l2).
Qed.

Lemma d0_suits : suits_all fd_dict_init creations.
Proof.
  intros l1 c l2 E. unfold creations in E.
  repeat (destruct l1 as [|? l1]; [injection E as <- <-; try exact I|injection E as <- E]); [|by destruct l1].
  exists 4%nat. split; [done|]. intros t [= <-]. by eexists.
Qed.

Lemma d0_reach : rtc dict_step fd_dict_init d0.
Proof. apply build_reach; [apply init_wf|apply d0_suits]. Qed.

Example d0_search : search_avp d0 (AVP_BY_CODE_AND_VENDOR 1000 10415) = Ok (Some 6%nat).
Proof. vm_compute. reflexivity. Qed.

Lemma dict_reachable_wf_witness :
  rtc dict_step fd_dict_init d0 ∧ search_cmd d0 (CMD_ANSWER (Some 7%nat)) = Ok (Some 8%nat) ∧ dict_wf d0.
Proof. split; [apply d0_reach|]. split; [vm_compute; reflexivity|]. apply (dict_reachable_wf d0 d0_reach). Defined.

Lemma fd_dict_new_witness :
  ∃ d' r, fd_dict_new d0 (EnumvalData [78] (NUM 1)) (Some 4%nat) = Ok (d', r) ∧ dict_wf d' ∧ r = Conflict 5%nat.
Proof.
  destruct (fd_dict_new_spec d0 (EnumvalData [78] (NUM 1)) (Some 4%nat)) as (d' & r & Hn & Hwf & _).
  - apply reachable_wf, d0_reach.
  - exists 4%nat. split; [reflexivity|]. vm_compute. intros t [= <-]. by eexists.
  - exists d', r. split; [done|]. split; [done|].
    assert (snd <$> (match fd_dict_new d0 (EnumvalData [78] (NUM 1)) (Some 4%nat) with Ok x => Some x | _ => None end)
            = Some (Conflict 5%nat)) as E by (vm_compute; reflexivity).
    rewrite Hn in E. by injection E.
Defined.

(** The type 4 has a value; the rule 9 can be deleted. *)
Lemma fd_dict_delete_witness :
  fd_dict_delete d0 (Some 4%nat) = Err EINVAL ∧ ∃ d', fd_dict_delete d0 (Some 9%nat) = Ok d' ∧ lists d' (List2 7%nat) = [].
Proof.
  split; [vm_compute; reflexivity|].
  pose proof (fd_dict_delete_spec d0 (Some 9%nat) (reachable_wf _ d0_reach)) as H.
  assert (∃ x, verify_object d0 (Some 9%nat) = Some x ∧ own_lists 9 (o_data x) = [List1 9%nat; List2 9%nat]) as (x & Hx & Ho).
  { eexists. split; vm_compute; reflexivity. }
  rewrite Hx in H. destruct H as (p & [= <-] & [(i & Hi & Hne & _)|(d' & Hd & _ & Hl & _)]).
  - exfalso. apply Hne. rewrite Ho in Hi. apply elem_of_cons in Hi as [->|Hi%list_elem_of_singleton]; [|subst i]; vm_compute; reflexivity.
  - exists d'. split; [done|]. rewrite (Hl (List2 7%nat)). vm_compute. reflexivity.
Defined.

(** The AVP 6 can be deleted although the rule 9 is on it; the search for a rule
    then reads the freed object. *)
Example delete_dangling :
  match fd_dict_delete d0 (Some 6%nat) with
  | Ok d' => search_rule d' (Some 10%nat) (Some 7%nat)
  | _ => Ok None
  end = Crash.
Proof. vm_compute. reflexivity. Qed.
End Examples.
