(* ===== verification/DictMsg.v ===== *)
(** * The dictionary behind the interfaces of the messages and of the dispatch

    The well-formed dictionaries implement [MsgDictionary] and [DispDictionary]:
    each search of [messages.c] and [dispatch.c], with the criterion, the data
    and the code for "not found" that the caller passes; and they satisfy the
    laws the theorems on messages rely on. *)

From stdpp Require Import functions base list gmap.
From Stdlib Require Import ZArith Lia.
From S2P Require Import Prelude Ostr DictTypes Dict DictSpec.

Record wf_dictionary := WfDictionary { the_dict : dictionary; the_wf : dict_wf the_dict }.

(** The [type_check] callbacks behind their handles. *)
Class TypeCheckers := call_checker : nat → avp_value → option errno.

Definition found (r : res (option obj)) : option obj := match r with Ok x => x | _ => None end.

Definition avp_data_of (d : dictionary) (o : obj) : option dict_avp_data :=
  match data_of d o with Some (AvpData a) => Some a | _ => None end.
Definition cmd_data_of (d : dictionary) (o : obj) : option dict_cmd_data :=
  match data_of d o with Some (CommandData c) => Some c | _ => None end.

Definition struct_request (vendor code : Z) : dict_avp_request_ex := DictAvpRequestEx None vendor None code None.

(** The check of the derived type of an AVP. *)
Definition derived_check `{!TypeCheckers} (d : dictionary) (o : obj) (v : avp_value) : option errno :=
  match fd_dict_search None None (search_type d (TYPE_OF_AVP (Some o))) with
  | Ok (Some t) =>
      match fd_dict_getval d (Some t) with
      | Ok (TypeData t) => match type_checker t with Some h => call_checker h v | None => None end
      | _ => None
      end
  | _ => None
  end.

#[export] Instance dict_messages `{!TypeCheckers} : MsgDictionary wf_dictionary := {
  avp_data d := avp_data_of (the_dict d);
  cmd_data d := cmd_data_of (the_dict d);
  avp_by_code d code := fd_dict_search None None (search_avp (the_dict d) (AVP_BY_CODE code));
  avp_by_struct d vendor code := fd_dict_search None None (search_avp (the_dict d) (AVP_BY_STRUCT (struct_request vendor code)));
  avp_by_name d name := fd_dict_search None (Some ENOENT) (search_avp (the_dict d) (AVP_BY_NAME name));
  cmd_by_code d r code := found (search_cmd (the_dict d) (if r : bool then CMD_BY_CODE_R code else CMD_BY_CODE_A code));
  cmd_answer d o :=
    match fd_dict_search None (Some EINVAL) (search_cmd (the_dict d) (CMD_ANSWER (Some o))) with
    | Ok (Some a) => Ok a | Ok None => Err EINVAL | Err e => Err e | Crash => Crash
    end;
  error_cmd d := dict_cmd_error;
  type_check d := derived_check (the_dict d);
  dict_rules d o := fd_dict_iterate_rules (the_dict d) (Some o);
  cmd_application d o :=
    match found (search_application (the_dict d) (APPLICATION_OF_COMMAND (Some o))) with
    | Some a => match data_of (the_dict d) a with Some (ApplicationData i _) => i | _ => 0 end
    | None => 0
    end }.

#[export] Instance dict_dispatch : DispDictionary wf_dictionary := {
  object_type d o := type_of <$> data_of (the_dict d) o;
  type_of_enumval d o := found (fd_dict_search None (Some EINVAL) (search_type (the_dict d) (TYPE_OF_ENUMVAL (Some o))));
  type_of_avp d o := found (fd_dict_search None None (search_type (the_dict d) (TYPE_OF_AVP (Some o))));
  application_by_id d i := found (fd_dict_search None None (search_application (the_dict d) (APPLICATION_BY_ID i)));
  enumval_by_value d t v :=
    fd_dict_search None None (search_enumval (the_dict d) (DictEnumvalRequest (Some t) None None v)) }.

(** ** The laws *)

Lemma finds_search r P o : finds r P → fd_dict_search None None r = Ok (Some o) → P o.
Proof. intros (x & -> & Hx). destruct x as [x|]; [|done]. intros [= ->]. by apply Hx. Qed.

Lemma finds_safe r P old e : finds r P → fd_dict_search old e r ≠ Crash.
Proof. intros ([x|] & -> & _); [done|]. by destruct e. Qed.

Lemma avp_data_found d o a : data_of d o = Some (AvpData a) → avp_data_of d o = Some a.
Proof. unfold avp_data_of. by intros ->. Qed.

Section laws.
Context (d : dictionary) (Hwf : dict_wf d).

Lemma avp_code_zero_finds code :
  finds (search_avp d (AVP_BY_CODE code)) (λ o, ∃ a, data_of d o = Some (AvpData a) ∧ a_code a = code ∧ a_vendor a = 0).
Proof. destruct (vendors_data d Hwf) as [n Hn]. by eapply avp_code_finds. Qed.

(** [AVP_BY_STRUCT] finds the AVP, or fails on a vendor or a code that is 0. *)
Lemma avp_struct_finds vendor code :
  if decide (vendor = 0 ∨ code = 0) then
    search_avp d (AVP_BY_STRUCT (struct_request vendor code)) = Err EINVAL
  else finds (search_avp d (AVP_BY_STRUCT (struct_request vendor code)))
         (λ o, ∃ a, data_of d o = Some (AvpData a) ∧ a_code a = code ∧ a_vendor a = vendor).
Proof.
  cbn [search_avp]. unfold search_avp_struct, struct_request.
  cbn [req_vendor req_vendor_id req_vendor_name req_code req_name].
  rewrite (bool_decide_false (is_Some None)) by (by intros []). cbn [orb]. rewrite !orb_false_r.
  case_decide as Hz.
  - destruct (decide (vendor = 0)) as [->|Hv]; [done|]. destruct Hz as [|Hc]; [done|].
    rewrite bool_decide_true by done. by rewrite (bool_decide_false (code ≠ 0)) by auto.
  - rewrite !bool_decide_true by (try done; intros ->; naive_solver). rewrite decide_True by (intros ->; naive_solver).
    apply (by_vendor_finds d Hwf vendor (λ v, if decide (code ≠ 0) then search_avp_code d code v else Err EINVAL)
             (λ a, a_code a = code)).
    intros v n Hv. rewrite decide_True by (intros ->; naive_solver). by eapply avp_code_finds.
Qed.

(** The rules of an object that can have some. *)
Lemma iterate_rules_ok o x : data_of d o = Some x → has_rules x = true → is_ok (fd_dict_iterate_rules d (Some o)).
Proof.
  intros (p & h & Ho)%data_of_some Hr. unfold fd_dict_iterate_rules, verify_object. rewrite Ho. cbn [o_data]. rewrite Hr.
  assert (∀ q, q ∈ lists d (List2 o) → ∃ r p h, objs d !! q = Some (DictObject (RuleData r) p h)) as Hl.
  { intros q ([y p' h'] & Hq & Hb)%(wf_mem d Hwf). pose proof (wf_obj d Hwf q _ Hq) as Hok.
    unfold obj_ok, belongs, base_of in *. cbn in *. destruct y; try done; [| |by eexists _, _, _]; exfalso.
    - destruct Hok as (w & t & k & Hw & Ht & _). rewrite Hb in Hw. injection Hw as <-. rewrite Ho in Ht. by destruct x.
    - destruct Hok as [(v & n & p2 & h2 & Hh & Hv) _]. by simplify_eq. }
  induction (lists d (List2 o)) as [|q l IH]; [by eexists|]. destruct (Hl q) as (r & p2 & h2 & Hq); [by left|].
  destruct IH as [rs Hrs]; [intros; apply Hl; by right|]. exists (r :: rs). cbn [mapR].
  unfold deref at 1. rewrite Hq. cbn. by rewrite Hrs.
Qed.
End laws.

(** The laws the theorems on messages rely on. *)
#[export] Instance dict_messages_laws `{!TypeCheckers} : MsgDictionaryLaws wf_dictionary.
Proof.
  split; intros [d Hwf]; cbn [the_dict avp_by_code avp_by_struct avp_data cmd_by_code cmd_data dict_rules error_cmd dict_messages].
  - intros code o (a & Ha & Hc & Hv)%(finds_search _ _ _ (avp_code_zero_finds d Hwf code)). exists a. by rewrite (avp_data_found d o a).
  - intros vendor code o Hfo. pose proof (avp_struct_finds d Hwf vendor code) as Hs. case_decide.
    + by rewrite Hs in Hfo.
    + destruct (finds_search _ _ _ Hs Hfo) as (a & Ha & Hc & Hv). exists a. by rewrite (avp_data_found d o a).
  - intros r code o Hf.
    destruct (cmd_by_code_finds d Hwf code (if r then CMD_FLAG_REQUEST else 0)) as (x & Hx & Hxo).
    assert (x = Some o) as ->.
    { revert Hf. destruct r; cbn [search_cmd]; rewrite Hx; done. }
    destruct (proj1 (Hxo o) eq_refl) as (_ & c & Hc & Hcode & Hfl). exists c. unfold cmd_data_of. rewrite Hc.
    split; [done|]. split; [done|]. unfold has. rewrite Hfl. by destruct r.
  - intros code. apply (finds_safe _ _ _ _ (avp_code_zero_finds d Hwf code)).
  - intros vendor code. pose proof (avp_struct_finds d Hwf vendor code) as Hs. case_decide; [by rewrite Hs|].
    apply (finds_safe _ _ _ _ Hs).
  - intros o [c Hc]. unfold cmd_data_of in Hc. destruct (data_of d o) as [[]|] eqn:E; try done. by eapply iterate_rules_ok.
  - intros o a Ha Hg. unfold avp_data_of in Ha. destruct (data_of d o) as [[]|] eqn:E; try done. injection Ha as ->.
    eapply iterate_rules_ok; [done..|]. cbn. by rewrite Hg.
  - destruct (wf_base d Hwf) as (_ & _ & He). eapply iterate_rules_ok; [done|unfold data_of; rewrite He; reflexivity|done].
Qed.

(** ** What the interface finds *)

Lemma finds_null r P : finds r P → finds (fd_dict_search None None r) P.
Proof. intros (x & -> & Hx). exists x. split; [|done]. by destruct x. Qed.

Lemma avp_data_iff d o a : avp_data_of d o = Some a ↔ data_of d o = Some (AvpData a).
Proof. unfold avp_data_of. destruct (data_of d o) as [[]|]; split; congruence. Qed.
Lemma cmd_data_iff d o c : cmd_data_of d o = Some c ↔ data_of d o = Some (CommandData c).
Proof. unfold cmd_data_of. destruct (data_of d o) as [[]|]; split; congruence. Qed.

(** An object that is a rule on [o]. *)
Definition rule_on (d : dictionary) (o q : obj) (r : dict_rule_data) : Prop :=
  ∃ h, objs d !! q = Some (DictObject (RuleData r) (Some o) h).

Section exact.
Context `{!TypeCheckers} (d : dictionary) (Hwf : dict_wf d).
Let D : wf_dictionary := WfDictionary d Hwf.

(** The AVPs and the commands of a key, as the interface shows them; the command
    that stands for errors is not looked up. *)
Definition is_avp (vendor code : Z) (o : obj) : Prop :=
  ∃ a, avp_data D o = Some a ∧ a_code a = code ∧ a_vendor a = vendor.
Definition is_cmd (r : bool) (code : Z) (o : obj) : Prop :=
  o ≠ error_cmd D ∧ ∃ c, cmd_data D o = Some c ∧ c_code c = code ∧ has (c_flag_val c) CMD_FLAG_REQUEST = r.

Lemma is_avp_iff vendor code o :
  (∃ a, data_of d o = Some (AvpData a) ∧ a_code a = code ∧ a_vendor a = vendor) ↔ is_avp vendor code o.
Proof. unfold is_avp. cbn [avp_data dict_messages the_dict D]. by setoid_rewrite avp_data_iff. Qed.

Lemma is_cmd_iff (r : bool) code o : is_command d code (if r then 128 else 0) o ↔ is_cmd r code o.
Proof.
  unfold is_command, is_cmd, has. cbn [cmd_data error_cmd dict_messages the_dict D]. setoid_rewrite cmd_data_iff.
  apply and_iff_compat_l. split; intros (c & Hc & Hco & Hf); exists c; (split; [done|]; split; [done|]).
  - rewrite Hf. by destruct r.
  - destruct (request_flag (c_flag_val c)) as [E|E]; rewrite E in Hf |- *; by destruct r.
Qed.

Lemma avp_by_code_exact code : finds (avp_by_code D code) (is_avp 0 code).
Proof. apply finds_null. eapply finds_ext; [apply is_avp_iff|]. by apply avp_code_zero_finds. Qed.

Lemma avp_by_struct_exact vendor code :
  if decide (vendor = 0 ∨ code = 0) then avp_by_struct D vendor code = Ok None
  else finds (avp_by_struct D vendor code) (is_avp vendor code).
Proof.
  pose proof (avp_struct_finds d Hwf vendor code) as Hs. cbn [avp_by_struct dict_messages the_dict D].
  case_decide; [by rewrite Hs|]. apply finds_null. by eapply finds_ext; [apply is_avp_iff|].
Qed.

Lemma cmd_by_code_exact r code o : cmd_by_code D r code = Some o ↔ is_cmd r code o.
Proof.
  rewrite <- is_cmd_iff. destruct (cmd_by_code_finds d Hwf code (if r then CMD_FLAG_REQUEST else 0)) as (x & Hx & Hxo).
  rewrite <- Hxo. cbn [cmd_by_code dict_messages the_dict D]. destruct r; cbn [search_cmd]; by rewrite Hx.
Qed.

Lemma cmd_answer_exact code o :
  is_cmd true code o →
  (∃ a, cmd_answer D o = Ok a ∧ is_cmd false code a) ∨ (cmd_answer D o = Err EINVAL ∧ ∀ a, ¬ is_cmd false code a).
Proof.
  intros Ho%is_cmd_iff. setoid_rewrite <- is_cmd_iff. cbn [cmd_answer dict_messages the_dict D].
  destruct (cmd_answer_finds d Hwf o code Ho) as [(a & -> & Ha)|[-> Hno]]; [left; by exists a|by right].
Qed.

Lemma dict_rules_exact o x :
  data_of d o = Some x → has_rules x = true →
  ∃ rs, dict_rules D o = Ok rs ∧ ∃ qs, NoDup qs ∧ (∀ q, q ∈ qs ↔ ∃ r, rule_on d o q r) ∧ Forall2 (rule_on d o) qs rs.
Proof.
  intros Hx Hr. destruct (iterate_rules_ok d Hwf o x Hx Hr) as [rs Hrs]. exists rs.
  split; [exact Hrs|]. exists (lists d (List2 o)). split; [apply (Increasing_NoDup _ _ (wf_order d Hwf (List2 o)))|].
  pose proof Hx as (p & h & Ho)%data_of_some. unfold fd_dict_iterate_rules, verify_object in Hrs. rewrite Ho in Hrs.
  cbn [o_data] in Hrs. rewrite Hr in Hrs.
  assert (∀ q, q ∈ lists d (List2 o) → ∃ y, objs d !! q = Some y ∧ belongs (List2 o) q y) as Hl by (intros q; apply (wf_mem d Hwf)).
  assert (Forall2 (rule_on d o) (lists d (List2 o)) rs) as Hall.
  { revert rs Hrs. induction (lists d (List2 o)) as [|q l IH]; intros rs Hrs; [by injection Hrs as <-|].
    cbn [mapR] in Hrs. destruct (Hl q) as ([y p' h'] & Hq & Hb); [by left|]. unfold deref in Hrs at 1. rewrite Hq in Hrs.
    cbn [res_bind o_data] in Hrs. destruct y; try done. destruct_res. subst rs. constructor; [|apply IH; [intros; apply Hl; by right|done]].
    exists h'. unfold belongs in Hb. cbn in Hb. by subst. }
  split; [|done]. intros q. split.
  - intros [i Hi]%list_elem_of_lookup. destruct (Forall2_lookup_l _ _ _ _ _ Hall Hi) as (r & _ & Hon). by exists r.
  - intros (r & h' & Hq). apply (wf_mem d Hwf). by eexists.
Qed.
End exact.

(** C33: The well-formed dictionaries implement the interface that the theorems on
    messages rely on, exactly.  Each search returns an object if and only if one of
    its key exists: an AVP of the base vendor by its code; an AVP by vendor and
    code, except that with a vendor or a code 0 nothing is found; a request or an
    answer by its command code; the answer of a request, or EINVAL when the
    dictionary has none.  The rules of a command, of a grouped AVP and of the error
    command are exactly the rule objects under it, each once.  And no search reads
    a freed object ([MsgDictionaryLaws]). *)
Theorem dict_implements_messages `{!TypeCheckers} :
  MsgDictionaryLaws wf_dictionary ∧
  ∀ d Hwf, let D := WfDictionary d Hwf in
  (∀ code, finds (avp_by_code D code) (is_avp d Hwf 0 code)) ∧
  (∀ vendor code,
     if decide (vendor = 0 ∨ code = 0) then avp_by_struct D vendor code = Ok None
     else finds (avp_by_struct D vendor code) (is_avp d Hwf vendor code)) ∧
  (∀ r code o, cmd_by_code D r code = Some o ↔ is_cmd d Hwf r code o) ∧
  (∀ code o, is_cmd d Hwf true code o →
     (∃ a, cmd_answer D o = Ok a ∧ is_cmd d Hwf false code a) ∨
     (cmd_answer D o = Err EINVAL ∧ ∀ a, ¬ is_cmd d Hwf false code a)) ∧
  (∀ o x, data_of d o = Some x → has_rules x = true →
     ∃ rs, dict_rules D o = Ok rs ∧ ∃ qs, NoDup qs ∧ (∀ q, q ∈ qs ↔ ∃ r, rule_on d o q r) ∧ Forall2 (rule_on d o) qs rs).
Proof.
  split; [apply _|]. intros d Hwf D. split_and!.
  - by apply avp_by_code_exact.
  - by apply avp_by_struct_exact.
  - by apply cmd_by_code_exact.
  - by apply cmd_answer_exact.
  - by apply dict_rules_exact.
Qed.

(** ** Example *)

Module Examples.
Import DictSpec.Examples.

#[local] Instance no_checkers : TypeCheckers := λ _ _, None.

Lemma d0_wf : dict_wf d0.
Proof. apply reachable_wf, d0_reach. Qed.

(** The request 7 has the answer 8 and the rule 9. *)
Lemma dict_implements_witness :
  cmd_answer (WfDictionary d0 d0_wf) 7%nat = Ok 8%nat ∧ is_cmd d0 d0_wf true 257 7%nat ∧
  ∃ r qs, dict_rules (WfDictionary d0 d0_wf) 7%nat = Ok [r] ∧ (∀ q, q ∈ qs ↔ ∃ r, rule_on d0 7%nat q r) ∧ Forall2 (rule_on d0 7%nat) qs [r].
Proof.
  destruct dict_implements_messages as [_ H]. destruct (H d0 d0_wf) as (_ & _ & Hc & _ & Hr).
  split; [reflexivity|]. split; [apply Hc; vm_compute; reflexivity|].
  destruct (Hr 7%nat (CommandData (DictCmdData 257 [67; 82] 224 128)) eq_refl eq_refl) as (rs & Hrs & qs & _ & Hq & Hf).
  assert (∃ r, dict_rules (WfDictionary d0 d0_wf) 7%nat = Ok [r]) as [r E] by (vm_compute; eexists; reflexivity).
  exists r, qs. rewrite Hrs in E. injection E as ->. split; [exact Hrs|]. split; [exact Hq|exact Hf].
Defined.
End Examples.
