(* ===== verification/Sessions.v ===== *)
(** * Sessions ([libfdproto/sessions.c])

    The module state: the sessions (a heap of [struct session]), the lines of the
    hash table, the list of expiring sessions, the counters, and the handlers.
    Three functions release their locks before they are done with a session that
    others can reach, so they come in two steps, between which other threads run:
    the expiry thread ([exp_pick], [exp_destroy]), [fd_sess_fromsid] (linking,
    [drop_ref]) and [fd_sess_reclaim_msg] ([drop_ref], [fd_sess_reclaim]).  Every
    other function is one step: its critical sections nest in the order hash line,
    state list, expiry list.  What these functions do outside of them is made part
    of the step: the calls of the cleanup functions and [del_session], for a
    session that has been unlinked, so that no other call can find it; reading
    [is_destroyed] before the lock in [fd_sess_state_store]; and the hash lines
    that [fd_sess_handler_destroy] locks one after the other.  An access to a freed
    object, a NULL pointer or a failed [ASSERT] is a [Crash].  Allocation and locking
    do not fail. *)

From stdpp Require Import base sorting list gmap.
From Stdlib Require Import ZArith Lia.
From S2P Require Import Prelude Time Ostr OsHash.

(** ** State *)

Definition SESS_HASH_SIZE : Z := 12.
Definition SESS_DEFAULT_LIFETIME : Z := 2678400.

(** A state that an application registered, and its handler. *)
Record state := State { st_state : nat; st_hdl : nat }.

Record session_handler := SessionHandler { h_id : Z; h_opaque : nat }.

Record session := Session {
  s_sid : bytes; s_hash : Z; s_timeout : timespec; s_states : list state; s_msg_cnt : Z; s_is_destroyed : bool }.

Record module := Module_ {
  heap : gmap nat session; next_sess : nat;
  sess_hash : Z → list nat; exp_list : list nat; sess_cnt : Z;
  sid_h : Z; sid_l : Z;
  handlers : gmap nat session_handler; next_hdl : nat; hdl_id : Z }.

(** A call of the [cleanup] function of a handler. *)
Inductive event := Cleanup (hdl st : nat) (sid : bytes).

Definition H_MASK (hash : Z) : Z := Z.land hash (2 ^ SESS_HASH_SIZE - 1).

Definition deref (σ : module) (x : nat) : res session :=
  match heap σ !! x with Some s => Ok s | None => Crash end.

(** Updates of one part of the state. *)
Definition set_heap (h : gmap nat session) (σ : module) : module :=
  Module_ h (next_sess σ) (sess_hash σ) (exp_list σ) (sess_cnt σ) (sid_h σ) (sid_l σ) (handlers σ) (next_hdl σ) (hdl_id σ).
Definition set_line (f : Z → list nat) (σ : module) : module :=
  Module_ (heap σ) (next_sess σ) f (exp_list σ) (sess_cnt σ) (sid_h σ) (sid_l σ) (handlers σ) (next_hdl σ) (hdl_id σ).
Definition set_exp (l : list nat) (n : Z) (σ : module) : module :=
  Module_ (heap σ) (next_sess σ) (sess_hash σ) l n (sid_h σ) (sid_l σ) (handlers σ) (next_hdl σ) (hdl_id σ).

Definition put (x : nat) (s : session) (σ : module) : module := set_heap (<[x := s]> (heap σ)) σ.

Definition line_upd (i : Z) (g : list nat → list nat) (f : Z → list nat) : Z → list nat :=
  λ j, if decide (j = i) then g (f j) else f j.

Definition with_states (l : list state) (s : session) : session :=
  Session (s_sid s) (s_hash s) (s_timeout s) l (s_msg_cnt s) (s_is_destroyed s).
Definition with_msg_cnt (n : Z) (s : session) : session :=
  Session (s_sid s) (s_hash s) (s_timeout s) (s_states s) n (s_is_destroyed s).
Definition with_timeout (t : timespec) (s : session) : session :=
  Session (s_sid s) (s_hash s) t (s_states s) (s_msg_cnt s) (s_is_destroyed s).
Definition with_destroyed (b : bool) (s : session) : session :=
  Session (s_sid s) (s_hash s) (s_timeout s) (s_states s) (s_msg_cnt s) b.

(** [fd_sess_init]; [time] is the value of the clock. *)
Definition fd_sess_init (time : Z) : module := Module_ ∅ 0 (λ _, []) [] 0 (w32 time) 0 ∅ 0 0.

(** ** Handlers *)

Definition fd_sess_handler_create (σ : module) (opaque : nat) : module * nat :=
  let id := hdl_id σ + 1 in
  (Module_ (heap σ) (next_sess σ) (sess_hash σ) (exp_list σ) (sess_cnt σ) (sid_h σ) (sid_l σ)
     (<[next_hdl σ := SessionHandler id opaque]> (handlers σ)) (S (next_hdl σ)) id, next_hdl σ).

(** The id of the handler of a state. *)
Definition id_of (σ : module) (st : state) : res Z :=
  match handlers σ !! st_hdl st with Some h => Ok (h_id h) | None => Crash end.

(** The loop on the states of one session: the state that is taken out, if any,
    and the others. *)
Fixpoint take_state (σ : module) (id : Z) (l : list state) : res (option state * list state) :=
  match l with
  | [] => Ok (None, [])
  | st :: l =>
      let* i := id_of σ st in
      if decide (i < id) then
        let* (r, l') := take_state σ id l in Ok (r, st :: l')
      else if decide (i = id) then Ok (Some st, l)
      else Ok (None, st :: l)
  end.

(** The loop on the sessions of a hash line, with the events of the states that
    are moved to [deleted_states]. *)
Fixpoint destroy_line (hdl : nat) (id : Z) (l : list nat) (σ : module) : res (module * list event) :=
  match l with
  | [] => Ok (σ, [])
  | x :: l =>
      let* s := deref σ x in
      let* (r, sts) := take_state σ id (s_states s) in
      let* (σ, ev) := destroy_line hdl id l (put x (with_states sts s) σ) in
      Ok (σ, match r with Some st => Cleanup hdl (st_state st) (s_sid s) :: ev | None => ev end)
  end.

(** The loop on the [n] last lines of the table. *)
Fixpoint destroy_lines (hdl : nat) (id : Z) (n : nat) (i : Z) (σ : module) : res (module * list event) :=
  match n with
  | O => Ok (σ, [])
  | S n =>
      let* (σ, ev) := destroy_line hdl id (sess_hash σ i) σ in
      let* (σ, ev') := destroy_lines hdl id n (i + 1) σ in
      Ok (σ, ev ++ ev')
  end.

(** [fd_sess_handler_destroy]; the result is [*opaque]. *)
Definition fd_sess_handler_destroy (σ : module) (hdl : nat) : res (module * list event * nat) :=
  match handlers σ !! hdl with
  | None => Err EINVAL
  | Some del =>
      let* (σ, ev) := destroy_lines hdl (h_id del) (Z.to_nat (2 ^ SESS_HASH_SIZE)) 0 σ in
      Ok (Module_ (heap σ) (next_sess σ) (sess_hash σ) (exp_list σ) (sess_cnt σ) (sid_h σ) (sid_l σ)
            (delete hdl (handlers σ)) (next_hdl σ) (hdl_id σ), ev, h_opaque del)
  end.

(** ** Creation *)

(** [snprintf] of a number with [%u]. *)
Fixpoint dec (fuel : nat) (n : Z) : bytes :=
  match fuel with
  | O => []
  | S fuel => if decide (n < 10) then [48 + n] else dec fuel (n / 10) ++ [48 + n mod 10]
  end.
Definition print_u32 (n : Z) : bytes := dec 10 n.

(** The loop on the elements of a hash line, which is ordered by hash and sid:
    the elements before and from the position where the loop ends, or the
    session that was found. *)
Fixpoint hash_search (σ : module) (hash : Z) (sid : bytes) (l : list nat) : res ((list nat * list nat) + nat) :=
  match l with
  | [] => Ok (inl ([], []))
  | x :: l' =>
      let* s := deref σ x in
      let continue :=
        let* r := hash_search σ hash sid l' in
        Ok (match r with inl (a, b) => inl (x :: a, b) | inr y => inr y end) in
      if decide (s_hash s < hash) then continue
      else if decide (s_hash s > hash) then Ok (inl ([], l))
      else
        let cmp := fd_os_cmp_int (s_sid s) sid in
        if decide (cmp < 0) then continue
        else if decide (cmp > 0) then Ok (inl ([], l))
        else Ok (inr x)
  end.

Definition default_timeout (now : timespec) : timespec := TS (tv_sec now + SESS_DEFAULT_LIFETIME) (tv_nsec now).

(** [new_session]: no session for an empty string. *)
Definition new_session (sid : bytes) (hash : Z) (now : timespec) : option session :=
  if decide (sid = []) then None else Some (Session sid hash (default_timeout now) [] 0 false).

(** The loop on the list of expiring sessions in reverse order ([rl] is the
    reversed list). *)
Fixpoint exp_insert_last (σ : module) (x : nat) (t : timespec) (rl : list nat) : res (list nat) :=
  match rl with
  | [] => Ok [x]
  | y :: rl' =>
      let* s := deref σ y in
      if TS_IS_INFERIOR (s_timeout s) t then Ok (x :: rl)
      else let* r := exp_insert_last σ x t rl' in Ok (y :: r)
  end.

(** "We must insert in the expiry list": [fd_list_insert_after] aborts when the
    element is linked already. *)
Definition exp_insert (x : nat) (t : timespec) (σ : module) : res module :=
  assert! bool_decide (x ∉ exp_list σ) in
  let* r := exp_insert_last σ x t (rev (exp_list σ)) in
  Ok (set_exp (rev r) (w32 (sess_cnt σ + 1)) σ).

(** A string given by its memory and a length; the length 0 stands for [strlen]. *)
Definition sized (m : bytes) (len : Z) : res bytes :=
  if decide (len = 0) then cstr m
  else if decide (0 < len ≤ zlen m) then Ok (take (Z.to_nat len) m) else Crash.

Definition is_valid_os0 (os : bytes) : bool := forallb (λ b, negb (bool_decide (b = 0))) os.

Definition generated_sid (diamid : bytes) (high low : Z) (opt : option bytes) : bytes :=
  diamid ++ [59] ++ print_u32 high ++ [59] ++ print_u32 low ++
  match opt with Some o => [59] ++ o | None => [] end.

(** The checks of the parameters of [fd_sess_new]. *)
Definition new_diamid (diamid : option (bytes * Z)) : res (option bytes) :=
  match diamid with
  | None => Ok None
  | Some (m, len) =>
      let* s := sized m len in
      let* valid := fd_os_is_valid_DiameterIdentity m (zlen s) in
      check valid in Ok (Some s)
  end.

Definition new_opt (opt : option (bytes * Z)) : res (option bytes) :=
  match opt with
  | None => Ok None
  | Some (m, len) =>
      let* s := sized m len in
      if decide (len = 0) then Ok (Some s) else check is_valid_os0 s in Ok (Some s)
  end.

(** The sid, and the state of its counter. *)
Definition make_sid (σ : module) (diamid opt : option bytes) : bytes * module :=
  match diamid with
  | None => (default [] opt, σ)
  | Some d =>
      let low := w32 (sid_l σ + 1) in
      let high := if decide (low = 0) then w32 (sid_h σ + 1) else sid_h σ in
      (generated_sid d high low opt,
       Module_ (heap σ) (next_sess σ) (sess_hash σ) (exp_list σ) (sess_cnt σ) high low (handlers σ) (next_hdl σ) (hdl_id σ))
  end.

(** "Now find the place to add this object in the hash table": the session, and
    whether the function returns 0 (true) or [EALREADY]. *)
Definition link_session (σ : module) (now : timespec) (sid : bytes) : res (module * nat * bool) :=
  let hash := fd_os_hash 0 sid in
  let* r := hash_search σ hash sid (sess_hash σ (H_MASK hash)) in
  match r with
  | inl (a, b) =>
      match new_session sid hash now with
      | None => Err ENOMEM
      | Some s =>
          let x := next_sess σ in
          let σ := Module_ (<[x := with_msg_cnt 1 s]> (heap σ)) (S x)
                     (line_upd (H_MASK hash) (λ _, a ++ x :: b) (sess_hash σ)) (exp_list σ) (sess_cnt σ)
                     (sid_h σ) (sid_l σ) (handlers σ) (next_hdl σ) (hdl_id σ) in
          let* σ := exp_insert x (s_timeout s) σ in
          Ok (σ, x, true)
      end
  | inr x =>
      let* s := deref σ x in
      let s := with_msg_cnt (s_msg_cnt s + 1) s in
      if negb (s_is_destroyed s) then Ok (put x s σ, x, false)
      else
        let s := with_timeout (default_timeout now) (with_destroyed false s) in
        let* σ := exp_insert x (s_timeout s) (put x s σ) in
        Ok (σ, x, true)
  end.

Definition fd_sess_new (σ : module) (now : timespec) (diamid opt : option (bytes * Z)) : res (module * nat * bool) :=
  check bool_decide (is_Some diamid) || bool_decide (is_Some opt) in
  let* d := new_diamid diamid in
  let* o := new_opt opt in
  let '(sid, σ) := make_sid σ d o in
  link_session σ now sid.

(** The result: the session and [*new].  (The warning about NUL characters
    precedes the refusal of such a string by [fd_sess_new].) *)
Definition fd_sess_fromsid_msg (σ : module) (now : timespec) (sid : bytes) (len : Z) : res (module * nat * bool) :=
  fd_sess_new σ now None (Some (sid, len)).

(** [msg_cnt] is decreased under the lock of the session; with the value it had. *)
Definition drop_ref (σ : module) (x : nat) : res (module * Z) :=
  let* s := deref σ x in Ok (put x (with_msg_cnt (s_msg_cnt s - 1) s) σ, s_msg_cnt s).

(** The locks are released between the two parts. *)
Definition fd_sess_fromsid (σ : module) (now : timespec) (sid : bytes) (len : Z) : res (module * nat * bool) :=
  check bool_decide (len ≠ 0) in
  let* (σ, x, new) := fd_sess_fromsid_msg σ now sid len in
  let* (σ, _) := drop_ref σ x in
  Ok (σ, x, new).

Definition fd_sess_getsid (σ : module) (x : nat) : res bytes := let* s := deref σ x in Ok (s_sid s).

(** ** Timeouts *)

Fixpoint exp_insert_first (σ : module) (x : nat) (t : timespec) (l : list nat) : res (list nat) :=
  match l with
  | [] => Ok [x]
  | y :: l' =>
      let* s := deref σ y in
      if TS_IS_INFERIOR (s_timeout s) t then let* r := exp_insert_first σ x t l' in Ok (y :: r)
      else Ok (x :: l)
  end.

Definition fd_sess_settimeout (σ : module) (x : nat) (t : timespec) : res module :=
  let* s := deref σ x in
  let σ := put x (with_timeout t s) (set_exp (unlink x (exp_list σ)) (sess_cnt σ) σ) in
  let* l := exp_insert_first σ x t (exp_list σ) in
  Ok (set_exp l (sess_cnt σ) σ).

(** ** Destruction *)

Definition unlink_hash (x : nat) (s : session) (σ : module) : module :=
  set_line (line_upd (H_MASK (s_hash s)) (unlink x) (sess_hash σ)) σ.

(** [del_session] *)
Definition del_session (x : nat) (σ : module) : res module :=
  let* s := deref σ x in
  assert! bool_decide (s_states s = []) in
  let σ := unlink_hash x s σ in
  Ok (set_heap (delete x (heap σ)) (set_exp (unlink x (exp_list σ)) (sess_cnt σ) σ)).

(** [del_session_states], of a session or of a sid. *)
Definition del_session_states (σ : module) (sess : option nat) (sid : bytes) : res (module * list event) :=
  let* x :=
    match sess with
    | Some x => Ok (Some x)
    | None =>
        let hash := fd_os_hash 0 sid in
        let* r := hash_search σ hash sid (sess_hash σ (H_MASK hash)) in
        Ok (match r with inr x => Some x | inl _ => None end)
    end in
  match x with
  | None => Err EALREADY
  | Some x =>
      let* s := deref σ x in
      let σ := if decide (x ∈ exp_list σ) then set_exp (unlink x (exp_list σ)) (w32 (sess_cnt σ - 1)) σ else σ in
      let* ev := mapR (λ st, match handlers σ !! st_hdl st with
                             | Some _ => Ok (Cleanup (st_hdl st) (st_state st) sid) | None => Crash end) (s_states s) in
      let destroy_now := bool_decide (s_msg_cnt s = 0) in
      let s := with_states [] s in
      let* σ := if (destroy_now : bool) then del_session x (unlink_hash x s (put x s σ))
                else Ok (put x (with_destroyed true s) σ) in
      Ok (σ, ev)
  end.

Definition fd_sess_destroy (σ : module) (x : nat) : res (module * list event) :=
  let* s := deref σ x in del_session_states σ (Some x) (s_sid s).

(** [fd_sess_reclaim]: [sess_cnt] is left as it is. *)
Definition fd_sess_reclaim (σ : module) (x : nat) : res module :=
  let* s := deref σ x in
  if decide (s_states s = []) then
    let σ := set_exp (unlink x (exp_list σ)) (sess_cnt σ) σ in
    if decide (s_msg_cnt s = 0) then del_session x (unlink_hash x s σ)
    else Ok (put x (with_destroyed true s) σ)
  else Ok σ.

Definition fd_sess_ref_msg (σ : module) (x : nat) : res module :=
  let* s := deref σ x in Ok (put x (with_msg_cnt (s_msg_cnt s + 1) s) σ).

(** The locks are released between the two parts. *)
Definition fd_sess_reclaim_msg (σ : module) (x : nat) : res module :=
  let* (σ, reclaim) := drop_ref σ x in
  if decide (reclaim = 1) then fd_sess_reclaim σ x else Ok σ.

Definition fd_sess_getcount (σ : module) : Z := sess_cnt σ.

(** ** The expiry thread *)

(** The sid of the first session when it has expired; otherwise the thread
    waits. *)
Definition exp_pick (σ : module) (now : timespec) : res (option bytes) :=
  match exp_list σ with
  | [] => Ok None
  | first :: _ =>
      let* s := deref σ first in
      Ok (if TS_IS_INFERIOR now (s_timeout s) then None else Some (s_sid s))
  end.

(** The destruction; an error ends the thread, which aborts. *)
Definition exp_destroy (σ : module) (sid : bytes) : res (module * list event) :=
  match del_session_states σ None sid with Ok r => Ok r | _ => Crash end.

(** The loop, until the thread waits. *)
Fixpoint exp_fct (fuel : nat) (σ : module) (now : timespec) : res (module * list event) :=
  match fuel with
  | O => Err ETIMEDOUT
  | S fuel =>
      let* p := exp_pick σ now in
      match p with
      | None => Ok (σ, [])
      | Some sid =>
          let* (σ, ev) := exp_destroy σ sid in
          let* (σ, ev') := exp_fct fuel σ now in
          Ok (σ, ev ++ ev')
      end
  end.

(** ** States *)

Fixpoint insert_state (σ : module) (id : Z) (new : state) (l : list state) : res (option (list state)) :=
  match l with
  | [] => Ok (Some [new])
  | st :: l' =>
      let* i := id_of σ st in
      if decide (i < id) then
        let* r := insert_state σ id new l' in Ok (match r with Some r => Some (st :: r) | None => None end)
      else if decide (i = id) then Ok None
      else Ok (Some (new :: l))
  end.

Definition fd_sess_state_store (σ : module) (hdl x : nat) (st : nat) : res module :=
  match handlers σ !! hdl with
  | None => Err EINVAL
  | Some h =>
      let* s := deref σ x in
      check negb (s_is_destroyed s) in
      let* r := insert_state σ (h_id h) (State st hdl) (s_states s) in
      match r with Some l => Ok (put x (with_states l s) σ) | None => Err EALREADY end
  end.

(** The loop: [st] is the variable, which keeps the last element visited. *)
Fixpoint retrieve_loop (σ : module) (id : Z) (st : option state) (l : list state) : res (option state) :=
  match l with
  | [] => Ok st
  | y :: l =>
      let* i := id_of σ y in
      if decide (i > id) then Ok (Some y) else retrieve_loop σ id (Some y) l
  end.

Fixpoint remove_state (hdl : nat) (l : list state) : list state :=
  match l with
  | [] => []
  | st :: l => if decide (st_hdl st = hdl) then l else st :: remove_state hdl l
  end.

(** [*state]: NULL or the state, which is taken out of the list. *)
Definition fd_sess_state_retrieve (σ : module) (hdl x : nat) : res (module * option nat) :=
  match handlers σ !! hdl with
  | None => Err EINVAL
  | Some h =>
      let* s := deref σ x in
      let* r := retrieve_loop σ (h_id h) None (s_states s) in
      match r with
      | Some st =>
          if decide (st_hdl st = hdl) then Ok (put x (with_states (remove_state hdl (s_states s)) s) σ, Some (st_state st))
          else Ok (σ, None)
      | None => Ok (σ, None)
      end
  end.
