(* ===== verification/SessSpec.v ===== *)
(** * Sessions: invariant, functional behaviour, expiry

    The well-formedness of the session module, preserved by every function; the
    session of a Session-Id; the generated identifiers; the expiry thread. *)

From stdpp Require Import gmultiset.
From stdpp Require Import base sorting list gmap.
From Stdlib Require Import ZArith Lia.
From S2P Require Import Prelude Time Ostr OsHash Sessions.

(** ** The order of the hash lines *)

Definition sess_cmp (a b : Z * bytes) : Z := if decide (a.1 = b.1) then fd_os_cmp_int a.2 b.2 else a.1 - b.1.

#[export] Instance sess_cmp_order : CmpOrder sess_cmp.
Proof.
  split.
  - intros [h s]. unfold sess_cmp. rewrite decide_True by done. apply cmp_refl.
  - intros [h s] [h' s']. unfold sess_cmp. cbn [fst snd]. repeat case_decide; try lia. apply cmp_sym.
  - intros [h s] [h' s'] [h'' s'']. unfold sess_cmp. cbn [fst snd]. repeat case_decide; try lia. apply cmp_trans.
Qed.

Lemma sess_cmp_zero a b : sess_cmp a b = 0 → a = b.
Proof.
  destruct a as [h s], b as [h' s']. unfold sess_cmp. cbn [fst snd]. case_decide; [|lia].
  intros ->%fd_os_cmp_zero. by subst.
Qed.

Lemma sess_cmp_hash h h' s s' : h < h' → sess_cmp (h, s) (h', s') < 0.
Proof. intros. unfold sess_cmp. cbn [fst snd]. rewrite decide_False; lia. Qed.
Lemma sess_cmp_sid h s s' : sess_cmp (h, s) (h, s') = fd_os_cmp_int s s'.
Proof. unfold sess_cmp. by rewrite decide_True. Qed.

Definition skey (σ : module) (x : nat) : Z * bytes :=
  match heap σ !! x with Some s => (s_hash s, s_sid s) | None => (0, []) end.
Definition stime (σ : module) (x : nat) : timespec :=
  match heap σ !! x with Some s => s_timeout s | None => TS 0 0 end.
Definition hid (σ : module) (st : state) : Z :=
  match handlers σ !! st_hdl st with Some h => h_id h | None => 0 end.

(** ** The invariant *)

Record sess_ok (σ : module) (s : session) : Prop := {
  so_hash : s_hash s = fd_os_hash 0 (s_sid s);
  so_cnt : 0 ≤ s_msg_cnt s;
  so_destroyed : s_is_destroyed s = true → s_states s = [];
  so_order : StronglySorted (λ a b, hid σ a < hid σ b) (s_states s);
  so_hdl st : st ∈ s_states s → is_Some (handlers σ !! st_hdl st) }.

Record sess_wf (σ : module) : Prop := {
  sw_fresh x : is_Some (heap σ !! x) → (x < next_sess σ)%nat;
  sw_obj x s : heap σ !! x = Some s → sess_ok σ s;
  sw_line i x : x ∈ sess_hash σ i ↔ ∃ s, heap σ !! x = Some s ∧ H_MASK (s_hash s) = i;
  sw_line_order i : Increasing (λ x y, sess_cmp (skey σ x) (skey σ y)) (sess_hash σ i);
  sw_exp x : x ∈ exp_list σ ↔ ∃ s, heap σ !! x = Some s ∧ s_is_destroyed s = false;
  sw_nodup : NoDup (exp_list σ);
  sw_exp_order : by_date (stime σ) (exp_list σ);
  sw_hdl h hd : handlers σ !! h = Some hd → (h < next_hdl σ)%nat ∧ h_id hd ≤ hdl_id σ;
  sw_hdl_inj h h' hd hd' : handlers σ !! h = Some hd → handlers σ !! h' = Some hd' → h_id hd = h_id hd' → h = h' }.

Lemma sess_init_wf time : sess_wf (fd_sess_init time).
Proof.
  split; cbn.
  - intros x [s Hs]. by rewrite lookup_empty in Hs.
  - intros x s Hs. by rewrite lookup_empty in Hs.
  - intros i x. split; [by intros ?%not_elem_of_nil|]. intros (s & Hs & _). by rewrite lookup_empty in Hs.
  - intros i. constructor.
  - intros x. split; [by intros ?%not_elem_of_nil|]. intros (s & Hs & _). by rewrite lookup_empty in Hs.
  - constructor.
  - constructor.
  - intros h hd Hs. by rewrite lookup_empty in Hs.
  - intros h h' hd hd' Hs. by rewrite lookup_empty in Hs.
Qed.

(** [sess_ok] looks at the handlers only. *)
Lemma sess_ok_handlers σ σ' s : handlers σ = handlers σ' → sess_ok σ s → sess_ok σ' s.
Proof. intros Hh [H1 H2 H3 H4 H5]. split; try done; unfold hid in *; by rewrite <- Hh. Qed.

(** ** Changing one session *)

Section change.
Context (σ : module) (Hwf : sess_wf σ) (x : nat) (s : session) (Hx : heap σ !! x = Some s).

Lemma skey_put s' y : s_hash s' = s_hash s → s_sid s' = s_sid s → skey (put x s' σ) y = skey σ y.
Proof.
  intros Hh Hsid. unfold skey. cbn [heap put set_heap]. destruct (decide (y = x)) as [->|Hne].
  - by rewrite lookup_insert_eq, Hx, Hh, Hsid.
  - by rewrite lookup_insert_ne by done.
Qed.

Lemma stime_put s' y : y ≠ x → stime (put x s' σ) y = stime σ y.
Proof. intros Hne. unfold stime. cbn [heap put set_heap]. by rewrite lookup_insert_ne by done. Qed.

(** A session that keeps its identifier; [l] is the new list of expiring sessions. *)
Lemma change_wf s' l n :
  s_hash s' = s_hash s → s_sid s' = s_sid s → sess_ok σ s' →
  (∀ y, y ∈ l ↔ (y ≠ x ∧ y ∈ exp_list σ) ∨ (y = x ∧ s_is_destroyed s' = false)) → NoDup l →
  by_date (stime (put x s' σ)) l →
  sess_wf (set_exp l n (put x s' σ)).
Proof.
  intros Hh Hsid Hok Hl Hnd Hs.
  assert (∀ y z, heap (put x s' σ) !! y = Some z ↔ (y = x ∧ z = s') ∨ (y ≠ x ∧ heap σ !! y = Some z)) as Hlook.
  { intros y z. cbn [heap put set_heap]. destruct (decide (y = x)) as [->|Hne].
    - rewrite lookup_insert_eq. naive_solver.
    - rewrite lookup_insert_ne by done. naive_solver. }
  split; cbn [heap next_sess sess_hash exp_list handlers next_hdl hdl_id set_exp].
  - intros y [z Hz]. apply Hlook in Hz as [[-> ->]|[_ Hz]]; apply (sw_fresh σ Hwf); eauto.
  - intros y z [[-> ->]|[_ Hz]]%Hlook; [by apply (sess_ok_handlers σ)|].
    apply (sess_ok_handlers σ); [done|]. by eapply (sw_obj σ Hwf).
  - intros i y. rewrite (sw_line σ Hwf i y). split.
    + intros (z & Hz & Hi). destruct (decide (y = x)) as [->|Hne].
      * exists s'. split; [apply Hlook; by left|]. rewrite Hx in Hz. injection Hz as <-. by rewrite Hh.
      * exists z. split; [apply Hlook; by right|done].
    + intros (z & [[-> ->]|[_ Hz]]%Hlook & Hi); [exists s; split; [done|]; by rewrite <- Hh|by exists z].
  - intros i. refine (Increasing_ext _ _ _ _ (sw_line_order σ Hwf i)). intros y z _ _.
    f_equal; symmetry; by apply skey_put.
  - intros y. rewrite Hl, (sw_exp σ Hwf). split.
    + intros [(Hne & z & Hz & Hd)|[-> Hd]]; [exists z; split; [apply Hlook; by right|done]|exists s'; split; [apply Hlook; by left|done]].
    + intros (z & [[-> ->]|[Hne Hz]]%Hlook & Hd); [by right|left; split; [done|by exists z]].
  - done.
  - done.
  - apply (sw_hdl σ Hwf).
  - apply (sw_hdl_inj σ Hwf).
Qed.

Lemma put_wf s' :
  s_hash s' = s_hash s → s_sid s' = s_sid s → sess_ok σ s' → s_is_destroyed s' = s_is_destroyed s → s_timeout s' = s_timeout s →
  sess_wf (put x s' σ).
Proof.
  intros Hh Hsid Hok Hd Ht.
  assert (∀ y, stime (put x s' σ) y = stime σ y) as Hst.
  { intros y. destruct (decide (y = x)) as [->|Hne]; [|by apply stime_put]. unfold stime. cbn [heap put set_heap].
    by rewrite lookup_insert_eq, Hx. }
  apply (change_wf s' (exp_list σ) (sess_cnt σ)); [done..| | |].
  - intros y. rewrite Hd. destruct (decide (y = x)) as [->|Hne]; [|naive_solver].
    rewrite (sw_exp σ Hwf). naive_solver.
  - apply (sw_nodup σ Hwf).
  - refine (StronglySorted_ext _ _ _ _ (sw_exp_order σ Hwf)). intros y z _ _. by rewrite !Hst.
Qed.

(** A session leaves the list of expiring sessions. *)
Lemma retire_wf s' n :
  s_hash s' = s_hash s → s_sid s' = s_sid s → sess_ok σ s' → s_is_destroyed s' = true →
  sess_wf (set_exp (unlink x (exp_list σ)) n (put x s' σ)).
Proof.
  intros Hh Hsid Hok Hd. apply change_wf; [done..| | |].
  - intros y. rewrite elem_of_unlink, Hd. naive_solver.
  - apply NoDup_filter, (sw_nodup σ Hwf).
  - refine (StronglySorted_ext _ _ _ _ (StronglySorted_filter _ _ _ (sw_exp_order σ Hwf))).
    intros y z Hy Hz. apply elem_of_unlink in Hy as [Hy _], Hz as [Hz _]. by rewrite !stime_put.
Qed.

(** A session is freed; its caller and [del_session] both unlink it. *)
Definition freed (n : Z) : module :=
  set_heap (delete x (heap σ)) (set_exp (unlink x (unlink x (exp_list σ))) n
    (set_line (line_upd (H_MASK (s_hash s)) (unlink x) (line_upd (H_MASK (s_hash s)) (unlink x) (sess_hash σ))) σ)).

Lemma freed_lookup n y z : heap (freed n) !! y = Some z ↔ y ≠ x ∧ heap σ !! y = Some z.
Proof. cbn [heap freed set_heap]. rewrite lookup_delete_Some. naive_solver. Qed.

Lemma freed_line n i :
  sess_hash (freed n) i = if decide (i = H_MASK (s_hash s)) then unlink x (unlink x (sess_hash σ i)) else sess_hash σ i.
Proof. cbn. unfold line_upd. by case_decide. Qed.

Lemma freed_wf n : sess_wf (freed n).
Proof.
  assert (∀ y, y ≠ x → skey (freed n) y = skey σ y ∧ stime (freed n) y = stime σ y) as Hk.
  { intros y Hne. unfold skey, stime. cbn [heap freed set_heap]. by rewrite lookup_delete_ne. }
  assert (∀ i y, y ∈ sess_hash (freed n) i ↔ y ≠ x ∧ y ∈ sess_hash σ i) as Hline.
  { intros i y. rewrite freed_line. case_decide as Hi.
    - rewrite !elem_of_unlink. naive_solver.
    - split; [|naive_solver]. intros Hy. split; [|done]. intros ->. apply (sw_line σ Hwf) in Hy as (z & Hz & Hzi). naive_solver. }
  assert (∀ y, y ∈ exp_list (freed n) ↔ y ≠ x ∧ y ∈ exp_list σ) as Hexp.
  { intros y. cbn [exp_list freed set_heap set_exp]. rewrite !elem_of_unlink. naive_solver. }
  split; [..|apply (sw_hdl σ Hwf)|apply (sw_hdl_inj σ Hwf)].
  - intros y [z [_ Hz]%freed_lookup]. apply (sw_fresh σ Hwf). eauto.
  - intros y z [_ Hz]%freed_lookup. apply (sess_ok_handlers σ); [done|]. by eapply (sw_obj σ Hwf).
  - intros i y. rewrite Hline, (sw_line σ Hwf). split.
    + intros (Hne & z & Hz & Hi). exists z. split; [by apply freed_lookup|done].
    + intros (z & [Hne Hz]%freed_lookup & Hi). split; [done|by exists z].
  - intros i. assert (Increasing (λ a b, sess_cmp (skey σ a) (skey σ b)) (sess_hash (freed n) i)) as Hinc.
    { rewrite freed_line. case_decide; [do 2 apply Increasing_filter|]; apply (sw_line_order σ Hwf). }
    refine (Increasing_ext _ _ _ _ Hinc). intros y z Hy Hz. apply Hline in Hy as [Hy _], Hz as [Hz _].
    by rewrite (proj1 (Hk y Hy)), (proj1 (Hk z Hz)).
  - intros y. rewrite Hexp, (sw_exp σ Hwf). split.
    + intros (Hne & z & Hz & Hd). exists z. split; [by apply freed_lookup|done].
    + intros (z & [Hne Hz]%freed_lookup & Hd). split; [done|by exists z].
  - do 2 apply NoDup_filter. apply (sw_nodup σ Hwf).
  - refine (StronglySorted_ext _ _ _ _ (StronglySorted_filter _ _ _ (StronglySorted_filter _ _ _ (sw_exp_order σ Hwf)))).
    intros y z [Hy _]%Hexp [Hz _]%Hexp. by rewrite (proj2 (Hk y Hy)), (proj2 (Hk z Hz)).
Qed.
End change.

(** ** The search in a hash line *)

Lemma hash_search_spec σ h sid l :
  Increasing (λ x y, sess_cmp (skey σ x) (skey σ y)) l → (∀ x, x ∈ l → is_Some (heap σ !! x)) →
  ∃ r, hash_search σ h sid l = Ok r ∧
    match r with
    | inr x => x ∈ l ∧ skey σ x = (h, sid)
    | inl (a, b) => l = a ++ b ∧ Forall (λ y, sess_cmp (skey σ y) (h, sid) < 0) a ∧ Forall (λ y, sess_cmp (h, sid) (skey σ y) < 0) b
    end.
Proof.
  induction 1 as [|x l Hs IH Hx]; intros Hl; [by exists (inl ([], []))|]. cbn [hash_search].
  destruct (Hl x) as [s Es]; [by left|]. unfold deref. rewrite Es. cbn [res_bind].
  assert (skey σ x = (s_hash s, s_sid s)) as Hk by (unfold skey; by rewrite Es).
  destruct IH as (r & Hr & Hrs); [intros; apply Hl; by right|].
  assert (sess_cmp (skey σ x) (h, sid) < 0 →
    ∃ r, (let* r := hash_search σ h sid l in Ok (match r with inl (a, b) => inl (x :: a, b) | inr y => inr y end)) = Ok r ∧
      match r with
      | inr y => y ∈ x :: l ∧ skey σ y = (h, sid)
      | inl (a, b) => x :: l = a ++ b ∧ Forall (λ y, sess_cmp (skey σ y) (h, sid) < 0) a ∧
                      Forall (λ y, sess_cmp (h, sid) (skey σ y) < 0) b
      end) as Hcont.
  { intros Hlt. rewrite Hr. cbn [res_bind]. eexists. split; [done|]. destruct r as [[a b]|y].
    - destruct Hrs as (-> & Ha & Hb). split; [done|]. split; [by constructor|done].
    - destruct Hrs as [Hy Hyk]. split; [by right|done]. }
  assert (sess_cmp (h, sid) (skey σ x) < 0 →
    x :: l = [] ++ x :: l ∧ Forall (λ y, sess_cmp (skey σ y) (h, sid) < 0) [] ∧
    Forall (λ y, sess_cmp (h, sid) (skey σ y) < 0) (x :: l)) as Hstop.
  { intros Hgt. split; [done|]. split; [constructor|]. constructor; [done|]. rewrite Forall_forall in *.
    intros y Hy. eapply (cmp_lt_trans sess_cmp); [done|by apply Hx]. }
  rewrite Hk in Hcont, Hstop.
  destruct (decide (s_hash s < h)) as [H1|H1]; [by apply Hcont, sess_cmp_hash|].
  destruct (decide (s_hash s > h)) as [H2|H2]; [eexists; split; [done|]; apply Hstop, sess_cmp_hash; lia|].
  assert (s_hash s = h) as Hh by lia. rewrite Hh, sess_cmp_sid in Hcont. rewrite Hh, sess_cmp_sid in Hstop.
  destruct (decide (fd_os_cmp_int (s_sid s) sid < 0)) as [H3|H3]; [by apply Hcont|].
  destruct (decide (fd_os_cmp_int (s_sid s) sid > 0)) as [H4|H4].
  { eexists. split; [done|]. by apply Hstop, (cmp_sym (cmp:=fd_os_cmp_int)), Z.gt_lt. }
  exists (inr x). split; [done|]. split; [by left|]. rewrite Hk, Hh. f_equal. apply fd_os_cmp_zero. lia.
Qed.

(** The session of an identifier. *)
Definition is_session (σ : module) (sid : bytes) (x : nat) : Prop := ∃ s, heap σ !! x = Some s ∧ s_sid s = sid.

Lemma session_search σ sid :
  sess_wf σ →
  let hash := fd_os_hash 0 sid in
  ∃ r, hash_search σ hash sid (sess_hash σ (H_MASK hash)) = Ok r ∧
    match r with
    | inr x => is_session σ sid x ∧ ∀ y, is_session σ sid y → y = x
    | inl (a, b) => sess_hash σ (H_MASK hash) = a ++ b ∧ Forall (λ y, sess_cmp (skey σ y) (hash, sid) < 0) a ∧
                    Forall (λ y, sess_cmp (hash, sid) (skey σ y) < 0) b ∧ ∀ y, ¬ is_session σ sid y
    end.
Proof.
  intros Hwf hash.
  assert (∀ y, is_session σ sid y → y ∈ sess_hash σ (H_MASK hash) ∧ skey σ y = (hash, sid)) as His.
  { intros y (s & Hs & Hsid). pose proof (so_hash _ _ (sw_obj σ Hwf y s Hs)) as Hh. rewrite Hsid in Hh. split.
    - apply (sw_line σ Hwf). exists s. by rewrite Hh.
    - unfold skey. by rewrite Hs, Hh, Hsid. }
  destruct (hash_search_spec σ hash sid (sess_hash σ (H_MASK hash))) as (r & Hr & Hrs).
  - apply (sw_line_order σ Hwf).
  - intros x (s & Hs & _)%(sw_line σ Hwf). by eexists.
  - exists r. split; [done|]. destruct r as [[a b]|x].
    + destruct Hrs as (Hl & Ha & Hb). repeat (split; [done|]). intros y [Hy Hk]%His. rewrite Hl in Hy.
      rewrite Forall_forall in Ha, Hb. apply elem_of_app in Hy as [Hy|Hy]; [specialize (Ha y Hy)|specialize (Hb y Hy)];
        rewrite Hk, cmp_refl in *; lia.
    + destruct Hrs as [Hx Hk]. split.
      * apply (sw_line σ Hwf) in Hx as (s & Hs & _). exists s. split; [done|]. unfold skey in Hk. rewrite Hs in Hk. by injection Hk.
      * intros y [Hy Hky]%His. pose proof (CmpOrder_key sess_cmp (skey σ)).
        eapply (Increasing_inj (λ x y, sess_cmp (skey σ x) (skey σ y))); [apply (sw_line_order σ Hwf)|done..|].
        by rewrite Hk, Hky, cmp_refl.
Qed.

(** ** Insertion in the list of expiring sessions *)

Lemma exp_insert_last_spec σ x t rl :
  (∀ y, y ∈ rl → is_Some (heap σ !! y)) →
  ∃ a b, exp_insert_last σ x t rl = Ok (a ++ x :: b) ∧ rl = a ++ b ∧
    (∀ y, y ∈ a → ts_le t (stime σ y)) ∧ match b with [] => True | z :: _ => ts_lt (stime σ z) t end.
Proof.
  induction rl as [|y rl IH]; intros Hl; [by exists [], []; set_solver|]. cbn [exp_insert_last].
  destruct (Hl y) as [s Es]; [by left|]. unfold deref. rewrite Es. cbn [res_bind].
  assert (stime σ y = s_timeout s) as Hy by (unfold stime; by rewrite Es).
  destruct (TS_IS_INFERIOR (s_timeout s) t) eqn:E.
  - exists [], (y :: rl). split; [done|]. split; [done|]. split; [set_solver|]. rewrite Hy. by apply TS_IS_INFERIOR_true.
  - destruct IH as (a & b & -> & -> & Ha & Hb); [set_solver|]. exists (y :: a), b. split; [done|]. split; [done|].
    split; [|done]. intros z [->|Hz]%elem_of_cons; [|by apply Ha]. rewrite Hy. by apply TS_IS_INFERIOR_false.
Qed.

Lemma exp_insert_first_spec σ x t l :
  (∀ y, y ∈ l → is_Some (heap σ !! y)) →
  ∃ a b, exp_insert_first σ x t l = Ok (a ++ x :: b) ∧ l = a ++ b ∧
    (∀ y, y ∈ a → ts_lt (stime σ y) t) ∧ match b with [] => True | z :: _ => ts_le t (stime σ z) end.
Proof.
  induction l as [|y l IH]; intros Hl; [by exists [], []; set_solver|]. cbn [exp_insert_first].
  destruct (Hl y) as [s Es]; [by left|]. unfold deref. rewrite Es. cbn [res_bind].
  assert (stime σ y = s_timeout s) as Hy by (unfold stime; by rewrite Es).
  destruct (TS_IS_INFERIOR (s_timeout s) t) eqn:E.
  - destruct IH as (a & b & -> & -> & Ha & Hb); [set_solver|]. exists (y :: a), b. split; [done|]. split; [done|].
    split; [|done]. intros z [->|Hz]%elem_of_cons; [|by apply Ha]. rewrite Hy. by apply TS_IS_INFERIOR_true.
  - exists [], (y :: l). split; [done|]. split; [done|]. split; [set_solver|]. rewrite Hy. by apply TS_IS_INFERIOR_false.
Qed.

(** Both insertions, on a list that is ordered. *)
Lemma exp_insert_first_sorted σ x t l :
  (∀ y, y ∈ l → is_Some (heap σ !! y)) → by_date (stime σ) l → stime σ x = t →
  ∃ l', exp_insert_first σ x t l = Ok l' ∧ l' ≡ₚ x :: l ∧ by_date (stime σ) l'.
Proof.
  intros Hl Hs Ht. destruct (exp_insert_first_spec σ x t l Hl) as (a & b & -> & -> & Ha & Hb).
  eexists. split; [done|]. split; [symmetry; apply Permutation_middle|]. by eapply by_date_first.
Qed.

Lemma exp_insert_sorted σ x t :
  (∀ y, y ∈ exp_list σ → is_Some (heap σ !! y)) → x ∉ exp_list σ → by_date (stime σ) (exp_list σ) → stime σ x = t →
  ∃ l', exp_insert x t σ = Ok (set_exp l' (w32 (sess_cnt σ + 1)) σ) ∧ l' ≡ₚ x :: exp_list σ ∧ by_date (stime σ) l'.
Proof.
  intros Hl Hx Hs Ht. unfold exp_insert. rewrite bool_decide_true by done.
  destruct (exp_insert_last_spec σ x t (rev (exp_list σ))) as (a & b & -> & El & Ha & Hb).
  { intros y Hy. apply Hl. by rewrite list_elem_of_In, <- in_rev, <- list_elem_of_In in Hy. }
  cbn [res_bind]. eexists. split; [done|]. assert (exp_list σ = rev b ++ rev a) as Erev.
  { rewrite <- rev_app_distr, <- El. by rewrite rev_involutive. }
  rewrite rev_app_distr. cbn [rev]. rewrite <- app_assoc. cbn [app]. rewrite Erev in *. split.
  - symmetry. apply Permutation_middle.
  - by eapply by_date_last.
Qed.

(** ** Creation *)

(** The new session that [link_session] makes. *)
Definition fresh_session (sid : bytes) (now : timespec) : session :=
  Session sid (fd_os_hash 0 sid) (default_timeout now) [] 1 false.

Definition revived (s : session) (now : timespec) : session :=
  with_timeout (default_timeout now) (with_destroyed false (with_msg_cnt (s_msg_cnt s + 1) s)).

(** What creation does with the module: one session appears or changes. *)
Definition linked (σ : module) (now : timespec) (sid : bytes) (σ' : module) (x : nat) (new : bool) : Prop :=
  match heap σ !! x with
  | None => sid ≠ [] ∧ new = true ∧ (∀ y, ¬ is_session σ sid y) ∧ heap σ' = <[x := fresh_session sid now]> (heap σ)
  | Some s =>
      s_sid s = sid ∧ new = s_is_destroyed s ∧
      heap σ' = <[x := if s_is_destroyed s then revived s now else with_msg_cnt (s_msg_cnt s + 1) s]> (heap σ)
  end.

Section creation.
Context (σ : module) (Hwf : sess_wf σ) (now : timespec) (sid : bytes).
Local Notation hash := (fd_os_hash 0 sid).

Lemma revive_wf x s :
  heap σ !! x = Some s → s_is_destroyed s = true →
  ∃ σ', exp_insert x (s_timeout (revived s now)) (put x (revived s now) σ) = Ok σ' ∧ sess_wf σ' ∧
    heap σ' = <[x := revived s now]> (heap σ).
Proof.
  intros Hx Hd. set (s' := revived s now).
  assert (x ∉ exp_list σ) as Hnx by (intros (s2 & Hs2 & Hd2)%(sw_exp σ Hwf); congruence).
  destruct (exp_insert_sorted (put x s' σ) x (s_timeout s')) as (l & Hl & Hp & Hs).
  - intros y (s2 & Hs2 & _)%(sw_exp σ Hwf). cbn [heap put set_heap]. destruct (decide (y = x)) as [->|Hne].
    + rewrite lookup_insert_eq. by eexists.
    + rewrite lookup_insert_ne by done. by eexists.
  - done.
  - refine (StronglySorted_ext _ _ _ _ (sw_exp_order σ Hwf)). intros y z Hy Hz.
    by rewrite !stime_put by (intros ->; done).
  - unfold stime. cbn [heap put set_heap]. by rewrite lookup_insert_eq.
  - eexists. split; [done|]. split; [|done]. pose proof (sw_obj σ Hwf x s Hx) as [H1 H2 H3 H4 H5].
    apply (change_wf σ Hwf x s Hx); [done|done|split; try done; cbn; lia|..|done].
    + intros y. rewrite Hp, elem_of_cons. cbn [exp_list put set_heap]. destruct (decide (y = x)) as [->|Hne]; naive_solver.
    + rewrite Hp. constructor; [done|apply (sw_nodup σ Hwf)].
Qed.

Lemma create_wf a b :
  sid ≠ [] → (∀ y, ¬ is_session σ sid y) → sess_hash σ (H_MASK hash) = a ++ b →
  Forall (λ y, sess_cmp (skey σ y) (hash, sid) < 0) a → Forall (λ y, sess_cmp (hash, sid) (skey σ y) < 0) b →
  let x := next_sess σ in
  let σ1 := Module_ (<[x := fresh_session sid now]> (heap σ)) (S x)
              (line_upd (H_MASK hash) (λ _, a ++ x :: b) (sess_hash σ)) (exp_list σ) (sess_cnt σ)
              (sid_h σ) (sid_l σ) (handlers σ) (next_hdl σ) (hdl_id σ) in
  ∃ σ', exp_insert x (default_timeout now) σ1 = Ok σ' ∧ sess_wf σ' ∧ heap σ' = <[x := fresh_session sid now]> (heap σ).
Proof.
  intros Hsid Hno Hline Ha Hb x σ1.
  assert (heap σ !! x = None) as Hfr by (apply eq_None_not_Some; intros H%(sw_fresh σ Hwf); unfold x in H; lia).
  assert (∀ y, is_Some (heap σ !! y) → heap σ1 !! y = heap σ !! y ∧ stime σ1 y = stime σ y ∧ skey σ1 y = skey σ y) as Hold.
  { intros y [s Hs]. assert (y ≠ x) as Hne by congruence. unfold stime, skey. cbn [heap σ1].
    by rewrite lookup_insert_ne by done. }
  assert (∀ y, y ∈ exp_list σ → is_Some (heap σ !! y)) as Hexp by (intros y (s & Hs & _)%(sw_exp σ Hwf); by eexists).
  assert (∀ i y, y ∈ sess_hash σ i → is_Some (heap σ !! y)) as Hlin by (intros i y (s & Hs & _)%(sw_line σ Hwf); by eexists).
  assert (x ∉ exp_list σ) as Hnx by (intros [s Hs]%Hexp; congruence).
  assert (skey σ1 x = (hash, sid)) as Hkx by (unfold skey; cbn [heap σ1]; by rewrite lookup_insert_eq).
  destruct (exp_insert_sorted σ1 x (default_timeout now)) as (l & Hl & Hp & Hs).
  - intros y Hy%Hexp. by rewrite (proj1 (Hold y Hy)).
  - done.
  - refine (StronglySorted_ext _ _ _ _ (sw_exp_order σ Hwf)). intros y z Hy%Hexp Hz%Hexp.
    destruct (Hold y Hy) as (_ & -> & _), (Hold z Hz) as (_ & -> & _). done.
  - unfold stime. cbn [heap σ1]. by rewrite lookup_insert_eq.
  - eexists. split; [done|]. split; [|done]. split; cbn [heap next_sess sess_hash exp_list handlers next_hdl hdl_id set_exp σ1].
    + intros y. destruct (decide (y = x)) as [->|Hne]; [lia|]. rewrite lookup_insert_ne by done.
      intros H%(sw_fresh σ Hwf). unfold x. lia.
    + intros y s. destruct (decide (y = x)) as [->|Hne].
      * rewrite lookup_insert_eq. intros [= <-]. split; cbn; try done; [constructor|by intros st ?%not_elem_of_nil].
      * rewrite lookup_insert_ne by done. intros Hy%(sw_obj σ Hwf). by apply (sess_ok_handlers σ).
    + intros i y. unfold line_upd.
      assert (y ∈ (if decide (i = H_MASK hash) then a ++ x :: b else sess_hash σ i) ↔
              (y = x ∧ i = H_MASK hash) ∨ y ∈ sess_hash σ i) as ->.
      { case_decide as Hi; [rewrite Hi, Hline; set_solver|]. naive_solver. }
      rewrite (sw_line σ Hwf). destruct (decide (y = x)) as [->|Hne].
      * rewrite lookup_insert_eq. rewrite Hfr. split; [intros [[_ ->]|(s & [=] & _)]; by eexists|].
        intros (s & [= <-] & <-). by left.
      * rewrite lookup_insert_ne by done. naive_solver.
    + intros i. unfold line_upd. case_decide as Hi.
      * apply StronglySorted_mid.
        -- rewrite <- Hline. refine (Increasing_ext _ _ _ _ (sw_line_order σ Hwf _)). intros y z Hy%Hlin Hz%Hlin.
           destruct (Hold y Hy) as (_ & _ & Hky), (Hold z Hz) as (_ & _ & Hkz). unfold skey in *. cbn in *. by rewrite Hky, Hkz.
        -- rewrite Forall_forall in *. intros y Hy. assert (is_Some (heap σ !! y)) as Hsy by (eapply Hlin; rewrite Hline; set_solver).
           specialize (Ha y Hy). destruct (Hold y Hsy) as (_ & _ & Hky). unfold skey in *. cbn in *. by rewrite Hky, Hkx.
        -- rewrite Forall_forall in *. intros y Hy. assert (is_Some (heap σ !! y)) as Hsy by (eapply Hlin; rewrite Hline; set_solver).
           specialize (Hb y Hy). destruct (Hold y Hsy) as (_ & _ & Hky). unfold skey in *. cbn in *. by rewrite Hky, Hkx.
      * refine (Increasing_ext _ _ _ _ (sw_line_order σ Hwf _)). intros y z Hy%Hlin Hz%Hlin.
        destruct (Hold y Hy) as (_ & _ & Hky), (Hold z Hz) as (_ & _ & Hkz). unfold skey in *. cbn in *. by rewrite Hky, Hkz.
    + intros y. rewrite Hp, elem_of_cons. cbn [exp_list σ1]. rewrite (sw_exp σ Hwf). destruct (decide (y = x)) as [->|Hne].
      * rewrite lookup_insert_eq. split; [intros _; by eexists|by left].
      * rewrite lookup_insert_ne by done. naive_solver.
    + rewrite Hp. constructor; [done|apply (sw_nodup σ Hwf)].
    + done.
    + apply (sw_hdl σ Hwf).
    + apply (sw_hdl_inj σ Hwf).
Qed.

Lemma link_session_spec :
  (sid = [] ∧ (∀ y, ¬ is_session σ sid y) ∧ link_session σ now sid = Err ENOMEM) ∨
  ∃ σ' x new, link_session σ now sid = Ok (σ', x, new) ∧ sess_wf σ' ∧ linked σ now sid σ' x new.
Proof.
  unfold link_session. destruct (session_search σ sid Hwf) as (r & -> & Hr). cbn [res_bind]. destruct r as [[a b]|x].
  - destruct Hr as (Hl & Ha & Hb & Hno). unfold new_session. case_decide as Hsid; [by left|]. right.
    destruct (create_wf a b Hsid Hno Hl Ha Hb) as (σ' & He & Hwf' & Hh). cbn zeta.
    change (with_msg_cnt 1 (Session sid hash (default_timeout now) [] 0 false)) with (fresh_session sid now).
    cbn [s_timeout]. rewrite He. cbn [res_bind]. eexists _, _, _. split; [done|]. split; [done|]. unfold linked.
    assert (heap σ !! next_sess σ = None) as -> by (apply eq_None_not_Some; intros H%(sw_fresh σ Hwf); lia). done.
  - destruct Hr as [(s & Hx & Hsid) Huniq]. right. unfold deref. rewrite Hx. cbn [res_bind]. cbn [s_is_destroyed with_msg_cnt].
    pose proof (sw_obj σ Hwf x s Hx) as [H1 H2 H3 H4 H5].
    destruct (s_is_destroyed s) eqn:Hd; cbn [negb].
    + destruct (revive_wf x s Hx Hd) as (σ' & He & Hwf' & Hh). unfold revived in He. rewrite He. cbn [res_bind].
      eexists _, _, _. split; [done|]. split; [done|]. unfold linked. rewrite Hx, Hd. done.
    + eexists _, _, _. split; [done|]. split; [|unfold linked; by rewrite Hx, Hd].
      apply (put_wf σ Hwf x s Hx); try done. split; try done; cbn; [lia|congruence].
Qed.
End creation.

(** The generator of identifiers does not touch the sessions. *)
Lemma make_sid_wf σ d o : sess_wf σ → sess_wf (make_sid σ d o).2 ∧ heap (make_sid σ d o).2 = heap σ.
Proof.
  intros Hwf. destruct d; [|done]. split; [|done]. destruct Hwf as [H1 H2 H3 H4 H5 H6 H7 H8 H9]. split; try done.
  intros x s Hs. apply (sess_ok_handlers σ); [done|]. by eapply H2.
Qed.

(** The parameters point to readable strings. *)
Definition readable (diamid opt : option (bytes * Z)) : Prop := new_diamid diamid ≠ Crash ∧ new_opt opt ≠ Crash.

(** The parameters are accepted: the DiameterIdentity is valid, the optional
    string has no NUL, and one of them is given. *)
Definition accepted (diamid opt : option (bytes * Z)) (d o : option bytes) : Prop :=
  (is_Some diamid ∨ is_Some opt) ∧ new_diamid diamid = Ok d ∧ new_opt opt = Ok o.

Lemma sess_new_spec σ now diamid opt :
  sess_wf σ → readable diamid opt →
  (∃ e, fd_sess_new σ now diamid opt = Err e ∧
     ∀ d o, accepted diamid opt d o → e = ENOMEM ∧ (make_sid σ d o).1 = []) ∨
  ∃ d o σ' x new, accepted diamid opt d o ∧ fd_sess_new σ now diamid opt = Ok (σ', x, new) ∧ sess_wf σ' ∧
    linked σ now (make_sid σ d o).1 σ' x new.
Proof.
  intros Hwf [Hd Ho]. unfold fd_sess_new. destruct (bool_decide (is_Some diamid) || bool_decide (is_Some opt)) eqn:E.
  2:{ left. eexists. split; [done|]. intros d o [[H|H] _]; apply orb_false_iff in E as [E1%bool_decide_eq_false E2%bool_decide_eq_false]; done. }
  apply orb_true_iff in E. rewrite !bool_decide_eq_true in E.
  destruct (new_diamid diamid) as [d|e|] eqn:Ed; [|left; eexists; split; [done|]; intros d o (_ & H & _); congruence|done].
  destruct (new_opt opt) as [o|e|] eqn:Eo; [|left; eexists; split; [done|]; intros d' o (_ & _ & H); congruence|done].
  cbn [res_bind]. destruct (make_sid_wf σ d o Hwf) as [Hwf1 Hheap]. destruct (make_sid σ d o) as [sid σ1] eqn:Em.
  cbn [snd] in *.
  destruct (link_session_spec σ1 Hwf1 now sid) as [(Hsid & Hno & He)|(σ' & x & new & Hl & Hwf' & Hlk)].
  - left. exists ENOMEM. split; [done|]. intros d' o' (_ & H1 & H2). split; [done|].
    rewrite Ed in H1. injection H1 as <-. rewrite Eo in H2. injection H2 as <-. by rewrite Em.
  - right. exists d, o, σ', x, new. split; [done|]. split; [done|]. split; [done|]. rewrite Em. cbn [fst].
    unfold linked in *. rewrite <- Hheap. destruct (heap σ1 !! x); [done|]. destruct Hlk as (H1 & H2 & H3 & H4).
    split_and!; try done. intros y (s & Hs & Hss). apply (H3 y). exists s. by rewrite Hheap.
Qed.

(** The session that creation returns. *)
Lemma linked_session σ now sid σ' x new : linked σ now sid σ' x new → is_session σ' sid x.
Proof.
  unfold linked, is_session. destruct (heap σ !! x) as [s|].
  - intros (Hsid & _ & ->). rewrite lookup_insert_eq. eexists. split; [done|]. by destruct (s_is_destroyed s).
  - intros (_ & _ & _ & ->). rewrite lookup_insert_eq. by eexists.
Qed.

(** ** The other functions *)

Section operations.
Context (σ : module) (Hwf : sess_wf σ) (x : nat) (s : session) (Hx : heap σ !! x = Some s).

Lemma ok_cnt n : 0 ≤ n → sess_ok σ (with_msg_cnt n s).
Proof. intros Hn. destruct (sw_obj σ Hwf x s Hx) as [H1 H2 H3 H4 H5]. by split. Qed.

Lemma drop_ref_spec :
  0 < s_msg_cnt s →
  drop_ref σ x = Ok (put x (with_msg_cnt (s_msg_cnt s - 1) s) σ, s_msg_cnt s) ∧
  sess_wf (put x (with_msg_cnt (s_msg_cnt s - 1) s) σ).
Proof.
  intros Hc. unfold drop_ref, deref. rewrite Hx. split; [done|]. apply (put_wf σ Hwf x s Hx); try done. apply ok_cnt. lia.
Qed.

Lemma settimeout_spec t :
  s_is_destroyed s = false → ∃ σ', fd_sess_settimeout σ x t = Ok σ' ∧ sess_wf σ' ∧ heap σ' = <[x := with_timeout t s]> (heap σ).
Proof.
  intros Hd. unfold fd_sess_settimeout, deref. rewrite Hx. cbn [res_bind].
  set (σ1 := put x (with_timeout t s) (set_exp (unlink x (exp_list σ)) (sess_cnt σ) σ)).
  assert (∀ y, stime σ1 y = stime (put x (with_timeout t s) σ) y) as Hst by done.
  destruct (exp_insert_first_sorted σ1 x t (exp_list σ1)) as (l & Hl & Hp & Hs).
  - intros y Hy. cbn [exp_list heap put set_heap set_exp σ1] in *. apply elem_of_unlink in Hy as [Hne (s2 & Hs2 & _)%(sw_exp σ Hwf)].
    rewrite lookup_insert_ne by done. by eexists.
  - cbn [exp_list put set_heap set_exp σ1]. refine (StronglySorted_ext _ _ _ _ (StronglySorted_filter _ _ _ (sw_exp_order σ Hwf))).
    intros y z [Hy _]%elem_of_unlink [Hz _]%elem_of_unlink. by rewrite !Hst, !stime_put.
  - unfold stime. cbn [heap put set_heap σ1]. by rewrite lookup_insert_eq.
  - rewrite Hl. cbn [res_bind]. eexists. split; [done|]. split; [|done].
    apply (change_wf σ Hwf x s Hx (with_timeout t s) l (sess_cnt σ)); try done.
    + destruct (sw_obj σ Hwf x s Hx) as [H1 H2 H3 H4 H5]. by split.
    + intros y. rewrite Hp, elem_of_cons. cbn [exp_list put set_heap set_exp σ1]. rewrite elem_of_unlink. cbn. naive_solver.
    + rewrite Hp. constructor; [cbn; intros [Hne _]%elem_of_unlink; done|]. apply NoDup_filter, (sw_nodup σ Hwf).
Qed.

Lemma cleanup_ok sid :
  mapR (λ st, match handlers σ !! st_hdl st with
              | Some _ => Ok (Cleanup (st_hdl st) (st_state st) sid) | None => Crash end) (s_states s) =
  Ok ((λ st, Cleanup (st_hdl st) (st_state st) sid) <$> s_states s).
Proof.
  apply mapR_ok, Forall2_fmap_r, Forall_Forall2_diag, Forall_forall. intros st Hst.
  by destruct (so_hdl _ _ (sw_obj σ Hwf x s Hx) st Hst) as [h ->].
Qed.

(** Freeing after the line has been unlinked, as the callers do. *)
Lemma del_session_freed s' n :
  s_hash s' = s_hash s → s_states s' = [] →
  del_session x (unlink_hash x s' (put x s' (set_exp (unlink x (exp_list σ)) n σ))) = Ok (freed σ x s n).
Proof.
  intros Hh Hst. unfold del_session, deref. cbn [heap unlink_hash set_line put set_heap set_exp].
  rewrite lookup_insert_eq. cbn [res_bind]. rewrite bool_decide_true by done.
  unfold freed, unlink_hash, set_line, set_heap, set_exp, put. cbn. rewrite Hh. by rewrite delete_insert_eq.
Qed.
End operations.

(** ** Destruction *)

(** What becomes of a session that is destroyed. *)
Definition gone (σ : module) (x : nat) (s : session) (σ' : module) : Prop :=
  exp_list σ' = unlink x (exp_list σ) ∧
  heap σ' = (if decide (s_msg_cnt s = 0) then delete x (heap σ) else <[x := with_destroyed true (with_states [] s)]> (heap σ)).

Lemma unlink_idem x l : unlink x (unlink x l) = unlink x l.
Proof. apply unlink_absent. rewrite elem_of_unlink. tauto. Qed.

Section destruction.
Context (σ : module) (Hwf : sess_wf σ) (x : nat) (s : session) (Hx : heap σ !! x = Some s).

Lemma ok_gone : sess_ok σ (with_destroyed true (with_states [] s)).
Proof.
  destruct (sw_obj σ Hwf x s Hx) as [H1 H2 H3 H4 H5]. split; try done; [constructor|by intros st ?%not_elem_of_nil].
Qed.

Lemma gone_cases n σ' :
  (if bool_decide (s_msg_cnt s = 0)
   then del_session x (unlink_hash x (with_states [] s) (put x (with_states [] s) (set_exp (unlink x (exp_list σ)) n σ)))
   else Ok (put x (with_destroyed true (with_states [] s)) (set_exp (unlink x (exp_list σ)) n σ))) = σ' →
  ∃ σ2, σ' = Ok σ2 ∧ sess_wf σ2 ∧ gone σ x s σ2.
Proof.
  intros <-. unfold gone. case_bool_decide as Hc.
  - rewrite (del_session_freed σ x s) by done. eexists. split; [done|]. split; [by apply freed_wf|].
    rewrite decide_True by done. split; [apply unlink_idem|done].
  - eexists. split; [done|]. split; [|by rewrite decide_False]. apply (retire_wf σ Hwf x s Hx); try done. by apply ok_gone.
Qed.

Lemma destroy_session_spec sid :
  ∃ σ', del_session_states σ (Some x) sid = Ok (σ', (λ st, Cleanup (st_hdl st) (st_state st) sid) <$> s_states s) ∧
    sess_wf σ' ∧ gone σ x s σ'.
Proof.
  unfold del_session_states. cbn [res_bind]. unfold deref. rewrite Hx. cbn [res_bind].
  assert (∃ n, (if decide (x ∈ exp_list σ) then set_exp (unlink x (exp_list σ)) (w32 (sess_cnt σ - 1)) σ else σ) =
               set_exp (unlink x (exp_list σ)) n σ) as (n & ->).
  { case_decide as Hin; [by eexists|]. exists (sess_cnt σ). rewrite unlink_absent by done. by destruct σ. }
  cbn [handlers set_exp]. rewrite (cleanup_ok σ Hwf x s Hx). cbn [res_bind].
  destruct (gone_cases n _ eq_refl) as (σ2 & -> & Hwf2 & Hg). cbn [res_bind]. by exists σ2.
Qed.

Lemma reclaim_spec :
  ∃ σ', fd_sess_reclaim σ x = Ok σ' ∧ sess_wf σ' ∧ if decide (s_states s = []) then gone σ x s σ' else σ' = σ.
Proof.
  unfold fd_sess_reclaim, deref. rewrite Hx. cbn [res_bind]. case_decide as Hst; [|by exists σ].
  assert (with_states [] s = s) as Hs by (rewrite <- Hst; by destruct s).
  pose proof (gone_cases (sess_cnt σ) _ eq_refl) as H. rewrite Hs in H.
  assert (put x s (set_exp (unlink x (exp_list σ)) (sess_cnt σ) σ) = set_exp (unlink x (exp_list σ)) (sess_cnt σ) σ) as Hp.
  { unfold put, set_heap, set_exp. cbn. by rewrite insert_id. }
  rewrite Hp in H. destruct (decide (s_msg_cnt s = 0)) as [Hc|Hc];
    [rewrite bool_decide_true in H by done|rewrite bool_decide_false in H by done]; exact H.
Qed.
End destruction.

(** The expiry thread finds the session by its identifier. *)
Lemma destroy_sid_spec σ x s :
  sess_wf σ → heap σ !! x = Some s →
  del_session_states σ None (s_sid s) = del_session_states σ (Some x) (s_sid s).
Proof.
  intros Hwf Hx. unfold del_session_states. destruct (session_search σ (s_sid s) Hwf) as (r & -> & Hr).
  cbn [res_bind]. destruct r as [[a b]|y].
  - destruct Hr as (_ & _ & _ & Hno). exfalso. apply (Hno x). by exists s.
  - destruct Hr as [_ Huniq]. by rewrite <- (Huniq x) by (by exists s).
Qed.

(** ** States *)

Section states.
Context (σ : module) (Hwf : sess_wf σ).

Lemma id_of_hid st : is_Some (handlers σ !! st_hdl st) → id_of σ st = Ok (hid σ st).
Proof. intros [h Hh]. unfold id_of, hid. by rewrite Hh. Qed.

Lemma hid_inj st h hd : is_Some (handlers σ !! st_hdl st) → handlers σ !! h = Some hd → hid σ st = h_id hd → st_hdl st = h.
Proof. intros [h2 Hh] Hd. unfold hid. rewrite Hh. intros He. by eapply (sw_hdl_inj σ Hwf). Qed.

Lemma insert_state_spec new l :
  StronglySorted (λ a b, hid σ a < hid σ b) l → (∀ st, st ∈ l → is_Some (handlers σ !! st_hdl st)) →
  ∃ r, insert_state σ (hid σ new) new l = Ok r ∧
    match r with
    | None => ∃ st, st ∈ l ∧ hid σ st = hid σ new
    | Some l' => l' ≡ₚ new :: l ∧ StronglySorted (λ a b, hid σ a < hid σ b) l' ∧ ∀ st, st ∈ l → hid σ st ≠ hid σ new
    end.
Proof.
  induction 1 as [|st l Hs IH Hst]; intros Hh; cbn [insert_state].
  - eexists. split; [done|]. split; [done|]. split; [repeat constructor|]. by intros st ?%not_elem_of_nil.
  - rewrite (id_of_hid st) by (apply Hh; by left). cbn [res_bind]. rewrite Forall_forall in Hst.
    case_decide as H1.
    + destruct IH as (r & -> & Hr); [intros; apply Hh; by right|]. cbn [res_bind]. eexists. split; [done|].
      destruct r as [l'|].
      * destruct Hr as (Hp & Hs' & Hne). split; [rewrite Hp; apply Permutation_swap|]. split.
        -- constructor; [done|]. apply Forall_forall. intros y Hy. rewrite Hp in Hy.
           apply elem_of_cons in Hy as [->|Hy]; [done|by apply Hst].
        -- intros y [->|Hy]%elem_of_cons; [lia|by apply Hne].
      * destruct Hr as (y & Hy & He). exists y. split; [by right|done].
    + case_decide as H2; [eexists; split; [done|]; exists st; split; [by left|done]|].
      eexists. split; [done|]. split; [done|].
      assert (∀ y, y ∈ st :: l → hid σ new < hid σ y) as Hlt.
      { intros y [->|Hy]%elem_of_cons; [lia|]. specialize (Hst y Hy). lia. }
      split; [|intros y Hy; specialize (Hlt y Hy); lia].
      constructor; [constructor; [done|by apply Forall_forall]|by apply Forall_forall].
Qed.

Lemma retrieve_loop_spec id st0 l :
  (∀ st, st ∈ l → is_Some (handlers σ !! st_hdl st)) →
  ∃ r, retrieve_loop σ id st0 l = Ok r ∧
    ((∃ y, r = Some y ∧ y ∈ l ∧ id < hid σ y) ∨
     (r = match last l with Some y => Some y | None => st0 end ∧ ∀ y, y ∈ l → hid σ y ≤ id)).
Proof.
  revert st0. induction l as [|y l IH]; intros st0 Hh; cbn [retrieve_loop].
  - eexists. split; [done|]. right. split; [done|]. by intros y ?%not_elem_of_nil.
  - rewrite (id_of_hid y) by (apply Hh; by left). cbn [res_bind]. case_decide as Hy.
    + eexists. split; [done|]. left. exists y. split; [done|]. split; [by left|lia].
    + destruct (IH (Some y)) as (r & -> & Hr); [intros; apply Hh; by right|]. eexists. split; [done|].
      destruct Hr as [(z & -> & Hz & Hlt)|[-> Hall]].
      * left. exists z. split; [done|]. split; [by right|done].
      * right. split; [|intros z [->|Hz]%elem_of_cons; [lia|by apply Hall]].
        rewrite last_cons. by destruct (last l).
Qed.

Lemma remove_state_sublist hdl l : sublist (remove_state hdl l) l.
Proof. induction l as [|st l IH]; cbn; [constructor|]. case_decide; by constructor. Qed.

End states.

Section store.
Context (σ : module) (Hwf : sess_wf σ) (hdl : nat) (h : session_handler) (Hh : handlers σ !! hdl = Some h).
Context (x : nat) (s : session) (Hx : heap σ !! x = Some s).

Lemma ok_states l :
  (s_is_destroyed s = true → l = []) → StronglySorted (λ a b, hid σ a < hid σ b) l →
  (∀ st, st ∈ l → is_Some (handlers σ !! st_hdl st)) → sess_ok σ (with_states l s).
Proof.
  intros Hd Hs Hl. destruct (sw_obj σ Hwf x s Hx) as [H1 H2 H3 H4 H5]. by split.
Qed.

Lemma states_wf l : sess_ok σ (with_states l s) → sess_wf (put x (with_states l s) σ).
Proof. intros Hok. by apply (put_wf σ Hwf x s Hx). Qed.

(** The state of a handler in a session. *)
Definition state_of (l : list state) (hdl : nat) : option nat := st_state <$> (snd <$> list_find (λ st, st_hdl st = hdl) l).

Lemma state_store_spec st :
  (s_is_destroyed s = true → fd_sess_state_store σ hdl x st = Err EINVAL) ∧
  (s_is_destroyed s = false →
     (∃ y, y ∈ s_states s ∧ st_hdl y = hdl ∧ fd_sess_state_store σ hdl x st = Err EALREADY) ∨
     ∃ l, fd_sess_state_store σ hdl x st = Ok (put x (with_states l s) σ) ∧ l ≡ₚ State st hdl :: s_states s ∧
       sess_wf (put x (with_states l s) σ)).
Proof.
  unfold fd_sess_state_store, deref. rewrite Hh, Hx. cbn [res_bind]. split; intros Hd; rewrite Hd; cbn [negb]; [done|].
  pose proof (sw_obj σ Hwf x s Hx) as [H1 H2 H3 H4 H5].
  assert (hid σ (State st hdl) = h_id h) as Hid by (unfold hid; cbn; by rewrite Hh).
  destruct (insert_state_spec σ (State st hdl) (s_states s) H4 H5) as (r & Hr & Hrs). rewrite Hid in Hr. rewrite Hr.
  cbn [res_bind]. destruct r as [l|].
  - right. destruct Hrs as (Hp & Hs & _). exists l. split; [done|]. split; [done|]. apply states_wf, ok_states; [congruence|done|].
    intros y Hy. rewrite Hp in Hy. apply elem_of_cons in Hy as [->|Hy]; [by eexists|by apply H5].
  - left. destruct Hrs as (y & Hy & He). exists y. split; [done|]. split; [|done]. rewrite Hid in He.
    by apply (hid_inj σ Hwf y hdl h); [apply H5|..].
Qed.

Lemma state_retrieve_spec :
  fd_sess_state_retrieve σ hdl x =
    (match last (s_states s) with
     | Some st => if decide (st_hdl st = hdl)
                  then Ok (put x (with_states (remove_state hdl (s_states s)) s) σ, Some (st_state st)) else Ok (σ, None)
     | None => Ok (σ, None)
     end) ∧ sess_wf (put x (with_states (remove_state hdl (s_states s)) s) σ).
Proof.
  pose proof (sw_obj σ Hwf x s Hx) as [H1 H2 H3 H4 H5]. split.
  - unfold fd_sess_state_retrieve, deref. rewrite Hh, Hx. cbn [res_bind].
    destruct (retrieve_loop_spec σ (h_id h) None (s_states s) H5) as (r & -> & Hr). cbn [res_bind].
    destruct Hr as [(y & -> & Hy & Hlt)|[-> Hall]].
    + assert (st_hdl y ≠ hdl) as Hne by (intros Heq; unfold hid in Hlt; rewrite Heq, Hh in Hlt; lia).
      rewrite decide_False by done. destruct (last (s_states s)) as [z|] eqn:El; [|done].
      rewrite decide_False; [done|]. intros Heq. assert (hid σ z = h_id h) as Hz by (unfold hid; by rewrite Heq, Hh).
      apply last_Some in El as [l0 El]. rewrite El in Hy, H4. apply elem_of_app in Hy as [Hy|Hy%list_elem_of_singleton]; [|subst z; lia].
      apply StronglySorted_app_last in H4. rewrite Forall_forall in H4. specialize (H4 y Hy). lia.
    + by destruct (last (s_states s)).
  - apply states_wf, ok_states.
    + intros Hd. by rewrite (H3 Hd).
    + eapply StronglySorted_sublist; [apply remove_state_sublist|done].
    + intros st Hst. apply H5. eapply elem_of_sublist; [done|apply remove_state_sublist].
Qed.
End store.

(** ** Handlers *)

Lemma handler_create_wf σ o : sess_wf σ → sess_wf (fd_sess_handler_create σ o).1.
Proof.
  intros Hwf. pose proof (sw_hdl σ Hwf) as Hhd.
  assert (handlers σ !! next_hdl σ = None) as Hfr.
  { destruct (handlers σ !! next_hdl σ) as [hd|] eqn:E; [|done]. apply Hhd in E. lia. }
  destruct Hwf as [H1 H2 H3 H4 H5 H6 H7 _ H9]. split; try done; cbn.
  - intros x s Hx. destruct (H2 x s Hx) as [A1 A2 A3 A4 A5]. split; try done.
    + refine (StronglySorted_ext _ _ _ _ A4). intros a b Ha Hb. destruct (A5 a Ha) as [ha Hha], (A5 b Hb) as [hb Hhb].
      unfold hid. cbn. by rewrite !lookup_insert_ne by (intros Heq; rewrite <- Heq in *; congruence).
    + intros st Hst. cbn. apply lookup_insert_is_Some. destruct (decide (next_hdl σ = st_hdl st)); [by left|right; split; [done|by apply A5]].
  - intros h hd [[<- <-]|[_ Hd]]%lookup_insert_Some; [split; cbn; lia|]. apply Hhd in Hd. lia.
  - intros h h' hd hd' [[<- <-]|[N1 D1]]%lookup_insert_Some [[<- <-]|[N2 D2]]%lookup_insert_Some; cbn; try done.
    + intros He. apply Hhd in D2. lia.
    + intros He. apply Hhd in D1. lia.
    + by apply H9.
Qed.

Definition without (hdl : nat) (s : session) : session := with_states (filter (λ st, st_hdl st ≠ hdl) (s_states s)) s.

Section destroy_handler.
Context (hdl : nat) (h : session_handler).

Lemma take_state_spec σ l :
  sess_wf σ → handlers σ !! hdl = Some h →
  StronglySorted (λ a b, hid σ a < hid σ b) l → (∀ st, st ∈ l → is_Some (handlers σ !! st_hdl st)) →
  ∃ r, take_state σ (h_id h) l = Ok (r, filter (λ st, st_hdl st ≠ hdl) l).
Proof.
  intros Hwf Hh. induction 1 as [|st l Hs IH Hst]; intros Hl; cbn [take_state]; [by eexists|].
  rewrite (id_of_hid σ st) by (apply Hl; by left). cbn [res_bind]. rewrite filter_cons.
  assert (hid σ st = h_id h ↔ st_hdl st = hdl) as Heq.
  { split; [by apply (hid_inj σ Hwf); [apply Hl; left|]|]. unfold hid. intros ->. by rewrite Hh. }
  assert (h_id h ≤ hid σ st → filter (λ st, st_hdl st ≠ hdl) l = l) as Hrest.
  { intros Hle. apply list_filter_all. apply Forall_forall. intros y Hy Hyh. rewrite Forall_forall in Hst. specialize (Hst y Hy).
    unfold hid in Hst at 2. rewrite Hyh, Hh in Hst. lia. }
  case_decide as H1.
  - destruct IH as (r & ->); [intros; apply Hl; by right|]. cbn [res_bind]. rewrite decide_True by (intros E%Heq; lia). by eexists.
  - case_decide as H2.
    + destruct (decide (st_hdl st ≠ hdl)) as [Hn|_]; [exfalso; by apply Hn, Heq|]. rewrite Hrest by lia. by eexists.
    + rewrite decide_True by (intros E%Heq; lia). rewrite Hrest by lia. by eexists.
Qed.

Lemma without_wf σ x s : sess_wf σ → heap σ !! x = Some s → sess_wf (put x (without hdl s) σ).
Proof.
  intros Hwf Hx. pose proof (sw_obj σ Hwf x s Hx) as [H1 H2 H3 H4 H5]. apply (put_wf σ Hwf x s Hx); try done.
  split; try done.
  - intros Hd. cbn. by rewrite (H3 Hd).
  - cbn. apply StronglySorted_filter. done.
  - intros st [_ Hst]%list_elem_of_filter. by apply H5.
Qed.

(** The states of the handler are gone from the sessions that [P] holds of. *)
Definition stripped (P : nat → Prop) (σ σ' : module) : Prop :=
  sess_wf σ' ∧ handlers σ' = handlers σ ∧ sess_hash σ' = sess_hash σ ∧
  ∀ y s', heap σ' !! y = Some s' → ∃ s, heap σ !! y = Some s ∧ s_hash s = s_hash s' ∧
    (s' = s ∨ s' = without hdl s) ∧ (P y → ∀ st, st ∈ s_states s' → st_hdl st ≠ hdl).

Lemma without_none s st : st ∈ s_states (without hdl s) → st_hdl st ≠ hdl.
Proof. cbn. by intros [? _]%list_elem_of_filter. Qed.

Lemma destroy_line_spec l σ :
  sess_wf σ → handlers σ !! hdl = Some h → (∀ y, y ∈ l → is_Some (heap σ !! y)) →
  ∃ σ' ev, destroy_line hdl (h_id h) l σ = Ok (σ', ev) ∧ stripped (λ y, y ∈ l) σ σ' ∧ (∀ y, is_Some (heap σ !! y) → is_Some (heap σ' !! y)).
Proof.
  revert σ. induction l as [|x l IH]; intros σ Hwf Hh Hl; cbn [destroy_line].
  - eexists _, _. split; [done|]. split; [|done]. split; [done|]. split; [done|]. split; [done|]. intros y s' Hs'. exists s'.
    split; [done|]. split; [done|]. split; [by left|]. by intros ?%not_elem_of_nil.
  - destruct (Hl x) as [s Hx]; [by left|]. unfold deref. rewrite Hx. cbn [res_bind].
    pose proof (sw_obj σ Hwf x s Hx) as [H1 H2 H3 H4 H5]. destruct (take_state_spec σ (s_states s) Hwf Hh H4 H5) as (r & ->).
    cbn [res_bind]. change (with_states (filter _ (s_states s)) s) with (without hdl s).
    destruct (IH (put x (without hdl s) σ)) as (σ' & ev & -> & (Hwf' & Hhd & Hln & Hst) & Hsome).
    + by apply without_wf.
    + done.
    + intros y Hy. cbn. apply lookup_insert_is_Some. destruct (decide (x = y)); [by left|right; split; [done|apply Hl; by right]].
    + cbn [res_bind]. eexists _, _. split; [done|]. split.
      * split; [done|]. split; [done|]. split; [done|]. intros y s' Hs'. destruct (Hst y s' Hs') as (s0 & Hs0 & Hh0 & Hc & Hn).
        cbn in Hs0. apply lookup_insert_Some in Hs0 as [[<- <-]|[Hne Hs0]].
        -- exists s. split; [done|]. split; [done|]. assert (∀ st, st ∈ s_states s' → st_hdl st ≠ hdl) as Hall.
           { intros st. destruct Hc as [->| ->]; [apply without_none|]. apply without_none. }
           split; [|done]. right. destruct Hc as [->| ->]; [done|]. unfold without, with_states. cbn. f_equal.
           apply list_filter_all. apply Forall_forall. by intros st [? _]%list_elem_of_filter.
        -- exists s0. split; [done|]. split; [done|]. split; [done|]. intros [->|Hy]%elem_of_cons; [done|by apply Hn].
      * intros y Hy. apply Hsome. cbn. apply lookup_insert_is_Some. destruct (decide (x = y)); [by left|by right].
Qed.
End destroy_handler.

Lemma H_MASK_range h : 0 ≤ H_MASK h < 2 ^ SESS_HASH_SIZE.
Proof. unfold H_MASK, SESS_HASH_SIZE. rewrite land_ones_mod by lia. apply Z.mod_pos_bound. lia. Qed.

Section destroy_handler_lines.
Context (hdl : nat) (h : session_handler).

Lemma stripped_trans (P Q : nat → Prop) σ σ' σ'' :
  stripped hdl P σ σ' → stripped hdl Q σ' σ'' → stripped hdl (λ y, P y ∨ Q y) σ σ''.
Proof.
  intros (_ & Hh & Hl & H1) (Hwf & Hh' & Hl' & H2). split; [done|]. split; [congruence|]. split; [congruence|].
  intros y s2 Hs2. destruct (H2 y s2 Hs2) as (s1 & Hs1 & Hk1 & Hc1 & Hn1). destruct (H1 y s1 Hs1) as (s & Hs & Hk & Hc & Hn).
  exists s. split; [done|]. split; [congruence|].
  assert (without hdl (without hdl s) = without hdl s) as Hww.
  { unfold without, with_states. cbn. f_equal. apply list_filter_all, Forall_forall. by intros st [? _]%list_elem_of_filter. }
  split.
  - destruct Hc as [->| ->], Hc1 as [->| ->]; rewrite ?Hww; auto.
  - intros [Hp|Hq]; [|by apply Hn1]. intros st Hst. apply (Hn Hp). destruct Hc1 as [->| ->]; [done|].
    cbn in Hst. by apply list_elem_of_filter in Hst as [_ Hst].
Qed.

Lemma stripped_mono (P Q : nat → Prop) σ σ' :
  (∀ y s, heap σ !! y = Some s → Q y → P y) → stripped hdl P σ σ' → stripped hdl Q σ σ'.
Proof.
  intros Hpq (Hwf & Hh & Hl & H1). repeat (split; [done|]). intros y s' Hs'.
  destruct (H1 y s' Hs') as (s & Hs & Hk & Hc & Hn). exists s. repeat (split; [done|]). intros Hq. by apply Hn, (Hpq y s).
Qed.

Lemma destroy_lines_spec n i σ :
  sess_wf σ → handlers σ !! hdl = Some h →
  ∃ σ' ev, destroy_lines hdl (h_id h) n i σ = Ok (σ', ev) ∧
    stripped hdl (λ y, ∃ s, heap σ !! y = Some s ∧ i ≤ H_MASK (s_hash s) < i + Z.of_nat n) σ σ' ∧
    (∀ y, is_Some (heap σ !! y) → is_Some (heap σ' !! y)).
Proof.
  revert i σ. induction n as [|n IH]; intros i σ Hwf Hh; cbn [destroy_lines].
  - eexists _, _. split; [done|]. split; [|done]. do 3 (split; [done|]). intros y s Hs. exists s.
    split; [done|]. split; [done|]. split; [by left|]. intros (s2 & _ & Hr). lia.
  - destruct (destroy_line_spec hdl h (sess_hash σ i) σ Hwf Hh) as (σ1 & ev1 & -> & Hst1 & Hs1).
    { intros y (s & Hs & _)%(sw_line σ Hwf). by eexists. }
    cbn [res_bind]. pose proof Hst1 as (Hwf1 & Hh1 & _ & Hc1).
    destruct (IH (i + 1) σ1 Hwf1) as (σ2 & ev2 & -> & Hst2 & Hs2); [by rewrite Hh1|]. cbn [res_bind].
    eexists _, _. split; [done|]. split; [|intros y Hy; by apply Hs2, Hs1].
    refine (stripped_mono _ _ _ _ _ (stripped_trans _ _ _ _ _ Hst1 Hst2)). intros y s Hs (s2 & Hs2' & Hr).
    rewrite Hs in Hs2'. injection Hs2' as <-. destruct (decide (H_MASK (s_hash s) = i)) as [He|Hne].
    + left. apply (sw_line σ Hwf). by exists s.
    + right. destruct (Hs1 y) as [s' Hs']; [by eexists|]. exists s'. split; [done|].
      destruct (Hc1 y s' Hs') as (s0 & Hs0 & Hk & _). rewrite Hs in Hs0. injection Hs0 as <-. rewrite <- Hk. lia.
Qed.
End destroy_handler_lines.

(** After the destruction of a handler no session has a state of it. *)
Lemma handler_destroy_spec σ hdl h :
  sess_wf σ → handlers σ !! hdl = Some h →
  ∃ σ' ev, fd_sess_handler_destroy σ hdl = Ok (σ', ev, h_opaque h) ∧ sess_wf σ' ∧ handlers σ' = delete hdl (handlers σ) ∧
    ∀ y, heap σ' !! y = without hdl <$> (heap σ !! y).
Proof.
  intros Hwf Hh. unfold fd_sess_handler_destroy. rewrite Hh.
  destruct (destroy_lines_spec hdl h (Z.to_nat (2 ^ SESS_HASH_SIZE)) 0 σ Hwf Hh) as (σ1 & ev & -> & (Hwf1 & Hh1 & _ & Hst) & Hs1).
  cbn [res_bind].
  assert (∀ y s', heap σ1 !! y = Some s' → ∃ s, heap σ !! y = Some s ∧ s' = without hdl s ∧ ∀ st, st ∈ s_states s' → st_hdl st ≠ hdl) as Hall.
  { intros y s' Hs'. destruct (Hst y s' Hs') as (s & Hs & Hk & Hc & Hn). exists s. split; [done|].
    assert (∀ st, st ∈ s_states s' → st_hdl st ≠ hdl) as Hno.
    { apply Hn. exists s. split; [done|]. rewrite Z2Nat.id by (unfold SESS_HASH_SIZE; lia). apply H_MASK_range. }
    split; [|done]. destruct Hc as [->| ->]; [|done]. unfold without, with_states.
    rewrite list_filter_all by by apply Forall_forall. by destruct s. }
  eexists _, _. split; [done|]. split; [|split; [cbn; by rewrite Hh1|]].
  - pose proof Hwf1 as [H1 H2 H3 H4 H5 H6 H7 H8 H9]. split; try done; cbn.
    + intros x s Hs. destruct (Hall x s Hs) as (_ & _ & _ & Hno). destruct (H2 x s Hs) as [A1 A2 A3 A4 A5].
      assert (∀ st, st ∈ s_states s → delete hdl (handlers σ1) !! st_hdl st = handlers σ1 !! st_hdl st) as Hd.
      { intros st Hst'. apply lookup_delete_ne. intros Heq. by apply (Hno st). }
      split; try done.
      * refine (StronglySorted_ext _ _ _ _ A4). intros a b Ha Hb. unfold hid. cbn. by rewrite (Hd a Ha), (Hd b Hb).
      * intros st Hst'. cbn. rewrite Hd by done. by apply A5.
    + intros k hd [_ Hd]%lookup_delete_Some. by apply H8.
    + intros k k' hd hd' [_ Hd]%lookup_delete_Some [_ Hd']%lookup_delete_Some. by apply H9.
  - intros y. cbn. destruct (heap σ !! y) as [s|] eqn:Hy; cbn.
    + destruct (Hs1 y) as [s' Hs']; [by eexists|]. rewrite Hs'. destruct (Hall y s' Hs') as (s0 & Hs0 & -> & _). congruence.
    + destruct (heap σ1 !! y) as [s'|] eqn:Hs'; [|done]. destruct (Hall y s' Hs') as (s0 & Hs0 & _). congruence.
Qed.

(** ** All the calls *)

Lemma linked_live σ now sid σ' x new :
  sess_wf σ → linked σ now sid σ' x new → ∃ s, heap σ' !! x = Some s ∧ s_is_destroyed s = false ∧ 0 < s_msg_cnt s.
Proof.
  intros Hwf. unfold linked. destruct (heap σ !! x) as [s|] eqn:Hx.
  - intros (_ & _ & ->). rewrite lookup_insert_eq. pose proof (so_cnt _ _ (sw_obj σ Hwf x s Hx)).
    eexists. split; [done|]. destruct (s_is_destroyed s) eqn:Hd; cbn; split; try done; lia.
  - intros (_ & _ & _ & ->). rewrite lookup_insert_eq. by eexists.
Qed.

(** The functions of the interface that are one step. *)
Inductive call :=
  | HandlerCreate (opaque : nat) | HandlerDestroy (hdl : nat)
  | New (now : timespec) (diamid opt : option (bytes * Z)) | FromsidMsg (now : timespec) (sid : bytes) (len : Z)
  | Settimeout (x : nat) (t : timespec) | Destroy (x : nat) | Reclaim (x : nat)
  | StateStore (hdl x st : nat) | StateRetrieve (hdl x : nat) | RefMsg (x : nat).

Definition exec (σ : module) (c : call) : res (module * list event) :=
  match c with
  | HandlerCreate o => Ok ((fd_sess_handler_create σ o).1, [])
  | HandlerDestroy h => let* (σ, ev, _) := fd_sess_handler_destroy σ h in Ok (σ, ev)
  | New now d o => let* (σ, _, _) := fd_sess_new σ now d o in Ok (σ, [])
  | FromsidMsg now sid len => let* (σ, _, _) := fd_sess_fromsid_msg σ now sid len in Ok (σ, [])
  | Settimeout x t => let* σ := fd_sess_settimeout σ x t in Ok (σ, [])
  | Destroy x => fd_sess_destroy σ x
  | Reclaim x => let* σ := fd_sess_reclaim σ x in Ok (σ, [])
  | StateStore h x st => let* σ := fd_sess_state_store σ h x st in Ok (σ, [])
  | StateRetrieve h x => let* (σ, _) := fd_sess_state_retrieve σ h x in Ok (σ, [])
  | RefMsg x => let* σ := fd_sess_ref_msg σ x in Ok (σ, [])
  end.

(** What a caller must respect: the sessions it passes exist, the strings are
    readable, and the timeout of a destroyed session is not changed. *)
Definition valid_call (σ : module) (c : call) : Prop :=
  match c with
  | HandlerCreate _ | HandlerDestroy _ => True
  | New _ d o => readable d o
  | FromsidMsg _ sid len => readable None (Some (sid, len))
  | Settimeout x _ => ∃ s, heap σ !! x = Some s ∧ s_is_destroyed s = false
  | Destroy x | Reclaim x | StateStore _ x _ | StateRetrieve _ x | RefMsg x => is_Some (heap σ !! x)
  end.

(** A call frees no session that is referenced, and takes no reference. *)
Definition refs_kept (σ σ' : module) : Prop :=
  ∀ x s, heap σ !! x = Some s → 0 < s_msg_cnt s → ∃ s', heap σ' !! x = Some s' ∧ s_msg_cnt s ≤ s_msg_cnt s'.

Definition good (σ : module) (r : res (module * list event)) : Prop :=
  match r with Ok (σ', _) => sess_wf σ' ∧ refs_kept σ σ' | Err _ => True | Crash => False end.

Lemma refs_kept_heap σ σ' : heap σ' = heap σ → refs_kept σ σ'.
Proof. intros E x s Hx _. rewrite E. by exists s. Qed.

Lemma refs_kept_insert σ σ' x s s' :
  heap σ !! x = Some s → heap σ' = <[x := s']> (heap σ) → s_msg_cnt s ≤ s_msg_cnt s' → refs_kept σ σ'.
Proof.
  intros Hx E Hc y z Hy Hz. rewrite E. destruct (decide (y = x)) as [->|].
  - rewrite lookup_insert_eq. exists s'. split; [done|]. congruence.
  - rewrite lookup_insert_ne by done. by exists z.
Qed.

Lemma refs_kept_gone σ σ' x s : heap σ !! x = Some s → gone σ x s σ' → refs_kept σ σ'.
Proof.
  intros Hx [_ E]. case_decide as Hc; [|by eapply refs_kept_insert].
  intros y z Hy Hz. rewrite E. destruct (decide (y = x)) as [->|]; [rewrite Hx in Hy; injection Hy as <-; lia|]. rewrite lookup_delete_ne by done. by exists z.
Qed.

Lemma refs_kept_linked σ now sid σ' x new : linked σ now sid σ' x new → refs_kept σ σ'.
Proof.
  unfold linked. destruct (heap σ !! x) as [s|] eqn:Hx.
  - intros (_ & _ & E). eapply refs_kept_insert; [done..|]. destruct (s_is_destroyed s); cbn; lia.
  - intros (_ & _ & _ & E) y z Hy Hz. rewrite E, lookup_insert_ne by congruence. by exists z.
Qed.

Lemma exec_new_good σ now d o : sess_wf σ → readable d o → good σ (let* (σ, _, _) := fd_sess_new σ now d o in Ok (σ, [])).
Proof.
  intros Hwf Hr. destruct (sess_new_spec σ now d o Hwf Hr) as [(e & -> & _)|(d' & o' & σ' & x & new & _ & -> & H & Hl)]; [done|].
  split; [done|]. by eapply refs_kept_linked.
Qed.

Lemma exec_good σ c : sess_wf σ → valid_call σ c → good σ (exec σ c).
Proof.
  intros Hwf. destruct c; cbn [exec valid_call].
  - intros _. split; [by apply handler_create_wf|by apply refs_kept_heap].
  - intros _. destruct (handlers σ !! hdl) as [h|] eqn:Hh; [|unfold fd_sess_handler_destroy; by rewrite Hh].
    destruct (handler_destroy_spec σ hdl h Hwf Hh) as (σ' & ev & -> & H & _ & Hheap). split; [done|].
    intros x s Hx Hc. rewrite Hheap, Hx. by eexists.
  - by apply exec_new_good.
  - by apply exec_new_good.
  - intros (s & Hs & Hd). destruct (settimeout_spec σ Hwf x s Hs t Hd) as (σ' & -> & H & E). split; [done|].
    by eapply refs_kept_insert.
  - intros [s Hs]. unfold fd_sess_destroy, deref. rewrite Hs. cbn [res_bind].
    destruct (destroy_session_spec σ Hwf x s Hs (s_sid s)) as (σ' & -> & H & Hg). split; [done|]. by eapply refs_kept_gone.
  - intros [s Hs]. destruct (reclaim_spec σ Hwf x s Hs) as (σ' & -> & H & Hg). split; [done|].
    case_decide; [by eapply refs_kept_gone|subst σ'; by apply refs_kept_heap].
  - intros [s Hs]. destruct (handlers σ !! hdl) as [h|] eqn:Hh; [|unfold fd_sess_state_store; by rewrite Hh].
    destruct (state_store_spec σ Hwf hdl h Hh x s Hs st) as [H1 H2]. destruct (s_is_destroyed s); [by rewrite H1|].
    destruct (H2 eq_refl) as [(y & _ & _ & ->)|(l & -> & _ & H)]; [done|]. split; [done|]. by eapply refs_kept_insert.
  - intros [s Hs]. destruct (handlers σ !! hdl) as [h|] eqn:Hh; [|unfold fd_sess_state_retrieve; by rewrite Hh].
    destruct (state_retrieve_spec σ Hwf hdl h Hh x s Hs) as [-> H].
    destruct (last _); [case_decide|]; (split; [done|]); [by eapply refs_kept_insert|by apply refs_kept_heap..].
  - intros [s Hs]. unfold fd_sess_ref_msg, deref. rewrite Hs. cbn [res_bind good].
    pose proof (so_cnt _ _ (sw_obj σ Hwf x s Hs)). split; [|eapply refs_kept_insert; [done..|cbn; lia]].
    apply (put_wf σ Hwf x s Hs); try done. apply (ok_cnt σ Hwf x s Hs); lia.
Qed.

(** ** The steps of the threads

    The module, the sid that the expiry thread has picked, and the sessions that
    other threads have in hand between the two parts of [fd_sess_fromsid]
    ([linked_]) and of [fd_sess_reclaim_msg] ([to_reclaim]). *)
Record world := World {
  mod_of : module; picked : option bytes; linked_ : gmultiset nat; to_reclaim : gmultiset nat }.

Inductive step :=
  | Call (c : call)
  | FromsidLink (now : timespec) (sid : bytes) (len : Z) | FromsidDrop (x : nat)
  | ReclaimMsgDrop (x : nat) | ReclaimMsgEnd (x : nat)
  | ExpPick (now : timespec) | ExpDestroy.

Definition exec_step (w : world) (st : step) : res (world * list event) :=
  let σ := mod_of w in
  match st with
  | Call c => let* (σ, ev) := exec σ c in Ok (World σ (picked w) (linked_ w) (to_reclaim w), ev)
  | FromsidLink now sid len =>
      check bool_decide (len ≠ 0) in
      let* (σ, x, _) := fd_sess_fromsid_msg σ now sid len in
      Ok (World σ (picked w) (linked_ w ⊎ {[+ x +]}) (to_reclaim w), [])
  | FromsidDrop x =>
      let* (σ, _) := drop_ref σ x in Ok (World σ (picked w) (linked_ w ∖ {[+ x +]}) (to_reclaim w), [])
  | ReclaimMsgDrop x =>
      let* (σ, reclaim) := drop_ref σ x in
      Ok (World σ (picked w) (linked_ w) (if decide (reclaim = 1) then to_reclaim w ⊎ {[+ x +]} else to_reclaim w), [])
  | ReclaimMsgEnd x =>
      let* σ := fd_sess_reclaim σ x in Ok (World σ (picked w) (linked_ w) (to_reclaim w ∖ {[+ x +]}), [])
  | ExpPick now =>
      let* p := exp_pick σ now in Ok (World σ p (linked_ w) (to_reclaim w), [])
  | ExpDestroy =>
      match picked w with
      | None => Ok (w, [])
      | Some sid => let* (σ, ev) := exp_destroy σ sid in Ok (World σ None (linked_ w) (to_reclaim w), ev)
      end
  end.

(** The two steps, one after the other, are the function. *)
Lemma fromsid_steps w now sid len σ x new :
  fd_sess_fromsid (mod_of w) now sid len = Ok (σ, x, new) →
  ∃ w1, exec_step w (FromsidLink now sid len) = Ok (w1, []) ∧
    exec_step w1 (FromsidDrop x) = Ok (World σ (picked w) (linked_ w) (to_reclaim w), []).
Proof.
  unfold fd_sess_fromsid. cbn [exec_step]. intros H. destruct_res. destruct x0 as [[σ0 y] n].
  destruct_res. destruct x0 as [σ1 k]. simplify_eq.
  match goal with H : fd_sess_fromsid_msg _ _ _ _ = _ |- _ => rewrite H end. cbn [res_bind].
  eexists. split; [done|]. cbn [mod_of picked linked_ to_reclaim].
  match goal with H : drop_ref _ _ = _ |- _ => rewrite H end. cbn [res_bind].
  do 3 f_equal. multiset_solver.
Qed.

Lemma reclaim_msg_steps w x σ :
  fd_sess_reclaim_msg (mod_of w) x = Ok σ →
  ∃ w1, exec_step w (ReclaimMsgDrop x) = Ok (w1, []) ∧
    (w1 = World σ (picked w) (linked_ w) (to_reclaim w) ∨
     exec_step w1 (ReclaimMsgEnd x) = Ok (World σ (picked w) (linked_ w) (to_reclaim w), [])).
Proof.
  unfold fd_sess_reclaim_msg. cbn [exec_step]. intros H. destruct_res. destruct x0 as [σ0 k].
  match goal with H : drop_ref _ _ = _ |- _ => rewrite H end. cbn [res_bind].
  eexists. split; [done|]. case_decide; [right|left; congruence]. cbn [mod_of picked linked_ to_reclaim].
  match goal with H : fd_sess_reclaim _ _ = _ |- _ => rewrite H end. cbn [res_bind].
  do 3 f_equal. multiset_solver.
Qed.

(** The second part of a function follows its first part; a message gives back a
    reference that it holds. *)
Definition valid_step (w : world) (st : step) : Prop :=
  match st with
  | Call c => valid_call (mod_of w) c
  | FromsidLink _ sid len => readable None (Some (sid, len))
  | FromsidDrop x => x ∈ linked_ w
  | ReclaimMsgDrop x => ∃ s, heap (mod_of w) !! x = Some s ∧ Z.of_nat (multiplicity x (linked_ w)) < s_msg_cnt s
  | ReclaimMsgEnd x => x ∈ to_reclaim w
  | ExpPick _ => picked w = None
  | ExpDestroy => is_Some (picked w)
  end.

Definition init_world (time : Z) : world := World (fd_sess_init time) None ∅ ∅.

Inductive reachable (time : Z) : world → Prop :=
  | reach_init : reachable time (init_world time)
  | reach_step w st w' ev : reachable time w → valid_step w st → exec_step w st = Ok (w', ev) → reachable time w'.

(** The two races: the session that the expiry thread picked has been dropped by
    another thread; the session whose last reference was dropped has been freed
    by another thread. *)
Definition race (w : world) (st : step) : Prop :=
  match st with
  | ExpDestroy => ∃ sid, picked w = Some sid ∧ ∀ x, ¬ is_session (mod_of w) sid x
  | ReclaimMsgEnd x => heap (mod_of w) !! x = None
  | _ => False
  end.

(** The sessions in hand are referenced. *)
Definition world_ok (w : world) : Prop :=
  sess_wf (mod_of w) ∧
  ∀ x, x ∈ linked_ w → ∃ s, heap (mod_of w) !! x = Some s ∧ Z.of_nat (multiplicity x (linked_ w)) ≤ s_msg_cnt s.

Definition step_good (w : world) (st : step) : Prop :=
  (exec_step w st = Crash ↔ race w st) ∧ ∀ w' ev, exec_step w st = Ok (w', ev) → world_ok w'.

Lemma linked_kept w σ' p r :
  world_ok w → sess_wf σ' → refs_kept (mod_of w) σ' → world_ok (World σ' p (linked_ w) r).
Proof.
  intros [_ Hl] Hwf Hk. split; [done|]. intros x Hx. cbn [linked_ mod_of] in *. destruct (Hl x Hx) as (s & Hs & Hc).
  rewrite elem_of_multiplicity in Hx. destruct (Hk x s Hs) as (s' & Hs' & Hc'); [lia|]. exists s'. split; [done|lia].
Qed.

Lemma fromsid_link_good w now sid len : world_ok w → readable None (Some (sid, len)) → step_good w (FromsidLink now sid len).
Proof.
  intros [Hwf Hl] Hr. unfold step_good. cbn [exec_step race]. case_bool_decide; [|split; [by split|done]].
  unfold fd_sess_fromsid_msg.
  destruct (sess_new_spec (mod_of w) now None (Some (sid, len)) Hwf Hr) as [(e & -> & _)|(d & o & σ' & x & new & _ & -> & Hwf' & Hlk)];
    [by split; [split|]|].
  cbn [res_bind]. split; [by split|]. intros w' ev [= <- <-]. split; [done|]. intros y Hy. cbn [linked_ mod_of] in *.
  rewrite multiplicity_disj_union. destruct (decide (y = x)) as [->|Hne].
  - assert (multiplicity x ({[+ x +]} : gmultiset nat) = 1%nat) as -> by multiset_solver.
    assert (∃ s, heap σ' !! x = Some s ∧ 0 < s_msg_cnt s ∧ (∀ s0, heap (mod_of w) !! x = Some s0 → s_msg_cnt s = s_msg_cnt s0 + 1)) as (s & Hs & Hc & Hc0).
    { destruct (linked_live _ _ _ _ _ _ Hwf Hlk) as (s & Hs & _ & Hc). exists s. split_and!; [done..|]. intros s0 Hs0.
      unfold linked in Hlk. rewrite Hs0 in Hlk. destruct Hlk as (_ & _ & E). rewrite E, lookup_insert_eq in Hs.
      injection Hs as <-. by destruct (s_is_destroyed s0). }
    exists s. split; [done|]. destruct (decide (x ∈ linked_ w)) as [Hin|Hout].
    + destruct (Hl x Hin) as (s0 & Hs0 & ?). specialize (Hc0 s0 Hs0). lia.
    + rewrite not_elem_of_multiplicity in Hout. lia.
  - assert (multiplicity y ({[+ x +]} : gmultiset nat) = 0%nat) as -> by multiset_solver. assert (y ∈ linked_ w) as Hin by multiset_solver.
    destruct (Hl y Hin) as (s & Hs & Hc). pose proof Hin as Hm. rewrite elem_of_multiplicity in Hm.
    destruct (refs_kept_linked _ _ _ _ _ _ Hlk y s Hs) as (s' & Hs' & Hc'); [lia|]. exists s'. split; [done|lia].
Qed.

Lemma drop_ok w x s l p r :
  world_ok w → heap (mod_of w) !! x = Some s → 0 < s_msg_cnt s →
  (∀ y, Z.of_nat (multiplicity y l) ≤ Z.of_nat (multiplicity y (linked_ w))) →
  Z.of_nat (multiplicity x l) < s_msg_cnt s →
  drop_ref (mod_of w) x = Ok (put x (with_msg_cnt (s_msg_cnt s - 1) s) (mod_of w), s_msg_cnt s) ∧
  world_ok (World (put x (with_msg_cnt (s_msg_cnt s - 1) s) (mod_of w)) p l r).
Proof.
  intros [Hwf Hl] Hx Hc Hle Hlt. destruct (drop_ref_spec (mod_of w) Hwf x s Hx Hc) as [-> Hwf']. split; [done|].
  split; [done|]. intros y Hy. cbn [linked_ mod_of heap put set_heap] in *. destruct (decide (y = x)) as [->|Hne].
  - rewrite lookup_insert_eq. eexists. split; [done|]. cbn. lia.
  - rewrite lookup_insert_ne by done. rewrite elem_of_multiplicity in Hy. specialize (Hle y).
    destruct (Hl y) as (s' & Hs' & Hc'); [apply elem_of_multiplicity; lia|]. exists s'. split; [done|lia].
Qed.

Lemma fromsid_drop_good w x : world_ok w → x ∈ linked_ w → step_good w (FromsidDrop x).
Proof.
  intros Hok Hin. destruct (proj2 Hok x Hin) as (s & Hs & Hc). pose proof Hin as Hm. rewrite elem_of_multiplicity in Hm.
  destruct (drop_ok w x s (linked_ w ∖ {[+ x +]}) (picked w) (to_reclaim w) Hok Hs) as [E H]; [lia|..].
  - intros y. rewrite multiplicity_difference. lia.
  - rewrite multiplicity_difference. assert (multiplicity x ({[+ x +]} : gmultiset nat) = 1%nat) as -> by multiset_solver. lia.
  - unfold step_good. cbn [exec_step race]. rewrite E. cbn [res_bind]. split; [by split|]. by intros w' ev [= <- <-].
Qed.

Lemma reclaim_drop_good w x s :
  world_ok w → heap (mod_of w) !! x = Some s → Z.of_nat (multiplicity x (linked_ w)) < s_msg_cnt s → step_good w (ReclaimMsgDrop x).
Proof.
  intros Hok Hs Hc. unfold step_good. cbn [exec_step race].
  edestruct (drop_ok w x s (linked_ w) (picked w)) as [E H]; [done|done|lia|done|done|]. rewrite E. cbn [res_bind].
  split; [by split|]. by intros w' ev [= <- <-].
Qed.

Lemma reclaim_end_good w x : world_ok w → step_good w (ReclaimMsgEnd x).
Proof.
  intros Hok. pose proof Hok as [Hwf _]. unfold step_good. cbn [exec_step race]. destruct (heap (mod_of w) !! x) as [s|] eqn:Hx.
  - destruct (reclaim_spec _ Hwf x s Hx) as (σ' & -> & H & Hg). cbn [res_bind]. split; [by split|]. intros w' ev [= <- <-].
    apply linked_kept; [done|done|]. case_decide; [by eapply refs_kept_gone|subst σ'; by apply refs_kept_heap].
  - unfold fd_sess_reclaim, deref. rewrite Hx. by split; [split|].
Qed.

Lemma exp_pick_ok σ now :
  sess_wf σ → ∃ p, exp_pick σ now = Ok p ∧ ∀ sid, p = Some sid → ∃ x, is_session σ sid x.
Proof.
  intros Hwf. unfold exp_pick. destruct (exp_list σ) as [|x l] eqn:El; [by exists None|].
  destruct (proj1 (sw_exp σ Hwf x)) as (s & Hs & _); [rewrite El; by left|]. unfold deref. rewrite Hs. cbn [res_bind].
  eexists. split; [done|]. intros sid. destruct (TS_IS_INFERIOR _ _); [done|]. intros [= <-]. exists x. by exists s.
Qed.

Lemma exp_pick_good w now : world_ok w → step_good w (ExpPick now).
Proof.
  intros [Hwf Hl]. unfold step_good. cbn [exec_step race]. destruct (exp_pick_ok _ now Hwf) as (p & -> & _). cbn [res_bind].
  split; [by split|]. by intros w' ev [= <- <-].
Qed.

Lemma exp_destroy_good w : world_ok w → is_Some (picked w) → step_good w ExpDestroy.
Proof.
  intros Hok [sid Hp]. pose proof Hok as [Hwf _]. unfold step_good. cbn [exec_step race]. rewrite Hp. unfold exp_destroy.
  destruct (session_search (mod_of w) sid Hwf) as (r & Hsr & Hr). destruct r as [[a b]|x].
  - unfold del_session_states. rewrite Hsr. cbn [res_bind]. split; [|done]. split; [|done]. intros _. exists sid. split; [done|].
    by destruct Hr as (_ & _ & _ & Hno).
  - destruct Hr as [(s & Hs & <-) _]. rewrite (destroy_sid_spec _ x s Hwf Hs).
    destruct (destroy_session_spec _ Hwf x s Hs (s_sid s)) as (σ' & -> & H & Hg). cbn [res_bind]. split.
    + split; [done|]. intros (sid' & [= <-] & Hno). exfalso. apply (Hno x). by exists s.
    + intros w' ev [= <- <-]. apply linked_kept; [done..|]. by eapply refs_kept_gone.
Qed.

Lemma step_ok w st : world_ok w → valid_step w st → step_good w st.
Proof.
  intros Hok Hv. destruct st; cbn [valid_step] in Hv.
  - pose proof (exec_good _ c (proj1 Hok) Hv) as H. unfold step_good. cbn [exec_step race].
    destruct (exec (mod_of w) c) as [[σ ev]| |]; cbn [res_bind good] in *; [|by split; [split|]|done].
    split; [by split|]. intros w' ev' [= <- <-]. destruct H. by apply linked_kept.
  - by apply fromsid_link_good.
  - by apply fromsid_drop_good.
  - destruct Hv as (s & Hs & Hc). by eapply reclaim_drop_good.
  - by apply reclaim_end_good.
  - by apply exp_pick_good.
  - by apply exp_destroy_good.
Qed.

Lemma always_ok time w : reachable time w → world_ok w.
Proof.
  induction 1 as [|w st w' ev _ IH Hv He]; [|by eapply step_ok].
  split; [apply sess_init_wf|]. cbn. multiset_solver.
Qed.


(** ** Expiry *)

Lemma exp_fct_spec n σ now :
  sess_wf σ → (length (exp_list σ) < n)%nat →
  ∃ σ' ev l, exp_fct n σ now = Ok (σ', ev) ∧ sess_wf σ' ∧ exp_list σ = l ++ exp_list σ' ∧
    (∀ x, x ∈ l → ts_le (stime σ x) now ∧ ∀ s, heap σ' !! x = Some s → s_is_destroyed s = true ∧ s_states s = [] ∧ s_msg_cnt s ≠ 0) ∧
    (∀ x, x ∉ l → heap σ' !! x = heap σ !! x) ∧ (∀ x, x ∈ exp_list σ' → ts_lt now (stime σ x)).
Proof.
  revert σ. induction n as [|n IH]; intros σ Hwf Hn; [lia|]. cbn [exp_fct].
  unfold exp_pick. destruct (exp_list σ) as [|x l] eqn:El.
  - cbn [res_bind]. exists σ, [], []. rewrite El. split_and!; try done; by intros x ?%not_elem_of_nil.
  - destruct (proj1 (sw_exp σ Hwf x)) as (s & Hs & Hd); [rewrite El; by left|].
    assert (stime σ x = s_timeout s) as Ht by (unfold stime; by rewrite Hs). pose proof (sw_exp_order σ Hwf) as Hso.
    rewrite El in Hso. apply StronglySorted_inv in Hso as [_ Hso]. rewrite Forall_forall in Hso.
    unfold deref. rewrite Hs. cbn [res_bind].
    destruct (TS_IS_INFERIOR now (s_timeout s)) eqn:Et; cbn [res_bind].
    + apply TS_IS_INFERIOR_true in Et. exists σ, [], []. rewrite El. split_and!; try done; [by intros y ?%not_elem_of_nil|].
      intros y [->|Hy]%elem_of_cons; [by rewrite Ht|]. specialize (Hso y Hy). rewrite Ht in Hso. ts_lia.
    + apply TS_IS_INFERIOR_false in Et. unfold exp_destroy. rewrite (destroy_sid_spec σ x s Hwf Hs).
      destruct (destroy_session_spec σ Hwf x s Hs (s_sid s)) as (σ1 & -> & Hwf1 & He1 & Hh1). cbn [res_bind].
      pose proof (sw_nodup σ Hwf) as Hnd. rewrite El in Hnd. apply NoDup_cons in Hnd as [Hnx Hnd].
      assert (exp_list σ1 = l) as El1.
      { rewrite He1, El. unfold unlink. rewrite filter_cons, decide_False by (intros H; by apply H). by apply unlink_absent. }
      assert (∀ y, y ≠ x → heap σ1 !! y = heap σ !! y) as Hot.
      { intros y Hne. rewrite Hh1. case_decide; [by rewrite lookup_delete_ne|by rewrite lookup_insert_ne]. }
      destruct (IH σ1 Hwf1) as (σ2 & ev2 & l2 & -> & Hwf2 & El2 & Hl2 & Hr2 & Hx2); [rewrite El1; cbn in Hn; lia|].
      cbn [res_bind]. rewrite El1 in El2.
      assert (∀ y, y ∈ l → stime σ1 y = stime σ y) as Hst.
      { intros y Hy. unfold stime. rewrite Hot; [done|]. by intros ->. }
      exists σ2. eexists. exists (x :: l2). split; [done|]. split; [done|]. split; [cbn; by rewrite El2|]. split_and!.
      * intros y [->|Hy]%elem_of_cons.
        -- split; [by rewrite Ht|]. intros s2. rewrite Hr2 by (rewrite El2 in Hnx; set_solver). rewrite Hh1.
           case_decide; [by rewrite lookup_delete_eq|]. rewrite lookup_insert_eq. by intros [= <-].
        -- destruct (Hl2 y Hy) as [H1 H2]. split; [|done]. rewrite <- Hst; [done|]. rewrite El2. set_solver.
      * intros y Hy. rewrite Hr2 by set_solver. apply Hot. set_solver.
      * intros y Hy. specialize (Hx2 y Hy). rewrite Hst in Hx2; [done|]. rewrite El2. set_solver.
Qed.

(** ** Generated identifiers *)

Definition in_range (σ : module) : Prop := 0 ≤ sid_h σ < 2 ^ 32 ∧ 0 ≤ sid_l σ < 2 ^ 32.
Definition sid_counter (σ : module) : Z := sid_h σ * 2 ^ 32 + sid_l σ.

Definition digits_value (l : bytes) : Z := foldl (λ a c, a * 10 + (c - 48)) 0 l.

Lemma dec_value fuel n : 0 ≤ n < 10 ^ Z.of_nat fuel → digits_value (dec fuel n) = n.
Proof.
  revert n. induction fuel as [|fuel IH]; intros n Hn; [cbn in *; lia|]. cbn [dec]. case_decide; [cbn; lia|].
  assert (0 ≤ n / 10 < 10 ^ Z.of_nat fuel) as Hd.
  { rewrite Nat2Z.inj_succ, Z.pow_succ_r in Hn by lia. split; [apply Z.div_pos; lia|apply Z.div_lt_upper_bound; lia]. }
  unfold digits_value in *. rewrite foldl_app, IH by done. cbn. pose proof (Z.div_mod n 10). lia.
Qed.

Lemma dec_digits fuel n : 0 ≤ n → Forall (λ c, 48 ≤ c ≤ 57) (dec fuel n).
Proof.
  revert n. induction fuel as [|fuel IH]; intros n Hn; cbn [dec]; [constructor|]. case_decide.
  - repeat constructor; lia.
  - apply Forall_app. split; [apply IH, Z.div_pos; lia|]. pose proof (Z.mod_pos_bound n 10). repeat constructor; lia.
Qed.

Lemma print_u32_inj n m : 0 ≤ n < 2 ^ 32 → 0 ≤ m < 2 ^ 32 → print_u32 n = print_u32 m → n = m.
Proof.
  intros Hn Hm He. assert (2 ^ 32 < 10 ^ Z.of_nat 10) by (vm_compute; reflexivity).
  rewrite <- (dec_value 10 n), <- (dec_value 10 m) by lia. unfold print_u32 in He. by rewrite He.
Qed.

(** The text before the first semicolon. *)
Lemma semicolon_split a b r r' :
  59 ∉ a → 59 ∉ b → a ++ 59 :: r = b ++ 59 :: r' → a = b ∧ r = r'.
Proof.
  revert b. induction a as [|x a IH]; intros [|y b] Ha Hb; cbn; intros [= He].
  - done.
  - set_solver.
  - set_solver.
  - destruct (IH b) as [-> ->]; [set_solver..|done|]. by subst.
Qed.

Lemma semicolon_end a b o o' :
  59 ∉ a → 59 ∉ b →
  a ++ (match o with Some s => [59] ++ s | None => [] end) = b ++ (match o' with Some s => [59] ++ s | None => [] end) →
  a = b ∧ o = o'.
Proof.
  intros Ha Hb. destruct o as [s|], o' as [s'|]; cbn [app].
  - intros [-> ->]%semicolon_split; done.
  - rewrite app_nil_r. intros <-. set_solver.
  - rewrite app_nil_r. intros ->. set_solver.
  - rewrite !app_nil_r. by intros ->.
Qed.

Lemma no_semicolon_digits n : 0 ≤ n → 59 ∉ print_u32 n.
Proof.
  intros Hn Hin. pose proof (dec_digits 10 n Hn) as H. rewrite Forall_forall in H. specialize (H 59 Hin). lia.
Qed.

Lemma no_semicolon_identity d : valid_identity d = true → 59 ∉ d.
Proof.
  unfold valid_identity. rewrite forallb_forall. intros Hd Hin%list_elem_of_In. specialize (Hd _ Hin). by vm_compute in Hd.
Qed.

Lemma generated_sid_inj d d' h h' l l' o o' :
  valid_identity d = true → valid_identity d' = true → 0 ≤ h < 2 ^ 32 → 0 ≤ h' < 2 ^ 32 → 0 ≤ l < 2 ^ 32 → 0 ≤ l' < 2 ^ 32 →
  generated_sid d h l o = generated_sid d' h' l' o' → d = d' ∧ h = h' ∧ l = l' ∧ o = o'.
Proof.
  intros Hd Hd' Hh Hh' Hl Hl'. unfold generated_sid. cbn [app].
  intros [-> He]%semicolon_split; [|by apply no_semicolon_identity..].
  apply semicolon_split in He as [Hph He]; [|apply no_semicolon_digits; lia..].
  apply semicolon_end in He as [Hpl ->]; [|apply no_semicolon_digits; lia..].
  split; [done|]. split; [by apply print_u32_inj|]. split; [by apply print_u32_inj|done].
Qed.

Lemma make_sid_counter σ d o :
  in_range σ → in_range (make_sid σ (Some d) o).2 ∧ sid_counter (make_sid σ (Some d) o).2 = (sid_counter σ + 1) mod 2 ^ 64.
Proof.
  intros [Hh Hl]. unfold in_range, sid_counter. cbn [make_sid snd sid_h sid_l]. unfold w32.
  case_decide as Hz.
  - assert (sid_l σ = 2 ^ 32 - 1) as ->.
    { destruct (decide (sid_l σ + 1 < 2 ^ 32)); [rewrite Z.mod_small in Hz by lia; lia|lia]. }
    replace ((2 ^ 32 - 1 + 1) mod 2 ^ 32) with 0 by (by vm_compute).
    split; [split; [apply Z.mod_pos_bound|]; lia|].
    destruct (decide (sid_h σ + 1 < 2 ^ 32)).
    + rewrite (Z.mod_small (sid_h σ + 1)) by lia. symmetry. rewrite Z.mod_small by lia. lia.
    + assert (sid_h σ = 2 ^ 32 - 1) as -> by lia. by vm_compute.
  - assert (sid_l σ + 1 < 2 ^ 32) as Hs.
    { destruct (decide (sid_l σ + 1 < 2 ^ 32)); [done|]. exfalso. apply Hz. replace (sid_l σ + 1) with (2 ^ 32) by lia. by vm_compute. }
    rewrite Z.mod_small by lia. split; [lia|]. symmetry. rewrite Z.mod_small; lia.
Qed.

Lemma new_diamid_valid m len d : new_diamid (Some (m, len)) = Ok (Some d) → valid_identity d = true.
Proof.
  unfold new_diamid. destruct (sized m len) as [s| |] eqn:Es; try done. cbn [res_bind].
  destruct (fd_os_is_valid_DiameterIdentity m (zlen s)) as [[]| |] eqn:E; try done. cbn. intros [= <-].
  apply fd_os_is_valid_true in E as [Hl Hv]; [|apply zlen_nonneg].
  assert (s = take (Z.to_nat (zlen s)) m) as ->; [|done]. revert Es. unfold sized. clear. case_decide.
  - clear. revert s. induction m as [|b m IH]; intros s; [done|]. cbn [cstr]. case_decide; [by intros [= <-]|].
    destruct (cstr m) as [s'| |]; try done. cbn. intros [= <-]. unfold zlen in *. rewrite Nat2Z.id. cbn. f_equal.
    specialize (IH s' eq_refl). by rewrite Nat2Z.id in IH.
  - case_decide; [|done]. intros [= <-]. unfold zlen. rewrite Nat2Z.id, length_take. f_equal. unfold zlen in *. lia.
Qed.

(** ** Properties *)


(** [fd_sess_new], with accepted parameters, returns the session of the
    identifier: the one that exists, with one more reference, and 0 only if it
    had been destroyed, in which case it expires again after the default
    lifetime; or a new one without a state.  It changes no other session, and
    fails only on an empty identifier; with other parameters it fails. *)
Theorem fd_sess_new_spec σ now diamid opt :
  sess_wf σ → readable diamid opt →
  (∃ e, fd_sess_new σ now diamid opt = Err e ∧
     ∀ d o, accepted diamid opt d o → e = ENOMEM ∧ (make_sid σ d o).1 = []) ∨
  ∃ d o σ' x new, accepted diamid opt d o ∧ fd_sess_new σ now diamid opt = Ok (σ', x, new) ∧ sess_wf σ' ∧
    linked σ now (make_sid σ d o).1 σ' x new.
Proof. apply sess_new_spec. Qed.

(** C35: The expiry thread ends its work after as many turns as there are
    expiring sessions.  It destroys those whose timeout has passed, from the
    head of the list: they are freed, or without states and marked as
    destroyed while messages refer to them.  All others stay as they are. *)
Theorem exp_fct_terminates σ now :
  sess_wf σ →
  ∃ σ' ev l, exp_fct (S (length (exp_list σ))) σ now = Ok (σ', ev) ∧ sess_wf σ' ∧ exp_list σ = l ++ exp_list σ' ∧
    (∀ x, x ∈ l → ts_le (stime σ x) now ∧ ∀ s, heap σ' !! x = Some s → s_is_destroyed s = true ∧ s_states s = [] ∧ s_msg_cnt s ≠ 0) ∧
    (∀ x, x ∉ l → heap σ' !! x = heap σ !! x) ∧ (∀ x, x ∈ exp_list σ' → ts_lt now (stime σ x)).
Proof. intros Hwf. apply exp_fct_spec; [done|lia]. Qed.

(** The generated identifiers: each generation adds one to a 64-bit counter,
    and equal identifiers have the same origin, optional part and counter; so
    the module does not repeat an identifier within 2^64 generations. *)
Theorem make_sid_unique σ σ' m len d o m' len' d' o' :
  in_range σ → in_range σ' → new_diamid (Some (m, len)) = Ok (Some d) → new_diamid (Some (m', len')) = Ok (Some d') →
  in_range (make_sid σ (Some d) o).2 ∧ sid_counter (make_sid σ (Some d) o).2 = (sid_counter σ + 1) mod 2 ^ 64 ∧
  ((make_sid σ (Some d) o).1 = (make_sid σ' (Some d') o').1 →
   d = d' ∧ o = o' ∧ sid_counter (make_sid σ (Some d) o).2 = sid_counter (make_sid σ' (Some d') o').2).
Proof.
  intros Hr Hr' Hd%new_diamid_valid Hd'%new_diamid_valid.
  destruct (make_sid_counter σ d o Hr) as [Hin Hc]. split; [done|]. split; [done|].
  destruct (make_sid_counter σ' d' o' Hr') as [Hin' _]. intros He.
  destruct Hin as [Hh Hl], Hin' as [Hh' Hl'].
  destruct (generated_sid_inj _ _ _ _ _ _ _ _ Hd Hd' Hh Hh' Hl Hl' He) as (-> & H1 & H2 & ->).
  split; [done|]. split; [done|]. unfold sid_counter. cbn [make_sid snd sid_h sid_l] in *. by rewrite H1, H2.
Qed.

(** [fd_sess_state_retrieve] looks at the last state of the session only
    (the loop does not stop at the state of the handler): it gives back the
    state of a handler when no handler created later has a state in the session,
    and NULL otherwise, although the state is there. *)
Theorem fd_sess_state_retrieve_last σ hdl h x s :
  sess_wf σ → handlers σ !! hdl = Some h → heap σ !! x = Some s →
  fd_sess_state_retrieve σ hdl x =
    (match last (s_states s) with
     | Some st => if decide (st_hdl st = hdl)
                  then Ok (put x (with_states (remove_state hdl (s_states s)) s) σ, Some (st_state st)) else Ok (σ, None)
     | None => Ok (σ, None)
     end) ∧ sess_wf (put x (with_states (remove_state hdl (s_states s)) s) σ).
Proof. intros Hwf Hh Hx. by eapply state_retrieve_spec. Qed.

(** ** Examples *)

Module Examples.
Definition run1 (w : world) (st : step) : world := match exec_step w st with Ok (w', _) => w' | _ => w end.
Definition run (time : Z) (l : list step) : world := foldl run1 (init_world time) l.

Definition t0 : timespec := TS 1000 0.
Definition late : timespec := TS (1000 + SESS_DEFAULT_LIFETIME) 0.
Definition sidA : bytes := [65; 66].

(** Two handlers, two sessions, and a state of each handler in the first one. *)
Definition steps : list step :=
  Call <$> [HandlerCreate 7; HandlerCreate 8; New t0 None (Some (sidA, 2)); FromsidMsg t0 [67] 1; StateStore 0 0 100; StateStore 1 0 200].

Definition w1 : world := run 5 steps.
Definition σ1 : module := mod_of w1.

(** The steps of a history are valid, in the world where they are made. *)
Fixpoint all_valid (w : world) (l : list step) : Prop :=
  match l with [] => True | st :: l => valid_step w st ∧ all_valid (run1 w st) l end.

Lemma run_reachable time l w : reachable time w → all_valid w l → reachable time (foldl run1 w l).
Proof.
  revert w. induction l as [|st l IH]; intros w Hr; [done|]. intros [Hv Hl]. cbn [foldl]. apply IH; [|done].
  unfold run1. destruct (exec_step w st) as [[w' ev]| |] eqn:E; [|done..]. by eapply reach_step.
Qed.

Lemma sess_w1_reachable : reachable 5 w1.
Proof.
  apply run_reachable; [constructor|].
  repeat split; try (by vm_compute); try (vm_compute; by eexists).
Qed.

Lemma σ1_wf : sess_wf σ1.
Proof. apply (always_ok _ _ sess_w1_reachable). Qed.




(** The last reference is given back, the expiry thread destroys the session, and
    [fd_sess_reclaim] reads the freed object. *)
Example reclaim_race :
  exec_step (run 5 [Call (FromsidMsg t0 sidA 2); ReclaimMsgDrop 0; ExpPick late; ExpDestroy]) (ReclaimMsgEnd 0) = Crash.
Proof. by vm_compute. Qed.

(** A session that is destroyed while [fd_sess_fromsid] holds it stays in the hash
    table, destroyed and without a reference. *)
Example fromsid_leak :
  let σ := mod_of (run 5 [FromsidLink t0 sidA 2; Call (Destroy 0); FromsidDrop 0]) in
  (λ s, (s_is_destroyed s, s_msg_cnt s)) <$> (heap σ !! 0%nat) = Some (true, 0) ∧ exp_list σ = [].
Proof. by vm_compute. Qed.


Lemma fd_sess_new_witness :
  ∃ σ' x new, fd_sess_new σ1 t0 None (Some (sidA, 2)) = Ok (σ', x, new) ∧ new = false ∧ is_session σ' sidA x.
Proof.
  assert (readable None (Some (sidA, 2))) as Hr by (split; by vm_compute).
  destruct (fd_sess_new_spec σ1 t0 None (Some (sidA, 2)) σ1_wf Hr)
    as [(e & He & _)|(d & o & σ' & x & new & (_ & [= <-] & [= <-]) & Hn & _ & Hl)]; [by vm_compute in He|].
  exists σ', x, new. split; [exact Hn|]. split; [|eapply linked_session; exact Hl].
  assert ((match fd_sess_new σ1 t0 None (Some (sidA, 2)) with Ok (_, _, b) => b | _ => true end) = false) as E by (vm_compute; reflexivity).
  by rewrite Hn in E.
Defined.

Lemma exp_fct_witness :
  ∃ σ' ev, exp_fct 3 σ1 late = Ok (σ', ev) ∧ exp_list σ' = [] ∧ ev = [Cleanup 0 100 sidA; Cleanup 1 200 sidA].
Proof.
  destruct (exp_fct_terminates σ1 late σ1_wf) as (σ' & ev & l & He & _ & _ & _ & _ & Hlt).
  assert (S (length (exp_list σ1)) = 3%nat) as Hn by (vm_compute; reflexivity). rewrite Hn in He.
  exists σ', ev. split; [exact He|].
  assert ((match exp_fct 3 σ1 late with Ok (s, e) => Some (exp_list s, e) | _ => None end) =
          Some ([], [Cleanup 0 100 sidA; Cleanup 1 200 sidA])) as E by (vm_compute; reflexivity).
  rewrite He in E. injection E as -> ->. split; reflexivity.
Defined.

Lemma make_sid_witness :
  (make_sid σ1 (Some [97; 46; 98]) None).1 ≠ (make_sid (make_sid σ1 (Some [97; 46; 98]) None).2 (Some [97; 46; 98]) None).1.
Proof.
  intros He.
  destruct (make_sid_unique σ1 (make_sid σ1 (Some [97; 46; 98]) None).2 [97; 46; 98; 0] 0 [97; 46; 98] None [97; 46; 98; 0] 0 [97; 46; 98] None)
    as (_ & _ & H); [vm_compute; repeat split; congruence..|reflexivity|reflexivity|].
  destruct (H He) as (_ & _ & Hc). by vm_compute in Hc.
Defined.

(** The state of the first handler is not found. *)
Lemma fd_sess_state_retrieve_witness :
  fd_sess_state_retrieve σ1 0 0 = Ok (σ1, None) ∧ (s_states <$> (heap σ1 !! 0%nat)) = Some [State 100 0; State 200 1].
Proof.
  assert (∃ h, handlers σ1 !! 0%nat = Some h) as [h Hh] by (vm_compute; by eexists).
  assert (∃ s, heap σ1 !! 0%nat = Some s ∧ s_states s = [State 100 0; State 200 1]) as (s & Hs & Hst) by (vm_compute; by eexists).
  destruct (fd_sess_state_retrieve_last σ1 0 h 0 s σ1_wf Hh Hs) as [-> _].
  rewrite Hst. split; [done|]. by rewrite Hs; cbn; rewrite Hst.
Defined.

(** Changing the timeout of a destroyed session puts it into the expiry list
    without counting it; the next [fd_sess_new] with its identifier aborts. *)
Example settimeout_destroyed :
  exec_step (run 5 (Call <$> [New t0 None (Some (sidA, 2)); Destroy 0; Settimeout 0 t0])) (Call (New t0 None (Some (sidA, 2)))) = Crash.
Proof. vm_compute. reflexivity. Qed.

(** The counter of the active sessions keeps the sessions that were reclaimed. *)
Example sess_cnt_drift :
  let σ := mod_of (run 5 [Call (FromsidMsg t0 sidA 2); ReclaimMsgDrop 0; ReclaimMsgEnd 0]) in
  fd_sess_getcount σ = 1 ∧ exp_list σ = [].
Proof. by vm_compute. Qed.

(** A Session-Id with a NUL character is announced as accepted with a warning,
    and refused. *)
Example sid_with_nul : fd_sess_fromsid_msg σ1 t0 [65; 0; 66] 3 = Err EINVAL.
Proof. by vm_compute. Qed.
End Examples.
