(* ===== verification/SentReq.v ===== *)
(** * Sent requests ([libfdcore/p_sr.c])

    The requests sent to a peer that wait for their answer: [srs] orders them by
    their (new) hop-by-hop identifier, [exp] orders those with a timeout by its
    date.  Both chain the same structures, so a list holds addresses in [heap].
    The field [chain.o] points to the hop-by-hop identifier in the header of the
    request: here it is that field.  A definition is the code that runs while
    the mutex is held; the expiry thread is the sequence of its turns. *)

From stdpp Require Import base sorting sets list gmap.
From Stdlib Require Import ZArith Lia.
From S2P Require Import Prelude Time DictTypes Msg MsgTree Fifo.

(** ** Messages *)

Definition with_hdr (h : msg_hdr) (m : msg) : msg :=
  Msg (msg_model m) (msg_mnf m) h (msg_rawbuffer m) (msg_routable m) (msg_query m) (msg_associated m)
    (msg_rtdata m) (msg_sess m) (msg_callbacks m) (msg_src_id m) (msg_children m).

Definition hbhid (m : msg) : Z := msg_hbhid (msg_public m).

Definition set_hbhid (x : Z) (m : msg) : msg :=
  let h := msg_public m in
  with_hdr (MsgHdr (msg_version h) (msg_length h) (msg_flags h) (msg_code h) (msg_appl h) x (msg_eteid h)) m.

Definition CMD_FLAG_RETRANSMIT := 16.

Definition set_retransmit (m : msg) : msg :=
  let h := msg_public m in
  with_hdr (MsgHdr (msg_version h) (msg_length h) (Z.lor (msg_flags h) CMD_FLAG_RETRANSMIT) (msg_code h)
              (msg_appl h) (msg_hbhid h) (msg_eteid h)) m.

Definition ts_of (t : Z * Z) : timespec := TS (fst t) (snd t).

(** ** The list *)

Record sentreq := SentReq { sr_req : msg; prevhbh : Z; sr_timeout : timespec }.

(** [thr]: the expiry thread exists. *)
Record sr_list := SrList {
  srs : list nat; exp : list nat; heap : gmap nat sentreq; next_sr : nat;
  cnt : Z; cnt_lost : Z; thr : bool }.

Definition init_srl : sr_list := SrList [] [] ∅ 0 0 0 false.

Definition deref (h : gmap nat sentreq) (x : nat) : res sentreq :=
  match h !! x with Some s => Ok s | None => Crash end.

(** The rest of the list from the element where the loop ends, and [*match]. *)
Fixpoint find_or_next (h : gmap nat sentreq) (l : list nat) (hbh : Z) : res (list nat * bool) :=
  match l with
  | [] => Ok ([], false)
  | x :: l' =>
      let* s := deref h x in
      if decide (hbhid (sr_req s) < hbh) then find_or_next h l' hbh
      else Ok (l, bool_decide (hbhid (sr_req s) = hbh))
  end.

(** The same on the reversed list. *)
Fixpoint find_or_prev (h : gmap nat sentreq) (rl : list nat) (hbh : Z) : res (list nat * bool) :=
  match rl with
  | [] => Ok ([], false)
  | x :: rl' =>
      let* s := deref h x in
      if decide (hbhid (sr_req s) > hbh) then find_or_prev h rl' hbh
      else Ok (rl, bool_decide (hbhid (sr_req s) = hbh))
  end.

(** [fd_list_insert_after] the element where the walk of the reversed list has
    stopped with [rest]. *)
Definition insert_behind (rest : list nat) (x : nat) (l : list nat) : list nat :=
  rev rest ++ x :: drop (length rest) l.

(** "browse srlist->exp from the end" *)
Fixpoint exp_prev (h : gmap nat sentreq) (rl : list nat) (t : timespec) : res (list nat) :=
  match rl with
  | [] => Ok []
  | x :: rl' =>
      let* s := deref h x in
      if TS_IS_INFERIOR (sr_timeout s) t then Ok rl else exp_prev h rl' t
  end.

(** What happens to the expiry thread. *)
Inductive wake := Nothing | Created | Signalled.

(** [hbhloc] is the identifier in the header of the request: that is what the
    only caller, [do_send], gives. *)
Definition fd_p_sr_store (σ : sr_list) (req : msg) (hbh_restore : Z) : res (sr_list * wake) :=
  let* (prev, matched) := find_or_prev (heap σ) (rev (srs σ)) (hbhid req) in
  if (matched : bool) then Err EINVAL
  else
    let x := next_sr σ in
    let l := insert_behind prev x (srs σ) in
    match fd_msg_anscb_gettimeout req with
    | None =>
        Ok (SrList l (exp σ) (<[x := SentReq req hbh_restore (TS 0 0)]> (heap σ)) (S x)
              (cnt σ + 1) (cnt_lost σ) (thr σ), Nothing)
    | Some t =>
        let* li := exp_prev (heap σ) (rev (exp σ)) (ts_of t) in
        let w := if negb (thr σ) then Created else if decide (li = []) then Signalled else Nothing in
        Ok (SrList l (insert_behind li x (exp σ)) (<[x := SentReq req hbh_restore (ts_of t)]> (heap σ)) (S x)
              (cnt σ + 1) (cnt_lost σ) true, w)
    end.

(** Unlink a request from both lists and free the structure. *)
Definition remove (x : nat) (σ : sr_list) : sr_list :=
  SrList (unlink x (srs σ)) (unlink x (exp σ)) (delete x (heap σ)) (next_sr σ)
    (cnt σ - 1) (cnt_lost σ) (thr σ).

Definition set_lost (n : Z) (σ : sr_list) : sr_list :=
  SrList (srs σ) (exp σ) (heap σ) (next_sr σ) (cnt σ) n (thr σ).

Definition fd_p_sr_fetch (σ : sr_list) (hbh : Z) : res (sr_list * option msg) :=
  let* (li, matched) := find_or_next (heap σ) (srs σ) hbh in
  if (matched : bool) then
    match li with
    | [] => Crash
    | x :: _ => let* s := deref (heap σ) x in Ok (remove x σ, Some (set_hbhid (prevhbh s) (sr_req s)))
    end
  else Ok (if decide (cnt_lost σ > 0) then set_lost (cnt_lost σ - 1) σ else σ, None).

(** ** The expiry thread *)

(** A turn of the thread: it waits (until the date of the first request, if
    any), or it calls [expirecb] with its data and the request. *)
Inductive turn := Wait (until : option timespec) | Expire (cb : nat) (data : option nat) (request : msg).

Definition sr_expiry_th (σ : sr_list) (now : timespec) : res (sr_list * turn) :=
  match exp σ with
  | [] => Ok (σ, Wait None)
  | x :: _ =>
      let* s := deref (heap σ) x in
      if TS_IS_INFERIOR now (sr_timeout s) then Ok (σ, Wait (Some (sr_timeout s)))
      else
        let request := set_hbhid (prevhbh s) (sr_req s) in
        let σ := remove x σ in
        let σ := set_lost (cnt_lost σ + 1) σ in
        let '(_, cb, data) := fd_msg_anscb_get request in
        match cb with
        | None => Crash
        | Some cb => Ok (σ, Expire cb data (fd_msg_anscb_reset false true request))
        end
  end.

(** ** Failover *)

(** Posting to [fd_g_outgoing]; the message is freed when that fails. *)
Definition requeue (q : fifo msg) (m : msg) (now : timespec) : fifo msg :=
  match fd_fifo_post_noblock q m now now with Ok (q, _) => q | _ => q end.

Fixpoint failover_loop (l : list nat) (σ : sr_list) (q : fifo msg) (now : timespec) : res (sr_list * fifo msg) :=
  match l with
  | [] => Ok (σ, q)
  | x :: l =>
      let* s := deref (heap σ) x in
      let σ := remove x σ in
      let '(routable, m) := fd_msg_is_routable (sr_req s) in
      let q := if (routable : bool) then requeue q (set_hbhid (prevhbh s) (set_retransmit m)) now else q in
      failover_loop l σ q now
  end.

Definition fd_p_sr_failover (σ : sr_list) (q : fifo msg) (now : timespec) : res (sr_list * fifo msg) :=
  let* (σ, q) := failover_loop (srs σ) σ q now in
  assert! bool_decide (exp σ = []) in
  assert! bool_decide (cnt σ = 0) in
  Ok (SrList (srs σ) (exp σ) (heap σ) (next_sr σ) (cnt σ) (cnt_lost σ) false, q).

Fixpoint disconnect_loop (l : list nat) (σ : sr_list) : res sr_list :=
  match l with
  | [] => Ok σ
  | x :: l =>
      let* s := deref (heap σ) x in
      let '(routable, m) := fd_msg_is_routable (sr_req s) in
      disconnect_loop l
        (if (routable : bool) then
           SrList (srs σ) (exp σ) (<[x := SentReq m (prevhbh s) (sr_timeout s)]> (heap σ)) (next_sr σ)
             (cnt σ) (cnt_lost σ) (thr σ)
         else remove x σ)
  end.

Definition fd_p_sr_on_disconnect (σ : sr_list) : res sr_list := disconnect_loop (srs σ) σ.

(** ** The invariant *)

Definition hb (h : gmap nat sentreq) (x : nat) : Z :=
  match h !! x with Some s => hbhid (sr_req s) | None => 0 end.
Definition due (h : gmap nat sentreq) (x : nat) : timespec :=
  match h !! x with Some s => sr_timeout s | None => TS 0 0 end.
Definition hb_cmp (h : gmap nat sentreq) (x y : nat) : Z := hb h x - hb h y.

#[export] Instance hb_order h : CmpOrder (hb_cmp h).
Proof. apply (CmpOrder_key Z.sub (hb h)). Qed.

(** A timeout comes with a callback: [fd_msg_anscb_associate] sets both. *)
Definition armed (m : msg) : Prop :=
  is_Some (fd_msg_anscb_gettimeout m) → is_Some (expirecb (msg_callbacks m)).

Lemma armed_associate acb data ecb timeout m m' :
  armed m → fd_msg_anscb_associate acb data ecb timeout m = Ok m' → armed m'.
Proof.
  unfold fd_msg_anscb_associate, armed, fd_msg_anscb_gettimeout. intros Ha H.
  destruct (negb _); [destruct acb; [done|by injection H as <-]|]. destruct_res. subst m'. destruct acb, ecb; cbn; eauto.
Qed.

(** The requests with a timeout are those in [exp]. *)
Definition timed (e : list nat) (x : nat) (s : sentreq) : Prop :=
  match fd_msg_anscb_gettimeout (sr_req s) with
  | Some t => x ∈ e ∧ sr_timeout s = ts_of t
  | None => x ∉ e
  end.

Record sr_wf (σ : sr_list) : Prop := {
  wf_hbh : Increasing (hb_cmp (heap σ)) (srs σ);
  wf_srs x : x ∈ srs σ ↔ is_Some (heap σ !! x);
  wf_date : by_date (due (heap σ)) (exp σ);
  wf_nodup : NoDup (exp σ);
  wf_exp x : x ∈ exp σ → is_Some (heap σ !! x);
  wf_req x s : heap σ !! x = Some s → armed (sr_req s) ∧ timed (exp σ) x s;
  wf_fresh x : is_Some (heap σ !! x) → (x < next_sr σ)%nat;
  wf_cnt : cnt σ = zlen (srs σ);
  wf_lost : 0 ≤ cnt_lost σ;
  wf_thr : exp σ = [] ∨ thr σ = true }.

Lemma init_srl_wf : sr_wf init_srl.
Proof.
  split; cbn; try done.
  - apply SSorted_nil.
  - intros x. rewrite lookup_empty, is_Some_alt. by rewrite elem_of_nil.
  - apply SSorted_nil.
  - apply NoDup_nil_2.
  - by intros x ?%not_elem_of_nil.
  - intros x [? ?]. by rewrite lookup_empty in *.
  - by left.
Qed.

Lemma hb_some h x s : h !! x = Some s → hb h x = hbhid (sr_req s).
Proof. unfold hb. by intros ->. Qed.
Lemma due_some h x s : h !! x = Some s → due h x = sr_timeout s.
Proof. unfold due. by intros ->. Qed.
Lemma deref_some h x s : h !! x = Some s → deref h x = Ok s.
Proof. unfold deref. by intros ->. Qed.

(** ** The pending requests, by hop-by-hop identifier *)

Definition pending (σ : sr_list) : gmap Z sentreq :=
  list_to_map ((λ p, (hbhid (sr_req p.2), p.2)) <$> map_to_list (heap σ)).

Section pending.
Context (σ : sr_list) (Hwf : sr_wf σ).

Lemma same_hbh x y s t :
  heap σ !! x = Some s → heap σ !! y = Some t → hbhid (sr_req s) = hbhid (sr_req t) → x = y.
Proof.
  intros Hx Hy He. apply (Increasing_inj (hb_cmp (heap σ)) (srs σ)); [apply Hwf|apply (wf_srs σ Hwf); eauto..|].
  unfold hb_cmp. rewrite (hb_some _ _ _ Hx), (hb_some _ _ _ Hy). lia.
Qed.

Lemma pending_lookup k s : pending σ !! k = Some s ↔ ∃ x, heap σ !! x = Some s ∧ hbhid (sr_req s) = k.
Proof.
  unfold pending. rewrite <- elem_of_list_to_map.
  - rewrite list_elem_of_fmap. split.
    + intros ([x t] & [= -> ->] & Hx%elem_of_map_to_list). eauto.
    + intros (x & Hx & <-). exists (x, s). split; [done|]. by apply elem_of_map_to_list.
  - rewrite <- list_fmap_compose. apply NoDup_fmap_2_strong; [|apply NoDup_map_to_list].
    intros [x s'] [y t] Hx%elem_of_map_to_list Hy%elem_of_map_to_list Hk. cbn in Hk.
    assert (x = y) as -> by (by eapply same_hbh). congruence.
Qed.

Lemma pending_none k : pending σ !! k = None ↔ ∀ x s, heap σ !! x = Some s → hbhid (sr_req s) ≠ k.
Proof.
  rewrite eq_None_not_Some. split.
  - intros Hn x s Hx Hk. apply Hn. exists s. apply pending_lookup. eauto.
  - intros Hn [s (x & Hx & Hk)%pending_lookup]. by eapply Hn.
Qed.
End pending.

(** ** Removal *)

Section removal.
Context (σ : sr_list) (Hwf : sr_wf σ) (x : nat) (s : sentreq) (Hx : heap σ !! x = Some s).

Lemma removed_lookup y t : heap (remove x σ) !! y = Some t ↔ y ≠ x ∧ heap σ !! y = Some t.
Proof. cbn. rewrite lookup_delete_Some. naive_solver. Qed.

Lemma remove_wf : sr_wf (remove x σ).
Proof.
  assert (∀ {B} (f : option sentreq → B) y, y ≠ x → f (delete x (heap σ) !! y) = f (heap σ !! y)) as Hne
    by (intros; by rewrite lookup_delete_ne).
  split; cbn [remove srs exp heap next_sr cnt cnt_lost thr].
  - eapply (Increasing_ext (hb_cmp (heap σ))), Increasing_filter, Hwf.
    intros y z [Hy _]%elem_of_unlink [Hz _]%elem_of_unlink. unfold hb_cmp, hb. by rewrite !lookup_delete_ne.
  - intros y. rewrite elem_of_unlink, (wf_srs σ Hwf). split; [intros [Hy [t Ht]]|intros [t Ht%removed_lookup]].
    + exists t. by apply removed_lookup.
    + naive_solver.
  - refine (StronglySorted_ext _ _ _ _ (StronglySorted_filter _ _ _ (wf_date σ Hwf))).
    intros y z [Hy _]%elem_of_unlink [Hz _]%elem_of_unlink. unfold due. by rewrite !lookup_delete_ne.
  - apply NoDup_filter, Hwf.
  - intros y [Hy He]%elem_of_unlink. rewrite lookup_delete_ne by done. by apply (wf_exp σ Hwf).
  - intros y t [Hy Ht]%removed_lookup. destruct (wf_req σ Hwf y t Ht) as [Ha Ht']. split; [done|].
    unfold timed in *. destruct (fd_msg_anscb_gettimeout (sr_req t)); rewrite elem_of_unlink; naive_solver.
  - intros y [t [_ Ht]%removed_lookup]. apply (wf_fresh σ Hwf). eauto.
  - unfold unlink. rewrite zlen_removed by apply (Increasing_NoDup _ _ (wf_hbh σ Hwf)).
    rewrite (wf_cnt σ Hwf), decide_True; [done|]. apply (wf_srs σ Hwf). eauto.
  - apply Hwf.
  - destruct (wf_thr σ Hwf) as [->|?]; [left|right]; done.
Qed.

Lemma pending_remove : pending (remove x σ) = delete (hbhid (sr_req s)) (pending σ).
Proof.
  apply map_eq. intros k. apply option_eq. intros t.
  rewrite lookup_delete_Some, (pending_lookup _ remove_wf), (pending_lookup _ Hwf). split.
  - intros (y & [Hy Ht]%removed_lookup & <-). split; [|eauto].
    intros He. apply Hy. symmetry. by eapply (same_hbh σ Hwf).
  - intros [Hk (y & Hy & <-)]. exists y. split; [|done]. apply removed_lookup. split; [|done]. intros ->. naive_solver.
Qed.

Lemma pending_here : pending σ !! hbhid (sr_req s) = Some s.
Proof. apply pending_lookup; eauto. Qed.
End removal.

Lemma set_lost_wf n σ : 0 ≤ n → sr_wf σ → sr_wf (set_lost n σ).
Proof. intros Hn []. by split. Qed.

(** ** Searches *)

Lemma find_or_next_spec h l k :
  (∀ x, x ∈ l → is_Some (h !! x)) →
  ∃ a rest b, find_or_next h l k = Ok (rest, b) ∧ l = a ++ rest ∧ (∀ y, y ∈ a → hb h y < k) ∧
    match rest with [] => b = false | z :: _ => k ≤ hb h z ∧ b = bool_decide (hb h z = k) end.
Proof.
  induction l as [|x l IH]; intros Hl; [by exists [], [], false; set_solver|]. cbn [find_or_next].
  destruct (Hl x) as [s Hs]; [by left|]. rewrite (deref_some _ _ _ Hs). cbn [res_bind].
  pose proof (hb_some _ _ _ Hs) as Hb. case_decide.
  - destruct IH as (a & rest & b & -> & -> & Ha & Hr); [set_solver|]. exists (x :: a), rest, b. split_and!; [done..| |done].
    intros y [->|Hy]%elem_of_cons; [lia|auto].
  - exists [], (x :: l), (bool_decide (hbhid (sr_req s) = k)). rewrite Hb. split_and!; [done..|set_solver|lia|done].
Qed.

Lemma find_or_prev_spec h l k :
  (∀ x, x ∈ l → is_Some (h !! x)) →
  ∃ a rest b, find_or_prev h l k = Ok (rest, b) ∧ l = a ++ rest ∧ (∀ y, y ∈ a → k < hb h y) ∧
    match rest with [] => b = false | z :: _ => hb h z ≤ k ∧ b = bool_decide (hb h z = k) end.
Proof.
  induction l as [|x l IH]; intros Hl; [by exists [], [], false; set_solver|]. cbn [find_or_prev].
  destruct (Hl x) as [s Hs]; [by left|]. rewrite (deref_some _ _ _ Hs). cbn [res_bind].
  pose proof (hb_some _ _ _ Hs) as Hb. case_decide.
  - destruct IH as (a & rest & b & -> & -> & Ha & Hr); [set_solver|]. exists (x :: a), rest, b. split_and!; [done..| |done].
    intros y [->|Hy]%elem_of_cons; [lia|auto].
  - exists [], (x :: l), (bool_decide (hbhid (sr_req s) = k)). rewrite Hb. split_and!; [done..|set_solver|lia|done].
Qed.

Lemma exp_prev_spec h l t :
  (∀ x, x ∈ l → is_Some (h !! x)) →
  ∃ a rest, exp_prev h l t = Ok rest ∧ l = a ++ rest ∧ (∀ y, y ∈ a → ts_le t (due h y)) ∧
    match rest with [] => True | z :: _ => ts_lt (due h z) t end.
Proof.
  induction l as [|x l IH]; intros Hl; [by exists [], []; set_solver|]. cbn [exp_prev].
  destruct (Hl x) as [s Hs]; [by left|]. rewrite (deref_some _ _ _ Hs). cbn [res_bind].
  pose proof (due_some _ _ _ Hs) as Hb. destruct (TS_IS_INFERIOR _ _) eqn:E.
  - exists [], (x :: l). rewrite Hb. split_and!; [done..|set_solver|]. by apply TS_IS_INFERIOR_true.
  - destruct IH as (a & rest & -> & -> & Ha & Hr); [set_solver|]. exists (x :: a), rest. split_and!; [done..| |done].
    intros y [->|Hy]%elem_of_cons; [|auto]. rewrite Hb. by apply TS_IS_INFERIOR_false.
Qed.

(** Where [insert_behind] puts the new element. *)
Lemma insert_behind_app rest a x l : rev l = a ++ rest → l = rev rest ++ rev a ∧ insert_behind rest x l = rev rest ++ x :: rev a.
Proof.
  intros Hl. assert (l = rev rest ++ rev a) as ->; [by rewrite <- rev_app_distr, <- Hl, rev_involutive|].
  split; [done|]. unfold insert_behind. by rewrite drop_app_length' by (by rewrite length_rev).
Qed.

(** ** Storing *)

Section insertion.
Context (σ : sr_list) (Hwf : sr_wf σ) (s : sentreq).
Notation x := (next_sr σ).
Notation h := (<[next_sr σ := s]> (heap σ)).

Lemma next_free : heap σ !! x = None.
Proof. apply eq_None_not_Some. intros Hx%(wf_fresh σ Hwf). lia. Qed.

Lemma old_other y : is_Some (heap σ !! y) → y ≠ x.
Proof. intros Hy%(wf_fresh σ Hwf). lia. Qed.

Lemma old_hb y : is_Some (heap σ !! y) → hb h y = hb (heap σ) y.
Proof. intros Hy%old_other. unfold hb. by rewrite lookup_insert_ne. Qed.
Lemma old_due y : is_Some (heap σ !! y) → due h y = due (heap σ) y.
Proof. intros Hy%old_other. unfold due. by rewrite lookup_insert_ne. Qed.

Definition inserted (l e : list nat) (b : bool) : sr_list :=
  SrList l e h (S x) (cnt σ + 1) (cnt_lost σ) b.

Lemma insert_wf l e b :
  l ≡ₚ x :: srs σ → Increasing (hb_cmp h) l → e = exp σ ∨ e ≡ₚ x :: exp σ → by_date (due h) e →
  armed (sr_req s) → timed e x s → e = [] ∨ b = true → sr_wf (inserted l e b).
Proof.
  intros Hl Hinc He Hd Ha Ht Hb.
  assert (∀ y, y ∈ e → y = x ∨ y ∈ exp σ) as Hin.
  { intros y Hy. destruct He as [->|Hp]; [by right|]. rewrite Hp in Hy. by apply elem_of_cons in Hy. }
  assert (x ∉ exp σ) as Hxe by (intros Hy%(wf_exp σ Hwf)%old_other; done).
  split; cbn [inserted srs exp heap next_sr cnt cnt_lost thr]; try done.
  - intros y. rewrite Hl, elem_of_cons, (wf_srs σ Hwf), lookup_insert_is_Some. destruct (decide (y = x)); naive_solver.
  - destruct He as [-> | ->]; [apply Hwf|]. constructor; [done|apply Hwf].
  - intros y [->|Hy]%Hin; apply lookup_insert_is_Some; [by left|]. apply (wf_exp σ Hwf) in Hy.
    right. split; [|done]. apply old_other in Hy. done.
  - intros y t. rewrite lookup_insert_Some. intros [[<- <-]|[Hne Hy]]; [done|].
    destruct (wf_req σ Hwf y t Hy) as [Hya Hyt]. split; [done|]. unfold timed in *.
    assert (y ∈ e ↔ y ∈ exp σ) as Hiff; [|by destruct (fd_msg_anscb_gettimeout (sr_req t)); rewrite Hiff].
    destruct He as [-> | ->]; [done|]. rewrite elem_of_cons. naive_solver.
  - intros y Hy. destruct (decide (y = x)) as [->|Hne]; [lia|]. rewrite lookup_insert_ne in Hy by done.
    apply (wf_fresh σ Hwf) in Hy. lia.
  - rewrite (wf_cnt σ Hwf). unfold zlen. rewrite Hl. cbn [length]. lia.
  - apply Hwf.
Qed.

Lemma pending_insert l e b :
  sr_wf (inserted l e b) → pending (inserted l e b) = <[hbhid (sr_req s) := s]> (pending σ).
Proof.
  intros Hwf'. apply map_eq. intros k. apply option_eq. intros t.
  rewrite lookup_insert_Some, (pending_lookup _ Hwf'), (pending_lookup _ Hwf). cbn [inserted heap].
  setoid_rewrite lookup_insert_Some. split.
  - intros (y & [[<- <-]|[Hne Hy]] & <-); [by left|right]. split; [|eauto]. intros He. apply Hne.
    apply (same_hbh _ Hwf' x y s t); cbn; [apply lookup_insert_eq|by rewrite lookup_insert_ne|done].
  - intros [[<- <-]|[Hne (y & Hy & <-)]].
    + exists x. split; [by left|done].
    + exists y. split; [right|done]. split; [|done]. intros <-. by rewrite next_free in Hy.
Qed.

(** The place of a new hop-by-hop identifier. *)
Lemma inserted_hbh rest a :
  rev (srs σ) = a ++ rest → (∀ y, y ∈ a → hbhid (sr_req s) < hb (heap σ) y) →
  match rest with [] => True | z :: _ => hb (heap σ) z < hbhid (sr_req s) end →
  Increasing (hb_cmp h) (insert_behind rest x (srs σ)).
Proof.
  intros Hl Ha Hz. destruct (insert_behind_app rest a x (srs σ) Hl) as [Hs ->].
  assert (∀ y, y ∈ srs σ → is_Some (heap σ !! y)) as Hin by (intros y; apply (wf_srs σ Hwf)).
  assert (hb h x = hbhid (sr_req s)) as Hx by (apply hb_some, lookup_insert_eq).
  apply StronglySorted_mid.
  - rewrite <- Hs. eapply Increasing_ext; [|apply Hwf]. intros y z Hy Hz'. unfold hb_cmp. by rewrite !old_hb by auto.
  - apply Forall_forall. intros y Hy. assert (y ∈ srs σ) as Hy' by (rewrite Hs; set_solver).
    unfold hb_cmp. rewrite Hx, old_hb by auto. destruct rest as [|z r]; [by apply not_elem_of_nil in Hy|].
    cbn [rev] in *. apply elem_of_app in Hy as [Hy|Hy%list_elem_of_singleton]; [|subst y; lia].
    pose proof (wf_hbh σ Hwf) as Hi. rewrite Hs, <- app_assoc in Hi. apply StronglySorted_app_last in Hi.
    rewrite Forall_forall in Hi. specialize (Hi y Hy). unfold hb_cmp in Hi. lia.
  - apply Forall_forall. intros y Hy%list_elem_of_In%in_rev%list_elem_of_In. specialize (Ha y Hy).
    assert (y ∈ srs σ) as Hy'.
    { rewrite Hs, elem_of_app. right. by rewrite list_elem_of_In, <- in_rev, <- list_elem_of_In. }
    unfold hb_cmp. rewrite Hx, old_hb by auto. lia.
Qed.

(** The place of a new date. *)
Lemma inserted_date rest a :
  rev (exp σ) = a ++ rest → (∀ y, y ∈ a → ts_le (sr_timeout s) (due (heap σ) y)) →
  match rest with [] => True | z :: _ => ts_lt (due (heap σ) z) (sr_timeout s) end →
  by_date (due h) (insert_behind rest x (exp σ)) ∧ insert_behind rest x (exp σ) ≡ₚ x :: exp σ.
Proof.
  intros Hl Ha Hz. destruct (insert_behind_app rest a x (exp σ) Hl) as [Hs ->]. split; [|by rewrite Hs, Permutation_middle].
  assert (∀ y, y ∈ exp σ → due h y = due (heap σ) y) as Hold by (intros y Hy; by apply old_due, (wf_exp σ Hwf)).
  assert (∀ y, y ∈ a ++ rest → y ∈ exp σ) as Hin.
  { intros y Hy. rewrite <- Hl in Hy. by rewrite list_elem_of_In, in_rev, <- list_elem_of_In. }
  apply (by_date_last (due h) x (sr_timeout s)).
  - rewrite <- Hs. refine (StronglySorted_ext _ _ _ _ (wf_date σ Hwf)). intros y z Hy Hz'. by rewrite !Hold.
  - apply due_some, lookup_insert_eq.
  - intros y Hy. rewrite Hold by (apply Hin; set_solver). auto.
  - destruct rest as [|z r]; [done|]. rewrite Hold by (apply Hin; set_solver). done.
Qed.
End insertion.

Lemma elem_of_rev {A} (x : A) l : x ∈ rev l ↔ x ∈ l.
Proof. by rewrite !list_elem_of_In, <- in_rev. Qed.

(** The outcome of a search is decided by the pending requests. *)
Definition match_or_not (σ : sr_list) (k : Z) (b : bool) : Prop :=
  b = bool_decide (is_Some (pending σ !! k)).

Lemma prev_pending σ k :
  sr_wf σ → ∃ a rest b, find_or_prev (heap σ) (rev (srs σ)) k = Ok (rest, b) ∧ rev (srs σ) = a ++ rest ∧
    (∀ y, y ∈ a → k < hb (heap σ) y) ∧ match_or_not σ k b ∧
    (b = false → match rest with [] => True | z :: _ => hb (heap σ) z < k end).
Proof.
  intros Hwf. destruct (find_or_prev_spec (heap σ) (rev (srs σ)) k) as (a & rest & b & Hf & Hl & Hgt & Hz).
  { intros x. rewrite elem_of_rev. apply (wf_srs σ Hwf). }
  exists a, rest, b. split_and!; [done..| |].
  2: { intros ->. destruct rest as [|z r]; [done|]. destruct Hz as [Hz Hb]. symmetry in Hb. apply bool_decide_eq_false in Hb. lia. }
  assert (∀ x s, heap σ !! x = Some s → hbhid (sr_req s) = k → ∃ z r, rest = z :: r ∧ hb (heap σ) z = k) as Hm.
  { intros x s Hx He. assert (x ∈ a ++ rest) as Hin by (rewrite <- Hl, elem_of_rev; apply (wf_srs σ Hwf); eauto).
    pose proof (hb_some _ _ _ Hx) as Hb. apply elem_of_app in Hin as [Hin|Hin]; [specialize (Hgt x Hin); lia|].
    destruct rest as [|z r]; [by apply not_elem_of_nil in Hin|]. exists z, r. split; [done|]. destruct Hz as [Hz _].
    apply elem_of_cons in Hin as [->|Hin]; [congruence|].
    pose proof (wf_hbh σ Hwf) as Hi. apply (insert_behind_app _ _ 0%nat) in Hl as [Hl _]. cbn [rev] in Hl.
    rewrite Hl, <- app_assoc in Hi. apply StronglySorted_app_last in Hi. rewrite Forall_forall in Hi.
    specialize (Hi x (proj2 (elem_of_rev _ _) Hin)). unfold hb_cmp in Hi. lia. }
  symmetry. destruct b.
  - apply bool_decide_eq_true. destruct rest as [|z r]; [done|]. destruct Hz as [_ Hb]. symmetry in Hb. apply bool_decide_eq_true in Hb.
    destruct (proj1 (wf_srs σ Hwf z)) as [s Hs]; [rewrite <- elem_of_rev, Hl; set_solver|].
    exists s. apply (pending_lookup σ Hwf). exists z. by rewrite <- Hb, (hb_some _ _ _ Hs).
  - apply bool_decide_eq_false. intros [s (x & Hx & He)%(pending_lookup σ Hwf)].
    destruct (Hm x s Hx He) as (z & r & -> & Hb). destruct Hz as [_ Hz]. symmetry in Hz. by apply bool_decide_eq_false in Hz.
Qed.

Lemma next_pending σ k :
  sr_wf σ → ∃ rest b, find_or_next (heap σ) (srs σ) k = Ok (rest, b) ∧ match_or_not σ k b ∧
    (b = true → ∃ z r s, rest = z :: r ∧ heap σ !! z = Some s ∧ hbhid (sr_req s) = k).
Proof.
  intros Hwf. destruct (find_or_next_spec (heap σ) (srs σ) k) as (a & rest & b & Hf & Hl & Hlt & Hz).
  { intros x Hx. by apply (wf_srs σ Hwf). }
  assert (b = true → ∃ z r s, rest = z :: r ∧ heap σ !! z = Some s ∧ hbhid (sr_req s) = k) as Hfound.
  { intros ->. destruct rest as [|z r]; [done|]. destruct Hz as [_ Hb]. symmetry in Hb. apply bool_decide_eq_true in Hb.
    destruct (proj1 (wf_srs σ Hwf z)) as [s Hs]; [rewrite Hl; set_solver|].
    exists z, r, s. by rewrite <- Hb, (hb_some _ _ _ Hs). }
  exists rest, b. split_and!; [done| |done]. symmetry. destruct b.
  - apply bool_decide_eq_true. destruct (Hfound eq_refl) as (z & r & s & _ & Hs & He). exists s. apply (pending_lookup σ Hwf). eauto.
  - apply bool_decide_eq_false. intros [s (x & Hx & He)%(pending_lookup σ Hwf)]. pose proof (hb_some _ _ _ Hx) as Hb.
    assert (x ∈ a ++ rest) as Hin by (rewrite <- Hl; apply (wf_srs σ Hwf); eauto).
    apply elem_of_app in Hin as [Hin|Hin]; [specialize (Hlt x Hin); lia|].
    destruct rest as [|z r]; [by apply not_elem_of_nil in Hin|]. destruct Hz as [Hz Hbz]. symmetry in Hbz. apply bool_decide_eq_false in Hbz.
    apply elem_of_cons in Hin as [->|Hin]; [congruence|].
    pose proof (wf_hbh σ Hwf) as Hi. rewrite Hl in Hi. apply StronglySorted_app_r in Hi as [_ Hi]%StronglySorted_inv.
    rewrite Forall_forall in Hi. specialize (Hi x Hin). unfold hb_cmp in Hi. lia.
Qed.

Lemma store_spec σ req restore :
  sr_wf σ → armed req →
  match pending σ !! hbhid req with
  | Some _ => fd_p_sr_store σ req restore = Err EINVAL
  | None =>
      ∃ σ' w t, fd_p_sr_store σ req restore = Ok (σ', w) ∧ sr_wf σ' ∧
        pending σ' = <[hbhid req := SentReq req restore t]> (pending σ) ∧ cnt_lost σ' = cnt_lost σ ∧
        (∀ d, fd_msg_anscb_gettimeout req = Some d → t = ts_of d) ∧
        (head (exp σ') = head (exp σ) ∨ w ≠ Nothing)
  end.
Proof.
  intros Hwf Ha. unfold fd_p_sr_store.
  destruct (prev_pending σ (hbhid req) Hwf) as (a & rest & b & -> & Hl & Hgt & Hb & Hz). cbn [res_bind].
  unfold match_or_not in Hb. destruct (pending σ !! hbhid req) as [s|] eqn:Hn; [by rewrite bool_decide_eq_true_2 in Hb by eauto; subst b|].
  rewrite bool_decide_eq_false_2 in Hb by (by intros [??]). subst b. specialize (Hz eq_refl).
  pose proof (insert_behind_app rest a (next_sr σ) _ Hl) as [Hsrs Hib].
  assert (insert_behind rest (next_sr σ) (srs σ) ≡ₚ next_sr σ :: srs σ) as Hp by (by rewrite Hib, Hsrs, Permutation_middle).
  destruct (fd_msg_anscb_gettimeout req) as [t|] eqn:Et.
  - destruct (exp_prev_spec (heap σ) (rev (exp σ)) (ts_of t)) as (ae & re & -> & Hle & Hge & Hze).
    { intros x. rewrite elem_of_rev. apply (wf_exp σ Hwf). }
    cbn [res_bind].
    destruct (inserted_date σ Hwf (SentReq req restore (ts_of t)) re ae Hle Hge Hze) as [Hd Hpe].
    assert (sr_wf (inserted σ (SentReq req restore (ts_of t)) (insert_behind rest (next_sr σ) (srs σ))
               (insert_behind re (next_sr σ) (exp σ)) true)) as Hwf'.
    { apply insert_wf; [done|done|by apply (inserted_hbh σ Hwf _ rest a)|by right|done|done| |by right].
      unfold timed. cbn [sr_req sr_timeout]. rewrite Et. split; [|done]. rewrite Hpe. by left. }
    eexists _, _, (ts_of t). split; [reflexivity|]. split_and!; [exact Hwf'|by apply (pending_insert σ Hwf)|done|by intros d [= <-]|].
    destruct (thr σ); cbn [negb]; [|by right]. destruct (decide (re = [])) as [->|Hre]; [by right|left].
    destruct (insert_behind_app re ae (next_sr σ) _ Hle) as [He Hie]. cbn [exp]. rewrite Hie, He.
    destruct (exists_last Hre) as (r0 & z & ->). by rewrite rev_app_distr.
  - assert (sr_wf (inserted σ (SentReq req restore (TS 0 0)) (insert_behind rest (next_sr σ) (srs σ)) (exp σ) (thr σ))) as Hwf'.
    { apply insert_wf; [done|done|by apply (inserted_hbh σ Hwf _ rest a)|by left| |done| |apply Hwf].
      - refine (StronglySorted_ext _ _ _ _ (wf_date σ Hwf)).
        intros y z Hy%(wf_exp σ Hwf) Hz'%(wf_exp σ Hwf). by rewrite !(old_due σ Hwf).
      - unfold timed. cbn [sr_req]. rewrite Et. intros Hx%(wf_exp σ Hwf)%(old_other σ Hwf). done. }
    eexists _, _, (TS 0 0). split; [reflexivity|]. split_and!; [exact Hwf'|by apply (pending_insert σ Hwf)|done|done|by left].
Qed.

(** ** Fetching *)

(** The request as its sender knows it. *)
Definition original (s : sentreq) : msg := set_hbhid (prevhbh s) (sr_req s).

Lemma fetch_spec σ k :
  sr_wf σ →
  ∃ σ', fd_p_sr_fetch σ k = Ok (σ', original <$> pending σ !! k) ∧ sr_wf σ' ∧ pending σ' = delete k (pending σ) ∧
    cnt_lost σ' = if pending σ !! k then cnt_lost σ else Z.max 0 (cnt_lost σ - 1).
Proof.
  intros Hwf. unfold fd_p_sr_fetch. destruct (next_pending σ k Hwf) as (rest & b & -> & Hb & Hf). cbn [res_bind].
  unfold match_or_not in Hb. destruct (pending σ !! k) as [s|] eqn:Hp.
  - rewrite bool_decide_eq_true_2 in Hb by eauto. subst b. destruct (Hf eq_refl) as (z & r & t & -> & Hz & He).
    assert (s = t) as -> by (rewrite <- He, (pending_here σ Hwf z t Hz) in Hp; congruence).
    rewrite (deref_some _ _ _ Hz). exists (remove z σ). split; [done|]. split_and!; [by eapply remove_wf| |done].
    by rewrite (pending_remove σ Hwf z t Hz), He.
  - rewrite bool_decide_eq_false_2 in Hb by (by intros [??]). subst b. pose proof (wf_lost σ Hwf) as Hl.
    eexists. split; [reflexivity|]. rewrite delete_id by done. case_decide; cbn [set_lost cnt_lost].
    + split_and!; [apply set_lost_wf; [lia|done]|done|lia].
    + split_and!; [done|done|lia].
Qed.

(** ** Expiry *)

Definition has_timeout (s : sentreq) : Prop := is_Some (fd_msg_anscb_gettimeout (sr_req s)).

Lemma timeout_in_exp σ x s : sr_wf σ → heap σ !! x = Some s → has_timeout s → x ∈ exp σ.
Proof.
  intros Hwf Hx [t Ht]. destruct (wf_req σ Hwf x s Hx) as [_ Htm]. unfold timed in Htm. rewrite Ht in Htm. by destruct Htm.
Qed.

(** A turn waits when no request with a timeout is due; else it gives up the
    one that was due first. *)
Lemma expiry_spec σ now :
  sr_wf σ →
  (∃ u, sr_expiry_th σ now = Ok (σ, Wait u) ∧
     ∀ k s, pending σ !! k = Some s → has_timeout s → ts_lt now (sr_timeout s)) ∨
  (∃ σ' k s cb, pending σ !! k = Some s ∧ has_timeout s ∧ ts_le (sr_timeout s) now ∧
     (∀ k' s', pending σ !! k' = Some s' → has_timeout s' → ts_le (sr_timeout s) (sr_timeout s')) ∧
     expirecb (msg_callbacks (sr_req s)) = Some cb ∧
     sr_expiry_th σ now = Ok (σ', Expire cb (cb_data (msg_callbacks (sr_req s))) (fd_msg_anscb_reset false true (original s))) ∧
     sr_wf σ' ∧ pending σ' = delete k (pending σ) ∧ cnt_lost σ' = cnt_lost σ + 1 ∧ exp σ' = tail (exp σ)).
Proof.
  intros Hwf. unfold sr_expiry_th. destruct (exp σ) as [|x l] eqn:He.
  { left. eexists. split; [done|]. intros k s (x & Hx & _)%(pending_lookup σ Hwf) Ht.
    apply (timeout_in_exp σ x s Hwf Hx) in Ht. rewrite He in Ht. by apply not_elem_of_nil in Ht. }
  destruct (wf_exp σ Hwf x) as [s Hs]; [rewrite He; by left|]. rewrite (deref_some _ _ _ Hs). cbn [res_bind].
  assert (∀ k s', pending σ !! k = Some s' → has_timeout s' → ts_le (sr_timeout s) (sr_timeout s')) as Hmin.
  { intros k s' (y & Hy & _)%(pending_lookup σ Hwf) Ht. apply (timeout_in_exp σ y s' Hwf Hy) in Ht.
    rewrite <- (due_some _ _ _ Hs), <- (due_some _ _ _ Hy). pose proof (wf_date σ Hwf) as Hd. rewrite He in Hd, Ht.
    eapply sorted_head_le; [exact Hd| |exact Ht]. unfold ts_le, ts_lt. lia. }
  destruct (TS_IS_INFERIOR now (sr_timeout s)) eqn:E.
  - left. eexists. split; [done|]. intros k s' Hp Ht. apply TS_IS_INFERIOR_true in E. specialize (Hmin k s' Hp Ht). ts_lia.
  - right. apply TS_IS_INFERIOR_false in E. destruct (wf_req σ Hwf x s Hs) as [Ha Ht].
    assert (has_timeout s) as Hto.
    { unfold timed in Ht. unfold has_timeout. destruct (fd_msg_anscb_gettimeout (sr_req s)); [eauto|].
      exfalso. apply Ht. rewrite He. by left. }
    destruct (Ha Hto) as [cb Hcb].
    assert (fd_msg_anscb_get (set_hbhid (prevhbh s) (sr_req s))
            = (anscb (msg_callbacks (sr_req s)), Some cb, cb_data (msg_callbacks (sr_req s)))) as Hg.
    { unfold fd_msg_anscb_get. cbn. by rewrite Hcb. }
    rewrite Hg. eexists _, (hbhid (sr_req s)), s, cb. split_and!; [by eapply pending_here|done|done|done|done|reflexivity| | |done|].
    + apply set_lost_wf; [pose proof (wf_lost σ Hwf); cbn; lia|]. by eapply remove_wf.
    + by apply (pending_remove σ Hwf).
    + cbn [set_lost exp remove]. rewrite He. cbn [tail]. pose proof (wf_nodup σ Hwf) as Hn. rewrite He in Hn.
      apply NoDup_cons in Hn as [Hx _]. unfold unlink. rewrite filter_cons, decide_False by (intros H; by apply H).
      by apply unlink_absent.
Qed.

(** ** Failover and disconnection *)

Definition entries (σ : sr_list) : list sentreq := omap (λ x, heap σ !! x) (srs σ).

Definition routable (s : sentreq) : bool := fst (fd_msg_is_routable (sr_req s)).
Definition cached (s : sentreq) : sentreq := SentReq (snd (fd_msg_is_routable (sr_req s))) (prevhbh s) (sr_timeout s).

(** What is sent again: the original request with the T flag. *)
Definition retried (s : sentreq) : option msg :=
  if routable s then Some (original (SentReq (set_retransmit (sr_req (cached s))) (prevhbh s) (sr_timeout s))) else None.

Lemma requeue_items q m now :
  eyec q = true → items (requeue q m now) = items q ++ [(m, now)] ∧ eyec (requeue q m now) = true.
Proof. intros He. unfold requeue, fd_fifo_post_noblock. rewrite He. cbn. by rewrite He. Qed.

Lemma remove_head σ x l :
  sr_wf σ → srs σ = x :: l → srs (remove x σ) = l ∧ entries σ = option_list (heap σ !! x) ++ entries (remove x σ).
Proof.
  intros Hwf Hl. pose proof (Increasing_NoDup _ _ (wf_hbh σ Hwf)) as Hn. rewrite Hl in Hn. apply NoDup_cons in Hn as [Hx _].
  assert (srs (remove x σ) = l) as Hr.
  { cbn [remove srs]. rewrite Hl. unfold unlink. rewrite filter_cons, decide_False by (intros H; by apply H). by apply unlink_absent. }
  split; [done|]. unfold entries. rewrite Hr, Hl. cbn [remove heap omap list_omap].
  assert (omap (λ y, heap σ !! y) l = omap (λ y, delete x (heap σ) !! y) l) as ->.
  { clear Hr Hl. induction l as [|y l IH]; [done|]. cbn. rewrite lookup_delete_ne by set_solver. rewrite IH by set_solver. done. }
  by destruct (heap σ !! x).
Qed.

Lemma failover_loop_spec σ q now :
  sr_wf σ → eyec q = true →
  ∃ σ' q', failover_loop (srs σ) σ q now = Ok (σ', q') ∧ sr_wf σ' ∧ srs σ' = [] ∧
    items q' = items q ++ ((λ m, (m, now)) <$> omap retried (entries σ)) ∧ eyec q' = true.
Proof.
  remember (srs σ) as l eqn:Hl. revert σ q Hl. induction l as [|x l IH]; intros σ q Hl Hwf Hq.
  - exists σ, q. cbn [failover_loop]. unfold entries. rewrite <- Hl. cbn. by rewrite app_nil_r.
  - destruct (proj1 (wf_srs σ Hwf x)) as [s Hs]; [rewrite <- Hl; by left|]. cbn [failover_loop].
    rewrite (deref_some _ _ _ Hs). cbn [res_bind]. destruct (remove_head σ x l Hwf (eq_sym Hl)) as [Hr He].
    pose proof (remove_wf σ Hwf x s Hs) as Hwf'. rewrite He, Hs.
    change (omap retried (option_list (Some s) ++ entries (remove x σ)))
      with (match retried s with Some m => m :: omap retried (entries (remove x σ)) | None => omap retried (entries (remove x σ)) end).
    assert (retried s = let '(r, m) := fd_msg_is_routable (sr_req s) in
                        if (r : bool) then Some (set_hbhid (prevhbh s) (set_retransmit m)) else None) as ->
      by (unfold retried, routable, cached, original; by destruct (fd_msg_is_routable (sr_req s)) as [[] ?]).
    destruct (fd_msg_is_routable (sr_req s)) as [[] m].
    + destruct (requeue_items q (set_hbhid (prevhbh s) (set_retransmit m)) now Hq) as [Hi Hq'].
      destruct (IH _ _ (eq_sym Hr) Hwf' Hq') as (σ' & q' & -> & H1 & H2 & H3 & H4). exists σ', q'. split_and!; [done..| |done].
      by rewrite H3, Hi, <- app_assoc.
    + by apply IH.
Qed.

Lemma failover_spec σ q now :
  sr_wf σ → eyec q = true →
  ∃ σ' q', fd_p_sr_failover σ q now = Ok (σ', q') ∧ sr_wf σ' ∧ pending σ' = ∅ ∧ cnt σ' = 0 ∧ exp σ' = [] ∧
    items q' = items q ++ ((λ m, (m, now)) <$> omap retried (entries σ)) ∧ eyec q' = true.
Proof.
  intros Hwf Hq. unfold fd_p_sr_failover.
  destruct (failover_loop_spec σ q now Hwf Hq) as (σ' & q' & -> & Hwf' & Hs & Hi & Hq'). cbn [res_bind].
  assert (heap σ' = ∅) as Hh.
  { apply map_empty. intros x. apply eq_None_not_Some. intros Hx%(wf_srs σ' Hwf'). rewrite Hs in Hx. by apply not_elem_of_nil in Hx. }
  assert (exp σ' = []) as He.
  { destruct (exp σ') as [|x l] eqn:He; [done|]. destruct (wf_exp σ' Hwf' x) as [s Hx]; [rewrite He; by left|]. by rewrite Hh in Hx. }
  assert (cnt σ' = 0) as Hc by (rewrite (wf_cnt σ' Hwf'), Hs; done).
  rewrite (bool_decide_eq_true_2 _ He), (bool_decide_eq_true_2 _ Hc). eexists _, q'. split; [reflexivity|]. split_and!; [|by unfold pending; cbn; rewrite Hh|done..].
  destruct Hwf'. split; cbn; try done. by left.
Qed.

Lemma cached_same s : hbhid (sr_req (cached s)) = hbhid (sr_req s) ∧ sr_timeout (cached s) = sr_timeout s ∧
  fd_msg_anscb_gettimeout (sr_req (cached s)) = fd_msg_anscb_gettimeout (sr_req s) ∧
  msg_callbacks (sr_req (cached s)) = msg_callbacks (sr_req s).
Proof. done. Qed.

Lemma cache_wf σ x s :
  sr_wf σ → heap σ !! x = Some s →
  sr_wf (SrList (srs σ) (exp σ) (<[x := cached s]> (heap σ)) (next_sr σ) (cnt σ) (cnt_lost σ) (thr σ)).
Proof.
  intros Hwf Hx. assert (∀ y, hb (<[x := cached s]> (heap σ)) y = hb (heap σ) y ∧ due (<[x := cached s]> (heap σ)) y = due (heap σ) y) as Hs.
  { intros y. unfold hb, due. destruct (decide (y = x)) as [->|Hne]; [by rewrite lookup_insert_eq, Hx|by rewrite lookup_insert_ne]. }
  assert (∀ y, is_Some (<[x := cached s]> (heap σ) !! y) ↔ is_Some (heap σ !! y)) as Hd.
  { intros y. rewrite lookup_insert_is_Some. destruct (decide (y = x)) as [->|]; naive_solver. }
  split; cbn [srs exp heap next_sr cnt cnt_lost thr]; try apply Hwf.
  - eapply Increasing_ext; [|apply Hwf]. intros y z _ _. unfold hb_cmp. destruct (Hs y) as [-> _], (Hs z) as [-> _]. done.
  - intros y. rewrite Hd. apply Hwf.
  - refine (StronglySorted_ext _ _ _ _ (wf_date σ Hwf)). intros y z _ _. destruct (Hs y) as [_ ->], (Hs z) as [_ ->]. done.
  - intros y Hy. apply Hd. by apply (wf_exp σ Hwf).
  - intros y t. rewrite lookup_insert_Some. intros [[<- <-]|[_ Hy]]; [exact (wf_req σ Hwf x s Hx)|by apply (wf_req σ Hwf)].
  - intros y Hy%Hd. by apply (wf_fresh σ Hwf).
Qed.

Definition keep (s : sentreq) : option sentreq := if routable s then Some (cached s) else None.

Lemma disconnect_loop_spec l σ :
  sr_wf σ → NoDup l → (∀ x, x ∈ l → x ∈ srs σ) →
  ∃ σ', disconnect_loop l σ = Ok σ' ∧ sr_wf σ' ∧ cnt_lost σ' = cnt_lost σ ∧
    ∀ x, heap σ' !! x = if decide (x ∈ l) then (heap σ !! x ≫= keep) else heap σ !! x.
Proof.
  revert σ. induction l as [|x l IH]; intros σ Hwf Hn Hl; [by exists σ|]. apply NoDup_cons in Hn as [Hx Hn].
  destruct (proj1 (wf_srs σ Hwf x)) as [s Hs]; [apply Hl; by left|]. cbn [disconnect_loop].
  rewrite (deref_some _ _ _ Hs). cbn [res_bind].
  assert (fd_msg_is_routable (sr_req s) = (routable s, sr_req (cached s))) as -> by (apply surjective_pairing).
  change (SentReq (sr_req (cached s)) (prevhbh s) (sr_timeout s)) with (cached s).
  destruct (routable s) eqn:Er.
  - destruct (IH _ (cache_wf σ x s Hwf Hs) Hn) as (σ' & -> & Hwf' & Hl' & Hh); [set_solver|].
    exists σ'. split_and!; [done..|]. intros y. rewrite Hh. cbn [heap]. destruct (decide (y = x)) as [->|Hne].
    + rewrite decide_False, lookup_insert_eq by done. rewrite decide_True by (by left). rewrite Hs. simplify_option_eq. unfold keep. by rewrite Er.
    + rewrite lookup_insert_ne by done. destruct (decide (y ∈ l)) as [Hy|Hy]; [rewrite decide_True by (by right)|rewrite decide_False by set_solver]; done.
  - destruct (IH _ (remove_wf σ Hwf x s Hs) Hn) as (σ' & -> & Hwf' & Hl' & Hh).
    { intros y Hy. cbn [remove srs]. apply elem_of_unlink. split; [by intros ->|]. apply Hl. by right. }
    exists σ'. split_and!; [done..|]. intros y. rewrite Hh. cbn [remove heap]. destruct (decide (y = x)) as [->|Hne].
    + rewrite decide_False, lookup_delete_eq by done. rewrite decide_True by (by left). rewrite Hs. simplify_option_eq. unfold keep. by rewrite Er.
    + rewrite lookup_delete_ne by done. destruct (decide (y ∈ l)) as [Hy|Hy]; [rewrite decide_True by (by right)|rewrite decide_False by set_solver]; done.
Qed.

Lemma disconnect_spec σ :
  sr_wf σ →
  ∃ σ', fd_p_sr_on_disconnect σ = Ok σ' ∧ sr_wf σ' ∧ cnt_lost σ' = cnt_lost σ ∧
    pending σ' = cached <$> filter (λ p, routable p.2 = true) (pending σ).
Proof.
  intros Hwf. destruct (disconnect_loop_spec (srs σ) σ Hwf) as (σ' & He & Hwf' & Hl & Hh); [apply (Increasing_NoDup _ _ (wf_hbh σ Hwf))|done|].
  exists σ'. split_and!; [done..|]. apply map_eq. intros k. apply option_eq. intros t.
  rewrite lookup_fmap_Some. setoid_rewrite map_lookup_filter_Some. cbn [snd].
  rewrite (pending_lookup _ Hwf'). setoid_rewrite (pending_lookup _ Hwf). split.
  - intros (x & Hx & <-). rewrite Hh in Hx. case_decide as Hin.
    + destruct (heap σ !! x) as [s|] eqn:Hs; [|done]. change (keep s = Some t) in Hx. unfold keep in Hx. destruct (routable s) eqn:Er; [|done]. injection Hx as <-.
      exists s. naive_solver.
    + exfalso. apply Hin, (wf_srs σ Hwf). eauto.
  - intros (s & <- & (x & Hs & Hk) & Hr). exists x. rewrite Hh, decide_True by (apply (wf_srs σ Hwf); eauto). rewrite Hs.
    change (keep s = Some (cached s) ∧ hbhid (sr_req s) = k). unfold keep. by rewrite Hr.
Qed.

(** ** The contract *)

Inductive sr_op := OpStore (m : msg) (restore : Z) | OpFetch (hbh : Z) | OpTurn (now : timespec)
  | OpFailover (now : timespec) | OpDisconnect.
Inductive sr_out := Stored | Refused | Fetched (m : option msg) | Turned (t : turn) | Done.

(** The list and the queue [fd_g_outgoing]. *)
Definition sr_exec (st : sr_list * fifo msg) (o : sr_op) : res (sr_list * fifo msg * sr_out) :=
  let '(σ, q) := st in
  match o with
  | OpStore m restore =>
      match fd_p_sr_store σ m restore with
      | Ok (σ, _) => Ok (σ, q, Stored) | Err _ => Ok (σ, q, Refused) | Crash => Crash
      end
  | OpFetch k => let* (σ, m) := fd_p_sr_fetch σ k in Ok (σ, q, Fetched m)
  | OpTurn now => let* (σ, t) := sr_expiry_th σ now in Ok (σ, q, Turned t)
  | OpFailover now => let* (σ, q) := fd_p_sr_failover σ q now in Ok (σ, q, Done)
  | OpDisconnect => let* σ := fd_p_sr_on_disconnect σ in Ok (σ, q, Done)
  end.

Definition op_ok (o : sr_op) : Prop := match o with OpStore m _ => armed m | _ => True end.

Inductive sr_reachable : sr_list * fifo msg → Prop :=
  | sr_start q : eyec q = true → sr_reachable (init_srl, q)
  | sr_next st o σ q out : sr_reachable st → op_ok o → sr_exec st o = Ok (σ, q, out) → sr_reachable (σ, q).

(** The abstract state: the unanswered requests by hop-by-hop identifier, and
    the messages in the outgoing queue. *)
Inductive sr_spec : gmap Z sentreq * list msg → sr_op → gmap Z sentreq * list msg → sr_out → Prop :=
  | spec_store P out m r t :
      P !! hbhid m = None → (∀ d, fd_msg_anscb_gettimeout m = Some d → t = ts_of d) →
      sr_spec (P, out) (OpStore m r) (<[hbhid m := SentReq m r t]> P, out) Stored
  | spec_refuse P out m r s : P !! hbhid m = Some s → sr_spec (P, out) (OpStore m r) (P, out) Refused
  | spec_fetch P out k : sr_spec (P, out) (OpFetch k) (delete k P, out) (Fetched (original <$> P !! k))
  | spec_wait P out now u :
      (∀ k s, P !! k = Some s → has_timeout s → ts_lt now (sr_timeout s)) →
      sr_spec (P, out) (OpTurn now) (P, out) (Turned (Wait u))
  | spec_expire P out now k s cb :
      P !! k = Some s → has_timeout s → ts_le (sr_timeout s) now →
      (∀ k' s', P !! k' = Some s' → has_timeout s' → ts_le (sr_timeout s) (sr_timeout s')) →
      expirecb (msg_callbacks (sr_req s)) = Some cb →
      sr_spec (P, out) (OpTurn now) (delete k P, out)
        (Turned (Expire cb (cb_data (msg_callbacks (sr_req s))) (fd_msg_anscb_reset false true (original s))))
  | spec_failover P out now l :
      StronglySorted (λ s t, hbhid (sr_req s) < hbhid (sr_req t)) l →
      (∀ s, s ∈ l ↔ P !! hbhid (sr_req s) = Some s) →
      sr_spec (P, out) (OpFailover now) (∅, out ++ omap retried l) Done
  | spec_disconnect P out :
      sr_spec (P, out) OpDisconnect (cached <$> filter (λ p, routable p.2 = true) P, out) Done.

Definition abstraction (st : sr_list * fifo msg) : gmap Z sentreq * list msg :=
  (pending st.1, fst <$> items st.2).

Lemma entries_spec σ :
  sr_wf σ →
  StronglySorted (λ s t, hbhid (sr_req s) < hbhid (sr_req t)) (entries σ) ∧
  ∀ s, s ∈ entries σ ↔ pending σ !! hbhid (sr_req s) = Some s.
Proof.
  intros Hwf. split.
  - unfold entries. assert (∀ x, x ∈ srs σ → is_Some (heap σ !! x)) as Hin by (intros x; apply (wf_srs σ Hwf)).
    pose proof (wf_hbh σ Hwf) as Hs. unfold Increasing in Hs. revert Hin. induction Hs as [|x l Hs IH Hx]; [constructor|].
    intros Hin. destruct (Hin x) as [s Hs']; [by left|]. cbn. rewrite Hs'. constructor; [apply IH; set_solver|].
    apply Forall_forall. intros t Ht. apply list_elem_of_omap in Ht as (y & Hy & Ht). rewrite Forall_forall in Hx.
    specialize (Hx y Hy). unfold hb_cmp in Hx. rewrite (hb_some _ _ _ Hs'), (hb_some _ _ _ Ht) in Hx. lia.
  - intros s. unfold entries. rewrite list_elem_of_omap, (pending_lookup σ Hwf). split.
    + intros (x & _ & Hx). eauto.
    + intros (x & Hx & _). exists x. split; [|done]. apply (wf_srs σ Hwf). eauto.
Qed.

Definition sr_good (st : sr_list * fifo msg) : Prop := sr_wf st.1 ∧ eyec st.2 = true.

(** Every operation on a good state does one step of the contract. *)
Lemma sr_exec_spec st o :
  sr_good st → op_ok o →
  ∃ st' out, sr_exec st o = Ok (st', out) ∧ sr_good st' ∧ sr_spec (abstraction st) o (abstraction st') out.
Proof.
  destruct st as [σ q]. intros [Hwf Hq] Ho. cbn [fst snd] in *. unfold abstraction. destruct o as [m r|k|now|now|]; cbn [sr_exec].
  - pose proof (store_spec σ m r Hwf Ho) as H. destruct (pending σ !! hbhid m) as [s|] eqn:Hp.
    + rewrite H. exists (σ, q), Refused. split_and!; [done..|]. by econstructor.
    + destruct H as (σ' & w & t & -> & Hwf' & Hp' & _ & Ht & _). exists (σ', q), Stored. split_and!; [done..|]. cbn. rewrite Hp'. by constructor.
  - destruct (fetch_spec σ k Hwf) as (σ' & -> & Hwf' & Hp & _). eexists (σ', q), _. split_and!; [reflexivity|done|]. cbn. rewrite Hp. constructor.
  - destruct (expiry_spec σ now Hwf) as [(u & -> & Hn)|(σ' & k & s & cb & Hk & Ht & Hd & Hm & Hcb & -> & Hwf' & Hp & _)].
    + eexists (σ, q), _. split_and!; [reflexivity|done|]. by constructor.
    + eexists (σ', q), _. split_and!; [reflexivity|done|]. cbn. rewrite Hp. by econstructor.
  - destruct (failover_spec σ q now Hwf Hq) as (σ' & q' & -> & Hwf' & Hp & _ & _ & Hi & Hq'). eexists (σ', q'), _.
    split_and!; [reflexivity|done|]. cbn. rewrite Hp, Hi, fmap_app, <- list_fmap_compose.
    rewrite (list_fmap_ext (fst ∘ λ m, (m, now)) id), list_fmap_id by done.
    destruct (entries_spec σ Hwf). by constructor.
  - destruct (disconnect_spec σ Hwf) as (σ' & -> & Hwf' & _ & Hp). eexists (σ', q), _. split_and!; [reflexivity|done|]. cbn. rewrite Hp. constructor.
Qed.

Lemma sr_always_good st : sr_reachable st → sr_good st.
Proof.
  induction 1 as [q Hq|st o σ q out _ IH Ho He]; [split; [apply init_srl_wf|done]|].
  destruct (sr_exec_spec st o IH Ho) as (st' & out' & He' & Hg & _). rewrite He in He'. by injection He' as <- _.
Qed.

(** C36: In every reachable state of the list of sent requests each operation
    (storing, fetching by hop-by-hop identifier, a turn of the expiry thread,
    failover, disconnection) completes without an abort and does what the
    contract says: a request is stored under a free identifier and is given
    back once, with the identifier its sender gave it; a turn gives up the
    request that is due first; failover sends the routable requests again in the
    order of their identifiers with the T flag and empties the list. *)
Theorem fd_p_sr_refines st o :
  sr_reachable st → op_ok o →
  ∃ st' out, sr_exec st o = Ok (st', out) ∧ sr_spec (abstraction st) o (abstraction st') out.
Proof.
  intros Hr Ho. destruct (sr_exec_spec st o (sr_always_good st Hr) Ho) as (st' & out & He & _ & Hs). eauto.
Qed.

(** ** Examples *)

Module Examples.
Definition request (hbh appl : Z) (timeout : Z) : msg :=
  set_cb (MsgCb None (if decide (timeout = 0) then None else Some 1%nat) (Some 2%nat) (timeout, 0))
    (with_hdr (MsgHdr 1 20 CMD_FLAG_REQUEST 272 appl hbh 5) init_msg).

Definition queue0 : fifo msg := fd_fifo_new 0.
Definition stored : sr_list * fifo msg :=
  match sr_exec (init_srl, queue0) (OpStore (request 7 4 100) 3) with Ok (st, _) => st | _ => (init_srl, queue0) end.

Lemma stored_reachable : sr_reachable stored.
Proof.
  apply (sr_next (init_srl, queue0) (OpStore (request 7 4 100) 3) _ _ Stored); [by apply sr_start| |by vm_compute].
  intros _. vm_compute. eauto.
Qed.

(** The answer comes: the request has its identifier 3 again.  It does not come:
    the callback gets the request.  The peer is lost: the request is queued
    again. *)
Lemma fd_p_sr_refines_witness :
  (∃ st out, sr_exec stored (OpFetch 7) = Ok (st, out) ∧ out = Fetched (Some (request 3 4 100))) ∧
  (∃ st, sr_exec stored (OpTurn (TS 100 0)) = Ok (st, Turned (Expire 1 (Some 2%nat) (fd_msg_anscb_reset false true (request 3 4 100))))) ∧
  (∃ st out, sr_exec stored (OpFailover (TS 50 0)) = Ok (st, out) ∧ sr_spec (abstraction stored) (OpFailover (TS 50 0)) (abstraction st) out ∧
     (fst <$> items st.2) = [set_retransmit (snd (fd_msg_is_routable (request 3 4 100)))]).
Proof.
  split; [by eexists _, _; vm_compute|]. split; [by eexists; vm_compute|].
  destruct (fd_p_sr_refines stored (OpFailover (TS 50 0)) stored_reachable I) as (st & out & He & Hs).
  exists st, out. split; [exact He|]. split; [exact Hs|]. vm_compute in He. injection He as <- <-. by vm_compute.
Defined.

(** A second request with the identifier of a pending one is refused; [do_send]
    has changed its identifier by then. *)
Example store_twice : sr_exec stored (OpStore (request 7 4 0) 9) = Ok (stored, Refused).
Proof. by vm_compute. Qed.
End Examples.
