(* ===== verification/Apps.v ===== *)
(** * Lists of applications ([libfdcore/apps.c])

    The applications a node supports: a list ordered by application identifier
    without duplicates, filled by [fd_app_merge] from the AVPs of a CER or CEA
    (or from the configuration), searched by the routing and compared with the
    list of a peer when a connection opens.  The chained list is a Rocq list;
    allocation succeeds. *)

From stdpp Require Import base sorting sets list.
From Stdlib Require Import ZArith Lia.
From S2P Require Import Prelude.

(** [flags.auth], [flags.acct] *)
Record fd_app := App { appid : Z; vndid : Z; app_auth : bool; app_acct : bool }.

Fixpoint fd_app_merge (l : list fd_app) (aid vid : Z) (auth acct : bool) : list fd_app :=
  match l with
  | [] => [App aid vid auth acct]
  | na :: l' =>
      if decide (appid na < aid) then na :: fd_app_merge l' aid vid auth acct
      else if decide (appid na > aid) then App aid vid auth acct :: l
      else App (appid na) (vndid na) (auth || app_auth na) (acct || app_acct na) :: l'
  end.

(** [*detail] *)
Fixpoint fd_app_check (l : list fd_app) (aid : Z) : option fd_app :=
  match l with
  | [] => None
  | a :: l => if decide (appid a < aid) then fd_app_check l aid
              else if decide (appid a = aid) then Some a else None
  end.

(** [*common_found]: both lists advance. *)
Fixpoint fd_app_check_common (list1 list2 : list fd_app) {struct list1} : bool :=
  match list1 with
  | [] => false
  | a1 :: l1 =>
      (fix go (list2 : list fd_app) : bool :=
         match list2 with
         | [] => false
         | a2 :: l2 =>
             if decide (appid a1 < appid a2) then fd_app_check_common l1 list2
             else if decide (appid a1 > appid a2) then go l2
             else if (app_auth a1 && app_auth a2) || (app_acct a1 && app_acct a2) then true
             else fd_app_check_common l1 l2
         end) list2
  end.

Definition fd_app_empty (l : list fd_app) : list fd_app := [].

Definition fd_app_count (l : list fd_app) : Z := foldl (λ count _, count + 1) 0 l.

(** ** Properties *)

Definition app_cmp (a b : fd_app) : Z := appid a - appid b.
#[export] Instance app_order : CmpOrder app_cmp.
Proof. apply (CmpOrder_key Z.sub appid). Qed.

(** The applications of a history of [fd_app_merge] from the empty list. *)
Record merge := Merge { m_aid : Z; m_vid : Z; m_auth : bool; m_acct : bool }.
Definition merge_all (ms : list merge) : list fd_app :=
  foldl (λ l m, fd_app_merge l (m_aid m) (m_vid m) (m_auth m) (m_acct m)) [] ms.

Lemma merge_elem l aid vid auth acct b :
  Increasing app_cmp l →
  b ∈ fd_app_merge l aid vid auth acct →
  b ∈ l ∧ appid b ≠ aid ∨
  appid b = aid ∧ (app_auth b = true ↔ auth = true ∨ ∃ a, a ∈ l ∧ appid a = aid ∧ app_auth a = true) ∧
    (app_acct b = true ↔ acct = true ∨ ∃ a, a ∈ l ∧ appid a = aid ∧ app_acct a = true).
Proof.
  induction 1 as [|x l Hs IH Hx]; cbn [fd_app_merge].
  { intros ->%list_elem_of_singleton. right. cbn. split; [done|]. split; (split; [by left|intros [?|(a & Ha & _)]; [done|by apply not_elem_of_nil in Ha]]). }
  rewrite Forall_forall in Hx. unfold app_cmp in Hx. case_decide as H1; [|case_decide as H2].
  - intros [->|Hb]%elem_of_cons; [left; split; [by left|lia]|]. destruct (IH Hb) as [[Hl Hn]|(He & Ha & Hc)]; [left; split; [by right|done]|right].
    split; [done|]. rewrite Ha, Hc. setoid_rewrite elem_of_cons. split; (split; [naive_solver|]);
      (intros [?|(a & [->|?] & ? & ?)]; [by left|lia|right; eauto]).
  - assert (∀ a, a ∈ x :: l → appid a ≠ aid) as Hne.
    { intros a [->|Ha]%elem_of_cons; [lia|]. specialize (Hx a Ha). lia. }
    intros [->|Hb]%elem_of_cons; [right|left; split; [done|by apply Hne]]. cbn. split; [done|].
    split; (split; [by left|intros [?|(a & Ha & ? & _)]; [done|by destruct (Hne a Ha)]]).
  - assert (appid x = aid) as He by lia.
    assert (∀ a, a ∈ x :: l → appid a = aid → a = x) as Hu.
    { intros a [->|Ha]%elem_of_cons ?; [done|]. specialize (Hx a Ha). lia. }
    intros [->|Hb]%elem_of_cons; [right|left; split; [by right|specialize (Hx b Hb); lia]].
    cbn. rewrite He, !orb_true_iff. split; [done|]. split; (split; [intros [?|?]; [by left|right; exists x; split_and!; [by left|done..]]|]);
      (intros [?|(a & Ha & ? & ?)]; [by left|right; by rewrite <- (Hu a)]).
Qed.

Lemma merge_ids l aid vid auth acct k :
  (∃ b, b ∈ fd_app_merge l aid vid auth acct ∧ appid b = k) ↔ k = aid ∨ ∃ a, a ∈ l ∧ appid a = k.
Proof.
  induction l as [|x l IH]; cbn [fd_app_merge].
  { setoid_rewrite list_elem_of_singleton. split; [intros (b & -> & <-); by left|].
    intros [->|(a & Ha & _)]; [by eexists|by apply not_elem_of_nil in Ha]. }
  assert (∀ y (l' : list fd_app), (∃ b, b ∈ y :: l' ∧ appid b = k) ↔ appid y = k ∨ ∃ b, b ∈ l' ∧ appid b = k) as Hc.
  { intros y l'. setoid_rewrite elem_of_cons. split; [intros (b & [->|?] & ?)|intros [?|(b & ? & ?)]]; eauto. }
  case_decide as H1; [|case_decide as H2]; rewrite !Hc; cbn [appid].
  - rewrite IH. tauto.
  - split; intros [?|?]; auto.
  - assert (appid x = aid) as -> by lia. split; [intros [?|?]|intros [?|[?|?]]]; auto.
Qed.

Lemma merge_increasing l aid vid auth acct :
  Increasing app_cmp l → Increasing app_cmp (fd_app_merge l aid vid auth acct).
Proof.
  induction 1 as [|x l Hs IH Hx]; cbn [fd_app_merge]; [by repeat constructor|]. pose proof Hx as Hx'. rewrite Forall_forall in Hx'.
  unfold app_cmp in Hx'. case_decide as H1; [|case_decide as H2].
  - constructor; [done|]. apply Forall_forall. intros b Hb. unfold app_cmp.
    destruct (proj1 (merge_ids l aid vid auth acct (appid b))) as [->|(a & Ha & <-)]; [by eauto|lia|by apply Hx'].
  - constructor; [by constructor|]. apply Forall_cons. unfold app_cmp. cbn. split; [lia|].
    apply Forall_forall. intros b Hb. specialize (Hx' b Hb). cbn. lia.
  - by constructor.
Qed.

Lemma merge_all_increasing ms : Increasing app_cmp (merge_all ms).
Proof.
  unfold merge_all. assert (Increasing app_cmp []) as H by apply SSorted_nil. revert H. generalize (@nil fd_app).
  induction ms as [|m ms IH]; [done|]. intros l H. cbn. apply IH. by apply merge_increasing.
Qed.

(** What a history says of an application. *)
Definition claims (f : merge → bool) (ms : list merge) (k : Z) : Prop := ∃ m, m ∈ ms ∧ m_aid m = k ∧ f m = true.

Lemma merge_all_flags ms k :
  ((∃ a, a ∈ merge_all ms ∧ appid a = k) ↔ ∃ m, m ∈ ms ∧ m_aid m = k) ∧
  ∀ a, a ∈ merge_all ms → appid a = k → (app_auth a = true ↔ claims m_auth ms k) ∧ (app_acct a = true ↔ claims m_acct ms k).
Proof.
  unfold claims. induction ms as [|m ms IH] using rev_ind.
  { split; [set_solver|]. by intros a ?%not_elem_of_nil. }
  unfold merge_all. rewrite foldl_app. cbn [foldl]. fold (merge_all ms). destruct IH as [IH1 IH2].
  setoid_rewrite elem_of_app. setoid_rewrite list_elem_of_singleton. split.
  - rewrite merge_ids, IH1. naive_solver.
  - intros a Ha <-. destruct (merge_elem _ _ _ _ _ _ (merge_all_increasing ms) Ha) as [[Hl Hn]|(He & -> & ->)].
    + destruct (IH2 a Hl eq_refl) as [-> ->]. naive_solver.
    + assert (∀ f (g : fd_app → bool), (∀ b, b ∈ merge_all ms → appid b = appid a → (g b = true ↔ ∃ m0, m0 ∈ ms ∧ m_aid m0 = appid a ∧ f m0 = true)) →
        (f m = true ∨ (∃ b, b ∈ merge_all ms ∧ appid b = m_aid m ∧ g b = true) ↔
         ∃ m0, (m0 ∈ ms ∨ m0 = m) ∧ m_aid m0 = appid a ∧ f m0 = true)) as Hg.
      { intros f g Hfg. rewrite <- He. split.
        - intros [Hf|(b & Hb & Hba & Hg)]; [exists m; naive_solver|]. apply (Hfg b Hb Hba) in Hg as (m0 & ? & ? & ?). exists m0. naive_solver.
        - intros (m0 & [Hm| ->] & Ha0 & Hf); [right|by left]. destruct (proj2 IH1) as (b & Hb & Hba); [by eauto|].
          exists b. split_and!; [done..|]. apply Hfg; [done..|]. eauto. }
      split; apply Hg; intros b Hb Hba; by apply IH2.
Qed.

(** Sharing an application for authorization or for accounting. *)
Definition shared (a b : fd_app) : Prop :=
  appid a = appid b ∧ (app_auth a = true ∧ app_auth b = true ∨ app_acct a = true ∧ app_acct b = true).

Lemma check_common_spec l1 l2 :
  Increasing app_cmp l1 → Increasing app_cmp l2 →
  fd_app_check_common l1 l2 = true ↔ ∃ a b, a ∈ l1 ∧ b ∈ l2 ∧ shared a b.
Proof.
  intros H1. revert l2. induction H1 as [|a1 l1 Hs1 IH1 Hx1]; intros l2 H2.
  { split; [done|]. by intros (a & b & ?%not_elem_of_nil & _). }
  rewrite Forall_forall in Hx1. unfold app_cmp in Hx1. induction H2 as [|a2 l2 Hs2 IH2 Hx2].
  { split; [done|]. by intros (a & b & _ & ?%not_elem_of_nil & _). }
  rewrite Forall_forall in Hx2. unfold app_cmp in Hx2. cbn [fd_app_check_common]. case_decide as Hd1; [|case_decide as Hd2].
  - rewrite IH1 by (constructor; [done|by apply Forall_forall]). split; [intros (a & b & ? & ? & ?); exists a, b; set_solver|].
    intros (a & b & [->|Ha]%elem_of_cons & Hb & Hsh); [|eauto]. exfalso. destruct Hsh as [Hsh _].
    apply elem_of_cons in Hb as [->|Hb]; [lia|]. specialize (Hx2 b Hb). lia.
  - rewrite IH2. split; [intros (a & b & ? & ? & ?); exists a, b; set_solver|].
    intros (a & b & Ha & [->|Hb]%elem_of_cons & Hsh); [|eauto]. exfalso. destruct Hsh as [Hsh _].
    apply elem_of_cons in Ha as [->|Ha]; [lia|]. specialize (Hx1 a Ha). lia.
  - assert (appid a1 = appid a2) as He by lia. destruct ((app_auth a1 && app_auth a2) || _) eqn:Ef.
    + split; [intros _|done]. exists a1, a2. split; [by left|]. split; [by left|]. split; [done|].
      apply orb_true_iff in Ef as [?%andb_true_iff|?%andb_true_iff]; tauto.
    + rewrite IH1 by done. split; [intros (a & b & ? & ? & ?); exists a, b; set_solver|].
      intros (a & b & Ha & Hb & Hk & Hsh). apply elem_of_cons in Ha as [->|Ha], Hb as [->|Hb].
      * apply orb_false_iff in Ef as [?%andb_false_iff ?%andb_false_iff]. destruct Hsh as [[? ?]|[? ?]]; intuition congruence.
      * specialize (Hx2 b Hb). lia.
      * specialize (Hx1 a Ha). lia.
      * exists a, b. by split_and!.
Qed.

Lemma check_spec l k :
  Increasing app_cmp l →
  match fd_app_check l k with
  | Some a => a ∈ l ∧ appid a = k
  | None => ∀ a, a ∈ l → appid a ≠ k
  end.
Proof.
  induction 1 as [|x l Hs IH Hx]; cbn [fd_app_check]; [set_solver|]. rewrite Forall_forall in Hx. unfold app_cmp in Hx.
  case_decide as H1; [|case_decide as H2].
  - destruct (fd_app_check l k); [set_solver|]. intros a [->|Ha]%elem_of_cons; [lia|by apply IH].
  - split; [by left|done].
  - intros a [->|Ha]%elem_of_cons; [done|]. specialize (Hx a Ha). lia.
Qed.

Lemma app_count_spec l : fd_app_count l = zlen l.
Proof.
  unfold fd_app_count. enough (∀ n, foldl (λ count _, count + 1) n l = n + zlen l) as -> by lia.
  induction l as [|x l IH]; intros n; cbn; [rewrite zlen_nil; lia|]. rewrite IH, zlen_cons. lia.
Qed.

(** C37: The lists of applications built by [fd_app_merge] from any sequences of
    advertised applications behave like sets: [fd_app_check] finds an application
    exactly when it was advertised, with the union of its roles, and
    [fd_app_check_common] answers whether some application was advertised to
    both sides for authorization, or to both for accounting. *)
Theorem fd_app_lists_spec ms1 ms2 k :
  match fd_app_check (merge_all ms1) k with
  | Some a => appid a = k ∧ (app_auth a = true ↔ claims m_auth ms1 k) ∧ (app_acct a = true ↔ claims m_acct ms1 k)
  | None => ¬ ∃ m, m ∈ ms1 ∧ m_aid m = k
  end ∧
  (fd_app_check_common (merge_all ms1) (merge_all ms2) = true ↔
   ∃ k, claims m_auth ms1 k ∧ claims m_auth ms2 k ∨ claims m_acct ms1 k ∧ claims m_acct ms2 k).
Proof.
  split.
  - pose proof (check_spec _ k (merge_all_increasing ms1)) as Hc. destruct (merge_all_flags ms1 k) as [Hi Hf].
    destruct (fd_app_check (merge_all ms1) k) as [a|]; [destruct Hc as [Ha He]; split; [done|by apply Hf]|].
    rewrite <- Hi. intros (a & Ha & He). by apply (Hc a).
  - rewrite check_common_spec by apply merge_all_increasing. split.
    + intros (a & b & Ha & Hb & Hk & Hsh). exists (appid a).
      destruct (merge_all_flags ms1 (appid a)) as [_ H1], (merge_all_flags ms2 (appid a)) as [_ H2].
      destruct (H1 a Ha eq_refl) as [<- <-], (H2 b Hb (eq_sym Hk)) as [<- <-]. done.
    + intros (k' & Hk). destruct (merge_all_flags ms1 k') as [[_ I1] H1], (merge_all_flags ms2 k') as [[_ I2] H2]. unfold claims in *.
      destruct I1 as (a & Ha & Hak); [naive_solver|]. destruct I2 as (b & Hb & Hbk); [naive_solver|].
      exists a, b. split_and!; [done..|]. split; [congruence|].
      destruct (H1 a Ha Hak) as [-> ->], (H2 b Hb Hbk) as [-> ->]. done.
Qed.
