(* ===== verification/DictFct.v ===== *)
(** * The formats of derived types ([libfdproto/dictionary_functions.c])

    Addresses, times, and the check for characters.  [time_t] is a signed 64-bit
    integer; the two bytes of a port are the number the field holds. *)

From Stdlib Require Import ZArith Lia.
From stdpp Require Import base list.
From S2P Require Import Prelude DictTypes.

(** [struct sockaddr_storage], as far as the code looks at it: the family, the
    address in network order, the port. *)
Inductive sockaddr :=
  | SA_IN (addr : bytes) (port : Z)
  | SA_IN6 (addr : bytes) (port : Z)
  | SA_OTHER (family : Z).

#[export] Instance sockaddr_eq_dec : EqDecision sockaddr.
Proof. solve_decision. Defined.

(** The sizes of the addresses. *)
Definition sa_wf (s : sockaddr) : Prop :=
  match s with
  | SA_IN a p => zlen a = 4 ∧ is_bytes a ∧ 0 ≤ p < 2 ^ 16
  | SA_IN6 a p => zlen a = 16 ∧ is_bytes a ∧ 0 ≤ p < 2 ^ 16
  | SA_OTHER f => True
  end.

#[export] Instance sa_wf_dec s : Decision (sa_wf s).
Proof. destruct s; unfold sa_wf, is_bytes, is_byte; apply _. Defined.

(** ** Address *)

Definition fd_dictfct_Address_encode (ss : sockaddr) : res avp_value :=
  match ss with
  | SA_IN a _ => Ok (OS (be 2 1 ++ a))
  | SA_IN6 a _ => Ok (OS (be 2 2 ++ a))
  | SA_OTHER _ => Err EINVAL
  end.

(** The result is written into zeroed storage. *)
Definition fd_dictfct_Address_interpret (v : avp_value) : res sockaddr :=
  match v with
  | NUM _ => Crash
  | OS os =>
      check bool_decide (2 ≤ zlen os) in
      let type := unbe (take 2 os) in
      if decide (type = 1) then check bool_decide (zlen os = 6) in Ok (SA_IN (drop 2 os) 0)
      else if decide (type = 2) then check bool_decide (zlen os = 18) in Ok (SA_IN6 (drop 2 os) 0)
      else Err EINVAL
  end.

Definition without_port (s : sockaddr) : sockaddr :=
  match s with SA_IN a _ => SA_IN a 0 | SA_IN6 a _ => SA_IN6 a 0 | s => s end.

(** The two bytes of the type, then the address. *)
Lemma tagged (b a : bytes) : length b = 2%nat → take 2 (b ++ a) = b ∧ drop 2 (b ++ a) = a ∧ zlen (b ++ a) = 2 + zlen a.
Proof.
  intros Hb. rewrite take_app_length', drop_app_length' by done. split; [done|]. split; [done|].
  rewrite zlen_app. unfold zlen at 1. by rewrite Hb.
Qed.

(** An address that was encoded is read back, without its port. *)
Lemma Address_encode_interpret s v :
  sa_wf s → fd_dictfct_Address_encode s = Ok v → fd_dictfct_Address_interpret v = Ok (without_port s).
Proof.
  assert (∀ k a, k = 1 ∨ k = 2 → fd_dictfct_Address_interpret (OS (be 2 k ++ a)) =
    if decide (k = 1) then check bool_decide (2 + zlen a = 6) in Ok (SA_IN a 0)
    else check bool_decide (2 + zlen a = 18) in Ok (SA_IN6 a 0)) as Hi.
  { intros k a Hk. unfold fd_dictfct_Address_interpret. cbv zeta.
    destruct (tagged (be 2 k) a) as (-> & -> & ->); [done|]. rewrite bool_decide_true by (pose proof (zlen_nonneg a); lia).
    rewrite unbe_be_small by (destruct Hk as [-> | ->]; done). destruct Hk as [-> | ->]; done. }
  destruct s as [a p|a p|f]; unfold sa_wf, fd_dictfct_Address_encode; [| |done]; intros (Hl & _) [= <-].
  - etransitivity; [apply (Hi 1 a); tauto|]. by rewrite decide_True, Hl.
  - etransitivity; [apply (Hi 2 a); tauto|]. by rewrite decide_False, Hl.
Qed.

(** ** Time *)

Definition DIFF_EPOCH_TO_NTP : Z := (365 * (1970 - 1900) + 17) * 24 * 60 * 60.
Definition NTP_OVERFLOW_CORRECTION : Z := 4294967296.

Definition diameter_string_to_time_t (str : bytes) : res Z :=
  check bool_decide (zlen str = 4) in
  let time_stamp := unbe str - DIFF_EPOCH_TO_NTP in
  Ok (if decide (Z.land (unbe (take 1 str)) 128 = 0) then time_stamp + NTP_OVERFLOW_CORRECTION else time_stamp).

(** The constant [~0x80000000] has 32 bits. *)
Definition time_t_to_diameter_string (time_stamp : Z) : res bytes :=
  let out := w64 (w64 time_stamp + DIFF_EPOCH_TO_NTP) in
  let out := if decide (NTP_OVERFLOW_CORRECTION ≤ out) then Z.land (out - NTP_OVERFLOW_CORRECTION) (2 ^ 31 - 1) else out in
  check bool_decide (Z.shiftr out 32 = 0) in Ok (be 4 out).

Definition fd_dictfct_Time_encode (t : Z) : res avp_value :=
  let* b := time_t_to_diameter_string t in Ok (OS b).

Definition fd_dictfct_Time_interpret (v : avp_value) : res Z :=
  match v with OS os => diameter_string_to_time_t os | NUM _ => Crash end.

Lemma high_bit q : 0 ≤ q < 256 → Z.land q 128 = 0 ↔ q < 128.
Proof.
  intros Hq. assert (Forall (λ q, bool_decide (Z.land q 128 = 0) = bool_decide (q < 128)) (seqZ 0 256)) as H by by_compute.
  rewrite Forall_seqZ in H. specialize (H q ltac:(lia)).
  rewrite <- (bool_decide_eq_true (_ = 0)), <- (bool_decide_eq_true (_ < _)). by rewrite H.
Qed.

(** Four bytes are read as a second of the 2^32 from the first with the high bit. *)
Lemma Time_interpret_be o : 0 ≤ o < 2 ^ 32 →
  fd_dictfct_Time_interpret (OS (be 4 o)) = Ok ((if decide (o < 2 ^ 31) then o + 2 ^ 32 else o) - DIFF_EPOCH_TO_NTP).
Proof.
  intros Ho. unfold fd_dictfct_Time_interpret, diameter_string_to_time_t. rewrite zlen_be, bool_decide_true by done.
  rewrite unbe_be_small by exact Ho.
  assert (unbe (take 1 (be 4 o)) = (o / 2 ^ 24) mod 256) as -> by reflexivity.
  assert (0 ≤ o / 2 ^ 24 < 256) as Hq by div_lia. rewrite Z.mod_small by done.
  assert (o / 2 ^ 24 < 128 ↔ o < 2 ^ 31) as Hbit by div_lia. rewrite <- high_bit in Hbit by done. unfold NTP_OVERFLOW_CORRECTION.
  destruct (decide (o < 2 ^ 31)); [rewrite decide_True by tauto|rewrite decide_False by tauto]; f_equal; lia.
Qed.

(** What is written for a time. *)
Definition ntp_seconds (t : Z) : Z :=
  let u := (t + DIFF_EPOCH_TO_NTP) mod 2 ^ 64 in if decide (2 ^ 32 ≤ u) then (u - 2 ^ 32) mod 2 ^ 31 else u.

Lemma ntp_seconds_range t : 0 ≤ ntp_seconds t < 2 ^ 32.
Proof. unfold ntp_seconds. destruct (decide _); div_lia. Qed.

Lemma Time_encode_be t : fd_dictfct_Time_encode t = Ok (OS (be 4 (ntp_seconds t))).
Proof.
  unfold fd_dictfct_Time_encode, time_t_to_diameter_string, NTP_OVERFLOW_CORRECTION. cbv zeta.
  assert (w64 (w64 t + DIFF_EPOCH_TO_NTP) = (t + DIFF_EPOCH_TO_NTP) mod 2 ^ 64) as ->
    by (unfold w64; by rewrite Zplus_mod_idemp_l).
  rewrite land_ones_mod by done. change 4294967296 with (2 ^ 32). fold (ntp_seconds t).
  pose proof (ntp_seconds_range t). rewrite bool_decide_true; [done|]. rewrite Z.shiftr_div_pow2 by done. div_lia.
Qed.

(** a time is always encoded (the check of its range never fails), and
    reading it back gives the same time exactly from January 20, 1968 (the
    first NTP second with the high bit) to February 26, 2104; every other time,
    the years before 1968 included, silently becomes another one. *)
Theorem fd_dictfct_Time_roundtrip t : - 2 ^ 63 ≤ t < 2 ^ 63 →
  ∃ v, fd_dictfct_Time_encode t = Ok v ∧
    (fd_dictfct_Time_interpret v = Ok t ↔ 2 ^ 31 ≤ t + DIFF_EPOCH_TO_NTP < 2 ^ 32 + 2 ^ 31).
Proof.
  intros Ht. eexists. split; [apply Time_encode_be|]. rewrite Time_interpret_be by apply ntp_seconds_range.
  transitivity ((if decide (ntp_seconds t < 2 ^ 31) then ntp_seconds t + 2 ^ 32 else ntp_seconds t) = t + DIFF_EPOCH_TO_NTP).
  { split; [intros [= H]; lia|intros ->; f_equal; lia]. }
  unfold ntp_seconds, DIFF_EPOCH_TO_NTP in *. cbv zeta.
  destruct (decide (2 ^ 32 ≤ _)); destruct (decide _); div_lia.
Qed.

Lemma fd_dictfct_Time_roundtrip_witness : ∃ v, fd_dictfct_Time_encode 1700000000 = Ok v ∧
  (fd_dictfct_Time_interpret v = Ok 1700000000 ↔ 2 ^ 31 ≤ 1700000000 + DIFF_EPOCH_TO_NTP < 2 ^ 32 + 2 ^ 31).
Proof. apply fd_dictfct_Time_roundtrip. lia. Defined.

(** ** CharInOS *)

(** [inChar] is the string that is looked for, the second list what [inData]
    still has from [i] on. *)
Fixpoint char_loop (inChar inData : bytes) : bytes :=
  match inChar, inData with
  | [], _ => []
  | _, [] => inChar
  | c :: inChar', x :: inData => if decide (c = x) then char_loop inChar' inData else char_loop inChar inData
  end.

Definition fd_dictfct_CharInOS_check (data : bytes) (v : avp_value) : res (option errno) :=
  match v with
  | NUM _ => Crash
  | OS os => Ok (match char_loop data os with [] => None | _ => Some EBADMSG end)
  end.

(** The value is accepted exactly when the characters occur in it in that order. *)
Lemma fd_dictfct_CharInOS_check_spec data os :
  fd_dictfct_CharInOS_check data (OS os) = Ok None ↔ sublist data os.
Proof.
  unfold fd_dictfct_CharInOS_check. transitivity (char_loop data os = []); [by destruct (char_loop data os)|].
  revert data. induction os as [|x os IH]; intros [|c data]; cbn [char_loop].
  - split; [constructor|done].
  - split; [done|]. by intros ?%sublist_nil_r.
  - split; [intros _; apply sublist_nil_l|done].
  - destruct (decide (c = x)) as [-> |Hc]; rewrite IH.
    + split; [by constructor|]. intros H. inversion H; subst; [done|]. etrans; [|done]. by apply sublist_cons.
    + split; [by constructor|]. intros H. inversion H; subst; done.
Qed.
