(* ===== verification/Endpoints.v ===== *)
(** * The lists of endpoints ([libfdcore/endpoints.c])

    The addresses of the peers and of the host, ordered by address, with flags
    that tell where they come from.  A port is the number that its field holds,
    in network order; the lists are Rocq lists. *)

From Stdlib Require Import ZArith Lia.
From stdpp Require Import base sorting sets list.
From S2P Require Import Prelude Time DictTypes DictFct Ostr.

Record endpoint := Endpoint { ep_ss : sockaddr; ep_flags : Z }.

#[export] Instance endpoint_eq_dec : EqDecision endpoint.
Proof. solve_decision. Defined.

Definition EP_FL_CONF := 1.
Definition EP_FL_DISC := 2.
Definition EP_FL_ADV := 4.
Definition EP_FL_LL := 8.
Definition EP_FL_PRIMARY := 16.
Definition EP_ACCEPTALL := 32768.

Definition AF_INET := 2.
Definition AF_INET6 := 10.

Definition sa_family (s : sockaddr) : Z := match s with SA_IN _ _ => AF_INET | SA_IN6 _ _ => AF_INET6 | SA_OTHER f => f end.
Definition sa_addr (s : sockaddr) : bytes := match s with SA_IN a _ | SA_IN6 a _ => a | SA_OTHER _ => [] end.
Definition sa_port (s : sockaddr) : Z := match s with SA_IN _ p | SA_IN6 _ p => p | SA_OTHER _ => 0 end.
Definition set_port (p : Z) (s : sockaddr) : sockaddr :=
  match s with SA_IN a _ => SA_IN a p | SA_IN6 a _ => SA_IN6 a p | s => s end.

(** "Filter out a bunch of invalid addresses": unspecified, loopback (127/8),
    224/3 and broadcast; unspecified, loopback, multicast, link-local and
    site-local. *)
Definition in_ignored (a : bytes) : bool :=
  bool_decide (unbe a = 0) || bool_decide (unbe (take 1 a) = 127) ||
  bool_decide (Z.land (unbe a) 3758096384 = 3758096384) || bool_decide (unbe a = 4294967295).
Definition in6_ignored (a : bytes) : bool :=
  bool_decide (unbe a = 0) || bool_decide (unbe a = 1) || bool_decide (unbe (take 1 a) = 255) ||
  bool_decide (Z.land (unbe (take 2 a)) 65472 = 65152) || bool_decide (Z.land (unbe (take 2 a)) 65472 = 65216).

Definition ignored (s : sockaddr) (flags : Z) : bool :=
  match s with
  | SA_IN a _ => negb (has flags EP_ACCEPTALL) && in_ignored a
  | SA_IN6 a _ => negb (has flags EP_ACCEPTALL) && in6_ignored a
  | SA_OTHER _ => true
  end.

(** "Search place in the list": the variable [cmp] is not 0 whenever the loop
    ends without a match. *)
Fixpoint ep_merge (s : sockaddr) (flags : Z) (l : list endpoint) : list endpoint :=
  match l with
  | [] => [Endpoint s flags]
  | e :: l' =>
      let merged p := Endpoint (set_port p (ep_ss e)) (Z.lor (ep_flags e) flags) in
      if decide (sa_family (ep_ss e) < sa_family s) then e :: ep_merge s flags l'
      else if decide (sa_family (ep_ss e) > sa_family s) then Endpoint s flags :: l
      else
        let cmp := memcmp (sa_addr (ep_ss e)) (sa_addr s) in
        if decide (cmp < 0) then e :: ep_merge s flags l'
        else if decide (cmp > 0) then Endpoint s flags :: l
        else if decide (sa_port s = 0) then merged (sa_port (ep_ss e)) :: l'
        else if decide (sa_port (ep_ss e) = 0) then merged (sa_port s) :: l'
        else if decide (sa_port (ep_ss e) < sa_port s) then e :: ep_merge s flags l'
        else if decide (sa_port (ep_ss e) > sa_port s) then Endpoint s flags :: l
        else merged (sa_port (ep_ss e)) :: l'
  end.

Definition fd_ep_add_merge (l : list endpoint) (s : sockaddr) (flags : Z) : list endpoint :=
  if ignored s flags then l else ep_merge s (Z.ldiff flags EP_ACCEPTALL) l.

Definition fd_ep_filter (flags : Z) (l : list endpoint) : list endpoint := filter (λ e, has (ep_flags e) flags = true) l.

Definition fd_ep_filter_family (af : Z) (l : list endpoint) : list endpoint := filter (λ e, sa_family (ep_ss e) = af) l.

Definition fd_ep_clearflags (flags : Z) (l : list endpoint) : list endpoint :=
  filter (λ e, ep_flags e ≠ 0) ((λ e, Endpoint (ep_ss e) (Z.ldiff (ep_flags e) flags)) <$> l).

(** ** The order of the list *)

(** The members of a list have one of the two families. *)
Definition ep_wf (e : endpoint) : Prop :=
  sa_wf (ep_ss e) ∧ match ep_ss e with SA_OTHER _ => False | _ => True end.

Definition ep_key (e : endpoint) : bytes := sa_family (ep_ss e) :: sa_addr (ep_ss e) ++ [sa_port (ep_ss e)].
Definition ep_cmp (a b : endpoint) : Z := fd_os_cmp_int (ep_key a) (ep_key b).
#[export] Instance ep_order : CmpOrder ep_cmp.
Proof. apply (CmpOrder_key fd_os_cmp_int ep_key). Qed.

Definition same_host (s t : sockaddr) : Prop := sa_family s = sa_family t ∧ sa_addr s = sa_addr t.

(** The list is ordered by family, address and port; an entry without a port is
    the only one of its address. *)
Record eps_ok (l : list endpoint) : Prop := {
  eps_sorted : Increasing ep_cmp l;
  eps_wf : Forall ep_wf l;
  eps_port a b : a ∈ l → b ∈ l → same_host (ep_ss a) (ep_ss b) → sa_port (ep_ss a) = 0 → a = b }.

Lemma memcmp_snoc l k p q : length l = length k →
  memcmp (l ++ [p]) (k ++ [q]) = if decide (memcmp l k = 0) then memcmp [p] [q] else memcmp l k.
Proof.
  revert k. induction l as [|a l IH]; intros [|b k]; [done..|]. intros [= Hl]. cbn [app memcmp].
  destruct (decide (a = b)); [by apply IH|]. destruct (decide (a < b)); by rewrite decide_False.
Qed.

Lemma sa_addr_length s t : sa_wf s → sa_wf t → sa_family s = sa_family t →
  match s with SA_OTHER _ => False | _ => True end → match t with SA_OTHER _ => False | _ => True end →
  length (sa_addr s) = length (sa_addr t).
Proof. unfold zlen. destruct s, t; cbn; unfold AF_INET, AF_INET6, zlen; intros; try done; lia. Qed.

(** The comparison of the loop is that of the keys. *)
Lemma ep_cmp_cases a b : ep_wf a → ep_wf b →
  let fa := sa_family (ep_ss a) in let fb := sa_family (ep_ss b) in
  let c := memcmp (sa_addr (ep_ss a)) (sa_addr (ep_ss b)) in
  (fa < fb → ep_cmp a b < 0) ∧ (fa > fb → ep_cmp b a < 0) ∧
  (fa = fb → (c < 0 → ep_cmp a b < 0) ∧ (c > 0 → ep_cmp b a < 0) ∧
    (c = 0 → same_host (ep_ss a) (ep_ss b) ∧
      (sa_port (ep_ss a) < sa_port (ep_ss b) → ep_cmp a b < 0) ∧
      (sa_port (ep_ss a) > sa_port (ep_ss b) → ep_cmp b a < 0))).
Proof.
  intros [Ha Ha'] [Hb Hb']. cbv zeta. 
  assert (sa_family (ep_ss a) = sa_family (ep_ss b) →
    length (sa_addr (ep_ss a)) = length (sa_addr (ep_ss b))) as Hlen by (intros; by apply sa_addr_length).
  assert (∀ x y, sa_wf (ep_ss x) → sa_wf (ep_ss y) → match ep_ss x with SA_OTHER _ => False | _ => True end →
    match ep_ss y with SA_OTHER _ => False | _ => True end →
    sa_family (ep_ss x) < sa_family (ep_ss y) → ep_cmp x y < 0) as Hf.
  { intros x y. unfold ep_cmp, fd_os_cmp_int, ep_key. destruct (ep_ss x), (ep_ss y); cbn; unfold zlen; cbn;
      rewrite ?length_app; unfold AF_INET, AF_INET6; cbn; intros; try lia; try done. unfold zlen in *. rewrite decide_True; [done|]. lia. }
  split; [by apply Hf|]. split; [intros; apply Hf; (done || lia)|]. intros He. specialize (Hlen He).
  assert (∀ x y, sa_family (ep_ss x) = sa_family (ep_ss y) → length (sa_addr (ep_ss x)) = length (sa_addr (ep_ss y)) →
    ep_cmp x y = if decide (memcmp (sa_addr (ep_ss x)) (sa_addr (ep_ss y)) = 0)
                 then memcmp [sa_port (ep_ss x)] [sa_port (ep_ss y)] else memcmp (sa_addr (ep_ss x)) (sa_addr (ep_ss y))) as Hc.
  { intros x y Hxy Hl. unfold ep_cmp, fd_os_cmp_int, ep_key, zlen. cbn [length]. rewrite !length_app, Hl. cbn [length].
    rewrite !decide_False by lia. cbn [memcmp]. rewrite decide_True by done. by apply memcmp_snoc. }
  pose proof (memcmp_sym (sa_addr (ep_ss b)) (sa_addr (ep_ss a))) as Hsym.
  split; [intros; rewrite Hc by done; rewrite decide_False by lia; done|].
  split; [intros; rewrite Hc by done; rewrite decide_False by lia; lia|].
  intros Hz. apply memcmp_zero in Hz as Hadd; [|done]. split; [done|].
  split; intros Hp; rewrite Hc by done; rewrite Hadd, memcmp_refl, decide_True by done; cbn [memcmp];
    rewrite decide_False by lia; by rewrite decide_True by lia.
Qed.

(** The entry that the address is merged into. *)
Definition matches (s : sockaddr) (e : endpoint) : Prop :=
  same_host (ep_ss e) s ∧ (sa_port s = 0 ∨ sa_port (ep_ss e) = 0 ∨ sa_port (ep_ss e) = sa_port s).

#[export] Instance matches_dec s e : Decision (matches s e).
Proof. unfold matches, same_host. apply _. Defined.

Definition updated (s : sockaddr) (flags : Z) (e : endpoint) : endpoint :=
  Endpoint (if decide (sa_port (ep_ss e) = 0) then set_port (sa_port s) (ep_ss e) else ep_ss e) (Z.lor (ep_flags e) flags).

Lemma set_port_same p s : p = sa_port s → set_port p s = s.
Proof. intros ->. by destruct s. Qed.

(** The address is merged into the first entry that matches, or is inserted
    between the smaller and the greater ones. *)
Lemma ep_merge_cases s flags l : ep_wf (Endpoint s flags) → eps_ok l →
  (∃ a e b, l = a ++ e :: b ∧ matches s e ∧ ep_merge s flags l = a ++ updated s flags e :: b) ∨
  (Forall (λ e, ¬ matches s e) l ∧ ∃ a b, l = a ++ b ∧ ep_merge s flags l = a ++ Endpoint s flags :: b ∧
     Forall (λ e, ep_cmp e (Endpoint s flags) < 0) a ∧ Forall (λ e, ep_cmp (Endpoint s flags) e < 0) b).
Proof.
  intros Hs. induction l as [|e l IH]; intros Hok.
  { right. split; [done|]. by exists [], []. }
  destruct Hok as [Hsort Hwf Hport]. apply StronglySorted_inv in Hsort as [Hsort He]. apply Forall_cons in Hwf as [Hew Hwf].
  assert (eps_ok l) as Hl by (split; [done|done|]; intros a b Ha Hb; apply Hport; by right). specialize (IH Hl).
  pose proof (ep_cmp_cases e (Endpoint s flags) Hew Hs) as Hc. cbv zeta in Hc. cbn [ep_ss] in Hc. destruct Hc as (H1 & H2 & H3).
  set (n := Endpoint s flags) in *.
  assert (¬ matches s e → ep_cmp e n < 0 → ep_merge s flags (e :: l) = e :: ep_merge s flags l →
    (∃ a e' b, e :: l = a ++ e' :: b ∧ matches s e' ∧ ep_merge s flags (e :: l) = a ++ updated s flags e' :: b) ∨
    (Forall (λ e', ¬ matches s e') (e :: l) ∧ ∃ a b, e :: l = a ++ b ∧ ep_merge s flags (e :: l) = a ++ n :: b ∧
       Forall (λ e', ep_cmp e' n < 0) a ∧ Forall (λ e', ep_cmp n e' < 0) b)) as Hskip.
  { intros Hn Hlt ->. destruct IH as [(a & e' & b & -> & Hm & ->)|(Hnm & a & b & -> & -> & Ha & Hb)].
    - left. by exists (e :: a), e', b.
    - right. split; [by constructor|]. exists (e :: a), b. split_and!; try done. by constructor. }
  assert ((∀ x, x ∈ l → ¬ matches s x) → ¬ matches s e → ep_cmp n e < 0 → ep_merge s flags (e :: l) = n :: e :: l →
    (∃ a e' b, e :: l = a ++ e' :: b ∧ matches s e' ∧ ep_merge s flags (e :: l) = a ++ updated s flags e' :: b) ∨
    (Forall (λ e', ¬ matches s e') (e :: l) ∧ ∃ a b, e :: l = a ++ b ∧ ep_merge s flags (e :: l) = a ++ n :: b ∧
       Forall (λ e', ep_cmp e' n < 0) a ∧ Forall (λ e', ep_cmp n e' < 0) b)) as Hstop.
  { intros Hx Hn Hlt ->. right. split; [constructor; [done|by apply Forall_forall]|]. exists [], (e :: l). split_and!; [done..|].
    constructor; [done|]. eapply Forall_impl; [exact He|]. intros x ?. by apply (cmp_lt_trans ep_cmp n e x). }
  assert (∀ x, x ∈ l → ep_wf x ∧ ¬ ep_cmp x e < 0) as Hlx.
  { intros x Hx. rewrite Forall_forall in He, Hwf. split; [by apply Hwf|]. specialize (He x Hx). apply cmp_lt_gt in He; [lia|apply _]. }
  assert (∀ x, matches s x → matches s x ∧ sa_family (ep_ss x) = sa_family s ∧ sa_addr (ep_ss x) = sa_addr s) as Hmx
    by (by intros x [[? ?] ?]).
  destruct (decide (sa_family (ep_ss e) < sa_family s)) as [Hf|Hf].
  { apply Hskip; [intros (_ & ? & _)%Hmx; lia|by apply H1|]. cbn [ep_merge]; by rewrite decide_True. }
  destruct (decide (sa_family (ep_ss e) > sa_family s)) as [Hf'|Hf'].
  { apply Hstop; [|intros (_ & ? & _)%Hmx; lia|by apply H2|cbn [ep_merge]; by rewrite decide_False, decide_True].
    intros x Hx (_ & Hxf & _)%Hmx. destruct (Hlx x Hx) as [Hxw Hnx]. destruct (ep_cmp_cases e x Hew Hxw) as (_ & H & _).
    apply Hnx, H. lia. }
  destruct H3 as (Hlt & Hgt & Heq); [lia|].
  destruct (decide (memcmp (sa_addr (ep_ss e)) (sa_addr s) < 0)) as [Hm|Hm].
  { apply Hskip; [|by apply Hlt|cbn [ep_merge]; by rewrite 2!decide_False, decide_True by done].
    intros (_ & _ & E)%Hmx. rewrite E, memcmp_refl in Hm. lia. }
  destruct (decide (memcmp (sa_addr (ep_ss e)) (sa_addr s) > 0)) as [Hm'|Hm'].
  { apply Hstop; [| |by apply Hgt|cbn [ep_merge]; by rewrite 3!decide_False, decide_True by done].
    - intros x Hx (_ & Hxf & Hxa)%Hmx. destruct (Hlx x Hx) as [Hxw Hnx].
      destruct (ep_cmp_cases e x Hew Hxw) as (_ & _ & H). destruct H as (_ & H & _); [lia|]. apply Hnx, H. by rewrite Hxa.
    - intros (_ & _ & He')%Hmx. rewrite He', memcmp_refl in Hm'. lia. }
  destruct Heq as (Hh & Hpl & Hpg); [lia|].
  destruct (decide (sa_port s = 0)) as [Hp|Hp].
  { left. exists [], e, l. split; [done|]. split; [by split; [|left]|]. cbn [app ep_merge]. rewrite 4!decide_False, decide_True by done. f_equal. unfold updated. f_equal.
    rewrite Hp. destruct (decide _) as [->|]; [done|]. by apply set_port_same. }
  destruct (decide (sa_port (ep_ss e) = 0)) as [Hp0|Hp0].
  { left. exists [], e, l. split; [done|]. split; [by split; [|right; left]|]. cbn [app ep_merge].
    rewrite 5!decide_False, decide_True by done. f_equal. unfold updated. by rewrite decide_True. }
  destruct (decide (sa_port (ep_ss e) < sa_port s)) as [Hp1|Hp1].
  { apply Hskip; [intros [_ ?]; lia|by apply Hpl|]. cbn [ep_merge]. rewrite 6!decide_False by done. by rewrite decide_True. }
  destruct (decide (sa_port (ep_ss e) > sa_port s)) as [Hp2|Hp2].
  { apply Hstop; [|intros [_ ?]; lia|by apply Hpg|cbn [ep_merge]; rewrite 7!decide_False by done; by rewrite decide_True].
    intros x Hx Hmt. pose proof (Hmx x Hmt) as (_ & Hxf & Hxa). destruct (Hlx x Hx) as [Hxw Hnx].
    destruct Hmt as [Hhx [?|[Hx0|Hxp]]]; [done| |].
    - assert (x = e) as -> by (apply Hport; [by right|by left| |done]; destruct Hh, Hhx; split; congruence).
      rewrite Forall_forall in He. specialize (He e Hx). rewrite cmp_refl in He. lia.
    - destruct (ep_cmp_cases e x Hew Hxw) as (_ & _ & H). destruct H as (_ & _ & H); [lia|].
      destruct H as (_ & _ & H); [rewrite Hxa; lia|]. apply Hnx, H. lia. }
  left. exists [], e, l. split; [done|]. split; [by split; [|right; right; lia]|]. cbn [app ep_merge].
  rewrite 8!decide_False by done. f_equal. unfold updated.
  rewrite decide_False by done. f_equal. by apply set_port_same.
Qed.

Lemma eps_ok_nil : eps_ok [].
Proof. split; [constructor|constructor|]. by intros a b ?%elem_of_nil. Qed.

(** What keeps a part of the entries, or changes their flags, keeps the order. *)
Lemma eps_ok_filter (P : endpoint → Prop) `{!∀ e, Decision (P e)} l : eps_ok l → eps_ok (filter P l).
Proof.
  intros [Hs Hw Hp]. split.
  - by apply StronglySorted_filter.
  - apply Forall_forall. intros e [_ He]%list_elem_of_filter. rewrite Forall_forall in Hw. by apply Hw.
  - intros a b [_ Ha]%list_elem_of_filter [_ Hb]%list_elem_of_filter. by apply Hp.
Qed.

Lemma eps_ok_flags (f : endpoint → endpoint) l : (∀ e, ep_ss (f e) = ep_ss e) → eps_ok l → eps_ok (f <$> l).
Proof.
  intros Hf [Hs Hw Hp]. split.
  - refine (StronglySorted_fmap _ _ _ _ _ Hs). intros a b. unfold ep_cmp, ep_key. by rewrite !Hf.
  - rewrite Forall_fmap. eapply Forall_impl; [done|]. intros e. unfold ep_wf. cbn. by rewrite Hf.
  - intros ? ? (a & -> & Ha)%list_elem_of_fmap (b & -> & Hb)%list_elem_of_fmap. rewrite !Hf. intros Hh Hz.
    by rewrite (Hp a b).
Qed.

(** Between different addresses the ports do not count. *)
Lemma ep_cmp_hosts a b : ep_wf a → ep_wf b → ¬ same_host (ep_ss a) (ep_ss b) →
  ep_cmp a b < 0 ↔ sa_family (ep_ss a) < sa_family (ep_ss b) ∨
    (sa_family (ep_ss a) = sa_family (ep_ss b) ∧ memcmp (sa_addr (ep_ss a)) (sa_addr (ep_ss b)) < 0).
Proof.
  intros Ha Hb Hn. destruct (ep_cmp_cases a b Ha Hb) as (H1 & H2 & H3). pose proof (cmp_lt_gt ep_cmp b a) as Hgt.
  split; [|intros [?|[He ?]]; [by apply H1|destruct (H3 He) as (H4 & _); by apply H4]]. intros Hlt.
  destruct (Z.lt_total (sa_family (ep_ss a)) (sa_family (ep_ss b))) as [?|[He|?]]; [by left| |specialize (Hgt ltac:(apply H2; lia)); lia].
  right. split; [done|]. destruct (H3 He) as (_ & H4 & H5).
  destruct (Z.lt_total (memcmp (sa_addr (ep_ss a)) (sa_addr (ep_ss b))) 0) as [?|[Hz|?]]; [done| |specialize (Hgt ltac:(apply H4; lia)); lia].
  by destruct (H5 Hz).
Qed.

Lemma updated_host s flags e : same_host (ep_ss (updated s flags e)) (ep_ss e).
Proof. unfold updated. cbn. destruct (decide _); [|done]. by destruct (ep_ss e). Qed.

Lemma updated_wf s flags e : ep_wf (Endpoint s flags) → ep_wf e → ep_wf (updated s flags e).
Proof. unfold updated, ep_wf. cbn. destruct (decide _); [|done]. destruct s, (ep_ss e); cbn; naive_solver. Qed.

Lemma updated_cmp s flags e x : ep_wf (Endpoint s flags) → ep_wf e → ep_wf x → (same_host (ep_ss e) (ep_ss x) → sa_port (ep_ss e) ≠ 0) →
  (ep_cmp x e < 0 → ep_cmp x (updated s flags e) < 0) ∧ (ep_cmp e x < 0 → ep_cmp (updated s flags e) x < 0).
Proof.
  intros Hs He Hx Hp. destruct (decide (sa_port (ep_ss e) = 0)) as [Hz|Hz].
  - pose proof (updated_wf s flags e Hs He) as Hu. pose proof (updated_host s flags e) as [Hf Ha].
    assert (¬ same_host (ep_ss e) (ep_ss x)) as Hn by tauto.
    assert (¬ same_host (ep_ss x) (ep_ss e)) as Hn' by (intros [? ?]; by apply Hn).
    rewrite !ep_cmp_hosts by (try done; unfold same_host; by rewrite ?Hf, ?Ha). by rewrite Hf, Ha.
  - assert (ep_key (updated s flags e) = ep_key e) as Hk.
    { unfold ep_key, updated. cbn. by rewrite decide_False. }
    unfold ep_cmp. by rewrite Hk.
Qed.

Lemma Increasing_irrefl a e b : Increasing ep_cmp (a ++ e :: b) → e ∉ a ∧ e ∉ b.
Proof.
  intros (Hab & _ & [_ Hb]%StronglySorted_inv)%StronglySorted_app. rewrite Forall_forall in Hb. split; intros H.
  - specialize (Hab e e H ltac:(by left)). cbn in Hab. rewrite cmp_refl in Hab. lia.
  - specialize (Hb e H). rewrite cmp_refl in Hb. lia.
Qed.

Lemma eps_ok_merge s flags l : ep_wf (Endpoint s flags) → eps_ok l → eps_ok (ep_merge s flags l).
Proof.
  intros Hs Hok. pose proof Hok as [Hsort Hwf Hport].
  destruct (ep_merge_cases s flags l Hs Hok) as [(a & e & b & -> & Hm & ->)|(Hn & a & b & -> & -> & Ha & Hb)].
  - destruct (Increasing_irrefl _ _ _ Hsort) as [Hea Heb]. rewrite Forall_app, Forall_cons in Hwf. destruct Hwf as (Hwa & Hwe & Hwb).
    assert (∀ x, x ∈ a ∨ x ∈ b → ep_wf x ∧ (same_host (ep_ss e) (ep_ss x) → sa_port (ep_ss e) ≠ 0)) as Hx.
    { intros x Hx. rewrite Forall_forall in Hwa, Hwb. split; [destruct Hx; auto|]. intros Hh Hz.
      assert (e = x) as <- by (apply Hport; [set_solver..|done|done]). tauto. }
    apply StronglySorted_app in Hsort as (Hab & Hsa & [Hsb Hb]%StronglySorted_inv). rewrite Forall_forall in Hb. split.
    + apply StronglySorted_mid.
      * apply StronglySorted_app. split_and!; [|done|done]. intros x y Hxa Hyb. apply Hab; [done|by right].
      * apply Forall_forall. intros x Hxa. destruct (Hx x) as [? ?]; [by left|]. apply updated_cmp; try done. apply Hab; [done|by left].
      * apply Forall_forall. intros x Hxb. destruct (Hx x) as [? ?]; [by right|]. apply updated_cmp; try done. by apply Hb.
    + rewrite Forall_app, Forall_cons. split_and!; try done. by apply updated_wf.
    + assert (∀ x, x ∈ a ++ updated s flags e :: b → x = updated s flags e ∨ x ∈ a ++ e :: b ∧ (x ∈ a ∨ x ∈ b)) as Hin by set_solver.
      assert (e ∈ a ++ e :: b) as He by set_solver.
      assert (sa_port (ep_ss (updated s flags e)) = 0 → sa_port (ep_ss e) = 0) as Hu0.
      { unfold updated. cbn. by destruct (decide (sa_port (ep_ss e) = 0)). }
      destruct (updated_host s flags e) as [Huf Hua].
      intros x y [-> |[Hxl Hxab]]%Hin [-> |[Hyl Hyab]]%Hin Hh Hz; [done| | |by apply Hport]; exfalso.
      * assert (e = y) as <-; [|tauto]. apply Hport; [done..| |by apply Hu0]. destruct Hh; split; congruence.
      * assert (x = e) as ->; [|tauto]. apply Hport; [done..| |done]. destruct Hh; split; congruence.
  - rewrite Forall_app in Hwf. destruct Hwf as [Hwa Hwb]. split.
    + by apply StronglySorted_mid.
    + by rewrite Forall_app, Forall_cons.
    + rewrite Forall_forall in Hn.
      assert (∀ x, x ∈ a ++ Endpoint s flags :: b → x = Endpoint s flags ∨ x ∈ a ++ b) as Hin by set_solver.
      intros x y [-> |Hx]%Hin [-> |Hy]%Hin Hh Hz; [done| | |by apply Hport]; exfalso.
      * apply (Hn y Hy). split; [by destruct Hh|by left].
      * apply (Hn x Hx). split; [done|by right; left].
Qed.

Inductive ep_op := OpAdd (s : sockaddr) (flags : Z) | OpFilter (flags : Z) | OpFamily (af : Z) | OpClear (flags : Z).
Definition ep_exec (l : list endpoint) (o : ep_op) : list endpoint :=
  match o with
  | OpAdd s fl => fd_ep_add_merge l s fl | OpFilter fl => fd_ep_filter fl l
  | OpFamily af => fd_ep_filter_family af l | OpClear fl => fd_ep_clearflags fl l
  end.
Definition ep_op_ok (o : ep_op) : Prop := match o with OpAdd s _ => sa_wf s | _ => True end.
#[export] Instance ep_op_ok_dec o : Decision (ep_op_ok o).
Proof. destruct o; apply _. Defined.

Lemma add_wf s flags : sa_wf s → ignored s flags = false → ep_wf (Endpoint s (Z.ldiff flags EP_ACCEPTALL)).
Proof. intros Hs Hi. split; [done|]. by destruct s. Qed.

Lemma eps_exec_ok l o : eps_ok l → ep_op_ok o → eps_ok (ep_exec l o).
Proof.
  intros Hl Ho. destruct o as [s fl|fl|af|fl]; cbn [ep_exec ep_op_ok] in *.
  - unfold fd_ep_add_merge. destruct (ignored s fl) eqn:Hi; [done|]. apply eps_ok_merge; [by apply add_wf|done].
  - by apply eps_ok_filter.
  - by apply eps_ok_filter.
  - apply eps_ok_filter. by apply eps_ok_flags.
Qed.

Definition subflags (f g : Z) : Prop := ∀ i, Z.testbit f i = true → Z.testbit g i = true.

(** [a] is kept as [b]: the same address, the port unless it was unknown, all flags. *)
Definition kept (a b : endpoint) : Prop :=
  same_host (ep_ss a) (ep_ss b) ∧ (sa_port (ep_ss a) ≠ 0 → sa_port (ep_ss b) = sa_port (ep_ss a)) ∧
  subflags (ep_flags a) (ep_flags b).

Lemma kept_refl a : kept a a.
Proof. split; [by split|]. split; [done|]. by intros i. Qed.

Lemma kept_updated s flags e : kept e (updated s flags e).
Proof.
  split; [|split].
  - destruct (updated_host s flags e). by split.
  - intros Hp. unfold updated. cbn. by rewrite decide_False.
  - intros i Hi. cbn. by rewrite Z.lor_spec, Hi.
Qed.

Lemma new_updated s flags e : matches s e → ep_wf e → kept (Endpoint s flags) (updated s flags e).
Proof.
  intros [[Hf Ha] Hp] [_ He]. destruct (updated_host s flags e) as [Huf Hua]. split; [|split].
  - split; [by rewrite Huf, Hf|by rewrite Hua, Ha].
  - cbn. intros Hz. unfold updated. cbn. destruct (decide (sa_port (ep_ss e) = 0)) as [H0|H0].
    + by destruct (ep_ss e).
    + destruct Hp as [?|[?|?]]; done.
  - intros i Hi. cbn in *. by rewrite Z.lor_spec, Hi, orb_true_r.
Qed.

(** C39: from the empty list, every sequence of additions, filters and flag
    changes leaves the list strictly ordered by family, address and port,
    without two entries of one address when the port of one is unknown.
    Adding an address to such a list either ignores it (the list is
    unchanged), or leaves an entry that has its address, its port and its
    flags; no entry that was there loses its address, a known port or a flag,
    and every entry is one of these. *)
Theorem eps_run_ok ops s flags :
  Forall ep_op_ok ops → sa_wf s →
  let l := foldl ep_exec [] ops in
  let r := fd_ep_add_merge l s flags in
  eps_ok l ∧ eps_ok r ∧
  (if ignored s flags then r = l
   else let n := Endpoint s (Z.ldiff flags EP_ACCEPTALL) in
        (∃ b, b ∈ r ∧ kept n b) ∧ (∀ a, a ∈ l → ∃ b, b ∈ r ∧ kept a b) ∧
        (∀ b, b ∈ r → ∃ a, a ∈ n :: l ∧ same_host (ep_ss a) (ep_ss b))).
Proof.
  intros Hops Hs. cbv zeta.
  assert (eps_ok (foldl ep_exec [] ops)) as Hl.
  { pose proof eps_ok_nil as H0. revert H0 Hops. generalize (@nil endpoint). induction ops as [|o ops IH]; [done|].
    intros l Hl [Ho Hops]%Forall_cons. apply IH; [by apply eps_exec_ok|done]. }
  split; [done|]. split; [by apply (eps_exec_ok _ (OpAdd s flags))|]. unfold fd_ep_add_merge.
  destruct (ignored s flags) eqn:Hi; [done|]. generalize (foldl ep_exec [] ops) Hl. clear Hl Hops ops. intros l Hl.
  pose proof (add_wf s flags Hs Hi) as Hn. pose proof (eps_wf l Hl) as Hw. rewrite Forall_forall in Hw.
  destruct (ep_merge_cases s _ l Hn Hl) as [(a & e & b & -> & Hm & ->)|(Hnm & a & b & -> & -> & _)].
  - split; [|split].
    + eexists. split; [apply elem_of_app; right; by left|]. apply new_updated; [done|]. apply Hw. set_solver.
    + intros x Hx. destruct (decide (x = e)) as [-> |Hne].
      * eexists. split; [apply elem_of_app; right; by left|]. apply kept_updated.
      * exists x. split; [set_solver|apply kept_refl].
    + intros x Hx. assert (x = updated s (Z.ldiff flags EP_ACCEPTALL) e ∨ x ∈ a ++ b) as [-> |Hx'] by set_solver.
      * exists e. split; [set_solver|]. destruct (updated_host s (Z.ldiff flags EP_ACCEPTALL) e). by split.
      * exists x. split; [set_solver|done].
  - split; [|split].
    + eexists. split; [apply elem_of_app; right; by left|]. apply kept_refl.
    + intros x Hx. exists x. split; [set_solver|apply kept_refl].
    + intros x Hx. exists x. split; [set_solver|done].
Qed.

Module Examples.
Definition sa (a b c d p : Z) : sockaddr := SA_IN [a; b; c; d] p.
Definition history : list ep_op := [OpAdd (sa 10 0 0 2 0) EP_FL_CONF; OpAdd (sa 10 0 0 1 3868) EP_FL_DISC; OpAdd (sa 127 0 0 1 0) EP_FL_DISC].

Lemma eps_run_ok_witness :
  let l := foldl ep_exec [] history in
  eps_ok l ∧ ∃ b, b ∈ fd_ep_add_merge l (sa 10 0 0 2 3868) EP_FL_LL ∧ kept (Endpoint (sa 10 0 0 2 3868) EP_FL_LL) b.
Proof.
  destruct (eps_run_ok history (sa 10 0 0 2 3868) EP_FL_LL) as (H1 & _ & H2); [by_compute|by_compute|].
  split; [exact H1|exact (proj1 H2)].
Defined.

(** The unknown port is filled in, loopback is ignored. *)
Example merged_port :
  fd_ep_add_merge (foldl ep_exec [] history) (sa 10 0 0 2 3868) EP_FL_LL =
  [Endpoint (sa 10 0 0 1 3868) EP_FL_DISC; Endpoint (sa 10 0 0 2 3868) (EP_FL_CONF + EP_FL_LL)].
Proof. vm_compute. reflexivity. Qed.
End Examples.
