(* ===== verification/Effect.v ===== *)
(** * Calls that change a state and may fail in between

    The functions of [libfdcore] work on a shared peer: a call that returns an
    error code leaves what it has changed so far.  [M S A] are the calls on a
    state [S] with a result [A]: an error keeps the state, unlike in [res].  An
    abort names the code whose assertion fails.

    [wp m Q E s]: run from [s], the call [m] ends in [Q] with its result, or in
    [E] with its error code; no assertion of its own fails. *)

From stdpp Require Import base list.
From Stdlib Require Import ZArith Lia.
From S2P Require Import Prelude.

(** Whose assertion fails: that of the state machine and of the connections it
    uses; that of the sent requests ([p_sr.c]); that of a value that is read from a
    message or looked up in the dictionary ([p_ce.c], [p_dw.c], [p_dp.c]); that of
    the functions on messages. *)
Inductive culprit := Own | Requests | Values | Message.

Inductive outcome (S A : Type) :=
  | Ret (s : S) (a : A)
  | Fail (s : S) (e : errno)
  | Abort (w : culprit).
Arguments Ret {S A} s a.
Arguments Fail {S A} s e.
Arguments Abort {S A} w.

Definition M (S A : Type) : Type := S → outcome S A.

Section monad.
Context {S : Type}.

Definition ret {A} (a : A) : M S A := λ s, Ret s a.
Definition fail {A} (e : errno) : M S A := λ s, Fail s e.
Definition bind {A B} (m : M S A) (f : A → M S B) : M S B := λ s,
  match m s with Ret s a => f a s | Fail s e => Fail s e | Abort w => Abort w end.
(** [CHECK_FCT_DO(m, h)] *)
Definition catch {A} (m : M S A) (h : errno → M S A) : M S A := λ s,
  match m s with Ret s a => Ret s a | Fail s e => h e s | Abort w => Abort w end.
Definition gets {A} (f : S → A) : M S A := λ s, Ret s (f s).
Definition modify (f : S → S) : M S unit := λ s, Ret (f s) tt.
(** [ASSERT] *)
Definition assertM (b : bool) : M S unit := if b then ret tt else λ _, Abort Own.
(** [CHECK_PARAMS] *)
Definition require (b : bool) : M S unit := if b then ret tt else fail EINVAL.
(** A call that does not touch the state, and whose assertions are those of [c]. *)
Definition lift_at {A} (c : culprit) (r : res A) : M S A :=
  match r with Ok a => ret a | Err e => fail e | Crash => λ _, Abort c end.
(** [CHECK_FCT_DO(m, /* continue */)] *)
Definition ignore (m : M S unit) : M S unit := catch m (λ _, ret tt).
Definition when (b : bool) (m : M S unit) : M S unit := if b then m else ret tt.
(** [CHECK_FCT_DO(m, goto label)]: whether the call succeeded. *)
Definition succeeds (m : M S unit) : M S bool := catch (bind m (λ _, ret true)) (λ _, ret false).
End monad.

Abbreviation lift := (lift_at Message).

Notation "'let!' x := m 'in' f" := (bind m (λ x, f))
  (at level 200, x pattern, m at level 100, f at level 200) : fd_scope.
Notation "m ;! f" := (bind m (λ _, f)) (at level 100, f at level 200, right associativity) : fd_scope.

Definition wp {S A} (m : M S A) (Q : A → S → Prop) (E : errno → S → Prop) (s : S) : Prop :=
  match m s with Ret s a => Q a s | Fail s e => E e s | Abort w => w ≠ Own end.

(** The assertions that [wp] leaves out. *)
Class Foreign (c : culprit) : Prop := foreign : c ≠ Own.
#[export] Instance foreign_requests : Foreign Requests.
Proof. done. Qed.
#[export] Instance foreign_values : Foreign Values.
Proof. done. Qed.
#[export] Instance foreign_message : Foreign Message.
Proof. done. Qed.

Section rules.
Context {S : Type}.
Implicit Types (E : errno → S → Prop).

Lemma wp_ret {A} (a : A) (Q : A → S → Prop) E s : Q a s → wp (ret a) Q E s.
Proof. done. Qed.
Lemma wp_fail {A} e (Q : A → S → Prop) E s : E e s → wp (fail e) Q E s.
Proof. done. Qed.
Lemma wp_gets {A} (f : S → A) (Q : A → S → Prop) E s : Q (f s) s → wp (gets f) Q E s.
Proof. done. Qed.
Lemma wp_modify (f : S → S) (Q : unit → S → Prop) E s : Q tt (f s) → wp (modify f) Q E s.
Proof. done. Qed.
Lemma wp_assert b (Q : unit → S → Prop) E s : b = true → Q tt s → wp (assertM b) Q E s.
Proof. by intros ->. Qed.
Lemma wp_require b (Q : unit → S → Prop) E s : (b = true → Q tt s) → (b = false → E EINVAL s) → wp (require b) Q E s.
Proof. destruct b; cbn; auto. Qed.
Lemma wp_lift {A} c `{!Foreign c} (r : res A) (Q : A → S → Prop) E s :
  (∀ a, r = Ok a → Q a s) → (∀ e, r = Err e → E e s) → wp (lift_at c r) Q E s.
Proof. destruct r; cbn; auto. Qed.
Lemma wp_if {A} (b : bool) (m m' : M S A) (Q : A → S → Prop) E s :
  (b = true → wp m Q E s) → (b = false → wp m' Q E s) → wp (if b then m else m') Q E s.
Proof. destruct b; auto. Qed.

Lemma wp_when b (m : M S unit) (Q : unit → S → Prop) E s :
  (b = true → wp m Q E s) → (b = false → Q tt s) → wp (when b m) Q E s.
Proof. destruct b; cbn; auto. Qed.

Lemma wp_bind {A B} (m : M S A) (f : A → M S B) (Q : B → S → Prop) E s :
  wp m (λ a, wp (f a) Q E) E s → wp (bind m f) Q E s.
Proof. unfold wp, bind. by destruct (m s). Qed.

Lemma wp_catch {A} (m : M S A) h (Q : A → S → Prop) E s :
  wp m Q (λ e, wp (h e) Q E) s → wp (catch m h) Q E s.
Proof. unfold wp, catch. by destruct (m s). Qed.

Lemma wp_ignore m (Q : unit → S → Prop) E s : wp m Q (λ _, Q tt) s → wp (ignore m) Q E s.
Proof. unfold wp, ignore, catch, ret. by destruct (m s). Qed.

Lemma wp_succeeds m (Q : bool → S → Prop) E s :
  wp m (λ _, Q true) (λ _, Q false) s → wp (succeeds m) Q E s.
Proof. unfold wp, succeeds, catch, bind, ret. by destruct (m s). Qed.

Lemma wp_mono {A} (m : M S A) (Q Q' : A → S → Prop) E E' s :
  wp m Q E s → (∀ a t, Q a t → Q' a t) → (∀ e t, E e t → E' e t) → wp m Q' E' s.
Proof. unfold wp. destruct (m s); auto. Qed.

Lemma wp_and {A} (m : M S A) (Q Q' : A → S → Prop) E E' s :
  wp m Q E s → wp m Q' E' s → wp m (λ a t, Q a t ∧ Q' a t) (λ e t, E e t ∧ E' e t) s.
Proof. unfold wp. destruct (m s); auto. Qed.
End rules.

(** [keeps P m]: the call preserves [P], whether it succeeds or not. *)
Definition keeps {S A} (P : S → Prop) (m : M S A) : Prop := ∀ s, P s → wp m (λ _, P) (λ _, P) s.

Section keeps.
Context {S : Type} (P : S → Prop).

Lemma keeps_ret {A} (a : A) : keeps P (ret a).
Proof. by intros s. Qed.
Lemma keeps_fail {A} e : keeps P (fail (A:=A) e).
Proof. by intros s. Qed.
Lemma keeps_gets {A} (f : S → A) : keeps P (gets f).
Proof. by intros s. Qed.
Lemma keeps_modify f : (∀ s, P s → P (f s)) → keeps P (modify f).
Proof. intros H s Hs. by apply H. Qed.
Lemma keeps_require b : keeps P (require b).
Proof. intros s Hs. by destruct b. Qed.
Lemma keeps_lift {A} c `{!Foreign c} (r : res A) : keeps P (lift_at c r).
Proof. intros s Hs. by destruct r. Qed.
Lemma keeps_bind {A B} (m : M S A) (f : A → M S B) : keeps P m → (∀ a, keeps P (f a)) → keeps P (bind m f).
Proof. intros Hm Hf s Hs. apply wp_bind. eapply wp_mono; [by apply Hm|intros a t Ht; by apply Hf|done]. Qed.
Lemma keeps_catch {A} (m : M S A) h : keeps P m → (∀ e, keeps P (h e)) → keeps P (catch m h).
Proof. intros Hm Hf s Hs. apply wp_catch. eapply wp_mono; [by apply Hm|done|intros a t Ht; by apply Hf]. Qed.
Lemma keeps_ignore m : keeps P m → keeps P (ignore m).
Proof. intros Hm. apply keeps_catch; [done|]. intros e. apply keeps_ret. Qed.
Lemma keeps_when b m : keeps P m → keeps P (when b m).
Proof. intros Hm. destruct b; [done|apply keeps_ret]. Qed.
Lemma keeps_if {A} (b : bool) (m m' : M S A) : keeps P m → keeps P m' → keeps P (if b then m else m').
Proof. by destruct b. Qed.
End keeps.

Create HintDb keeps.
#[export] Hint Resolve keeps_ret keeps_fail keeps_gets keeps_require keeps_lift keeps_bind keeps_catch keeps_ignore
  keeps_when keeps_if : keeps.

(** ** Running calls *)

Section run.
Context {S : Type}.

Lemma bind_ret {A B} (m : M S A) (f : A → M S B) s s' a r : m s = Ret s' a → f a s' = r → bind m f s = r.
Proof. unfold bind. by intros ->. Qed.
Lemma ignore_ret (m : M S unit) s s' : m s = Ret s' tt → ignore m s = Ret s' tt.
Proof. unfold ignore, catch. by intros ->. Qed.
Lemma lift_ok {A} c (r : res A) a (s : S) : r = Ok a → lift_at c r s = Ret s a.
Proof. by intros ->. Qed.
Lemma when_true b (m : M S unit) s r : b = true → m s = r → when b m s = r.
Proof. by intros ->. Qed.
Lemma when_false b (m : M S unit) s : b = false → when b m s = Ret s tt.
Proof. by intros ->. Qed.
End run.

(** ** What a call leaves

    [spares W P m]: if [P] holds before the call, it holds in the state that the
    call leaves, and no assertion of [W] fails; with [leaves P m] nothing is said
    of the assertions.  It is proved by following the structure of the call
    ([leaves_tac]); [leaves] holds the lemmas on loops. *)

Definition spares {S A} (W : culprit → Prop) (P : S → Prop) (m : M S A) : Prop :=
  ∀ s, P s → match m s with Ret s _ => P s | Fail s _ => P s | Abort w => ¬ W w end.

Abbreviation leaves := (spares (λ _, False)).

Section leaves.
Context {S : Type} (W : culprit → Prop) (P : S → Prop).

Lemma leaves_ret {A} (a : A) : spares W P (ret a).
Proof. by intros s. Qed.
Lemma leaves_fail {A} e : spares W P (fail (A:=A) e).
Proof. by intros s. Qed.
Lemma leaves_gets {A} (f : S → A) : spares W P (gets f).
Proof. by intros s. Qed.
Lemma leaves_modify f : (∀ s, P s → P (f s)) → spares W P (modify f).
Proof. intros H s Hs. by apply H. Qed.
Lemma leaves_require b : spares W P (require b).
Proof. intros s Hs. by destruct b. Qed.
Lemma leaves_assert b : ¬ W Own → spares W P (assertM b).
Proof. intros HW s Hs. by destruct b. Qed.
Lemma leaves_lift {A} c (r : res A) : ¬ W c → spares W P (lift_at c r).
Proof. intros HW s Hs. by destruct r. Qed.
Lemma leaves_lift_safe {A} c (r : res A) : r ≠ Crash → spares W P (lift_at c r).
Proof. intros Hr s Hs. by destruct r. Qed.
Lemma leaves_bind {A B} (m : M S A) (f : A → M S B) : spares W P m → (∀ a, spares W P (f a)) → spares W P (bind m f).
Proof. intros Hm Hf s Hs. unfold bind. specialize (Hm s Hs). destruct (m s); [by apply Hf|done|done]. Qed.
Lemma leaves_catch {A} (m : M S A) h : spares W P m → (∀ e, spares W P (h e)) → spares W P (catch m h).
Proof. intros Hm Hf s Hs. unfold catch. specialize (Hm s Hs). destruct (m s); [done|by apply Hf|done]. Qed.

(** A call that depends on what it reads first. *)
Lemma leaves_gets_bind {A B} (f : S → A) (m : A → M S B) :
  (∀ s, P s → match m (f s) s with Ret t _ => P t | Fail t _ => P t | Abort w => ¬ W w end) →
  spares W P (bind (gets f) m).
Proof. intros H s Hs. by apply H. Qed.
End leaves.

Create HintDb leaves.

Ltac call_head t := lazymatch t with ?f _ => call_head f | _ => t end.

Ltac leaves_by_cases := let H := fresh in intros [] H; first [done | cbn in *; repeat case_match; done].

Ltac leaves_step :=
  first
    [ match goal with |- spares _ _ _ => solve [auto with leaves nocore] end
    | lazymatch goal with
      | |- spares _ _ (bind _ _) => apply leaves_bind; [|intros ?]
      | |- spares _ _ (ret _) => apply leaves_ret
      | |- spares _ _ (fail _) => apply leaves_fail
      | |- spares _ _ (gets _) => apply leaves_gets
      | |- spares _ _ (require _) => apply leaves_require
      | |- spares _ _ (assertM _) => apply leaves_assert; solve [auto | congruence]
      | |- spares _ _ (lift_at _ _) => apply leaves_lift; solve [auto | congruence]
      | |- spares _ _ (catch _ _) => apply leaves_catch; [|intros ?]
      | |- spares _ _ (modify _) => apply leaves_modify; leaves_by_cases
      | |- spares _ _ (match ?e with _ => _ end) => destruct e
      | |- spares _ _ ?m => let h := call_head m in unfold h
      end ].

Ltac leaves_tac := repeat leaves_step.
