(* ===== verification/CoreMsg.v ===== *)
(** * Messages of the daemon ([libfdcore/messages.c])

    The helpers on messages that know the base protocol: origin AVPs, results,
    sessions, parsing with an error answer.  A function that changes a message
    returns the new one; what an error leaves in it is dropped by every caller.
    Allocations succeed; hooks are display. *)

From Stdlib Require Import ZArith Lia Ascii String.
From stdpp Require Import base list.
From S2P Require Import Prelude Time DictTypes Msg MsgBuf MsgDict MsgTree MsgRules Fifo.

Definition str (s : string) : bytes := map (λ a, Z.of_N (N_of_ascii a)) (list_ascii_of_string s).

(** What [libfdcore] asks of the dictionary beyond the messages and the dispatch:
    [CMD_BY_NAME]; [ENUMVAL_BY_STRUCT] with a type and a name; the [u32] of the
    constant ([fd_dict_getval]); the array of vendors. *)
Class CoreDictionary (D : Type) := {
  cmd_by_name : D → bytes → res (option obj);
  enumval_by_name : D → obj → bytes → res (option obj);
  enum_u32 : D → obj → res Z;
  vendorid_list : D → res (list Z) }.

(** "Create a new Session-Id" asks for [fd_sess_new] with the identity of the
    host and an optional string: the session. *)
Class NewSessions (S : Type) := sess_new : S → bytes → option bytes → res (nat * S).

(** The objects that [fd_msg_init] resolves. *)
Record base_objs := BaseObjs {
  dict_avp_SI : obj; dict_avp_OH : obj; dict_avp_OR : obj; dict_avp_EM : obj; dict_avp_ERH : obj;
  dict_avp_FAVP : obj; dict_avp_RC : obj; dict_avp_ER : obj; dict_avp_VI : obj; dict_avp_ERC : obj;
  fd_dict_avp_OSI : obj; fd_dict_avp_DC : obj;
  fd_dict_cmd_CER : obj; fd_dict_cmd_DWR : obj; fd_dict_cmd_DPR : obj }.

(** The part of [fd_g_config] used here. *)
Record identity := Identity { cnf_diamid : bytes; cnf_diamrlm : bytes; cnf_orstateid : Z }.

Definition AC_RESULT_CODE := 268.

(** The name of the code of an error, as [pei_errcode] holds it. *)
Definition pei_name (c : pei_errcode) : bytes :=
  str match c with
      | DIAMETER_AVP_UNSUPPORTED => "DIAMETER_AVP_UNSUPPORTED"
      | DIAMETER_COMMAND_UNSUPPORTED => "DIAMETER_COMMAND_UNSUPPORTED"
      | DIAMETER_INVALID_AVP_LENGTH => "DIAMETER_INVALID_AVP_LENGTH"
      | DIAMETER_INVALID_AVP_VALUE => "DIAMETER_INVALID_AVP_VALUE"
      | DIAMETER_MISSING_AVP => "DIAMETER_MISSING_AVP"
      | DIAMETER_AVP_NOT_ALLOWED => "DIAMETER_AVP_NOT_ALLOWED"
      | DIAMETER_AVP_OCCURS_TOO_MANY_TIMES => "DIAMETER_AVP_OCCURS_TOO_MANY_TIMES"
      end.

Section messages.
Context {D S : Type} `{!MsgDictionary D} `{!DispDictionary D} `{!CoreDictionary D} `{!MsgSessions S} `{!NewSessions S}.
Context (d : D) (cfg : identity) (bo : base_objs).

Definition avp_named (name : string) : res obj :=
  let* o := avp_by_name d (str name) in match o with Some o => Ok o | None => Err ENOENT end.
Definition cmd_named (name : string) : res obj :=
  let* o := cmd_by_name d (str name) in match o with Some o => Ok o | None => Err ENOENT end.

Definition fd_msg_init : res base_objs :=
  let* si := avp_named "Session-Id" in
  let* oh := avp_named "Origin-Host" in
  let* orl := avp_named "Origin-Realm" in
  let* osi := avp_named "Origin-State-Id" in
  let* rc := avp_named "Result-Code" in
  let* em := avp_named "Error-Message" in
  let* erh := avp_named "Error-Reporting-Host" in
  let* favp := avp_named "Failed-AVP" in
  let* er := avp_named "Experimental-Result" in
  let* vi := avp_named "Vendor-Id" in
  let* erc := avp_named "Experimental-Result-Code" in
  let* dc := avp_named "Disconnect-Cause" in
  let* cer := cmd_named "Capabilities-Exchange-Request" in
  let* dwr := cmd_named "Device-Watchdog-Request" in
  let* dpr := cmd_named "Disconnect-Peer-Request" in
  Ok (BaseObjs si oh orl em erh favp rc er vi erc osi dc cer dwr dpr).

(** A new AVP of the model with the value. *)
Definition valued_avp (o : obj) (v : avp_value) : res avp :=
  let* a := fd_msg_avp_new d (Some o) 0 None in fd_msg_avp_setvalue d a (Some v).

(** [fd_msg_avp_add(msg, MSG_BRW_LAST_CHILD, avp)] *)
Definition add_last (a : avp) (m : msg) : res msg :=
  let* l := fd_msg_avp_add true (msg_children m) [] MSG_BRW_LAST_CHILD a in Ok (set_children l m).

(** The same in a grouped AVP. *)
Definition add_inside (a : avp) (g : avp) : res avp :=
  let* l := fd_msg_avp_add false (avp_children g) [] MSG_BRW_LAST_CHILD a in Ok (with_children l g).

Definition add_value (o : obj) (v : avp_value) (m : msg) : res msg :=
  let* a := valued_avp o v in add_last a m.

Definition fd_msg_add_origin (m : msg) (osi : bool) : res msg :=
  let* m := add_value (dict_avp_OH bo) (OS (cnf_diamid cfg)) m in
  let* m := add_value (dict_avp_OR bo) (OS (cnf_diamrlm cfg)) m in
  if osi then add_value (fd_dict_avp_OSI bo) (NUM (cnf_orstateid cfg)) m else Ok m.

(** [opt] is [(opt, optlen)]; the sessions, and the message with its session. *)
Definition fd_msg_new_session (fuel : nat) (m : msg) (opt : option bytes) (st : S) : res (msg * S) :=
  let* (m, st, r) := fd_msg_sess_get d fuel m st in
  match r with
  | inl e => Err e
  | inr (Some _, _) => Err EINVAL
  | inr (None, _) =>
      let* (s, st) := sess_new st (cnf_diamid cfg) opt in
      let* sid := sess_getsid st s in
      let* a := valued_avp (dict_avp_SI bo) (OS sid) in
      let* l := fd_msg_avp_add true (msg_children m) [] MSG_BRW_FIRST_CHILD a in
      let* m := fd_msg_sess_set s (set_children l m) in
      Ok (m, st)
  end.

(** *** Sending *)

(** [q] is [fd_g_outgoing]; the result is that of the call on the queue ([None]:
    the queue is full and the thread sleeps). *)
Definition fd_msg_send_int (m : msg) (acb data ecb : option nat) (timeout : option (Z * Z)) (q : fifo msg)
    (posted_on queued_on : timespec) : res (fifo msg * option bool) :=
  let* m := fd_msg_anscb_associate acb data ecb timeout m in
  fd_fifo_post_int q m posted_on queued_on.

Definition fd_msg_send (m : msg) (acb data : option nat) : fifo msg → timespec → timespec → res (fifo msg * option bool) :=
  fd_msg_send_int m acb data None None.

Definition fd_msg_send_timeout (m : msg) (acb data ecb : option nat) (timeout : option (Z * Z)) (q : fifo msg)
    (posted_on queued_on : timespec) : res (fifo msg * option bool) :=
  check bool_decide (is_Some ecb) && bool_decide (is_Some timeout) in
  fd_msg_send_int m acb data ecb timeout q posted_on queued_on.

(** *** Results *)

(** "Was this AVP a grouped one?" *)
Definition grouped_model (optavp : avp) : res (option obj) :=
  match avp_model optavp with
  | None => Ok None
  | Some o =>
      match avp_data d o with
      | None => Err EINVAL
      | Some data => Ok (if decide (a_basetype data = AVP_TYPE_GROUPED) then Some o else None)
      end
  end.

(** The content of Failed-AVP.  The header is copied with the pointer to the
    value; the raw data have the length of the AVP and are zero. *)
Definition failed_copy (optavp : avp) : res avp :=
  let* g := grouped_model optavp in
  match g with
  | Some o => fd_msg_avp_new d (Some o) 0 None
  | None =>
      let* a := fd_msg_avp_new d None (Z.lor AVPFL_SET_BLANK_VALUE AVPFL_SET_RAWDATA_FROM_AVP) (Some (avp_public optavp)) in
      Ok (Avp (avp_model a) (avp_mnf a) (avp_public optavp) (avp_val optavp) (avp_source a) (avp_rawdata a) (avp_children a))
  end.

(** "Deal with the 'E' bit and the error message": the bit, and whether the
    standard message is added. *)
Definition result_class (rc_val : Z) : bool * bool :=
  let c := rc_val / 1000 in
  if decide (c = 1 ∨ c = 2) then (false, false)
  else if decide (c = 3) then (true, true)
  else if decide (c = 4 ∨ c = 5) then (bool_decide (rc_val = 5017), true)
  else (false, true).

Definition set_e_bit (b : bool) (m : msg) : msg :=
  let h := msg_public m in
  let fl := if b then Z.lor (msg_flags h) CMD_FLAG_ERROR else Z.ldiff (msg_flags h) CMD_FLAG_ERROR in
  Msg (msg_model m) (msg_mnf m)
    (MsgHdr (msg_version h) (msg_length h) fl (msg_code h) (msg_appl h) (msg_hbhid h) (msg_eteid h))
    (msg_rawbuffer m) (msg_routable m) (msg_query m) (msg_associated m) (msg_rtdata m) (msg_sess m)
    (msg_callbacks m) (msg_src_id m) (msg_children m).

(** "Experimental-Result" with the vendor and the code. *)
Definition experimental_result (vendor rc_val : Z) : res avp :=
  let* er := fd_msg_avp_new d (Some (dict_avp_ER bo)) 0 None in
  let* vi := valued_avp (dict_avp_VI bo) (NUM vendor) in
  let* er := add_inside vi er in
  let* erc := valued_avp (dict_avp_ERC bo) (NUM rc_val) in
  add_inside erc er.

(** "Find the enum value corresponding to the rescode string". *)
Definition result_value (restype : obj) (rescode : bytes) : res Z :=
  let* o := enumval_by_name d restype rescode in
  match o with
  | None => Err ENOTSUP
  | Some o => match enum_u32 d o with Err _ => Err EINVAL | r => r end
  end.

Definition fd_msg_add_result (m : msg) (vendor : Z) (restype : obj) (rescode : bytes) (errormsg : option bytes)
    (optavp : option avp) (type_id : Z) : res msg :=
  let* rc_val := result_value restype rescode in
  let* m := if decide (type_id = 1) then fd_msg_add_origin m false else Ok m in
  let* m := if decide (vendor = 0) then add_value (dict_avp_RC bo) (NUM rc_val) m
            else let* er := experimental_result vendor rc_val in add_last er m in
  let* m := if decide (type_id = 2) then add_value (dict_avp_ERH bo) (OS (cnf_diamid cfg)) m else Ok m in
  let* m := match optavp with
            | None => Ok m
            | Some a =>
                let* f := fd_msg_avp_new d (Some (dict_avp_FAVP bo)) 0 None in
                let* cpy := failed_copy a in
                let* f := add_inside cpy f in
                add_last f m
            end in
  let '(e_bit, std_err_msg) := result_class rc_val in
  let m := set_e_bit e_bit m in
  if std_err_msg || bool_decide (is_Some errormsg) then
    add_value (dict_avp_EM bo) (OS (default rescode errormsg)) m
  else Ok m.

Definition fd_msg_rescode_set (m : msg) (rescode : bytes) (errormsg : option bytes) (optavp : option avp) (type_id : Z)
    : res msg :=
  match type_of_avp d (dict_avp_RC bo) with
  | None => Err ENOENT
  | Some restype => fd_msg_add_result m 0 restype rescode errormsg optavp type_id
  end.

(** ** Parsing, or the answer that reports the error *)

(** The text of an error ([pei_message]) is an argument: its wording is not
    modelled.  [fuel] is that of [fd_msg_parse_rules]. *)
Context (pei_message : perr + rules_err → option bytes) (fuel : nat).

(** The place of an AVP of the message. *)
Definition avp_at (m : msg) (p : list nat) : option avp :=
  match p with [] => None | i :: p => c ← msg_children m !! i; subtree c p end.

(** [pei_errcode], [pei_avp] and [pei_protoerr]; [None] is an error without
    information, whose code is NULL. *)
Definition pei_of (m : msg) (e : perr + rules_err) : option (bytes * option avp * bool) :=
  match e with
  | inl (_, None) => None
  | inl (_, Some p) => Some (pei_name (pei_code p), pei_avp p ≫= avp_at m, pei_protoerr p)
  | inr (_, p) => Some (pei_name (rp_code p),
                        match rp_avp p with
                        | None => None | Some (InTree q) => avp_at m q | Some (Fresh a) => a
                        end, rp_protoerr p)
  end.

(** What the caller gets: a valid message (0), another error, the answer to
    send for an invalid request ([*msg] is NULL, the result is [EBADMSG]) with
    the request it is associated with, or an invalid answer, which may be
    rescued in [*error]. *)
Inductive parse_outcome :=
  | Valid (m : msg) | Failed (m : msg) (e : errno) | Reply (answer query : msg) | InvalidAnswer (m : msg) (rescued : bool).

(** "Rescue error messages": the first Result-Code.  The test [< 0] of the result
    of [fd_msg_parse_dict] is never true, since errors are positive: the value is
    read whatever the parsing says. *)
Definition rescue (m : msg) : res (msg * bool) :=
  match list_find (λ a, avp_code (avp_public a) = AC_RESULT_CODE ∧ has (avp_flags (avp_public a)) AVP_FLAG_VENDOR = false)
          (msg_children m) with
  | None => Ok (m, false)
  | Some (i, a) =>
      let* (a, _) := parsedict_do_avp d fuel false a in
      let m := set_children (<[i := a]> (msg_children m)) m in
      match avp_val a with
      | None => Ok (m, false)
      | Some (NUM rc) => Ok (m, negb (bool_decide (rc / 1000 = 1 ∨ rc / 1000 = 2)))
      | Some (OS _) => Crash
      end
  end.

Definition fd_msg_parse_or_error (addr : nat) (m : msg) (st : S) (eteid : Z) : res (parse_outcome * S * Z) :=
  let* (m, e) := fd_msg_parse_rules d fuel m in
  match e with
  | None => Ok (Valid m, st, eteid)
  | Some e =>
      let code := match e with inl (e, _) => e | inr (e, _) => e end in
      if decide (code ≠ EBADMSG ∧ code ≠ ENOTSUP) then Ok (Failed m code, st, eteid)
      else if has (msg_flags (msg_public m)) CMD_FLAG_REQUEST then
        let protoerr := match pei_of m e with Some (_, _, b) => b | None => false end in
        let* (ans, qry, st, eteid) :=
          fd_msg_new_answer_from_req d fuel (if protoerr then MSGFL_ANSW_ERROR else 0) addr m st eteid in
        match pei_of qry e with
        | None => Err EINVAL
        | Some (rescode, a, _) =>
            let* ans := fd_msg_rescode_set ans rescode (pei_message e) a 1 in
            Ok (Reply ans qry, st, eteid)
        end
      else
        let* (m, r) := rescue m in Ok (InvalidAnswer m r, st, eteid)
  end.

(** ** What the results add to a message *)

Definition data_avp (o : obj) (data : dict_avp_data) (v : option avp_value) (l : list avp) : avp :=
  Avp (Some o) (0, 0)
    (AvpHdr (a_code data) (a_flag_val data) (avp_value_sizes (a_basetype data) + GETAVPHDRSZ (a_flag_val data)) (a_vendor data))
    v None None l.

(** The AVP of the model [o], as [fd_msg_avp_new] makes it. *)
Definition built (o : obj) (v : option avp_value) (l : list avp) : avp :=
  data_avp o (default (DictAvpData 0 0 [] 0 0 AVP_TYPE_GROUPED) (avp_data d o)) v l.

Definition simple (o : obj) : Prop := ∃ a, avp_data d o = Some a ∧ a_basetype a ≠ AVP_TYPE_GROUPED.

(** The objects of the dictionary are AVPs that can hold what is put in them. *)
Definition base_ok : Prop :=
  Forall simple [dict_avp_OH bo; dict_avp_OR bo; dict_avp_EM bo; dict_avp_ERH bo; dict_avp_RC bo; dict_avp_VI bo;
                 dict_avp_ERC bo; fd_dict_avp_OSI bo; dict_avp_SI bo; fd_dict_avp_DC bo] ∧
  is_Some (avp_data d (dict_avp_FAVP bo)) ∧ is_Some (avp_data d (dict_avp_ER bo)).

(** A copy of an AVP that reports an error. *)
Definition failed_of (a : avp) : avp :=
  match grouped_model a with
  | Ok (Some o) => built o None []
  | _ => Avp None (0, 0) (avp_public a) (avp_val a) None
           (let n := w32 (avp_len (avp_public a) - GETAVPHDRSZ (avp_flags (avp_public a))) in
            if decide (n = 0) then None else Some (replicate (Z.to_nat n) 0)) []
  end.

Definition result_avps (vendor rc : Z) (rescode : bytes) (errormsg : option bytes) (optavp : option avp) (type_id : Z) : list avp :=
  (if decide (type_id = 1) then [built (dict_avp_OH bo) (Some (OS (cnf_diamid cfg))) [];
                                 built (dict_avp_OR bo) (Some (OS (cnf_diamrlm cfg))) []] else []) ++
  [if decide (vendor = 0) then built (dict_avp_RC bo) (Some (NUM rc)) []
   else built (dict_avp_ER bo) None [built (dict_avp_VI bo) (Some (NUM vendor)) []; built (dict_avp_ERC bo) (Some (NUM rc)) []]] ++
  (if decide (type_id = 2) then [built (dict_avp_ERH bo) (Some (OS (cnf_diamid cfg))) []] else []) ++
  (match optavp with None => [] | Some a => [built (dict_avp_FAVP bo) None [failed_of a]] end) ++
  (if bool_decide (rc / 1000 = 1 ∨ rc / 1000 = 2) && bool_decide (errormsg = None) then []
   else [built (dict_avp_EM bo) (Some (OS (default rescode errormsg))) []]).

Lemma avp_new_built o : is_Some (avp_data d o) → fd_msg_avp_new d (Some o) 0 None = Ok (built o None []).
Proof. intros [a Ha]. unfold fd_msg_avp_new, built. by rewrite Ha. Qed.

Lemma valued_avp_built o v : simple o → valued_avp o v = Ok (built o (Some v) []).
Proof.
  intros (a & Ha & Hb). unfold valued_avp. rewrite avp_new_built by eauto. unfold built. rewrite Ha. cbn.
  unfold fd_msg_avp_setvalue. cbn. rewrite Ha. by rewrite bool_decide_true.
Qed.

Definition append (l : list avp) (m : msg) : msg := set_children (msg_children m ++ l) m.

Lemma append_app l l' m : append l' (append l m) = append (l ++ l') m.
Proof. unfold append. cbn. by rewrite app_assoc. Qed.

Lemma append_nil m : append [] m = m.
Proof. unfold append. rewrite app_nil_r. by destruct m. Qed.

Lemma append_e_bit b l m : set_e_bit b (append l m) = append l (set_e_bit b m).
Proof. done. Qed.

Lemma add_value_built o v m : simple o → add_value o v m = Ok (append [built o (Some v) []] m).
Proof. intros Ho. unfold add_value. by rewrite valued_avp_built. Qed.

Lemma failed_copy_of a : is_ok (grouped_model a) → failed_copy a = Ok (failed_of a).
Proof.
  intros [g Hg]. unfold failed_copy, failed_of. rewrite Hg. cbn [res_bind]. destruct g as [o|].
  - apply avp_new_built. unfold grouped_model in Hg. destruct (avp_model a) as [o'|]; [|done].
    destruct (avp_data d o') eqn:Ha; [|done]. destruct (decide _); [|done]. injection Hg as <-. by exists d0.
  - by cbn.
Qed.

(** What is known of the objects, one by one. *)
Lemma base_ok_all : base_ok →
  simple (dict_avp_OH bo) ∧ simple (dict_avp_OR bo) ∧ simple (dict_avp_EM bo) ∧ simple (dict_avp_ERH bo) ∧
  simple (dict_avp_RC bo) ∧ simple (dict_avp_VI bo) ∧ simple (dict_avp_ERC bo) ∧ simple (fd_dict_avp_OSI bo) ∧
  is_Some (avp_data d (dict_avp_FAVP bo)) ∧ is_Some (avp_data d (dict_avp_ER bo)).
Proof. intros [Hs [? ?]]. rewrite !Forall_cons in Hs. by destruct Hs as (? & ? & ? & ? & ? & ? & ? & ? & _). Qed.

Lemma fd_msg_add_origin_built m osi : base_ok →
  fd_msg_add_origin m osi = Ok (append
    ([built (dict_avp_OH bo) (Some (OS (cnf_diamid cfg))) []; built (dict_avp_OR bo) (Some (OS (cnf_diamrlm cfg))) []] ++
    (if osi then [built (fd_dict_avp_OSI bo) (Some (NUM (cnf_orstateid cfg))) []] else [])) m).
Proof.
  intros (? & ? & ? & ? & ? & ? & ? & ? & _)%base_ok_all. unfold fd_msg_add_origin.
  rewrite add_value_built by done. cbn [res_bind]. rewrite add_value_built by done. cbn [res_bind].
  destruct osi; [rewrite add_value_built by done|]; by rewrite !append_app.
Qed.

Lemma experimental_result_built vendor rc : base_ok →
  experimental_result vendor rc =
    Ok (built (dict_avp_ER bo) None [built (dict_avp_VI bo) (Some (NUM vendor)) []; built (dict_avp_ERC bo) (Some (NUM rc)) []]).
Proof.
  intros (? & ? & ? & ? & ? & ? & ? & ? & _ & ?)%base_ok_all. unfold experimental_result.
  rewrite avp_new_built by done. cbn [res_bind]. rewrite !valued_avp_built by done. by cbn.
Qed.

(** The class of the code alone decides about the bit and the message. *)
Definition is_error_class (rc : Z) : bool := negb (bool_decide (rc / 1000 = 1 ∨ rc / 1000 = 2)).
Definition sets_e_bit (rc : Z) : bool := bool_decide (rc / 1000 = 3 ∨ rc = 5017).

Lemma result_class_spec rc : result_class rc = (sets_e_bit rc, is_error_class rc).
Proof.
  unfold result_class, sets_e_bit, is_error_class.
  destruct (decide (rc = 5017)) as [-> |Hn]; [done|].
  destruct (decide (rc / 1000 = 1 ∨ rc / 1000 = 2)) as [H|H].
  { rewrite (bool_decide_false (_ ∨ rc = 5017)) by lia. by rewrite bool_decide_true. }
  rewrite (bool_decide_false (rc / 1000 = 1 ∨ _)) by done.
  destruct (decide (rc / 1000 = 3)) as [H3|H3]; [by rewrite bool_decide_true by lia|].
  rewrite (bool_decide_false (_ ∨ rc = 5017)) by lia. destruct (decide _) as [H4|H4]; [|done].
  by rewrite bool_decide_false.
Qed.

Lemma add_result_built m vendor restype rescode errormsg optavp type_id rc : base_ok →
  result_value restype rescode = Ok rc → (∀ a, optavp = Some a → is_ok (grouped_model a)) →
  fd_msg_add_result m vendor restype rescode errormsg optavp type_id =
    Ok (append (result_avps vendor rc rescode errormsg optavp type_id) (set_e_bit (sets_e_bit rc) m)).
Proof.
  intros Hok Hrc Hopt. pose proof (base_ok_all Hok) as (? & ? & ? & ? & ? & ? & ? & ? & ? & ?).
  unfold fd_msg_add_result, result_avps. rewrite Hrc. cbn [res_bind].
  set (p1 := if decide (type_id = 1) then _ else []). set (p2 := if decide (vendor = 0) then _ else built _ _ _).
  set (p3 := if decide (type_id = 2) then _ else []). set (p4 := match optavp with None => [] | _ => _ end).
  assert ((if decide (type_id = 1) then fd_msg_add_origin m false else Ok m) = Ok (append p1 m)) as ->.
  { unfold p1. destruct (decide _); [by rewrite fd_msg_add_origin_built|by rewrite append_nil]. }
  cbn [res_bind].
  assert (∀ m, (if decide (vendor = 0) then add_value (dict_avp_RC bo) (NUM rc) m
            else let* er := experimental_result vendor rc in add_last er m) = Ok (append [p2] m)) as ->.
  { intros m'. unfold p2. destruct (decide (vendor = 0)); [by apply add_value_built|]. by rewrite experimental_result_built. }
  cbn [res_bind].
  assert (∀ m, (if decide (type_id = 2) then add_value (dict_avp_ERH bo) (OS (cnf_diamid cfg)) m else Ok m) = Ok (append p3 m)) as ->.
  { intros m'. unfold p3. destruct (decide (type_id = 2)); [by apply add_value_built|by rewrite append_nil]. }
  cbn [res_bind].
  assert (∀ m, match optavp with
            | None => Ok m
            | Some a =>
                let* f := fd_msg_avp_new d (Some (dict_avp_FAVP bo)) 0 None in
                let* cpy := failed_copy a in
                let* f := add_inside cpy f in
                add_last f m
            end = Ok (append p4 m)) as ->.
  { intros m'. unfold p4. destruct optavp as [a|]; [|by rewrite append_nil].
    rewrite avp_new_built by done. cbn [res_bind]. by rewrite failed_copy_of by auto. }
  cbn [res_bind]. rewrite result_class_spec. rewrite !append_app, append_e_bit.
  destruct (is_error_class rc || bool_decide (is_Some errormsg)) eqn:E.
  - rewrite add_value_built by done. rewrite append_app, <- !app_assoc.
    replace (bool_decide (rc / 1000 = 1 ∨ rc / 1000 = 2) && bool_decide (errormsg = None)) with false; [done|].
    unfold is_error_class in E. destruct (bool_decide (rc / 1000 = 1 ∨ _)); [|done]. by destruct errormsg.
  - unfold is_error_class in E. destruct (bool_decide (rc / 1000 = 1 ∨ _)); [|done].
    destruct errormsg; [done|]. cbn [andb]. rewrite !app_assoc, app_nil_r. by rewrite <- !app_assoc.
Qed.

Lemma has_set_e_bit b m : has (msg_flags (msg_public (set_e_bit b m))) CMD_FLAG_ERROR = b.
Proof.
  unfold has. cbn. destruct b; [apply bool_decide_true|apply bool_decide_false; intros H; apply H].
  - rewrite Z.land_lor_distr_l, Z.land_diag. intros [_ ?]%Z.lor_eq_0_iff. done.
  - apply Z.bits_inj'. intros n _. rewrite Z.land_spec, Z.ldiff_spec, Z.bits_0.
    by destruct (Z.testbit CMD_FLAG_ERROR n), (Z.testbit _ n).
Qed.

Lemma sess_get_public m st m1 st1 r : fd_msg_sess_get d fuel m st = Ok (m1, st1, r) → msg_public m1 = msg_public m.
Proof.
  unfold fd_msg_sess_get. intros H. repeat (case_match; simplify_eq/=; try done; destruct_res; simplify_eq/=).
Qed.

Lemma parse_msg_public b m m' e : parsedict_do_msg d fuel b m = Ok (m', e) → msg_public m' = msg_public m.
Proof.
  unfold parsedict_do_msg, parsedict_msg_search, parsedict_msg_chain. intros H.
  repeat (case_match; simplify_eq/=; try done; destruct_res; simplify_eq/=).
Qed.

Lemma answer_model_public flags m m' o : answer_model d fuel flags m = Ok (m', o) → msg_public m' = msg_public m.
Proof.
  unfold answer_model. destruct (has flags MSGFL_ANSW_ERROR); [by intros [= <- <-]|].
  destruct (parsedict_do_msg d fuel true m) as [[m1 e]|e|] eqn:Ep; [|done..]. cbn [res_bind]. apply parse_msg_public in Ep.
  destruct (msg_model m1); [destruct (cmd_answer d _); [|done..]|]; by intros [= <- <-].
Qed.

Lemma add_session_public sess st m m' st' : add_session_id d sess st m = Ok (m', st') → msg_public m' = msg_public m.
Proof.
  unfold add_session_id. destruct sess; [|by intros [= <- <-]]. intros H. destruct_res. case_match; [|done]. destruct_res.
  by simplify_eq.
Qed.

(** The answer keeps the identifiers of the request. *)
Lemma new_answer_ids flags addr m st eteid ans qry st' eteid' :
  fd_msg_new_answer_from_req d fuel flags addr m st eteid = Ok (ans, qry, st', eteid') →
  let h := msg_public ans in let q := msg_public m in
  (msg_code h, msg_appl h, msg_hbhid h, msg_eteid h) = (msg_code q, msg_appl q, msg_hbhid q, msg_eteid q) ∧
  msg_public qry = q ∧ msg_query ans = Some addr.
Proof.
  unfold fd_msg_new_answer_from_req. destruct (has _ CMD_FLAG_REQUEST); [|done].
  set (sg := if has flags MSGFL_ANSW_NOSID then _ else _). destruct sg as [[[m1 st1] sess]|e|] eqn:Esg; [|done..].
  assert (msg_public m1 = msg_public m) as H1.
  { unfold sg in Esg. destruct (has flags MSGFL_ANSW_NOSID); [by injection Esg as <-|].
    apply res_bind_ok in Esg as ([[m2 st2] r] & Hg & [= -> _ _]). by eapply sess_get_public. }
  cbn [res_bind]. destruct (answer_model d fuel flags m1) as [[m2 model]|e|] eqn:Ea; [|done..]. cbn [res_bind].
  apply answer_model_public in Ea. destruct (fd_msg_new d model flags eteid) as [[a2 ete2]|e|]; [|done..]. cbn [res_bind].
  destruct (add_session_id d sess st1 _) as [[a3 st3]|e|] eqn:Es; [|done..]. cbn [res_bind]. apply add_session_public in Es.
  destruct (if has flags MSGFL_ANSW_NOPROXYINFO then _ else _) as [[ql cpy]|e|]; [|done..]. cbn [res_bind].
  intros [= <- <- <- <-]. cbn. rewrite Es. cbn. by rewrite Ea, H1.
Qed.

(** An AVP that cannot be copied ends the construction of the answer. *)
Lemma add_result_refused m restype rescode errormsg a rc x : base_ok →
  result_value restype rescode = Ok rc → grouped_model a = Err x →
  fd_msg_add_result m 0 restype rescode errormsg (Some a) 1 = Err x.
Proof.
  intros Hok Hrc Ha. pose proof (base_ok_all Hok) as (? & ? & ? & ? & ? & ? & ? & ? & ? & ?).
  unfold fd_msg_add_result. rewrite Hrc. cbn [res_bind]. rewrite decide_True by done.
  rewrite fd_msg_add_origin_built by done. cbn [res_bind]. rewrite decide_True by done.
  rewrite add_value_built by done. cbn [res_bind]. rewrite decide_False by done. cbn [res_bind].
  rewrite avp_new_built by done. cbn [res_bind]. unfold failed_copy. by rewrite Ha.
Qed.

Lemma grouped_model_safe a : grouped_model a ≠ Crash.
Proof. unfold grouped_model. by repeat case_match. Qed.

(** The AVP that tells the result of an answer: Result-Code, of the base vendor. *)
Definition is_result_code (a : avp) : Prop :=
  avp_code (avp_public a) = AC_RESULT_CODE ∧ has (avp_flags (avp_public a)) AVP_FLAG_VENDOR = false.

Definition error_code (e : perr + rules_err) : errno := match e with inl (e, _) => e | inr (e, _) => e end.

(** C38: [fd_msg_parse_or_error], by the result of the parsing.  A message that
    satisfies the dictionary is returned as valid, and an internal error as it
    is.  For an invalid request the answer is made; when one of the calls that make
    it fails its error is returned; otherwise the caller gets the answer, which
    has the identifiers of the request, is associated with it, and is the new
    answer with the origin, the Result-Code whose value the dictionary gives for
    the name of the error that was found, the Failed-AVP, and the message; its E
    bit is set exactly for the 3xxx codes and 5017.  An invalid answer is given to
    the application if and only if its first Result-Code (code 268 without
    vendor), once it is parsed, holds a number that is neither 1xxx nor 2xxx; only
    this AVP of the answer changes. *)
Theorem fd_msg_parse_or_error_spec addr m st eteid m' r :
  base_ok → fd_msg_parse_rules d fuel m = Ok (m', r) →
  let out := fd_msg_parse_or_error addr m st eteid in
  match r with
  | None => out = Ok (Valid m', st, eteid)
  | Some e =>
      if decide (error_code e ≠ EBADMSG ∧ error_code e ≠ ENOTSUP) then out = Ok (Failed m' (error_code e), st, eteid)
      else if has (msg_flags (msg_public m')) CMD_FLAG_REQUEST then
        match fd_msg_new_answer_from_req d fuel (match pei_of m' e with Some (_, _, true) => MSGFL_ANSW_ERROR | _ => 0 end)
                addr m' st eteid with
        | Err x => out = Err x
        | Crash => out = Crash
        | Ok (ans, qry, st', eteid') =>
            match pei_of qry e, type_of_avp d (dict_avp_RC bo) with
            | None, _ => out = Err EINVAL
            | Some _, None => out = Err ENOENT
            | Some (rescode, a, pe), Some ty =>
                match result_value ty rescode, from_option grouped_model (Ok None) a with
                | Err x, _ => out = Err x
                | Crash, _ => out = Crash
                | Ok _, Err x => out = Err x
                | Ok _, Crash => False
                | Ok rc, Ok _ =>
                    ∃ reply, out = Ok (Reply reply qry, st', eteid') ∧
                      (let h := msg_public reply in let q := msg_public m' in
                       (msg_code h, msg_appl h, msg_hbhid h, msg_eteid h) = (msg_code q, msg_appl q, msg_hbhid q, msg_eteid q) ∧
                       has (msg_flags h) CMD_FLAG_ERROR = sets_e_bit rc) ∧
                      msg_query reply = Some addr ∧
                      msg_children reply = msg_children ans ++ result_avps 0 rc rescode (pei_message e) a 1
                end
            end
        end
      else
        match list_find is_result_code (msg_children m') with
        | None => out = Ok (InvalidAnswer m' false, st, eteid)
        | Some (i, a) =>
            match parsedict_do_avp d fuel false a with
            | Err x => out = Err x
            | Crash => out = Crash
            | Ok (a', _) =>
                let m'' := set_children (<[i := a']> (msg_children m')) m' in
                match avp_val a' with
                | Some (OS _) => out = Crash
                | Some (NUM rc) => out = Ok (InvalidAnswer m'' (is_error_class rc), st, eteid)
                | None => out = Ok (InvalidAnswer m'' false, st, eteid)
                end
            end
        end
  end.
Proof.
  intros Hok Hp. cbv zeta. unfold fd_msg_parse_or_error. rewrite Hp. cbn [res_bind]. destruct r as [e|]; [|done].
  fold (error_code e). destruct (decide _); [done|]. destruct (has _ CMD_FLAG_REQUEST).
  - assert ((if match pei_of m' e with Some (_, _, b) => b | None => false end then MSGFL_ANSW_ERROR else 0) =
            match pei_of m' e with Some (_, _, true) => MSGFL_ANSW_ERROR | _ => 0 end) as ->
      by (by destruct (pei_of m' e) as [[[? ?] []]|]).
    destruct (fd_msg_new_answer_from_req _ _ _ _ _ _ _) as [[[[ans qry] st'] eteid']|x|] eqn:Hn; [|done..].
    cbn [res_bind]. destruct (pei_of qry e) as [[[rescode a] pe]|]; [|done].
    unfold fd_msg_rescode_set. destruct (type_of_avp d (dict_avp_RC bo)) as [ty|]; [|done].
    destruct (result_value ty rescode) as [rc|x|] eqn:Hrc; [|unfold fd_msg_add_result; by rewrite Hrc..].
    destruct (from_option grouped_model (Ok None) a) as [g|x|] eqn:Ha.
    + rewrite (add_result_built _ _ _ _ _ _ _ rc); [|done|done|intros y ->; by exists g]. cbn [res_bind].
      destruct (new_answer_ids _ _ _ _ _ _ _ _ _ Hn) as (Hi & _ & Hq).
      eexists. split; [done|]. split; [|by split]. split; [exact Hi|]. apply (has_set_e_bit _ ans).
    + destruct a as [a|]; [|done]. by rewrite (add_result_refused _ _ _ _ _ rc x).
    + destruct a as [a|]; [|done]. by apply grouped_model_safe in Ha.
  - unfold rescue. change (λ a : avp, avp_code (avp_public a) = _ ∧ _) with is_result_code.
    destruct (list_find _ (msg_children m')) as [[i a]|]; [|done].
    destruct (parsedict_do_avp d fuel false a) as [[a' e']|x|]; [|done..]. cbn [res_bind].
    by destruct (avp_val a') as [[os|rc]|].
Qed.
End messages.

(** ** Examples *)

Module Examples.
Import Small MsgTree.Examples.

(** The AVPs of the base protocol that are used here: object [i] is the [i]-th. *)
Definition core : dict := Dict
  [DictAvpData 263 0 (str "Session-Id") 192 64 AVP_TYPE_OCTETSTRING;
   DictAvpData 264 0 (str "Origin-Host") 192 64 AVP_TYPE_OCTETSTRING;
   DictAvpData 296 0 (str "Origin-Realm") 192 64 AVP_TYPE_OCTETSTRING;
   DictAvpData 281 0 (str "Error-Message") 192 0 AVP_TYPE_OCTETSTRING;
   DictAvpData 294 0 (str "Error-Reporting-Host") 192 0 AVP_TYPE_OCTETSTRING;
   DictAvpData 279 0 (str "Failed-AVP") 192 64 AVP_TYPE_GROUPED;
   DictAvpData 268 0 (str "Result-Code") 192 64 AVP_TYPE_UNSIGNED32;
   DictAvpData 297 0 (str "Experimental-Result") 192 64 AVP_TYPE_GROUPED;
   DictAvpData 266 0 (str "Vendor-Id") 192 64 AVP_TYPE_UNSIGNED32;
   DictAvpData 298 0 (str "Experimental-Result-Code") 192 64 AVP_TYPE_UNSIGNED32;
   DictAvpData 278 0 (str "Origin-State-Id") 192 64 AVP_TYPE_UNSIGNED32;
   DictAvpData 273 0 (str "Disconnect-Cause") 192 64 AVP_TYPE_UNSIGNED32]
  [DictCmdData 0 (str "Generic-Error-Command") 224 0;
   DictCmdData 257 (str "Capabilities-Exchange-Request") 224 128; DictCmdData 257 (str "Capabilities-Exchange-Answer") 224 0;
   DictCmdData 280 (str "Device-Watchdog-Request") 224 128; DictCmdData 280 (str "Device-Watchdog-Answer") 224 0;
   DictCmdData 282 (str "Disconnect-Peer-Request") 224 128; DictCmdData 282 (str "Disconnect-Peer-Answer") 224 0]
  (λ o, []).

(** The type of an AVP is named by the AVP itself; the constant of the value [v]
    is the object [v]. *)
#[export] Instance core_disp : DispDictionary dict := {
  object_type d o := object_type (DispDictionary:=small_disp_dictionary) d o;
  type_of_enumval d o := None;
  type_of_avp d o := Some o;
  application_by_id d i := application_by_id (DispDictionary:=small_disp_dictionary) d i;
  enumval_by_value d t v := Ok None }.

Definition result_codes : list (bytes * nat) :=
  [(str "DIAMETER_COMMAND_UNSUPPORTED", 3001); (str "DIAMETER_SUCCESS", 2001);
   (str "DIAMETER_MISSING_AVP", 5005); (str "DIAMETER_NO_COMMON_SECURITY", 5017);
   (str "DIAMETER_NO_COMMON_APPLICATION", 5010)]%nat.

#[export] Instance core_core : CoreDictionary dict := {
  cmd_by_name d n := Ok (match list_find (λ c, c_name c = n) (cmds d) with Some (i, _) => Some (length (avps d) + i)%nat | None => None end);
  enumval_by_name d t n := Ok (match list_find (λ c, fst c = n) result_codes with Some (_, (_, v)) => Some v | None => None end);
  enum_u32 d o := Ok (Z.of_nat o);
  vendorid_list d := Ok [] }.

#[export] Instance small_new_sessions : NewSessions (list bytes) := λ st host opt,
  Ok (length st, st ++ [host ++ default [] opt]).

Definition core_objs : base_objs := BaseObjs 0 1 2 3 4 5 6 7 8 9 10 11 13 15 17.
Definition host : identity := Identity (str "h.example.net") (str "example.net") 7.

Example init_core : fd_msg_init core = Ok core_objs.
Proof. vm_compute. reflexivity. Qed.

(** A request of a command that is not known. *)
Definition unknown : msg :=
  Msg None (0, 0) (MsgHdr 1 20 128 999 0 77 99) None 0 None false None None (MsgCb None None None (0, 0)) None [].

Definition unknown_parsed : msg := with_msg_model None (999, 128) unknown.

Definition outcome := fd_msg_parse_or_error (S:=list bytes) core host core_objs (λ _, None) 3 1 unknown [] 0.

Lemma core_objs_ok : base_ok core core_objs.
Proof.
  split; [|split; eexists; reflexivity].
  repeat (apply Forall_cons; split; [eexists; split; [reflexivity|done]|]). apply Forall_nil. done.
Qed.

Lemma fd_msg_parse_or_error_witness :
  ∃ reply qry, outcome = Ok (Reply reply qry, [], 0) ∧ msg_hbhid (msg_public reply) = 77 ∧
    has (msg_flags (msg_public reply)) CMD_FLAG_ERROR = true ∧ msg_query reply = Some 1%nat.
Proof.
  set (e := inl (ENOTSUP, Some (Pei DIAMETER_COMMAND_UNSUPPORTED None true)) : perr + rules_err).
  assert (fd_msg_parse_rules core 3 unknown = Ok (unknown_parsed, Some e)) as Hp by (vm_compute; reflexivity).
  pose proof (fd_msg_parse_or_error_spec (S:=list bytes) core host core_objs (λ _, None) 3 1 unknown [] 0
    unknown_parsed (Some e) core_objs_ok Hp) as H. cbv beta iota zeta in H.
  rewrite decide_False in H by (cbn; tauto). 
  assert (has (msg_flags (msg_public unknown_parsed)) CMD_FLAG_REQUEST = true) as Hr by reflexivity. rewrite Hr in H.
  destruct (fd_msg_new_answer_from_req core 3 MSGFL_ANSW_ERROR 1 unknown_parsed ([] : list bytes) 0)
    as [[[[ans qry] st] ete]|x|] eqn:En; [|vm_compute in En; discriminate..].
  assert (st = [] ∧ ete = 0) as [-> ->] by (vm_compute in En; by simplify_eq).
  change (pei_of unknown_parsed e) with (Some (str "DIAMETER_COMMAND_UNSUPPORTED", None : option avp, true)) in H.
  cbv beta iota in H. rewrite En in H.
  destruct H as (reply & Ho & [Hi He] & Hq & _).
  exists reply, qry. split; [exact Ho|]. split; [|split; [exact He|exact Hq]]. by simplify_eq/=.
Defined.
End Examples.
