(* ===== verification/CoreInst.v ===== *)
(** * The dictionary and the sessions behind the messages of the daemon

    The well-formed dictionaries implement what [CoreMsg.v] asks of one; the
    sessions module implements what the messages and [fd_msg_new_session] ask of
    it.  [fd_msg_init] then finds exactly the objects with the names it looks
    for. *)

From Stdlib Require Import ZArith Lia String.
From stdpp Require Import functions base strings list gmap.
From S2P Require Import Prelude Time DictTypes Dict DictSpec DictMsg Msg MsgTree CoreMsg.
From S2P Require Sessions.

#[export] Instance dict_core : CoreDictionary wf_dictionary := {
  cmd_by_name d n := fd_dict_search None (Some ENOENT) (search_cmd (the_dict d) (CMD_BY_NAME n));
  enumval_by_name d t n :=
    fd_dict_search None (Some ENOTSUP) (search_enumval (the_dict d) (DictEnumvalRequest (Some t) None (Some n) (NUM 0)));
  enum_u32 d o :=
    let* v := fd_dict_getval (the_dict d) (Some o) in
    match v with EnumvalData _ (NUM n) => Ok (w32 n) | _ => Crash end;
  vendorid_list d := fd_dict_get_vendorid_list (the_dict d) }.

(** The time at which a session is looked up or made. *)
Class Clock := the_time : timespec.

#[export] Instance module_sessions `{!Clock} : MsgSessions Sessions.module := {
  sess_fromsid_msg σ sid :=
    let* (σ, s, new) := Sessions.fd_sess_fromsid_msg σ the_time sid (zlen sid) in Ok (s, new, σ);
  sess_getsid σ s := Sessions.fd_sess_getsid σ s;
  sess_ref_msg σ s := Sessions.fd_sess_ref_msg σ s;
  sess_reclaim_msg σ s := match Sessions.fd_sess_reclaim_msg σ s with Ok σ => σ | _ => σ end }.

(** [EALREADY] is an error here. *)
#[export] Instance module_new_sessions `{!Clock} : NewSessions Sessions.module := λ σ host opt,
  let* (σ, s, new) := Sessions.fd_sess_new σ the_time (Some (host ++ [0], zlen host)) ((λ o, (o, zlen o)) <$> opt) in
  if new : bool then Ok (s, σ) else Err EALREADY.

Section init.
Context `{!TypeCheckers} (d : wf_dictionary).

Definition is_avp_named (name : bytes) (o : obj) : Prop :=
  ∃ a, data_of (the_dict d) o = Some (AvpData a) ∧ a_name a = name ∧ a_vendor a = 0.
Definition is_cmd_named (name : bytes) (o : obj) : Prop :=
  o ≠ dict_cmd_error ∧ ∃ c, data_of (the_dict d) o = Some (CommandData c) ∧ c_name c = name.

Lemma avp_named_spec name :
  match avp_named d name with
  | Ok o => is_avp_named (str name) o | Err e => e = ENOENT ∧ ∀ o, ¬ is_avp_named (str name) o | Crash => False
  end.
Proof.
  destruct d as [d0 Hwf] eqn:Ed. unfold avp_named. cbn [avp_by_name dict_messages the_dict search_avp].
  destruct (vendors_data d0 Hwf) as [n Hn]. destruct (avp_name_finds d0 Hwf (str name) _ _ _ Hn) as (x & -> & Hx).
  unfold is_avp_named. subst d. cbn [the_dict]. destruct x as [o|]; cbn.
  - by apply Hx.
  - split; [done|]. intros o Ho. by apply Hx in Ho.
Qed.

Lemma cmd_named_spec name :
  match cmd_named d name with
  | Ok o => is_cmd_named (str name) o | Err e => e = ENOENT ∧ ∀ o, ¬ is_cmd_named (str name) o | Crash => False
  end.
Proof.
  destruct d as [d0 Hwf] eqn:Ed. unfold cmd_named. cbn [cmd_by_name dict_core the_dict].
  destruct (cmd_by_name_finds d0 Hwf (str name)) as (x & -> & Hx).
  unfold is_cmd_named. subst d. cbn [the_dict]. destruct x as [o|]; cbn.
  - by apply Hx.
  - split; [done|]. intros o Ho. by apply Hx in Ho.
Qed.

(** The fields of [base_objs] with the names of their AVPs, and of their commands. *)
Definition avp_fields (bo : base_objs) : list (string * obj) :=
  [("Session-Id", dict_avp_SI bo); ("Origin-Host", dict_avp_OH bo); ("Origin-Realm", dict_avp_OR bo);
   ("Origin-State-Id", fd_dict_avp_OSI bo); ("Result-Code", dict_avp_RC bo); ("Error-Message", dict_avp_EM bo);
   ("Error-Reporting-Host", dict_avp_ERH bo); ("Failed-AVP", dict_avp_FAVP bo); ("Experimental-Result", dict_avp_ER bo);
   ("Vendor-Id", dict_avp_VI bo); ("Experimental-Result-Code", dict_avp_ERC bo); ("Disconnect-Cause", fd_dict_avp_DC bo)]%string.
Definition cmd_fields (bo : base_objs) : list (string * obj) :=
  [("Capabilities-Exchange-Request", fd_dict_cmd_CER bo); ("Device-Watchdog-Request", fd_dict_cmd_DWR bo);
   ("Disconnect-Peer-Request", fd_dict_cmd_DPR bo)]%string.

(** The lookups of [fd_msg_init] find the named objects, or one is missing. *)
Lemma fd_msg_init_found :
  match fd_msg_init d with
  | Ok bo => Forall (λ '(n, o), is_avp_named (str n) o) (avp_fields bo) ∧
             Forall (λ '(n, o), is_cmd_named (str n) o) (cmd_fields bo)
  | Err e => e = ENOENT
  | Crash => False
  end.
Proof.
  unfold fd_msg_init.
  repeat match goal with
  | |- context [avp_named d ?n] =>
      let H := fresh "H" in pose proof (avp_named_spec n) as H; destruct (avp_named d n); cbn [res_bind]; [|by destruct H|done]
  | |- context [cmd_named d ?n] =>
      let H := fresh "H" in pose proof (cmd_named_spec n) as H; destruct (cmd_named d n); cbn [res_bind]; [|by destruct H|done]
  end.
  by split; unfold avp_fields, cmd_fields; cbn; repeat (constructor; [done|]).
Qed.

(** With the types of the base protocol the results can be added to a message. *)
Lemma fd_msg_init_base_ok bo : fd_msg_init d = Ok bo →
  (∀ n o a, (n, o) ∈ avp_fields bo → data_of (the_dict d) o = Some (AvpData a) →
     n ∉ ["Failed-AVP"; "Experimental-Result"]%string → a_basetype a ≠ AVP_TYPE_GROUPED) →
  base_ok d bo.
Proof.
  intros Hi Ht. pose proof fd_msg_init_found as Hf. rewrite Hi in Hf. destruct Hf as [Hf _].
  assert (∀ n o, (n, o) ∈ avp_fields bo → is_Some (avp_data d o)) as Hs.
  { intros n o Hno. rewrite Forall_forall in Hf. destruct (Hf _ Hno) as (a & Ha & _). exists a.
    cbn. unfold avp_data_of. by rewrite Ha. }
  assert (∀ n o, (n, o) ∈ avp_fields bo → n ∉ ["Failed-AVP"; "Experimental-Result"]%string → simple d o) as Hp.
  { intros n o Hno Hn. destruct (Hs n o Hno) as [a Ha]. exists a. split; [done|]. apply (Ht n o a); [done| |done].
    cbn in Ha. unfold avp_data_of in Ha. destruct (data_of (the_dict d) o) as [[]|]; try done. by injection Ha as ->. }
  rewrite Forall_forall in Hf. clear Hf.
  split; [|split; [eapply (Hs "Failed-AVP"%string)|eapply (Hs "Experimental-Result"%string)]; unfold avp_fields; set_solver].
  apply Forall_forall. intros o Ho.
  assert (∃ n, (n, o) ∈ avp_fields bo ∧ n ∉ ["Failed-AVP"; "Experimental-Result"]%string) as (n & Hno & Hn); [|by eapply Hp].
  unfold avp_fields.
  repeat (apply elem_of_cons in Ho as [-> |Ho]; [eexists; split; [repeat (apply list_elem_of_here || apply list_elem_of_further)|by_compute]|]).
  by apply elem_of_nil in Ho.
Qed.
End init.
