(* ===== verification/PeerTypes.v ===== *)
(** * Peers: data ([libfdcore/fdcore-internal.h], [libfdcore.h])

    The structure of a peer, the events of its state machine, the state its
    operations work on, and what the system answers to them.  Connections are
    numbers; [w_live] holds those that are not destroyed.  The queue of events
    and the queues of messages of the peer are lists; the outgoing queue of the
    daemon is a [fifo]. *)

From Stdlib Require Import ZArith Lia.
From stdpp Require Import base sets list gmap.
From S2P Require Import Prelude Time DictTypes Msg MsgTree Fifo SentReq Apps DictFct Endpoints CoreMsg.

Inductive peer_state :=
  | STATE_NEW | STATE_OPEN | STATE_CLOSED | STATE_CLOSING | STATE_WAITCNXACK | STATE_WAITCNXACK_ELEC
  | STATE_WAITCEA | STATE_OPEN_HANDSHAKE | STATE_SUSPECT | STATE_REOPEN | STATE_OPEN_NEW
  | STATE_CLOSING_GRACE | STATE_ZOMBIE.

#[export] Instance peer_state_eq_dec : EqDecision peer_state.
Proof. solve_decision. Defined.

(** The events, with their data. *)
Inductive fd_event :=
  | FDEVP_TERMINATE (reason : option bytes)
  | FDEVP_CNX_MSG_RECV (buffer : bytes)
  | FDEVP_CNX_ERROR
  | FDEVP_CNX_EP_CHANGE
  | FDEVP_CNX_SHUTDOWN
  | FDEVP_CNX_INCOMING (cer : msg) (cnx : nat) (validate : bool)
  | FDEVP_CNX_ESTABLISHED (cnx : nat)
  | FDEVP_CNX_FAILED
  | FDEVP_PSM_TIMEOUT.

Definition PI_SEC_NONE := 1.
Definition PI_SEC_TLS_OLD := 2.

(** [info.config]: [pic_exp] is [PI_EXP_INACTIVE], [pic_persist] [PI_PRST_ALWAYS]. *)
Record peer_config := PeerConfig {
  pic_sec : Z; pic_exp : bool; pic_persist : bool; pic_realm : option bytes; pic_lft : Z;
  pic_tctimer : Z; pic_twtimer : Z }.

(** [info.runtime]; [pir_cert]: a list of certificates is known. *)
Record peer_runtime := PeerRuntime {
  pir_realm : option bytes; pir_vendorid : Z; pir_orstate : Z; pir_prodname : option bytes;
  pir_firmrev : Z; pir_relay : bool; pir_apps : list fd_app; pir_isi : Z; pir_lastDC : Z;
  pir_proto : Z; pir_cert : bool }.

Definition init_runtime : peer_runtime := PeerRuntime None 0 0 None 0 false [] 0 0 0 false.

Record peer_flags := PeerFlags {
  pf_responder : bool; pf_delete : bool; pf_localterm : bool; pf_dw_pending : bool; pf_cnx_pb : bool;
  pf_reopen_cnt : Z }.

(** The thread that sends: not started, sending, or purging the queue after an
    error. *)
Inductive out_thread := OutNone | OutSending | OutPurging.

(** [p_cb] and [p_cb2]: a callback is set; [p_ini_thr] and [p_outthr]: the thread. *)
Record fd_peer := Peer {
  pi_diamid : bytes; pi_endpoints : list endpoint; config : peer_config; runtime : peer_runtime;
  p_state : peer_state; p_exp_timer : timespec; p_flags : peer_flags;
  p_events : option (list fd_event); p_psm_timer : timespec; p_tosend : list msg;
  p_outthr : out_thread; p_hbh : Z; p_sr : sr_list; p_tofailover : list msg; p_reqin_count : Z;
  p_receiver : option nat; p_cer : option msg; p_ini_thr : bool; p_cnxctx : option nat; p_cb2 : bool;
  p_cb : bool }.

(** Assignments to the fields. *)
Definition set_pir_realm (v : option bytes) (r : peer_runtime) : peer_runtime :=
  PeerRuntime v (pir_vendorid r) (pir_orstate r) (pir_prodname r) (pir_firmrev r) (pir_relay r) (pir_apps r)
    (pir_isi r) (pir_lastDC r) (pir_proto r) (pir_cert r).
Definition set_pir_vendorid (v : Z) (r : peer_runtime) : peer_runtime :=
  PeerRuntime (pir_realm r) v (pir_orstate r) (pir_prodname r) (pir_firmrev r) (pir_relay r) (pir_apps r) (pir_isi r)
    (pir_lastDC r) (pir_proto r) (pir_cert r).
Definition set_pir_orstate (v : Z) (r : peer_runtime) : peer_runtime :=
  PeerRuntime (pir_realm r) (pir_vendorid r) v (pir_prodname r) (pir_firmrev r) (pir_relay r) (pir_apps r) (pir_isi r)
    (pir_lastDC r) (pir_proto r) (pir_cert r).
Definition set_pir_prodname (v : option bytes) (r : peer_runtime) : peer_runtime :=
  PeerRuntime (pir_realm r) (pir_vendorid r) (pir_orstate r) v (pir_firmrev r) (pir_relay r) (pir_apps r) (pir_isi r)
    (pir_lastDC r) (pir_proto r) (pir_cert r).
Definition set_pir_firmrev (v : Z) (r : peer_runtime) : peer_runtime :=
  PeerRuntime (pir_realm r) (pir_vendorid r) (pir_orstate r) (pir_prodname r) v (pir_relay r) (pir_apps r) (pir_isi r)
    (pir_lastDC r) (pir_proto r) (pir_cert r).
Definition set_pir_relay (v : bool) (r : peer_runtime) : peer_runtime :=
  PeerRuntime (pir_realm r) (pir_vendorid r) (pir_orstate r) (pir_prodname r) (pir_firmrev r) v (pir_apps r)
    (pir_isi r) (pir_lastDC r) (pir_proto r) (pir_cert r).
Definition set_pir_apps (v : list fd_app) (r : peer_runtime) : peer_runtime :=
  PeerRuntime (pir_realm r) (pir_vendorid r) (pir_orstate r) (pir_prodname r) (pir_firmrev r) (pir_relay r) v
    (pir_isi r) (pir_lastDC r) (pir_proto r) (pir_cert r).
Definition set_pir_isi (v : Z) (r : peer_runtime) : peer_runtime :=
  PeerRuntime (pir_realm r) (pir_vendorid r) (pir_orstate r) (pir_prodname r) (pir_firmrev r) (pir_relay r)
    (pir_apps r) v (pir_lastDC r) (pir_proto r) (pir_cert r).
Definition set_pir_lastDC (v : Z) (r : peer_runtime) : peer_runtime :=
  PeerRuntime (pir_realm r) (pir_vendorid r) (pir_orstate r) (pir_prodname r) (pir_firmrev r) (pir_relay r)
    (pir_apps r) (pir_isi r) v (pir_proto r) (pir_cert r).
Definition set_pir_proto (v : Z) (r : peer_runtime) : peer_runtime :=
  PeerRuntime (pir_realm r) (pir_vendorid r) (pir_orstate r) (pir_prodname r) (pir_firmrev r) (pir_relay r)
    (pir_apps r) (pir_isi r) (pir_lastDC r) v (pir_cert r).
Definition set_pir_cert (v : bool) (r : peer_runtime) : peer_runtime :=
  PeerRuntime (pir_realm r) (pir_vendorid r) (pir_orstate r) (pir_prodname r) (pir_firmrev r) (pir_relay r)
    (pir_apps r) (pir_isi r) (pir_lastDC r) (pir_proto r) v.
Definition set_pf_localterm (v : bool) (f : peer_flags) : peer_flags :=
  PeerFlags (pf_responder f) (pf_delete f) v (pf_dw_pending f) (pf_cnx_pb f) (pf_reopen_cnt f).
Definition set_pf_dw_pending (v : bool) (f : peer_flags) : peer_flags :=
  PeerFlags (pf_responder f) (pf_delete f) (pf_localterm f) v (pf_cnx_pb f) (pf_reopen_cnt f).
Definition set_pf_cnx_pb (v : bool) (f : peer_flags) : peer_flags :=
  PeerFlags (pf_responder f) (pf_delete f) (pf_localterm f) (pf_dw_pending f) v (pf_reopen_cnt f).
Definition set_pf_reopen_cnt (v : Z) (f : peer_flags) : peer_flags :=
  PeerFlags (pf_responder f) (pf_delete f) (pf_localterm f) (pf_dw_pending f) (pf_cnx_pb f) v.
Definition set_pi_endpoints (v : list endpoint) (p : fd_peer) : fd_peer :=
  Peer (pi_diamid p) v (config p) (runtime p) (p_state p) (p_exp_timer p) (p_flags p) (p_events p)
    (p_psm_timer p) (p_tosend p) (p_outthr p) (p_hbh p) (p_sr p) (p_tofailover p) (p_reqin_count p)
    (p_receiver p) (p_cer p) (p_ini_thr p) (p_cnxctx p) (p_cb2 p) (p_cb p).
Definition set_config (v : peer_config) (p : fd_peer) : fd_peer :=
  Peer (pi_diamid p) (pi_endpoints p) v (runtime p) (p_state p) (p_exp_timer p) (p_flags p) (p_events p)
    (p_psm_timer p) (p_tosend p) (p_outthr p) (p_hbh p) (p_sr p) (p_tofailover p) (p_reqin_count p)
    (p_receiver p) (p_cer p) (p_ini_thr p) (p_cnxctx p) (p_cb2 p) (p_cb p).
Definition set_runtime (v : peer_runtime) (p : fd_peer) : fd_peer :=
  Peer (pi_diamid p) (pi_endpoints p) (config p) v (p_state p) (p_exp_timer p) (p_flags p) (p_events p)
    (p_psm_timer p) (p_tosend p) (p_outthr p) (p_hbh p) (p_sr p) (p_tofailover p) (p_reqin_count p)
    (p_receiver p) (p_cer p) (p_ini_thr p) (p_cnxctx p) (p_cb2 p) (p_cb p).
Definition set_p_state (v : peer_state) (p : fd_peer) : fd_peer :=
  Peer (pi_diamid p) (pi_endpoints p) (config p) (runtime p) v (p_exp_timer p) (p_flags p) (p_events p)
    (p_psm_timer p) (p_tosend p) (p_outthr p) (p_hbh p) (p_sr p) (p_tofailover p) (p_reqin_count p)
    (p_receiver p) (p_cer p) (p_ini_thr p) (p_cnxctx p) (p_cb2 p) (p_cb p).
Definition set_p_exp_timer (v : timespec) (p : fd_peer) : fd_peer :=
  Peer (pi_diamid p) (pi_endpoints p) (config p) (runtime p) (p_state p) v (p_flags p) (p_events p)
    (p_psm_timer p) (p_tosend p) (p_outthr p) (p_hbh p) (p_sr p) (p_tofailover p) (p_reqin_count p)
    (p_receiver p) (p_cer p) (p_ini_thr p) (p_cnxctx p) (p_cb2 p) (p_cb p).
Definition set_p_flags (v : peer_flags) (p : fd_peer) : fd_peer :=
  Peer (pi_diamid p) (pi_endpoints p) (config p) (runtime p) (p_state p) (p_exp_timer p) v (p_events p)
    (p_psm_timer p) (p_tosend p) (p_outthr p) (p_hbh p) (p_sr p) (p_tofailover p) (p_reqin_count p)
    (p_receiver p) (p_cer p) (p_ini_thr p) (p_cnxctx p) (p_cb2 p) (p_cb p).
Definition set_p_events (v : option (list fd_event)) (p : fd_peer) : fd_peer :=
  Peer (pi_diamid p) (pi_endpoints p) (config p) (runtime p) (p_state p) (p_exp_timer p) (p_flags p) v
    (p_psm_timer p) (p_tosend p) (p_outthr p) (p_hbh p) (p_sr p) (p_tofailover p) (p_reqin_count p)
    (p_receiver p) (p_cer p) (p_ini_thr p) (p_cnxctx p) (p_cb2 p) (p_cb p).
Definition set_p_psm_timer (v : timespec) (p : fd_peer) : fd_peer :=
  Peer (pi_diamid p) (pi_endpoints p) (config p) (runtime p) (p_state p) (p_exp_timer p) (p_flags p)
    (p_events p) v (p_tosend p) (p_outthr p) (p_hbh p) (p_sr p) (p_tofailover p) (p_reqin_count p)
    (p_receiver p) (p_cer p) (p_ini_thr p) (p_cnxctx p) (p_cb2 p) (p_cb p).
Definition set_p_tosend (v : list msg) (p : fd_peer) : fd_peer :=
  Peer (pi_diamid p) (pi_endpoints p) (config p) (runtime p) (p_state p) (p_exp_timer p) (p_flags p)
    (p_events p) (p_psm_timer p) v (p_outthr p) (p_hbh p) (p_sr p) (p_tofailover p) (p_reqin_count p)
    (p_receiver p) (p_cer p) (p_ini_thr p) (p_cnxctx p) (p_cb2 p) (p_cb p).
Definition set_p_outthr (v : out_thread) (p : fd_peer) : fd_peer :=
  Peer (pi_diamid p) (pi_endpoints p) (config p) (runtime p) (p_state p) (p_exp_timer p) (p_flags p)
    (p_events p) (p_psm_timer p) (p_tosend p) v (p_hbh p) (p_sr p) (p_tofailover p) (p_reqin_count p)
    (p_receiver p) (p_cer p) (p_ini_thr p) (p_cnxctx p) (p_cb2 p) (p_cb p).
Definition set_p_hbh (v : Z) (p : fd_peer) : fd_peer :=
  Peer (pi_diamid p) (pi_endpoints p) (config p) (runtime p) (p_state p) (p_exp_timer p) (p_flags p)
    (p_events p) (p_psm_timer p) (p_tosend p) (p_outthr p) v (p_sr p) (p_tofailover p) (p_reqin_count p)
    (p_receiver p) (p_cer p) (p_ini_thr p) (p_cnxctx p) (p_cb2 p) (p_cb p).
Definition set_p_sr (v : sr_list) (p : fd_peer) : fd_peer :=
  Peer (pi_diamid p) (pi_endpoints p) (config p) (runtime p) (p_state p) (p_exp_timer p) (p_flags p)
    (p_events p) (p_psm_timer p) (p_tosend p) (p_outthr p) (p_hbh p) v (p_tofailover p) (p_reqin_count p)
    (p_receiver p) (p_cer p) (p_ini_thr p) (p_cnxctx p) (p_cb2 p) (p_cb p).
Definition set_p_tofailover (v : list msg) (p : fd_peer) : fd_peer :=
  Peer (pi_diamid p) (pi_endpoints p) (config p) (runtime p) (p_state p) (p_exp_timer p) (p_flags p)
    (p_events p) (p_psm_timer p) (p_tosend p) (p_outthr p) (p_hbh p) (p_sr p) v (p_reqin_count p)
    (p_receiver p) (p_cer p) (p_ini_thr p) (p_cnxctx p) (p_cb2 p) (p_cb p).
Definition set_p_reqin_count (v : Z) (p : fd_peer) : fd_peer :=
  Peer (pi_diamid p) (pi_endpoints p) (config p) (runtime p) (p_state p) (p_exp_timer p) (p_flags p)
    (p_events p) (p_psm_timer p) (p_tosend p) (p_outthr p) (p_hbh p) (p_sr p) (p_tofailover p) v
    (p_receiver p) (p_cer p) (p_ini_thr p) (p_cnxctx p) (p_cb2 p) (p_cb p).
Definition set_p_receiver (v : option nat) (p : fd_peer) : fd_peer :=
  Peer (pi_diamid p) (pi_endpoints p) (config p) (runtime p) (p_state p) (p_exp_timer p) (p_flags p)
    (p_events p) (p_psm_timer p) (p_tosend p) (p_outthr p) (p_hbh p) (p_sr p) (p_tofailover p)
    (p_reqin_count p) v (p_cer p) (p_ini_thr p) (p_cnxctx p) (p_cb2 p) (p_cb p).
Definition set_p_cer (v : option msg) (p : fd_peer) : fd_peer :=
  Peer (pi_diamid p) (pi_endpoints p) (config p) (runtime p) (p_state p) (p_exp_timer p) (p_flags p)
    (p_events p) (p_psm_timer p) (p_tosend p) (p_outthr p) (p_hbh p) (p_sr p) (p_tofailover p)
    (p_reqin_count p) (p_receiver p) v (p_ini_thr p) (p_cnxctx p) (p_cb2 p) (p_cb p).
Definition set_p_ini_thr (v : bool) (p : fd_peer) : fd_peer :=
  Peer (pi_diamid p) (pi_endpoints p) (config p) (runtime p) (p_state p) (p_exp_timer p) (p_flags p)
    (p_events p) (p_psm_timer p) (p_tosend p) (p_outthr p) (p_hbh p) (p_sr p) (p_tofailover p)
    (p_reqin_count p) (p_receiver p) (p_cer p) v (p_cnxctx p) (p_cb2 p) (p_cb p).
Definition set_p_cnxctx (v : option nat) (p : fd_peer) : fd_peer :=
  Peer (pi_diamid p) (pi_endpoints p) (config p) (runtime p) (p_state p) (p_exp_timer p) (p_flags p)
    (p_events p) (p_psm_timer p) (p_tosend p) (p_outthr p) (p_hbh p) (p_sr p) (p_tofailover p)
    (p_reqin_count p) (p_receiver p) (p_cer p) (p_ini_thr p) v (p_cb2 p) (p_cb p).
Definition set_p_cb2 (v : bool) (p : fd_peer) : fd_peer :=
  Peer (pi_diamid p) (pi_endpoints p) (config p) (runtime p) (p_state p) (p_exp_timer p) (p_flags p)
    (p_events p) (p_psm_timer p) (p_tosend p) (p_outthr p) (p_hbh p) (p_sr p) (p_tofailover p)
    (p_reqin_count p) (p_receiver p) (p_cer p) (p_ini_thr p) (p_cnxctx p) v (p_cb p).
Definition set_p_cb (v : bool) (p : fd_peer) : fd_peer :=
  Peer (pi_diamid p) (pi_endpoints p) (config p) (runtime p) (p_state p) (p_exp_timer p) (p_flags p)
    (p_events p) (p_psm_timer p) (p_tosend p) (p_outthr p) (p_hbh p) (p_sr p) (p_tofailover p)
    (p_reqin_count p) (p_receiver p) (p_cer p) (p_ini_thr p) (p_cnxctx p) (p_cb2 p) v.

(** [fd_g_config], beyond the identity of the host. *)
Record fd_config := FdConfig {
  cnf_id : identity; cnf_timer_tc : Z; cnf_timer_tw : Z; cnf_endpoints : list endpoint; cnf_apps : list fd_app;
  cnf_no_fwd : bool; cnf_tls_disabled : bool; cnf_rr_in_answers : bool; cnf_processing_peers_minimum : Z;
  project_name : bytes; firmware_revision : Z }.

(** What one operation works on: the peer, the active peers and the expiring
    ones (by identity), the live connections, the global queues (an answer
    comes with its request), the sessions, the end-to-end counter, and what was
    sent on the connections. *)
Record world {S : Type} := World {
  w_peer : fd_peer; w_active : list bytes; w_expiring : list (timespec * bytes); w_live : gset nat;
  w_outgoing : fifo msg; w_incoming : list (msg * option msg); w_sess : S; w_eteid : Z; w_sent : list (nat * bytes) }.
Arguments world : clear implicits.
Arguments World {S}.

(** One validation callback: its result, [auth], whether it sets [cb2], and what
    it changes in the configuration of the peer. *)
Record validator := Validator { v_ret : option errno; v_auth : Z; v_cb2 : bool; v_config : peer_config → peer_config }.

(** What the rest of the system does while an event is handled: the clock, two
    random numbers, the functions on connections ([fd_cnx_*]), the validation
    callbacks, the second one, and the match of an identity with the pattern of
    the processing peers. *)
Record env := Env {
  e_now : timespec; e_random : Z * Z;
  e_getTLS : nat → bool; e_unordered_supported : nat → bool; e_start_clear : nat → option errno;
  e_handshake : nat → option errno; e_getcred : nat → option errno; e_setaltfifo : nat → option errno;
  e_remoteeps : nat → errno + list (sockaddr * Z); e_proto : nat → Z; e_send : nat → bytes → option errno;
  e_validators : list validator; e_cb2 : option errno; e_regexec : bytes → bool }.
