(* ===== verification/Peer.v ===== *)
(** * Peers: sending, expiry, change of state
    ([libfdcore/p_out.c], [p_expiry.c], [p_psm.c], [peers.c])

    The operations that the state machine is made of, as calls on the [world].
    Threads are created and cancelled without failure; the log, the hooks and
    the freeing of messages are left out. *)

From Stdlib Require Import ZArith Lia String.
From stdpp Require Import base sorting sets list gmap.
From S2P Require Import Prelude Time Ostr DictTypes Msg MsgBuf MsgDict MsgTree Fifo SentReq Apps DictFct Endpoints CoreMsg Effect PeerTypes.

Section peer.
Context {D S : Type} `{!MsgDictionary D} (d : D) (cfg : fd_config) (env : env).
Abbreviation M := (M (world S)).

(** ** The world *)

Definition set_peer (p : fd_peer) (w : world S) : world S :=
  World p (w_active w) (w_expiring w) (w_live w) (w_outgoing w) (w_incoming w) (w_sess w) (w_eteid w) (w_sent w).
Definition set_active (l : list bytes) (w : world S) : world S :=
  World (w_peer w) l (w_expiring w) (w_live w) (w_outgoing w) (w_incoming w) (w_sess w) (w_eteid w) (w_sent w).
Definition set_expiring (l : list (timespec * bytes)) (w : world S) : world S :=
  World (w_peer w) (w_active w) l (w_live w) (w_outgoing w) (w_incoming w) (w_sess w) (w_eteid w) (w_sent w).
Definition set_live (l : gset nat) (w : world S) : world S :=
  World (w_peer w) (w_active w) (w_expiring w) l (w_outgoing w) (w_incoming w) (w_sess w) (w_eteid w) (w_sent w).
Definition set_outgoing (q : fifo msg) (w : world S) : world S :=
  World (w_peer w) (w_active w) (w_expiring w) (w_live w) q (w_incoming w) (w_sess w) (w_eteid w) (w_sent w).
Definition set_incoming (l : list (msg * option msg)) (w : world S) : world S :=
  World (w_peer w) (w_active w) (w_expiring w) (w_live w) (w_outgoing w) l (w_sess w) (w_eteid w) (w_sent w).
Definition set_msgs (st : S) (eteid : Z) (w : world S) : world S :=
  World (w_peer w) (w_active w) (w_expiring w) (w_live w) (w_outgoing w) (w_incoming w) st eteid (w_sent w).
Definition set_sent (l : list (nat * bytes)) (w : world S) : world S :=
  World (w_peer w) (w_active w) (w_expiring w) (w_live w) (w_outgoing w) (w_incoming w) (w_sess w) (w_eteid w) l.

Definition get {A} (f : fd_peer → A) : M A := gets (λ w, f (w_peer w)).
Definition upd (f : fd_peer → fd_peer) : M unit := modify (λ w, set_peer (f (w_peer w)) w).
Definition upd_flags (f : peer_flags → peer_flags) : M unit := upd (λ p, set_p_flags (f (p_flags p)) p).
Definition upd_runtime (f : peer_runtime → peer_runtime) : M unit := upd (λ p, set_runtime (f (runtime p)) p).

(** ** Connections

    A call on a connection that was destroyed is an access to freed memory, for
    which the modelled code is to blame; a call on NULL returns [EINVAL]. *)

Definition alive (c : nat) : M unit := let! l := gets w_live in assertM (bool_decide (c ∈ l)).

Definition cnx_call {A} (c : option nat) (f : nat → M A) : M A :=
  match c with None => fail EINVAL | Some c => alive c ;! f c end.

(** A function of the connection that returns 0 or an error. *)
Definition cnx_result (c : option nat) (f : nat → option errno) : M unit :=
  cnx_call c (λ c, match f c with None => ret tt | Some e => fail e end).

(** [fd_cnx_getTLS] and [fd_cnx_is_unordered_delivery_supported] return 0 on NULL. *)
Definition cnx_test (c : option nat) (f : nat → bool) : M bool :=
  match c with None => ret false | Some c => alive c ;! ret (f c) end.

Definition fd_cnx_destroy (c : option nat) : M unit :=
  match c with
  | None => ret tt
  | Some c => alive c ;! modify (λ w, set_live (w_live w ∖ {[c]}) w)
  end.

(** [fd_cnx_send] *)
Definition fd_cnx_send (c : option nat) (buf : bytes) : M unit :=
  cnx_call c (λ c, match e_send env c buf with
                   | None => modify (λ w, set_sent (w_sent w ++ [(c, buf)]) w)
                   | Some e => fail e end).

(** ** Events *)

Definition fd_event_send (ev : fd_event) : M unit :=
  let! q := get p_events in
  match q with None => fail EINVAL | Some l => upd (set_p_events (Some (l ++ [ev]))) end.

(** [fd_psm_terminate] *)
Definition fd_psm_terminate (reason : option bytes) : M unit :=
  let! st := get p_state in
  when (bool_decide (st ≠ STATE_ZOMBIE)) (fd_event_send (FDEVP_TERMINATE reason)).

(** The data of an event that is purged. *)
Definition free_event (ev : fd_event) : M unit :=
  match ev with
  | FDEVP_CNX_ESTABLISHED c => fd_cnx_destroy (Some c)
  | FDEVP_CNX_INCOMING _ c _ => fd_cnx_destroy (Some c)
  | _ => ret tt
  end.

Fixpoint free_events (l : list fd_event) : M unit :=
  match l with
  | [] => ret tt
  | ev :: l => upd (set_p_events (Some l)) ;! free_event ev ;! free_events l
  end.

Definition fd_psm_events_free : M unit :=
  let! q := get p_events in match q with None => ret tt | Some l => free_events l end.

(** ** The timer of the state *)

Definition next_timer (now : timespec) (r : Z * Z) (add_random : bool) (delay : Z) : timespec :=
  let '(r1, r2) := r in
  if add_random then
    let delay := if decide (delay > 2) then delay - 2 else 0 in
    let sec := tv_sec now + r1 mod 4 in
    let nsec := tv_nsec now + r2 mod 1000000000 in
    if decide (1000000000 ≤ nsec) then TS (sec + 1 + delay) (nsec - 1000000000) else TS (sec + delay) nsec
  else TS (tv_sec now + delay) (tv_nsec now).

Definition fd_psm_next_timeout (add_random : bool) (delay : Z) : M unit :=
  upd (set_p_psm_timer (next_timer (e_now env) (e_random env) add_random delay)).

(** [config.pic_tctimer ?: fd_g_config->cnf_timer_tc], and the other timer. *)
Definition tc_timer (p : fd_peer) : Z := if decide (pic_tctimer (config p) = 0) then cnf_timer_tc cfg else pic_tctimer (config p).
Definition tw_timer (p : fd_peer) : Z := if decide (pic_twtimer (config p) = 0) then cnf_timer_tw cfg else pic_twtimer (config p).

(** ** Expiry ([p_expiry.c]) *)

(** From the end of the list to the first that is due before. *)
Fixpoint expi_place (t : timespec) (rl : list (timespec * bytes)) : list (timespec * bytes) * list (timespec * bytes) :=
  match rl with
  | [] => ([], [])
  | x :: rl' =>
      if TS_IS_INFERIOR (fst x) t then (rl, [])
      else let '(before, behind) := expi_place t rl' in (before, behind ++ [x])
  end.

Definition expi_insert (t : timespec) (id : bytes) (l : list (timespec * bytes)) : list (timespec * bytes) :=
  let '(before, behind) := expi_place t (reverse l) in reverse before ++ (t, id) :: behind.

Definition expi_unlink (id : bytes) (l : list (timespec * bytes)) : list (timespec * bytes) := filter (λ x, snd x ≠ id) l.

Definition fd_p_expi_update : M unit :=
  let! p := get id in
  modify (λ w, set_expiring (expi_unlink (pi_diamid p) (w_expiring w)) w) ;!
  when (pic_exp (config p))
    (let t := TS (tv_sec (e_now env) + pic_lft (config p)) (tv_nsec (e_now env)) in
     upd (set_p_exp_timer t) ;!
     modify (λ w, set_expiring (expi_insert t (pi_diamid p) (w_expiring w)) w)).

(** A turn of the expiry thread: it waits, or takes the first peer, to which it
    sends [FDEVP_TERMINATE]. *)
Definition exp_th_turn (now : timespec) (l : list (timespec * bytes)) : list (timespec * bytes) * option bytes :=
  match l with
  | [] => ([], None)
  | (t, id) :: l' => if TS_IS_INFERIOR now t then (l, None) else (l', Some id)
  end.

(** ** Sending ([p_out.c]) *)

Definition lift_sr (f : sr_list → res sr_list) : M unit :=
  let! σ := get p_sr in let! σ := lift_at Requests (f σ) in upd (set_p_sr σ).

(** [peer] tells whether a peer (and then its [hbh]) is given. *)
Definition do_send (m : msg) (cnx : option nat) (peer : bool) : M unit :=
  let req := has (msg_flags (msg_public m)) CMD_FLAG_REQUEST in
  let! (m, bkp_hbh) :=
    if req then
      require peer ;!
      let! hbh := get p_hbh in
      upd (set_p_hbh (w32 (hbh + 1))) ;!
      ret (set_hbhid hbh m, hbhid m)
    else ret (m, 0) in
  let! (buf, m) := lift (fd_msg_bufferize d m) in
  when req (lift_sr (λ σ, let* (σ, _) := fd_p_sr_store σ m bkp_hbh in Ok σ)) ;!
  fd_cnx_send cnx buf.

(** The result is that of the checks: an error of [do_send] is only logged. *)
Definition fd_out_send (m : msg) (cnx : option nat) (peer update_reqin_cnt : bool) : M unit :=
  let! p := get id in
  require (bool_decide (is_Some cnx) || (peer && bool_decide (is_Some (p_cnxctx p)))) ;!
  when (update_reqin_cnt && peer && negb (has (msg_flags (msg_public m)) CMD_FLAG_REQUEST))
    (upd (λ p, set_p_reqin_count (p_reqin_count p - 1) p)) ;!
  if peer && bool_decide (p_state p = STATE_OPEN) then upd (λ p, set_p_tosend (p_tosend p ++ [m]) p)
  else ignore (do_send m (match cnx with Some c => Some c | None => p_cnxctx p end) peer).

(** One round of the thread: a message is sent; after an error the messages that
    are left are kept for the failover. *)
Definition out_thr : M unit :=
  let! p := get id in
  match p_outthr p, p_tosend p with
  | OutSending, m :: l =>
      upd (set_p_tosend l) ;!
      catch (do_send m (p_cnxctx p) true)
        (λ _, upd (set_p_outthr OutPurging) ;! ignore (fd_event_send FDEVP_CNX_ERROR))
  | OutPurging, m :: l =>
      upd (set_p_tosend l) ;!
      let '(routable, m) := fd_msg_is_routable m in
      when routable (upd (λ p, set_p_tofailover (p_tofailover p ++ [m]) p))
  | _, _ => ret tt
  end.

(** [fd_cnx_unordered_delivery] only checks its argument. *)
Definition fd_cnx_unordered_delivery (c : option nat) : M unit := cnx_call c (λ _, ret tt).

Definition fd_out_start : M unit :=
  let! p := get id in
  require (match p_outthr p with OutNone => true | _ => false end) ;!
  upd (set_p_outthr OutSending) ;!
  fd_cnx_unordered_delivery (p_cnxctx p).

Definition fd_out_stop : M unit :=
  let! c := get p_cnxctx in
  fd_cnx_unordered_delivery c ;!
  upd (set_p_outthr OutNone).

(** ** Failover ([peers.c]) *)

(** "Requeue all messages in the out queue, but only if they are routable". *)
Fixpoint failover_tosend (l : list msg) (q : fifo msg) : fifo msg :=
  match l with
  | [] => q
  | m :: l =>
      let '(routable, m) := fd_msg_is_routable m in
      failover_tosend l (if routable : bool then requeue q m (e_now env) else q)
  end.

Definition fd_peer_failover_msg : M unit :=
  let! p := get id in
  let! q := gets w_outgoing in
  let q := failover_tosend (p_tosend p) q in
  let q := foldl (λ q m, requeue q m (e_now env)) q (p_tofailover p) in
  upd (λ p, set_p_tofailover [] (set_p_tosend [] p)) ;!
  modify (set_outgoing q) ;!
  let! (σ, q) := lift_at Requests (fd_p_sr_failover (p_sr p) q (e_now env)) in
  upd (set_p_sr σ) ;! modify (set_outgoing q).

(** The result: [*to_receive] and [*to_send]. *)
Definition fd_peer_get_load_pending (p : fd_peer) : Z * Z := (cnt (p_sr p), p_reqin_count p).

(** ** Change of state ([p_psm.c]) *)

(** The place before the first greater identity. *)
Fixpoint active_insert (id : bytes) (l : list bytes) : list bytes :=
  match l with
  | [] => [id]
  | x :: l' => if decide (fd_os_cmp_int id x < 0) then id :: l else x :: active_insert id l'
  end.

Definition str_do_not_want : bytes := str "DO_NOT_WANT_TO_TALK_TO_YOU".

Definition enter_open_state : M unit :=
  let! p := get id in
  let! l := gets w_active in
  require (bool_decide (pi_diamid p ∉ l)) ;!
  if p_cb2 p then
    match e_cb2 env with Some _ => ignore (fd_psm_terminate (Some str_do_not_want)) | None => ret tt end ;!
    upd (set_p_cb2 false)
  else
    modify (set_active (active_insert (pi_diamid p) l)) ;!
    upd (set_p_cb false) ;!
    fd_out_start ;!
    fd_p_expi_update.

Definition leave_open_state (skip_failover : bool) : M unit :=
  let! p := get id in
  modify (λ w, set_active (filter (λ x, x ≠ pi_diamid p) (w_active w)) w) ;!
  fd_out_stop ;!
  when (negb skip_failover) fd_peer_failover_msg.

Definition fd_psm_change_state (new_state : peer_state) : M unit :=
  let! old := get p_state in
  if decide (old = new_state) then ret tt else
  upd (set_p_state new_state) ;!
  when (bool_decide (old = STATE_OPEN)) (leave_open_state (bool_decide (new_state = STATE_CLOSING_GRACE))) ;!
  when (bool_decide (old = STATE_CLOSING_GRACE)) fd_peer_failover_msg ;!
  when (bool_decide (new_state = STATE_OPEN)) enter_open_state ;!
  when (bool_decide (new_state = STATE_CLOSED))
    (fd_psm_events_free ;!
     upd (set_p_reqin_count 0) ;!
     let! c := get config in
     when (negb (pic_persist c)) (fd_event_send (FDEVP_TERMINATE None))).

(** ** Cleanup *)

(** [fd_p_cnx_abort]: the thread that connects is cancelled. *)
Definition fd_p_cnx_abort : M unit := upd (set_p_ini_thr false).

(** [fd_p_ce_clear_cnx(peer, NULL)] *)
Definition fd_p_ce_clear_cnx : M unit :=
  upd_runtime (λ r, set_pir_proto 0 (set_pir_cert false r)) ;!
  let! c := get p_cnxctx in
  fd_cnx_destroy c ;! upd (set_p_cnxctx None).

Definition fd_psm_cleanup (terminate : bool) : M unit :=
  let! st := get p_state in
  when (bool_decide (st ≠ STATE_ZOMBIE)) (ignore (fd_psm_change_state STATE_CLOSED)) ;!
  lift_sr fd_p_sr_on_disconnect ;!
  fd_p_cnx_abort ;!
  fd_p_ce_clear_cnx ;!
  let! c := get p_receiver in
  fd_cnx_destroy c ;! upd (set_p_receiver None) ;!
  when terminate (fd_psm_events_free ;! upd (set_p_events None)).
End peer.

Lemma alive_run {S} c (w : world S) : c ∈ w_live w → alive c w = Ret w tt.
Proof. intros Hc. unfold alive, bind, gets, assertM. by rewrite bool_decide_true. Qed.
