(* ===== verification/LinkLocal.v ===== *)
(** * Watchdogs and disconnections ([libfdcore/p_dw.c], [p_dp.c])

    The messages are local to the link with the peer.  The traces of the
    Disconnect-Cause are left out. *)

From Stdlib Require Import ZArith Lia String.
From stdpp Require Import base sets list gmap.
From S2P Require Import Prelude Time DictTypes Msg MsgDict MsgTree MsgRules SentReq CoreMsg Effect PeerTypes Peer.

Definition DPR_TIMEOUT := 15.
Definition GRACE_TIMEOUT := 1.
Definition ACV_DC_REBOOTING := 0.
Definition ACV_DC_BUSY := 1.
Definition ACV_DC_NOT_FRIEND := 2.

Section linklocal.
Context {D S : Type} `{!MsgDictionary D} `{!DispDictionary D} `{!CoreDictionary D} `{!MsgSessions S}.
Context (d : D) (cfg : fd_config) (bo : base_objs) (fuel : nat) (env : env).
Abbreviation M := (M (world S)).

(** ** Messages, with the counters and the sessions of the world *)

Definition new_request (o : obj) : M msg :=
  let! w := gets id in
  let! (m, eteid) := lift (fd_msg_new d (Some o) MSGFL_ALLOC_ETEID (w_eteid w)) in
  modify (set_msgs (w_sess w) eteid) ;! ret m.

(** The request is kept by the answer that is made: its address is 0. *)
Definition answer_from_req (m : msg) (flags : Z) : M msg :=
  let! w := gets id in
  let! (ans, _, st, eteid) := lift (fd_msg_new_answer_from_req d fuel flags 0 m (w_sess w) (w_eteid w)) in
  modify (set_msgs st eteid) ;! ret ans.

Definition rescode_set (m : msg) (rescode : bytes) (errormsg : option bytes) (optavp : option avp) (type_id : Z) : M msg :=
  lift (fd_msg_rescode_set d (cnf_id cfg) bo m rescode errormsg optavp type_id).

Definition add_origin (m : msg) (osi : bool) : M msg := lift (fd_msg_add_origin d (cnf_id cfg) bo m osi).

(** The first AVP of the object, and the message in which it was parsed. *)
Definition search_avp (m : msg) (o : obj) : res (option avp * msg) :=
  let* (i, l) := fd_msg_search_avp d fuel (msg_children m) o true in
  Ok (i ≫= (l !!.), set_children l m).

(** [avp_value->u32], after the check that the value is set. *)
Definition value_u32 (a : avp) : res Z :=
  match avp_val a with Some (NUM n) => Ok (w32 n) | _ => Crash end.

(** ** Watchdogs *)

Definition check_state_id (m : msg) : M msg :=
  let! (osi, m) := lift (search_avp m (fd_dict_avp_OSI bo)) in
  match osi with
  | None => ret m
  | Some a =>
      let! v := lift_at Values (value_u32 a) in
      let! r := get runtime in
      when (bool_decide (pir_orstate r = 0)) (upd_runtime (set_pir_orstate v)) ;!
      let! r := get runtime in
      require (bool_decide (pir_orstate r = v)) ;! ret m
  end.

Definition send_DWR : M unit :=
  let! m := new_request (fd_dict_cmd_DWR bo) in
  let! m := add_origin m true in
  upd_flags (set_pf_dw_pending true) ;!
  fd_out_send d env m None true false.

Definition fd_p_dw_handle (m : msg) (req : bool) : M unit :=
  let! m := check_state_id m in
  (if req then
     let! m := answer_from_req m 0 in
     let! m := rescode_set m (str "DIAMETER_SUCCESS") None None 0 in
     let! m := add_origin m true in
     let! c := get p_cnxctx in
     fd_out_send d env m c true false
   else upd_flags (set_pf_dw_pending false)) ;!
  let! p := get id in
  let reset_tmr := if req then negb (pf_dw_pending (p_flags p)) else true in
  when reset_tmr (fd_psm_next_timeout env true (tw_timer cfg p)) ;!
  let! p := get id in
  if decide (p_state p = STATE_REOPEN) then
    let cnt := (pf_reopen_cnt (p_flags p) + 1) mod 4 in
    upd_flags (set_pf_reopen_cnt cnt) ;!
    if decide (cnt ≠ 0) then send_DWR else fd_psm_change_state env STATE_OPEN
  else ret tt.

Definition fd_p_dw_timeout : M unit :=
  let! p := get id in
  if pf_dw_pending (p_flags p) then
    fd_psm_change_state env STATE_SUSPECT ;!
    fd_psm_next_timeout env false (2 * tw_timer cfg p)
  else
    send_DWR ;!
    fd_psm_next_timeout env false (tw_timer cfg p).

Definition fd_p_dw_reopen : M unit :=
  upd_flags (λ f, set_pf_cnx_pb false (set_pf_reopen_cnt 1 f)) ;! send_DWR.

(** ** Disconnections *)

Definition fd_p_dp_newdelay (p : fd_peer) : Z :=
  let delay := tc_timer cfg p in
  if decide (pir_lastDC (runtime p) = ACV_DC_BUSY) then delay * 10
  else if decide (pir_lastDC (runtime p) = ACV_DC_NOT_FRIEND) then delay * 200
  else delay.

Definition fd_p_dp_handle (m : msg) (req : bool) : M unit :=
  if req then
    let! (dc, m) := lift (search_avp m (fd_dict_avp_DC bo)) in
    match dc with
    | None => ret tt
    | Some a => let! v := lift_at Values (value_u32 a) in upd_runtime (set_pir_lastDC v)
    end ;!
    let! m := answer_from_req m 0 in
    let! m := rescode_set m (str "DIAMETER_SUCCESS") None None 1 in
    let! (to_receive, to_send) := get fd_peer_get_load_pending in
    if decide (to_receive = 0 ∧ to_send = 0) then
      fd_psm_change_state env STATE_CLOSING ;!
      fd_out_send d env m None true false ;!
      fd_psm_cleanup env false ;!
      let! p := get id in fd_psm_next_timeout env true (fd_p_dp_newdelay p)
    else
      fd_psm_change_state env STATE_CLOSING_GRACE ;!
      fd_psm_next_timeout env false GRACE_TIMEOUT ;!
      fd_out_send d env m None true false
  else
    let! (to_receive, to_send) := get fd_peer_get_load_pending in
    if decide (to_receive ≠ 0 ∨ to_send ≠ 0) then
      fd_psm_next_timeout env false GRACE_TIMEOUT ;!
      upd_flags (set_pf_localterm true)
    else fd_psm_change_state env STATE_CLOSING.

(** The value of a Disconnect-Cause: the assertion is on the dictionary, which
    knows the reasons that are given. *)
Definition cause_value (reason : bytes) : res Z :=
  match type_of_avp d (fd_dict_avp_DC bo) with
  | None => Err ENOENT
  | Some ty =>
      match enumval_by_name d ty reason with
      | Ok (Some o) => enum_u32 d o
      | _ => Crash
      end
  end.

Definition fd_p_dp_initiate (reason : option bytes) : M unit :=
  let! m := new_request (fd_dict_cmd_DPR bo) in
  let! m := add_origin m false in
  let! v := lift_at Values (cause_value (default (str "REBOOTING") reason)) in
  let! m := lift (add_value d (fd_dict_avp_DC bo) (NUM v) m) in
  upd_runtime (set_pir_lastDC v) ;!
  fd_psm_change_state env STATE_CLOSING_GRACE ;!
  fd_psm_next_timeout env false DPR_TIMEOUT ;!
  ignore (fd_out_send d env m None true false).
End linklocal.
