(* ===== verification/Capab.v ===== *)
(** * Capabilities exchange and elections ([libfdcore/p_ce.c])

    The CER and CEA that are sent, what is read of the ones received, the
    election, and the steps that open a connection with a peer.
    [WORKAROUND_ACCEPT_INVALID_VSAI] is off, as by default. *)

From Stdlib Require Import ZArith Lia String.
From stdpp Require Import base sorting sets list gmap.
From S2P Require Import Prelude Time Ostr DictTypes Msg MsgDict MsgTree MsgRules SentReq Apps DictFct Endpoints CoreMsg Effect PeerTypes Peer LinkLocal.

Definition MY_VENDOR_ID := 0.
Definition CEA_TIMEOUT := 10.
Definition AI_RELAY := 4294967295.
Definition ACV_ISI_NO_INBAND_SECURITY := 0.
Definition ACV_ISI_TLS := 1.
Definition ER_DIAMETER_SUCCESS := 2001.
Definition ER_DIAMETER_TOO_BUSY := 3004.
Definition ER_ELECTION_LOST := 4003.

Definition AC_HOST_IP_ADDRESS := 257.
Definition AC_AUTH_APPLICATION_ID := 258.
Definition AC_ACCT_APPLICATION_ID := 259.
Definition AC_VENDOR_SPECIFIC_APPLICATION_ID := 260.
Definition AC_ORIGIN_HOST := 264.
Definition AC_SUPPORTED_VENDOR_ID := 265.
Definition AC_VENDOR_ID := 266.
Definition AC_FIRMWARE_REVISION := 267.
Definition AC_PRODUCT_NAME := 269.
Definition AC_ORIGIN_STATE_ID := 278.
Definition AC_ORIGIN_REALM := 296.
Definition AC_INBAND_SECURITY_ID := 299.

(** The callbacks of the derived type of an AVP for socket addresses:
    [type_encode] if there is one; [type_interpret], or the error of
    [fd_msg_avp_value_interpret] without a type or a callback.  [memory_value] is
    what the bytes of the structure read as, in each type. *)
Class AddressTypes (D : Type) := {
  type_encode : D → obj → option (sockaddr → res avp_value);
  memory_value : D → dict_avp_basetype → sockaddr → avp_value;
  type_interpret : D → obj → res (avp_value → res sockaddr) }.

(** ** Elections *)

(** The comparison of two strings without NUL, that of the lower case. *)
Fixpoint strcasecmp (l k : bytes) : Z :=
  match l, k with
  | [], [] => 0
  | [], b :: _ => - asciitolower b
  | a :: _, [] => asciitolower a
  | a :: l, b :: k => if decide (asciitolower a = asciitolower b) then strcasecmp l k else asciitolower a - asciitolower b
  end.

(** Whether this host wins against the peer. *)
Definition election_result (peer_id my_id : bytes) : bool := bool_decide (strcasecmp peer_id my_id < 0).

Section capabilities.
Context {D S : Type} `{!MsgDictionary D} `{!DispDictionary D} `{!CoreDictionary D} `{!MsgSessions S} `{!AddressTypes D}.
Context (d : D) (cfg : fd_config) (bo : base_objs) (fuel : nat).

(** [fd_msg_avp_value_encode] and [fd_msg_avp_value_interpret] of an address.
    Without a callback the bytes of the structure are the value. *)
Definition fd_msg_avp_value_encode (ss : sockaddr) (a : avp) : res avp :=
  match avp_model a with
  | None => Err EINVAL
  | Some o =>
      match avp_data d o with
      | None => Err EINVAL
      | Some data =>
          check bool_decide (a_basetype data ≠ AVP_TYPE_GROUPED) in
          match type_encode d o with
          | None => fd_msg_avp_setvalue d a (Some (memory_value d (a_basetype data) ss))
          | Some f => let* v := f ss in Ok (with_value (Some v) a)
          end
      end
  end.

Definition fd_msg_avp_value_interpret (a : avp) : res sockaddr :=
  match avp_model a, avp_val a with
  | Some o, Some v => let* f := type_interpret d o in f v
  | _, _ => Err EINVAL
  end.

(** ** The content of a CER or CEA *)

Definition host_ip (o : obj) (m : msg) (ep : endpoint) : res msg :=
  let* a := fd_msg_avp_new d (Some o) 0 None in
  let* a := fd_msg_avp_value_encode (ep_ss ep) a in
  add_last a m.

(** An application of one kind: alone, or with its vendor in a group. *)
Definition app_avp (o_app o_vsai o_vid : obj) (a : fd_app) (m : msg) : res msg :=
  let* x := valued_avp d o_app (NUM (appid a)) in
  let* x := if decide (vndid a ≠ 0) then
              let* g := fd_msg_avp_new d (Some o_vsai) 0 None in
              let* g := add_inside x g in
              let* v := valued_avp d o_vid (NUM (vndid a)) in
              add_inside v g
            else Ok x in
  add_last x m.

Definition local_app (o_auth o_acct o_vsai o_vid : obj) (m : msg) (a : fd_app) : res msg :=
  let* m := if app_auth a then app_avp o_auth o_vsai o_vid a m else Ok m in
  if app_acct a then app_avp o_acct o_vsai o_vid a m else Ok m.

(** [fold f] over a list, where a call may fail. *)
Fixpoint fold_res {A B} (f : A → B → res A) (l : list B) (a : A) : res A :=
  match l with [] => Ok a | b :: l => let* a := f a b in fold_res f l a end.

(** The array up to its final 0. *)
Fixpoint until_zero (l : list Z) : list Z :=
  match l with [] => [] | x :: l => if decide (x = 0) then [] else x :: until_zero l end.

Definition add_CE_info (m : msg) (isi_tls isi_none : bool) : res msg :=
  let* m := fd_msg_add_origin d (cnf_id cfg) bo m true in
  let* o := avp_named d "Host-IP-Address" in
  let* m := fold_res (host_ip o) (cnf_endpoints cfg) m in
  let* o := avp_named d "Vendor-Id" in
  let* m := add_value d o (NUM MY_VENDOR_ID) m in
  let* o := avp_named d "Product-Name" in
  let* m := add_value d o (OS (project_name cfg)) m in
  let* o := avp_named d "Firmware-Revision" in
  let* m := add_value d o (NUM (firmware_revision cfg)) m in
  let* m := if isi_tls || isi_none then
              let* o := avp_named d "Inband-Security-Id" in
              let* m := if isi_none then add_value d o (NUM ACV_ISI_NO_INBAND_SECURITY) m else Ok m in
              if isi_tls then add_value d o (NUM ACV_ISI_TLS) m else Ok m
            else Ok m in
  let* o_vsai := avp_named d "Vendor-Specific-Application-Id" in
  let* o_vid := avp_named d "Vendor-Id" in
  let* o_auth := avp_named d "Auth-Application-Id" in
  let* o_acct := avp_named d "Acct-Application-Id" in
  let* m := fold_res (local_app o_auth o_acct o_vsai o_vid) (cnf_apps cfg) m in
  let* m := if cnf_no_fwd cfg then Ok m else add_value d o_auth (NUM AI_RELAY) m in
  let* ids := vendorid_list d in
  let* o := avp_named d "Supported-Vendor-Id" in
  fold_res (λ m id, add_value d o (NUM id) m) (until_zero ids) m.

(** ** What is saved of the remote peer *)

(** What the loop writes: the runtime data, the endpoints, [*rc]. *)
Record ce := Ce { ce_runtime : peer_runtime; ce_endpoints : list endpoint; ce_rc : Z }.

(** [error]: the code, whether there is a message for it, and the AVP. *)
Record ce_pei := CePei { cp_errcode : bytes; cp_message : option bytes; cp_avp : option avp }.

Definition with_runtime (f : peer_runtime → peer_runtime) (c : ce) : ce := Ce (f (ce_runtime c)) (ce_endpoints c) (ce_rc c).

Definition cleanup_remote_CE_info (p : fd_peer) : fd_peer :=
  set_runtime init_runtime (set_pi_endpoints (fd_ep_clearflags EP_FL_ADV (pi_endpoints p)) p).

(** The value of an AVP: a missing one fails the assertion. *)
Definition val_u32 (a : avp) : res Z := value_u32 a.
Definition val_os (a : avp) : res bytes := match avp_val a with Some (OS os) => Ok os | _ => Crash end.

Definition refused (code : bytes) (text : option string) (a : avp) : res (ce + ce_pei) :=
  Ok (inr (CePei code (str <$> text) (Some a))).
Definition TOO_MANY : bytes := str "DIAMETER_AVP_OCCURS_TOO_MANY_TIMES".
Definition INVALID_VALUE : bytes := str "DIAMETER_INVALID_AVP_VALUE".

(** The loop in Vendor-Specific-Application-Id: [vid], [auth_aid], [acct_aid];
    [None] when it is invalid. *)
Fixpoint vsai_loop (l : list avp) (vid auth acct : Z) : res (option (Z * Z * Z)) :=
  match l with
  | [] => Ok (Some (vid, auth, acct))
  | a :: l =>
      let code := avp_code (avp_public a) in
      if has (avp_flags (avp_public a)) AVP_FLAG_VENDOR then vsai_loop l vid auth acct
      else match avp_val a with
      | None => Crash
      | Some _ =>
          if decide (code = AC_VENDOR_ID) then
            let* v := val_u32 a in
            if decide (vid ≠ 0) then Ok None else vsai_loop l v auth acct
          else if decide (code = AC_AUTH_APPLICATION_ID) then
            let* v := val_u32 a in
            if decide (auth ≠ 0 ∨ acct ≠ 0) then Ok None else vsai_loop l vid v acct
          else if decide (code = AC_ACCT_APPLICATION_ID) then
            let* v := val_u32 a in
            if decide (acct ≠ 0 ∨ auth ≠ 0) then Ok None else vsai_loop l vid auth v
          else vsai_loop l vid auth acct
      end
  end.

Definition merge_app (aid vid : Z) (auth acct : bool) (c : ce) : ce :=
  with_runtime (λ r, set_pir_apps (fd_app_merge (pir_apps r) aid vid auth acct) r) c.

(** One round of the loop on an AVP that is not vendor-specific. *)
Definition ce_avp (id : bytes) (c : ce) (a : avp) : res (ce + ce_pei) :=
  let r := ce_runtime c in
  let code := avp_code (avp_public a) in
  if decide (code = AC_RESULT_CODE) then
    let* v := val_u32 a in Ok (inl (Ce r (ce_endpoints c) v))
  else if decide (code = AC_ORIGIN_HOST) then
    let* os := val_os a in
    if decide (fst (fd_os_almostcasesrch_int os id) ≠ 0) then
      refused (str "DIAMETER_AVP_NOT_ALLOWED") (Some "Your Origin-Host value does not match my configuration."%string) a
    else Ok (inl c)
  else if decide (code = AC_ORIGIN_REALM) then
    let* os := val_os a in
    if decide (is_Some (pir_realm r)) then refused TOO_MANY (Some "I found several Origin-Realm AVPs"%string) a else
    let* valid := fd_os_is_valid_DiameterIdentity os (zlen os) in
    if negb valid then refused INVALID_VALUE (Some "Your Origin-Realm contains invalid characters."%string) a
    else if decide (zlen os = 0) then refused INVALID_VALUE (Some "Your Origin-Realm is empty."%string) a
    else Ok (inl (with_runtime (set_pir_realm (Some os)) c))
  else if decide (code = AC_HOST_IP_ADDRESS) then
    match avp_val a with
    | None => Crash
    | Some _ =>
        match fd_msg_avp_value_interpret a with
        | Ok ss => Ok (inl (Ce r (fd_ep_add_merge (ce_endpoints c) ss EP_FL_ADV) (ce_rc c)))
        | Err _ => refused INVALID_VALUE None a
        | Crash => Crash
        end
    end
  else if decide (code = AC_VENDOR_ID) then
    let* v := val_u32 a in
    if decide (pir_vendorid r ≠ 0) then refused TOO_MANY (Some "I found several Vendor-Id AVPs"%string) a
    else Ok (inl (with_runtime (set_pir_vendorid v) c))
  else if decide (code = AC_PRODUCT_NAME) then
    let* os := val_os a in
    if decide (is_Some (pir_prodname r)) then refused TOO_MANY (Some "I found several Product-Name AVPs"%string) a
    else Ok (inl (with_runtime (set_pir_prodname (Some os)) c))
  else if decide (code = AC_ORIGIN_STATE_ID) then
    let* v := val_u32 a in
    if decide (pir_orstate r ≠ 0) then refused TOO_MANY (Some "I found several Origin-State-Id AVPs"%string) a
    else Ok (inl (with_runtime (set_pir_orstate v) c))
  else if decide (code = AC_SUPPORTED_VENDOR_ID) then
    let* _ := val_u32 a in Ok (inl c)
  else if decide (code = AC_VENDOR_SPECIFIC_APPLICATION_ID) then
    let* x := vsai_loop (avp_children a) 0 0 0 in
    match x with
    | None => refused INVALID_VALUE None a
    | Some (vid, auth, acct) =>
        let c := if decide (auth ≠ 0) then merge_app auth vid true false c else c in
        Ok (inl (if decide (acct ≠ 0) then merge_app acct vid false true c else c))
    end
  else if decide (code = AC_AUTH_APPLICATION_ID) then
    let* v := val_u32 a in
    Ok (inl (if decide (v = AI_RELAY) then with_runtime (set_pir_relay true) c else merge_app v 0 true false c))
  else if decide (code = AC_ACCT_APPLICATION_ID) then
    let* v := val_u32 a in
    Ok (inl (if decide (v = AI_RELAY) then with_runtime (set_pir_relay true) c else merge_app v 0 false true c))
  else if decide (code = AC_FIRMWARE_REVISION) then
    let* v := val_u32 a in Ok (inl (with_runtime (set_pir_firmrev v) c))
  else if decide (code = AC_INBAND_SECURITY_ID) then
    let* v := val_u32 a in
    if decide (32 ≤ v) then refused INVALID_VALUE (Some "I don't support this Inband-Security-Id value (yet)."%string) a
    else Ok (inl (with_runtime (λ r, set_pir_isi (Z.lor (pir_isi r) (Z.shiftl 1 v)) r) c))
  else Ok (inl c).

(** The loop: what was saved, and the error that ended it. *)
Fixpoint ce_loop (id : bytes) (l : list avp) (c : ce) : res (ce * option ce_pei) :=
  match l with
  | [] => Ok (c, None)
  | a :: l =>
      if has (avp_flags (avp_public a)) AVP_FLAG_VENDOR then ce_loop id l c
      else
        let* x := ce_avp id c a in
        match x with inl c => ce_loop id l c | inr e => Ok (c, Some e) end
  end.
End capabilities.
