(* ===== verification/Exchange.v ===== *)
(** * The exchange of capabilities ([libfdcore/p_ce.c], [fd_peer_validate])

    How a connection becomes that of the peer: the CER that is sent on a new
    connection, the CEA that is received, the CER that is received and answered
    or rejected, and the election between two connections. *)

From Stdlib Require Import ZArith Lia String.
From stdpp Require Import base sorting sets list gmap.
From S2P Require Import Prelude Time Ostr DictTypes Msg MsgDict MsgTree MsgRules SentReq Apps DictFct Endpoints CoreMsg Effect PeerTypes Peer LinkLocal Capab.

Section exchange.
Context {D S : Type} `{!MsgDictionary D} `{!DispDictionary D} `{!CoreDictionary D} `{!MsgSessions S} `{!AddressTypes D}.
Context (d : D) (cfg : fd_config) (bo : base_objs) (fuel : nat) (env : env).
Abbreviation M := (M (world S)).

(** ** The connection of the peer *)

(** A failure leaves [pir_cert_list] as it was or NULL: it was NULL. *)
Definition fd_cnx_getcred (c : option nat) : M unit :=
  cnx_result c (e_getcred env) ;! upd_runtime (set_pir_cert true).

Definition fd_cnx_getremoteeps (c : option nat) : M unit :=
  cnx_call c (λ c,
    upd (λ p, set_pi_endpoints (fd_ep_filter (Z.lor (Z.lor EP_FL_CONF EP_FL_DISC) EP_FL_ADV) (pi_endpoints p)) p) ;!
    match e_remoteeps env c with
    | inl e => fail e
    | inr l => upd (λ p, set_pi_endpoints (foldl (λ eps x, fd_ep_add_merge eps (fst x) (snd x)) (pi_endpoints p) l) p)
    end).

(** The connection comes from [cnx], which becomes NULL. *)
Definition set_peer_cnx (cnx : fd_peer → option nat) (clear : fd_peer → fd_peer) : M unit :=
  let! p := get id in
  require (bool_decide (p_cnxctx p = None)) ;!
  upd (λ p, clear (set_p_cnxctx (cnx p) p)) ;!
  let! c := get p_cnxctx in
  cnx_result c (e_setaltfifo env) ;!
  let! tls := cnx_test c (e_getTLS env) in
  when tls (fd_cnx_getcred c) ;!
  fd_cnx_getremoteeps c ;!
  upd_runtime (set_pir_proto (match c with Some c => e_proto env c | None => 0 end)).

(** The result: [*rc], or the error that is found. *)
Definition save_remote_CE_info (m : option msg) : M (Z + option ce_pei) :=
  upd cleanup_remote_CE_info ;!
  match m with
  | None => ret (inr None)
  | Some m =>
      let! p := get id in
      let! (c, e) := lift_at Values (ce_loop d (pi_diamid p) (msg_children m) (Ce (runtime p) (pi_endpoints p) 0)) in
      upd (λ p, set_runtime (ce_runtime c) (set_pi_endpoints (ce_endpoints c) p)) ;!
      ret (match e with None => inl (ce_rc c) | Some e => inr (Some e) end)
  end.

(** ** The initiator side *)

(** The Inband-Security-Id AVPs of a CER without TLS: [isi_tls], [isi_none]. *)
Definition cer_isi (sec : Z) : bool * bool := (has sec PI_SEC_TLS_OLD && negb (cnf_tls_disabled cfg), has sec PI_SEC_NONE).

Definition create_CER (c : nat) : M msg :=
  let! m := new_request d (fd_dict_cmd_CER bo) in
  let! tls := cnx_test (Some c) (e_getTLS env) in
  let! p := get config in
  let '(isi_tls, isi_none) := if tls : bool then (false, false) else cer_isi (pic_sec p) in
  lift (add_CE_info d cfg bo m isi_tls isi_none).

Definition to_waitcea (c : nat) : M unit :=
  set_peer_cnx (λ _, Some c) id ;!
  fd_psm_change_state env STATE_WAITCEA ;!
  fd_psm_next_timeout env false CEA_TIMEOUT.

Definition add_CEA_info (m : msg) (isi_tls isi_none : bool) : M msg := lift (add_CE_info d cfg bo m isi_tls isi_none).

Definition answer_cer (m : option msg) (flags : Z) : M msg :=
  match m with None => fail EINVAL | Some m => answer_from_req d fuel m flags end.

(** The connection is destroyed in any case; its variable becomes NULL. *)
Definition receiver_reject (c : option nat) (clear : fd_peer → fd_peer) (m : option msg) (pei : ce_pei) : M unit :=
  ignore
    (let! m := answer_cer m MSGFL_ANSW_ERROR in
     let! m := rescode_set d cfg bo m (cp_errcode pei) (cp_message pei) (cp_avp pei) 0 in
     let! m := if has (msg_flags (msg_public m)) CMD_FLAG_ERROR then add_origin d cfg bo m true
               else add_CEA_info m false false in
     fd_out_send d env m c false false) ;!
  fd_cnx_destroy c ;!
  upd clear.

Definition ELECTION_LOST : ce_pei :=
  CePei (str "ELECTION_LOST") (Some (str "Please answer my CER instead, you won the election.")) None.

(** ** Opening *)

(** [pic_twtimer ?: cnf_timer_tw] from now. *)
Definition next_watchdog : M unit := let! p := get id in fd_psm_next_timeout env true (tw_timer cfg p).

(** The label [cleanup]. *)
Definition ce_cleanup (fatal : bool) : M unit :=
  fd_p_ce_clear_cnx ;!
  fd_event_send (if fatal then FDEVP_TERMINATE None else FDEVP_CNX_ERROR).

(** The mechanisms that are left to the initiator, by its configuration and what
    the CEA announces: all of its own if there is no ISI AVP. *)
Definition initiator_todo (sec isi : Z) : Z := if decide (isi = 0) then sec else Z.land sec isi.

(** "Handshake if needed, start clear otherwise", by the initiator; the result is
    whether the connection can be used. *)
Definition initiator_security : M bool :=
  let! p := get id in
  let! tls := cnx_test (p_cnxctx p) (e_getTLS env) in
  if tls : bool then ret true else
  let sec := pic_sec (config p) in
  let isi := pir_isi (runtime p) in
  if decide (initiator_todo sec isi = PI_SEC_NONE) then cnx_result (p_cnxctx p) (e_start_clear env) ;! ret true
  else if cnf_tls_disabled cfg then ret false
  else
    ignore (fd_psm_change_state env STATE_OPEN_HANDSHAKE) ;!
    let! ok := succeeds (cnx_result (p_cnxctx p) (e_handshake env)) in
    if ok : bool then fd_cnx_getcred (p_cnxctx p) ;! ret true else ret false.

Definition initiator_open : M unit :=
  let! f := get p_flags in
  if pf_cnx_pb f then ignore (fd_psm_change_state env STATE_REOPEN) ;! fd_p_dw_reopen d cfg bo env
  else ignore (fd_psm_change_state env STATE_OPEN) ;! next_watchdog.

(** A CEA in the state WAITCEA. *)
Definition handle_CEA (m : msg) : M unit :=
  let! r := save_remote_CE_info (Some m) in
  match r with
  | inr _ => ce_cleanup false
  | inl rc =>
      if decide (rc = ER_DIAMETER_SUCCESS) then
        let! ok := initiator_security in
        if ok : bool then initiator_open else ce_cleanup false
      else if decide (rc = ER_DIAMETER_TOO_BUSY) then
        fd_psm_cleanup env false ;! fd_psm_next_timeout env false 300
      else if decide (rc = ER_ELECTION_LOST) then ret tt
      else fail EINVAL
  end.

Definition fd_p_ce_msgrcv (m : msg) (req : bool) : M unit :=
  if req then
    let! m := answer_from_req d fuel m MSGFL_ANSW_ERROR in
    let! m := rescode_set d cfg bo m (str "DIAMETER_UNABLE_TO_COMPLY") (Some (str "No CER allowed in current state")) None 1 in
    ignore (fd_out_send d env m None true false)
  else
    let! st := get p_state in
    when (bool_decide (st = STATE_WAITCEA)) (handle_CEA m).

(** ** The receiver side *)

(** What is decided on a CER: the connection is refused, for ever if [fatal],
    with an answer if there is a reason for it; or it is accepted, with the
    in-band security that is announced. *)
Inductive cer_outcome := Refuse (fatal : bool) (pei : option ce_pei) | Accept (isi : Z).

Definition refuse (fatal : bool) (code : string) : M cer_outcome := ret (Refuse fatal (Some (CePei (str code) None None))).

Definition realm_mismatch (p : fd_peer) : bool :=
  match pic_realm (config p) with
  | None => false
  | Some r => bool_decide (fst (fd_os_almostcasesrch_int r (default [] (pir_realm (runtime p)))) ≠ 0)
  end.

(** The callbacks in turn: accepted or rejected; by default rejected. *)
Fixpoint fd_peer_validate (l : list validator) : M bool :=
  match l with
  | [] => ret false
  | v :: l =>
      upd (λ p, set_config (v_config v (config p)) (if v_cb2 v then set_p_cb2 true p else p)) ;!
      match v_ret v with
      | Some e => fail e
      | None =>
          if decide (v_auth v ≠ 0) then ret (bool_decide (v_auth v > 0))
          else upd (set_p_cb2 false) ;! fd_peer_validate l
      end
  end.

Definition sufficient_processing_peers (active : list bytes) : bool :=
  bool_decide (cnf_processing_peers_minimum cfg ≤ zlen (filter (λ id, e_regexec env id = true) active)).

Definition enough_peers (id : bytes) (active : list bytes) : bool :=
  negb (bool_decide (cnf_processing_peers_minimum cfg > 0)) || e_regexec env id || sufficient_processing_peers active.

(** "Do we agree on ISI?", without TLS: the mechanism, 0 if there is none. *)
Definition agree_isi (sec isi : Z) : Z :=
  if negb (has sec PI_SEC_TLS_OLD) then if has sec PI_SEC_NONE then PI_SEC_NONE else 0
  else if decide (isi = 0) then if has sec PI_SEC_NONE then PI_SEC_NONE else 0
  else if has sec PI_SEC_NONE && has isi PI_SEC_NONE then PI_SEC_NONE
  else if cnf_tls_disabled cfg then 0
  else if has isi PI_SEC_TLS_OLD then PI_SEC_TLS_OLD
  else 0.

(** "Do not send the ISI IPsec if we are using the new mechanism" *)
Definition announced_isi (sec a : Z) : Z := if decide (a = PI_SEC_NONE) then if has sec PI_SEC_TLS_OLD then a else 0 else a.

Definition check_isi : M cer_outcome :=
  let! p := get id in
  let sec := pic_sec (config p) in
  let isi := pir_isi (runtime p) in
  let! tls := cnx_test (p_cnxctx p) (e_getTLS env) in
  if tls : bool then ret (Accept (if has isi PI_SEC_TLS_OLD then PI_SEC_TLS_OLD else 0))
  else
    let a := agree_isi sec isi in
    if decide (a = 0) then refuse true "DIAMETER_NO_COMMON_SECURITY"
    else ret (Accept (announced_isi sec a)).

Definition check_apps : M cer_outcome :=
  let! r := get runtime in
  if cnf_no_fwd cfg && negb (pir_relay r) && negb (fd_app_check_common (cnf_apps cfg) (pir_apps r))
  then refuse true "DIAMETER_NO_COMMON_APPLICATION"
  else check_isi.

Definition check_cer (m : option msg) : M cer_outcome :=
  let! r := save_remote_CE_info m in
  match r with
  | inr pei => ret (Refuse false pei)
  | inl _ =>
      let! p := get id in
      if realm_mismatch p then refuse false "DIAMETER_UNKNOWN_PEER" else
      let! tls := cnx_test (p_cnxctx p) (e_getTLS env) in
      when tls (fd_cnx_getcred (p_cnxctx p)) ;!
      let! valid := if pf_responder (p_flags p) then fd_peer_validate (e_validators env) else ret true in
      if negb valid then refuse false "DIAMETER_UNKNOWN_PEER" else
      let! active := gets w_active in
      if negb (enough_peers (pi_diamid p) active) then refuse false "DIAMETER_TOO_BUSY"
      else check_apps
  end.

(** What follows the CEA: the state OPEN (or another) with [tls_sync], the label
    [cleanup], or the end of the function. *)
Inductive handshake_outcome := Open (tls_sync : bool) | Cleanup | Stop.

Definition receiver_handshake (c : option nat) : M handshake_outcome :=
  ignore (fd_psm_change_state env STATE_OPEN_HANDSHAKE) ;!
  let! ok := succeeds (cnx_result c (e_handshake env) ;! fd_cnx_getcred c) in
  if negb ok then ret Cleanup else
  let! cb2 := get p_cb2 in
  match cb2, e_cb2 env with
  | true, Some _ => fd_psm_terminate (Some str_do_not_want) ;! ret Stop
  | _, _ => ret (Open true)
  end.

Definition accept_cer (m : option msg) (isi : Z) : M handshake_outcome :=
  let! m := answer_cer m 0 in
  let! m := rescode_set d cfg bo m (str "DIAMETER_SUCCESS") None None 0 in
  let! m := add_CEA_info m (has isi PI_SEC_TLS_OLD) (has isi PI_SEC_NONE) in
  let! c := get p_cnxctx in
  fd_out_send d env m c true false ;!
  if has isi PI_SEC_TLS_OLD then receiver_handshake c
  else
    let! tls := cnx_test c (e_getTLS env) in
    when (negb tls) (cnx_result c (e_start_clear env)) ;!
    ret (Open false).

Definition receiver_open (tls_sync : bool) : M unit :=
  let! p := get id in
  if pf_cnx_pb (p_flags p) then ignore (fd_psm_change_state env STATE_REOPEN) ;! fd_p_dw_reopen d cfg bo env
  else
    let! unordered := cnx_test (p_cnxctx p) (e_unordered_supported env) in
    if negb tls_sync && unordered then
      ignore (fd_psm_change_state env STATE_OPEN_NEW) ;! fd_p_dw_timeout d cfg bo env
    else ignore (fd_psm_change_state env STATE_OPEN) ;! next_watchdog.

Definition fd_p_ce_process_receiver : M unit :=
  set_peer_cnx p_receiver (set_p_receiver None) ;!
  let! m := get p_cer in
  upd (set_p_cer None) ;!
  let! r := check_cer m in
  match r with
  | Refuse fatal pei =>
      let! c := get p_cnxctx in
      match pei with Some pei => receiver_reject c (set_p_cnxctx None) m pei | None => ret tt end ;!
      ce_cleanup fatal
  | Accept isi =>
      let! o := accept_cer m isi in
      match o with Open tls_sync => receiver_open tls_sync | Cleanup => ce_cleanup false | Stop => ret tt end
  end.

(** ** Elections *)

Definition election (p : fd_peer) : bool := election_result (pi_diamid p) (cnf_diamid (cnf_id cfg)).

Definition fd_p_ce_handle_newcnx (initiator : nat) : M unit :=
  let! cer := create_CER initiator in
  fd_out_send d env cer (Some initiator) true false ;!
  let! p := get id in
  if decide (p_state p = STATE_WAITCNXACK_ELEC) then
    if election p then fd_cnx_destroy (Some initiator) ;! fd_p_ce_process_receiver
    else receiver_reject (p_receiver p) (λ p, set_p_cer None (set_p_receiver None p)) (p_cer p) ELECTION_LOST ;! to_waitcea initiator
  else to_waitcea initiator.

(** The connection and its CER become those of the receiver. *)
Definition set_receiver (cer : msg) (cnx : nat) : M unit :=
  upd (λ p, set_p_cer (Some cer) (set_p_receiver (Some cnx) p)).

Definition INVALID_STATE : ce_pei :=
  CePei (str "DIAMETER_UNABLE_TO_COMPLY") (Some (str "Invalid state to receive a new connection attempt.")) None.

Definition fd_p_ce_handle_newCER (cer : msg) (cnx : nat) : M unit :=
  let! p := get id in
  match p_state p with
  | STATE_CLOSED => set_receiver cer cnx ;! fd_p_ce_process_receiver
  | STATE_WAITCNXACK => set_receiver cer cnx ;! fd_psm_change_state env STATE_WAITCNXACK_ELEC
  | STATE_WAITCEA =>
      if election p then fd_p_ce_clear_cnx ;! set_receiver cer cnx ;! fd_p_ce_process_receiver
      else receiver_reject (Some cnx) id (Some cer) ELECTION_LOST
  | _ => receiver_reject (Some cnx) id (Some cer) INVALID_STATE
  end.
End exchange.
