(* ===== verification/Psm.v ===== *)
(** * The state machine of a peer ([libfdcore/p_psm.c])

    [p_psm_th]: the handling of each event in each state, with the labels of its
    [goto]s, and the functions that control the thread.  The pieces that the
    thread is made of are in [Peer], [LinkLocal] and [Exchange]. *)

From Stdlib Require Import ZArith Lia String.
From stdpp Require Import base sets list gmap.
From S2P Require Import Prelude Time DictTypes Msg MsgBuf MsgDict MsgTree MsgRules Fifo SentReq Endpoints CoreMsg Effect PeerTypes Peer LinkLocal Capab Exchange.

Definition CNX_TIMEOUT := 10.
Definition INCNX_TIMEOUT := 20.
Definition CC_CAPABILITIES_EXCHANGE := 257.
Definition CC_DEVICE_WATCHDOG := 280.
Definition CC_DISCONNECT_PEER := 282.

(** Where the thread goes after an event. *)
Inductive label := psm_loop | psm_reset | psm_end.

(** What a round of the thread does: it waits for an event, loops, or ends. *)
Inductive progress := Waiting | Looping | Ended.

Section psm.
Context {D S : Type} `{!MsgDictionary D} `{!DispDictionary D} `{!CoreDictionary D} `{!MsgSessions S} `{!AddressTypes D}.
Context (d : D) (cfg : fd_config) (bo : base_objs) (pei_message : perr + rules_err → option bytes) (fuel : nat) (env : env).
Abbreviation M := (M (world S)).

(** [CHECK_FCT_DO(m, goto l)] *)
Definition or_goto (m : M unit) (l : label) (k : M label) : M label :=
  let! ok := succeeds m in if ok : bool then k else ret l.

(** The result of a call, if it succeeds. *)
Definition attempt {A} (m : M A) : M (option A) := catch (let! a := m in ret (Some a)) (λ _, ret None).

Definition is_request (m : msg) : bool := has (msg_flags (msg_public m)) CMD_FLAG_REQUEST.

(** ** A message was received *)

Definition cnx_error : M label := or_goto (fd_event_send FDEVP_CNX_ERROR) psm_reset (ret psm_loop).

(** An answer is associated with its request: [None] if there is none.  The
    address of the request is 0. *)
Definition associate (m : msg) : M (option (msg * option msg)) :=
  if is_request m then ret (Some (m, None))
  else
    let! σ := get p_sr in
    let! (σ, req) := lift_at Requests (fd_p_sr_fetch σ (hbhid m)) in
    upd (set_p_sr σ) ;!
    match req with
    | None => ret None
    | Some req =>
        require (bool_decide (msg_query m = None)) ;!
        ret (Some (set_query (Some 0%nat) m, Some (set_associated true req)))
    end.

Definition accepts_routable (st : peer_state) : bool :=
  bool_decide (st ∈ [STATE_REOPEN; STATE_SUSPECT; STATE_CLOSING; STATE_CLOSING_GRACE; STATE_OPEN_NEW; STATE_OPEN]).

(** "Handle non-link-local messages"; [cur_state] is the state before. *)
Definition routable_msg (cur_state : peer_state) (m : msg) (req : option msg) : M label :=
  if accepts_routable cur_state then
    or_goto (fd_p_expi_update env) psm_end
      (let! p := get id in
       let! m := attempt (lift (if cnf_rr_in_answers cfg || is_request m then fd_msg_source_setrr d (pi_diamid p) m else Ok m)) in
       match m with
       | None => ret psm_end
       | Some m =>
           when (is_request m) (upd (λ p, set_p_reqin_count (p_reqin_count p + 1) p)) ;!
           modify (λ w, set_incoming (w_incoming w ++ [(m, req)]) w) ;!
           when (bool_decide (cur_state = STATE_OPEN) && negb (pf_dw_pending (p_flags p))) (next_watchdog cfg env) ;!
           ret psm_loop
       end)
  else ret psm_loop.

(** A valid message of the link, by its command. *)
Definition linklocal_msg (m : msg) : M label :=
  let code := msg_code (msg_public m) in
  if decide (code = CC_CAPABILITIES_EXCHANGE) then
    or_goto (fd_p_ce_msgrcv d cfg bo fuel env m (is_request m)) psm_reset (ret psm_loop)
  else if decide (code = CC_DISCONNECT_PEER) then
    or_goto (fd_p_dp_handle d cfg bo fuel env m (is_request m)) psm_reset
      (let! st := get p_state in ret (if decide (st = STATE_CLOSING) then psm_end else psm_loop))
  else if decide (code = CC_DEVICE_WATCHDOG) then
    or_goto (fd_p_dw_handle d cfg bo fuel env m (is_request m)) psm_reset (ret psm_loop)
  else
    when (is_request m)
      (ignore
         (let! m := answer_from_req d fuel m MSGFL_ANSW_ERROR in
          let! m := rescode_set d cfg bo m (str "DIAMETER_COMMAND_UNSUPPORTED")
                      (Some (str "Or maybe the P-bit or application Id are erroneous.")) None 1 in
          let! c := get p_cnxctx in
          fd_out_send d env m c true false)) ;!
    ret psm_loop.

Definition parse_or_error (m : msg) : M (errno + parse_outcome) :=
  let! w := gets id in
  catch (let! (o, st, eteid) := lift (fd_msg_parse_or_error d (cnf_id cfg) bo pei_message fuel 0 m (w_sess w) (w_eteid w)) in
         modify (set_msgs st eteid) ;! ret (inr o))
        (λ e, ret (inl e)).

(** "Link-local message: They must be understood by our dictionary" *)
Definition received_linklocal (m : msg) : M label :=
  let! r := parse_or_error m in
  match r with
  | inr (Valid m) => linklocal_msg m
  | inr (Failed _ _) => ret psm_end
  | inr (Reply ans _) => ignore (fd_out_send d env ans None true false) ;! ret psm_loop
  | inr (InvalidAnswer _ _) => cnx_error
  | inl e => if decide (e = EBADMSG) then cnx_error else ret psm_end
  end.

Definition received (m : msg) : M label :=
  let! p := get id in
  let cur_state := p_state p in
  let m := fd_msg_source_set (Some (pi_diamid p)) m in
  if decide (cur_state = STATE_CLOSED) then ret psm_loop else
  let! r := attempt (associate m) in
  match r with
  | None => ret psm_end
  | Some None => ret psm_loop
  | Some (Some (m, req)) =>
      when (bool_decide (cur_state = STATE_OPEN_NEW)) (ignore (fd_psm_change_state env STATE_OPEN)) ;!
      let '(routable, m) := fd_msg_is_routable m in
      if routable : bool then routable_msg cur_state m req else received_linklocal m
  end.

Definition on_msg_recv (buf : bytes) : M label :=
  let! m := attempt (lift (fd_msg_parse_buffer buf (zlen buf))) in
  match m with None => cnx_error | Some m => received m end.

(** ** The other events *)

(** "Destroy the connection, restart the timer to a new connection attempt" *)
Definition retry_later : M label :=
  let! p := get id in fd_psm_next_timeout env true (tc_timer cfg p) ;! ret psm_reset.

(** "Abort the initiating side", "Process the receiver side" *)
Definition receiver_side : M label :=
  fd_p_cnx_abort ;!
  or_goto (fd_p_ce_process_receiver d cfg bo fuel env) psm_end (ret psm_loop).

Definition end_of_grace : M label :=
  let! f := get p_flags in
  if pf_localterm f then ret psm_end
  else
    fd_psm_cleanup env false ;!
    let! p := get id in
    fd_psm_next_timeout env true (fd_p_dp_newdelay cfg p) ;! ret psm_loop.

Definition on_cnx_error (cur_state : peer_state) : M label :=
  match cur_state with
  | STATE_WAITCNXACK_ELEC => receiver_side
  | STATE_CLOSED => ret psm_reset
  | STATE_CLOSING => ret psm_end
  | STATE_CLOSING_GRACE => end_of_grace
  | _ => upd_flags (set_pf_cnx_pb true) ;! retry_later
  end.

Definition on_ep_change : M label :=
  upd (λ p, set_pi_endpoints (fd_ep_clearflags EP_FL_PRIMARY
              (fd_ep_filter (Z.lor (Z.lor EP_FL_CONF EP_FL_DISC) EP_FL_ADV) (pi_endpoints p))) p) ;!
  let! c := get p_cnxctx in
  ignore (fd_cnx_getremoteeps env c) ;!
  ret psm_loop.

Definition on_established (cur_state : peer_state) (cnx : nat) : M label :=
  upd (set_p_ini_thr false) ;!
  match cur_state with
  | STATE_WAITCNXACK_ELEC | STATE_WAITCNXACK => ignore (fd_p_ce_handle_newcnx d cfg bo fuel env cnx)
  | _ => fd_cnx_destroy (Some cnx)
  end ;!
  ret psm_loop.

Definition on_failed (cur_state : peer_state) : M label :=
  upd (set_p_ini_thr false) ;!
  match cur_state with
  | STATE_WAITCNXACK_ELEC => receiver_side
  | STATE_WAITCNXACK => retry_later
  | _ => ret psm_loop
  end.

(** [fd_p_cnx_init] starts the thread that connects. *)
Definition fd_p_cnx_init : M unit := upd (set_p_ini_thr true).

Definition on_timeout (cur_state : peer_state) : M label :=
  match cur_state with
  | STATE_OPEN | STATE_REOPEN | STATE_OPEN_NEW => or_goto (fd_p_dw_timeout d cfg bo env) psm_end (ret psm_loop)
  | STATE_CLOSED =>
      or_goto (fd_psm_change_state env STATE_WAITCNXACK) psm_end
        (fd_psm_next_timeout env false CNX_TIMEOUT ;! fd_p_cnx_init ;! ret psm_loop)
  | STATE_SUSPECT => upd_flags (set_pf_cnx_pb true) ;! retry_later
  | STATE_WAITCNXACK | STATE_WAITCEA | STATE_CLOSING => retry_later
  | STATE_CLOSING_GRACE => end_of_grace
  | STATE_WAITCNXACK_ELEC => receiver_side
  | _ => assertM false ;! ret psm_reset
  end.

Definition on_terminate (cur_state : peer_state) (reason : option bytes) : M label :=
  match cur_state with
  | STATE_OPEN | STATE_OPEN_NEW | STATE_REOPEN =>
      or_goto (fd_p_dp_initiate d cfg bo env reason) psm_end (ret psm_loop)
  | _ => ret psm_end
  end.

(** ** The thread *)

Definition handle_event (ev : fd_event) : M label :=
  let! cur_state := get p_state in
  assertM (bool_decide (cur_state ∉ [STATE_NEW; STATE_ZOMBIE; STATE_OPEN_HANDSHAKE])) ;!
  match ev with
  | FDEVP_TERMINATE reason => on_terminate cur_state reason
  | FDEVP_CNX_MSG_RECV buf => on_msg_recv buf
  | FDEVP_CNX_ERROR => on_cnx_error cur_state
  | FDEVP_CNX_EP_CHANGE => on_ep_change
  | FDEVP_CNX_SHUTDOWN => ret psm_reset
  | FDEVP_CNX_INCOMING cer cnx _ => or_goto (fd_p_ce_handle_newCER d cfg bo fuel env cer cnx) psm_end (ret psm_loop)
  | FDEVP_CNX_ESTABLISHED cnx => on_established cur_state cnx
  | FDEVP_CNX_FAILED => on_failed cur_state
  | FDEVP_PSM_TIMEOUT => on_timeout cur_state
  end.

Definition set_zombie : M unit := upd (set_p_state STATE_ZOMBIE).

Definition do_end : M progress :=
  fd_psm_cleanup env true ;!
  set_zombie ;!
  upd_flags (λ f, set_pf_dw_pending false (set_pf_cnx_pb false f)) ;!
  ret Ended.

Definition goto (l : label) : M progress :=
  match l with
  | psm_loop => ret Looping
  | psm_reset =>
      let! f := get p_flags in
      if pf_delete f then do_end else fd_psm_cleanup env false ;! ret Looping
  | psm_end => do_end
  end.

(** [fd_event_timedget]: the first event; without any, the timeout if its time has come. *)
Definition fd_event_timedget : M (option (option fd_event)) :=
  let! p := get id in
  match p_events p with
  | None => ret None
  | Some (ev :: l) => upd (set_p_events (Some l)) ;! ret (Some (Some ev))
  | Some [] => ret (Some (if TS_IS_INFERIOR (e_now env) (p_psm_timer p) then None else Some FDEVP_PSM_TIMEOUT))
  end.

(** A round of the loop. *)
Definition p_psm_turn : M progress :=
  let! ev := fd_event_timedget in
  match ev with
  | None => do_end
  | Some None => ret Waiting
  | Some (Some ev) => let! l := handle_event ev in goto l
  end.

(** What precedes the loop, once the threads may start. *)
Definition p_psm_start (created_started : bool) : M unit :=
  upd (set_p_state STATE_CLOSED) ;!
  let! f := get p_flags in
  if pf_responder f then fd_psm_next_timeout env false INCNX_TIMEOUT
  else fd_psm_next_timeout env created_started 0.

(** ** Control *)

(** The queue is created, and the thread, which begins with [p_psm_start]. *)
Definition fd_psm_begin : M unit :=
  let! st := get p_state in
  require (bool_decide (st = STATE_NEW)) ;!
  upd (set_p_events (Some [])).

(** The thread is cancelled, which sets the state. *)
Definition fd_psm_abord : M unit := set_zombie ;! fd_psm_cleanup env true.
End psm.
