(* ===== verification/PeerExamples.v ===== *)
(** * A concrete peer

    A dictionary with the commands of the link and the AVPs of the capabilities
    exchange, the host [h.example.net], and a peer [p.example.net] that it
    connects to; the witnesses of the properties of the state machine run it. *)

From Stdlib Require Import ZArith Lia String.
From stdpp Require Import base sets list gmap.
From S2P Require Import Prelude Time DictTypes Msg MsgBuf MsgDict MsgTree MsgRules Fifo SentReq Apps DictFct Endpoints CoreMsg Effect PeerTypes Peer LinkLocal Capab Exchange Psm.

Module Link.
Import Small MsgTree.Examples.

(** Object [i] is the [i]-th AVP, then come the commands. *)
Definition base : dict := Dict
  [DictAvpData 263 0 (str "Session-Id") 192 64 AVP_TYPE_OCTETSTRING;
   DictAvpData 264 0 (str "Origin-Host") 192 64 AVP_TYPE_OCTETSTRING;
   DictAvpData 296 0 (str "Origin-Realm") 192 64 AVP_TYPE_OCTETSTRING;
   DictAvpData 281 0 (str "Error-Message") 192 0 AVP_TYPE_OCTETSTRING;
   DictAvpData 294 0 (str "Error-Reporting-Host") 192 0 AVP_TYPE_OCTETSTRING;
   DictAvpData 279 0 (str "Failed-AVP") 192 64 AVP_TYPE_GROUPED;
   DictAvpData 268 0 (str "Result-Code") 192 64 AVP_TYPE_UNSIGNED32;
   DictAvpData 297 0 (str "Experimental-Result") 192 64 AVP_TYPE_GROUPED;
   DictAvpData 266 0 (str "Vendor-Id") 192 64 AVP_TYPE_UNSIGNED32;
   DictAvpData 298 0 (str "Experimental-Result-Code") 192 64 AVP_TYPE_UNSIGNED32;
   DictAvpData 278 0 (str "Origin-State-Id") 192 64 AVP_TYPE_UNSIGNED32;
   DictAvpData 273 0 (str "Disconnect-Cause") 192 64 AVP_TYPE_UNSIGNED32;
   DictAvpData 257 0 (str "Host-IP-Address") 192 64 AVP_TYPE_OCTETSTRING;
   DictAvpData 258 0 (str "Auth-Application-Id") 192 64 AVP_TYPE_UNSIGNED32;
   DictAvpData 259 0 (str "Acct-Application-Id") 192 64 AVP_TYPE_UNSIGNED32;
   DictAvpData 260 0 (str "Vendor-Specific-Application-Id") 192 64 AVP_TYPE_GROUPED;
   DictAvpData 269 0 (str "Product-Name") 192 0 AVP_TYPE_OCTETSTRING;
   DictAvpData 267 0 (str "Firmware-Revision") 192 0 AVP_TYPE_UNSIGNED32;
   DictAvpData 299 0 (str "Inband-Security-Id") 192 64 AVP_TYPE_UNSIGNED32;
   DictAvpData 265 0 (str "Supported-Vendor-Id") 192 64 AVP_TYPE_UNSIGNED32]
  [DictCmdData 0 (str "Generic-Error-Command") 224 0;
   DictCmdData 257 (str "Capabilities-Exchange-Request") 224 128; DictCmdData 257 (str "Capabilities-Exchange-Answer") 224 0;
   DictCmdData 280 (str "Device-Watchdog-Request") 224 128; DictCmdData 280 (str "Device-Watchdog-Answer") 224 0;
   DictCmdData 282 (str "Disconnect-Peer-Request") 224 128; DictCmdData 282 (str "Disconnect-Peer-Answer") 224 0]
  (λ o, []).

Definition objs : base_objs := BaseObjs 0 1 2 3 4 5 6 7 8 9 10 11 21 23 25.

(** The type of an AVP is named by the AVP itself; the constant of the value [v]
    is the object [v]. *)
#[export] Instance link_disp : DispDictionary dict := {
  object_type d o := object_type (DispDictionary:=small_disp_dictionary) d o;
  type_of_enumval d o := None;
  type_of_avp d o := Some o;
  application_by_id d i := application_by_id (DispDictionary:=small_disp_dictionary) d i;
  enumval_by_value d t v := Ok None }.

Definition codes : list (bytes * nat) :=
  [(str "DIAMETER_COMMAND_UNSUPPORTED", 3001); (str "DIAMETER_SUCCESS", 2001); (str "DIAMETER_UNABLE_TO_COMPLY", 5012);
   (str "DIAMETER_NO_COMMON_SECURITY", 5017); (str "DIAMETER_NO_COMMON_APPLICATION", 5010);
   (str "ELECTION_LOST", 4003); (str "REBOOTING", 0); (str "BUSY", 1); (str "DO_NOT_WANT_TO_TALK_TO_YOU", 2);
   (str "DIAMETER_UNABLE_TO_DELIVER", 3002); (str "DIAMETER_LOOP_DETECTED", 3005);
   (str "DIAMETER_APPLICATION_UNSUPPORTED", 3007); (str "DIAMETER_INVALID_HDR_BITS", 3008)]%nat.

#[export] Instance link_core : CoreDictionary dict := {
  cmd_by_name d n := Ok (match list_find (λ c, c_name c = n) (cmds d) with Some (i, _) => Some (length (avps d) + i)%nat | None => None end);
  enumval_by_name d t n := Ok (match list_find (λ c, fst c = n) codes with Some (_, (_, v)) => Some v | None => None end);
  enum_u32 d o := Ok (Z.of_nat o);
  vendorid_list d := Ok [10415; 0] }.

#[export] Instance link_addresses : AddressTypes dict := {
  type_encode d o := Some fd_dictfct_Address_encode;
  memory_value d t s := match t with AVP_TYPE_OCTETSTRING => OS [sa_family s] | _ => NUM (sa_family s) end;
  type_interpret d o := Ok fd_dictfct_Address_interpret }.

Example link_objs : fd_msg_init base = Ok objs.
Proof. vm_compute. reflexivity. Qed.

Lemma base_objs_ok : base_ok base objs.
Proof. split; [repeat constructor; by eexists|split; by eexists]. Qed.

Definition host : identity := Identity (str "h.example.net") (str "example.net") 7.

Definition cfg : fd_config :=
  FdConfig host 30 6 [Endpoint (SA_IN [10; 0; 0; 1] 3868) 1] [App 4 0 true false; App 16777251 10415 true true]
    false false false 0 (str "freeDiameter") 10500.

Definition peer : fd_peer :=
  Peer (str "p.example.net") [] (PeerConfig PI_SEC_NONE false true None 0 0 0) init_runtime STATE_NEW (TS 0 0)
    (PeerFlags false false false false false 0) None (TS 0 0) [] OutNone 1 init_srl [] 0 None None false None false false.

Definition w0 : world (list bytes) := World peer [] [] ∅ (fd_fifo_new 0) [] [] 0 [].

(** The clock is [t]; connections without TLS work. *)
Definition at_ (t : Z) : env :=
  Env (TS t 0) (0, 0) (λ _, false) (λ _, false) (λ _, None) (λ _, None) (λ _, None) (λ _, None)
    (λ _, inr [(SA_IN [10; 0; 0; 2] 3868, EP_FL_LL)]) (λ _, 6) (λ _ _, None) [] None (λ _, false).

Definition run (t : Z) : M (world (list bytes)) progress := p_psm_turn base cfg objs (λ _, None) 10 (at_ t).
Definition from {A} (w : world (list bytes)) (m : M (world (list bytes)) A) : world (list bytes) :=
  match m w with Ret w' _ => w' | Fail w' _ => w' | Abort _ => w end.

(** The peer has been created. *)
Definition w1 : world (list bytes) := Eval vm_compute in
  from w0 (fd_psm_begin ;! p_psm_start (at_ 0) false).
(** It attempts a connection. *)
Definition w2 := Eval vm_compute in from w1 (run 1).
(** The connection 7 is established; the CER is sent. *)
Definition w3' : world (list bytes) := Eval vm_compute in
  from (set_live (w_live w2 ∪ {[7%nat]}) w2) (fd_event_send (FDEVP_CNX_ESTABLISHED 7)).
Definition w3 := Eval vm_compute in from w3' (run 2).

(** The CEA of the peer, with the identifiers of the CER. *)
Definition cea_avps : list avp :=
  [Avp (Some 6%nat) (0, 0) (AvpHdr 268 64 12 0) (Some (NUM 2001)) None None [];
   Avp (Some 1%nat) (0, 0) (AvpHdr 264 64 21 0) (Some (OS (str "p.example.net"))) None None [];
   Avp (Some 2%nat) (0, 0) (AvpHdr 296 64 19 0) (Some (OS (str "example.net"))) None None [];
   Avp (Some 12%nat) (0, 0) (AvpHdr 257 64 14 0) (Some (OS [0; 1; 10; 0; 0; 2])) None None [];
   Avp (Some 8%nat) (0, 0) (AvpHdr 266 64 12 0) (Some (NUM 0)) None None [];
   Avp (Some 16%nat) (0, 0) (AvpHdr 269 0 20 0) (Some (OS (str "freeDiameter"))) None None [];
   Avp (Some 13%nat) (0, 0) (AvpHdr 258 64 12 0) (Some (NUM 4)) None None []].
Definition cea : msg :=
  Msg (Some 22%nat) (0, 0) (MsgHdr 1 20 0 257 0 1 1) None 0 None false None None (MsgCb None None None (0, 0)) None cea_avps.
Definition cea_bytes : bytes := Eval vm_compute in match fd_msg_bufferize base cea with Ok (b, _) => b | _ => [] end.

Definition receive (b : bytes) (w : world (list bytes)) : world (list bytes) := from w (fd_event_send (FDEVP_CNX_MSG_RECV b)).
(** The peer is open. *)
Definition w4' := Eval vm_compute in receive cea_bytes w3.
Definition w4 := Eval vm_compute in from w4' (run 3).
End Link.
