(* ===== verification/PsmInv.v ===== *)
(** * What the state machine preserves

    The part of the world on which the safety of the thread depends is its
    [core]: the identity and configuration of the peer, its state, connections,
    events, output thread, and the lists it is in.  Most operations leave the core
    as it is ([quiet]); the others have a specification here. *)

From Stdlib Require Import ZArith Lia String.
From stdpp Require Import base sorting sets list gmap.
From S2P Require Import Prelude Time Ostr DictTypes Msg MsgBuf MsgDict MsgTree MsgRules Fifo SentReq Endpoints CoreMsg Effect PeerTypes Peer LinkLocal Capab Exchange Psm.

Record core := Core {
  c_id : bytes; c_config : peer_config; c_state : peer_state; c_cnx : option nat; c_recv : option nat;
  c_events : option (list fd_event); c_out : out_thread; c_active : list bytes; c_live : gset nat }.

Definition core_of {S} (w : world S) : core :=
  let p := w_peer w in
  Core (pi_diamid p) (config p) (p_state p) (p_cnxctx p) (p_receiver p) (p_events p) (p_outthr p) (w_active w) (w_live w).

(** The call leaves the core [k] as it is. *)
Abbreviation quiet k m := (keeps (λ w, core_of w = k) m).

(** The connection can be used: NULL is not followed. *)
Definition usable (k : core) (c : option nat) : Prop := ∀ n, c = Some n → n ∈ c_live k.

Lemma usable_none k : usable k None.
Proof. by intros n. Qed.
Lemma usable_some k n : n ∈ c_live k → usable k (Some n).
Proof. by intros ? _ [= <-]. Qed.
#[export] Hint Resolve usable_none usable_some : keeps.

#[local] Arguments str : simpl never.

Section quiet.
Context {D S : Type} `{!MsgDictionary D} `{!DispDictionary D} `{!CoreDictionary D} `{!MsgSessions S} `{!AddressTypes D}.
Context (d : D) (cfg : fd_config) (bo : base_objs) (pei_message : perr + rules_err → option bytes) (fuel : nat) (env : env).
Abbreviation M := (M (world S)).
Implicit Types (w : world S) (k : core).

Lemma quiet_get {A B} k (f : fd_peer → A) (g : A → M B) :
  (∀ w, core_of w = k → quiet k (g (f (w_peer w)))) → quiet k (bind (get f) g).
Proof. intros H w Hw. by apply wp_bind, H. Qed.

Lemma quiet_upd k f : (∀ w, core_of (set_peer (f (w_peer w)) w) = core_of w) → quiet k (upd f : M unit).
Proof. intros H w <-. apply H. Qed.

Lemma quiet_modify k f : (∀ w, core_of (f w) = core_of w) → quiet k (modify f : M unit).
Proof. intros H w <-. apply H. Qed.

Lemma quiet_alive k c : c ∈ c_live k → quiet k (alive c : M unit).
Proof. intros Hc w <-. unfold alive, wp. cbn. by rewrite bool_decide_true. Qed.

Lemma quiet_cnx_call {A} k c (f : nat → M A) : usable k c → (∀ n, quiet k (f n)) → quiet k (cnx_call c f).
Proof.
  intros Hc Hf. destruct c as [n|]; [|apply keeps_fail].
  unfold cnx_call. apply keeps_bind; [by apply quiet_alive, Hc|done].
Qed.

Lemma quiet_cnx_result k c f : usable k c → quiet k (cnx_result c f : M unit).
Proof. intros Hc. apply quiet_cnx_call; [done|]. intros n. destruct (f n); [apply keeps_fail|apply keeps_ret]. Qed.

Lemma quiet_cnx_test k c f : usable k c → quiet k (cnx_test c f : M bool).
Proof. intros Hc. destruct c as [n|]; [|apply keeps_ret]. unfold cnx_test. apply keeps_bind; [by apply quiet_alive, Hc|]. intros _. apply keeps_ret. Qed.

Lemma quiet_succeeds k m : quiet k m → quiet k (succeeds m : M bool).
Proof. intros H. apply keeps_catch; [|intros; apply keeps_ret]. apply keeps_bind; [done|]. intros _. apply keeps_ret. Qed.

Lemma quiet_unordered k c : usable k c → quiet k (fd_cnx_unordered_delivery c : M unit).
Proof. intros Hc. apply quiet_cnx_call; [done|]. intros. apply keeps_ret. Qed.
End quiet.

#[export] Hint Resolve quiet_alive quiet_cnx_call quiet_cnx_result quiet_cnx_test quiet_succeeds quiet_unordered : keeps.
#[export] Hint Extern 4 (quiet _ (bind (get _) _)) => apply quiet_get; intros ? ? : keeps.

(** One step through a call that leaves the core alone. *)
Ltac quiet_step :=
  lazymatch goal with
  | |- quiet _ (bind (get _) _) => apply quiet_get; intros ? ?
  | |- quiet _ (upd _) => apply quiet_upd; intros ?; reflexivity
  | |- quiet _ (upd_flags _) => apply quiet_upd; intros ?; reflexivity
  | |- quiet _ (upd_runtime _) => apply quiet_upd; intros ?; reflexivity
  | |- quiet _ (modify _) => apply quiet_modify; intros ?; reflexivity
  | |- quiet _ (let '(_, _) := ?x in _) => destruct x eqn:?
  | |- quiet _ (if ?b then _ else _) => destruct b eqn:?
  | |- quiet _ (match ?x with _ => _ end) => destruct x eqn:?
  | |- quiet _ (when _ _) => apply keeps_when
  | |- quiet _ (ignore _) => apply keeps_ignore
  | |- quiet _ (catch _ _) => apply keeps_catch; [|intros ?]
  | |- quiet _ (succeeds _) => apply quiet_succeeds
  | |- quiet _ (ret _) => apply keeps_ret
  | |- quiet _ (fail _) => apply keeps_fail
  | |- quiet _ (lift_at _ _) => apply keeps_lift; apply _
  | |- quiet _ (require _) => apply keeps_require
  | |- quiet _ (gets _) => apply keeps_gets
  | |- quiet _ (get _) => apply keeps_gets
  | |- quiet _ (bind _ _) => first [by auto with keeps|apply keeps_bind; [|intros ?]]
  | |- quiet _ _ => by eauto with keeps
  end; cbv beta.
Ltac quiet_tac := repeat quiet_step.

Section quiet_ops.
Context {D S : Type} `{!MsgDictionary D} `{!DispDictionary D} `{!CoreDictionary D} `{!MsgSessions S} `{!AddressTypes D}.
Context (d : D) (cfg : fd_config) (bo : base_objs) (pei_message : perr + rules_err → option bytes) (fuel : nat) (env : env).
Abbreviation M := (M (world S)).
Implicit Types (w : world S) (k : core).

Lemma quiet_next_timeout k b n : quiet k (fd_psm_next_timeout env b n : M unit).
Proof. unfold fd_psm_next_timeout. quiet_tac. Qed.
Lemma quiet_next_watchdog k : quiet k (next_watchdog cfg env : M unit).
Proof. unfold next_watchdog. apply quiet_get. intros. apply quiet_next_timeout. Qed.
Lemma quiet_expi_update k : quiet k (fd_p_expi_update env : M unit).
Proof. unfold fd_p_expi_update. quiet_tac. Qed.
Lemma quiet_lift_sr k f : quiet k (lift_sr f : M unit).
Proof. unfold lift_sr. quiet_tac. Qed.
Lemma quiet_cnx_send k c buf : usable k c → quiet k (fd_cnx_send env c buf : M unit).
Proof. intros Hc. apply quiet_cnx_call; [done|]. intros n. quiet_tac. Qed.
Hint Resolve quiet_next_timeout quiet_next_watchdog quiet_expi_update quiet_lift_sr quiet_cnx_send : keeps.

Lemma quiet_do_send k m c peer : usable k c → quiet k (do_send d env m c peer : M unit).
Proof. intros Hc. unfold do_send. quiet_tac. Qed.

Lemma quiet_out_send k m c peer upd : usable k c → usable k (c_cnx k) → quiet k (fd_out_send d env m c peer upd : M unit).
Proof.
  intros Hc Hk. unfold fd_out_send. quiet_tac. apply quiet_do_send. destruct c; [done|]. by subst k.
Qed.

Lemma quiet_failover_msg k : quiet k (fd_peer_failover_msg env : M unit).
Proof. unfold fd_peer_failover_msg. quiet_tac. Qed.

Lemma quiet_new_request k o : quiet k (new_request d o : M msg).
Proof. unfold new_request. quiet_tac. Qed.
Lemma quiet_answer k m flags : quiet k (answer_from_req d fuel m flags : M msg).
Proof. unfold answer_from_req. quiet_tac. Qed.
Lemma quiet_answer_cer k m flags : quiet k (answer_cer d fuel m flags : M msg).
Proof. destruct m; [apply quiet_answer|apply keeps_fail]. Qed.
Lemma quiet_rescode_set k m c e a t : quiet k (rescode_set d cfg bo m c e a t : M msg).
Proof. by apply keeps_lift. Qed.
Lemma quiet_add_origin k m b : quiet k (add_origin d cfg bo m b : M msg).
Proof. by apply keeps_lift. Qed.
Lemma quiet_add_CEA_info k m b b' : quiet k (add_CEA_info d cfg bo m b b' : M msg).
Proof. by apply keeps_lift. Qed.
Hint Resolve quiet_do_send quiet_out_send quiet_failover_msg quiet_new_request quiet_answer quiet_answer_cer
  quiet_rescode_set quiet_add_origin quiet_add_CEA_info : keeps.

Lemma quiet_send_DWR k : usable k (c_cnx k) → quiet k (send_DWR d cfg bo env : M unit).
Proof. intros Hk. unfold send_DWR. quiet_tac. Qed.

Lemma quiet_getcred k c : usable k c → quiet k (fd_cnx_getcred env c : M unit).
Proof. intros Hk. unfold fd_cnx_getcred. quiet_tac. Qed.
Lemma quiet_getremoteeps k c : usable k c → quiet k (fd_cnx_getremoteeps env c : M unit).
Proof. intros Hk. apply quiet_cnx_call; [done|]. intros n. quiet_tac. Qed.
Lemma quiet_save_remote k m : quiet k (save_remote_CE_info d m : M (Z + option ce_pei)).
Proof. unfold save_remote_CE_info. quiet_tac. Qed.
Lemma quiet_create_CER k c : c ∈ c_live k → quiet k (create_CER d cfg bo env c : M msg).
Proof. intros Hc. unfold create_CER. quiet_tac. Qed.
Lemma quiet_check_state_id k m : quiet k (check_state_id d bo fuel m : M msg).
Proof. unfold check_state_id. quiet_tac. Qed.
Lemma quiet_parse_or_error k m : quiet k (parse_or_error d cfg bo pei_message fuel m : M (errno + parse_outcome)).
Proof. unfold parse_or_error. quiet_tac. Qed.
Lemma quiet_associate k m : quiet k (associate m : M (option (msg * option msg))).
Proof. unfold associate. quiet_tac. Qed.
Lemma quiet_attempt {A} k (m : M A) : quiet k m → quiet k (attempt m).
Proof. intros H. unfold attempt. quiet_tac. Qed.
End quiet_ops.

#[export] Hint Resolve quiet_next_timeout quiet_next_watchdog quiet_expi_update quiet_lift_sr quiet_cnx_send
  quiet_do_send quiet_out_send quiet_failover_msg quiet_new_request quiet_answer quiet_answer_cer
  quiet_rescode_set quiet_add_origin quiet_add_CEA_info quiet_send_DWR quiet_getcred quiet_getremoteeps
  quiet_save_remote quiet_create_CER quiet_check_state_id quiet_parse_or_error quiet_associate quiet_attempt : keeps.

(** ** Calls that cannot fail *)

Section nofail.
Context {S : Type} (env : env).
Abbreviation M := (M (world S)).

Definition nofail {A} (m : M A) : Prop := ∀ w, wp m (λ _ _, True) (λ _ _, False) w.

Lemma wp_quiet {A} k (m : M A) (Q : A → world S → Prop) E w :
  quiet k m → core_of w = k → (∀ a w', core_of w' = k → Q a w') → (∀ e w', core_of w' = k → E e w') → wp m Q E w.
Proof. intros Hm Hw HQ HE. eapply wp_mono; [by apply Hm|naive_solver..]. Qed.

Lemma wp_quiet_nofail {A} k (m : M A) (Q : A → world S → Prop) E w :
  quiet k m → nofail m → core_of w = k → (∀ a w', core_of w' = k → Q a w') → wp m Q E w.
Proof.
  intros Hm Hn Hw HQ. eapply wp_mono; [apply wp_and; [apply (Hm w Hw)|apply (Hn w)]|..]; cbn; [by intros a w' [? _]; apply HQ|by intros ?? [_ []]].
Qed.

Lemma failover_loop_no_err l σ q now e : failover_loop l σ q now ≠ Err e.
Proof.
  revert σ q. induction l as [|x l IH]; intros σ q; cbn; [done|].
  unfold deref. destruct (heap σ !! x); cbn; [|done]. apply IH.
Qed.
Lemma fd_p_sr_failover_no_err σ q now e : fd_p_sr_failover σ q now ≠ Err e.
Proof.
  unfold fd_p_sr_failover. destruct (failover_loop _ _ _ _) as [[σ' q']|e'|] eqn:E; cbn; [|by apply failover_loop_no_err in E|done].
  repeat case_bool_decide; done.
Qed.
Lemma disconnect_loop_no_err l σ e : disconnect_loop l σ ≠ Err e.
Proof.
  revert σ. induction l as [|x l IH]; intros σ; cbn; [done|].
  unfold deref. destruct (heap σ !! x); cbn; [|done]. apply IH.
Qed.

Lemma nofail_failover_msg : nofail (fd_peer_failover_msg env).
Proof.
  intros w. unfold fd_peer_failover_msg. repeat (apply wp_bind || apply wp_gets || apply wp_modify).
  apply wp_lift; [done| |by intros e ?%fd_p_sr_failover_no_err]. intros [σ q] _. done.
Qed.
Lemma nofail_on_disconnect : nofail (lift_sr fd_p_sr_on_disconnect).
Proof.
  intros w. unfold lift_sr. repeat (apply wp_bind || apply wp_gets).
  apply wp_lift; [done|done|]. by intros e ?%disconnect_loop_no_err.
Qed.
Lemma nofail_next_timeout b n : nofail (fd_psm_next_timeout env b n).
Proof. done. Qed.
Lemma nofail_expi_update : nofail (fd_p_expi_update env).
Proof. intros w. unfold fd_p_expi_update, wp, bind, get, gets, modify, when. by destruct (pic_exp _). Qed.
End nofail.

(** ** The invariant of the core

    [extra] are the connections that the current event holds.  No connection is
    held twice, and none is destroyed; the peer is active, and has its output
    thread, in the state OPEN only; in the states where it can become OPEN it has
    a connection. *)

Definition ev_cnx (ev : fd_event) : list nat :=
  match ev with FDEVP_CNX_ESTABLISHED c => [c] | FDEVP_CNX_INCOMING _ c _ => [c] | _ => [] end.
Definition queued (q : option (list fd_event)) : list nat := default [] q ≫= ev_cnx.
Definition owned (k : core) : list nat := option_list (c_cnx k) ++ option_list (c_recv k) ++ queued (c_events k).

Definition opened (st : peer_state) : Prop := st = STATE_OPEN ∨ st = STATE_OPEN_NEW ∨ st = STATE_REOPEN.
#[export] Instance opened_dec st : Decision (opened st) := _.

Record conns (extra : list nat) (k : core) : Prop := {
  c_nodup : NoDup (extra ++ owned k);
  c_alive c : c ∈ extra ++ owned k → c ∈ c_live k }.

Record status (k : core) : Prop := {
  s_events : is_Some (c_events k);
  s_active : c_id k ∈ c_active k → c_state k = STATE_OPEN;
  s_out : c_out k ≠ OutNone → c_state k = STATE_OPEN;
  s_sorted : Increasing fd_os_cmp_int (c_active k);
  s_open : opened (c_state k) → is_Some (c_cnx k) }.

Definition safe (extra : list nat) (k : core) : Prop := conns extra k ∧ status k.

(** What is no longer held may be destroyed, or forgotten. *)
Lemma conns_drop gone extra extra' k k' :
  conns extra k → extra ++ owned k ≡ₚ gone ++ extra' ++ owned k' → (∀ c, c ∈ c_live k → c ∉ gone → c ∈ c_live k') → conns extra' k'.
Proof.
  intros [Hn Hl] Hp Hk. rewrite Hp in Hn. apply NoDup_app in Hn as (_ & Hd & Hn). split; [done|].
  intros c Hc. apply Hk; [apply Hl; rewrite Hp; set_solver|]. intros Hg. by apply (Hd c).
Qed.

Lemma conns_shrink extra extra' k k' gone :
  conns extra k → extra ++ owned k ≡ₚ gone ++ extra' ++ owned k' → c_live k' = c_live k ∖ list_to_set gone → conns extra' k'.
Proof. intros Hc Hp Hk. apply (conns_drop _ _ _ _ _ Hc Hp). intros c. rewrite Hk. set_solver. Qed.

(** What is held does not change. *)
Lemma conns_same extra extra' k k' :
  conns extra k → extra ++ owned k ≡ₚ extra' ++ owned k' → c_live k' = c_live k → conns extra' k'.
Proof. intros Hc Hp Hk. apply (conns_shrink _ _ _ _ [] Hc); [done|]. rewrite Hk. set_solver. Qed.

(** Assignments to the core. *)
Definition k_state st k := Core (c_id k) (c_config k) st (c_cnx k) (c_recv k) (c_events k) (c_out k) (c_active k) (c_live k).
Definition k_cnx c live k := Core (c_id k) (c_config k) (c_state k) c (c_recv k) (c_events k) (c_out k) (c_active k) live.
Definition k_recv c live k := Core (c_id k) (c_config k) (c_state k) (c_cnx k) c (c_events k) (c_out k) (c_active k) live.
Definition k_events q live k := Core (c_id k) (c_config k) (c_state k) (c_cnx k) (c_recv k) q (c_out k) (c_active k) live.
Definition k_lists o a k := Core (c_id k) (c_config k) (c_state k) (c_cnx k) (c_recv k) (c_events k) o a (c_live k).

(** What a call keeps of the peer: all but the state and what follows from it. *)
Definition same_peer (k k' : core) : Prop :=
  c_id k' = c_id k ∧ c_config k' = c_config k ∧ c_cnx k' = c_cnx k ∧ c_recv k' = c_recv k.

Lemma same_peer_refl k : same_peer k k.
Proof. by split_and!. Qed.
Lemma same_peer_trans k k' k'' : same_peer k k' → same_peer k' k'' → same_peer k k''.
Proof. unfold same_peer. naive_solver congruence. Qed.

Section specs.
Context {S : Type} (env : env).
Abbreviation M := (M (world S)).
Implicit Types (w : world S) (k : core).

Lemma conns_usable extra k c : conns extra k → (∀ n, c = Some n → n ∈ extra ++ owned k) → usable k c.
Proof. intros Hs Hc n Hn. by apply (c_alive _ _ Hs), Hc. Qed.
Lemma usable_cnx extra k : conns extra k → usable k (c_cnx k).
Proof. intros Hs. apply (conns_usable extra); [done|]. intros n Hn. unfold owned. rewrite Hn. set_solver. Qed.
Lemma usable_recv extra k : conns extra k → usable k (c_recv k).
Proof. intros Hs. apply (conns_usable extra); [done|]. intros n Hn. unfold owned. rewrite Hn. set_solver. Qed.
Lemma usable_extra c extra k : conns (c :: extra) k → usable k (Some c).
Proof. intros Hs. apply (conns_usable (c :: extra)); [done|]. intros n [= <-]. set_solver. Qed.

Lemma wp_event_send ev (Q : unit → world S → Prop) E w :
  is_Some (c_events (core_of w)) →
  (∀ w', core_of w' = k_events ((λ l, l ++ [ev]) <$> c_events (core_of w)) (c_live (core_of w)) (core_of w) → Q tt w') →
  wp (fd_event_send ev) Q E w.
Proof.
  intros [l Hl] HQ. unfold fd_event_send. apply wp_bind, wp_gets. cbn in Hl. rewrite Hl. apply wp_modify, HQ.
  unfold core_of. cbn. by rewrite Hl.
Qed.

Lemma wp_destroy c (Q : unit → world S → Prop) E w :
  usable (core_of w) c →
  Q tt (set_live (w_live w ∖ list_to_set (option_list c)) w) →
  wp (fd_cnx_destroy c) Q E w.
Proof.
  intros Hc HQ. destruct c as [c|]; cbn in *.
  - apply wp_bind, wp_bind, wp_gets, wp_assert; [by apply bool_decide_true, Hc|]. apply wp_modify.
    by rewrite union_empty_r_L in HQ.
  - unfold wp. cbn. destruct w. cbn in *. by rewrite difference_empty_L in HQ.
Qed.

Lemma wp_cnx_test c f (Q : bool → world S → Prop) E w :
  usable (core_of w) c → Q (match c with None => false | Some c => f c end) w → wp (cnx_test c f) Q E w.
Proof.
  intros Hu HQ. destruct c as [c|]; [|done]. apply wp_bind, wp_bind, wp_gets, wp_assert; [by apply bool_decide_true, Hu|done].
Qed.

(** An event that holds no connection is sent. *)
Lemma safe_event extra k ev : safe extra k → ev_cnx ev = [] → safe extra (k_events ((λ l, l ++ [ev]) <$> c_events k) (c_live k) k).
Proof.
  intros [Hc [H1 H2 H3 H4 H5]] Hev. split; [|split; try done; cbn; by rewrite fmap_is_Some].
  eapply conns_same; [done| |done]. unfold owned. cbn. destruct H1 as [l ->]. unfold queued. cbn.
  by rewrite bind_app; cbn; rewrite Hev, app_nil_r.
Qed.

(** ** Purging the events *)

Lemma wp_free_events l extra (Q : unit → world S → Prop) E w :
  c_events (core_of w) = Some l → conns extra (core_of w) →
  (∀ w', core_of w' = k_events (Some []) (c_live (core_of w) ∖ list_to_set (l ≫= ev_cnx)) (core_of w) → Q tt w') →
  wp (free_events l) Q E w.
Proof.
  revert w. induction l as [|ev l IH]; intros w Hl Hc HQ; cbn.
  - apply HQ. destruct w as [p]. destruct p. cbn in *. subst. unfold k_events. cbn. by rewrite difference_empty_L.
  - apply wp_bind, wp_modify, wp_bind.
    set (w1 := set_peer _ w).
    assert (∀ c w2, ev_cnx ev = option_list c → w2 = set_live (w_live w1 ∖ list_to_set (option_list c)) w1 → wp (free_events l) Q E w2) as Hnext.
    { intros c w2 Hev ->. apply IH; [done|..].
      - eapply (conns_shrink _ _ _ _ (option_list c)); [done|..|done].
        unfold owned, queued. cbn in *. rewrite Hl. cbn. rewrite Hev. solve_Permutation.
      - intros w' Hw'. apply HQ. rewrite Hw'. unfold k_events. cbn. f_equal. rewrite Hev, list_to_set_app_L, difference_difference_l_L. done. }
    destruct ev; try (apply (Hnext None); [done|by destruct w1; cbn; rewrite difference_empty_L]).
    all: apply wp_destroy; [|by apply (Hnext (Some cnx))].
    all: apply (conns_usable extra (core_of w)); [done|]; intros n [= <-]; unfold owned, queued; cbn in *; rewrite Hl; set_solver.
Qed.

(** ** The active peers *)

Lemma elem_active_insert id x l : x ∈ active_insert id l ↔ x = id ∨ x ∈ l.
Proof. induction l as [|y l IH]; cbn; [set_solver|]. case_decide; set_solver. Qed.

Lemma active_insert_sorted id l :
  Increasing fd_os_cmp_int l → id ∉ l → Increasing fd_os_cmp_int (active_insert id l).
Proof.
  induction 1 as [|y l Hs IH Hy]; intros Hid; cbn; [by repeat constructor|].
  apply not_elem_of_cons in Hid as [Hny Hid]. rewrite Forall_forall in Hy. case_decide as Hlt.
  - constructor; [by constructor; [|rewrite Forall_forall]|]. constructor; [done|].
    rewrite Forall_forall. intros z Hz. eapply (cmp_lt_trans fd_os_cmp_int); [done|by apply Hy].
  - constructor; [by apply IH|]. rewrite Forall_forall. intros z [->|Hz]%elem_active_insert; [|by apply Hy].
    assert (fd_os_cmp_int id y ≠ 0) by (by intros ?%fd_os_cmp_zero). apply (cmp_gt_lt fd_os_cmp_int). lia.
Qed.

(** ** Changes of state *)

Lemma wp_unordered c (Q : unit → world S → Prop) E w :
  is_Some c → usable (core_of w) c → Q tt w → wp (fd_cnx_unordered_delivery c) Q E w.
Proof.
  intros [n ->] Hc HQ. apply wp_bind, wp_bind, wp_gets, wp_assert; [|done]. by apply bool_decide_true, Hc.
Qed.

Lemma wp_leave_open b (Q : unit → world S → Prop) E w :
  let k := core_of w in
  is_Some (c_cnx k) → usable k (c_cnx k) →
  (∀ w', core_of w' = k_lists OutNone (filter (λ x, x ≠ c_id k) (c_active k)) k → Q tt w') →
  wp (leave_open_state env b) Q E w.
Proof.
  cbn. intros Hc Hu HQ. unfold leave_open_state.
  apply wp_bind, wp_gets, wp_bind, wp_modify, wp_bind, wp_bind, wp_gets, wp_bind, wp_unordered; [done..|].
  apply wp_modify. unfold when. destruct (negb b); [|by apply HQ].
  eapply wp_quiet_nofail; [apply quiet_failover_msg|apply nofail_failover_msg|done|]. intros [] w' Hw'. by apply HQ.
Qed.

Definition queue_term (b : bool) (q : option (list fd_event)) (r : option bytes) : option (list fd_event) :=
  if b then (λ l, l ++ [FDEVP_TERMINATE r]) <$> q else q.

Lemma wp_enter_open (Q : unit → world S → Prop) E w :
  let k := core_of w in
  c_state k = STATE_OPEN → c_id k ∉ c_active k → c_out k = OutNone → is_Some (c_events k) → is_Some (c_cnx k) → usable k (c_cnx k) →
  (∀ w' b, core_of w' = k_events (queue_term b (c_events k) (Some str_do_not_want)) (c_live k) k → Q tt w') →
  (∀ w', core_of w' = k_lists OutSending (active_insert (c_id k) (c_active k)) k → Q tt w') →
  wp (enter_open_state env) Q E w.
Proof.
  cbn. intros Hst Hid Ho He Hc Hu HQ1 HQ2. unfold enter_open_state.
  apply wp_bind, wp_gets, wp_bind, wp_gets, wp_bind, wp_require; [|by rewrite bool_decide_eq_false; intros ?%dec_stable]. intros _.
  destruct (p_cb2 (id (w_peer w))) eqn:Hcb.
  - destruct (e_cb2 env).
    + apply wp_bind, wp_catch. unfold fd_psm_terminate. apply wp_bind, wp_gets. rewrite Hst. cbn [bool_decide when].
      apply wp_event_send; [done|]. intros w' Hw'. apply wp_modify, (HQ1 _ true). done.
    + apply wp_bind, wp_ret, wp_modify, (HQ1 _ false). destruct w as [p]; by destruct p.
  - apply wp_bind, wp_modify, wp_bind, wp_modify, wp_bind.
    unfold fd_out_start. apply wp_bind, wp_gets, wp_bind, wp_require; cbn; rewrite Ho; [|done]. intros _.
    apply wp_bind, wp_modify, wp_unordered; [done..|].
    eapply wp_quiet_nofail; [apply quiet_expi_update|apply nofail_expi_update|done|]. intros [] w' Hw'. by apply HQ2.
Qed.

(** A peer that is out of the lists, in any state but OPEN. *)
Definition idle (k : core) : Prop :=
  is_Some (c_events k) ∧ c_id k ∉ c_active k ∧ c_out k = OutNone ∧ Increasing fd_os_cmp_int (c_active k).

Lemma idle_status k : idle k → c_state k ≠ STATE_OPEN → (opened (c_state k) → is_Some (c_cnx k)) → status k.
Proof. intros (He & Hi & Ho & Hs) Hst Hc. split; [done|done|by intros []|done|done]. Qed.

Lemma wp_psm_events_free extra (Q : unit → world S → Prop) E w :
  is_Some (c_events (core_of w)) → conns extra (core_of w) →
  (∀ w', core_of w' = k_events (Some []) (c_live (core_of w) ∖ list_to_set (queued (c_events (core_of w)))) (core_of w) → Q tt w') →
  wp fd_psm_events_free Q E w.
Proof.
  intros [l Hl] Hc HQ. apply wp_bind, wp_gets. cbn in Hl. rewrite Hl. eapply wp_free_events; [done..|].
  intros w' Hw'. apply HQ. rewrite Hw'. unfold core_of, queued. cbn. by rewrite Hl.
Qed.

(** The state CLOSED is entered. *)
Lemma wp_enter_closed extra (Q : unit → world S → Prop) E w :
  conns extra (core_of w) → idle (core_of w) → c_state (core_of w) = STATE_CLOSED →
  (∀ w', same_peer (core_of w) (core_of w') → c_state (core_of w') = STATE_CLOSED → safe extra (core_of w') →
         queued (c_events (core_of w')) = [] → Q tt w') →
  wp (fd_psm_events_free ;! upd (set_p_reqin_count 0) ;!
      let! c := get config in when (negb (pic_persist c)) (fd_event_send (FDEVP_TERMINATE None))) Q E w.
Proof.
  intros Hc (He & Hi & Ho & Hs) Hst HQ. apply wp_bind. eapply wp_psm_events_free; [done..|].
  intros w1 Hw1. apply wp_bind, wp_modify, wp_bind, wp_gets.
  assert (∀ w2 b, core_of w2 = k_events (queue_term b (Some []) None) (c_live (core_of w1)) (core_of w1) → Q tt w2) as Hend.
  { intros w2 b Hw2. rewrite Hw1 in Hw2. apply HQ; rewrite Hw2; [by split_and!|done| |by destruct b].
    split.
    - eapply (conns_shrink _ _ _ _ (queued (c_events (core_of w)))); [done| |done].
      unfold owned. cbn. destruct b; cbn; solve_Permutation.
    - cbn in Hst. apply idle_status; cbn; rewrite ?Hst; [|done|by intros [?|[?|?]]].
      split_and!; [by destruct b|done..]. }
  set (w1' := set_peer _ w1). assert (core_of w1' = core_of w1) as H1 by done.
  unfold when. destruct (negb _).
  - apply wp_event_send; rewrite H1, Hw1; [done|]. intros w2 Hw2. apply (Hend _ true). by rewrite Hw2, Hw1.
  - apply (Hend _ false). by rewrite H1, Hw1.
Qed.

Definition after_leave (old st : peer_state) : M unit :=
  when (bool_decide (old = STATE_CLOSING_GRACE)) (fd_peer_failover_msg env) ;!
  when (bool_decide (st = STATE_OPEN)) (enter_open_state env) ;!
  when (bool_decide (st = STATE_CLOSED))
    (fd_psm_events_free ;! upd (set_p_reqin_count 0) ;!
     let! c := get config in when (negb (pic_persist c)) (fd_event_send (FDEVP_TERMINATE None))).

Lemma wp_after_leave old st extra (Q : unit → world S → Prop) E w :
  let k := core_of w in
  conns extra k → idle k → c_state k = st → (opened st → is_Some (c_cnx k)) →
  (∀ w', c_state (core_of w') = st → same_peer k (core_of w') → safe extra (core_of w') → Q tt w') →
  wp (after_leave old st) Q E w.
Proof.
  intros k Hc Hi Hst Hcnx HQ. unfold after_leave. apply wp_bind.
  eapply (wp_quiet_nofail k); [by apply keeps_when, quiet_failover_msg| |done|].
  { intros ?. by apply wp_when; [intros _; apply nofail_failover_msg|]. }
  intros _ w1 Hw1. clearbody k. subst k. clear w. destruct Hi as (He & Hi & Ho & Hs).
  apply wp_bind, wp_when; rewrite ?bool_decide_eq_true, ?bool_decide_eq_false; intros Hopen.
  - subst st. rewrite Hopen in *. cbn [bool_decide decide when].
    assert (∀ w2, c_state (core_of w2) = STATE_OPEN → same_peer (core_of w1) (core_of w2) → safe extra (core_of w2) →
              wp (ret tt) Q E w2) as Hend by (intros; by apply wp_ret, HQ).
    apply wp_enter_open; [done..|apply Hcnx; by left|by eapply usable_cnx| |]; intros w2.
    + intros b Hw2. apply Hend; rewrite Hw2; [done|by split_and!|]. split.
      * eapply conns_same; [done| |done]. unfold owned, queue_term. destruct b; [|done]. cbn.
        destruct He as [l Hl]. cbn in Hl. rewrite Hl. unfold queued. cbn. by rewrite bind_app, app_nil_r.
      * split; cbn in *; [unfold queue_term; destruct b; [by rewrite fmap_is_Some|done]|done..|by rewrite Ho|done|intros _; apply Hcnx; by left].
    + intros Hw2. apply Hend; rewrite Hw2; [done|by split_and!|]. split; [by eapply conns_same|].
      split; cbn in *; [done..|by apply active_insert_sorted|intros _; apply Hcnx; by left].
  - apply wp_when; rewrite ?bool_decide_eq_true, ?bool_decide_eq_false; intros Hclosed.
    + eapply wp_enter_closed; [done|by split_and!|by rewrite Hst|]. rewrite Hclosed in HQ. auto.
    + apply HQ; [done|apply same_peer_refl|]. split; [done|]. apply idle_status; [by split_and!|by rewrite Hst|by rewrite Hst].
Qed.

Lemma wp_change_state st extra (Q : unit → world S → Prop) E w :
  let k := core_of w in
  safe extra k → (opened st → is_Some (c_cnx k)) →
  (∀ w', c_state (core_of w') = st → same_peer k (core_of w') → safe extra (core_of w') → Q tt w') →
  wp (fd_psm_change_state env st) Q E w.
Proof.
  cbn. intros [Hc Hs] Hcnx HQ. apply wp_bind, wp_gets. destruct (decide _) as [Heq|Hne].
  { apply HQ; [done|apply same_peer_refl|done]. }
  apply wp_bind, wp_modify. set (w1 := set_peer _ w).
  assert (∀ w2 act, core_of w2 = k_lists OutNone act (core_of w1) → pi_diamid (w_peer w) ∉ act → Increasing fd_os_cmp_int act →
    wp (after_leave (p_state (w_peer w)) st) Q E w2) as Hnext.
  { intros w2 act Hw2 Hid Hact. eapply (wp_after_leave _ _ extra); rewrite Hw2; [|by split_and!; [apply (s_events _ Hs)|..]|done..].
    eapply conns_same; [done..|]. done. }
  apply wp_bind, wp_when; rewrite ?bool_decide_eq_true, ?bool_decide_eq_false; intros Ho.
  - apply wp_leave_open; [apply (s_open _ Hs); by left|exact (usable_cnx _ _ Hc)|].
    intros w2 Hw2. eapply Hnext; [exact Hw2| |].
    + rewrite list_elem_of_filter. by intros [].
    + apply Increasing_filter, (s_sorted _ Hs).
  - apply (Hnext _ (w_active w)); [|intros Hi; by apply Ho, (s_active _ Hs)|apply (s_sorted _ Hs)].
    assert (p_outthr (w_peer w) = OutNone) as Hout.
    { destruct (p_outthr (w_peer w)) eqn:He; [done|..]; exfalso; apply Ho, (s_out _ Hs); cbn; by rewrite He. }
    unfold core_of, k_lists. cbn. by rewrite Hout.
Qed.

(** ** Destroying the connections *)

Lemma wp_clear_cnx extra (Q : unit → world S → Prop) E w :
  conns extra (core_of w) →
  (∀ w', core_of w' = k_cnx None (w_live w ∖ list_to_set (option_list (p_cnxctx (w_peer w)))) (core_of w) →
     conns extra (core_of w') → Q tt w') →
  wp fd_p_ce_clear_cnx Q E w.
Proof.
  intros Hc HQ. apply wp_bind, wp_modify, wp_bind, wp_gets, wp_bind, wp_destroy; [exact (usable_cnx _ _ Hc)|].
  apply wp_modify, HQ; [done|]. eapply (conns_shrink _ _ _ _ (option_list (p_cnxctx (w_peer w)))); [done| |done].
  unfold owned. cbn. solve_Permutation.
Qed.

(** The connection of the receiver is destroyed and forgotten. *)
Lemma wp_destroy_recv {A} extra (f : fd_peer → fd_peer) (m : M A) (Q : A → world S → Prop) E w :
  conns extra (core_of w) →
  (∀ w, core_of (set_peer (f (w_peer w)) w) = k_recv None (w_live w) (core_of w)) →
  (∀ w', core_of w' = k_recv None (w_live w ∖ list_to_set (option_list (p_receiver (w_peer w)))) (core_of w) →
     conns extra (core_of w') → wp m Q E w') →
  wp (fd_cnx_destroy (p_receiver (w_peer w)) ;! upd f ;! m) Q E w.
Proof.
  intros Hc Hf HQ. apply wp_bind, wp_destroy; [exact (usable_recv _ _ Hc)|].
  apply wp_bind, wp_modify, HQ; rewrite Hf; [done|].
  eapply (conns_shrink _ _ _ _ (option_list (p_receiver (w_peer w)))); [done| |done].
  unfold owned. cbn. solve_Permutation.
Qed.

(** What [fd_psm_cleanup] leaves. *)
Definition cleaned (k k' : core) : Prop :=
  c_id k' = c_id k ∧ c_config k' = c_config k ∧ c_cnx k' = None ∧ c_recv k' = None ∧ c_state k' = STATE_CLOSED.

Lemma wp_cleanup terminate extra (Q : unit → world S → Prop) E w :
  safe extra (core_of w) → c_state (core_of w) ≠ STATE_ZOMBIE →
  (∀ w', cleaned (core_of w) (core_of w') → safe extra (core_of w') →
         wp (when terminate (fd_psm_events_free ;! upd (set_p_events None))) Q E w') →
  wp (fd_psm_cleanup env terminate) Q E w.
Proof.
  intros Hs Hz HQ. apply wp_bind, wp_gets, wp_bind, wp_when; rewrite ?bool_decide_eq_true, ?bool_decide_eq_false; [|done].
  intros _. apply wp_ignore. eapply wp_change_state; [done|by intros [|[]]|].
  intros w1 Hst (Hid & Hcf & _) [Hc1 Hs1]. apply wp_bind.
  eapply (wp_quiet_nofail (core_of w1)); [apply quiet_lift_sr|apply nofail_on_disconnect|done|]. intros _ w2 Hw2. rewrite <- Hw2 in *. clear w1 Hw2.
  apply wp_bind, wp_modify, wp_bind. eapply (wp_clear_cnx extra); [exact Hc1|]. intros w3 Hw3 Hc3.
  apply wp_bind, wp_gets, (wp_destroy_recv extra); [exact Hc3|done|]. intros w4 Hw4 Hc4. apply HQ.
  - rewrite Hw4, Hw3. split_and!; try done; cbn in *; congruence.
  - split; [done|]. destruct Hs1 as [H1 H2 H3 H4 H5]. rewrite Hw4, Hw3. split; cbn in *; try done. by rewrite Hst; intros [|[]].
Qed.

Lemma wp_cleanup_false extra (Q : unit → world S → Prop) E w :
  safe extra (core_of w) → c_state (core_of w) ≠ STATE_ZOMBIE →
  (∀ w', cleaned (core_of w) (core_of w') → safe extra (core_of w') → Q tt w') →
  wp (fd_psm_cleanup env false) Q E w.
Proof. intros Hs Hz HQ. by eapply wp_cleanup. Qed.

(** The end of the thread: the peer has no queue and holds no connection. *)
Definition ended (extra : list nat) (k : core) : Prop :=
  conns extra k ∧ c_events k = None ∧ c_cnx k = None ∧ c_recv k = None ∧ c_id k ∉ c_active k ∧ c_out k = OutNone ∧
  Increasing fd_os_cmp_int (c_active k).

Lemma closed_idle k : status k → c_state k ≠ STATE_OPEN → idle k.
Proof.
  intros [H1 H2 H3 H4 _] Hst. split_and!; [done|by intros ?%H2| |done]. destruct (c_out k) eqn:E; [done|..]; by destruct Hst; apply H3.
Qed.

Lemma wp_cleanup_true extra (Q : unit → world S → Prop) E w :
  safe extra (core_of w) → c_state (core_of w) ≠ STATE_ZOMBIE →
  (∀ w', ended extra (core_of w') → Q tt w') →
  wp (fd_psm_cleanup env true) Q E w.
Proof.
  intros Hs Hz HQ. eapply wp_cleanup; [done..|]. intros w1 (_ & _ & Hcnx & Hrecv & Hst) [Hc1 Hs1].
  destruct (closed_idle _ Hs1) as (He & Hi & Ho & Hso); [by rewrite Hst|].
  apply wp_bind. eapply wp_psm_events_free; [done..|]. intros w2 Hw2. apply wp_modify, HQ.
  set (w3 := set_peer _ _).
  assert (core_of w3 = k_events None (c_live (core_of w2)) (core_of w2)) as -> by done. rewrite Hw2. split_and!; try done.
  eapply (conns_shrink _ _ _ _ (queued (c_events (core_of w1)))); [done| |done]. unfold owned. cbn. solve_Permutation.
Qed.
End specs.
