(* ===== verification/PsmSafe.v ===== *)
(** * Safety of the state machine

    What every handler of [Exchange], [LinkLocal] and [Psm] makes of the core of
    the world, and the theorems on a round of the thread: it fails no assertion,
    uses no destroyed connection, and opens no connection without protection
    unless the configuration allows it. *)

From Stdlib Require Import ZArith Lia String.
From stdpp Require Import base sorting sets list gmap.
From S2P Require Import Prelude Time Ostr DictTypes Msg MsgBuf MsgDict MsgTree MsgRules Fifo SentReq Apps Endpoints CoreMsg Effect PeerTypes Peer LinkLocal Capab Exchange Psm PsmInv.

#[local] Arguments str : simpl never.

Definition k_config cf k := Core (c_id k) cf (c_state k) (c_cnx k) (c_recv k) (c_events k) (c_out k) (c_active k) (c_live k).

(** Why a connection may be used: it has TLS, or the in-band handshake has
    succeeded, or the peer may do without. *)
Definition secure (env : env) (k : core) (c : nat) : Prop :=
  e_getTLS env c = true ∨ e_handshake env c = None ∨ has (pic_sec (c_config k)) PI_SEC_NONE = true.

(** A step of the in-band security has failed. *)
Definition inband_failed (env : env) (k : core) : Prop :=
  c_cnx k = None ∨ (∃ c, e_handshake env c ≠ None ∨ e_getcred env c ≠ None) ∨ e_cb2 env ≠ None.

(** What a handler makes of the core [k]. *)
Record good (env : env) (extra : list nat) (k k' : core) : Prop := {
  g_safe : safe extra k';
  g_state : c_state k' ≠ STATE_NEW ∧ c_state k' ≠ STATE_ZOMBIE;
  g_opened : opened (c_state k') → opened (c_state k) ∨ ∃ c, c_cnx k' = Some c ∧ secure env k' c;
  g_handshake : c_state k' = STATE_OPEN_HANDSHAKE → inband_failed env k' }.

(** The states in which an event is handled. *)
Definition regular (st : peer_state) : Prop := st ≠ STATE_NEW ∧ st ≠ STATE_ZOMBIE ∧ st ≠ STATE_OPEN_HANDSHAKE.

Section safe.
Context {D S : Type} `{!MsgDictionary D} `{!DispDictionary D} `{!CoreDictionary D} `{!MsgSessions S} `{!AddressTypes D}.
Context (d : D) (cfg : fd_config) (bo : base_objs) (pei_message : perr + rules_err → option bytes) (fuel : nat) (env : env).
Abbreviation M := (M (world S)).
Implicit Types (w : world S) (k : core).

(** In a state that is kept, or that is not special, nothing is to be shown. *)
Lemma good_same extra k k' : regular (c_state k) → safe extra k' → c_state k' = c_state k → good env extra k k'.
Proof. intros (?&?&?) ? Hst. split; [done|rewrite Hst..]; [done|by left|done]. Qed.

Lemma good_to extra k k' st : safe extra k' → c_state k' = st → regular st → ¬ opened st → good env extra k k'.
Proof. intros ? Hst (?&?&?) ?. split; [done|rewrite Hst..]; done. Qed.

Lemma good_trans extra k1 k2 k' : (opened (c_state k2) → opened (c_state k1)) → good env extra k2 k' → good env extra k1 k'.
Proof. intros Ho []. split; [done..| |done]. naive_solver. Qed.

(** ** The connection of the peer *)

Lemma wp_set_peer_cnx cnx clear extra extra' (Q : unit → world S → Prop) E w :
  let w1 := set_peer (clear (set_p_cnxctx (cnx (w_peer w)) (w_peer w))) w in
  safe extra (core_of w) → (conns extra (core_of w) → conns extra' (core_of w)) →
  (c_cnx (core_of w) = None → conns extra' (core_of w1) ∧
     core_of w1 = k_recv (c_recv (core_of w1)) (w_live w) (k_cnx (cnx (w_peer w)) (w_live w) (core_of w))) →
  (∀ w', core_of w' = core_of w1 → is_Some (c_cnx (core_of w1)) → safe extra' (core_of w1) → Q tt w') →
  (∀ e w', c_state (core_of w') = c_state (core_of w) → safe extra' (core_of w') → E e w') →
  wp (set_peer_cnx env cnx clear) Q E w.
Proof.
  intros w1 [Hc Hs] Hd Hw1 HQ HE. apply wp_bind, wp_gets, wp_bind, wp_require.
  2: { intros _. apply HE; [done|]. split; [by apply Hd|done]. }
  rewrite bool_decide_eq_true. intros Hnone. destruct (Hw1 Hnone) as [Hc1 Heq]. fold w1.
  assert (status (core_of w1)) as Hs1.
  { destruct Hs as [H1 H2 H3 H4 H5]. rewrite Heq. split; try done. intros Ho. destruct (H5 Ho) as [? Hx]. cbn in Hx, Hnone. congruence. }
  apply wp_bind, wp_modify, wp_bind, wp_gets. fold w1.
  pose proof (usable_cnx _ _ Hc1) as Hu.
  assert (∀ e w', core_of w' = core_of w1 → E e w') as HE1.
  { intros e w' Hw'. apply HE; rewrite Hw'; [by rewrite Heq|done]. }
  apply wp_bind. destruct (p_cnxctx (w_peer w1)) as [c|] eqn:Hcnx; [|by apply (HE1 EINVAL w1)].
  eapply wp_quiet; [by apply quiet_cnx_result; rewrite <- Hcnx|done|intros _ w2 Hw2|intros; by apply HE1].
  apply wp_bind. eapply wp_quiet; [by apply quiet_cnx_test; rewrite <- Hcnx|done|intros tls w3 Hw3|intros; by apply HE1].
  apply wp_bind. eapply wp_quiet; [by apply keeps_when, quiet_getcred; rewrite <- Hcnx|done|intros _ w4 Hw4|intros; by apply HE1].
  apply wp_bind. eapply wp_quiet; [by apply quiet_getremoteeps; rewrite <- Hcnx|done|intros _ w5 Hw5|intros; by apply HE1].
  apply wp_modify, HQ; [done| |done]. change (is_Some (p_cnxctx (w_peer w1))). by rewrite Hcnx.
Qed.

Lemma wp_receiver_reject c clear m pei (Q : unit → world S → Prop) E w :
  usable (core_of w) c → usable (core_of w) (c_cnx (core_of w)) →
  (∀ w', core_of w' = core_of w →
     let w2 := set_live (w_live w' ∖ list_to_set (option_list c)) w' in Q tt (set_peer (clear (w_peer w2)) w2)) →
  wp (receiver_reject d cfg bo fuel env c clear m pei) Q E w.
Proof.
  intros Hu Hc HQ. apply wp_bind, wp_ignore.
  assert (∀ w', core_of w' = core_of w → wp (fd_cnx_destroy c ;! upd clear) Q E w') as Hend.
  { intros w' Hw'. apply wp_bind, wp_destroy; [by rewrite Hw'|]. by apply wp_modify, HQ. }
  eapply wp_quiet; [|done|intros [] w'; by apply Hend|intros _ w'; by apply Hend].
  apply keeps_bind; [apply quiet_answer_cer|intros m1]. apply keeps_bind; [apply quiet_rescode_set|intros m2].
  apply keeps_bind; [apply keeps_if; [apply quiet_add_origin|apply quiet_add_CEA_info]|intros m3].
  by apply quiet_out_send.
Qed.

(** The label [cleanup], in a state that is not open. *)
Lemma wp_ce_cleanup fatal extra (Q : unit → world S → Prop) E w :
  safe extra (core_of w) → ¬ opened (c_state (core_of w)) →
  (∀ w', c_state (core_of w') = c_state (core_of w) → c_config (core_of w') = c_config (core_of w) → safe extra (core_of w') →
     c_cnx (core_of w') = None → Q tt w') →
  wp (ce_cleanup fatal) Q E w.
Proof.
  intros [Hc Hs] Ho HQ. apply wp_bind. eapply (wp_clear_cnx extra); [done|]. intros w1 Hw1 Hc1.
  assert (is_Some (c_events (core_of w1))) as He by (rewrite Hw1; apply (s_events _ Hs)).
  assert (safe extra (core_of w1)) as Hs1.
  { split; [done|]. rewrite Hw1. by destruct Hs; split. }
  apply wp_event_send; [done|]. intros w2 Hw2. apply HQ; rewrite Hw2; [by rewrite Hw1..| |by rewrite Hw1].
  apply safe_event; [done|by destruct fatal].
Qed.

(** ** A CER is checked *)

Lemma wp_validate l (Q : bool → world S → Prop) E w :
  (∀ b w' cf, core_of w' = k_config cf (core_of w) → Q b w') →
  (∀ e w' cf, core_of w' = k_config cf (core_of w) → E e w') →
  wp (fd_peer_validate l) Q E w.
Proof.
  intros HQ HE.
  assert (∀ w1 cf, core_of w1 = k_config cf (core_of w) → wp (fd_peer_validate l) Q E w1) as Hall; [|by apply (Hall w (c_config (core_of w)))].
  clear -HQ HE. induction l as [|v l IH]; intros w1 cf Hw1; [by eapply (HQ false)|].
  apply wp_bind, wp_modify. set (w2 := set_peer _ w1).
  assert (core_of w2 = k_config (v_config v (c_config (core_of w1))) (core_of w)) as Hw2.
  { transitivity (k_config (v_config v (c_config (core_of w1))) (core_of w1)); [|by rewrite Hw1].
    subst w2. unfold core_of, k_config. cbn. by destruct (v_cb2 v). }
  destruct (v_ret v); [by eapply HE|]. case_decide; [by eapply HQ|]. apply wp_bind, wp_modify.
  eapply IH. transitivity (core_of w2); [done|exact Hw2].
Qed.

(** What is agreed on protects the connection [c]: by itself, by the handshake
    that follows, or by the configuration. *)
Definition agreed (k : core) (isi : Z) (c : nat) : Prop :=
  e_getTLS env c = true ∨ has isi PI_SEC_TLS_OLD = true ∨ has (pic_sec (c_config k)) PI_SEC_NONE = true.

Lemma agree_isi_secure sec isi :
  agree_isi cfg sec isi ≠ 0 → has sec PI_SEC_NONE = true ∨ agree_isi cfg sec isi = PI_SEC_TLS_OLD.
Proof. unfold agree_isi. destruct (has sec PI_SEC_NONE); [by left|]. right. revert H. repeat (case_match; try done). Qed.

Lemma wp_check_isi c (Q : cer_outcome → world S → Prop) E w :
  c_cnx (core_of w) = Some c → usable (core_of w) (Some c) →
  (∀ o w', core_of w' = core_of w → (∀ isi, o = Accept isi → agreed (core_of w) isi c) → Q o w') →
  wp (check_isi cfg env) Q E w.
Proof.
  intros Hc Hu HQ. apply wp_bind, wp_gets. cbn in Hc. cbn [id]. rewrite Hc. apply wp_bind.
  unfold cnx_test. apply wp_bind, wp_bind, wp_gets, wp_assert; [by apply bool_decide_true, Hu|]. apply wp_ret.
  destruct (e_getTLS env c) eqn:Htls; [apply HQ; [done|]; intros; by left|].
  destruct (decide _) as [|Hne]; [by apply HQ|]. apply HQ; [done|]. intros isi [= <-].
  destruct (agree_isi_secure _ _ Hne) as [|Ha]; [by do 2 right|]. right; left. rewrite Ha. done.
Qed.

Lemma wp_check_cer m c (Q : cer_outcome → world S → Prop) E w :
  c_cnx (core_of w) = Some c → usable (core_of w) (Some c) →
  (∀ o w' cf, core_of w' = k_config cf (core_of w) → (∀ isi, o = Accept isi → agreed (core_of w') isi c) → Q o w') →
  (∀ e w' cf, core_of w' = k_config cf (core_of w) → E e w') →
  wp (check_cer d cfg env m) Q E w.
Proof.
  intros Hc Hu HQ HE.
  assert (∀ o w', (∀ isi, o ≠ Accept isi) → core_of w' = core_of w → Q o w') as HQ0.
  { intros o w' Ho Hw'. apply (HQ _ _ (c_config (core_of w))); [done|]. intros isi ->. by destruct (Ho isi). }
  assert (∀ e w', core_of w' = core_of w → E e w') as HE0 by (intros; by eapply (HE _ _ (c_config (core_of w)))).
  apply wp_bind. eapply wp_quiet; [apply quiet_save_remote|done| |done].
  intros [rc|pei] w1 Hw1; [|by apply HQ0]. apply wp_bind, wp_gets. cbn [id].
  destruct (realm_mismatch _); [by apply HQ0|].
  assert (usable (core_of w) (p_cnxctx (w_peer w1))) as Hu1.
  { change (p_cnxctx (w_peer w1)) with (c_cnx (core_of w1)). by rewrite Hw1, Hc. }
  apply wp_bind. eapply wp_quiet; [by apply quiet_cnx_test|done|intros tls w2 Hw2|done].
  apply wp_bind. eapply wp_quiet; [by apply keeps_when, quiet_getcred|done|intros _ w3 Hw3|done].
  assert (∀ b w4 cf, core_of w4 = k_config cf (core_of w) →
    wp (if negb b then refuse false "DIAMETER_UNKNOWN_PEER" else
        let! active := gets w_active in
        if negb (enough_peers cfg env (pi_diamid (w_peer w1)) active) then refuse false "DIAMETER_TOO_BUSY"
        else check_apps cfg env) Q E w4) as Hnext.
  { intros b w4 cf Hw4. assert (∀ o, (∀ isi, o ≠ Accept isi) → Q o w4) as HQ4.
    { intros o Ho. apply (HQ _ _ cf); [done|]. intros isi ->. by destruct (Ho isi). }
    destruct (negb b); [by apply HQ4|]. apply wp_bind, wp_gets.
    destruct (negb (enough_peers _ _ _ _)); [by apply HQ4|]. apply wp_bind, wp_gets.
    destruct (_ && _ && _); [by apply HQ4|]. eapply (wp_check_isi c); [by rewrite Hw4|by rewrite Hw4|].
    intros o w5 Hw5 Ho. apply (HQ _ _ cf); [by rewrite Hw5, Hw4|]. by rewrite Hw5. }
  apply wp_bind. destruct (pf_responder _).
  - eapply wp_validate; intros; [eapply Hnext|eapply HE]; by rewrite <- Hw3.
  - apply wp_ret, (Hnext _ _ (c_config (core_of w))). by rewrite Hw3.
Qed.

(** ** Opening *)

Lemma wp_dw_timeout extra (Q : unit → world S → Prop) E w :
  safe extra (core_of w) →
  (∀ w', same_peer (core_of w) (core_of w') → safe extra (core_of w') →
     c_state (core_of w') = c_state (core_of w) ∨ c_state (core_of w') = STATE_SUSPECT → Q tt w') →
  (∀ e w', core_of w' = core_of w → E e w') →
  wp (fd_p_dw_timeout d cfg bo env) Q E w.
Proof.
  intros Hs HQ HE. apply wp_bind, wp_gets. destruct (pf_dw_pending _).
  - apply wp_bind. eapply wp_change_state; [done|by intros [|[]]|]. intros w1 Hst Hp Hs1. apply wp_modify, HQ; [done..|by right].
  - apply wp_bind. eapply wp_quiet; [apply quiet_send_DWR; eapply usable_cnx, Hs|done|intros _ w1 Hw1|done].
    apply wp_modify. pose proof (HQ w1) as HQ1. rewrite Hw1 in HQ1. apply HQ; try rewrite Hw1; [by rewrite <- Hw1|by rewrite <- Hw1 in Hs|].
    left. by rewrite <- Hw1.
Qed.

(** The connection [c] is that of an open peer. *)
Definition opened_with (extra : list nat) (c : nat) (cf : peer_config) (w' : world S) : Prop :=
  let k' := core_of w' in
  safe extra k' ∧ c_cnx k' = Some c ∧ c_config k' = cf ∧ (opened (c_state k') ∨ c_state k' = STATE_SUSPECT).

Lemma opened_good extra c cf k w' :
  opened_with extra c cf w' → secure env (k_config cf k) c → good env extra k (core_of w').
Proof.
  intros (Hs & Hc & Hcf & Hst) Hsec. split; [done| | |].
  - destruct Hst as [[Hst|[Hst|Hst]]|Hst]; rewrite Hst; done.
  - intros _. right. exists c. split; [done|]. unfold secure in *. by rewrite Hcf.
  - intros Hh. rewrite Hh in Hst. by destruct Hst as [[|[]]|].
Qed.

(** [st] is entered, and what follows leaves the core alone. *)
Lemma wp_open_then st extra c w (m : M unit) :
  safe extra (core_of w) → c_cnx (core_of w) = Some c → opened st →
  (∀ k, usable k (c_cnx k) → quiet k m) →
  let O := opened_with extra c (c_config (core_of w)) in
  wp (ignore (fd_psm_change_state env st) ;! m) (λ _, O) (λ _, O) w.
Proof.
  intros Hs Hc Ho Hm. cbn. apply wp_bind, wp_ignore. eapply wp_change_state; [done|by intros _; rewrite Hc|].
  intros w1 Hst (_ & Hcf & Hcnx & _) Hs1.
  assert (∀ w2, core_of w2 = core_of w1 → opened_with extra c (c_config (core_of w)) w2) as Hend.
  { intros w2 Hw2. unfold opened_with. rewrite Hw2. split_and!; [done|by rewrite Hcnx|done|left; by rewrite Hst]. }
  eapply wp_quiet; [apply Hm; eapply usable_cnx, Hs1|done|intros; by apply Hend|intros; by apply Hend].
Qed.

Lemma quiet_dw_reopen k : usable k (c_cnx k) → quiet k (fd_p_dw_reopen d cfg bo env : M unit).
Proof. intros Hu. unfold fd_p_dw_reopen. apply keeps_bind; [by apply quiet_upd|]. intros _. by apply quiet_send_DWR. Qed.

Lemma wp_initiator_open extra c w :
  safe extra (core_of w) → c_cnx (core_of w) = Some c →
  let O := opened_with extra c (c_config (core_of w)) in
  wp (initiator_open d cfg bo env) (λ _, O) (λ _, O) w.
Proof.
  intros Hs Hc. cbn. apply wp_bind, wp_gets. destruct (pf_cnx_pb _); apply wp_open_then; try done.
  - by do 2 right.
  - intros k. apply quiet_dw_reopen.
  - by left.
  - intros k _. apply quiet_next_watchdog.
Qed.

Lemma wp_receiver_open tls_sync extra c w :
  safe extra (core_of w) → c_cnx (core_of w) = Some c →
  let O := opened_with extra c (c_config (core_of w)) in
  wp (receiver_open d cfg bo env tls_sync) (λ _, O) (λ _, O) w.
Proof.
  intros Hs Hc O. apply wp_bind, wp_gets. cbn [id]. destruct (pf_cnx_pb _).
  { apply wp_open_then; [done..|by do 2 right|]. intros k. apply quiet_dw_reopen. }
  apply wp_bind, wp_cnx_test; [exact (usable_cnx _ _ (proj1 Hs))|]. destruct (_ && _).
  - apply wp_bind, wp_ignore. eapply (wp_change_state _ _ extra); [done|by intros _; rewrite Hc|].
    intros w2 Hst (_ & Hcf & Hcnx & _) Hs2.
    eapply wp_dw_timeout; [done|..].
    + intros w3 (_ & Hcf3 & Hcnx3 & _) Hs3 Hst3. split_and!; [done|by rewrite Hcnx3, Hcnx|by rewrite Hcf3, Hcf|].
      rewrite Hst in Hst3. destruct Hst3 as [->| ->]; [left; by right; left|by right].
    + intros e w3 Hw3. unfold O, opened_with. rewrite Hw3. split_and!; [done|by rewrite Hcnx|done|].
      left. rewrite Hst. by right; left.
  - apply wp_open_then; [done..|by left|]. intros k _. apply quiet_next_watchdog.
Qed.

(** ** The receiver side *)

(** The state in which the connection is when its fate is decided. *)
Definition waits (w : world S) (st : peer_state) (extra : list nat) (c : nat) (cf : peer_config) : Prop :=
  let k := core_of w in safe extra k ∧ c_state k = st ∧ c_cnx k = Some c ∧ c_config k = cf.

Lemma wp_receiver_handshake extra c (Q : handshake_outcome → world S → Prop) E w :
  safe extra (core_of w) → c_cnx (core_of w) = Some c →
  let cf := c_config (core_of w) in
  (∀ w', waits w' STATE_OPEN_HANDSHAKE extra c cf → e_handshake env c = None → Q (Open true) w') →
  (∀ o w', waits w' STATE_OPEN_HANDSHAKE extra c cf → (∀ b, o ≠ Open b) → inband_failed env (core_of w') → Q o w') →
  wp (receiver_handshake env (Some c)) Q E w.
Proof.
  intros Hs Hc cf HO HQ. apply wp_bind, wp_ignore. eapply wp_change_state; [done|by intros [|[]]|].
  intros w1 Hst (_ & Hcf & Hcnx & _) Hs1.
  assert (∀ w2, core_of w2 = core_of w1 → waits w2 STATE_OPEN_HANDSHAKE extra c cf) as Hw.
  { intros w2 Hw2. unfold waits. rewrite Hw2. split_and!; [done..|by rewrite Hcnx|done]. }
  assert (usable (core_of w1) (Some c)) as Hu by (rewrite <- Hc, <- Hcnx; exact (usable_cnx _ _ (proj1 Hs1))).
  apply wp_bind, wp_succeeds, wp_bind.
  unfold cnx_result, cnx_call at 1. apply wp_bind, wp_bind, wp_gets, wp_assert; [by apply bool_decide_true, Hu|].
  destruct (e_handshake env c) as [e|] eqn:Hh.
  { apply wp_fail, wp_ret, HQ; [by apply Hw|done|]. right; left. exists c. left. by rewrite Hh. }
  apply wp_ret. unfold fd_cnx_getcred, cnx_result, cnx_call.
  apply wp_bind, wp_bind, wp_bind, wp_gets, wp_assert; [by apply bool_decide_true, Hu|].
  destruct (e_getcred env c) as [e|] eqn:Hg.
  { apply wp_fail, wp_ret, HQ; [by apply Hw|done|]. right; left. exists c. right. by rewrite Hg. }
  apply wp_ret, wp_modify, wp_bind, wp_gets.
  match goal with |- wp _ _ _ ?w => set (w2 := w) end. assert (core_of w2 = core_of w1) as Hw2 by done.
  destruct (p_cb2 _); [|by apply HO; [apply Hw|]]. destruct (e_cb2 env) eqn:Hcb; [|by apply HO; [apply Hw|]].
  apply wp_bind, wp_bind, wp_gets, wp_when; [|intros Hb; change (p_state (w_peer w2)) with (c_state (core_of w2)) in Hb; by rewrite Hw2, Hst in Hb].
  intros _. apply wp_event_send; [by rewrite Hw2; apply (s_events _ (proj2 Hs1))|]. intros w3 Hw3. rewrite Hw2 in Hw3. apply wp_ret, HQ; [|done|].
  - unfold waits. rewrite Hw3. split_and!; [by apply safe_event|done|by rewrite <- Hc, <- Hcnx|done].
  - do 2 right. by rewrite Hcb.
Qed.

Lemma wp_accept_cer m isi extra c (Q : handshake_outcome → world S → Prop) E w :
  safe extra (core_of w) → c_cnx (core_of w) = Some c → agreed (core_of w) isi c →
  let cf := c_config (core_of w) in
  (∀ b w', waits w' (c_state (core_of w')) extra c cf → secure env (core_of w) c → Q (Open b) w') →
  (∀ o w', waits w' STATE_OPEN_HANDSHAKE extra c cf → (∀ b, o ≠ Open b) → inband_failed env (core_of w') → Q o w') →
  (∀ e w', core_of w' = core_of w → E e w') →
  wp (accept_cer d cfg bo fuel env m isi) Q E w.
Proof.
  intros Hs Hc Hag cf HO HQ HE. pose proof (usable_cnx _ _ (proj1 Hs)) as Hu.
  apply wp_bind. eapply wp_quiet; [apply quiet_answer_cer|done|intros m1 w1 Hw1|done].
  apply wp_bind. eapply wp_quiet; [apply quiet_rescode_set|done|intros m2 w2 Hw2|done].
  apply wp_bind. eapply wp_quiet; [apply quiet_add_CEA_info|done|intros m3 w3 Hw3|done].
  apply wp_bind, wp_gets. assert (p_cnxctx (w_peer w3) = Some c) as -> by (change (c_cnx (core_of w3) = Some c); by rewrite Hw3).
  rewrite Hc in Hu. apply wp_bind. eapply wp_quiet; [apply quiet_out_send; by rewrite ?Hc|done|intros _ w4 Hw4|done].
  destruct (has isi PI_SEC_TLS_OLD) eqn:Hisi.
  - eapply (wp_receiver_handshake extra); rewrite Hw4; [done..| |].
    + intros w5 Hw5 Hh. apply HO; [|by right; left]. destruct Hw5 as (H1 & H2 & H3 & H4). by split_and!.
    + intros o w5. apply HQ.
  - apply wp_bind, wp_cnx_test; [by rewrite Hw4|].
    assert (∀ w5, core_of w5 = core_of w → waits w5 (c_state (core_of w5)) extra c cf) as Hw.
    { intros w5 Hw5. unfold waits. by rewrite Hw5. }
    assert (secure env (core_of w) c) as Hsec.
    { destruct Hag as [|[|]]; [by left|congruence|by do 2 right]. }
    apply wp_bind. eapply wp_quiet; [by apply keeps_when, quiet_cnx_result|done|intros _ w5 Hw5|done].
    apply wp_ret, HO; auto.
Qed.

Lemma wp_process_receiver extra w :
  let k := core_of w in
  safe extra k → regular (c_state k) → ¬ opened (c_state k) →
  wp (fd_p_ce_process_receiver d cfg bo fuel env) (λ _ w', good env extra k (core_of w')) (λ _ w', good env extra k (core_of w')) w.
Proof.
  intros k Hs Hreg Hno. apply wp_bind. eapply (wp_set_peer_cnx _ _ extra extra); [done|done| | |].
  { cbn. intros Hnone. split; [|by rewrite <- Hnone]. eapply conns_same; [apply Hs| |done].
    unfold owned. cbn. rewrite Hnone. cbn. solve_Permutation. }
  2: { intros e w' Hst Hs'. by apply good_same. }
  cbv zeta. set (wc := set_peer _ w). intros w1 Hw1 [c Hc] Hsc.
  assert (c_state (core_of w1) = c_state k) as Hst1 by by rewrite Hw1.
  rewrite <- Hw1 in *. clear wc Hw1.
  assert (∀ w2, safe extra (core_of w2) → c_state (core_of w2) = c_state k → good env extra k (core_of w2)) as Hend.
  { intros. by apply good_same. }
  apply wp_bind, wp_gets, wp_bind, wp_modify. set (w2 := set_peer _ w1). assert (core_of w2 = core_of w1) as Hw2 by done.
  pose proof (usable_cnx _ _ (proj1 Hsc)) as Hu. rewrite Hc in Hu.
  assert (∀ w3 cf, core_of w3 = k_config cf (core_of w1) → safe extra (core_of w3)) as Hs3.
  { intros w3 cf ->. destruct Hsc as [[] []]. by split; split. }
  apply wp_bind. eapply (wp_check_cer _ c); rewrite ?Hw2; [done..| |].
  2: { intros e w3 cf Hw3. apply Hend; [by eapply Hs3|by rewrite Hw3]. }
  intros o w3 cf Hw3 Ho. pose proof (Hs3 _ _ Hw3) as Hsafe3.
  assert (c_cnx (core_of w3) = Some c) as Hc3 by by rewrite Hw3. 
  assert (c_state (core_of w3) = c_state k) as Hst3 by by rewrite Hw3.
  clear Hw3 Hs3. destruct o as [fatal pei|isi].
  - apply wp_bind, wp_gets. change (p_cnxctx (w_peer w3)) with (c_cnx (core_of w3)). rewrite Hc3. apply wp_bind.
    assert (∀ w4, safe extra (core_of w4) → c_state (core_of w4) = c_state k → wp (ce_cleanup fatal)
      (λ _ w', good env extra k (core_of w')) (λ _ w', good env extra k (core_of w')) w4) as Hcl.
    { intros w4 Hs4 Hst4. eapply wp_ce_cleanup; [done|by rewrite Hst4|]. intros w5 Hst5 _ Hs5 _. apply Hend; [done|by rewrite Hst5]. }
    destruct pei as [pei|]; [|by apply wp_ret, Hcl].
    pose proof (usable_cnx _ _ (proj1 Hsafe3)) as Hu3. rewrite Hc3 in Hu3.
    apply wp_receiver_reject; [done|by rewrite Hc3|]. intros w4 Hw4. cbv zeta. apply Hcl; [|by rewrite <- Hst3, <- Hw4].
    rewrite <- Hw4 in *. split.
    + eapply (conns_shrink _ _ _ _ [c]); [apply Hsafe3| |done]. unfold owned. rewrite Hc3. cbn. solve_Permutation.
    + destruct Hsafe3 as [_ [H1 H2 H3 H4 H5]]. split; try done. intros Hop. destruct Hno. by rewrite <- Hst3.
  - apply wp_bind. eapply wp_accept_cer; [done..|by apply Ho| | |].
    + intros b w4 (Hs4 & _ & Hc4 & Hcf4) Hsec. eapply wp_mono; [by eapply wp_receiver_open|..]; intros ? w5 Hw5;
      (eapply opened_good; [exact Hw5|]; unfold secure in *; cbn [c_config k_config]; rewrite Hcf4; exact Hsec).
    + intros o w4 (Hs4 & Hst4 & Hc4 & Hcf4) Hno4 Hf.
      assert (∀ w5, safe extra (core_of w5) → c_state (core_of w5) = STATE_OPEN_HANDSHAKE → inband_failed env (core_of w5) →
        good env extra k (core_of w5)) as Hh.
      { intros w5 Hs5 Hst5 Hf5. split; [done|by rewrite Hst5|by rewrite Hst5; intros [|[]]|done]. }
      destruct o as [b| |]; [by destruct (Hno4 b)| |by apply wp_ret, Hh].
      eapply wp_ce_cleanup; [done|by rewrite Hst4; intros [|[]]|].
      intros w5 Hst5 _ Hs5 Hc5. apply Hh; [done|by rewrite Hst5|by left].
    + intros e w4 Hw4. apply Hend; by rewrite Hw4.
Qed.

(** ** The connections that come with an event *)

Lemma conns_forget c extra k : conns (c :: extra) k → conns extra k.
Proof. intros Hc. by apply (conns_drop [c] _ _ _ _ Hc). Qed.
Lemma safe_forget c extra k : safe (c :: extra) k → safe extra k.
Proof. intros [Hc Hs]. split; [by eapply conns_forget|done]. Qed.

Lemma wp_to_waitcea c extra k w :
  safe (c :: extra) (core_of w) → c_state (core_of w) = c_state k → regular (c_state k) → ¬ opened (c_state k) →
  wp (to_waitcea env c) (λ _ w', good env extra k (core_of w')) (λ _ w', good env extra k (core_of w')) w.
Proof.
  intros Hs Hst Hreg Hno. apply wp_bind. eapply (wp_set_peer_cnx _ _ (c :: extra) extra); [done|apply conns_forget| | |].
  - cbn. intros Hnone. split; [|done]. eapply conns_same; [apply Hs| |done]. unfold owned. cbn. rewrite Hnone. cbn. solve_Permutation.
  - cbv zeta. set (wc := set_peer _ w). intros w1 Hw1 _ Hsc. apply wp_bind. rewrite <- Hw1 in Hsc.
    eapply wp_change_state; [done|by intros [|[]]|]. intros w2 Hst2 _ Hs2. apply wp_modify.
    eapply (good_to _ _ _ STATE_WAITCEA); [exact Hs2|exact Hst2|done|by intros [|[]]].
  - intros e w' Hst' Hs'. apply good_same; [done..|by rewrite Hst'].
Qed.

(** A connection that the event holds is destroyed. *)
Lemma safe_destroy c extra w : safe (c :: extra) (core_of w) → safe extra (core_of (set_live (w_live w ∖ list_to_set (option_list (Some c))) w)).
Proof.
  intros [Hc Hs]. split; [|by destruct Hs; split]. eapply (conns_shrink _ _ _ _ [c]); [done| |done]. done.
Qed.

Lemma wp_handle_newcnx c extra w :
  let k := core_of w in
  safe (c :: extra) k → regular (c_state k) → ¬ opened (c_state k) →
  wp (fd_p_ce_handle_newcnx d cfg bo fuel env c) (λ _ w', good env extra k (core_of w')) (λ _ w', good env extra k (core_of w')) w.
Proof.
  intros k Hs Hreg Hno. pose proof (usable_extra _ _ _ (proj1 Hs)) as Hu. pose proof (usable_cnx _ _ (proj1 Hs)) as Huc.
  assert (∀ w', core_of w' = k → good env extra k (core_of w')) as Hsame.
  { intros w' Hw'. apply good_same; [done|rewrite Hw'; by eapply safe_forget|by rewrite Hw']. }
  apply wp_bind. eapply wp_quiet; [apply quiet_create_CER; by apply Hu|done|intros cer w1 Hw1|intros; by apply Hsame].
  apply wp_bind. eapply wp_quiet; [by apply quiet_out_send|done|intros _ w2 Hw2|intros; by apply Hsame].
  apply wp_bind, wp_gets. cbn [id].
  assert (p_state (w_peer w2) = c_state k) as Hst by (change (c_state (core_of w2) = c_state k); by rewrite Hw2).
  case_decide as Hel; [|by eapply wp_to_waitcea; rewrite ?Hw2].
  destruct (election cfg _).
  - apply wp_bind, wp_destroy; [by rewrite Hw2|]. rewrite <- Hw2 in Hs. apply safe_destroy in Hs.
    set (w3 := set_live _ w2) in *. assert (c_state (core_of w3) = c_state k) as Hst3 by done.
    eapply wp_mono; [eapply wp_process_receiver; [done|by rewrite Hst3..]|..]; intros ? w4; apply good_trans; by rewrite Hst3.
  - apply wp_bind, wp_receiver_reject; [rewrite Hw2; change (p_receiver (w_peer w2)) with (c_recv (core_of w2)); rewrite Hw2; exact (usable_recv _ _ (proj1 Hs))|by rewrite Hw2|].
    intros w3 Hw3. cbv zeta. rewrite Hw2 in Hw3. apply wp_to_waitcea; [|by rewrite <- Hw3|done..].
    change (p_receiver (w_peer w2)) with (c_recv (core_of w2)). rewrite Hw2.
    rewrite <- Hw3 in Hs. destruct Hs as [Hc1 Hs1]. split; [|by destruct Hs1; split].
    eapply (conns_shrink _ _ _ _ (option_list (c_recv k))); [exact Hc1| |done]. unfold owned. rewrite <- Hw3. cbn. solve_Permutation.
Qed.

Lemma wp_handle_newCER cer c w :
  let k := core_of w in
  safe [c] k → regular (c_state k) →
  wp (fd_p_ce_handle_newCER d cfg bo fuel env cer c) (λ _ w', good env [] k (core_of w')) (λ _ w', good env [] k (core_of w')) w.
Proof.
  intros k Hs Hreg. pose proof (usable_extra _ _ _ (proj1 Hs)) as Hu. pose proof (usable_cnx _ _ (proj1 Hs)) as Huc.
  apply wp_bind, wp_gets. cbn [id].
  assert (∀ pei, wp (receiver_reject d cfg bo fuel env (Some c) id (Some cer) pei)
    (λ _ w', good env [] k (core_of w')) (λ _ w', good env [] k (core_of w')) w) as Hrej.
  { intros pei. apply wp_receiver_reject; [done..|]. intros w1 Hw1. cbv zeta. cbn [id]. set (w2 := set_live _ w1).
    assert (core_of (set_peer (w_peer w2) w2) = core_of w2) as -> by done.
    apply good_same; [done|subst w2; apply safe_destroy; by rewrite Hw1|]. change (c_state (core_of w1) = c_state k). by rewrite Hw1. }
  assert (∀ w1, safe [c] (core_of w1) → c_state (core_of w1) = c_state k →
    let w2 := set_peer (set_p_cer (Some cer) (set_p_receiver (Some c) (w_peer w1))) w1 in
    safe [] (core_of w2) ∧ c_state (core_of w2) = c_state k) as Hset.
  { intros w1 [Hc1 Hs1] Hst1. cbv zeta. split; [|by rewrite <- Hst1]. split; [|by destruct Hs1; split].
    apply (conns_drop (option_list (p_receiver (w_peer w1))) _ _ _ _ Hc1); [|done]. unfold owned. cbn. solve_Permutation. }
  assert (∀ w1, ¬ opened (c_state k) → safe [c] (core_of w1) → c_state (core_of w1) = c_state k →
    wp (set_receiver cer c ;! fd_p_ce_process_receiver d cfg bo fuel env)
      (λ _ w', good env [] k (core_of w')) (λ _ w', good env [] k (core_of w')) w1) as Hproc.
  { intros w1 Hno Hs1 Hst1. destruct (Hset w1 Hs1 Hst1) as [Hs2 Hst2]. apply wp_bind, wp_modify.
    eapply wp_mono; [apply (wp_process_receiver []); [done|by rewrite Hst2..]|..]; intros ? w3; apply good_trans; by rewrite Hst2. }
  assert (c_state k = p_state (w_peer w)) as Hst by done.
  destruct (p_state (w_peer w)) eqn:Hp; try apply Hrej.
  - apply Hproc; [rewrite Hst; by intros [|[]]|done..].
  - destruct (Hset w Hs eq_refl) as [Hs2 Hst2]. apply wp_bind, wp_modify.
    eapply wp_change_state; [exact Hs2|by intros [|[]]|]. intros w3 Hst3 _ Hs3.
    eapply (good_to _ _ _ STATE_WAITCNXACK_ELEC); [done..|by intros [|[]]].
  - destruct (election cfg _); [|apply Hrej].
    apply wp_bind. eapply (wp_clear_cnx [c]); [apply Hs|]. intros w1 Hw1 Hc1. apply Hproc; [rewrite Hst; by intros [|[]]| |by rewrite Hw1].
    split; [done|]. rewrite Hw1. destruct Hs as [_ [H1 H2 H3 H4 H5]]. split; try done. fold k. cbn [c_state k_cnx]. fold k. rewrite Hst. by intros [|[]].
Qed.

(** ** The initiator side *)

(** The connection cannot be used: nothing has changed, or the in-band handshake
    has failed. *)
Definition unprotected (extra : list nat) (k : core) (w' : world S) : Prop :=
  let k' := core_of w' in
  safe extra k' ∧ (c_state k' = c_state k ∨ c_state k' = STATE_OPEN_HANDSHAKE ∧ inband_failed env k').

Lemma unprotected_good extra k w' : regular (c_state k) → unprotected extra k w' → good env extra k (core_of w').
Proof.
  intros Hreg [Hs [Hst|[Hst Hf]]]; [by apply good_same|]. split; [done|by rewrite Hst|by rewrite Hst; intros [|[]]|done].
Qed.

Lemma todo_none sec isi :
  (if decide (isi = 0) then sec else Z.land sec isi) = PI_SEC_NONE → has sec PI_SEC_NONE = true.
Proof.
  unfold has. rewrite bool_decide_eq_true. case_decide as Hi; [by intros ->|]. intros Hl Hz.
  assert (Z.testbit (Z.land sec isi) 0 = true) as Hb by by rewrite Hl.
  rewrite Z.land_spec in Hb. apply andb_true_iff in Hb as [Hb _].
  assert (Z.testbit (Z.land sec PI_SEC_NONE) 0 = true) as Hb' by by rewrite Z.land_spec, Hb. by rewrite Hz in Hb'.
Qed.

Lemma wp_initiator_security extra (Q : bool → world S → Prop) E w :
  let k := core_of w in
  safe extra k →
  (∀ c w', waits w' (c_state (core_of w')) extra c (c_config k) → secure env k c → Q true w') →
  (∀ w', unprotected extra k w' → Q false w') → (∀ e w', unprotected extra k w' → E e w') →
  wp (initiator_security cfg env) Q E w.
Proof.
  intros k Hs HQ HF HE. pose proof (usable_cnx _ _ (proj1 Hs)) as Hu.
  assert (∀ e w', core_of w' = k → E e w') as HE0.
  { intros e w' Hw'. apply HE. split; rewrite Hw'; [done|by left]. }
  assert (∀ w' c, core_of w' = k → c_cnx k = Some c → waits w' (c_state (core_of w')) extra c (c_config k)) as Hwt.
  { intros w' c Hw' Hc. unfold waits. by rewrite Hw'. }
  apply wp_bind, wp_gets, wp_bind, wp_cnx_test; [done|]. cbn [id].
  change (p_cnxctx (w_peer w)) with (c_cnx k). destruct (c_cnx k) as [c|] eqn:Hc.
  2: { cbn iota. destruct (decide (_ = PI_SEC_NONE)); [by apply wp_bind, HE0|].
       destruct (cnf_tls_disabled cfg); [apply wp_ret, HF; split; [done|by left]|].
       apply wp_bind, wp_ignore. eapply wp_change_state; [done|by intros [|[]]|].
       intros w1 Hst (_ & _ & Hcnx & _) Hs1. apply wp_bind, wp_succeeds, wp_ret, HF.
       split; [done|]. right. split; [done|]. left. rewrite Hcnx. exact Hc. }
  destruct (e_getTLS env c) eqn:Ht; [by apply wp_ret, (HQ c); [apply Hwt|left]|].
  destruct (decide (_ = PI_SEC_NONE)) as [Hsec|_].
  { apply wp_bind. eapply wp_quiet; [by apply quiet_cnx_result|done|intros _ w1 Hw1|intros; by apply HE0].
    apply wp_ret, (HQ c); [by apply Hwt|]. do 2 right. by apply todo_none in Hsec. }
  destruct (cnf_tls_disabled cfg); [apply wp_ret, HF; split; [done|by left]|].
  apply wp_bind, wp_ignore. eapply wp_change_state; [done|by intros [|[]]|].
  intros w1 Hst (_ & Hcf & Hcnx & _) Hs1. fold k in Hcf, Hcnx. rewrite Hc in Hcnx.
  pose proof (usable_cnx _ _ (proj1 Hs1)) as Hu1. rewrite Hcnx in Hu1.
  apply wp_bind, wp_succeeds. unfold cnx_result, cnx_call at 1. apply wp_bind, wp_bind, wp_gets, wp_assert; [by apply bool_decide_true, Hu1|].
  destruct (e_handshake env c) as [e|] eqn:Hh.
  { apply wp_fail, wp_ret, HF. split; [done|]. right. split; [done|]. right; left. exists c. left. by rewrite Hh. }
  apply wp_ret, wp_bind. unfold fd_cnx_getcred, cnx_result, cnx_call.
  apply wp_bind, wp_bind, wp_bind, wp_gets, wp_assert; [by apply bool_decide_true, Hu1|].
  destruct (e_getcred env c) as [e|] eqn:Hg.
  { apply wp_fail, HE. split; [done|]. right. split; [done|]. right; left. exists c. right. by rewrite Hg. }
  apply wp_ret, wp_modify, wp_ret, (HQ c); [by split_and!|by right; left].
Qed.

Lemma wp_handle_CEA m extra w :
  let k := core_of w in
  safe extra k → regular (c_state k) → ¬ opened (c_state k) →
  wp (handle_CEA d cfg bo env m) (λ _ w', good env extra k (core_of w')) (λ _ w', good env extra k (core_of w')) w.
Proof.
  intros k Hs Hreg Hno. assert (core_of w = k) as Hk by done. clearbody k.
  assert (∀ w', core_of w' = k → good env extra k (core_of w')) as Hsame by (intros w' ->; by apply good_same).
  apply wp_bind. eapply (wp_quiet k); [apply quiet_save_remote|exact Hk| |intros; by apply Hsame].
  clear w Hk. intros [rc|pei] w Hk; subst k; set (k := core_of w) in *.
  2: { eapply wp_ce_cleanup; [done..|]. intros w2 Hst2 _ Hs2 _. by apply good_same. }
  destruct (decide (rc = _)).
  { apply wp_bind. eapply (wp_initiator_security extra); [done|..].
    - intros c w2 (Hs2 & _ & Hc2 & Hcf2) Hsec.
      eapply wp_mono; [by eapply wp_initiator_open|..]; intros ? w3 Hw3;
      (eapply opened_good; [exact Hw3|]; unfold secure in *; cbn [c_config k_config]; rewrite Hcf2; exact Hsec).
    - intros w2 [Hs2 Hst2]. eapply wp_ce_cleanup; [done|destruct Hst2 as [->|[-> _]]; [done|by intros [|[]]]|].
      intros w3 Hst3 _ Hs3 Hc3. apply unprotected_good; [done|]. split; [done|].
      destruct Hst2 as [Hst2|[Hst2 _]]; rewrite Hst3; [by left|right]. split; [done|by left].
    - intros ? w2. by apply unprotected_good. }
  destruct (decide (rc = _)).
  { apply wp_bind. eapply wp_cleanup_false; [done|apply Hreg|]. intros w2 (_ & _ & _ & _ & Hst2) Hs2. apply wp_modify.
    eapply (good_to _ _ _ STATE_CLOSED); [exact Hs2|exact Hst2|done|by intros [|[]]]. }
  destruct (decide (rc = _)); [by apply wp_ret, Hsame|by apply wp_fail, Hsame].
Qed.

Lemma wp_ce_msgrcv m req w :
  let k := core_of w in
  safe [] k → regular (c_state k) →
  wp (fd_p_ce_msgrcv d cfg bo fuel env m req) (λ _ w', good env [] k (core_of w')) (λ _ w', good env [] k (core_of w')) w.
Proof.
  intros k Hs Hreg.
  assert (∀ w', core_of w' = k → good env [] k (core_of w')) as Hsame by (intros w' ->; by apply good_same).
  destruct req.
  - eapply (wp_quiet k); [|done|intros; by apply Hsame..]. pose proof (usable_cnx _ _ (proj1 Hs)).
    apply keeps_bind; [apply quiet_answer|intros]. apply keeps_bind; [apply quiet_rescode_set|intros]. apply keeps_ignore. by apply quiet_out_send.
  - apply wp_bind, wp_gets, wp_when; [|intros _; by apply Hsame]. rewrite bool_decide_eq_true. intros Hst.
    apply wp_handle_CEA; [done..|]. fold k. change (p_state (w_peer w)) with (c_state k) in Hst. rewrite Hst. by intros [|[]].
Qed.

(** ** Watchdogs and disconnections *)

Lemma good_change st extra k w (m : M unit) :
  safe extra (core_of w) → c_state (core_of w) = c_state k → regular st → (opened st → opened (c_state k)) →
  (∀ k, usable k (c_cnx k) → quiet k m) →
  wp (fd_psm_change_state env st ;! m) (λ _ w', good env extra k (core_of w')) (λ _ w', good env extra k (core_of w')) w.
Proof.
  intros Hs Hst Hreg Ho Hm.
  apply wp_bind. eapply wp_change_state; [done|intros H; apply (s_open _ (proj2 Hs)); rewrite Hst; by apply Ho|].
  intros w1 Hst1 _ Hs1.
  assert (∀ w2, core_of w2 = core_of w1 → good env extra k (core_of w2)) as Hend.
  { intros w2 ->. destruct Hreg as (?&?&?). split; [done|rewrite Hst1..]; [done|by left; auto|done]. }
  eapply wp_quiet; [apply Hm; exact (usable_cnx _ _ (proj1 Hs1))|done|intros; by apply Hend..].
Qed.

Lemma wp_dw_handle m req extra w :
  let k := core_of w in
  safe extra k → regular (c_state k) →
  wp (fd_p_dw_handle d cfg bo fuel env m req) (λ _ w', good env extra k (core_of w')) (λ _ w', good env extra k (core_of w')) w.
Proof.
  intros k Hs Hreg. pose proof (usable_cnx _ _ (proj1 Hs)) as Hu. assert (core_of w = k) as Hk by done. clearbody k.
  assert (∀ w', core_of w' = k → good env extra k (core_of w')) as Hsame by (intros w' ->; by apply good_same).
  apply wp_bind. eapply (wp_quiet k); [apply quiet_check_state_id|done|intros m1 w1 Hw1|intros; by apply Hsame].
  apply wp_bind. eapply (wp_quiet k); [|done|intros _ w2 Hw2|intros; by apply Hsame].
  { destruct req; quiet_tac. apply quiet_out_send; [|done].
    match goal with H : core_of ?w = k |- usable k (p_cnxctx (w_peer ?w)) => change (usable k (c_cnx (core_of w))); by rewrite H end. }
  apply wp_bind, wp_gets, wp_bind. eapply (wp_quiet k); [by apply keeps_when, quiet_next_timeout|done|intros _ w3 Hw3|intros; by apply Hsame].
  apply wp_bind, wp_gets. destruct (decide _) as [Hre|]; [|by apply wp_ret, Hsame].
  assert (c_state k = STATE_REOPEN) as Hst by by rewrite <- Hw3.
  apply wp_bind, wp_modify. set (w4 := set_peer _ w3). assert (core_of w4 = k) as Hw4 by done.
  destruct (decide (_ ≠ 0)); [eapply wp_quiet; [by apply quiet_send_DWR|done|intros; by apply Hsame..]|].
  eapply wp_change_state; [by rewrite Hw4|intros _; rewrite Hw4; apply (s_open _ (proj2 Hs)); rewrite Hst; by do 2 right|].
  intros w5 Hst5 _ Hs5. split; [done|rewrite Hst5..]; [done|left; rewrite Hst; by do 2 right|done].
Qed.

Lemma wp_dp_handle m req extra w :
  let k := core_of w in
  safe extra k → regular (c_state k) →
  wp (fd_p_dp_handle d cfg bo fuel env m req) (λ _ w', good env extra k (core_of w')) (λ _ w', good env extra k (core_of w')) w.
Proof.
  intros k Hs Hreg. assert (core_of w = k) as Hk by done. clearbody k.
  assert (∀ w', core_of w' = k → good env extra k (core_of w')) as Hsame by (intros w' ->; by apply good_same).
  destruct req.
  - apply wp_bind. eapply (wp_quiet k); [by apply keeps_lift|done|intros [dc m1] w1 Hw1|intros; by apply Hsame].
    apply wp_bind. eapply (wp_quiet k); [destruct dc; quiet_tac|done|intros _ w2 Hw2|intros; by apply Hsame].
    apply wp_bind. eapply (wp_quiet k); [apply quiet_answer|done|intros m2 w3 Hw3|intros; by apply Hsame].
    apply wp_bind. eapply (wp_quiet k); [apply quiet_rescode_set|done|intros m3 w4 Hw4|intros; by apply Hsame].
    apply wp_bind, wp_gets. cbn [fd_peer_get_load_pending]. destruct (decide _).
    + apply wp_bind. eapply wp_change_state; [by rewrite Hw4|by intros [|[]]|]. intros w5 Hst5 _ Hs5.
      assert (∀ w', core_of w' = core_of w5 → good env extra k (core_of w')) as Hsame5.
      { intros w' ->. eapply (good_to _ _ _ STATE_CLOSING); [exact Hs5|exact Hst5|done|by intros [|[]]]. }
      pose proof (usable_cnx _ _ (proj1 Hs5)).
      apply wp_bind. eapply wp_quiet; [by apply quiet_out_send|done|intros _ w6 Hw6|intros; by apply Hsame5].
      apply wp_bind. eapply (wp_cleanup_false _ extra); [by rewrite Hw6|by rewrite Hw6, Hst5|].
      intros w7 (_ & _ & _ & _ & Hst7) Hs7. apply wp_bind, wp_gets, wp_modify.
      eapply (good_to _ _ _ STATE_CLOSED); [exact Hs7|exact Hst7|done|by intros [|[]]].
    + apply good_change; [by rewrite Hw4|by rewrite Hw4|done|by intros [|[]]|].
      intros k' Hu. apply keeps_bind; [apply quiet_next_timeout|intros _]. by apply quiet_out_send.
  - apply wp_bind, wp_gets. cbn [fd_peer_get_load_pending]. destruct (decide _).
    + apply wp_bind, wp_modify, wp_modify, Hsame. done.
    + eapply wp_change_state; [by rewrite Hk|by intros [|[]]|]. intros w5 Hst5 _ Hs5.
      eapply (good_to _ _ _ STATE_CLOSING); [exact Hs5|exact Hst5|done|by intros [|[]]].
Qed.

Lemma wp_dp_initiate reason extra w :
  let k := core_of w in
  safe extra k → regular (c_state k) →
  wp (fd_p_dp_initiate d cfg bo env reason) (λ _ w', good env extra k (core_of w')) (λ _ w', good env extra k (core_of w')) w.
Proof.
  intros k Hs Hreg. assert (core_of w = k) as Hk by done. clearbody k.
  assert (∀ w', core_of w' = k → good env extra k (core_of w')) as Hsame by (intros w' ->; by apply good_same).
  apply wp_bind. eapply (wp_quiet k); [apply quiet_new_request|done|intros m1 w1 Hw1|intros; by apply Hsame].
  apply wp_bind. eapply (wp_quiet k); [apply quiet_add_origin|done|intros m2 w2 Hw2|intros; by apply Hsame].
  apply wp_bind. eapply (wp_quiet k); [by apply keeps_lift|done|intros v w3 Hw3|intros; by apply Hsame].
  apply wp_bind. eapply (wp_quiet k); [by apply keeps_lift|done|intros m3 w4 Hw4|intros; by apply Hsame].
  apply wp_bind, wp_modify. set (w5 := set_peer _ w4). assert (core_of w5 = k) as Hw5 by done.
  apply good_change; [by rewrite Hw5|by rewrite Hw5|done|by intros [|[]]|].
  intros k' Hu. apply keeps_bind; [apply quiet_next_timeout|intros _]. apply keeps_ignore. by apply quiet_out_send.
Qed.

(** ** The events *)

(** A handler: it never fails, and leaves a good core. *)
Definition handles (k : core) (m : M label) (w : world S) : Prop :=
  wp m (λ _ w', good env [] k (core_of w')) (λ _ _, False) w.

Lemma wp_attempt {A} (m : M A) (Q : option A → world S → Prop) E w :
  wp m (λ a, Q (Some a)) (λ _, Q None) w → wp (attempt m) Q E w.
Proof. unfold wp, attempt, catch, bind, ret. by destruct (m w). Qed.

Lemma wp_or_goto m l (kont : M label) (Q : label → world S → Prop) E w :
  wp m (λ _, wp kont Q E) (λ _, Q l) w → wp (or_goto m l kont) Q E w.
Proof. intros H. by apply wp_bind, wp_succeeds. Qed.

(** The call may fail: its result is the label. *)
Lemma handles_goto k m l w :
  wp m (λ _ w', good env [] k (core_of w')) (λ _ w', good env [] k (core_of w')) w →
  handles k (or_goto m l (ret psm_loop)) w.
Proof. intros H. apply wp_or_goto. eapply wp_mono; [exact H|done..]. Qed.

Lemma handles_quiet k m w :
  safe [] k → regular (c_state k) → core_of w = k → quiet k m → nofail m → handles k m w.
Proof. intros Hs Hreg Hw Hm Hn. eapply wp_quiet_nofail; [done..|]. intros l w' ->. by apply good_same. Qed.

Lemma handles_cnx_error k w : safe [] k → regular (c_state k) → core_of w = k → handles k cnx_error w.
Proof.
  intros Hs Hreg Hw. apply handles_goto, wp_event_send; [rewrite Hw; apply (s_events _ (proj2 Hs))|].
  intros w' ->. rewrite Hw. apply good_same; [done|by apply safe_event|done].
Qed.

Lemma nofail_parse_or_error m : nofail (parse_or_error d cfg bo pei_message fuel m : M (errno + parse_outcome)).
Proof.
  intros w. apply wp_bind, wp_gets, wp_catch, wp_bind, wp_lift; [done| |done]. by intros [[o st] eteid] _.
Qed.

Lemma handles_routable k cur m req w :
  safe [] k → regular (c_state k) → core_of w = k → handles k (routable_msg d cfg env cur m req) w.
Proof.
  intros Hs Hreg Hw. unfold routable_msg. destruct (accepts_routable cur); [|apply handles_quiet; [done..|apply keeps_ret|done]].
  assert (∀ w', core_of w' = k → good env [] k (core_of w')) as Hsame by (intros w' ->; by apply good_same).
  apply wp_or_goto. eapply (wp_quiet k); [apply quiet_expi_update|done|intros _ w1 Hw1|intros; by apply Hsame].
  apply wp_bind, wp_gets, wp_bind, wp_attempt. apply wp_lift; [done| |intros; by apply wp_ret, Hsame].
  intros m1 _. destruct (is_request m1); apply wp_bind; [apply wp_modify|apply wp_ret];
    apply wp_bind, wp_modify, wp_bind, wp_when; intros _; try (apply wp_bind, wp_gets, wp_modify); by apply wp_ret, Hsame.
Qed.

Lemma handles_linklocal k m w :
  safe [] k → regular (c_state k) → core_of w = k → handles k (linklocal_msg d cfg bo fuel env m) w.
Proof.
  intros Hs Hreg Hw. subst k. set (k := core_of w). unfold linklocal_msg.
  destruct (decide _); [by apply handles_goto, wp_ce_msgrcv|].
  destruct (decide _).
  { apply wp_or_goto. eapply wp_mono; [by apply wp_dp_handle|..]; [|done]. intros ? w' Hg. by apply wp_bind, wp_gets, wp_ret. }
  destruct (decide _); [by apply handles_goto, wp_dw_handle|].
  assert (∀ w', core_of w' = k → wp (ret psm_loop) (λ _ w', good env [] k (core_of w')) (λ _ _, False) w') as Hend.
  { intros w' Hw'. apply wp_ret, good_same; by rewrite ?Hw'. }
  apply wp_bind, wp_when; [intros _|by intros _; apply Hend]. apply wp_ignore.
  eapply wp_quiet; [|done|intros ? w'; by apply Hend..].
  apply keeps_bind; [apply quiet_answer|intros]. apply keeps_bind; [apply quiet_rescode_set|intros].
  apply quiet_get. intros w' Hw'. pose proof (usable_cnx _ _ (proj1 Hs)).
  apply quiet_out_send; [|done]. change (usable k (c_cnx (core_of w'))). by rewrite Hw'.
Qed.

Lemma handles_received k m w :
  safe [] k → regular (c_state k) → core_of w = k → handles k (received d cfg bo pei_message fuel env m) w.
Proof.
  intros Hs Hreg Hw. assert (∀ w', core_of w' = k → good env [] k (core_of w')) as Hsame by (intros w' ->; by apply good_same).
  apply wp_bind, wp_gets. cbv zeta. case_decide; [by apply wp_ret, Hsame|].
  apply wp_bind, wp_attempt. eapply (wp_quiet k); [apply quiet_associate|done| |intros; by apply wp_ret, Hsame].
  intros [[m1 req]|] w1 Hw1; [|by apply wp_ret, Hsame].
  assert (∀ k2 cur w2, (opened (c_state k2) → opened (c_state k)) → safe [] k2 → regular (c_state k2) → core_of w2 = k2 →
    handles k (let '(routable, m) := fd_msg_is_routable m1 in
      if routable : bool then routable_msg d cfg env cur m req else received_linklocal d cfg bo pei_message fuel env m) w2) as Hnext.
  { clear -pei_message. intros k2 cur w2 Ho Hs Hreg Hw.
    assert (∀ n w, handles k2 n w → handles k n w) as Htr.
    { intros n w' Hn. eapply wp_mono; [exact Hn|..]; [|done]. intros ? w3. by apply good_trans. }
    apply Htr. destruct (fd_msg_is_routable m1) as [[] m2]; [by apply handles_routable|].
    assert (∀ w', core_of w' = k2 → good env [] k2 (core_of w')) as Hsame by (intros w' ->; by apply good_same).
    apply wp_bind. eapply (wp_quiet_nofail k2); [apply quiet_parse_or_error|apply nofail_parse_or_error|done|].
    intros [e|[m3|m3 e|ans qry|m3 b]] w3 Hw3; [|by apply handles_linklocal|by apply wp_ret, Hsame| |by apply handles_cnx_error].
    - destruct (decide _); [by apply handles_cnx_error|by apply wp_ret, Hsame].
    - apply wp_bind, wp_ignore. pose proof (usable_cnx _ _ (proj1 Hs)).
      eapply wp_quiet; [by apply quiet_out_send|done|intros ? w4 ?; by apply wp_ret, Hsame..]. }
  apply wp_bind, wp_when; rewrite ?bool_decide_eq_true, ?bool_decide_eq_false; intros Hcur; [|by eapply Hnext].
  assert (c_state k = STATE_OPEN_NEW) as Hst by (rewrite <- Hcur, <- Hw; done).
  apply wp_ignore. eapply (wp_change_state _ _ []); [by rewrite Hw1|intros _; rewrite Hw1; apply (s_open _ (proj2 Hs)); rewrite Hst; by right; left|].
  intros w2 Hst2 _ Hs2. apply (Hnext (core_of w2)); [rewrite Hst; intros _; by right; left|done|by rewrite Hst2|done].
Qed.

Lemma handles_retry k w :
  safe [] k → regular (c_state k) → core_of w = k → handles k (retry_later cfg env) w.
Proof.
  intros Hs Hreg Hw. apply handles_quiet; [done..| |done]. apply quiet_get. intros w' _. apply keeps_bind; [apply quiet_next_timeout|].
  intros _. apply keeps_ret.
Qed.

Lemma handles_receiver_side k w :
  safe [] k → regular (c_state k) → ¬ opened (c_state k) → core_of w = k → handles k (receiver_side d cfg bo fuel env) w.
Proof.
  intros Hs Hreg Hno Hw. apply wp_bind, wp_modify. set (w1 := set_peer _ w). assert (core_of w1 = k) as <- by done.
  apply handles_goto. by apply wp_process_receiver.
Qed.

Lemma handles_end_of_grace k w :
  safe [] k → regular (c_state k) → core_of w = k → handles k (end_of_grace cfg env) w.
Proof.
  intros Hs Hreg Hw. apply wp_bind, wp_gets. destruct (pf_localterm _); [apply wp_ret, good_same; by rewrite ?Hw|].
  apply wp_bind. eapply (wp_cleanup_false _ []); [by rewrite Hw|rewrite Hw; apply Hreg|].
  intros w2 (_ & _ & _ & _ & Hst2) Hs2. apply wp_bind, wp_gets, wp_bind, wp_modify, wp_ret.
  eapply (good_to _ _ _ STATE_CLOSED); [exact Hs2|exact Hst2|done|by intros [|[]]].
Qed.

Lemma handles_set_flags k f m w :
  core_of w = k → (∀ w, core_of w = k → handles k m w) → handles k (upd_flags f ;! m) w.
Proof. intros Hw Hm. apply wp_bind, wp_modify, Hm, Hw. Qed.

Lemma handles_ret k l w : safe [] k → regular (c_state k) → core_of w = k → handles k (ret l) w.
Proof. intros Hs Hreg Hw. apply wp_ret, good_same; by rewrite ?Hw. Qed.

Lemma handles_on_cnx_error k w :
  safe [] k → regular (c_state k) → core_of w = k → handles k (on_cnx_error d cfg bo fuel env (c_state k)) w.
Proof.
  intros Hs Hreg Hw.
  assert (∀ f, handles k (upd_flags f ;! retry_later cfg env) w) as Hflags.
  { intros f. apply handles_set_flags; [done|]. intros. by apply handles_retry. }
  unfold on_cnx_error. destruct (c_state k) eqn:Hst; try apply Hflags; try (apply handles_ret; by rewrite ?Hst).
  - apply handles_receiver_side; rewrite ?Hst; try done. by intros [|[]].
  - apply handles_end_of_grace; by rewrite ?Hst.
Qed.

Lemma handles_on_timeout k w :
  safe [] k → regular (c_state k) → core_of w = k → handles k (on_timeout d cfg bo fuel env (c_state k)) w.
Proof.
  intros Hs Hreg Hw.
  assert (handles k (retry_later cfg env) w) as Hretry by by apply handles_retry.
  assert (opened (c_state k) → handles k (or_goto (fd_p_dw_timeout d cfg bo env) psm_end (ret psm_loop)) w) as Hdw.
  { intros Ho. apply handles_goto. subst k. eapply wp_dw_timeout; [done|..].
    - intros w' _ Hs' [Hst'|Hst']; [by apply good_same|]. eapply (good_to _ _ _ STATE_SUSPECT); [done..|by intros [|[]]].
    - intros e w' Hw'. apply good_same; by rewrite ?Hw'. }
  unfold on_timeout. destruct (c_state k) eqn:Hst; try exact Hretry; try (apply Hdw; unfold opened; tauto).
  - by destruct Hreg as [[] _].
  - apply wp_or_goto. eapply (wp_change_state _ _ []); [by rewrite Hw|by intros [|[]]|].
    intros w1 Hst1 _ Hs1. apply wp_bind, wp_modify, wp_bind, wp_modify, wp_ret.
    eapply (good_to _ _ _ STATE_WAITCNXACK); [exact Hs1|exact Hst1|done|by intros [|[]]].
  - apply handles_receiver_side; rewrite ?Hst; try done. by intros [|[]].
  - by destruct Hreg as (_ & _ & []).
  - apply handles_end_of_grace; by rewrite ?Hst.
  - by destruct Hreg as (_ & [] & _).
Qed.

Lemma handles_on_terminate k r w :
  safe [] k → regular (c_state k) → core_of w = k → handles k (on_terminate d cfg bo env (c_state k) r) w.
Proof.
  intros Hs Hreg Hw. unfold on_terminate.
  assert (handles k (or_goto (fd_p_dp_initiate d cfg bo env r) psm_end (ret psm_loop)) w) as Hdp.
  { apply handles_goto. subst k. by apply wp_dp_initiate. }
  destruct (c_state k) eqn:Hst; try apply Hdp; apply handles_ret; by rewrite ?Hst.
Qed.

Lemma handles_ep_change k w :
  safe [] k → regular (c_state k) → core_of w = k → handles k (on_ep_change env) w.
Proof.
  intros Hs Hreg Hw. apply wp_bind, wp_modify. set (w1 := set_peer _ w). assert (core_of w1 = k) as Hw1 by done.
  apply wp_bind, wp_gets, wp_bind, wp_ignore. pose proof (usable_cnx _ _ (proj1 Hs)).
  eapply (wp_quiet k); [|done|intros ? w2 ?; by apply handles_ret..].
  apply quiet_getremoteeps. change (usable k (c_cnx (core_of w1))). by rewrite Hw1.
Qed.

Lemma handles_established k c w :
  safe [c] k → regular (c_state k) → core_of w = k → handles k (on_established d cfg bo fuel env (c_state k) c) w.
Proof.
  intros Hs Hreg Hw. apply wp_bind, wp_modify. set (w1 := set_peer _ w). assert (core_of w1 = k) as Hw1 by done. clearbody w1.
  assert (wp (fd_cnx_destroy (Some c)) (λ _, wp (ret psm_loop) (λ _ w', good env [] k (core_of w')) (λ _ _, False)) (λ _ _, False) w1) as Hdes.
  { apply wp_destroy; [rewrite Hw1; eapply usable_extra; apply Hs|]. apply wp_ret, good_same; [done|apply safe_destroy; by rewrite Hw1|].
    change (c_state (core_of w1) = c_state k). by rewrite Hw1. }
  assert (¬ opened (c_state k) → wp (ignore (fd_p_ce_handle_newcnx d cfg bo fuel env c))
            (λ _, wp (ret psm_loop) (λ _ w', good env [] k (core_of w')) (λ _ _, False)) (λ _ _, False) w1) as Hnew.
  { intros Hno. apply wp_ignore. subst k.
    eapply wp_mono; [apply (wp_handle_newcnx c []); rewrite ?Hw1; done|..]; intros ? w2; rewrite Hw1; intros Hg; by apply wp_ret. }
  apply wp_bind. destruct (c_state k); try apply Hdes; apply Hnew; by intros [|[]].
Qed.

Lemma handles_failed k w :
  safe [] k → regular (c_state k) → core_of w = k → handles k (on_failed d cfg bo fuel env (c_state k)) w.
Proof.
  intros Hs Hreg Hw. apply wp_bind, wp_modify. set (w1 := set_peer _ w). assert (core_of w1 = k) as Hw1 by done. clearbody w1.
  change (handles k (match c_state k with STATE_WAITCNXACK_ELEC => receiver_side d cfg bo fuel env | STATE_WAITCNXACK => retry_later cfg env | _ => ret psm_loop end) w1).
  destruct (c_state k) eqn:Hst; try (apply handles_ret; by rewrite ?Hst); [apply handles_retry; by rewrite ?Hst|].
  apply handles_receiver_side; rewrite ?Hst; try done. by intros [|[]].
Qed.

Lemma handles_event k ev w :
  safe (ev_cnx ev) k → regular (c_state k) → core_of w = k → handles k (handle_event d cfg bo pei_message fuel env ev) w.
Proof.
  intros Hs Hreg Hw. apply wp_bind, wp_gets. change (p_state (w_peer w)) with (c_state (core_of w)). rewrite Hw.
  apply wp_bind, wp_assert.
  { destruct Hreg as (?&?&?). apply bool_decide_true. set_solver. }
  destruct ev; cbn [ev_cnx] in Hs.
  - by apply handles_on_terminate.
  - unfold on_msg_recv. apply wp_bind, wp_attempt, wp_lift; [done|intros..]; [by apply handles_received|by apply handles_cnx_error].
  - by apply handles_on_cnx_error.
  - by apply handles_ep_change.
  - by apply handles_ret.
  - apply handles_goto. subst k. by apply wp_handle_newCER.
  - by apply handles_established.
  - by apply handles_failed.
  - by apply handles_on_timeout.
Qed.
End safe.
