(* ===== verification/CapabSpec.v ===== *)
(** * What two peers agree on when they connect

    The capabilities that a host writes in its CER or CEA are those that its
    peer reads; the election has one winner; the mechanisms of protection that
    both sides choose. *)

From Stdlib Require Import ZArith Lia String.
From stdpp Require Import base sorting sets list gmap.
From S2P Require Import Prelude Time Ostr DictTypes Msg MsgBuf MsgDict MsgTree MsgRules Fifo SentReq Apps DictFct Endpoints CoreMsg Effect PeerTypes Peer LinkLocal Capab Exchange Psm PeerExamples PsmInv PsmSafe.

#[local] Arguments str : simpl never.

(** ** The capabilities *)

(** The objects that [add_CE_info] looks for. *)
Record ce_objs := CeObjs {
  o_ip : obj; o_vid : obj; o_pn : obj; o_fr : obj; o_isi : obj; o_vsai : obj; o_auth : obj; o_acct : obj; o_svid : obj }.

Section roundtrip.
Context {D S : Type} `{!MsgDictionary D} `{!DispDictionary D} `{!CoreDictionary D} `{!MsgSessions S} `{!AddressTypes D}.
Context (d : D) (cfg : fd_config) (bo : base_objs) (x : ce_objs) (ids : list Z).
Implicit Types (c : ce) (m : msg).

(** The object is the AVP of the base protocol with the code and the type. *)
Definition coded (code : Z) (ty : dict_avp_basetype) (o : obj) : Prop :=
  ∃ data, avp_data d o = Some data ∧ a_code data = code ∧ has (a_flag_val data) AVP_FLAG_VENDOR = false ∧ a_basetype data = ty.

Definition known (n : string) (code : Z) (ty : dict_avp_basetype) (o : obj) : Prop := avp_named d n = Ok o ∧ coded code ty o.

(** The dictionary defines the AVPs of the capabilities exchange. *)
Record ce_dict : Prop := {
  cd_base : base_ok d bo;
  cd_oh : coded AC_ORIGIN_HOST AVP_TYPE_OCTETSTRING (dict_avp_OH bo);
  cd_or : coded AC_ORIGIN_REALM AVP_TYPE_OCTETSTRING (dict_avp_OR bo);
  cd_osi : coded AC_ORIGIN_STATE_ID AVP_TYPE_UNSIGNED32 (fd_dict_avp_OSI bo);
  cd_ip : known "Host-IP-Address" AC_HOST_IP_ADDRESS AVP_TYPE_OCTETSTRING (o_ip x);
  cd_vid : known "Vendor-Id" AC_VENDOR_ID AVP_TYPE_UNSIGNED32 (o_vid x);
  cd_pn : known "Product-Name" AC_PRODUCT_NAME AVP_TYPE_OCTETSTRING (o_pn x);
  cd_fr : known "Firmware-Revision" AC_FIRMWARE_REVISION AVP_TYPE_UNSIGNED32 (o_fr x);
  cd_isi : known "Inband-Security-Id" AC_INBAND_SECURITY_ID AVP_TYPE_UNSIGNED32 (o_isi x);
  cd_vsai : known "Vendor-Specific-Application-Id" AC_VENDOR_SPECIFIC_APPLICATION_ID AVP_TYPE_GROUPED (o_vsai x);
  cd_auth : known "Auth-Application-Id" AC_AUTH_APPLICATION_ID AVP_TYPE_UNSIGNED32 (o_auth x);
  cd_acct : known "Acct-Application-Id" AC_ACCT_APPLICATION_ID AVP_TYPE_UNSIGNED32 (o_acct x);
  cd_svid : known "Supported-Vendor-Id" AC_SUPPORTED_VENDOR_ID AVP_TYPE_UNSIGNED32 (o_svid x);
  cd_encode : type_encode d (o_ip x) = Some fd_dictfct_Address_encode;
  cd_interpret : type_interpret d (o_ip x) = Ok fd_dictfct_Address_interpret;
  cd_ids : vendorid_list d = Ok ids }.

Definition is_u32 (v : Z) : Prop := 0 ≤ v < 2 ^ 32.
Definition is_inet (s : sockaddr) : Prop := sa_wf s ∧ match s with SA_OTHER _ => False | _ => True end.

(** An application of the configuration: one role at least; an application of a
    vendor has a number. *)
Definition app_ok (a : fd_app) : Prop :=
  0 ≤ appid a < AI_RELAY ∧ is_u32 (vndid a) ∧ (vndid a ≠ 0 → appid a ≠ 0) ∧ (app_auth a || app_acct a) = true.

(** What the configuration of the host has been checked for. *)
Record ce_config : Prop := {
  cc_realm : fd_os_is_valid_DiameterIdentity (cnf_diamrlm (cnf_id cfg)) (zlen (cnf_diamrlm (cnf_id cfg))) = Ok true;
  cc_nonempty : cnf_diamrlm (cnf_id cfg) ≠ [];
  cc_orstate : is_u32 (cnf_orstateid (cnf_id cfg));
  cc_firmware : is_u32 (firmware_revision cfg);
  cc_endpoints : Forall (λ e, is_inet (ep_ss e)) (cnf_endpoints cfg);
  cc_apps : Increasing app_cmp (cnf_apps cfg);
  cc_apps_ok : Forall app_ok (cnf_apps cfg);
  cc_ids : Forall is_u32 ids }.

Lemma coded_simple code ty o : ty ≠ AVP_TYPE_GROUPED → coded code ty o → simple d o.
Proof. intros Ht (a & Ha & _ & _ & Hb). exists a. by rewrite Hb. Qed.

(** *** What is written *)

Definition num (o : obj) (v : Z) : avp := built d o (Some (NUM v)) [].
Definition oct (o : obj) (v : bytes) : avp := built d o (Some (OS v)) [].

Definition address_value (s : sockaddr) : avp_value :=
  match fd_dictfct_Address_encode s with Ok v => v | _ => OS [] end.
Definition ip_avps : list avp := (λ e, built d (o_ip x) (Some (address_value (ep_ss e))) []) <$> cnf_endpoints cfg.
Definition isi_avps (isi_tls isi_none : bool) : list avp :=
  (if isi_none then [num (o_isi x) ACV_ISI_NO_INBAND_SECURITY] else []) ++ (if isi_tls then [num (o_isi x) ACV_ISI_TLS] else []).
Definition role_avp (o : obj) (a : fd_app) : avp :=
  if decide (vndid a ≠ 0) then built d (o_vsai x) None [num o (appid a); num (o_vid x) (vndid a)] else num o (appid a).
Definition role_avps (a : fd_app) : list avp :=
  (if app_auth a then [role_avp (o_auth x) a] else []) ++ (if app_acct a then [role_avp (o_acct x) a] else []).
Definition relay_avps : list avp := if cnf_no_fwd cfg then [] else [num (o_auth x) AI_RELAY].
Definition origin_avps : list avp :=
  [oct (dict_avp_OH bo) (cnf_diamid (cnf_id cfg)); oct (dict_avp_OR bo) (cnf_diamrlm (cnf_id cfg));
   num (fd_dict_avp_OSI bo) (cnf_orstateid (cnf_id cfg))].

(** The AVPs of the capabilities, in order. *)
Definition ce_avps (isi_tls isi_none : bool) : list avp :=
  origin_avps ++ ip_avps ++ [num (o_vid x) MY_VENDOR_ID; oct (o_pn x) (project_name cfg); num (o_fr x) (firmware_revision cfg)] ++
  isi_avps isi_tls isi_none ++ (cnf_apps cfg ≫= role_avps) ++ relay_avps ++ (num (o_svid x) <$> until_zero ids).

Context (Hd : ce_dict) (Hc : ce_config).

Lemma fold_append {A} (f : msg → A → res msg) (g : A → list avp) (l : list A) m :
  (∀ a m, a ∈ l → f m a = Ok (append (g a) m)) → fold_res f l m = Ok (append (l ≫= g) m).
Proof.
  revert m. induction l as [|a l IH]; intros m Hf; cbn [fold_res]; [by rewrite append_nil|].
  rewrite Hf by (by left). cbn [res_bind]. rewrite IH by (intros; apply Hf; by right). by rewrite append_app.
Qed.

Lemma host_ip_built e m : is_inet (ep_ss e) →
  host_ip d (o_ip x) m e = Ok (append [built d (o_ip x) (Some (address_value (ep_ss e))) []] m).
Proof.
  intros [Hw Hi]. destruct (cd_ip Hd) as [_ (a & Ha & _ & _ & Hb)]. unfold host_ip.
  rewrite avp_new_built by eauto. cbn [res_bind]. unfold fd_msg_avp_value_encode, built, address_value. cbn. rewrite Ha. cbn.
  rewrite bool_decide_true by (by rewrite Hb). rewrite (cd_encode Hd). by destruct (ep_ss e).
Qed.

Lemma app_avp_built o a m : simple d o →
  app_avp d o (o_vsai x) (o_vid x) a m = Ok (append [role_avp o a] m).
Proof.
  intros Ho. destruct (cd_vsai Hd) as [_ (g & Hg & _)]. pose proof (coded_simple _ AVP_TYPE_UNSIGNED32 _ ltac:(done) (proj2 (cd_vid Hd))) as Hv. unfold app_avp, role_avp.
  rewrite valued_avp_built by done. cbn [res_bind]. destruct (decide (vndid a ≠ 0)); [|done].
  rewrite avp_new_built by eauto. cbn [res_bind]. rewrite valued_avp_built by done. done.
Qed.

Lemma local_app_built a m :
  local_app d (o_auth x) (o_acct x) (o_vsai x) (o_vid x) m a = Ok (append (role_avps a) m).
Proof.
  pose proof (coded_simple _ AVP_TYPE_UNSIGNED32 _ ltac:(done) (proj2 (cd_auth Hd))) as H1. pose proof (coded_simple _ AVP_TYPE_UNSIGNED32 _ ltac:(done) (proj2 (cd_acct Hd))) as H2.
  unfold local_app, role_avps. destruct (app_auth a); [rewrite app_avp_built by done|]; cbn [res_bind];
    (destruct (app_acct a); [rewrite app_avp_built by done|]); by rewrite ?append_app, ?append_nil.
Qed.

Lemma add_CE_info_built m isi_tls isi_none :
  add_CE_info d cfg bo m isi_tls isi_none = Ok (append (ce_avps isi_tls isi_none) m).
Proof.
  destruct (cd_ip Hd) as [Hip _], (cd_vid Hd) as [Hvid Hvid'], (cd_pn Hd) as [Hpn Hpn'], (cd_fr Hd) as [Hfr Hfr'], (cd_isi Hd) as [Hisi Hisi'],
    (cd_vsai Hd) as [Hvs _], (cd_auth Hd) as [Hau Hau'], (cd_acct Hd) as [Hac _], (cd_svid Hd) as [Hsv Hsv'].
  apply coded_simple in Hvid', Hpn', Hfr', Hisi', Hau', Hsv'; [|done..]. unfold add_CE_info.
  rewrite fd_msg_add_origin_built by apply (cd_base Hd). cbn [res_bind]. rewrite Hip. cbn [res_bind].
  rewrite (fold_append _ (λ e, [built d (o_ip x) (Some (address_value (ep_ss e))) []]))
    by (intros e m' He; apply host_ip_built; by apply (proj1 (Forall_forall _ _) (cc_endpoints Hc))).
  cbn [res_bind]. rewrite Hvid. cbn [res_bind]. rewrite add_value_built by done. cbn [res_bind]. rewrite Hpn. cbn [res_bind].
  rewrite add_value_built by done. cbn [res_bind]. rewrite Hfr. cbn [res_bind]. rewrite add_value_built by done. cbn [res_bind].
  rewrite !append_app. set (l := (_ ++ _)%list).
  assert ((if isi_tls || isi_none then
      let* o := avp_named d "Inband-Security-Id" in
      let* m := if isi_none then add_value d o (NUM ACV_ISI_NO_INBAND_SECURITY) (append l m) else Ok (append l m) in
      if isi_tls then add_value d o (NUM ACV_ISI_TLS) m else Ok m
    else Ok (append l m)) = Ok (append (l ++ isi_avps isi_tls isi_none) m)) as ->.
  { unfold isi_avps. rewrite Hisi. destruct isi_tls, isi_none; cbn [orb res_bind]; rewrite ?add_value_built by done; cbn [res_bind];
      rewrite ?add_value_built by done; rewrite ?append_app, ?app_nil_r; done. }
  cbn [res_bind]. rewrite Hvs. cbn [res_bind]. rewrite Hau. cbn [res_bind]. rewrite Hac. cbn [res_bind].
  rewrite (fold_append _ role_avps) by (intros; apply local_app_built). cbn [res_bind]. rewrite append_app.
  assert (∀ l, (if cnf_no_fwd cfg then Ok (append l m) else add_value d (o_auth x) (NUM AI_RELAY) (append l m)) =
               Ok (append (l ++ relay_avps) m)) as ->.
  { intros l'. unfold relay_avps. destruct (cnf_no_fwd cfg); [by rewrite app_nil_r|]. rewrite add_value_built by done. by rewrite append_app. }
  cbn [res_bind]. rewrite (cd_ids Hd). cbn [res_bind]. rewrite Hsv. cbn [res_bind].
  rewrite (fold_append _ (λ v, [num (o_svid x) v])) by (intros; by apply add_value_built). rewrite append_app.
  do 2 f_equal. unfold l, ce_avps, origin_avps, ip_avps, num, oct. rewrite <- !app_assoc. cbn [app].
  assert (∀ A (f : A → avp) k, k ≫= (λ a, [f a]) = f <$> k) as Hb by (intros A f k; induction k; cbn; by f_equal).
  by rewrite !Hb.
Qed.

(** *** It can be written *)

Lemma typed_num code o v : coded code AVP_TYPE_UNSIGNED32 o → typed d (num o v) = true.
Proof. intros (g & Hg & _ & _ & Hb). unfold num, built, data_avp. cbn [typed]. by rewrite Hg, Hb. Qed.
Lemma typed_oct code o v : coded code AVP_TYPE_OCTETSTRING o → typed d (oct o v) = true.
Proof. intros (g & Hg & _ & _ & Hb). unfold oct, built, data_avp. cbn [typed]. by rewrite Hg, Hb. Qed.

Lemma typed_address e : is_inet (ep_ss e) → typed d (built d (o_ip x) (Some (address_value (ep_ss e))) []) = true.
Proof.
  intros [_ Hi]. destruct (cd_ip Hd) as [_ (g & Hg & _ & _ & Hb)]. unfold built, data_avp, address_value. cbn [typed]. rewrite Hg, Hb.
  by destruct (ep_ss e).
Qed.

Lemma typed_role code o a : coded code AVP_TYPE_UNSIGNED32 o → typed d (role_avp o a) = true.
Proof.
  intros Ho. unfold role_avp. destruct (decide _); [|by eapply typed_num]. destruct (cd_vsai Hd) as [_ (g & Hg & _ & _ & Hb)].
  unfold built, data_avp. cbn [typed forallb]. rewrite Hg, Hb, (typed_num _ o (appid a) Ho), (typed_num _ _ (vndid a) (proj2 (cd_vid Hd))). done.
Qed.

Lemma typed_ce_avps isi_tls isi_none : forallb (typed d) (ce_avps isi_tls isi_none) = true.
Proof.
  assert (∀ l, Forall (λ a, typed d a = true) l → forallb (typed d) l = true) as Hf.
  { intros l Hl. apply forallb_forall. intros a Ha. rewrite Forall_forall in Hl. apply Hl. by apply list_elem_of_In. }
  apply Hf. unfold ce_avps, origin_avps, ip_avps, isi_avps, relay_avps. rewrite !Forall_app, !Forall_fmap, !Forall_cons.
  pose proof (typed_num _ _ ACV_ISI_NO_INBAND_SECURITY (proj2 (cd_isi Hd))) as H0.
  pose proof (typed_num _ _ ACV_ISI_TLS (proj2 (cd_isi Hd))) as H1.
  pose proof (typed_num _ _ AI_RELAY (proj2 (cd_auth Hd))) as H2.
  split_and!.
  - eapply typed_oct, (cd_oh Hd).
  - eapply typed_oct, (cd_or Hd).
  - eapply typed_num, (cd_osi Hd).
  - done.
  - eapply Forall_impl; [apply (cc_endpoints Hc)|]. cbn. intros e. apply typed_address.
  - eapply typed_num, (cd_vid Hd).
  - eapply typed_oct, (cd_pn Hd).
  - eapply typed_num, (cd_fr Hd).
  - done.
  - by destruct isi_none; repeat constructor.
  - by destruct isi_tls; repeat constructor.
  - apply Forall_bind, Forall_true. intros a. unfold role_avps, compose. cbv beta. rewrite Forall_app.
    split; [destruct (app_auth a)|destruct (app_acct a)]; repeat constructor;
      [eapply typed_role, (cd_auth Hd)|eapply typed_role, (cd_acct Hd)].
  - by destruct (cnf_no_fwd cfg); repeat constructor.
  - apply Forall_true. intros v. eapply typed_num, (cd_svid Hd).
Qed.

(** C23: The CER that is made for a live connection is well typed: its model is a
    command, each AVP has a value of the type that the dictionary gives it, and a
    group contains such AVPs; what it holds are the capabilities of the host,
    with the in-band security that the configuration of the peer asks for when the
    connection has no TLS.  Below 2^32 bytes it is written without an error. *)
Theorem create_CER_typed env (w : world S) n :
  is_Some (cmd_data d (fd_dict_cmd_CER bo)) → n ∈ w_live w →
  let '(isi_tls, isi_none) := if e_getTLS env n then (false, false) else cer_isi cfg (pic_sec (config (w_peer w))) in
  ∃ w' m, create_CER d cfg bo env n w = Ret w' m ∧ w_peer w' = w_peer w ∧
    msg_typed d m = true ∧ msg_children m = ce_avps isi_tls isi_none ∧
    (msg_size d m < 2 ^ 32 → fd_msg_bufferize d m = Ok (enc_msg d m, resize_msg d m) ∧ zlen (enc_msg d m) = msg_size d m).
Proof.
  intros [cmd Hcmd] Hn. destruct (if e_getTLS env n then _ else _) as [isi_tls isi_none] eqn:Hisi.
  assert (∃ w' m, create_CER d cfg bo env n w = Ret w' (append (ce_avps isi_tls isi_none) m) ∧ w_peer w' = w_peer w ∧
    msg_model m = Some (fd_dict_cmd_CER bo) ∧ msg_children m = []) as (w' & m & Hrun & Hp & Hm & Hch).
  { eexists _, _. split.
    - unfold create_CER, new_request, fd_msg_new. eapply bind_ret.
      { eapply bind_ret; [reflexivity|]. eapply bind_ret; [apply lift_ok; rewrite Hcmd; reflexivity|]. reflexivity. }
      eapply bind_ret. { unfold cnx_test. eapply bind_ret; [by apply alive_run|reflexivity]. }
      eapply bind_ret; [reflexivity|]. cbn [w_peer set_msgs]. rewrite Hisi. apply lift_ok, add_CE_info_built.
    - by split_and!. }
  exists w', (append (ce_avps isi_tls isi_none) m). split; [done|]. split; [done|].
  assert (msg_children (append (ce_avps isi_tls isi_none) m) = ce_avps isi_tls isi_none) as Hl by (unfold append; cbn; by rewrite Hch).
  assert (msg_typed d (append (ce_avps isi_tls isi_none) m) = true) as Ht.
  { unfold msg_typed. rewrite Hl, typed_ce_avps. change (msg_model (append _ m)) with (msg_model m). rewrite Hm. by rewrite Hcmd. }
  split; [done|]. split; [done|]. intros Hsz. by apply bufferize_enc.
Qed.

(** *** What is read *)

Context (id : bytes).

Lemma ce_loop_app l l' c c' : ce_loop d id l c = Ok (c', None) → ce_loop d id (l ++ l') c = ce_loop d id l' c'.
Proof.
  revert c. induction l as [|a l IH]; intros c; cbn [app ce_loop]; [by intros [= ->]|].
  destruct (has _ AVP_FLAG_VENDOR); [by apply IH|]. destruct (ce_avp d id c a) as [[c1|e]|e|]; [by apply IH|done..].
Qed.

Lemma ce_loop_single code g o v ch l c c' :
  coded code g o → ce_avp d id c (built d o v ch) = Ok (inl c') → ce_loop d id (built d o v ch :: l) c = ce_loop d id l c'.
Proof. intros (a & Ha & _ & Hv & _) He. cbn [ce_loop]. unfold built at 1. rewrite Ha. cbn. by rewrite Hv, He. Qed.

Lemma built_code code g o v ch : coded code g o → avp_code (avp_public (built d o v ch)) = code.
Proof. intros (a & Ha & Hcode & _). unfold built. by rewrite Ha. Qed.

(** The branch of the code in [ce_avp]. *)
Ltac ce_branch H :=
  unfold ce_avp; rewrite (built_code _ _ _ _ _ H); cbv zeta;
  repeat (rewrite decide_False by done); rewrite decide_True by done.

Lemma val_num o v : is_u32 v → val_u32 (num o v) = Ok v.
Proof. intros H. unfold val_u32, value_u32. cbn. by rewrite w32_small. Qed.

Lemma read_origin_host os c : coded AC_ORIGIN_HOST AVP_TYPE_OCTETSTRING (dict_avp_OH bo) → fst (fd_os_almostcasesrch_int os id) = 0 →
  ce_avp d id c (oct (dict_avp_OH bo) os) = Ok (inl c).
Proof. intros H He. unfold oct. ce_branch H. cbn [val_os avp_val built data_avp res_bind]. by rewrite decide_False by auto. Qed.

Lemma read_origin_realm c : pir_realm (ce_runtime c) = None →
  ce_avp d id c (oct (dict_avp_OR bo) (cnf_diamrlm (cnf_id cfg))) =
    Ok (inl (with_runtime (set_pir_realm (Some (cnf_diamrlm (cnf_id cfg)))) c)).
Proof.
  intros Hr. unfold oct. ce_branch (cd_or Hd). cbn [val_os avp_val built data_avp res_bind]. rewrite Hr, decide_False by (by intros []).
  rewrite (cc_realm Hc). cbn [res_bind negb]. rewrite decide_False; [done|]. intros Hz. apply (cc_nonempty Hc).
  by apply nil_length_inv, Nat2Z.inj.
Qed.

Lemma read_origin_state c : pir_orstate (ce_runtime c) = 0 →
  ce_avp d id c (num (fd_dict_avp_OSI bo) (cnf_orstateid (cnf_id cfg))) =
    Ok (inl (with_runtime (set_pir_orstate (cnf_orstateid (cnf_id cfg))) c)).
Proof.
  intros Hr. unfold num. ce_branch (cd_osi Hd). fold (num (fd_dict_avp_OSI bo) (cnf_orstateid (cnf_id cfg))).
  rewrite val_num by apply (cc_orstate Hc). cbn [res_bind]. by rewrite Hr.
Qed.

Lemma read_vendor c : pir_vendorid (ce_runtime c) = 0 →
  ce_avp d id c (num (o_vid x) MY_VENDOR_ID) = Ok (inl (with_runtime (set_pir_vendorid MY_VENDOR_ID) c)).
Proof.
  intros Hr. unfold num. ce_branch (proj2 (cd_vid Hd)). fold (num (o_vid x) MY_VENDOR_ID). rewrite val_num by done. cbn [res_bind]. by rewrite Hr.
Qed.

Lemma read_product c : pir_prodname (ce_runtime c) = None →
  ce_avp d id c (oct (o_pn x) (project_name cfg)) = Ok (inl (with_runtime (set_pir_prodname (Some (project_name cfg))) c)).
Proof. intros Hr. unfold oct. ce_branch (proj2 (cd_pn Hd)). cbn [val_os avp_val built data_avp res_bind]. by rewrite Hr, decide_False by (by intros []). Qed.

Lemma read_firmware c :
  ce_avp d id c (num (o_fr x) (firmware_revision cfg)) = Ok (inl (with_runtime (set_pir_firmrev (firmware_revision cfg)) c)).
Proof.
  unfold num. ce_branch (proj2 (cd_fr Hd)). fold (num (o_fr x) (firmware_revision cfg)). by rewrite val_num by apply (cc_firmware Hc).
Qed.

Lemma read_isi c v : v = 0 ∨ v = 1 →
  ce_avp d id c (num (o_isi x) v) = Ok (inl (with_runtime (λ r, set_pir_isi (Z.lor (pir_isi r) (Z.shiftl 1 v)) r) c)).
Proof.
  intros Hv. unfold num. ce_branch (proj2 (cd_isi Hd)). fold (num (o_isi x) v). rewrite val_num by (unfold is_u32; lia).
  cbn [res_bind]. by rewrite decide_False by lia.
Qed.

Lemma read_supported c v : is_u32 v → ce_avp d id c (num (o_svid x) v) = Ok (inl c).
Proof. intros Hv. unfold num. ce_branch (proj2 (cd_svid Hd)). fold (num (o_svid x) v). by rewrite val_num. Qed.

Definition read_ip (eps : list endpoint) (e : endpoint) : list endpoint := fd_ep_add_merge eps (without_port (ep_ss e)) EP_FL_ADV.

Lemma read_address c e : is_inet (ep_ss e) →
  ce_avp d id c (built d (o_ip x) (Some (address_value (ep_ss e))) []) = Ok (inl (Ce (ce_runtime c) (read_ip (ce_endpoints c) e) (ce_rc c))).
Proof.
  intros [Hw Hi]. ce_branch (proj2 (cd_ip Hd)). cbn [avp_val built data_avp]. unfold fd_msg_avp_value_interpret. cbn [avp_model avp_val built data_avp].
  rewrite (cd_interpret Hd). cbn [res_bind].
  assert (fd_dictfct_Address_encode (ep_ss e) = Ok (address_value (ep_ss e))) as He by (unfold address_value; by destruct (ep_ss e)).
  by rewrite (Address_encode_interpret _ _ Hw He).
Qed.

Lemma read_addresses l l' c : Forall (λ e, is_inet (ep_ss e)) l →
  ce_loop d id (((λ e, built d (o_ip x) (Some (address_value (ep_ss e))) []) <$> l) ++ l') c =
  ce_loop d id l' (Ce (ce_runtime c) (foldl read_ip (ce_endpoints c) l) (ce_rc c)).
Proof.
  intros Hl. revert c. induction Hl as [|e l He _ IH]; intros c; cbn [fmap list_fmap app foldl]; [by destruct c|].
  erewrite ce_loop_single; [|apply (proj2 (cd_ip Hd))|by apply read_address]. by rewrite IH.
Qed.

Lemma vsai_num code o v l vid auth acct : coded code AVP_TYPE_UNSIGNED32 o → is_u32 v →
  vsai_loop (num o v :: l) vid auth acct =
    if decide (code = AC_VENDOR_ID) then if decide (vid ≠ 0) then Ok None else vsai_loop l v auth acct
    else if decide (code = AC_AUTH_APPLICATION_ID) then
      if decide (auth ≠ 0 ∨ acct ≠ 0) then Ok None else vsai_loop l vid v acct
    else if decide (code = AC_ACCT_APPLICATION_ID) then
      if decide (acct ≠ 0 ∨ auth ≠ 0) then Ok None else vsai_loop l vid auth v
    else vsai_loop l vid auth acct.
Proof.
  intros Hco Hv. cbn [vsai_loop]. rewrite (val_num o v Hv). unfold num. rewrite (built_code _ _ _ _ [] Hco).
  destruct Hco as (g & Hg & _ & Hf & _). unfold built. rewrite Hg. cbn [avp_public data_avp avp_flags avp_val default Datatypes.id]. by rewrite Hf.
Qed.

(** What an application of the configuration adds, by role. *)
Lemma read_role (o : obj) (auth : bool) a c : app_ok a →
  o = (if auth then o_auth x else o_acct x) →
  ce_avp d id c (role_avp o a) = Ok (inl (merge_app (appid a) (vndid a) auth (negb auth) c)) ∧
  has (avp_flags (avp_public (role_avp o a))) AVP_FLAG_VENDOR = false.
Proof.
  intros (Ha & Hv & Hn & _) Ho. assert (is_u32 (appid a)) as Hu by (unfold is_u32, AI_RELAY in *; lia).
  assert (coded (if auth then AC_AUTH_APPLICATION_ID else AC_ACCT_APPLICATION_ID) AVP_TYPE_UNSIGNED32 o) as Hco.
  { subst o. destruct auth; [apply (cd_auth Hd)|apply (cd_acct Hd)]. }
  unfold role_avp. destruct (decide (vndid a ≠ 0)) as [Hz|Hz].
  - destruct (cd_vsai Hd) as [_ Hvs]. split; [|destruct Hvs as (g & Hg & _ & Hgv & _); unfold built; by rewrite Hg].
    ce_branch Hvs. cbn [avp_children built data_avp].
    assert (vsai_loop [num o (appid a); num (o_vid x) (vndid a)] 0 0 0 =
            Ok (Some (vndid a, if auth then appid a else 0, if auth then 0 else appid a))) as ->.
    { rewrite (vsai_num _ _ _ _ _ _ _ Hco Hu).
      destruct auth; repeat (case_decide; [done|| (exfalso; tauto)|| idtac|try done]); rewrite (vsai_num _ _ _ _ _ _ _ (proj2 (cd_vid Hd)) Hv);
        repeat case_decide; (done || exfalso; naive_solver). }
    cbn [res_bind]. specialize (Hn Hz). destruct auth; cbn [negb]; repeat (case_decide; try lia); done.
  - assert (vndid a = 0) as -> by lia. split; [|destruct Hco as (g & Hg & _ & Hgv & _); unfold num, built; by rewrite Hg].
    unfold num. destruct auth; ce_branch Hco; fold (num o (appid a)); rewrite val_num by done; cbn [res_bind];
      (rewrite decide_False by (unfold AI_RELAY in *; lia)); done.
Qed.

Lemma merge_app_ce aid vid auth acct c :
  merge_app aid vid auth acct c =
    with_runtime (set_pir_apps (fd_app_merge (pir_apps (ce_runtime c)) aid vid auth acct)) c.
Proof. done. Qed.

(** The greatest application so far is appended, and then it gets its roles. *)
Lemma merge_greatest l aid vid auth acct : Forall (λ b, appid b < aid) l →
  fd_app_merge l aid vid auth acct = l ++ [App aid vid auth acct].
Proof. induction 1 as [|b l Hb _ IH]; cbn [fd_app_merge app]; [done|]. by rewrite decide_True, IH. Qed.
Lemma merge_last l aid vid vid' auth acct auth' acct' : Forall (λ b, appid b < aid) l →
  fd_app_merge (l ++ [App aid vid auth acct]) aid vid' auth' acct' = l ++ [App aid vid (auth' || auth) (acct' || acct)].
Proof.
  induction 1 as [|b l Hb _ IH]; cbn [fd_app_merge app appid]; [by rewrite 2!decide_False by lia|]. by rewrite decide_True, IH.
Qed.

Lemma read_roles a l' c : app_ok a → Forall (λ b, appid b < appid a) (pir_apps (ce_runtime c)) →
  ce_loop d id (role_avps a ++ l') c = ce_loop d id l' (with_runtime (set_pir_apps (pir_apps (ce_runtime c) ++ [a])) c).
Proof.
  intros Ha Hl. unfold role_avps.
  destruct (read_role (o_auth x) true a c Ha eq_refl) as [H1 F1].
  assert (∀ c, ce_avp d id c (role_avp (o_acct x) a) = Ok (inl (merge_app (appid a) (vndid a) false true c))) as H2.
  { intros c'. by destruct (read_role (o_acct x) false a c' Ha eq_refl). }
  destruct (read_role (o_acct x) false a c Ha eq_refl) as [_ F2].
  destruct Ha as (_ & _ & _ & Hr). destruct a as [aid vid auth acct]. cbn [app_auth app_acct appid vndid] in *.
  assert (∀ v w, with_runtime (set_pir_apps v) (with_runtime (set_pir_apps w) c) = with_runtime (set_pir_apps v) c) as Hw by done.
  destruct auth, acct; [| | |done]; cbn [app ce_loop]; rewrite ?F1, ?F2, ?H1, ?H2; cbn [res_bind]; rewrite ?F2, ?H2; cbn [res_bind negb];
    rewrite !merge_app_ce, ?Hw; do 3 f_equal; cbn; rewrite (merge_greatest _ _ _ _ _ Hl); [by rewrite merge_last|done|done].
Qed.

Lemma read_apps l l' c : Forall app_ok l → Increasing app_cmp (pir_apps (ce_runtime c) ++ l) →
  ce_loop d id ((l ≫= role_avps) ++ l') c = ce_loop d id l' (with_runtime (set_pir_apps (pir_apps (ce_runtime c) ++ l)) c).
Proof.
  intros Hl. revert c. induction Hl as [|a l Ha _ IH]; intros c Hs.
  - cbn. rewrite app_nil_r. destruct c as [[] ? ?]. done.
  - cbn. rewrite <- app_assoc. rewrite read_roles; [|done|].
    + rewrite IH; cbn; rewrite <- ?app_assoc; done.
    + apply StronglySorted_app in Hs as (Hs & _). apply Forall_forall. intros b Hb. specialize (Hs b a Hb ltac:(by left)).
      unfold app_cmp in Hs. lia.
Qed.

(** What the peer knows of the host. *)
Definition announced (isi_tls isi_none : bool) : peer_runtime :=
  PeerRuntime (Some (cnf_diamrlm (cnf_id cfg))) MY_VENDOR_ID (cnf_orstateid (cnf_id cfg)) (Some (project_name cfg))
    (firmware_revision cfg) (negb (cnf_no_fwd cfg)) (cnf_apps cfg)
    ((if isi_none then PI_SEC_NONE else 0) + (if isi_tls then PI_SEC_TLS_OLD else 0)) 0 0 false.

Lemma read_supported_all l c : Forall is_u32 l → ce_loop d id (num (o_svid x) <$> l) c = Ok (c, None).
Proof.
  induction 1 as [|v l Hv _ IH]; cbn [fmap list_fmap]; [done|].
  unfold num at 1. erewrite ce_loop_single; [|apply (proj2 (cd_svid Hd))|by apply read_supported]. exact IH.
Qed.

Lemma until_zero_forall l : Forall is_u32 l → Forall is_u32 (until_zero l).
Proof. induction 1 as [|v l Hv _ IH]; cbn; [done|]. case_decide; by constructor. Qed.

Lemma ce_read isi_tls isi_none eps rc : fst (fd_os_almostcasesrch_int (cnf_diamid (cnf_id cfg)) id) = 0 →
  ce_loop d id (ce_avps isi_tls isi_none) (Ce init_runtime eps rc) =
    Ok (Ce (announced isi_tls isi_none) (foldl read_ip eps (cnf_endpoints cfg)) rc, None).
Proof.
  intros Hid. unfold ce_avps, origin_avps. cbn [app].
  assert (∀ code ty o v l c c', coded code ty o → ce_avp d id c (built d o v []) = Ok (inl c') →
    ce_loop d id (built d o v [] :: l) c = ce_loop d id l c') as Hs by (intros; by eapply ce_loop_single).
  unfold oct. erewrite Hs; [|apply (cd_oh Hd)|by apply read_origin_host, Hid; apply (cd_oh Hd)].
  erewrite Hs; [|apply (cd_or Hd)|by apply read_origin_realm].
  unfold num at 1. erewrite Hs; [|apply (cd_osi Hd)|by apply read_origin_state].
  unfold ip_avps. rewrite read_addresses by apply (cc_endpoints Hc).
  unfold num at 1. erewrite Hs; [|apply (cd_vid Hd)|by apply read_vendor].
  erewrite Hs; [|apply (cd_pn Hd)|by apply read_product].
  unfold num at 1. erewrite Hs; [|apply (cd_fr Hd)|by apply read_firmware].
  match goal with |- ce_loop _ _ _ ?c = _ => set (c1 := c) end.
  assert (∀ l', ce_loop d id (isi_avps isi_tls isi_none ++ l') c1 =
    ce_loop d id l' (with_runtime (set_pir_isi ((if isi_none then PI_SEC_NONE else 0) + (if isi_tls then PI_SEC_TLS_OLD else 0))) c1)) as ->.
  { intros l'. unfold isi_avps. destruct isi_none, isi_tls; cbn [app]; unfold num;
      repeat (erewrite Hs; [|apply (cd_isi Hd)|apply read_isi; auto]); done. }
  rewrite read_apps; [|apply (cc_apps_ok Hc)|apply (cc_apps Hc)].
  match goal with |- ce_loop _ _ _ ?c = _ => set (c2 := c) end. unfold relay_avps.
  assert (∀ l', ce_loop d id ((if cnf_no_fwd cfg then [] else [num (o_auth x) AI_RELAY]) ++ l') c2 =
                ce_loop d id l' (with_runtime (set_pir_relay (negb (cnf_no_fwd cfg))) c2)) as ->.
  { intros l'. destruct (cnf_no_fwd cfg); cbn [app]; [done|]. unfold num.
    erewrite Hs; [reflexivity|apply (cd_auth Hd)|].
    ce_branch (proj2 (cd_auth Hd)). fold (num (o_auth x) AI_RELAY). by rewrite val_num. }
  rewrite read_supported_all by apply until_zero_forall, (cc_ids Hc). done.
Qed.

(** C22: The exchange of capabilities: [add_CE_info] appends to a message AVPs
    from which the peer, which knows the host under its name up to case, saves
    exactly what the host is configured with: its realm, state, product and
    firmware, the applications with their vendors and roles in the same order,
    whether it relays, the mechanisms of in-band security that it proposes, and
    its addresses, without their ports. *)
Theorem ce_roundtrip m isi_tls isi_none eps rc :
  fst (fd_os_almostcasesrch_int (cnf_diamid (cnf_id cfg)) id) = 0 →
  ∃ l, add_CE_info d cfg bo m isi_tls isi_none = Ok (append l m) ∧
    ce_loop d id l (Ce init_runtime eps rc) =
      Ok (Ce (announced isi_tls isi_none)
             (foldl (λ eps e, fd_ep_add_merge eps (without_port (ep_ss e)) EP_FL_ADV) eps (cnf_endpoints cfg)) rc, None).
Proof. intros Hid. eexists. split; [apply add_CE_info_built|by apply ce_read]. Qed.
End roundtrip.

(** ** Elections *)

Lemma strcasecmp_antisym l k : strcasecmp k l = - strcasecmp l k.
Proof.
  revert k. induction l as [|a l IH]; intros [|b k]; cbn [strcasecmp]; [lia..|].
  destruct (decide (asciitolower a = asciitolower b)) as [He|He].
  - by rewrite decide_True by done.
  - rewrite decide_False by congruence. lia.
Qed.

(** The strings are terminated: they hold no NUL. *)
Definition is_cstring (l : bytes) : Prop := Forall (λ b, 0 < b) l.

Lemma tolower_pos a : 0 < a → 0 < asciitolower a.
Proof. unfold asciitolower. case_decide; lia. Qed.

Lemma strcasecmp_zero l k : is_cstring l → is_cstring k → strcasecmp l k = 0 → case_equal l k.
Proof.
  intros Hl. revert k. unfold case_equal. induction Hl as [|a l Ha _ IH]; intros k Hk.
  - destruct Hk as [|b k Hb _]; cbn; [done|]. pose proof (tolower_pos b Hb). lia.
  - destruct Hk as [|b k Hb Hk]; cbn; [pose proof (tolower_pos a Ha); lia|].
    destruct (decide (asciitolower a = asciitolower b)) as [He|He]; [|lia]. intros Hz. rewrite He. f_equal. by apply IH.
Qed.

Lemma strcasecmp_case l l' k : case_equal l l' → strcasecmp l k = strcasecmp l' k.
Proof.
  unfold case_equal. revert l' k. induction l as [|a l IH]; intros [|a' l'] k; cbn; try done.
  intros [= Ha Hl]. destruct k as [|b k]; [done|]. rewrite Ha. by rewrite (IH l' k Hl).
Qed.

Section election.
Context {D S : Type} `{!MsgDictionary D} `{!DispDictionary D} `{!CoreDictionary D} `{!MsgSessions S} `{!AddressTypes D}.
Abbreviation M := (M (world S)).

(** A host with the world of one of its peers: [h_own] is the connection that the
    host has established to the peer, [h_other] the one that comes from it. *)
Record party := Party {
  h_dict : D; h_cfg : fd_config; h_base : base_objs; h_fuel : nat; h_env : env; h_world : world S; h_own : nat; h_other : nat }.

Definition h_name (h : party) : bytes := cnf_diamid (cnf_id (h_cfg h)).
Definition knows (h h' : party) : Prop := case_equal (pi_diamid (w_peer (h_world h))) (h_name h').

Definition newCER (h : party) (cer : msg) : M unit :=
  fd_p_ce_handle_newCER (h_dict h) (h_cfg h) (h_base h) (h_fuel h) (h_env h) cer (h_other h).
Definition newcnx (h : party) : M unit :=
  fd_p_ce_handle_newcnx (h_dict h) (h_cfg h) (h_base h) (h_fuel h) (h_env h) (h_own h).
Definition send_CER (h : party) : M unit :=
  let! cer := create_CER (h_dict h) (h_cfg h) (h_base h) (h_env h) (h_own h) in
  fd_out_send (h_dict h) (h_env h) cer (Some (h_own h)) true false.
Definition process_receiver (h : party) : M unit :=
  fd_p_ce_process_receiver (h_dict h) (h_cfg h) (h_base h) (h_fuel h) (h_env h).

(** The host holds both connections, with the CER of the peer on [h_other]: this
    CER arrives while the host waits for the CEA on [h_own]; or it has arrived
    first, and [h_own] is established, the CER on it being sent. *)
Inductive meets (h : party) (cer : msg) : M unit → Prop :=
  | MeetsCER :
      safe [h_other h] (core_of (h_world h)) → p_state (w_peer (h_world h)) = STATE_WAITCEA →
      p_cnxctx (w_peer (h_world h)) = Some (h_own h) → meets h cer (newCER h cer)
  | MeetsCnx w1 :
      safe [h_own h] (core_of (h_world h)) → p_state (w_peer (h_world h)) = STATE_WAITCNXACK_ELEC →
      p_cnxctx (w_peer (h_world h)) = None → p_receiver (w_peer (h_world h)) = Some (h_other h) →
      p_cer (w_peer (h_world h)) = Some cer → send_CER h (h_world h) = Ret w1 tt → meets h cer (newcnx h).

(** The host goes on with its own connection, whose CEA it waits for, and the
    other one is destroyed. *)
Definition keeps_own (h : party) (m : M unit) : Prop :=
  let kept w := p_cnxctx (w_peer w) = Some (h_own h) ∧ h_own h ∈ w_live w ∧ h_other h ∉ w_live w in
  wp m (λ _ w, kept w ∧ p_state (w_peer w) = STATE_WAITCEA) (λ _ w, kept w) (h_world h).

(** Its own connection is destroyed, and the host goes on with the CER that it
    received on the other one, like without an election. *)
Definition keeps_other (h : party) (cer : msg) (m : M unit) : Prop :=
  ∃ w, m (h_world h) = process_receiver h w ∧ p_state (w_peer w) = p_state (w_peer (h_world h)) ∧
    p_cnxctx (w_peer w) = None ∧ p_receiver (w_peer w) = Some (h_other h) ∧ p_cer (w_peer w) = Some cer ∧
    h_other h ∈ w_live w ∧ h_own h ∉ w_live w.

Lemma meets_conns h cer m : meets h cer m → h_own h ≠ h_other h ∧ h_own h ∈ w_live (h_world h) ∧ h_other h ∈ w_live (h_world h).
Proof.
  destruct 1 as [[[Hn Hl] _] _ Hc|w1 [[Hn Hl] _] _ Hc Hr _ _]; unfold owned in Hn, Hl; cbn in Hn, Hl.
  - rewrite Hc in Hn, Hl. cbn in Hn, Hl. apply NoDup_cons in Hn as [Hn _]. split; [set_solver|]. split; apply Hl; set_solver.
  - rewrite Hc, Hr in Hn, Hl. cbn in Hn, Hl. apply NoDup_cons in Hn as [Hn _]. split; [set_solver|]. split; apply Hl; set_solver.
Qed.

Lemma clear_cnx_run c (w : world S) :
  p_cnxctx (w_peer w) = Some c → c ∈ w_live w →
  ∃ w', fd_p_ce_clear_cnx w = Ret w' tt ∧ w_live w' = w_live w ∖ {[c]} ∧ p_state (w_peer w') = p_state (w_peer w) ∧
    p_cnxctx (w_peer w') = None.
Proof.
  intros Hc Hl. unfold fd_p_ce_clear_cnx, upd_runtime, upd, bind, modify, get, gets. cbn. rewrite Hc. cbn.
  unfold bind. rewrite alive_run by done. by eexists.
Qed.

(** The CER leaves the rest as it is. *)
Lemma send_CER_keeps h cer w1 :
  h_own h ∈ w_live (h_world h) → usable (core_of (h_world h)) (c_cnx (core_of (h_world h))) →
  p_cer (w_peer (h_world h)) = Some cer → send_CER h (h_world h) = Ret w1 tt →
  core_of w1 = core_of (h_world h) ∧ p_cer (w_peer w1) = Some cer.
Proof.
  intros Ho Hu Hcer Hrun. set (w := h_world h) in *. split.
  - assert (quiet (core_of w) (send_CER h)) as Hq.
    { apply keeps_bind; [by apply quiet_create_CER|]. intros m. apply quiet_out_send; [by apply usable_some|done]. }
    specialize (Hq w eq_refl). unfold wp in Hq. by rewrite Hrun in Hq.
  - assert (leaves (λ w : world S, p_cer (w_peer w) = Some cer) (send_CER h)) as Hl by leaves_tac.
    specialize (Hl w Hcer). by rewrite Hrun in Hl.
Qed.

(** What follows the CER in [fd_p_ce_handle_newcnx]. *)
Definition elect (h : party) : M unit :=
  let! p := get id in
  if decide (p_state p = STATE_WAITCNXACK_ELEC) then
    if election (h_cfg h) p then fd_cnx_destroy (Some (h_own h)) ;! process_receiver h
    else receiver_reject (h_dict h) (h_cfg h) (h_base h) (h_fuel h) (h_env h) (p_receiver p)
           (λ p, set_p_cer None (set_p_receiver None p)) (p_cer p) ELECTION_LOST ;! to_waitcea (h_env h) (h_own h)
  else to_waitcea (h_env h) (h_own h).

Lemma newcnx_run h w w1 : send_CER h w = Ret w1 tt → newcnx h w = elect h w1.
Proof.
  unfold send_CER, newcnx, fd_p_ce_handle_newcnx, bind at 1. intros H. unfold bind at 1.
  destruct (create_CER _ _ _ _ _ w) as [w2 m|w2 e|c]; [|done..]. unfold bind at 1. by rewrite H.
Qed.

(** A host that is greater than its peer keeps the connection of the peer. *)
Lemma election_won h cer m : meets h cer m → election (h_cfg h) (w_peer (h_world h)) = true → keeps_other h cer m.
Proof.
  intros Hm. destruct (meets_conns _ _ _ Hm) as (Hne & Ho & Ht). destruct Hm as [Hs Hst Hc|w1 Hs Hst Hc Hr Hcer Hsend]; intros He.
  - destruct (clear_cnx_run _ _ Hc Ho) as (w1 & Hrun & Hl & Hst1 & Hc1). unfold keeps_other.
    exists (set_peer (set_p_cer (Some cer) (set_p_receiver (Some (h_other h)) (w_peer w1))) w1). split; [|cbn; rewrite Hl; split_and!; try done; set_solver].
    unfold newCER, fd_p_ce_handle_newCER, bind at 1, get, gets. cbn [id]. rewrite Hst, He. unfold bind at 1. rewrite Hrun. done.
  - destruct (send_CER_keeps _ _ _ Ho (usable_cnx _ _ (proj1 Hs)) Hcer Hsend) as [Hw1 Hcer1]. set (w := h_world h) in *.
    assert (p_state (w_peer w1) = p_state (w_peer w) ∧ p_cnxctx (w_peer w1) = p_cnxctx (w_peer w) ∧ p_receiver (w_peer w1) = p_receiver (w_peer w) ∧
      w_live w1 = w_live w ∧ pi_diamid (w_peer w1) = pi_diamid (w_peer w)) as (H1 & H2 & H3 & H4 & H5) by (injection Hw1; auto).
    unfold keeps_other. exists (set_live (w_live w1 ∖ {[h_own h]}) w1). fold w. split; [|cbn; rewrite ?H1, ?H2, ?H3, ?H4; split_and!; try done; set_solver].
    rewrite (newcnx_run _ _ _ Hsend). unfold elect, bind at 1, get, gets. cbn [id]. rewrite decide_True by congruence.
    assert (election (h_cfg h) (w_peer w1) = true) as -> by (unfold election in *; by rewrite H5).
    unfold bind at 1, fd_cnx_destroy, bind at 1. rewrite alive_run by by rewrite H4. done.
Qed.

Lemma destroy_leaves c x : leaves (λ w : world S, x ∉ w_live w) (fd_cnx_destroy c).
Proof.
  unfold fd_cnx_destroy. destruct c; [|apply leaves_ret]. apply leaves_bind; [leaves_tac|intros _].
  apply leaves_modify. intros w Hw. cbn. set_solver.
Qed.
#[local] Hint Resolve destroy_leaves : leaves.
Lemma free_events_leaves l x : leaves (λ w : world S, x ∉ w_live w) (free_events l).
Proof. induction l as [|ev l IH]; cbn [free_events]; leaves_tac. Qed.
#[local] Hint Resolve free_events_leaves : leaves.

Lemma to_waitcea_leaves env c x : leaves (λ w : world S, x ∉ w_live w) (to_waitcea env c).
Proof. leaves_tac. Qed.

Lemma wp_leaves {A} P (m : Effect.M (world S) A) Q E w : leaves P m → P w → wp m Q E w → wp m (λ a w, Q a w ∧ P w) (λ e w, E e w ∧ P w) w.
Proof. intros Hl Hw. specialize (Hl w Hw). unfold wp. destruct (m w); auto. Qed.

(** The connection becomes that of the peer, even if one of the calls that follow fails. *)
Lemma wp_to_waitcea_own env c w :
  safe [c] (core_of w) → c_cnx (core_of w) = None →
  let kept (w : world S) := p_cnxctx (w_peer w) = Some c ∧ c ∈ w_live w in
  wp (to_waitcea env c) (λ _ w, kept w ∧ p_state (w_peer w) = STATE_WAITCEA) (λ _ w, kept w) w.
Proof.
  intros Hs Hc kept. set (w1 := set_peer (set_p_cnxctx (Some c) (w_peer w)) w).
  assert (∀ w', core_of w' = core_of w1 → kept w') as Hk.
  { intros w' Hw'. assert (c_cnx (core_of w') = Some c ∧ c_live (core_of w') = w_live w) as [H1 H2] by by rewrite Hw'.
    split; [done|]. change (c ∈ c_live (core_of w')). rewrite H2. apply (c_alive _ _ (proj1 Hs)). by left. }
  assert (safe [] (core_of w1)) as Hs1.
  { destruct Hs as [Hc1 [H1 H2 H3 H4 H5]]. split; [|by split]. eapply conns_same; [exact Hc1| |done].
    unfold owned. cbn. cbn in Hc. rewrite Hc. cbn. solve_Permutation. }
  assert (usable (core_of w1) (Some c)) as Hu by exact (usable_cnx _ _ (proj1 Hs1)).
  apply wp_bind, wp_bind, wp_gets, wp_bind, wp_require; [intros _|by rewrite bool_decide_false_iff || (rewrite bool_decide_true by done)].
  apply wp_bind, wp_modify, wp_bind, wp_gets. cbn [id]. fold w1. cbn [p_cnxctx w_peer set_peer w1 set_p_cnxctx].
  apply wp_bind. eapply wp_quiet; [by apply quiet_cnx_result|done|intros _ w2 Hw2|intros; by apply Hk].
  apply wp_bind. eapply wp_quiet; [by apply quiet_cnx_test|done|intros tls w3 Hw3|intros; by apply Hk].
  apply wp_bind. eapply wp_quiet; [by apply keeps_when, quiet_getcred|done|intros _ w4 Hw4|intros; by apply Hk].
  apply wp_bind. eapply wp_quiet; [by apply quiet_getremoteeps|done|intros _ w5 Hw5|intros; by apply Hk].
  apply wp_modify. set (w6 := set_peer _ w5). assert (core_of w6 = core_of w1) as Hw6 by by rewrite <- Hw5.
  apply wp_bind. eapply wp_change_state; rewrite Hw6; [exact Hs1|by intros [|[]]|]. intros w7 Hst (_ & _ & Hc7 & _) [[_ Hl7] _].
  apply wp_modify. split; [|done]. split; [exact Hc7|]. apply Hl7. unfold owned. rewrite Hc7. by left.
Qed.

Lemma election_lost h cer m : meets h cer m → election (h_cfg h) (w_peer (h_world h)) = false → keeps_own h m.
Proof.
  intros Hm. destruct (meets_conns _ _ _ Hm) as (Hne & Ho & Ht). destruct Hm as [Hs Hst Hc|w1 Hs Hst Hc Hr Hcer Hsend]; intros He; unfold keeps_own.
  - apply wp_bind, wp_gets. cbn [id]. rewrite Hst, He. apply wp_receiver_reject; [by apply usable_some|exact (usable_cnx _ _ (proj1 Hs))|].
    intros w1 Hw1. assert (p_cnxctx (w_peer w1) = p_cnxctx (w_peer (h_world h)) ∧ p_state (w_peer w1) = p_state (w_peer (h_world h)) ∧
      w_live w1 = w_live (h_world h)) as (H1 & H2 & H3) by (injection Hw1; auto).
    cbn. rewrite H1, H2, H3. split_and!; try done; set_solver.
  - destruct (send_CER_keeps _ _ _ Ho (usable_cnx _ _ (proj1 Hs)) Hcer Hsend) as [Hw1 _]. unfold wp. rewrite (newcnx_run _ _ _ Hsend).
    change (wp (elect h) (λ _ w, (p_cnxctx (w_peer w) = Some (h_own h) ∧ h_own h ∈ w_live w ∧ h_other h ∉ w_live w) ∧ p_state (w_peer w) = STATE_WAITCEA)
      (λ _ w, p_cnxctx (w_peer w) = Some (h_own h) ∧ h_own h ∈ w_live w ∧ h_other h ∉ w_live w) w1).
    set (w := h_world h) in *.
    assert (p_state (w_peer w1) = p_state (w_peer w) ∧ p_receiver (w_peer w1) = p_receiver (w_peer w) ∧ pi_diamid (w_peer w1) = pi_diamid (w_peer w))
      as (H1 & H3 & H5) by (injection Hw1; auto).
    rewrite <- Hw1 in Hs. apply wp_bind, wp_gets. cbn [id]. rewrite decide_True by congruence.
    assert (election (h_cfg h) (w_peer w1) = false) as -> by (unfold election in *; by rewrite H5).
    rewrite H3, Hr. apply wp_bind, wp_receiver_reject; [rewrite Hw1; by apply usable_some|exact (usable_cnx _ _ (proj1 Hs))|].
    intros w2 Hw2. cbv zeta. set (w3 := set_peer _ _).
    assert (core_of w3 = k_recv None (w_live w2 ∖ list_to_set (option_list (Some (h_other h)))) (core_of w2)) as Hw3 by done.
    eapply wp_mono; [apply (wp_leaves (λ w, h_other h ∉ w_live w)); [apply to_waitcea_leaves| |apply wp_to_waitcea_own]|..].
    + cbn. set_solver.
    + rewrite Hw3, Hw2. destruct Hs as [Hc1 Hs1]. split; [|by destruct Hs1; split].
      eapply (conns_shrink _ _ _ _ [h_other h]); [exact Hc1| |by rewrite <- Hw2]. unfold owned. cbn. rewrite H3, Hr. cbn. solve_Permutation.
    + rewrite Hw3, Hw2, Hw1. exact Hc.
    + intros _ w4 [[[? ?] ?] ?]. by split_and!.
    + intros _ w4 [[? ?] ?]. by split_and!.
Qed.

(** C25: Two hosts, each under a name that is not that of the other up to case,
    have connected to each other at the same time and hold both connections; each
    of them runs [fd_p_ce_handle_newCER] or [fd_p_ce_handle_newcnx], whichever comes
    second.  The host whose name is greater without regard to case, as [strcasecmp]
    compares, destroys the connection that it has established and goes on with
    the CER of the other host; the other host destroys the end of this same
    connection that it holds, and waits for the CEA on its own.  So both keep the
    connection that the host with the smaller name has established. *)
Theorem election_one_winner a b cer_a cer_b m_a m_b :
  meets a cer_a m_a → meets b cer_b m_b → knows a b → knows b a →
  is_cstring (h_name a) → is_cstring (h_name b) → ¬ case_equal (h_name a) (h_name b) →
  (0 < strcasecmp (h_name a) (h_name b) ∧ keeps_other a cer_a m_a ∧ keeps_own b m_b) ∨
  (strcasecmp (h_name a) (h_name b) < 0 ∧ keeps_own a m_a ∧ keeps_other b cer_b m_b).
Proof.
  intros Ha Hb Hab Hba Hca Hcb Hn. pose proof (strcasecmp_antisym (h_name a) (h_name b)) as Hanti.
  assert (election (h_cfg a) (w_peer (h_world a)) = bool_decide (0 < strcasecmp (h_name a) (h_name b))) as Hea.
  { apply bool_decide_ext. rewrite (strcasecmp_case _ _ _ Hab). fold (h_name a). lia. }
  assert (election (h_cfg b) (w_peer (h_world b)) = bool_decide (strcasecmp (h_name a) (h_name b) < 0)) as Heb.
  { apply bool_decide_ext. rewrite (strcasecmp_case _ _ _ Hba). by fold (h_name b). }
  assert (strcasecmp (h_name a) (h_name b) ≠ 0) by (intros Hz; by apply Hn, strcasecmp_zero).
  destruct (decide (0 < strcasecmp (h_name a) (h_name b))) as [Hlt|Hlt]; [left|right]; (split; [lia|]).
  - rewrite bool_decide_true in Hea by done. rewrite bool_decide_false in Heb by lia.
    split; [by eapply election_won|by eapply election_lost].
  - rewrite bool_decide_false in Hea by done. rewrite bool_decide_true in Heb by lia.
    split; [by eapply election_lost|by eapply election_won].
Qed.
End election.

(** ** In-band security *)

(** The bits of [pir_isi] that the other side reads, by [ce_roundtrip]. *)
Definition isi_mask (isi_tls isi_none : bool) : Z :=
  (if isi_none then PI_SEC_NONE else 0) + (if isi_tls then PI_SEC_TLS_OLD else 0).

(** What both sides of a connection without TLS choose: the mechanism of the
    receiver (0: it refuses), and whether the initiator goes on without TLS. *)
Definition receiver_choice (cfg_i cfg_r : fd_config) (sec_i sec_r : Z) : Z :=
  let '(isi_tls, isi_none) := cer_isi cfg_i sec_i in agree_isi cfg_r sec_r (isi_mask isi_tls isi_none).
Definition initiator_clear (cfg_i cfg_r : fd_config) (sec_i sec_r : Z) : bool :=
  let isi := announced_isi sec_r (receiver_choice cfg_i cfg_r sec_i sec_r) in
  bool_decide (initiator_todo sec_i (isi_mask (has isi PI_SEC_TLS_OLD) (has isi PI_SEC_NONE)) = PI_SEC_NONE).

(** A configuration that disables TLS or not. *)
Definition tls_config (td : bool) : fd_config := FdConfig (Identity [] [] 0) 0 0 [] [] false td false 0 [] 0.

Definition choices_agree (td_i td_r : bool) (sec_i sec_r : Z) : Prop :=
  receiver_choice (tls_config td_i) (tls_config td_r) sec_i sec_r ≠ 0 →
  let clear_r := bool_decide (receiver_choice (tls_config td_i) (tls_config td_r) sec_i sec_r = PI_SEC_NONE) in
  let clear_i := initiator_clear (tls_config td_i) (tls_config td_r) sec_i sec_r in
  (clear_r = true → has sec_r PI_SEC_NONE = true) ∧ (clear_i = true → has sec_i PI_SEC_NONE = true) ∧
  (clear_i = true → clear_r = true) ∧
  (clear_r = true ∧ clear_i = false ↔
   clear_r = true ∧ (has sec_i PI_SEC_NONE = false ∨ has sec_i PI_SEC_TLS_OLD = true ∧ sec_r = PI_SEC_NONE)).
#[local] Instance choices_agree_dec td_i td_r sec_i sec_r : Decision (choices_agree td_i td_r sec_i sec_r).
Proof. unfold choices_agree. cbv zeta. apply _. Defined.

Lemma all_choices_agree :
  Forall (λ td_i, Forall (λ td_r, Forall (λ sec_i, Forall (choices_agree td_i td_r sec_i) (seqZ 0 4)) (seqZ 0 4)) [false; true]) [false; true].
Proof. by_compute. Qed.

(** C24: What an initiator and a receiver, each with its setting of two bits for
    the other, make of the Inband-Security-Id AVPs of their CER and CEA: a side
    goes on without TLS only if its setting allows that, and if the initiator does
    then so does the receiver; when the receiver chooses TLS both do.  They
    differ, the receiver going on in clear while the initiator wants TLS, exactly
    if the setting of the initiator forbids a clear connection, or allows both
    while that of the receiver allows only a clear one. *)
Theorem isi_negotiation cfg_i cfg_r sec_i sec_r :
  0 ≤ sec_i < 4 → 0 ≤ sec_r < 4 → receiver_choice cfg_i cfg_r sec_i sec_r ≠ 0 →
  let clear_r := bool_decide (receiver_choice cfg_i cfg_r sec_i sec_r = PI_SEC_NONE) in
  let clear_i := initiator_clear cfg_i cfg_r sec_i sec_r in
  (clear_r = true → has sec_r PI_SEC_NONE = true) ∧ (clear_i = true → has sec_i PI_SEC_NONE = true) ∧
  (clear_i = true → clear_r = true) ∧
  (clear_r = true ∧ clear_i = false ↔
   clear_r = true ∧ (has sec_i PI_SEC_NONE = false ∨ has sec_i PI_SEC_TLS_OLD = true ∧ sec_r = PI_SEC_NONE)).
Proof.
  intros Hi Hr. destruct cfg_i as [? ? ? ? ? ? td_i ? ? ? ?], cfg_r as [? ? ? ? ? ? td_r ? ? ? ?].
  change (choices_agree td_i td_r sec_i sec_r). pose proof all_choices_agree as H. rewrite Forall_forall in H.
  specialize (H td_i ltac:(destruct td_i; set_solver)). rewrite Forall_forall in H. specialize (H td_r ltac:(destruct td_r; set_solver)).
  rewrite Forall_seqZ in H. specialize (H sec_i ltac:(lia)). rewrite Forall_seqZ in H. by apply (H sec_r).
Qed.

Module Examples.
Import Small MsgTree.Examples PeerExamples.Link.

Definition names : ce_objs := CeObjs 12 8 16 17 18 15 13 14 19.

Lemma base_ce_dict : ce_dict base objs names [10415; 0].
Proof.
  split; try reflexivity;
    first [exact base_objs_ok | by eexists | split; [by vm_compute|by eexists]].
Qed.

Lemma cfg_ce_config : ce_config cfg [10415; 0].
Proof.
  split.
  - by vm_compute.
  - discriminate.
  - unfold is_u32; cbn; lia.
  - unfold is_u32; cbn; lia.
  - constructor; [|constructor]. split; [by refine (bool_decide_unpack _ _)|done].
  - repeat constructor; unfold app_cmp; cbn; lia.
  - repeat constructor; unfold app_ok, is_u32, AI_RELAY; cbn; try done; lia.
  - repeat constructor; unfold is_u32; lia.
Qed.

(** The host advertises its two applications, its address and no in-band security. *)
Lemma ce_roundtrip_witness :
  fst (fd_os_almostcasesrch_int (cnf_diamid (cnf_id cfg)) (str "H.example.NET")) = 0 ∧
  ∃ l, add_CE_info base cfg objs cea false true = Ok (append l cea) ∧
    ce_loop base (str "H.example.NET") l (Ce init_runtime [] 0) =
      Ok (Ce (announced cfg false true) [Endpoint (SA_IN [10; 0; 0; 1] 0) EP_FL_ADV] 0, None).
Proof.
  assert (fst (fd_os_almostcasesrch_int (cnf_diamid (cnf_id cfg)) (str "H.example.NET")) = 0) as Hid by by vm_compute.
  split; [exact Hid|]. exact (ce_roundtrip base cfg objs names _ base_ce_dict cfg_ce_config _ cea false true [] 0 Hid).
Defined.

Lemma create_CER_typed_witness :
  is_Some (cmd_data base (fd_dict_cmd_CER objs)) ∧ 7%nat ∈ w_live w3' ∧
  ∃ w' m, create_CER base cfg objs (at_ 2) 7%nat w3' = Ret w' m ∧ msg_typed base m = true ∧ msg_size base m < 2 ^ 32.
Proof.
  assert (is_Some (cmd_data base (fd_dict_cmd_CER objs))) as Hcmd by by eexists.
  assert (7%nat ∈ w_live w3') as Hl by by (refine (bool_decide_unpack _ _); vm_compute).
  pose proof (create_CER_typed base cfg objs names _ base_ce_dict cfg_ce_config (at_ 2) w3' 7%nat Hcmd Hl) as (w' & m & Hrun & _ & Ht & _ & _).
  split; [exact Hcmd|]. split; [exact Hl|]. exists w', m. split; [exact Hrun|]. split; [exact Ht|].
  assert (match create_CER base cfg objs (at_ 2) 7%nat w3' with Ret _ m => bool_decide (msg_size base m < 2 ^ 32) | _ => false end = true) as Hs
    by by vm_compute.
  rewrite Hrun in Hs. by apply bool_decide_eq_true in Hs.
Defined.

(** The host [h.example.net] waits for the CEA on its connection 7 when the CER of
    [p.example.net] comes on the connection 8; there, a CER has come on the
    connection 3 before the connection 4 is established. *)
Definition host_h : party (D:=dict) (S:=list bytes) := Party base cfg objs 10 (at_ 3) (set_live {[7%nat; 8%nat]} w3) 7 8.
Definition cfg_p : fd_config :=
  FdConfig (Identity (str "p.example.net") (str "example.net") 7) 30 6 [Endpoint (SA_IN [10; 0; 0; 2] 3868) 1]
    [App 4 0 true false] false false false 0 (str "freeDiameter") 10500.
Definition peer_h : fd_peer :=
  set_p_state STATE_WAITCNXACK_ELEC (set_p_receiver (Some 3%nat) (set_p_cer (Some cea) (set_p_events (Some [])
    (Peer (str "H.example.net") [] (PeerConfig PI_SEC_NONE false true None 0 0 0) init_runtime STATE_NEW (TS 0 0)
      (PeerFlags false false false false false 0) None (TS 0 0) [] OutNone 1 init_srl [] 0 None None false None false false)))).
Definition host_p : party (D:=dict) (S:=list bytes) :=
  Party base cfg_p objs 10 (at_ 3) (World peer_h [] [] {[3%nat; 4%nat]} (fd_fifo_new 0) [] [] 0 []) 4 3.

Lemma host_h_meets : meets host_h cea (newCER host_h cea).
Proof.
  constructor; [|by vm_compute..]. split; [|split; [by eexists|by intros ?%not_elem_of_nil|by intros []|constructor|by intros [|[]]]].
  split; [by refine (bool_decide_unpack _ _)|]. intros c Hc. cbn in *. set_solver.
Qed.
Lemma host_p_meets : meets host_p cea (newcnx host_p).
Proof.
  eapply MeetsCnx; [|by vm_compute..]. split; [|split; [by eexists|by intros ?%not_elem_of_nil|by intros []|constructor|by intros [|[]]]].
  split; [by refine (bool_decide_unpack _ _)|]. intros c Hc. cbn in *. set_solver.
Qed.

Lemma election_one_winner_witness :
  meets host_h cea (newCER host_h cea) ∧ meets host_p cea (newcnx host_p) ∧
  strcasecmp (str "h.example.net") (str "p.example.net") < 0 ∧
  keeps_own host_h (newCER host_h cea) ∧ keeps_other host_p cea (newcnx host_p).
Proof.
  pose proof (election_one_winner host_h host_p cea cea _ _ host_h_meets host_p_meets eq_refl eq_refl) as H.
  split; [exact host_h_meets|]. split; [exact host_p_meets|]. split; [by vm_compute|].
  destruct H as [[H _]|(_ & H1 & H2)]; [by repeat constructor..|by vm_compute|exfalso; by vm_compute in H|]. by split.
Defined.

(** The initiator may use both, the receiver only a clear connection: one starts
    TLS, the other does not. *)
Lemma isi_negotiation_witness :
  receiver_choice cfg cfg 3 1 = PI_SEC_NONE ∧ initiator_clear cfg cfg 3 1 = false.
Proof.
  assert (receiver_choice cfg cfg 3 1 = PI_SEC_NONE) as Hr by by vm_compute.
  destruct (isi_negotiation cfg cfg 3 1) as (_ & _ & _ & H); [lia|lia|by rewrite Hr|].
  split; [exact Hr|]. apply H. rewrite Hr. split; [done|]. right. by vm_compute.
Defined.
End Examples.
