(* ===== verification/PsmReq.v ===== *)
(** * Whose assertions fail while the state machine runs

    The lists of sent requests name exactly the requests that exist, whatever the
    peer does: the state machine, the output thread, the rest of the daemon and the
    thread that expires the requests keep it so, and no assertion of [p_sr.c] on
    these lists fails.  Unlike [sr_wf] this needs nothing of the messages.  An
    assertion on a value that is read, or of the functions on messages, fails only
    in the events that read values, or use messages. *)

From Stdlib Require Import ZArith Lia String.
From stdpp Require Import base sets list gmap.
From S2P Require Import Prelude Time DictTypes Msg MsgBuf MsgDict MsgTree MsgRules Fifo SentReq CoreMsg Effect PeerTypes Peer LinkLocal Capab Exchange Psm.

(** ** The operations of [p_sr.c] *)

Record sr_mem (σ : sr_list) : Prop := {
  sm_srs x : x ∈ srs σ ↔ is_Some (heap σ !! x);
  sm_nodup : NoDup (srs σ);
  sm_exp x : x ∈ exp σ → is_Some (heap σ !! x);
  sm_fresh x : is_Some (heap σ !! x) → (x < next_sr σ)%nat;
  sm_cnt : cnt σ = zlen (srs σ) }.

Lemma sr_wf_mem σ : sr_wf σ → sr_mem σ.
Proof. intros []. split; try done. by apply (Increasing_NoDup _ _ wf_hbh). Qed.

(** What an operation does with the lists. *)
Definition keeps_mem (r : res sr_list) : Prop := match r with Ok σ => sr_mem σ | Err _ => True | Crash => False end.

Section operations.
Context (σ : sr_list) (Hm : sr_mem σ).

Lemma remove_mem x s : heap σ !! x = Some s → sr_mem (remove x σ).
Proof.
  intros Hx. assert (∀ y, is_Some (heap (remove x σ) !! y) ↔ y ≠ x ∧ is_Some (heap σ !! y)) as Hh.
  { intros y. cbn. rewrite lookup_delete_is_Some. naive_solver. }
  split.
  - intros y. rewrite Hh. cbn. rewrite elem_of_unlink. by rewrite (sm_srs σ Hm).
  - apply NoDup_filter, Hm.
  - intros y. rewrite Hh. cbn. rewrite elem_of_unlink. intros [? ?]. split; [done|]. by apply (sm_exp σ Hm).
  - intros y [_ Hy]%Hh. by apply (sm_fresh σ Hm).
  - cbn. unfold unlink. rewrite zlen_removed by apply Hm. rewrite (sm_cnt σ Hm), decide_True; [done|].
    apply (sm_srs σ Hm). by exists s.
Qed.

Lemma insert_mem l e s n t :
  l ≡ₚ next_sr σ :: srs σ → (∀ y, y ∈ e → y = next_sr σ ∨ y ∈ exp σ) →
  sr_mem (SrList l e (<[next_sr σ := s]> (heap σ)) (S (next_sr σ)) (cnt σ + 1) n t).
Proof.
  intros Hl He. assert (∀ y, is_Some (<[next_sr σ := s]> (heap σ) !! y) ↔ y = next_sr σ ∨ is_Some (heap σ !! y)) as Hh.
  { intros y. rewrite lookup_insert_is_Some. destruct (decide (y = next_sr σ)); naive_solver. }
  split; cbn [srs exp heap next_sr cnt].
  - intros y. by rewrite Hh, Hl, elem_of_cons, (sm_srs σ Hm).
  - rewrite Hl. constructor; [|apply Hm]. intros Hx%(sm_srs σ Hm)%(sm_fresh σ Hm). lia.
  - intros y [->|Hy]%He; apply Hh; [by left|right; by apply (sm_exp σ Hm)].
  - intros y [->|Hy]%Hh; [lia|]. apply (sm_fresh σ Hm) in Hy. lia.
  - unfold zlen. rewrite Hl, (sm_cnt σ Hm). unfold zlen. simpl. lia.
Qed.

Lemma insert_behind_Permutation rest a x l : rev l = a ++ rest → insert_behind rest x l ≡ₚ x :: l.
Proof. intros Hl. destruct (insert_behind_app rest a x l Hl) as [E ->]. rewrite E at 1. solve_Permutation. Qed.

Lemma store_mem req r : keeps_mem (let* (σ, _) := fd_p_sr_store σ req r in Ok σ).
Proof.
  unfold fd_p_sr_store.
  destruct (find_or_prev_spec (heap σ) (rev (srs σ)) (hbhid req)) as (a & rest & b & -> & Hl & _).
  { intros x. rewrite elem_of_rev. intros Hx. by apply (sm_srs σ Hm). }
  cbn [res_bind]. destruct b; [done|]. destruct (fd_msg_anscb_gettimeout req) as [t|].
  - destruct (exp_prev_spec (heap σ) (rev (exp σ)) (ts_of t)) as (a' & li & -> & Hl' & _).
    { intros x. rewrite elem_of_rev. intros Hx. by apply (sm_exp σ Hm). }
    cbn [res_bind keeps_mem]. apply insert_mem; [by eapply insert_behind_Permutation|].
    intros y. rewrite (insert_behind_Permutation _ _ _ _ Hl'), elem_of_cons. done.
  - cbn [res_bind keeps_mem]. apply insert_mem; [by eapply insert_behind_Permutation|by right].
Qed.

Lemma lost_mem n : sr_mem (set_lost n σ).
Proof. by destruct Hm. Qed.

Lemma fetch_mem k : keeps_mem (let* (σ, _) := fd_p_sr_fetch σ k in Ok σ).
Proof.
  unfold fd_p_sr_fetch. destruct (find_or_next_spec (heap σ) (srs σ) k) as (a & rest & b & -> & Hl & _ & Hr).
  { intros x Hx. by apply (sm_srs σ Hm). }
  cbn [res_bind]. destruct b.
  - destruct rest as [|x rest]; [done|]. destruct (proj1 (sm_srs σ Hm x)) as [s Hs]; [rewrite Hl; set_solver|].
    rewrite (deref_some _ _ _ Hs). by eapply remove_mem.
  - cbn [keeps_mem]. case_decide; [apply lost_mem|done].
Qed.
End operations.

Lemma expiry_mem σ now σ' t : sr_mem σ → sr_expiry_th σ now = Ok (σ', t) → sr_mem σ'.
Proof.
  intros Hm. unfold sr_expiry_th. destruct (exp σ) as [|x l] eqn:El; [by intros [= <- _]|].
  destruct (sm_exp σ Hm x) as [s Hs]; [rewrite El; by left|]. rewrite (deref_some _ _ _ Hs). cbn [res_bind].
  destruct (TS_IS_INFERIOR _ _); [by intros [= <- _]|].
  destruct (fd_msg_anscb_get _) as [[? [cb|]] ?]; [|done]. intros [= <- _]. apply lost_mem. by eapply remove_mem.
Qed.

Lemma failover_loop_mem σ q now :
  sr_mem σ → ∃ σ' q', failover_loop (srs σ) σ q now = Ok (σ', q') ∧ sr_mem σ' ∧ srs σ' = [].
Proof.
  remember (srs σ) as l eqn:Hl. revert σ q Hl. induction l as [|x l IH]; intros σ q Hl Hm; [by exists σ, q|].
  destruct (proj1 (sm_srs σ Hm x)) as [s Hs]; [rewrite <- Hl; by left|]. cbn [failover_loop].
  rewrite (deref_some _ _ _ Hs). cbn [res_bind]. destruct (fd_msg_is_routable (sr_req s)) as [b m].
  apply IH; [|by eapply remove_mem]. cbn [remove srs]. rewrite <- Hl. pose proof (sm_nodup σ Hm) as Hn. rewrite <- Hl in Hn.
  apply NoDup_cons in Hn as [Hx _]. unfold unlink. rewrite filter_cons, decide_False by (intros H; by apply H).
  symmetry. by apply unlink_absent.
Qed.

Lemma failover_mem σ q now : sr_mem σ → ∃ σ' q', fd_p_sr_failover σ q now = Ok (σ', q') ∧ sr_mem σ'.
Proof.
  intros Hm. unfold fd_p_sr_failover. destruct (failover_loop_mem σ q now Hm) as (σ' & q' & -> & Hm' & Hs).
  cbn [res_bind]. assert (exp σ' = []) as He.
  { destruct (exp σ') as [|x l] eqn:El; [done|]. destruct (sm_exp σ' Hm' x) as [s Hx]; [rewrite El; by left|].
    assert (x ∈ srs σ') as Hin by (apply (sm_srs σ' Hm'); by exists s). rewrite Hs in Hin. by apply not_elem_of_nil in Hin. }
  rewrite !bool_decide_true by (done || by rewrite (sm_cnt σ' Hm'), Hs). eexists _, q'. split; [done|]. by destruct Hm'.
Qed.

Lemma disconnect_loop_mem l σ : sr_mem σ → NoDup l → (∀ x, x ∈ l → x ∈ srs σ) → keeps_mem (disconnect_loop l σ).
Proof.
  revert σ. induction l as [|x l IH]; intros σ Hm Hn Hl; [done|]. apply NoDup_cons in Hn as [Hx Hn].
  destruct (proj1 (sm_srs σ Hm x)) as [s Hs]; [apply Hl; by left|]. cbn [disconnect_loop].
  rewrite (deref_some _ _ _ Hs). cbn [res_bind]. destruct (fd_msg_is_routable (sr_req s)) as [[] m]; apply IH; try done.
  - assert (∀ y z, is_Some (<[x := z]> (heap σ) !! y) ↔ is_Some (heap σ !! y)) as Hh.
    { intros y z. rewrite lookup_insert_is_Some. destruct (decide (y = x)) as [->|]; naive_solver. }
    destruct Hm as [H1 H2 H3 H4 H5]. split; try done; cbn; intros y; rewrite ?Hh; auto.
  - intros y Hy. apply Hl. by right.
  - by eapply remove_mem.
  - intros y Hy. cbn [remove srs]. apply elem_of_unlink. split; [by intros ->|]. apply Hl. by right.
Qed.

Lemma disconnect_mem σ : sr_mem σ → keeps_mem (fd_p_sr_on_disconnect σ).
Proof. intros Hm. apply disconnect_loop_mem; [done|apply Hm|done]. Qed.

(** ** The calls on the peer *)

Section peer.
Context {D S : Type} `{!MsgDictionary D} `{!DispDictionary D} `{!CoreDictionary D} `{!MsgSessions S} `{!AddressTypes D}.
Context (d : D) (cfg : fd_config) (bo : base_objs) (pei_message : perr + rules_err → option bytes) (fuel : nat) (env : env).
Abbreviation M := (M (world S)).

(** The call keeps the lists, and no assertion of [p_sr.c] fails. *)
Definition requests_ok (w : world S) : Prop := sr_mem (p_sr (w_peer w)).
Abbreviation calm := (spares (eq Requests) requests_ok).

Lemma lift_sr_calm f : (∀ σ, sr_mem σ → keeps_mem (f σ)) → calm (lift_sr f : M unit).
Proof.
  intros Hf. unfold lift_sr. apply leaves_gets_bind. intros w Hw. specialize (Hf _ Hw). unfold bind, lift_at.
  by destruct (f (p_sr (w_peer w))).
Qed.

Lemma failover_msg_calm : calm (fd_peer_failover_msg env : M unit).
Proof.
  unfold fd_peer_failover_msg. apply leaves_gets_bind. intros w Hw. unfold bind, gets, modify, upd. cbn [id].
  set (q := foldl _ _ _). destruct (failover_mem (p_sr (w_peer w)) q (e_now env) Hw) as (σ' & q' & E & H).
  cbn [modify]. rewrite E. exact H.
Qed.

Lemma associate_calm m : calm (associate m : M (option (msg * option msg))).
Proof.
  unfold associate. destruct (is_request m); [apply leaves_ret|]. apply leaves_gets_bind. intros w Hw.
  pose proof (fetch_mem _ Hw (hbhid m)) as H. unfold bind at 1, lift_at.
  destruct (fd_p_sr_fetch (p_sr (w_peer w)) (hbhid m)) as [[σ req]| |]; [|done..]. cbn [ret].
  unfold bind at 1, upd, modify. destruct req; [|exact H]. unfold require. by destruct (bool_decide _).
Qed.

Lemma store_calm m r : calm (lift_sr (λ σ, let* (σ, _) := fd_p_sr_store σ m r in Ok σ) : M unit).
Proof. apply lift_sr_calm. intros σ Hσ. by apply store_mem. Qed.

Lemma disconnect_calm : calm (lift_sr fd_p_sr_on_disconnect : M unit).
Proof. apply lift_sr_calm, disconnect_mem. Qed.

Lemma free_events_calm l : calm (free_events l : M unit).
Proof. induction l as [|ev l IH]; cbn [free_events]; leaves_tac. Qed.

Lemma validate_calm l : calm (fd_peer_validate l : M bool).
Proof. induction l as [|v l IH]; cbn [fd_peer_validate]; leaves_tac. Qed.

#[local] Hint Resolve failover_msg_calm associate_calm store_calm disconnect_calm free_events_calm validate_calm : leaves.

Lemma change_state_calm st : calm (fd_psm_change_state env st : M unit).
Proof. leaves_tac. Qed.
Lemma cleanup_calm b : calm (fd_psm_cleanup env b : M unit).
Proof. pose proof change_state_calm. leaves_tac. Qed.
Lemma out_send_calm m c b b' : calm (fd_out_send d env m c b b' : M unit).
Proof. leaves_tac. Qed.
#[local] Hint Resolve change_state_calm cleanup_calm out_send_calm : leaves.

Lemma turn_calm : calm (p_psm_turn d cfg bo pei_message fuel env : M progress).
Proof. leaves_tac. Qed.
Lemma out_thr_calm : calm (out_thr d env : M unit).
Proof. leaves_tac. Qed.
Lemma start_calm b : calm (fd_psm_begin ;! p_psm_start env b : M unit).
Proof. leaves_tac. Qed.
Lemma abord_calm : calm (fd_psm_abord env : M unit).
Proof. leaves_tac. Qed.
Lemma event_send_calm ev : calm (fd_event_send ev : M unit).
Proof. leaves_tac. Qed.

(** ** Values

    The events that read an AVP or look a reason up: a message, a CER (of the event,
    or the one kept in an election), a termination. *)

Definition reads_values (st : peer_state) (ev : fd_event) : Prop :=
  match ev with
  | FDEVP_CNX_MSG_RECV _ | FDEVP_CNX_INCOMING _ _ _ | FDEVP_TERMINATE _ => True
  | FDEVP_CNX_ESTABLISHED _ | FDEVP_CNX_FAILED | FDEVP_CNX_ERROR | FDEVP_PSM_TIMEOUT => st = STATE_WAITCNXACK_ELEC
  | FDEVP_CNX_EP_CHANGE | FDEVP_CNX_SHUTDOWN => False
  end.

#[export] Instance reads_values_dec st ev : Decision (reads_values st ev).
Proof. destruct ev; cbn [reads_values]; apply _. Defined.

(** The event of a round. *)
Definition next_event (w : world S) : option fd_event :=
  match p_events (w_peer w) with
  | Some (ev :: _) => Some ev
  | Some [] => if TS_IS_INFERIOR (e_now env) (p_psm_timer (w_peer w)) then None else Some FDEVP_PSM_TIMEOUT
  | None => None
  end.

(** The events that make the thread write or read a message. *)
Definition uses_messages (st : peer_state) (ev : fd_event) : Prop :=
  match ev with
  | FDEVP_CNX_MSG_RECV _ | FDEVP_CNX_INCOMING _ _ _ | FDEVP_TERMINATE _ | FDEVP_CNX_ESTABLISHED _ | FDEVP_PSM_TIMEOUT => True
  | FDEVP_CNX_FAILED | FDEVP_CNX_ERROR => st = STATE_WAITCNXACK_ELEC
  | FDEVP_CNX_EP_CHANGE | FDEVP_CNX_SHUTDOWN => False
  end.

#[export] Instance uses_messages_dec st ev : Decision (uses_messages st ev).
Proof. destruct ev; cbn [uses_messages]; apply _. Defined.

(** No assertion of [c] fails. *)
Abbreviation spared c := (spares (eq c) (λ _ : world S, True)).
Abbreviation fine := (spared Values).

Section spared.
Context (c : culprit) (Hown : c ≠ Own) (Hreq : c ≠ Requests).

Lemma free_events_spared l : spared c (free_events l : M unit).
Proof using Hown Hreq. induction l as [|ev l IH]; cbn [free_events]; leaves_tac. Qed.
#[local] Hint Resolve free_events_spared : leaves.

Lemma change_state_spared st : spared c (fd_psm_change_state env st : M unit).
Proof using Hown Hreq. leaves_tac. Qed.
Lemma cleanup_spared b : spared c (fd_psm_cleanup env b : M unit).
Proof using Hown Hreq. pose proof change_state_spared. leaves_tac. Qed.
#[local] Hint Resolve change_state_spared cleanup_spared : leaves.

Lemma goto_spared l : spared c (goto env l : M progress).
Proof using Hown Hreq. leaves_tac. Qed.
End spared.

Definition free_events_fine := free_events_spared Values ltac:(done) ltac:(done).
Definition change_state_fine := change_state_spared Values ltac:(done) ltac:(done).
Definition cleanup_fine := cleanup_spared Values ltac:(done) ltac:(done).
Definition free_events_message := free_events_spared Message ltac:(done) ltac:(done).
Definition change_state_message := change_state_spared Message ltac:(done) ltac:(done).
Definition cleanup_message := cleanup_spared Message ltac:(done) ltac:(done).
#[local] Hint Resolve free_events_fine change_state_fine cleanup_fine free_events_message change_state_message cleanup_message : leaves.

(** A connection that is not part of an election. *)
Lemma newcnx_fine st c w :
  p_state (w_peer w) = st → st ≠ STATE_WAITCNXACK_ELEC → fd_p_ce_handle_newcnx d cfg bo fuel env c w ≠ Abort Values.
Proof.
  intros Hw Hst. assert (∀ m : M msg, spares (eq Values) (λ w, p_state (w_peer w) = st) m → ∀ m' : msg → M unit,
    (∀ a, spares (eq Values) (λ w, p_state (w_peer w) = st) (m' a)) → ∀ f : M unit,
    (∀ w, p_state (w_peer w) = st → f w ≠ Abort Values) → (let! a := m in m' a ;! f) w ≠ Abort Values) as Hseq.
  { intros m Hm m' Hm' f Hf. unfold bind. specialize (Hm w Hw). destruct (m w) as [w1 a|w1 e|x]; [|done|naive_solver].
    specialize (Hm' a w1 Hm). destruct (m' a w1) as [w2 b|w2 e|x]; [by apply Hf|done|naive_solver]. }
  unfold fd_p_ce_handle_newcnx. apply Hseq; [leaves_tac|intros; leaves_tac|]. intros w1 Hw1. unfold bind at 1, get, gets. cbn [id].
  rewrite Hw1, decide_False by done. assert (fine (to_waitcea env c)) as H by leaves_tac.
  specialize (H w1 I). destruct (to_waitcea env c w1); naive_solver.
Qed.

Lemma event_fine ev w : ¬ reads_values (p_state (w_peer w)) ev → handle_event d cfg bo pei_message fuel env ev w ≠ Abort Values.
Proof.
  intros Hr. set (st := p_state (w_peer w)) in *.
  assert (∀ m : M label, fine m → ∀ w, m w ≠ Abort Values) as Hfine.
  { intros m Hm w' E. specialize (Hm w' I). rewrite E in Hm. by apply Hm. }
  unfold handle_event, bind at 1, get, gets. fold st. unfold assertM. destruct (bool_decide _); [|done]. unfold bind at 1. cbn [ret].
  destruct ev; cbn [reads_values] in Hr; try done; try solve [apply Hfine; leaves_tac].
  - apply Hfine. unfold on_cnx_error. destruct st; try done; leaves_tac.
  - unfold on_established, bind at 1, upd, modify. set (w1 := set_peer _ w). assert (p_state (w_peer w1) = st) as Hw1 by done.
    destruct st; try done; try solve [apply (Hfine (_ ;! ret psm_loop)); leaves_tac].
    unfold bind, ignore, catch. pose proof (newcnx_fine STATE_WAITCNXACK cnx w1 Hw1 ltac:(done)) as H.
    destruct (fd_p_ce_handle_newcnx _ _ _ _ _ _ _); cbn in *; [done..|]. intros [= ->]. by apply H.
  - apply Hfine. unfold on_failed. destruct st; try done; leaves_tac.
  - apply Hfine. unfold on_timeout. destruct st; try done; leaves_tac.
Qed.

Lemma event_message ev w : ¬ uses_messages (p_state (w_peer w)) ev → handle_event d cfg bo pei_message fuel env ev w ≠ Abort Message.
Proof.
  intros Hr. set (st := p_state (w_peer w)) in *.
  assert (∀ m : M label, spared Message m → ∀ w, m w ≠ Abort Message) as Hsp.
  { intros m Hm w' E. specialize (Hm w' I). rewrite E in Hm. by apply Hm. }
  unfold handle_event, bind at 1, get, gets. fold st. unfold assertM. destruct (bool_decide _); [|done]. unfold bind at 1. cbn [ret].
  destruct ev; cbn [uses_messages] in Hr; try done; try solve [apply Hsp; leaves_tac].
  - apply Hsp. unfold on_cnx_error. destruct st; try done; leaves_tac.
  - apply Hsp. unfold on_failed. destruct st; try done; leaves_tac.
Qed.

(** The event of a round that ends in an assertion of [c], if those of [c] fail in
    the events of [R] only. *)
Lemma turn_event c (R : peer_state → fd_event → Prop) `{∀ st ev, Decision (R st ev)} w :
  c ≠ Own → c ≠ Requests →
  (∀ ev w, ¬ R (p_state (w_peer w)) ev → handle_event d cfg bo pei_message fuel env ev w ≠ Abort c) →
  p_psm_turn d cfg bo pei_message fuel env w = Abort c → ∃ ev, next_event w = Some ev ∧ R (p_state (w_peer w)) ev.
Proof.
  intros Hown Hreq Hh. assert (∀ l (w' : world S), goto env l w' ≠ Abort c) as Hgoto.
  { intros l w' E. pose proof (goto_spared c Hown Hreq l w' I) as H'. rewrite E in H'. by apply H'. }
  assert (∀ ev (w' : world S), p_state (w_peer w') = p_state (w_peer w) → (let! l := handle_event d cfg bo pei_message fuel env ev in goto env l) w' = Abort c →
    R (p_state (w_peer w)) ev) as Hev.
  { intros ev w' Hst. unfold bind. destruct (handle_event _ _ _ _ _ _ ev w') as [w2 l|w2 e|c'] eqn:E; [by intros ?%Hgoto|done|].
    intros [= ->]. destruct (decide (R (p_state (w_peer w)) ev)) as [|Hn]; [done|]. rewrite <- Hst in Hn. by apply Hh in Hn. }
  unfold p_psm_turn, bind at 1, fd_event_timedget, bind at 1, get, gets, next_event. cbn [id].
  destruct (p_events (w_peer w)) as [[|ev l]|].
  - cbn [ret]. destruct (TS_IS_INFERIOR _ _); [done|]. intros H'. eexists. split; [done|]. by eapply Hev.
  - unfold bind at 1, upd, modify. cbn [ret]. intros H'. eexists. split; [done|]. by apply (Hev ev) in H'.
  - cbn [ret]. intros H'. by apply (Hgoto psm_end) in H'.
Qed.

Lemma turn_fine w :
  p_psm_turn d cfg bo pei_message fuel env w = Abort Values → ∃ ev, next_event w = Some ev ∧ reads_values (p_state (w_peer w)) ev.
Proof. apply (turn_event Values reads_values); [done|done|exact event_fine]. Qed.
Lemma turn_message w :
  p_psm_turn d cfg bo pei_message fuel env w = Abort Message → ∃ ev, next_event w = Some ev ∧ uses_messages (p_state (w_peer w)) ev.
Proof. apply (turn_event Message uses_messages); [done|done|exact event_message]. Qed.
End peer.
