(* ===== verification/PsmSpec.v ===== *)
(** * What the state machine of a peer guarantees

    The properties of the whole machine: a round of the thread is safe, and every
    reachable world is consistent. *)

From Stdlib Require Import ZArith Lia String.
From stdpp Require Import base sorting sets list gmap.
From S2P Require Import Prelude Time Ostr DictTypes Msg MsgBuf MsgDict MsgTree MsgRules Fifo SentReq Apps Endpoints CoreMsg Effect PeerTypes Peer LinkLocal Capab Exchange Psm PeerExamples PsmInv PsmSafe PsmReq.

#[local] Arguments str : simpl never.

Section spec.
Context {D S : Type} `{!MsgDictionary D} `{!DispDictionary D} `{!CoreDictionary D} `{!MsgSessions S} `{!AddressTypes D}.
Context (d : D) (cfg : fd_config) (bo : base_objs) (pei_message : perr + rules_err → option bytes) (fuel : nat).
Abbreviation M := (M (world S)).
Implicit Types (w : world S) (k : core).

(** ** A round of the thread *)

(** What a round makes of the core: nothing while it waits; a consistent core as
    long as it loops; the state ZOMBIE, without a queue nor a connection, at the
    end. *)
Definition turn_post (env : env) (k : core) (r : progress) (k' : core) : Prop :=
  match r with
  | Waiting => k' = k
  | Looping => good env [] k k'
  | Ended => ended [] k' ∧ c_state k' = STATE_ZOMBIE
  end.

Lemma wp_do_end env k w :
  safe [] (core_of w) → c_state (core_of w) ≠ STATE_ZOMBIE →
  wp (do_end env) (λ r w', turn_post env k r (core_of w')) (λ _ _, False) w.
Proof.
  intros Hs Hz. apply wp_bind. eapply (wp_cleanup_true _ []); [done..|]. intros w1 Hw1.
  apply wp_bind, wp_modify, wp_bind, wp_modify, wp_ret. split; [|done].
  destruct Hw1 as ([Hn Hl] & H1 & H2 & H3 & H4 & H5 & H6). by split_and!.
Qed.

Lemma wp_goto env k l w :
  safe [] (core_of w) → c_state (core_of w) ≠ STATE_ZOMBIE → (l = psm_loop → good env [] k (core_of w)) →
  wp (goto env l) (λ r w', turn_post env k r (core_of w')) (λ _ _, False) w.
Proof.
  intros Hs Hz Hg. destruct l; [by apply wp_ret, Hg| |by apply wp_do_end].
  apply wp_bind, wp_gets. destruct (pf_delete _); [by apply wp_do_end|].
  apply wp_bind. eapply (wp_cleanup_false _ []); [done..|]. intros w1 (_ & _ & _ & _ & Hst) Hs1.
  apply wp_ret. eapply (good_to _ _ _ _ STATE_CLOSED); [exact Hs1|exact Hst|done|by intros [|[]]].
Qed.

Lemma wp_turn env w :
  let k := core_of w in
  safe [] k → regular (c_state k) →
  wp (p_psm_turn d cfg bo pei_message fuel env) (λ r w', turn_post env k r (core_of w')) (λ _ _, False) w.
Proof.
  intros k Hs Hreg. apply wp_bind. unfold fd_event_timedget. apply wp_bind, wp_gets. cbn [id].
  destruct (s_events _ (proj2 Hs)) as [l Hl]. change (p_events (w_peer w)) with (c_events k). rewrite Hl.
  assert (∀ ev w1, core_of w1 = k_events (c_events (core_of w1)) (c_live k) k → safe (ev_cnx ev) (core_of w1) →
    wp (let! l := handle_event d cfg bo pei_message fuel env ev in goto env l)
       (λ r w', turn_post env k r (core_of w')) (λ _ _, False) w1) as Hev.
  { intros ev w1 Hw1 Hs1. assert (c_state (core_of w1) = c_state k) as Hst1 by by rewrite Hw1.
    apply wp_bind. eapply wp_mono; [apply handles_event; [exact Hs1|by rewrite Hst1|done]|..]; [|done].
    intros lb w2 Hg. destruct (good_trans _ _ k _ _ (λ H, eq_ind _ opened H _ Hst1) Hg) as [H1 H2 H3 H4]. apply wp_goto; [done|apply H2|done]. }
  destruct l as [|ev l].
  - apply wp_ret. destruct (TS_IS_INFERIOR _ _); [by apply wp_ret|]. by apply Hev.
  - apply wp_bind, wp_modify, wp_ret. apply Hev; [done|]. destruct Hs as [Hc [H1 H2 H3 H4 H5]]. split; [|by split].
    eapply conns_same; [exact Hc| |done]. unfold owned. cbn. cbn in Hl. rewrite Hl. unfold queued. cbn. solve_Permutation.
Qed.

(** C3: A round of the thread of the state machine, from a consistent world in
    any state but NEW, ZOMBIE and OPEN_HANDSHAKE, makes no assertion of [p_psm.c],
    [peers.c], [cnxctx.c] or [p_sr.c] fail: no destroyed connection is used or
    destroyed again, and the lists of sent requests stay exact.  Unless an
    assertion of the kinds below fails it returns, and no error escapes.  It leaves
    a consistent world, or ends the peer; a connection becomes open only if it is
    protected by TLS or the configuration does not ask for it; and the state
    OPEN_HANDSHAKE is left only by an in-band handshake that has failed.

    What may fail is an assertion of [p_ce.c], [p_dw.c] or [p_dp.c] on the value of
    an AVP or on a reason, and only if the event of the round is a message, a
    connection with its CER, a termination, or ends an election with the CER that
    was kept ([reads_values]); or an assertion of the functions on messages, which
    have their own theorems, and only if the event makes the thread write or read a
    message ([uses_messages]).  The first kind really happens (Examples [dwr_aborts], [dpr_aborts], [cea_aborts]).  The state OPEN_HANDSHAKE,
    which is reachable, is left out because the next event is refused there by an
    assertion (Lemma [handshake_aborts]). *)
Theorem p_psm_turn_safe env w :
  safe [] (core_of w) → regular (p_state (w_peer w)) → requests_ok w →
  match p_psm_turn d cfg bo pei_message fuel env w with
  | Ret w' r => turn_post env (core_of w) r (core_of w') ∧ requests_ok w'
  | Fail _ _ => False
  | Abort c =>
      ∃ ev, next_event env w = Some ev ∧
        ((c = Values ∧ reads_values (p_state (w_peer w)) ev) ∨ (c = Message ∧ uses_messages (p_state (w_peer w)) ev))
  end.
Proof.
  intros Hs Hreg Hr. pose proof (wp_turn env w Hs Hreg) as H1. unfold wp in H1.
  pose proof (turn_calm d cfg bo pei_message fuel env w Hr) as H2.
  pose proof (turn_fine d cfg bo pei_message fuel env w) as H3.
  pose proof (turn_message d cfg bo pei_message fuel env w) as H4.
  destruct (p_psm_turn d cfg bo pei_message fuel env w) as [w' r|w' e|[]]; [by split|done|by destruct H1|by destruct H2|..].
  - destruct (H3 eq_refl) as (ev & ? & ?). exists ev. auto.
  - destruct (H4 eq_refl) as (ev & ? & ?). exists ev. auto.
Qed.

(** ** The reachable worlds *)

(** A new peer, as [fd_peer_alloc] makes it. *)
Record new_peer (w : world S) : Prop := {
  n_state : p_state (w_peer w) = STATE_NEW; n_cnx : p_cnxctx (w_peer w) = None; n_recv : p_receiver (w_peer w) = None;
  n_out : p_outthr (w_peer w) = OutNone; n_active : pi_diamid (w_peer w) ∉ w_active w;
  n_sorted : Increasing fd_os_cmp_int (w_active w); n_requests : requests_ok w }.

(** What happens to a peer: a round of its thread, as long as it has a queue; a
    round of the output thread; a message sent by the rest of the daemon; an event
    from a connection, from the thread that connects or from the server, which
    brings a new connection; a round of the thread that expires the requests; and
    the end of the daemon, which cancels the thread of the peer between two rounds
    ([fd_psm_abord], from [fd_peer_fini_force]).  The boolean tells the last one
    from the others. *)
Inductive psm_step : bool → world S → world S → Prop :=
  | StepTurn env w w' r :
      is_Some (p_events (w_peer w)) → p_psm_turn d cfg bo pei_message fuel env w = Ret w' r → psm_step false w w'
  | StepOut env w w' : out_thr d env w = Ret w' tt → psm_step false w w'
  | StepSend env m b w w' : fd_out_send d env m None true b w = Ret w' tt → psm_step false w w'
  | StepEvent ev w w' :
      (∀ c, c ∈ ev_cnx ev → c ∉ w_live w) →
      fd_event_send ev (set_live (w_live w ∪ list_to_set (ev_cnx ev)) w) = Ret w' tt → psm_step false w w'
  | StepExpiry now σ t w : sr_expiry_th (p_sr (w_peer w)) now = Ok (σ, t) → psm_step false w (set_peer (set_p_sr σ (w_peer w)) w)
  | StepAbord env w w' : fd_psm_abord env w = Ret w' tt → psm_step true w w'.

(** The worlds that a peer reaches, and whether it has been aborted. *)
Inductive psm_reachable : bool → world S → Prop :=
  | ReachStart env b w w' : new_peer w → (fd_psm_begin ;! p_psm_start env b) w = Ret w' tt → psm_reachable false w'
  | ReachStep a b w w' : psm_reachable a w → psm_step b w w' → psm_reachable (a || b) w'.

(** The end of [fd_psm_abord]: like [ended], but the peer is still in the list of
    active peers, and has its output thread, if it was open. *)
Definition aborted (k : core) : Prop :=
  conns [] k ∧ c_events k = None ∧ c_cnx k = None ∧ c_recv k = None ∧ Increasing fd_os_cmp_int (c_active k).

Lemma ended_aborted k : ended [] k → aborted k.
Proof. intros (H1 & H2 & H3 & H4 & _ & _ & H5). by split_and!. Qed.

(** The peer runs, or has ended, or was aborted. *)
Definition consistent (a : bool) (w : world S) : Prop :=
  let k := core_of w in
  (a = false ∧ safe [] k ∧ c_state k ≠ STATE_NEW ∧ c_state k ≠ STATE_ZOMBIE) ∨
  (c_state k = STATE_ZOMBIE ∧ if a then aborted k else ended [] k).

Lemma wp_ret_inv {A} (m : M A) Q E w w' a : wp m Q E w → m w = Ret w' a → Q a w'.
Proof. unfold wp. intros H Hm. by rewrite Hm in H. Qed.

Lemma consistent_conns a w : consistent a w → conns [] (core_of w).
Proof. intros [[_ [[Hc _] _]]|[_ H]]; [done|]. destruct a; apply H. Qed.

Lemma consistent_usable a w : consistent a w → usable (core_of w) (c_cnx (core_of w)).
Proof. intros Hc%consistent_conns. by eapply usable_cnx. Qed.

Lemma consistent_same a w w' : core_of w' = core_of w → consistent a w → consistent a w'.
Proof. unfold consistent. by intros ->. Qed.

Lemma out_thr_consistent a env w w' : consistent a w → out_thr d env w = Ret w' tt → consistent a w'.
Proof.
  intros Hc. pose proof (consistent_usable _ _ Hc) as Hu.
  assert (∀ w', core_of w' = core_of w → consistent a w') as Hsame by (intros; by eapply consistent_same).
  apply (wp_ret_inv _ (λ _, consistent a) (λ _ _, True)). unfold out_thr. apply wp_bind, wp_gets. cbn [id].
  destruct (p_outthr (w_peer w)) eqn:Ho; [by apply Hsame|..].
  all: destruct (p_tosend (w_peer w)) as [|m l]; [by apply Hsame|].
  all: apply wp_bind, wp_modify; set (w1 := set_peer _ w); assert (core_of w1 = core_of w) as Hw1 by done.
  - apply wp_catch. eapply wp_quiet; [by apply quiet_do_send|done|intros _ w2; by apply Hsame|].
    intros _ w2 Hw2. apply wp_bind, wp_modify, wp_ignore. set (w3 := set_peer _ w2).
    assert (core_of w3 = k_lists OutPurging (c_active (core_of w)) (core_of w)) as Hw3 by by rewrite <- Hw2.
    destruct Hc as [(-> & Hs & Hn & Hz)|[Hz Hc]].
    + assert (safe [] (core_of w3)) as Hs3.
      { rewrite Hw3. assert (c_state (core_of w) = STATE_OPEN) as Hst by (apply (s_out _ (proj2 Hs)); cbn; by rewrite Ho).
        destruct Hs as [Hc [H1 H2 H3 H4 H5]]. split; [by eapply conns_same|]. by split. }
      apply wp_event_send; [apply (s_events _ (proj2 Hs3))|]. intros w4 Hw4. left. rewrite Hw4.
      split; [done|]. split; [by apply safe_event|]. by rewrite Hw3.
    + destruct a; [|destruct Hc as (_ & _ & _ & _ & _ & Hout & _); cbn in Hout; congruence].
      assert (consistent true w3) as Hc3.
      { right. rewrite Hw3. split; [done|]. destruct Hc as (Hc & H1 & H2 & H3 & H4). split_and!; try done. by eapply conns_same. }
      destruct Hc as (_ & He & _). unfold fd_event_send. apply wp_bind, wp_gets.
      assert (c_events (core_of w3) = None) as He3 by by rewrite Hw3.
      change (p_events (w_peer w3)) with (c_events (core_of w3)). by rewrite He3.
  - destruct (fd_msg_is_routable m) as [b m']. apply wp_when; intros _; [apply wp_modify|]; by apply Hsame.
Qed.

(** The thread is cancelled in any state. *)
Lemma abord_consistent a env w w' : consistent a w → fd_psm_abord env w = Ret w' tt → consistent true w'.
Proof.
  intros Hc. assert (Increasing fd_os_cmp_int (c_active (core_of w))) as Hact.
  { destruct Hc as [(_ & [_ [? ? ? ? ?]] & _)|[_ Hc]]; [done|]. destruct a; apply Hc. }
  apply consistent_conns in Hc. apply (wp_ret_inv _ (λ _, consistent true) (λ _ _, True)).
  apply wp_bind, wp_modify. set (w1 := set_peer _ w). assert (conns [] (core_of w1)) as Hc1 by by eapply conns_same.
  assert (c_state (core_of w1) = STATE_ZOMBIE ∧ c_active (core_of w1) = c_active (core_of w)) as [Hz Ha] by done.
  clearbody w1. apply wp_bind, wp_gets. change (p_state (w_peer w1)) with (c_state (core_of w1)). rewrite Hz.
  apply wp_bind, wp_when; [by intros []%bool_decide_eq_true|intros _]. apply wp_bind.
  eapply (wp_quiet_nofail (core_of w1)); [apply quiet_lift_sr|apply nofail_on_disconnect|done|]. intros _ w2 Hw2. rewrite <- Hw2 in *.
  apply wp_bind, wp_modify, wp_bind. eapply (wp_clear_cnx []); [exact Hc1|]. intros w3 Hw3 Hc3.
  apply wp_bind, wp_gets, (wp_destroy_recv []); [exact Hc3|done|]. intros w4 Hw4 Hc4.
  assert (c_state (core_of w4) = STATE_ZOMBIE ∧ c_active (core_of w4) = c_active (core_of w) ∧ c_cnx (core_of w4) = None ∧
    c_recv (core_of w4) = None) as (Hz4 & Ha4 & Hcnx & Hrecv) by by rewrite Hw4, Hw3.
  rewrite <- Ha4 in Hact. clear Hw4 Hw3. cbn [when]. apply wp_bind. destruct (c_events (core_of w4)) as [l|] eqn:He.
  - eapply wp_psm_events_free; [by rewrite He|done|]. intros w5 Hw5. apply wp_modify. right. split; [by change (c_state (core_of w5) = STATE_ZOMBIE); rewrite Hw5|].
    set (w6 := set_peer _ _).
    assert (core_of w6 = k_events None (c_live (core_of w5)) (core_of w5)) as -> by done. rewrite Hw5. split_and!; try done.
    eapply (conns_shrink _ _ _ _ (queued (c_events (core_of w4)))); [done| |done]. unfold owned. cbn. solve_Permutation.
  - unfold fd_psm_events_free. apply wp_bind, wp_gets. cbn in He. rewrite He. apply wp_ret, wp_modify. right. split; [done|].
    split_and!; try done. eapply conns_same; [done| |done]. unfold owned. cbn. by rewrite He.
Qed.

Lemma event_consistent a ev w w' :
  consistent a w → (∀ c, c ∈ ev_cnx ev → c ∉ w_live w) →
  fd_event_send ev (set_live (w_live w ∪ list_to_set (ev_cnx ev)) w) = Ret w' tt → consistent a w'.
Proof.
  intros [(-> & [Hc Hs] & Hst)|[_ Hc]] Hnew.
  2:{ assert (c_events (core_of w) = None) as He by (destruct a; apply Hc).
      cbn in He. unfold fd_event_send, bind, get, gets. cbn. by rewrite He. }
  apply (wp_ret_inv _ (λ _, consistent false) (λ _ _, True)). set (w1 := set_live _ w).
  apply wp_event_send; [apply (s_events _ Hs)|]. intros w2 Hw2. left. rewrite Hw2. split; [done|]. split; [|done].
  destruct Hs as [[l Hl] H2 H3 H4 H5]. split; [|split; try done; cbn; cbn in Hl; by rewrite Hl].
  assert (owned (k_events ((λ l, l ++ [ev]) <$> c_events (core_of w1)) (c_live (core_of w1)) (core_of w1)) =
          owned (core_of w) ++ ev_cnx ev) as Ho.
  { unfold owned. cbn. cbn in Hl. rewrite Hl. unfold queued. cbn. rewrite bind_app. cbn. by rewrite app_nil_r, <- !app_assoc. }
  destruct Hc as [Hnd Hlive]. cbn [app] in *. split; cbn [app]; rewrite Ho.
  - apply NoDup_app. split_and!; [done| |destruct ev; cbn; repeat constructor; set_solver].
    intros c Hc Hev. apply (Hnew c Hev), Hlive, Hc.
  - intros c [Hc|Hc]%elem_of_app; cbn; apply elem_of_union; [left; by apply Hlive|right; by apply elem_of_list_to_set].
Qed.

Lemma start_consistent env b w w' : new_peer w → (fd_psm_begin ;! p_psm_start env b) w = Ret w' tt → consistent false w'.
Proof.
  intros [Hst Hc Hr Ho Ha Hs _]. apply (wp_ret_inv _ (λ _, consistent false) (λ _ _, True)).
  apply wp_bind, wp_bind, wp_gets. rewrite Hst. apply wp_bind, wp_require; [intros _|done]. apply wp_modify, wp_bind, wp_modify, wp_bind, wp_gets.
  set (w1 := set_peer _ _).
  assert (consistent false w1) as H1.
  { left. split; [done|]. split; [|done]. split.
    - split; unfold owned; cbn; rewrite Hc, Hr; [constructor|by intros ? ?%not_elem_of_nil].
    - apply idle_status; [|done|by intros [|[]]]. by split_and!. }
  destruct (pf_responder _); by apply wp_modify.
Qed.

(** In the state OPEN_HANDSHAKE the thread can only wait. *)
Lemma stuck_handshake env w w' r :
  is_Some (p_events (w_peer w)) → p_state (w_peer w) = STATE_OPEN_HANDSHAKE →
  p_psm_turn d cfg bo pei_message fuel env w = Ret w' r → core_of w' = core_of w.
Proof.
  intros [l Hl] Hst. unfold p_psm_turn, fd_event_timedget, handle_event, get, gets, upd, modify, assertM, bind, ret.
  cbn [id]. rewrite Hl. destruct l as [|ev l]; [|cbn; by rewrite Hst].
  destruct (TS_IS_INFERIOR _ _); cbn; [by intros [= <- _]|by rewrite Hst].
Qed.

(** The next event is refused by an assertion there. *)
Lemma handshake_aborts env w ev l :
  p_state (w_peer w) = STATE_OPEN_HANDSHAKE → p_events (w_peer w) = Some (ev :: l) →
  p_psm_turn d cfg bo pei_message fuel env w = Abort Own.
Proof.
  intros Hst He. unfold p_psm_turn, fd_event_timedget, handle_event, get, gets, upd, modify, assertM, bind, ret.
  cbn [id]. rewrite He. cbn. by rewrite Hst.
Qed.

Lemma step_consistent a b w w' : consistent a w → psm_step b w w' → consistent (a || b) w'.
Proof.
  intros Hc. destruct 1 as [env w w' r He Ht|env w w' Ht|env m b w w' Ht|ev w w' Hn Ht|now σ t w Ht|env w w' Ht]; rewrite ?orb_false_r, ?orb_true_r.
  - destruct Hc as [(-> & Hs & Hn & Hz)|[_ Hc]].
    2:{ assert (c_events (core_of w) = None) as Hev by (destruct a; apply Hc). cbn in Hev. rewrite Hev in He. by destruct He. }
    destruct (decide (c_state (core_of w) = STATE_OPEN_HANDSHAKE)) as [Hh|Hh].
    { by eapply consistent_same; [eapply stuck_handshake|left]. }
    pose proof (wp_turn env w Hs (conj Hn (conj Hz Hh))) as H. apply (wp_ret_inv _ _ _ _ _ _ H) in Ht.
    destruct r; [eapply consistent_same; [exact Ht|]; by left|left; by destruct Ht|right; by destruct Ht].
  - by eapply out_thr_consistent.
  - pose proof (consistent_usable _ _ Hc). revert Ht. apply (wp_ret_inv _ (λ _, consistent a) (λ _ _, True)).
    eapply wp_quiet; [by apply quiet_out_send|done|intros; by eapply consistent_same|done].
  - by eapply event_consistent.
  - done.
  - by eapply abord_consistent.
Qed.

Lemma spares_ret {A} W P (m : M A) w w' r : spares W P m → P w → m w = Ret w' r → P w'.
Proof. intros Hm Hw E. specialize (Hm w Hw). by rewrite E in Hm. Qed.

Lemma step_requests b w w' : requests_ok w → psm_step b w w' → requests_ok w'.
Proof.
  intros Hw. destruct 1 as [env w w' r He Ht|env w w' Ht|env m b w w' Ht|ev w w' Hn Ht|now σ t w Ht|env w w' Ht].
  - revert Ht. by eapply spares_ret; [apply turn_calm|].
  - revert Ht. by eapply spares_ret; [apply out_thr_calm|].
  - revert Ht. by eapply spares_ret; [apply out_send_calm|].
  - revert Ht. by eapply spares_ret; [apply event_send_calm|].
  - by eapply expiry_mem.
  - revert Ht. by eapply spares_ret; [apply abord_calm|].
Qed.

Lemma reachable_consistent a w : psm_reachable a w → consistent a w ∧ requests_ok w.
Proof.
  induction 1 as [env b w w' Hn Ht|a b w w' _ [IH1 IH2] Hs].
  - split; [by eapply start_consistent|]. eapply spares_ret; [apply start_calm|apply Hn|exact Ht].
  - split; [by eapply step_consistent|by eapply step_requests].
Qed.

(** C4: In every world that a peer can reach, from its creation through any
    sequence of events, messages, timeouts, rounds of the two threads and of the
    thread that expires the requests, and the abort of the peer: no connection is
    held twice by the peer and its queue, and none that is held has been destroyed;
    the peer is in the list of active peers, and has its output thread, in the state
    OPEN only, or in the state ZOMBIE once it has been aborted; in the open states it
    has a connection; the active peers are ordered by identity; the lists of sent
    requests name exactly the requests that exist; and the queue of events exists
    exactly until the state ZOMBIE, where the peer holds no connection.  Until then
    the next round is one that C3 covers, or the state is OPEN_HANDSHAKE. *)
Theorem psm_reachable_ok a w :
  psm_reachable a w →
  let p := w_peer w in
  NoDup (owned (core_of w)) ∧ (∀ c, c ∈ owned (core_of w) → c ∈ w_live w) ∧
  (pi_diamid p ∈ w_active w ∨ p_outthr p ≠ OutNone → p_state p = STATE_OPEN ∨ (a = true ∧ p_state p = STATE_ZOMBIE)) ∧
  (opened (p_state p) → is_Some (p_cnxctx p)) ∧ Increasing fd_os_cmp_int (w_active w) ∧ sr_mem (p_sr p) ∧
  p_state p ≠ STATE_NEW ∧ (p_events p = None ↔ p_state p = STATE_ZOMBIE) ∧
  (p_state p = STATE_ZOMBIE → owned (core_of w) = []) ∧
  (p_state p ≠ STATE_ZOMBIE → safe [] (core_of w) ∧ (p_state p = STATE_OPEN_HANDSHAKE ∨ regular (p_state p))).
Proof.
  intros [H Hr]%reachable_consistent p. split_and!; [apply (consistent_conns _ _ H)..| | | |done| | | |].
  all: destruct H as [(-> & [Hc [H1 H2 H3 H4 H5]] & H6 & H7)|[H7 H]]; unfold p; cbn in *; try done.
  - intros [|]; auto.
  - intros Ho. right. split; [|done]. destruct a; [done|]. destruct H as (_ & _ & _ & _ & H & H' & _). by destruct Ho.
  - rewrite H7. by intros [|[]].
  - destruct a; apply H.
  - by rewrite H7.
  - split; [|done]. intros He. rewrite He in H1. by destruct H1.
  - split; [done|]. intros _. destruct a; apply H.
  - intros _. assert (c_events (core_of w) = None ∧ c_cnx (core_of w) = None ∧ c_recv (core_of w) = None) as (He & Hc & Hv)
      by (split_and!; destruct a; apply H). unfold owned. by rewrite He, Hc, Hv.
  - intros _. split; [split; [exact Hc|by split]|]. destruct (decide (p_state (w_peer w) = STATE_OPEN_HANDSHAKE)); [by left|by right].
Qed.
End spec.

Module Examples.
Import Small MsgTree.Examples PeerExamples.Link.

Abbreviation step := (psm_step base cfg objs (λ _, None) 10).
Abbreviation reachable := (psm_reachable base cfg objs (λ _, None) 10).

Lemma w0_new : new_peer w0.
Proof. split; try done; [apply not_elem_of_nil|constructor|]. by apply sr_wf_mem, init_srl_wf. Qed.

Lemma w1_reachable : reachable false w1.
Proof. eapply (ReachStart _ _ _ _ _ (at_ 0) false); [apply w0_new|]. by vm_compute. Qed.
Lemma w2_reachable : reachable false w2.
Proof. eapply (ReachStep _ _ _ _ _ false false); [apply w1_reachable|]. eapply (StepTurn _ _ _ _ _ (at_ 1)); [by eexists|]. by vm_compute. Qed.
Lemma w3_reachable : reachable false w3.
Proof.
  eapply (ReachStep _ _ _ _ _ false false); [eapply (ReachStep _ _ _ _ _ false false); [apply w2_reachable|]|].
  - apply (StepEvent _ _ _ _ _ (FDEVP_CNX_ESTABLISHED 7) _ w3'); [|by vm_compute].
    assert (w_live w2 = ∅) as -> by by vm_compute. set_solver.
  - eapply (StepTurn _ _ _ _ _ (at_ 2)); [by eexists|]. by vm_compute.
Qed.
Lemma w4'_reachable : reachable false w4'.
Proof.
  eapply (ReachStep _ _ _ _ _ false false); [apply w3_reachable|]. eapply (StepEvent _ _ _ _ _ (FDEVP_CNX_MSG_RECV cea_bytes) w3 w4'); [|by vm_compute].
  by intros c ?%not_elem_of_nil.
Qed.
Lemma turn4 : p_psm_turn base cfg objs (λ _, None) 10 (at_ 3) w4' = Ret w4 Looping.
Proof. by vm_compute. Qed.
Lemma w4_reachable : reachable false w4.
Proof. eapply (ReachStep _ _ _ _ _ false false); [apply w4'_reachable|]. eapply (StepTurn _ _ _ _ _ (at_ 3)); [by eexists|exact turn4]. Qed.

(** ** Assertions that a peer makes fail

    A Device-Watchdog-Request with an Origin-State-Id that has the V flag and the
    vendor 0: the dictionary has no AVP of that description, so it is kept without
    a value, not being mandatory; [fd_msg_search_avp] finds it as the
    Origin-State-Id, by its code and vendor. *)
Definition origin : bytes := Eval vm_compute in
  [0; 0; 1; 8; 64; 0; 0; 21] ++ str "p.example.net" ++ [0; 0; 0] ++ [0; 0; 1; 40; 64; 0; 0; 19] ++ str "example.net" ++ [0].
Definition dwr_bytes : bytes :=
  [1; 0; 0; 80; 128; 0; 1; 24; 0; 0; 0; 0; 0; 0; 0; 9; 0; 0; 0; 9] ++ origin ++ [0; 0; 1; 22; 128; 0; 0; 16; 0; 0; 0; 0; 0; 0; 0; 1].
(** The same with a Disconnect-Cause in a Disconnect-Peer-Request. *)
Definition dpr_bytes : bytes :=
  [1; 0; 0; 80; 128; 0; 1; 26; 0; 0; 0; 0; 0; 0; 0; 9; 0; 0; 0; 9] ++ origin ++ [0; 0; 1; 17; 128; 0; 0; 16; 0; 0; 0; 0; 0; 0; 0; 1].
(** A Capabilities-Exchange-Answer with an AVP of the unknown code 9999 behind
    the Vendor-Id in a Vendor-Specific-Application-Id. *)
Definition bad_cea_bytes : bytes :=
  [1; 0; 0; 96; 0; 0; 1; 1; 0; 0; 0; 0; 0; 0; 0; 1; 0; 0; 0; 1] ++ origin ++
  [0; 0; 1; 4; 64; 0; 0; 32; 0; 0; 1; 10; 64; 0; 0; 12; 0; 0; 40; 175; 0; 0; 39; 15; 0; 0; 0; 12; 0; 0; 0; 1].

Example dwr_aborts : run 4 (receive dwr_bytes w4) = Abort Values.
Proof. by vm_compute. Qed.
Example dpr_aborts : run 4 (receive dpr_bytes w4) = Abort Values.
Proof. by vm_compute. Qed.
Example cea_aborts : run 3 (receive bad_cea_bytes w3) = Abort Values.
Proof. by vm_compute. Qed.

(** The open peer is aborted: it stays in the list of active peers, with its
    output thread. *)
Definition w5 : world (list bytes) := Eval vm_compute in from w4 (fd_psm_abord (at_ 4)).
Example aborted_active :
  reachable true w5 ∧ p_state (w_peer w5) = STATE_ZOMBIE ∧ p_events (w_peer w5) = None ∧ p_cnxctx (w_peer w5) = None ∧
  pi_diamid (w_peer w5) ∈ w_active w5 ∧ p_outthr (w_peer w5) = OutSending.
Proof.
  split; [|split_and!; first [by vm_compute | by left]].
  eapply (ReachStep _ _ _ _ _ false true); [apply w4_reachable|]. apply (StepAbord _ _ _ _ _ (at_ 4)). by vm_compute.
Qed.

Lemma psm_reachable_ok_witness : reachable false w4 ∧ p_state (w_peer w4) = STATE_OPEN ∧ owned (core_of w4) = [7%nat] ∧ 7%nat ∈ w_live w4.
Proof.
  assert (owned (core_of w4) = [7%nat]) as Ho by by vm_compute.
  pose proof (psm_reachable_ok base cfg objs (λ _, None) 10 false w4 w4_reachable) as (_ & Hl & _).
  split; [exact w4_reachable|]. split; [by vm_compute|]. split; [exact Ho|]. apply Hl. rewrite Ho. by left.
Defined.

Lemma p_psm_turn_safe_witness :
  safe [] (core_of w4') ∧ regular (p_state (w_peer w4')) ∧ requests_ok w4' ∧
  turn_post (at_ 3) (core_of w4') Looping (core_of w4) ∧ requests_ok w4 ∧ p_state (w_peer w4) = STATE_OPEN.
Proof.
  assert (p_state (w_peer w4') = STATE_WAITCEA) as Hst by by vm_compute.
  destruct (reachable_consistent _ _ _ _ _ _ _ w4'_reachable) as [[(_ & Hs & _)|[Hz _]] Hr]; [|exfalso; change (p_state (w_peer w4') = STATE_ZOMBIE) in Hz; congruence].
  assert (regular (p_state (w_peer w4'))) as Hreg by by rewrite Hst.
  pose proof (p_psm_turn_safe base cfg objs (λ _, None) 10 (at_ 3) w4' Hs Hreg Hr) as H.
  rewrite turn4 in H. destruct H as [H H']. split_and!; [exact Hs|exact Hreg|exact Hr|exact H|exact H'|by vm_compute].
Defined.
End Examples.
