(* ===== verification/Watchdog.v ===== *)
(** * The watchdog of a peer

    A peer that does not answer is given up within three timeouts: a DWR is sent,
    then the peer is suspect and its messages are sent to others, then the
    connection is closed. *)

From Stdlib Require Import ZArith Lia.
From stdpp Require Import base sorting sets list gmap.
From S2P Require Import Prelude Time Ostr DictTypes Msg MsgBuf MsgDict MsgTree MsgRules Fifo SentReq Apps Endpoints CoreMsg Effect PeerTypes Peer LinkLocal Capab Exchange Psm PsmInv PsmSafe PeerExamples PsmSpec.

#[local] Arguments str : simpl never.

(** ** The timer *)

Definition to_nsec (t : timespec) : Z := tv_sec t * 1000000000 + tv_nsec t.

(** The next timeout of the machine, with the random part that keeps two
    peers from acting at the same time: it is a valid time, between two seconds
    before the delay and two seconds after it, or within four seconds for a delay
    of at most two; without the random part it is after exactly the delay. *)
Theorem next_timer_bounds now r delay :
  0 ≤ tv_nsec now < 1000000000 →
  let t := next_timer now r true delay in
  let least := if decide (delay > 2) then delay - 2 else 0 in
  0 ≤ tv_nsec t < 1000000000 ∧
  to_nsec now + least * 1000000000 ≤ to_nsec t < to_nsec now + (least + 4) * 1000000000 ∧
  to_nsec (next_timer now r false delay) = to_nsec now + delay * 1000000000.
Proof.
  intros Hn. destruct r as [r1 r2]. unfold next_timer, to_nsec. pose proof (Z.mod_pos_bound r1 4 ltac:(lia)).
  pose proof (Z.mod_pos_bound r2 1000000000 ltac:(lia)). cbv zeta. cbn [tv_sec tv_nsec].
  destruct (decide (delay > 2)), (decide (1000000000 ≤ tv_nsec now + r2 mod 1000000000)); cbn [tv_sec tv_nsec]; lia.
Qed.

Section watchdog.
Context {D S : Type} `{!MsgDictionary D} `{!DispDictionary D} `{!CoreDictionary D} `{!MsgSessions S} `{!AddressTypes D}.
Context (d : D) (cfg : fd_config) (bo : base_objs) (pei_message : perr + rules_err → option bytes) (fuel : nat).
Abbreviation M := (M (world S)).
Abbreviation turn := (p_psm_turn (S:=S) d cfg bo pei_message fuel).
Implicit Types (w : world S).

(** The lists of requests and the outgoing queue are well-formed. *)
Definition queues_ok w : Prop := sr_wf (p_sr (w_peer w)) ∧ eyec (w_outgoing w) = true.

(** The other threads have run: messages were queued, sent or expired, but
    nothing has come from the peer. *)
Definition undisturbed w w' : Prop :=
  core_of w' = core_of w ∧ p_flags (w_peer w') = p_flags (w_peer w) ∧
  p_psm_timer (w_peer w') = p_psm_timer (w_peer w) ∧ queues_ok w'.

(** The time of the timer has come. *)
Definition expired (e : env) w : Prop := TS_IS_INFERIOR (e_now e) (p_psm_timer (w_peer w)) = false.

(** What the failover sends to others: the routable messages that were waiting,
    those that could not be sent, and the requests without an answer. *)
Definition failed_over w : list msg :=
  omap (λ m, let '(r, m) := fd_msg_is_routable m in if r : bool then Some m else None) (p_tosend (w_peer w)) ++
  p_tofailover (w_peer w) ++ omap retried (entries (p_sr (w_peer w))).

Lemma failover_tosend_items e l q :
  eyec q = true →
  items (failover_tosend e l q) =
    items q ++ ((λ m, (m, e_now e)) <$> omap (λ m, let '(r, m) := fd_msg_is_routable m in if r : bool then Some m else None) l) ∧
  eyec (failover_tosend e l q) = true.
Proof.
  revert q. induction l as [|m l IH]; intros q Hq; cbn [failover_tosend]; [by rewrite app_nil_r|].
  change (omap _ (m :: l)) with (match (let '(r, m) := fd_msg_is_routable m in if r : bool then Some m else None) with
    | Some y => y :: omap (λ m, let '(r, m) := fd_msg_is_routable m in if r : bool then Some m else None) l
    | None => omap (λ m, let '(r, m) := fd_msg_is_routable m in if r : bool then Some m else None) l end).
  destruct (fd_msg_is_routable m) as [[] m']; [|by apply IH].
  destruct (requeue_items q m' (e_now e) Hq) as [Hi He]. destruct (IH _ He) as [-> ->]. by rewrite Hi, <- app_assoc.
Qed.

Lemma requeue_all e l q :
  eyec q = true →
  items (foldl (λ q m, requeue q m (e_now e)) q l) = items q ++ ((λ m, (m, e_now e)) <$> l) ∧
  eyec (foldl (λ q m, requeue q m (e_now e)) q l) = true.
Proof.
  revert q. induction l as [|m l IH]; intros q Hq; cbn [foldl]; [by rewrite app_nil_r|].
  destruct (requeue_items q m (e_now e) Hq) as [Hi He]. destruct (IH _ He) as [-> ->]. by rewrite Hi, <- app_assoc.
Qed.

(** The failover empties the queues of the peer, and what was in them is in the
    outgoing queue. *)
Lemma failover_msg_run e w :
  queues_ok w →
  ∃ σ q, fd_peer_failover_msg e w = Ret (set_outgoing q (set_peer (set_p_sr σ (set_p_tofailover [] (set_p_tosend [] (w_peer w)))) w)) tt ∧
    sr_wf σ ∧ pending σ = ∅ ∧ cnt σ = 0 ∧ eyec q = true ∧
    items q = items (w_outgoing w) ++ ((λ m, (m, e_now e)) <$> failed_over w).
Proof.
  intros [Hsr Hq]. set (q1 := failover_tosend e (p_tosend (w_peer w)) (w_outgoing w)).
  set (q2 := foldl (λ q m, requeue q m (e_now e)) q1 (p_tofailover (w_peer w))).
  destruct (failover_tosend_items e (p_tosend (w_peer w)) _ Hq) as [Hi1 He1]. fold q1 in Hi1, He1.
  destruct (requeue_all e (p_tofailover (w_peer w)) q1 He1) as [Hi2 He2]. fold q2 in Hi2, He2.
  destruct (failover_spec _ q2 (e_now e) Hsr He2) as (σ & q & Hf & Hwf & Hp & Hc & _ & Hi & He).
  exists σ, q. split_and!; [|done..|].
  - unfold fd_peer_failover_msg. eapply bind_ret; [reflexivity|]. eapply bind_ret; [reflexivity|].
    eapply bind_ret; [reflexivity|]. eapply bind_ret; [reflexivity|]. eapply bind_ret; [by apply lift_ok|].
    reflexivity.
  - rewrite Hi, Hi2, Hi1, <- !app_assoc. unfold failed_over. by rewrite !fmap_app.
Qed.

(** ** A timeout in each state *)

Lemma or_goto_ok (m : M unit) l (kont : M label) w w' r : m w = Ret w' tt → kont w' = r → or_goto m l kont w = r.
Proof. unfold or_goto, succeeds, catch, bind. by intros ->. Qed.

Lemma turn_timeout e w w' l r :
  p_events (w_peer w) = Some [] → expired e w → p_state (w_peer w) ∉ [STATE_NEW; STATE_ZOMBIE; STATE_OPEN_HANDSHAKE] →
  on_timeout d cfg bo fuel e (p_state (w_peer w)) w = Ret w' l → goto e l w' = r → turn e w = r.
Proof.
  intros Hev Hexp Hst Ht Hg. unfold p_psm_turn. eapply bind_ret.
  { unfold fd_event_timedget. eapply bind_ret; [reflexivity|]. cbn [id]. rewrite Hev. unfold expired in Hexp. by rewrite Hexp. }
  cbn beta iota. eapply bind_ret; [|exact Hg]. eapply bind_ret; [reflexivity|].
  eapply bind_ret; [|exact Ht]. unfold assertM. by rewrite bool_decide_true.
Qed.

Lemma next_timer_exact now r delay : next_timer now r false delay = TS (tv_sec now + delay) (tv_nsec now).
Proof. by destruct r. Qed.

(** A DWR that waits in the queue of the output thread. *)
Definition is_DWR (m : msg) : Prop := msg_model m = Some (fd_dict_cmd_DWR bo).

Lemma send_DWR_run e w :
  base_ok d bo → is_Some (cmd_data d (fd_dict_cmd_DWR bo)) → p_state (w_peer w) = STATE_OPEN → is_Some (p_cnxctx (w_peer w)) →
  ∃ dwr eteid, is_DWR dwr ∧
    send_DWR d cfg bo e w =
      Ret (set_msgs (w_sess w) eteid (set_peer (set_p_tosend (p_tosend (w_peer w) ++ [dwr])
             (set_p_flags (set_pf_dw_pending true (p_flags (w_peer w))) (w_peer w))) w)) tt.
Proof.
  intros Hok [cmd Hcmd] Hst [c Hc]. unfold send_DWR, new_request, fd_msg_new.
  set (fl := has MSGFL_ALLOC_ETEID MSGFL_ALLOC_ETEID). eexists _, _. split; cycle 1.
  - eapply bind_ret.
    { eapply bind_ret; [reflexivity|]. eapply bind_ret; [apply lift_ok; rewrite Hcmd; reflexivity|]. reflexivity. }
    eapply bind_ret; [apply lift_ok, fd_msg_add_origin_built, Hok|]. eapply bind_ret; [reflexivity|].
    unfold fd_out_send. eapply bind_ret; [reflexivity|]. cbn [id].
    eapply bind_ret.
    { unfold require. cbn [w_peer set_peer set_msgs p_cnxctx set_p_flags]. rewrite Hc. reflexivity. }
    eapply bind_ret; [reflexivity|]. cbn [w_peer set_peer set_msgs p_state set_p_flags andb]. rewrite Hst. reflexivity.
  - reflexivity.
Qed.

Lemma timeout_open_run e w :
  base_ok d bo → is_Some (cmd_data d (fd_dict_cmd_DWR bo)) → is_Some (p_cnxctx (w_peer w)) →
  p_events (w_peer w) = Some [] → expired e w → p_state (w_peer w) = STATE_OPEN → pf_dw_pending (p_flags (w_peer w)) = false →
  ∃ w1 dwr, turn e w = Ret w1 Looping ∧ core_of w1 = core_of w ∧ is_DWR dwr ∧
    p_tosend (w_peer w1) = p_tosend (w_peer w) ++ [dwr] ∧ p_flags (w_peer w1) = set_pf_dw_pending true (p_flags (w_peer w)) ∧
    p_psm_timer (w_peer w1) = TS (tv_sec (e_now e) + tw_timer cfg (w_peer w)) (tv_nsec (e_now e)).
Proof.
  intros Hok Hcmd Hcnx Hev Hexp Hst Hdw. destruct (send_DWR_run e w Hok Hcmd Hst Hcnx) as (dwr & eteid & Hdwr & Hrun).
  eexists _, dwr. split; [|split; [|split; [exact Hdwr|]]].
  - eapply (turn_timeout e w _ psm_loop); [done..|rewrite Hst; set_solver| |reflexivity]. rewrite Hst.
    eapply or_goto_ok; [|reflexivity]. eapply bind_ret; [reflexivity|]. cbn [id]. rewrite Hdw.
    eapply bind_ret; [exact Hrun|reflexivity].
  - reflexivity.
  - split; [done|]. split; [done|]. apply next_timer_exact.
Qed.

(** OPEN is left for SUSPECT. *)
Lemma suspect_run e w c :
  p_state (w_peer w) = STATE_OPEN → p_cnxctx (w_peer w) = Some c → c ∈ w_live w → queues_ok w →
  ∃ w2, fd_psm_change_state e STATE_SUSPECT w = Ret w2 tt ∧
    core_of w2 = k_lists OutNone (filter (λ x, x ≠ pi_diamid (w_peer w)) (w_active w)) (k_state STATE_SUSPECT (core_of w)) ∧
    p_flags (w_peer w2) = p_flags (w_peer w) ∧ p_tosend (w_peer w2) = [] ∧ p_tofailover (w_peer w2) = [] ∧
    pending (p_sr (w_peer w2)) = ∅ ∧ items (w_outgoing w2) = items (w_outgoing w) ++ ((λ m, (m, e_now e)) <$> failed_over w).
Proof.
  intros Hst Hc Hl Hq. set (w1 := set_active (filter (λ x, x ≠ pi_diamid (w_peer w)) (w_active w)) (set_peer (set_p_state STATE_SUSPECT (w_peer w)) w)).
  set (w1' := set_peer (set_p_outthr OutNone (w_peer w1)) w1).
  destruct (failover_msg_run e w1' Hq) as (σ & q & Hf & Hsr & Hp & Hcnt & He & Hi).
  eexists. split.
  - unfold fd_psm_change_state. eapply bind_ret; [reflexivity|]. rewrite Hst. rewrite decide_False by done.
    eapply bind_ret; [reflexivity|]. eapply bind_ret.
    { apply when_true; [by apply bool_decide_true|]. eapply bind_ret; [reflexivity|]. eapply bind_ret; [reflexivity|].
      change (set_active _ _) with w1. eapply bind_ret; [|exact Hf]. eapply bind_ret; [reflexivity|]. cbn [w_peer w1]. cbn. rewrite Hc.
      eapply bind_ret; [|reflexivity]. eapply bind_ret; [by apply alive_run|reflexivity]. }
    reflexivity.
  - by split_and!.
Qed.

Lemma timeout_pending_run e w c :
  p_state (w_peer w) = STATE_OPEN → p_cnxctx (w_peer w) = Some c → c ∈ w_live w → queues_ok w →
  p_events (w_peer w) = Some [] → expired e w → pf_dw_pending (p_flags (w_peer w)) = true →
  ∃ w2, turn e w = Ret w2 Looping ∧
    core_of w2 = k_lists OutNone (filter (λ x, x ≠ pi_diamid (w_peer w)) (w_active w)) (k_state STATE_SUSPECT (core_of w)) ∧
    p_flags (w_peer w2) = p_flags (w_peer w) ∧ p_tosend (w_peer w2) = [] ∧ p_tofailover (w_peer w2) = [] ∧
    pending (p_sr (w_peer w2)) = ∅ ∧ items (w_outgoing w2) = items (w_outgoing w) ++ ((λ m, (m, e_now e)) <$> failed_over w) ∧
    p_psm_timer (w_peer w2) = TS (tv_sec (e_now e) + 2 * tw_timer cfg (w_peer w)) (tv_nsec (e_now e)).
Proof.
  intros Hst Hc Hl Hq Hev Hexp Hdw. destruct (suspect_run e w c Hst Hc Hl Hq) as (w2 & Hrun & Hk & Hfl & Hts & Htf & Hp & Hi).
  eexists. split.
  - eapply (turn_timeout e w _ psm_loop); [done..|rewrite Hst; set_solver| |reflexivity]. rewrite Hst.
    eapply or_goto_ok; [|reflexivity]. eapply bind_ret; [reflexivity|]. cbn [id]. rewrite Hdw.
    eapply bind_ret; [exact Hrun|]. reflexivity.
  - split; [exact Hk|]. cbn. do 5 (split; [done|]). apply next_timer_exact.
Qed.

(** What an open peer has when the machine destroys its connection. *)
Lemma cleanup_suspect_run e w c :
  p_state (w_peer w) = STATE_SUSPECT → p_cnxctx (w_peer w) = Some c → p_receiver (w_peer w) = None → c ∈ w_live w →
  sr_wf (p_sr (w_peer w)) → p_events (w_peer w) = Some [] →
  ∃ w', fd_psm_cleanup e false w = Ret w' tt ∧
    core_of w' = k_events (Some (if pic_persist (config (w_peer w)) then [] else [FDEVP_TERMINATE None])) (w_live w ∖ {[c]})
                   (k_cnx None (w_live w ∖ {[c]}) (k_state STATE_CLOSED (core_of w))) ∧
    p_flags (w_peer w') = p_flags (w_peer w) ∧ p_psm_timer (w_peer w') = p_psm_timer (w_peer w) ∧
    pir_proto (runtime (w_peer w')) = 0 ∧ p_reqin_count (w_peer w') = 0.
Proof.
  intros Hst Hc Hr Hl Hwf Hev. destruct (disconnect_spec _ Hwf) as (σ & Hd & _).
  set (q := Some (if pic_persist (config (w_peer w)) then [] else [FDEVP_TERMINATE None])).
  set (w1 := set_peer (set_p_events q (set_p_reqin_count 0 (set_p_state STATE_CLOSED (w_peer w)))) w).
  assert (fd_psm_change_state e STATE_CLOSED w = Ret w1 tt) as H1.
  { unfold w1, q. destruct w as [p a x l o i ss n t]. destruct p as [id ep [se ex per re lf tc tw] ru st et fl ev]. cbn in Hst, Hev |- *.
    rewrite Hst, Hev. by destruct per. }
  eexists. split.
  - unfold fd_psm_cleanup. eapply bind_ret; [reflexivity|]. eapply bind_ret; [apply when_true; [by rewrite Hst|by apply ignore_ret]|].
    eapply bind_ret; [eapply bind_ret; [reflexivity|]; eapply bind_ret; [by apply lift_ok|reflexivity]|].
    eapply bind_ret; [reflexivity|]. eapply bind_ret.
    { eapply bind_ret; [reflexivity|]. eapply bind_ret; [reflexivity|]. cbn [w_peer set_peer set_p_sr set_p_ini_thr set_runtime p_cnxctx w1 set_p_events set_p_reqin_count set_p_state].
      rewrite Hc. eapply bind_ret; [|reflexivity]. eapply bind_ret; [by apply alive_run|reflexivity]. }
    eapply bind_ret; [reflexivity|]. cbn [w_peer set_peer set_p_sr set_p_ini_thr set_runtime p_receiver w1 set_p_events set_p_reqin_count set_p_state set_p_cnxctx set_live].
    rewrite Hr. eapply bind_ret; [reflexivity|]. eapply bind_ret; [reflexivity|reflexivity].
  - unfold core_of. cbn. rewrite Hr. by split_and!.
Qed.

(** SUSPECT is left for CLOSED. *)
Lemma timeout_suspect_run e w c :
  p_state (w_peer w) = STATE_SUSPECT → p_cnxctx (w_peer w) = Some c → p_receiver (w_peer w) = None → c ∈ w_live w → queues_ok w →
  p_events (w_peer w) = Some [] → expired e w → pf_delete (p_flags (w_peer w)) = false →
  ∃ w', turn e w = Ret w' Looping ∧
    core_of w' = k_events (Some (if pic_persist (config (w_peer w)) then [] else [FDEVP_TERMINATE None])) (w_live w ∖ {[c]})
                   (k_cnx None (w_live w ∖ {[c]}) (k_state STATE_CLOSED (core_of w))) ∧
    p_flags (w_peer w') = set_pf_cnx_pb true (p_flags (w_peer w)) ∧
    p_psm_timer (w_peer w') = next_timer (e_now e) (e_random e) true (tc_timer cfg (w_peer w)).
Proof.
  intros Hst Hc Hr Hl [Hwf _] Hev Hexp Hdel.
  set (w1 := set_peer (set_p_psm_timer (next_timer (e_now e) (e_random e) true (tc_timer cfg (w_peer w)))
               (set_p_flags (set_pf_cnx_pb true (p_flags (w_peer w))) (w_peer w))) w).
  destruct (cleanup_suspect_run e w1 c Hst Hc Hr Hl Hwf Hev) as (w' & Hrun & Hk & Hfl & Ht & _).
  exists w'. split; [|done].
  eapply (turn_timeout e w w1 psm_reset); [done..|rewrite Hst; set_solver|by rewrite Hst|].
  unfold goto. eapply bind_ret; [reflexivity|]. cbn [w1 w_peer set_peer p_flags set_p_psm_timer set_p_flags pf_delete set_pf_cnx_pb].
  rewrite Hdel. eapply bind_ret; [exact Hrun|reflexivity].
Qed.

(** ** The peer is given up *)

(** An open peer, all the messages of which have been handled and answered. *)
Record quiet_open w : Prop := {
  qo_safe : safe [] (core_of w); qo_state : p_state (w_peer w) = STATE_OPEN; qo_recv : p_receiver (w_peer w) = None;
  qo_events : p_events (w_peer w) = Some []; qo_dw : pf_dw_pending (p_flags (w_peer w)) = false;
  qo_delete : pf_delete (p_flags (w_peer w)) = false }.

Lemma quiet_open_cnx w : quiet_open w → ∃ c, p_cnxctx (w_peer w) = Some c ∧ c ∈ w_live w.
Proof.
  intros [[[_ Hl] Hs] Hst _ _ _ _]. destruct (s_open _ Hs (or_introl Hst)) as [c Hc]. exists c. split; [exact Hc|].
  apply (Hl c). unfold owned. rewrite Hc. by left.
Qed.

(** The parts of the core that a round below reads. *)
Lemma core_fields w w' : core_of w' = core_of w →
  pi_diamid (w_peer w') = pi_diamid (w_peer w) ∧ config (w_peer w') = config (w_peer w) ∧ p_state (w_peer w') = p_state (w_peer w) ∧
  p_cnxctx (w_peer w') = p_cnxctx (w_peer w) ∧ p_receiver (w_peer w') = p_receiver (w_peer w) ∧
  p_events (w_peer w') = p_events (w_peer w) ∧ w_active w' = w_active w ∧ w_live w' = w_live w.
Proof. unfold core_of. by intros [=]. Qed.

(** C5: A peer that stops answering is given up within three timeouts of the
    state machine, whatever the other threads do in between to the queues.  At
    the first one a DWR is queued for it, and it has [tw] seconds; at the second
    one it becomes suspect, it is not an active peer any more, its queues are
    empty, and what they held is in the outgoing queue, to be sent to another
    peer; [2 * tw] seconds later, at the third one, its connection is destroyed, it
    is closed, with [pf_cnx_pb] set, and the timer of the next connection is
    armed, or the end of the thread is requested if the peer does not persist. *)
Theorem dead_peer_given_up e1 e2 e3 w :
  base_ok d bo → is_Some (cmd_data d (fd_dict_cmd_DWR bo)) → quiet_open w → expired e1 w →
  ∃ c w1 dwr, p_cnxctx (w_peer w) = Some c ∧ turn e1 w = Ret w1 Looping ∧ p_state (w_peer w1) = STATE_OPEN ∧ is_DWR dwr ∧
    p_tosend (w_peer w1) = p_tosend (w_peer w) ++ [dwr] ∧
    p_psm_timer (w_peer w1) = TS (tv_sec (e_now e1) + tw_timer cfg (w_peer w)) (tv_nsec (e_now e1)) ∧
  ∀ w1', undisturbed w1 w1' → expired e2 w1' →
  ∃ w2, turn e2 w1' = Ret w2 Looping ∧ p_state (w_peer w2) = STATE_SUSPECT ∧ pi_diamid (w_peer w) ∉ w_active w2 ∧
    p_outthr (w_peer w2) = OutNone ∧ p_tosend (w_peer w2) = [] ∧ p_tofailover (w_peer w2) = [] ∧ pending (p_sr (w_peer w2)) = ∅ ∧
    items (w_outgoing w2) = items (w_outgoing w1') ++ ((λ m, (m, e_now e2)) <$> failed_over w1') ∧
    p_psm_timer (w_peer w2) = TS (tv_sec (e_now e2) + 2 * tw_timer cfg (w_peer w)) (tv_nsec (e_now e2)) ∧
  ∀ w2', undisturbed w2 w2' → expired e3 w2' →
  ∃ w3, turn e3 w2' = Ret w3 Looping ∧ p_state (w_peer w3) = STATE_CLOSED ∧ p_cnxctx (w_peer w3) = None ∧ c ∉ w_live w3 ∧
    pf_cnx_pb (p_flags (w_peer w3)) = true ∧
    p_events (w_peer w3) = Some (if pic_persist (config (w_peer w)) then [] else [FDEVP_TERMINATE None]) ∧
    p_psm_timer (w_peer w3) = next_timer (e_now e3) (e_random e3) true (tc_timer cfg (w_peer w)).
Proof.
  intros Hok Hcmd Hqo Hexp. destruct (quiet_open_cnx w Hqo) as (c & Hc & Hl). destruct Hqo as [_ Hst Hr Hev Hdw Hdel].
  destruct (timeout_open_run e1 w Hok Hcmd (mk_is_Some _ _ Hc) Hev Hexp Hst Hdw) as (w1 & dwr & Hrun & Hk & Hdwr & Hts & Hfl & Htm).
  exists c, w1, dwr. apply core_fields in Hk as (Hid & Hcf & Hst1 & Hc1 & Hr1 & Hev1 & _ & Hl1).
  split_and!; [done|done|congruence|done..|]. intros w1' (Hk & Hfl1 & _ & Hq) Hexp1.
  apply core_fields in Hk as (Hid1 & Hcf1 & Hst1' & Hc1' & Hr1' & Hev1' & _ & Hl1').
  destruct (timeout_pending_run e2 w1' c) as (w2 & Hrun2 & Hk2 & Hfl2 & Hts2 & Htf2 & Hp2 & Hi2 & Htm2);
    [congruence|congruence|by rewrite Hl1', Hl1|done|congruence|done|by rewrite Hfl1, Hfl|].
  exists w2. pose proof Hk2 as Hk. unfold core_of, k_lists, k_state in Hk. cbn in Hk. injection Hk as Hid2 Hcf2 Hst2 Hc2 Hr2 Hev2 Ho2 Ha2 Hl2.
  split; [done|]. split; [done|]. split; [rewrite Ha2, list_elem_of_filter; intros [H _]; apply H; congruence|].
  do 5 (split; [done|]). unfold tw_timer, tc_timer in *.
  assert (config (w_peer w1') = config (w_peer w)) as Hcf' by congruence. split; [by rewrite <- Hcf'|].
  intros w2' (Hk & Hfl2' & _ & Hq') Hexp2. apply core_fields in Hk as (_ & Hcf2' & Hst2' & Hc2' & Hr2' & Hev2' & _ & Hl2').
  destruct (timeout_suspect_run e3 w2' c) as (w3 & Hrun3 & Hk3 & Hfl3 & Htm3);
    [congruence|congruence|congruence|by rewrite Hl2', Hl2, Hl1', Hl1|done|congruence|done|by rewrite Hfl2', Hfl2, Hfl1, Hfl|].
  exists w3. unfold core_of, k_events, k_cnx, k_state in Hk3. cbn in Hk3. injection Hk3 as _ _ Hst3 Hc3 _ Hev3 _ _ Hl3.
  do 3 (split; [done|]). split; [rewrite Hl3; set_solver|]. split; [by rewrite Hfl3|].
  replace (config (w_peer w)) with (config (w_peer w2')) by congruence. done.
Qed.
End watchdog.

Module Examples.
Import Small MsgTree.Examples PeerExamples.Link.

Abbreviation turn := (p_psm_turn base cfg objs (λ _, None) 10).

(** Nothing comes from the peer: DWR, suspect, closed. *)
Definition w5 := Eval vm_compute in from w4 (run 40).
Definition w6 := Eval vm_compute in from w5 (run 50).

Lemma turn5 : turn (at_ 40) w4 = Ret w5 Looping.
Proof. by vm_compute. Qed.
Lemma turn6 : turn (at_ 50) w5 = Ret w6 Looping.
Proof. by vm_compute. Qed.

Lemma quiet_w4 : quiet_open w4.
Proof.
  split; try by vm_compute. destruct (reachable_consistent _ _ _ _ _ _ _ PsmSpec.Examples.w4_reachable) as [[(_ & Hs & _)|[Hz _]] _]; [done|].
  exfalso. revert Hz. by vm_compute.
Qed.

Lemma no_requests (σ : sr_list) : srs σ = [] → exp σ = [] → heap σ = ∅ → cnt σ = 0 → cnt_lost σ = 0 → sr_wf σ.
Proof.
  intros H1 H2 H3 H4 H5. destruct init_srl_wf. split; rewrite ?H1, ?H2, ?H3, ?H4, ?H5; try done; [by intros x [? []%lookup_empty_Some]|by left].
Qed.

Lemma undisturbed_refl (w : world (list bytes)) : queues_ok w → undisturbed w w.
Proof. by intros. Qed.

Lemma queues_w5 : queues_ok w5.
Proof. split; [by apply no_requests|by vm_compute]. Qed.
Lemma queues_w6 : queues_ok w6.
Proof. split; [by apply no_requests|by vm_compute]. Qed.

Lemma next_timer_bounds_witness :
  0 ≤ 999999999 < 1000000000 ∧ to_nsec (next_timer (TS 100 999999999) (7, 5) true 30) < to_nsec (TS 100 999999999) + 32 * 1000000000.
Proof.
  split; [lia|]. assert (0 ≤ tv_nsec (TS 100 999999999) < 1000000000) as H by (cbn; lia).
  destruct (next_timer_bounds (TS 100 999999999) (7, 5) 30 H) as (_ & [_ Hlt] & _). revert Hlt. rewrite decide_True by lia. cbn. lia.
Defined.

Lemma dead_peer_given_up_witness :
  quiet_open w4 ∧ expired (at_ 40) w4 ∧ expired (at_ 50) w5 ∧ expired (at_ 70) w6 ∧
  ∃ w7, turn (at_ 70) w6 = Ret w7 Looping ∧ p_state (w_peer w7) = STATE_CLOSED ∧ 7%nat ∉ w_live w7.
Proof.
  assert (expired (at_ 40) w4) as H4 by by vm_compute.
  assert (expired (at_ 50) w5) as H5 by by vm_compute.
  assert (expired (at_ 70) w6) as H6 by by vm_compute.
  assert (is_Some (cmd_data base (fd_dict_cmd_DWR objs))) as Hcmd by by eexists.
  destruct (dead_peer_given_up base cfg objs (λ _, None) 10 (at_ 40) (at_ 50) (at_ 70) w4 base_objs_ok Hcmd quiet_w4 H4)
    as (c & w5' & dwr & Hc & Ht & _ & _ & _ & _ & H).
  rewrite turn5 in Ht. injection Ht as <-. assert (c = 7%nat) as -> by (revert Hc; vm_compute; congruence).
  destruct (H w5 (undisturbed_refl _ queues_w5) H5) as (w6' & Ht & _ & _ & _ & _ & _ & _ & _ & _ & H').
  rewrite turn6 in Ht. injection Ht as <-.
  destruct (H' w6 (undisturbed_refl _ queues_w6) H6) as (w7 & Ht & Hst & _ & Hl & _).
  do 4 (split; [first [exact quiet_w4|assumption]|]). by exists w7.
Defined.
End Examples.
