(* ===== verification/Daemon.v ===== *)
(** * The daemon: its peers, its queues and its messages

    What the routing threads and the list of peers share
    ([libfdcore/peers.c], [queues.c], [routing_dispatch.c]): a message lives at
    an address, a queue holds addresses, and the operations on one peer
    ([Peer.v], [Psm.v]) run on the [world] of that peer.  Posting to a queue
    waits for room: the model appends. *)

From Stdlib Require Import ZArith Lia.
From stdpp Require Import base sets list gmap.
From S2P Require Import Prelude Time Msg MsgTree RtData Fifo Effect PeerTypes.

(** [g_peers], [g_active]: [fd_g_peers], [fd_g_activ_peers] (identities);
    [g_expiring]: the expiry list; [g_live]: the connections that exist;
    [g_msgs], [g_rtds]: the messages and the routing data in memory, and
    [g_next] an address above all; then the three queues, the sessions, the
    end-to-end counter, what was sent on connections, and the messages for which
    the hook [HOOK_MESSAGE_DROPPED] was called. *)
Record daemon {S : Type} := Daemon {
  g_peers : list fd_peer; g_active : list bytes; g_expiring : list (timespec * bytes); g_live : gset nat;
  g_msgs : msgs; g_rtds : gmap nat rt_data; g_next : nat;
  g_incoming : list nat; g_local : list nat; g_outgoing : list nat;
  g_sess : S; g_eteid : Z; g_sent : list (nat * bytes); g_dropped : list nat }.
Arguments daemon : clear implicits.
Arguments Daemon {S}.

Section daemon.
Context {S : Type} `{!MsgSessions S}.
Implicit Types g : daemon S.

Definition set_peers (l : list fd_peer) g : daemon S :=
  Daemon l (g_active g) (g_expiring g) (g_live g) (g_msgs g) (g_rtds g) (g_next g) (g_incoming g) (g_local g)
    (g_outgoing g) (g_sess g) (g_eteid g) (g_sent g) (g_dropped g).
Definition set_g_active (l : list bytes) g : daemon S :=
  Daemon (g_peers g) l (g_expiring g) (g_live g) (g_msgs g) (g_rtds g) (g_next g) (g_incoming g) (g_local g)
    (g_outgoing g) (g_sess g) (g_eteid g) (g_sent g) (g_dropped g).
Definition set_g_expiring (l : list (timespec * bytes)) g : daemon S :=
  Daemon (g_peers g) (g_active g) l (g_live g) (g_msgs g) (g_rtds g) (g_next g) (g_incoming g) (g_local g)
    (g_outgoing g) (g_sess g) (g_eteid g) (g_sent g) (g_dropped g).
Definition set_memory (ms : msgs) g : daemon S :=
  Daemon (g_peers g) (g_active g) (g_expiring g) (g_live g) ms (g_rtds g) (g_next g) (g_incoming g) (g_local g)
    (g_outgoing g) (g_sess g) (g_eteid g) (g_sent g) (g_dropped g).
Definition set_rtds (rs : gmap nat rt_data) g : daemon S :=
  Daemon (g_peers g) (g_active g) (g_expiring g) (g_live g) (g_msgs g) rs (g_next g) (g_incoming g) (g_local g)
    (g_outgoing g) (g_sess g) (g_eteid g) (g_sent g) (g_dropped g).
Definition set_next (n : nat) g : daemon S :=
  Daemon (g_peers g) (g_active g) (g_expiring g) (g_live g) (g_msgs g) (g_rtds g) n (g_incoming g) (g_local g)
    (g_outgoing g) (g_sess g) (g_eteid g) (g_sent g) (g_dropped g).
Definition set_queues (i l o : list nat) g : daemon S :=
  Daemon (g_peers g) (g_active g) (g_expiring g) (g_live g) (g_msgs g) (g_rtds g) (g_next g) i l o
    (g_sess g) (g_eteid g) (g_sent g) (g_dropped g).
Definition set_counters (st : S) (eteid : Z) g : daemon S :=
  Daemon (g_peers g) (g_active g) (g_expiring g) (g_live g) (g_msgs g) (g_rtds g) (g_next g) (g_incoming g)
    (g_local g) (g_outgoing g) st eteid (g_sent g) (g_dropped g).
Definition set_dropped (l : list nat) g : daemon S :=
  Daemon (g_peers g) (g_active g) (g_expiring g) (g_live g) (g_msgs g) (g_rtds g) (g_next g) (g_incoming g)
    (g_local g) (g_outgoing g) (g_sess g) (g_eteid g) (g_sent g) l.

(** ** Messages and queues *)

(** A new message is stored. *)
Definition store_msg (m : msg) g : nat * daemon S :=
  (g_next g, set_next (Datatypes.S (g_next g)) (set_memory (<[g_next g := m]> (g_msgs g)) g)).

Definition the_msg (a : nat) : M (daemon S) msg := λ g,
  match g_msgs g !! a with Some m => Ret g m | None => Abort Own end.
Definition update_msg (a : nat) (m : msg) : M (daemon S) unit := modify (λ g, set_memory (<[a := m]> (g_msgs g)) g).
Definition new_msg (m : msg) : M (daemon S) nat := λ g, let '(a, g) := store_msg m g in Ret g a.

Inductive queue := Incoming | Local | Outgoing.

(** [fd_fifo_post] on [fd_g_incoming], [fd_g_local] and [fd_g_outgoing]. *)
Definition post (q : queue) (a : nat) : M (daemon S) unit := modify (λ g,
  match q with
  | Incoming => set_queues (g_incoming g ++ [a]) (g_local g) (g_outgoing g) g
  | Local => set_queues (g_incoming g) (g_local g ++ [a]) (g_outgoing g) g
  | Outgoing => set_queues (g_incoming g) (g_local g) (g_outgoing g ++ [a]) g
  end).

(** The message is taken out of the memory, with its routing data; its session
    has one message less. *)
Definition destroy_msg (a : nat) g : daemon S :=
  match g_msgs g !! a with
  | None => g
  | Some m =>
      set_memory (delete a (g_msgs g))
        (set_rtds (match msg_rtdata m with Some r => delete r (g_rtds g) | None => g_rtds g end)
           (set_counters (match msg_sess m with Some s => sess_reclaim_msg (g_sess g) s | None => g_sess g end) (g_eteid g) g))
  end.

(** [fd_msg_free]: an answer goes with its query; a query that an answer refers
    to stays.  The query of an answer has none itself. *)
Definition free_msg (a : nat) g : daemon S :=
  match g_msgs g !! a with
  | None => g
  | Some m =>
      match msg_query m with
      | Some q => destroy_msg a (destroy_msg q g)
      | None => if msg_associated m then g else destroy_msg a g
      end
  end.

Definition fd_msg_free (a : nat) : M (daemon S) unit := modify (free_msg a).

(** [HOOK_MESSAGE_DROPPED], then the message is freed. *)
Definition drop_msg (a : nat) : M (daemon S) unit :=
  modify (λ g, set_dropped (g_dropped g ++ [a]) g) ;! fd_msg_free a.

(** ** One peer

    The world of a peer starts with empty global queues; what was posted there
    is appended to the queues of the daemon. *)

Definition focus (p : fd_peer) g : world S :=
  World p (g_active g) (g_expiring g) (g_live g) (fd_fifo_new 0) [] (g_sess g) (g_eteid g) (g_sent g).

Definition take_outgoing g (x : msg * timespec) : daemon S :=
  let '(a, g) := store_msg (fst x) g in set_queues (g_incoming g) (g_local g) (g_outgoing g ++ [a]) g.

(** An answer keeps the address of its query. *)
Definition take_incoming g (x : msg * option msg) : daemon S :=
  let '(m, g) :=
    match snd x with
    | None => (fst x, g)
    | Some q => let '(a, g) := store_msg q g in (set_query (Some a) (fst x), g)
    end in
  let '(a, g) := store_msg m g in set_queues (g_incoming g ++ [a]) (g_local g) (g_outgoing g) g.

(** What an operation on a peer left, the peer apart. *)
Definition absorb (w : world S) g : daemon S :=
  let g := Daemon (g_peers g) (w_active w) (w_expiring w) (w_live w) (g_msgs g) (g_rtds g)
             (g_next g) (g_incoming g) (g_local g) (g_outgoing g) (w_sess w) (w_eteid w) (w_sent w) (g_dropped g) in
  foldl take_incoming (foldl take_outgoing g (items (w_outgoing w))) (w_incoming w).

(** The call [m] on a peer that is not in the list: the peer as it is left. *)
Definition on_new {A} (p : fd_peer) (m : M (world S) A) : M (daemon S) fd_peer := λ g,
  match m (focus p g) with
  | Ret w _ => Ret (absorb w g) (w_peer w)
  | Fail w e => Fail (absorb w g) e
  | Abort c => Abort c
  end.

Definition unfocus (i : nat) (w : world S) g : daemon S := set_peers (<[i := w_peer w]> (g_peers g)) (absorb w g).

(** The call [m] on the [i]-th peer of the list. *)
Definition on_peer {A} (i : nat) (m : M (world S) A) : M (daemon S) A := λ g,
  match g_peers g !! i with
  | None => Abort Own
  | Some p =>
      match m (focus p g) with
      | Ret w a => Ret (unfocus i w g) a
      | Fail w e => Fail (unfocus i w g) e
      | Abort c => Abort c
      end
  end.
End daemon.
