(* ===== verification/PeerList.v ===== *)
(** * The list of peers ([libfdcore/peers.c])

    [fd_g_peers] and its searches, the creation of a peer, the CER of a new
    connection, and the end of all peers.  The strings of the configuration that
    only name the origin of a peer ([p_dbgorig]) or the TLS priorities are left
    out; [idn2_to_ascii_8z] is that of [Ostr.v]; the result of [lrand48] is an
    argument. *)

From Stdlib Require Import ZArith Lia String.
From stdpp Require Import base sorting sets list gmap.
From S2P Require Import Prelude Time Ostr DictTypes Msg MsgDict MsgTree Fifo SentReq Endpoints CoreMsg Effect PeerTypes Peer LinkLocal Psm Daemon.

(** [struct peer_info], as given to [fd_peer_add]: [pi_diamid] is the memory at
    the pointer; [pic_realm] is the string in front of its terminator. *)
Record peer_info := PeerInfo { i_diamid : bytes; i_endpoints : list endpoint; i_config : peer_config }.

(** After the [memset]: [STATE_NEW] is 0. *)
Definition fd_peer_alloc (lrand48 : Z) : fd_peer :=
  Peer [] [] (PeerConfig 0 false false None 0 0 0) init_runtime STATE_NEW (TS 0 0)
    (PeerFlags false false false false false 0) None (TS 0 0) [] OutNone lrand48 init_srl [] 0 None None false None
    false false.

(** The loop that both [fd_peer_add] and [fd_peer_handle_newCER] run: the
    position of the peer with this identity, or that of a new one, behind
    [li_inf]. *)
Fixpoint peer_search (diamid : bytes) (l : list fd_peer) (i inf : nat) : nat + nat :=
  match l with
  | [] => inl inf
  | p :: l =>
      let '(cmp, cont) := fd_os_almostcasesrch_int diamid (pi_diamid p) in
      let inf := if decide (cmp > 0) then Datatypes.S i else inf in
      if decide (cmp = 0) then inr i
      else if cont : bool then peer_search diamid l (Datatypes.S i) inf else inl inf
  end.

(** The two loops of [fd_peer_getbyid]. *)
Fixpoint getbyid_igncase (diamid : bytes) (l : list fd_peer) (i : nat) : option nat :=
  match l with
  | [] => None
  | p :: l =>
      let '(cmp, cont) := fd_os_almostcasesrch_int diamid (pi_diamid p) in
      if decide (cmp = 0) then Some i else if cont : bool then getbyid_igncase diamid l (Datatypes.S i) else None
  end.

Fixpoint getbyid_exact (diamid : bytes) (l : list fd_peer) (i : nat) : option nat :=
  match l with
  | [] => None
  | p :: l =>
      let cmp := fd_os_cmp_int diamid (pi_diamid p) in
      if decide (cmp > 0) then getbyid_exact diamid l (Datatypes.S i) else if decide (cmp = 0) then Some i else None
  end.

(** The position in the list. *)
Definition fd_peer_getbyid (diamid : bytes) (igncase : bool) (l : list fd_peer) : res (option nat) :=
  check bool_decide (diamid ≠ []) in
  Ok (if igncase then getbyid_igncase diamid l 0 else getbyid_exact diamid l 0).

(** [fd_peer_getstate]: -1 ([None]) for NULL. *)
Definition fd_peer_getstate (l : list fd_peer) (peer : option nat) : option peer_state :=
  i ← peer; p ← l !! i; Some (p_state p).

(** [fd_peer_validate_register]: the callbacks, the last registered first. *)
Definition fd_peer_validate_register (v : validator) (validators : list validator) : list validator := v :: validators.

Definition insert_peer {S} (i : nat) (p : fd_peer) (g : daemon S) : daemon S :=
  set_peers (take i (g_peers g) ++ p :: drop i (g_peers g)) g.

(** [fd_peer_free]: the peer leaves the list of the expiring and that of the
    active peers. *)
Definition fd_peer_free {S} (p : fd_peer) (g : daemon S) : daemon S :=
  set_g_active (filter (λ x, x ≠ pi_diamid p) (g_active g))
    (set_g_expiring (expi_unlink (pi_diamid p) (g_expiring g)) g).

Section peers.
Context {D S : Type} `{!MsgDictionary D} `{!DispDictionary D} `{!CoreDictionary D} `{!MsgSessions S}.
Context (d : D) (cfg : fd_config) (bo : base_objs) (fuel : nat) (env : env).
Context (idn2_to_ascii_8z : bytes → option bytes) (lrand48 : Z).
Abbreviation M := (M (daemon S)).

(** *** Creation *)

(** "Create a structure to contain the new peer information". *)
Definition peer_of_info (info : peer_info) (cb : bool) : M fd_peer :=
  let! realm_ok := lift match pic_realm (i_config info) with
                        | None => Ok true
                        | Some r => fd_os_is_valid_DiameterIdentity (r ++ [0]) (zlen r)
                        end in
  require realm_ok ;!
  let! (blk, len) := lift (fd_os_validate_DiameterIdentity idn2_to_ascii_8z (i_diamid info) 0 true) in
  let p := fd_peer_alloc lrand48 in
  ret (Peer (take (Z.to_nat len) blk) (i_endpoints info) (i_config info) (runtime p) (p_state p) (p_exp_timer p)
         (p_flags p) (p_events p) (p_psm_timer p) (p_tosend p) (p_outthr p) (p_hbh p) (p_sr p) (p_tofailover p)
         (p_reqin_count p) (p_receiver p) (p_cer p) (p_ini_thr p) (p_cnxctx p) (p_cb2 p) cb).

(** A new peer is put at its place and its thread begins. *)
Definition create_peer (i : nat) (p : fd_peer) : M unit :=
  let! p := on_new p (fd_p_expi_update env) in
  modify (insert_peer i p) ;!
  on_peer i fd_psm_begin.

Definition fd_peer_add (info : peer_info) (cb : bool) : M unit :=
  let! p := peer_of_info info cb in
  let! l := gets g_peers in
  match peer_search (pi_diamid p) l 0 0 with
  | inr _ => fail EEXIST
  | inl i => create_peer i p
  end.

(** *** The CER of a new connection *)

(** The peer made for a new remote host. *)
Definition responder_peer (diamid : bytes) : fd_peer :=
  let p := fd_peer_alloc lrand48 in
  Peer diamid (pi_endpoints p) (PeerConfig 0 true false None 3600 0 0) (runtime p) (p_state p) (p_exp_timer p)
    (PeerFlags true true false false false 0) (p_events p) (p_psm_timer p) (p_tosend p) (p_outthr p) (p_hbh p)
    (p_sr p) (p_tofailover p) (p_reqin_count p) (p_receiver p) (p_cer p) (p_ini_thr p) (p_cnxctx p) (p_cb2 p) (p_cb p).

(** The answer to a CER whose Origin-Host is not an identity, sent on the
    connection. *)
Definition refuse_CER (cer : msg) (avp_oh : avp) (cnx : nat) : M unit :=
  let! _ := on_new (fd_peer_alloc lrand48)
    (let! ans := answer_from_req d fuel cer MSGFL_ANSW_ERROR in
     let! ans := rescode_set d cfg bo ans (str "DIAMETER_INVALID_AVP_VALUE")
                   (Some (str "Your Origin-Host contains invalid characters.")) (Some avp_oh) 1 in
     fd_out_send d env ans (Some cnx) false false) in
  fail EINVAL.

(** "Check if the peer is in zombie state": it is re-activated. *)
Definition reactivate (i : nat) : M unit :=
  on_peer i
    (let! p := get id in
     when (bool_decide (p_state p = STATE_ZOMBIE))
       (when (pic_exp (config p))
          (upd_flags (λ f, PeerFlags true (pf_delete f) (pf_localterm f) (pf_dw_pending f) (pf_cnx_pb f) (pf_reopen_cnt f))) ;!
        upd (set_p_state STATE_NEW) ;!
        upd_flags (set_pf_localterm false) ;!
        fd_psm_begin)).

(** The model of Origin-Host is searched once and kept: it is that of
    [fd_msg_init]. *)
Definition fd_peer_handle_newCER (cer : msg) (cnx : nat) : M unit :=
  let! (avp_oh, cer) := lift (search_avp d fuel cer (dict_avp_OH bo)) in
  match avp_oh with
  | None => assertM false
  | Some oh =>
      let! id := lift match avp_val oh with Some (OS v) => Ok v | _ => Crash end in
      let! valid := lift (fd_os_is_valid_DiameterIdentity (id ++ [0]) (zlen id)) in
      if negb valid then refuse_CER cer oh cnx
      else
        let! l := gets g_peers in
        let! (i, found) :=
          match peer_search id l 0 0 with
          | inr i => reactivate i ;! ret (i, true)
          | inl i => create_peer i (responder_peer id) ;! ret (i, false)
          end in
        on_peer i (fd_event_send (FDEVP_CNX_INCOMING cer cnx (negb found)))
  end.

(** *** The end *)

Definition is_zombie (p : fd_peer) : bool := bool_decide (p_state p = STATE_ZOMBIE).

(** [purge]: the zombies leave the list. *)
Definition purge_zombies : M (list fd_peer) :=
  let! l := gets g_peers in
  modify (set_peers (filter (λ p, is_zombie p = false) l)) ;!
  ret (filter (λ p, is_zombie p = true) l).

(** The first loop sends the signal to the [n] peers from position [i] on. *)
Fixpoint terminate_peers (i n : nat) : M unit :=
  match n with
  | 0%nat => ret tt
  | Datatypes.S n =>
      ignore (on_peer i (fd_psm_terminate (Some (str "REBOOTING")))) ;! terminate_peers (Datatypes.S i) n
  end.

Definition free_peers (l : list fd_peer) : M unit := modify (λ g, foldr fd_peer_free g l).

(** The waiting loop: [others] is what the threads of the peers do in each of the
    pauses that the clock allows. *)
Fixpoint wait_peers (others : list (M unit)) (purge : list fd_peer) : M (list fd_peer) :=
  match others with
  | [] => ret purge
  | o :: others =>
      let! l := gets g_peers in
      if decide (l = []) then ret purge
      else ignore o ;! let! z := purge_zombies in wait_peers others (purge ++ z)
  end.

(** The first peer is stopped ([fd_psm_abord]) and leaves the list, [n] times at
    most. *)
Fixpoint abord_peers (n : nat) (purge : list fd_peer) : M (list fd_peer) :=
  match n with
  | 0%nat => ret purge
  | Datatypes.S n =>
      let! l := gets g_peers in
      match l with
      | [] => ret purge
      | p :: _ =>
          on_peer 0 (ignore (fd_psm_abord env)) ;!
          let! l := gets g_peers in
          modify (set_peers (tail l)) ;!
          abord_peers n (purge ++ take 1 l)
      end
  end.

Definition fd_peer_fini_force : M unit :=
  let! l := gets g_peers in
  let! purge := abord_peers (length l) [] in
  free_peers purge.

(** The validators are freed at the end. *)
Definition fd_peer_fini (others : list (M unit)) : M unit :=
  let! purge := purge_zombies in
  let! l := gets g_peers in
  terminate_peers 0 (length l) ;!
  let! purge := wait_peers others purge in
  fd_peer_fini_force ;!
  free_peers purge.
End peers.
