(* ===== verification/PeerNames.v ===== *)
(** * The identity of a peer

    No round of the state machine, and no call that the list of peers makes,
    changes the identity of the peer it works on. *)

From Stdlib Require Import ZArith Lia String.
From stdpp Require Import base sorting sets list gmap.
From S2P Require Import Prelude Time Ostr DictTypes Msg MsgDict MsgTree MsgRules Fifo SentReq Apps DictFct Endpoints CoreMsg Effect PeerTypes Peer LinkLocal Capab Exchange Psm.

Section names.
Context {D S : Type} `{!MsgDictionary D} `{!DispDictionary D} `{!CoreDictionary D} `{!MsgSessions S} `{!AddressTypes D}.
Context (d : D) (cfg : fd_config) (bo : base_objs) (pei_message : perr + rules_err → option bytes) (fuel : nat) (env : env).
Context (x : bytes).

Definition named (w : world S) : Prop := pi_diamid (w_peer w) = x.

Lemma free_events_named l : leaves named (free_events l).
Proof. induction l as [|ev l IH]; cbn [free_events]; leaves_tac. Qed.
#[local] Hint Resolve free_events_named : leaves.

Lemma validate_named l : leaves named (fd_peer_validate l).
Proof. induction l as [|v l IH]; cbn [fd_peer_validate]; leaves_tac. Qed.
#[local] Hint Resolve validate_named : leaves.

Lemma p_psm_turn_named : leaves named (p_psm_turn d cfg bo pei_message fuel env).
Proof. leaves_tac. Qed.
End names.
