(* ===== verification/PeerListSpec.v ===== *)
(** * Properties of the list of peers

    [fd_g_peers] is ordered by identity, and no two of its peers have the same
    identity up to case: this is what makes the two searches of
    [fd_peer_getbyid] right.  Every operation and every round of the state
    machine of a peer keeps it so. *)

From Stdlib Require Import ZArith Lia String.
From stdpp Require Import base sorting sets list gmap.
From S2P Require Import Prelude Time Ostr RtData DictTypes Msg MsgDict MsgTree MsgRules Fifo SentReq Apps DictFct Endpoints CoreMsg Effect PeerTypes Peer LinkLocal Capab Exchange Psm PeerNames Daemon PeerList.

Definition ids (l : list fd_peer) : list bytes := pi_diamid <$> l.

(** No identity is written twice, even with another case. *)
Definition fold_case (x : bytes) : bytes := asciitolower <$> x.
Definition case_distinct (l : list bytes) : Prop := NoDup (fold_case <$> l).

Definition ids_ok (l : list bytes) : Prop := Increasing fd_os_cmp_int l ∧ case_distinct l.

Definition peers_ok {S} (g : daemon S) : Prop := ids_ok (ids (g_peers g)).

Lemma case_equal_sym x y : case_equal x y → case_equal y x.
Proof. unfold case_equal. congruence. Qed.

Lemma case_distinct_inj l i j x y : case_distinct l → l !! i = Some x → l !! j = Some y → case_equal x y → i = j.
Proof.
  intros Hd Hx Hy Hc. eapply (NoDup_lookup _ i j (fold_case x) Hd); rewrite list_lookup_fmap.
  - by rewrite Hx.
  - rewrite Hy. cbn. f_equal. symmetry. exact Hc.
Qed.

(** ** The searches *)

Lemma almost_cases x y :
  (case_equal x y ∧ fd_os_almostcasesrch_int x y = (0, true)) ∨
  (¬ case_equal x y ∧ fd_os_cmp_int x y < 0 ∧ zlen x < zlen y ∧ fd_os_almostcasesrch_int x y = (fd_os_cmp_int x y, false)) ∨
  (¬ case_equal x y ∧ fd_os_cmp_int x y ≠ 0 ∧ zlen y ≤ zlen x ∧ fd_os_almostcasesrch_int x y = (fd_os_cmp_int x y, true)).
Proof.
  destruct (almost_spec x y) as [Hz Hn]. cbn zeta in Hz, Hn.
  destruct (fd_os_almostcasesrch_int x y) as [r c] eqn:E. cbn [fst] in Hz, Hn.
  assert (c = negb (bool_decide (zlen x < zlen y))) as ->.
  { revert E. unfold fd_os_almostcasesrch_int. repeat case_decide; intros [= _ <-];
      [by rewrite bool_decide_true|by rewrite bool_decide_false by lia..]. }
  destruct (decide (case_equal x y)) as [Hc|Hc].
  - left. split; [done|]. pose proof (case_equal_length x y Hc). rewrite bool_decide_false by (unfold zlen; lia).
    by rewrite (proj2 Hz Hc).
  - right. assert (r ≠ 0) as Hr by tauto. specialize (Hn Hr). subst r. case_bool_decide as Hl; [left|right].
    + split; [done|]. split; [|done]. unfold fd_os_cmp_int. by rewrite decide_True.
    + split; [done|]. split; [done|]. split; [lia|done].
Qed.

(** The identities behind a greater one are greater. *)
Lemma above_all x y l : Increasing fd_os_cmp_int (y :: l) → fd_os_cmp_int x y < 0 → Forall (λ z, fd_os_cmp_int x z < 0) (y :: l).
Proof.
  intros [_ Hy]%StronglySorted_inv Hx. constructor; [done|]. eapply Forall_impl; [exact Hy|].
  intros z Hz. by eapply (cmp_lt_trans fd_os_cmp_int).
Qed.

Lemma below_not_same x y : fd_os_cmp_int x y < 0 → zlen x < zlen y → ¬ case_equal x y.
Proof. intros _ Hl E%case_equal_length. unfold zlen in Hl. lia. Qed.

(** A shorter identity than the first one is shorter than all of them. *)
Lemma shorter_than_all x y l z : Increasing fd_os_cmp_int (y :: l) → zlen x < zlen y → z ∈ y :: l → ¬ case_equal x z.
Proof.
  intros Hi Hl Hz. refine (almost_stop x y l Hi _ z Hz).
  unfold fd_os_almostcasesrch_int. by rewrite decide_True.
Qed.

Definition splits_at (x : bytes) (l : list bytes) (j : nat) : Prop :=
  (j ≤ length l)%nat ∧ Forall (λ y, fd_os_cmp_int y x < 0) (take j l) ∧ Forall (λ y, fd_os_cmp_int x y < 0) (drop j l).

Definition search_ok (x : bytes) (l : list fd_peer) (i inf : nat) (r : nat + nat) : Prop :=
  match r with
  | inr k => ∃ j p, k = (i + j)%nat ∧ l !! j = Some p ∧ case_equal x (pi_diamid p)
  | inl k => (∀ y, y ∈ ids l → ¬ case_equal x y) ∧
             ∃ j, splits_at x (ids l) j ∧ k = if decide (j = 0%nat) then inf else (i + j)%nat
  end.

Lemma ids_cons p l : ids (p :: l) = pi_diamid p :: ids l.
Proof. done. Qed.

Lemma splits_cons x y l j : fd_os_cmp_int y x < 0 → splits_at x l j → splits_at x (y :: l) (Datatypes.S j).
Proof. intros Hy (H1 & H2 & H3). split; [cbn [length]; lia|]. split; [by constructor|done]. Qed.

Lemma splits_start x l : Forall (λ y, fd_os_cmp_int x y < 0) l → splits_at x l 0.
Proof. intros H. split; [lia|]. by split. Qed.

(** A greater first identity leaves only one place. *)
Lemma splits_zero x l j : Forall (λ y, fd_os_cmp_int x y < 0) l → splits_at x l j → j = 0%nat.
Proof.
  intros Hl (Hj & Ht & _). destruct j as [|j]; [done|]. destruct l as [|y l]; [cbn in Hj; lia|].
  cbn [take] in Ht. apply Forall_cons in Ht as [Hy _]. apply Forall_cons in Hl as [Hx _].
  apply (cmp_lt_gt fd_os_cmp_int) in Hy. lia.
Qed.

Lemma peer_search_ok x l i inf : Increasing fd_os_cmp_int (ids l) → search_ok x l i inf (peer_search x l i inf).
Proof.
  revert i inf. induction l as [|p l IH]; intros i inf Hi.
  { split; [intros y Hy; by apply not_elem_of_nil in Hy|]. exists 0%nat. split; [by apply splits_start|done]. }
  rewrite ids_cons in Hi. cbn [peer_search].
  destruct (almost_cases x (pi_diamid p)) as [(Hc & ->)|[(Hc & Hlt & Hl & ->)|(Hc & Hne & Hl & ->)]].
  - rewrite (decide_True (P:=0 = 0)) by done. exists 0%nat, p. split; [lia|done].
  - rewrite (decide_False (P:=_ > 0)) by lia. rewrite decide_False by lia. split.
    + intros y Hy. by eapply (shorter_than_all x (pi_diamid p) (ids l)).
    + exists 0%nat. split; [|done]. by apply splits_start, above_all.
  - rewrite (decide_False (P:=fd_os_cmp_int x (pi_diamid p) = 0)) by done.
    pose proof Hi as [Hi' _]%StronglySorted_inv.
    specialize (IH (Datatypes.S i) (if decide (fd_os_cmp_int x (pi_diamid p) > 0) then Datatypes.S i else inf) Hi').
    destruct (peer_search _ _ _ _) as [k|k]; cbn [search_ok] in IH |- *; rewrite ?ids_cons.
    + destruct IH as (Hno & j & Hj & ->). split.
      { intros y [->|Hy]%elem_of_cons; [done|by apply Hno]. }
      destruct (decide (fd_os_cmp_int x (pi_diamid p) > 0)) as [Hgt|Hgt].
      * exists (Datatypes.S j). split; [apply splits_cons; [apply (cmp_gt_lt fd_os_cmp_int); lia|done]|].
        rewrite (decide_False (P:=Datatypes.S j = 0%nat)) by lia. case_decide; subst; lia.
      * assert (Forall (λ z, fd_os_cmp_int x z < 0) (pi_diamid p :: ids l)) as Hall by (apply above_all; [done|lia]).
        exists 0%nat. split; [by apply splits_start|].
        rewrite (splits_zero x (ids l) j) by (done || by apply Forall_cons in Hall as [_ ?]). by rewrite !decide_True.
    + destruct IH as (j & q & -> & Hq & Hcq). exists (Datatypes.S j), q. split; [lia|done].
Qed.

(** A search of the whole list. *)
Lemma peer_search_whole x l : Increasing fd_os_cmp_int (ids l) →
  (∃ j p, peer_search x l 0 0 = inr j ∧ l !! j = Some p ∧ case_equal x (pi_diamid p)) ∨
  (∃ j, peer_search x l 0 0 = inl j ∧ (∀ y, y ∈ ids l → ¬ case_equal x y) ∧ splits_at x (ids l) j).
Proof.
  intros Hi. pose proof (peer_search_ok x l 0 0 Hi) as H. destruct (peer_search x l 0 0) as [k|k]; cbn [search_ok] in H.
  - right. destruct H as (Hno & j & Hj & ->). exists j. split; [|done]. case_decide; subst; f_equal; lia.
  - left. destruct H as (j & p & -> & Hp & Hc). by exists j, p.
Qed.

(** *** [fd_peer_getbyid] *)

Lemma getbyid_exact_ok x l i : Increasing fd_os_cmp_int (ids l) →
  getbyid_exact x l i = (λ p, i + fst p)%nat <$> list_find (λ y, y = x) (ids l).
Proof.
  revert i. induction l as [|p l IH]; intros i Hi; [done|]. rewrite ids_cons in Hi |- *.
  pose proof Hi as [Hi' Hp]%StronglySorted_inv. cbn [getbyid_exact list_find].
  destruct (decide (pi_diamid p = x)) as [<-|Hne].
  - rewrite (decide_False (P:=_ > 0)), decide_True by (rewrite (cmp_refl (cmp:=fd_os_cmp_int)); lia). cbn. f_equal. lia.
  - case_decide as Hgt.
    + rewrite IH by done. destruct (list_find _ (ids l)) as [[j y]|]; cbn; [f_equal; lia|done].
    + rewrite decide_False by (rewrite fd_os_cmp_zero; congruence).
      assert (fd_os_cmp_int x (pi_diamid p) < 0) as Hlt.
      { destruct (decide (fd_os_cmp_int x (pi_diamid p) = 0)) as [E%fd_os_cmp_zero|]; [congruence|lia]. }
      destruct (list_find (λ y, y = x) (ids l)) as [[j y]|] eqn:E; [|done]. exfalso.
      apply list_find_Some in E as (Hj & -> & _). apply list_elem_of_lookup_2 in Hj.
      pose proof (above_all _ _ _ Hi Hlt) as [_ Hall]%Forall_cons. rewrite Forall_forall in Hall.
      specialize (Hall x Hj). rewrite (cmp_refl (cmp:=fd_os_cmp_int)) in Hall. lia.
Qed.

Lemma getbyid_igncase_ok x l i : Increasing fd_os_cmp_int (ids l) →
  getbyid_igncase x l i = (λ p, i + fst p)%nat <$> list_find (case_equal x) (ids l).
Proof.
  revert i. induction l as [|p l IH]; intros i Hi; [done|]. rewrite ids_cons in Hi |- *.
  pose proof Hi as [Hi' _]%StronglySorted_inv. cbn [getbyid_igncase list_find].
  destruct (almost_cases x (pi_diamid p)) as [(Hc & ->)|[(Hc & Hlt & Hl & ->)|(Hc & Hne & Hl & ->)]].
  - rewrite (decide_True (P:=0 = 0)), decide_True by done. cbn. f_equal. lia.
  - rewrite decide_False by lia. rewrite decide_False by done.
    destruct (list_find (case_equal x) (ids l)) as [[j y]|] eqn:E; [|done]. exfalso.
    apply list_find_Some in E as (Hj & Hy & _). apply list_elem_of_lookup_2 in Hj.
    eapply (shorter_than_all x (pi_diamid p) (ids l) y); [done|done|by right|done].
  - rewrite decide_False by done. rewrite decide_False by done. rewrite IH by done.
    destruct (list_find _ (ids l)) as [[j y]|]; cbn; [f_equal; lia|done].
Qed.

(** A search that can stop at one peer only. *)
Lemma find_one (P : bytes → Prop) `{∀ y, Decision (P y)} l i :
  (∀ j k y z, ids l !! j = Some y → ids l !! k = Some z → P y → P z → j = k) →
  (λ p, 0 + fst p)%nat <$> list_find P (ids l) = Some i ↔ ∃ p, l !! i = Some p ∧ P (pi_diamid p).
Proof.
  intros Hone. split.
  - intros ([j y] & (Hj & Hy & _)%list_find_Some & ->)%fmap_Some. cbn. unfold ids in Hj. rewrite list_lookup_fmap in Hj.
    destruct (l !! j) as [p|]; [|done]. injection Hj as <-. by exists p.
  - intros (p & Hp & HPp). assert (ids l !! i = Some (pi_diamid p)) as Hl by (unfold ids; by rewrite list_lookup_fmap, Hp).
    destruct (list_find P (ids l)) as [[j y]|] eqn:E.
    + apply list_find_Some in E as (Hj & Hy & _). cbn. f_equal. by eapply Hone.
    + apply list_find_None in E. rewrite Forall_forall in E. apply list_elem_of_lookup_2 in Hl. by destruct (E _ Hl).
Qed.

Lemma getbyid_found x l : ids_ok (ids l) → x ≠ [] →
  ∃ r, fd_peer_getbyid x false l = Ok r ∧ ∀ i, r = Some i ↔ ∃ p, l !! i = Some p ∧ pi_diamid p = x.
Proof.
  intros [Hi Hd] Hx. unfold fd_peer_getbyid. rewrite bool_decide_true by done. rewrite (getbyid_exact_ok _ _ _ Hi).
  eexists. split; [done|]. intros i. apply find_one. intros j k y z Hj Hk -> ->. by eapply (case_distinct_inj (ids l) j k x x).
Qed.

(** in a list of peers that is in order, the search for an identity finds the
    peer that has it, and the search that ignores the case the one peer whose
    identity is equal up to case; both find none exactly when there is none. *)
Theorem fd_peer_getbyid_spec x l : ids_ok (ids l) → x ≠ [] →
  ∃ r r', fd_peer_getbyid x false l = Ok r ∧ fd_peer_getbyid x true l = Ok r' ∧
    (∀ i, r = Some i ↔ ∃ p, l !! i = Some p ∧ pi_diamid p = x) ∧
    (∀ i, r' = Some i ↔ ∃ p, l !! i = Some p ∧ case_equal x (pi_diamid p)).
Proof.
  intros Hok Hx. destruct (getbyid_found x l Hok Hx) as (r & Hr & Hspec). destruct Hok as [Hi Hd]. exists r.
  unfold fd_peer_getbyid at 2. rewrite bool_decide_true by done. rewrite (getbyid_igncase_ok _ _ _ Hi).
  eexists. split; [done|]. split; [done|]. split; [done|]. intros i. apply find_one.
  intros j k y z Hj Hk Hy Hz. eapply (case_distinct_inj (ids l) j k y z); [done..|]. unfold case_equal in *. congruence.
Qed.

(** ** Insertion *)

Lemma splits_increasing x l j : Increasing fd_os_cmp_int l → splits_at x l j → Increasing fd_os_cmp_int (take j l ++ x :: drop j l).
Proof. intros Hi (_ & Ht & Hd). apply StronglySorted_mid; [by rewrite take_drop|done..]. Qed.

Lemma insert_distinct x l j : case_distinct l → (∀ y, y ∈ l → ¬ case_equal x y) → case_distinct (take j l ++ x :: drop j l).
Proof.
  intros Hd Hno. unfold case_distinct. rewrite fmap_app, fmap_cons, <- Permutation_middle, <- fmap_app, take_drop.
  constructor; [|done]. intros (y & Hc & Hy)%list_elem_of_fmap. by apply (Hno y).
Qed.

Lemma ids_insert j p l : ids (take j l ++ p :: drop j l) = take j (ids l) ++ pi_diamid p :: drop j (ids l).
Proof. unfold ids. by rewrite fmap_app, fmap_cons, fmap_take, fmap_drop. Qed.

Lemma insert_ok x l j : ids_ok l → (∀ y, y ∈ l → ¬ case_equal x y) → splits_at x l j → ids_ok (take j l ++ x :: drop j l).
Proof. intros [Hi Hd] Hno Hs. split; [by apply splits_increasing|by apply insert_distinct]. Qed.

Lemma sublist_ok k l : ids_ok l → sublist k l → ids_ok k.
Proof.
  intros [Hi Hd] Hs. split; [by eapply Increasing_sublist|].
  eapply sublist_NoDup; [exact Hd|]. clear -Hs. induction Hs; cbn; by constructor.
Qed.

(** ** Calls on one peer *)

Section on_peer.
Context {S : Type}.
Implicit Types g : daemon S.

Lemma take_outgoing_peers g x : g_peers (take_outgoing g x) = g_peers g.
Proof. done. Qed.
Lemma take_incoming_peers g x : g_peers (take_incoming g x) = g_peers g.
Proof. destruct x as [m [q|]]; done. Qed.

Lemma foldl_peers {A} (f : daemon S → A → daemon S) l g :
  (∀ g x, g_peers (f g x) = g_peers g) → g_peers (foldl f g l) = g_peers g.
Proof. intros Hf. revert g. induction l as [|x l IH]; intros g; [done|]. cbn. by rewrite IH, Hf. Qed.

Lemma absorb_peers (w : world S) g : g_peers (absorb w g) = g_peers g.
Proof.
  unfold absorb. rewrite foldl_peers by apply take_incoming_peers. by rewrite foldl_peers by apply take_outgoing_peers.
Qed.

Lemma unfocus_peers i (w : world S) g : g_peers (unfocus i w g) = <[i := w_peer w]> (g_peers g).
Proof. done. Qed.

Lemma ids_update l i p q : l !! i = Some p → pi_diamid q = pi_diamid p → ids (<[i := q]> l) = ids l.
Proof.
  intros Hp Hq. unfold ids. rewrite list_fmap_insert, Hq. apply list_insert_id. by rewrite list_lookup_fmap, Hp.
Qed.

(** The identities stay when the call keeps that of its peer. *)
Lemma on_peer_ids {A} (P : list bytes → Prop) i (m : Effect.M (world S) A) :
  (∀ x, leaves (named x) m) → leaves (λ g, P (ids (g_peers g))) (on_peer i m).
Proof.
  intros Hm g Hg. unfold on_peer. destruct (g_peers g !! i) as [p|] eqn:Hp; [|by intros []].
  specialize (Hm (pi_diamid p) (focus p g) eq_refl). destruct (m (focus p g)) as [w a|w e|c]; [..|by intros []].
  all: rewrite unfocus_peers, (ids_update _ _ _ _ Hp) by exact Hm; done.
Qed.

Lemma on_new_ids {A} (P : list bytes → Prop) p (m : Effect.M (world S) A) : leaves (λ g, P (ids (g_peers g))) (on_new p m).
Proof. intros g Hg. unfold on_new. destruct (m (focus p g)); [..|by intros []]. all: by rewrite absorb_peers. Qed.
End on_peer.

(** ** Adding a peer *)

Section adding.
Context {D S : Type} `{!MsgDictionary D} `{!DispDictionary D} `{!CoreDictionary D} `{!MsgSessions S}.
Context (d : D) (cfg : fd_config) (bo : base_objs) (fuel : nat) (env : env).
Context (idn2_to_ascii_8z : bytes → option bytes) (lrand48 : Z).
Implicit Types g : daemon S.

(** The expiry list once the timer of a new peer is set. *)
Definition expiry_of (p : fd_peer) (l : list (timespec * bytes)) : list (timespec * bytes) :=
  let l := expi_unlink (pi_diamid p) l in
  if pic_exp (config p) then
    expi_insert (TS (tv_sec (e_now env) + pic_lft (config p)) (tv_nsec (e_now env))) (pi_diamid p) l
  else l.

(** The peer once its timer is set and its thread begins. *)
Definition begun (p : fd_peer) : fd_peer :=
  set_p_events (Some [])
    (if pic_exp (config p) then set_p_exp_timer (TS (tv_sec (e_now env) + pic_lft (config p)) (tv_nsec (e_now env))) p
     else p).

(** What the creation of a peer leaves, at the [i]-th place. *)
Definition with_new_peer (i : nat) (p : fd_peer) g : daemon S :=
  insert_peer i (begun p) (set_g_expiring (expiry_of p (g_expiring g)) g).

Lemma expi_update_run p g :
  on_new p (fd_p_expi_update env) g
  = Ret (set_g_expiring (expiry_of p (g_expiring g)) g)
      (if pic_exp (config p) then set_p_exp_timer (TS (tv_sec (e_now env) + pic_lft (config p)) (tv_nsec (e_now env))) p
       else p).
Proof.
  unfold on_new, expiry_of, fd_p_expi_update, bind, get, gets, modify, when, upd. cbn [focus w_peer id w_expiring].
  by destruct (pic_exp (config p)).
Qed.

Lemma insert_lookup i p g : (i ≤ length (g_peers g))%nat → g_peers (insert_peer i p g) !! i = Some p.
Proof.
  intros Hi. cbn. rewrite lookup_app_r; rewrite length_take_le by done; [|done]. by rewrite Nat.sub_diag.
Qed.

Lemma insert_update i p q g : (i ≤ length (g_peers g))%nat →
  set_peers (<[i := q]> (g_peers (insert_peer i p g))) (insert_peer i p g) = insert_peer i q g.
Proof.
  intros Hi. unfold insert_peer. cbn [g_peers set_peers].
  rewrite insert_app_r_alt; rewrite length_take_le by done; [|done]. by rewrite Nat.sub_diag.
Qed.

Lemma psm_begin_run i p g : p_state p = STATE_NEW → (i ≤ length (g_peers g))%nat →
  on_peer i fd_psm_begin (insert_peer i p g) = Ret (insert_peer i (set_p_events (Some []) p) g) tt.
Proof.
  intros Hp Hi. unfold on_peer. rewrite insert_lookup by done.
  unfold fd_psm_begin, get, gets, bind, require, upd, modify. cbn [focus w_peer]. rewrite bool_decide_true by done.
  cbn [ret]. unfold unfocus. cbn [w_peer set_peer focus]. rewrite <- (insert_update i p (set_p_events (Some []) p) g) by done.
  done.
Qed.

Lemma begin_run i p g : p_state p = STATE_NEW → (i ≤ length (g_peers g))%nat →
  create_peer env i p g = Ret (with_new_peer i p g) tt.
Proof.
  intros Hp Hi. eapply bind_ret; [apply expi_update_run|]. eapply bind_ret; [done|].
  rewrite psm_begin_run by (by destruct (pic_exp _) || done). unfold with_new_peer, begun. done.
Qed.

Lemma begun_name p : pi_diamid (begun p) = pi_diamid p.
Proof. unfold begun. by destruct (pic_exp _). Qed.

Lemma with_new_peer_ok i p g : peers_ok g → (∀ y, y ∈ ids (g_peers g) → ¬ case_equal (pi_diamid p) y) →
  splits_at (pi_diamid p) (ids (g_peers g)) i → peers_ok (with_new_peer i p g).
Proof.
  intros Hok Hno Hs. unfold peers_ok, with_new_peer, insert_peer. cbn [g_peers set_peers set_g_expiring].
  rewrite ids_insert, begun_name. by apply insert_ok.
Qed.

Lemma peer_of_info_run info cb g g' p : peer_of_info idn2_to_ascii_8z lrand48 info cb g = Ret g' p →
  g' = g ∧ p_state p = STATE_NEW ∧ config p = i_config info.
Proof.
  unfold peer_of_info, bind, lift_at, require.
  destruct (match pic_realm (i_config info) with None => _ | Some _ => _ end) as [b| |]; [|done..]. cbn.
  destruct b; [|done]. cbn. destruct (fd_os_validate_DiameterIdentity _ _ _ _) as [[blk len]| |]; [|done..]. cbn.
  by intros [= <- <-].
Qed.

Lemma peer_of_info_fail info cb g g' e : peer_of_info (S:=S) idn2_to_ascii_8z lrand48 info cb g = Fail g' e → g' = g.
Proof.
  unfold peer_of_info, bind, lift_at, require.
  destruct (match pic_realm (i_config info) with None => _ | Some _ => _ end) as [b|e'|]; [|by intros [= <- _]|done]. cbn.
  destruct b; [|by intros [= <- _]]. cbn.
  destruct (fd_os_validate_DiameterIdentity _ _ _ _) as [[blk len]|e'|]; [done|by intros [= <- _]|done].
Qed.

(** [fd_peer_add] on a list in order: a peer whose identity is known already,
    up to case, is refused with [EEXIST] and nothing changes; any other one is
    created in the state NEW with an empty queue of events, at the place that
    keeps the list in order, and it starts to expire if it was configured so. *)
Theorem fd_peer_add_spec info cb g p :
  peers_ok g → peer_of_info idn2_to_ascii_8z lrand48 info cb g = Ret g p →
  ((∃ y, y ∈ ids (g_peers g) ∧ case_equal (pi_diamid p) y) →
     fd_peer_add env idn2_to_ascii_8z lrand48 info cb g = Fail g EEXIST) ∧
  ((∀ y, y ∈ ids (g_peers g) → ¬ case_equal (pi_diamid p) y) →
     ∃ i, fd_peer_add env idn2_to_ascii_8z lrand48 info cb g = Ret (with_new_peer i p g) tt ∧
          peers_ok (with_new_peer i p g) ∧ p_state p = STATE_NEW ∧ config p = i_config info).
Proof.
  intros Hok Hp. unfold fd_peer_add. rewrite (bind_ret _ _ _ _ _ _ Hp eq_refl). cbn [bind gets].
  apply peer_of_info_run in Hp as (_ & Hst & Hcfg).
  destruct (peer_search_whole (pi_diamid p) (g_peers g) (proj1 Hok))
    as [(j & q & -> & Hq & Hc)|(j & -> & Hno & Hs)].
  - split; [done|]. intros Hno. exfalso. eapply (Hno (pi_diamid q)); [|done].
    apply list_elem_of_fmap. exists q. split; [done|]. by eapply list_elem_of_lookup_2.
  - split; [intros (y & Hy & Hc); exfalso; by eapply Hno|]. intros _. exists j. split.
    + apply begin_run; [done|]. destruct Hs as (Hl & _). unfold ids in Hl. by rewrite length_fmap in Hl.
    + split; [|done]. by apply with_new_peer_ok.
Qed.

(** ** What the other operations leave *)

Definition reaches {A} (m : Effect.M (daemon S) A) g g' : Prop :=
  match m g with Ret t _ => t = g' | Fail t _ => t = g' | Abort _ => False end.

Lemma leaves_reaches {A} P (m : Effect.M (daemon S) A) g g' : leaves P m → P g → reaches m g g' → P g'.
Proof. intros Hm Hg Hr. specialize (Hm g Hg). unfold reaches in Hr. by destruct (m g); subst. Qed.

Lemma create_ok x p g : peers_ok g → pi_diamid p = x → p_state p = STATE_NEW →
  match peer_search x (g_peers g) 0 0 with
  | inl i => ∃ g', create_peer env i p g = Ret g' tt ∧ peers_ok g'
  | inr i => is_Some (g_peers g !! i)
  end.
Proof.
  intros Hok <- Hp. destruct (peer_search_whole (pi_diamid p) (g_peers g) (proj1 Hok))
    as [(j & q & -> & Hq & Hc)|(j & -> & Hno & Hs)]; [by eexists|].
  eexists. split; [apply begin_run; [done|]|by apply with_new_peer_ok].
  destruct Hs as (Hl & _). unfold ids in Hl. by rewrite length_fmap in Hl.
Qed.

Lemma fd_peer_add_leaves info cb : leaves (peers_ok (S:=S)) (fd_peer_add env idn2_to_ascii_8z lrand48 info cb).
Proof.
  intros g Hok. unfold fd_peer_add, bind. destruct (peer_of_info _ _ _ _ g) as [g1 p|g1 e|c] eqn:E; [|..|by intros []].
  - apply peer_of_info_run in E as (-> & Hst & _).
    cbn [gets]. pose proof (create_ok _ p g Hok eq_refl Hst) as H. destruct (peer_search _ _ _ _) as [i|i]; [|done].
    by destruct H as (g' & -> & ?).
  - by apply peer_of_info_fail in E as ->.
Qed.

(** The operations on one peer that the list uses. *)
Lemma on_peer_leaves {A} i (m : Effect.M (world S) A) : (∀ x, leaves (named x) m) → leaves (peers_ok (S:=S)) (on_peer i m).
Proof. apply (on_peer_ids ids_ok). Qed.
Lemma on_new_leaves {A} p (m : Effect.M (world S) A) : leaves (peers_ok (S:=S)) (on_new p m).
Proof. apply (on_new_ids ids_ok). Qed.
#[local] Hint Resolve on_new_leaves free_events_named : leaves.
#[local] Hint Extern 1 (leaves _ (on_peer _ _)) => apply on_peer_leaves; intros ?; leaves_tac : leaves.

Lemma handle_newCER_leaves cer cnx : leaves (peers_ok (S:=S)) (fd_peer_handle_newCER d cfg bo fuel env lrand48 cer cnx).
Proof.
  unfold fd_peer_handle_newCER. apply leaves_bind; [leaves_tac|]. intros [[oh|] cer']; [|leaves_tac].
  apply leaves_bind; [leaves_tac|]. intros x. apply leaves_bind; [leaves_tac|]. intros [|]; cbn [negb]; [|leaves_tac].
  apply leaves_gets_bind. intros g Hok. pose proof (create_ok x (responder_peer lrand48 x) g Hok eq_refl eq_refl) as H.
  destruct (peer_search x (g_peers g) 0 0) as [i|i].
  - destruct H as (g' & E & Hok'). unfold bind at 1 2. rewrite E. cbn [ret].
    by apply (on_peer_leaves i (fd_event_send _)); [intros y; leaves_tac|].
  - apply (leaves_bind _ peers_ok (reactivate i ;! ret (i, true))); [leaves_tac|intros [j b]; leaves_tac|done].
Qed.

Lemma filter_ok (P : fd_peer → Prop) `{∀ p, Decision (P p)} l : ids_ok (ids l) → ids_ok (ids (filter P l)).
Proof. intros H'. eapply sublist_ok; [exact H'|]. unfold ids. apply fmap_sublist, sublist_filter. Qed.

Lemma tail_ok l : ids_ok (ids l) → ids_ok (ids (tail l)).
Proof.
  destruct l as [|p l]; [done|]. intros H. eapply sublist_ok; [exact H|]. rewrite ids_cons. by apply sublist_cons.
Qed.

Lemma purge_zombies_leaves : leaves (peers_ok (S:=S)) purge_zombies.
Proof. intros g Hg. cbn. by apply filter_ok. Qed.
Lemma free_peers_leaves l : leaves (peers_ok (S:=S)) (free_peers l).
Proof.
  apply leaves_modify. intros g Hg. unfold peers_ok. assert (g_peers (foldr fd_peer_free g l) = g_peers g) as ->; [|done].
  by induction l.
Qed.
Lemma drop_first_leaves : leaves (peers_ok (S:=S)) (let! l := gets g_peers in modify (set_peers (tail l))).
Proof. apply leaves_gets_bind. intros g Hg. by apply tail_ok. Qed.
#[local] Hint Resolve purge_zombies_leaves free_peers_leaves : leaves.

Lemma terminate_leaves i n : leaves (peers_ok (S:=S)) (terminate_peers i n).
Proof. revert i. induction n as [|n IH]; intros i; cbn [terminate_peers]; leaves_tac. Qed.

Lemma abord_leaves n purge : leaves (peers_ok (S:=S)) (abord_peers env n purge).
Proof.
  revert purge. induction n as [|n IH]; intros purge; cbn [abord_peers]; [leaves_tac|].
  apply leaves_bind; [leaves_tac|]. intros [|p l]; [leaves_tac|]. apply leaves_bind; [leaves_tac|]. intros _.
  apply leaves_gets_bind. intros g Hg. exact (IH _ (set_peers (tail (g_peers g)) g) (tail_ok _ Hg)).
Qed.
#[local] Hint Resolve terminate_leaves abord_leaves : leaves.

Lemma wait_leaves others purge : Forall (leaves (peers_ok (S:=S))) others → leaves peers_ok (wait_peers others purge).
Proof.
  intros Ho. revert purge. induction Ho as [|o others Ho _ IH]; intros purge; cbn [wait_peers]; [leaves_tac|].
  apply leaves_bind; [leaves_tac|]. intros l. destruct (decide (l = [])); [leaves_tac|].
  apply leaves_bind; [apply leaves_catch; [done|intros ?; apply leaves_ret]|]. intros _.
  apply leaves_bind; [leaves_tac|]. intros z. apply IH.
Qed.

Lemma fini_leaves others : Forall (leaves (peers_ok (S:=S))) others → leaves peers_ok (fd_peer_fini env others).
Proof.
  intros Ho. unfold fd_peer_fini. do 3 (apply leaves_bind; [leaves_tac|intros ?]).
  apply leaves_bind; [by apply wait_leaves|intros ?]. leaves_tac.
Qed.

(** Nobody is left after [fd_peer_fini_force]. *)
Lemma abord_peers_empty n purge g g' l : abord_peers env n purge g = Ret g' l →
  (length (g_peers g) ≤ n)%nat → g_peers g' = [].
Proof.
  revert g purge. induction n as [|n IH]; intros g purge; cbn [abord_peers].
  { intros [= <- _] Hn. destruct (g_peers g); [done|cbn in Hn; lia]. }
  unfold bind, gets. destruct (g_peers g) as [|p ps] eqn:Eg; [by intros [= <- _]|].
  destruct (on_peer 0 (ignore (fd_psm_abord env)) g) as [g1 []|g1 e|c] eqn:E; [|done..]. cbn. intros H Hn.
  eapply IH; [exact H|]. revert E. unfold on_peer. rewrite Eg. cbn [lookup list_lookup].
  destruct (ignore _ _) as [w []|w e|c]; [|done..]. intros [= <-]. rewrite unfocus_peers, Eg. cbn in *. lia.
Qed.
End adding.

(** ** The list that the daemon can reach *)

Section reachable.
Context {D S : Type} `{!MsgDictionary D} `{!DispDictionary D} `{!CoreDictionary D} `{!MsgSessions S} `{!AddressTypes D}.
Context (d : D) (cfg : fd_config) (bo : base_objs) (pei_message : perr + rules_err → option bytes) (fuel : nat).
Context (idn2_to_ascii_8z : bytes → option bytes).

(** One operation on the list, or one round of the thread of a peer, whatever the
    environment answers and whether the operation succeeds. *)
Inductive list_step : daemon S → daemon S → Prop :=
  | step_add env rnd info cb g g' :
      reaches (fd_peer_add env idn2_to_ascii_8z rnd info cb) g g' → list_step g g'
  | step_newCER env rnd cer cnx g g' :
      reaches (fd_peer_handle_newCER d cfg bo fuel env rnd cer cnx) g g' → list_step g g'
  | step_start env i started g g' : reaches (on_peer i (p_psm_start env started)) g g' → list_step g g'
  | step_round env i g g' :
      reaches (on_peer i (p_psm_turn d cfg bo pei_message fuel env)) g g' → list_step g g'
  | step_fini env g g' : reaches (fd_peer_fini env []) g g' → list_step g g'.

Lemma list_step_ok g g' : list_step g g' → peers_ok g → peers_ok g'.
Proof.
  intros [env rnd info cb t t' H|env rnd cer cnx t t' H|env i b t t' H|env i t t' H|env t t' H] Hok;
    eapply leaves_reaches; try exact H; try exact Hok.
  - apply fd_peer_add_leaves.
  - apply handle_newCER_leaves.
  - apply on_peer_leaves. intros x. leaves_tac.
  - apply on_peer_leaves. intros x. apply p_psm_turn_named.
  - apply fini_leaves. constructor.
Qed.

(** C9: in every state the daemon reaches, from an empty list, by adding peers,
    receiving CERs on new connections, running the state machines and ending, the
    list of peers is strictly ordered by identity and no two peers have the same
    identity up to case. *)
Theorem peers_reachable_ok g0 g : g_peers g0 = [] → rtc list_step g0 g → peers_ok g.
Proof.
  intros H0 Hr. assert (peers_ok g0) as Hok.
  { unfold peers_ok. rewrite H0. split; constructor. }
  clear H0. induction Hr as [|g1 g2 g3 Hs _ IH]; [done|]. by eapply IH, list_step_ok.
Qed.
End reachable.
