(* ===== verification/Routing.v ===== *)
(** * Routing and dispatching of the messages ([libfdcore/routing_dispatch.c])

    The callbacks that extensions register, what the routing-in, dispatch and
    routing-out threads do with one message of their queue, and the control of
    the threads.  A message is an address of the memory of the daemon; extension
    code (the callbacks) is a parameter.  The hooks, the log and the cancellation
    points are left out, [HOOK_MESSAGE_DROPPED] apart; the error information of
    [msg_rt_out] and that of [msg_rt_in] are set by [fd_msg_parse_dict]. *)

From Stdlib Require Import ZArith Lia String.
From stdpp Require Import base sorting sets list gmap.
From S2P Require Import Prelude Time Ostr RtData DictTypes Msg MsgBuf MsgDict MsgTree MsgRules Dispatch Fifo SentReq Apps CoreMsg Effect PeerTypes Peer Daemon PeerList.

Definition AC_USER_NAME := 1.
Definition AC_DESTINATION_REALM := 283.
Definition AC_DESTINATION_HOST := 293.
Definition AI_RELAY := 4294967295.

Definition RT_FWD_REQ := 1.
Definition RT_FWD_ALL := 2.
Definition RT_FWD_ANS := 3.

Definition FD_SCORE_NO_DELIVERY := -70.
Definition FD_SCORE_INI := -2.
Definition FD_SCORE_REALM := 15.
Definition FD_SCORE_FINALDEST := 100.

(** ** The registered callbacks *)

(** [rh_order] is [order], [dir] or [prio]; [rh_id] the address of the handler,
    [rh_cb] its callback (0 and 1 are the built-in ones of the OUT list). *)
Record rt_hdl := RtHdl { rh_id : nat; rh_cbdata : nat; rh_order : Z; rh_cb : nat }.

Record rt_hdls := RtHdls { rt_fwd_list : list rt_hdl; rt_out_list : list rt_hdl; next_hdl : nat }.

Definition no_hdls : rt_hdls := RtHdls [] [] 0.

Fixpoint add_ordered (new : rt_hdl) (l : list rt_hdl) : list rt_hdl :=
  match l with
  | [] => [new]
  | h :: l' => if decide (rh_order new ≤ rh_order h) then new :: l else h :: add_ordered new l'
  end.

(** The callback is not NULL; the second result is [*handler]. *)
Definition fd_rt_fwd_register (cb cbdata : nat) (dir : Z) (hs : rt_hdls) : res (rt_hdls * nat) :=
  check bool_decide (RT_FWD_REQ ≤ dir ∧ dir ≤ RT_FWD_ANS) in
  let new := RtHdl (next_hdl hs) cbdata dir cb in
  Ok (RtHdls (add_ordered new (rt_fwd_list hs)) (rt_out_list hs) (S (next_hdl hs)), rh_id new).

Definition fd_rt_out_register (cb cbdata : nat) (priority : Z) (hs : rt_hdls) : res (rt_hdls * nat) :=
  let new := RtHdl (next_hdl hs) cbdata priority cb in
  Ok (RtHdls (rt_fwd_list hs) (add_ordered new (rt_out_list hs)) (S (next_hdl hs)), rh_id new).

(** The result is [*cbdata]. *)
Definition unregister (handler : nat) (l : list rt_hdl) : res (list rt_hdl * nat) :=
  match list_find (λ h, rh_id h = handler) l with
  | None => Err EINVAL
  | Some (_, del) => Ok (filter (λ h, rh_id h ≠ handler) l, rh_cbdata del)
  end.

Definition fd_rt_fwd_unregister (handler : nat) (hs : rt_hdls) : res (rt_hdls * nat) :=
  let* (l, data) := unregister handler (rt_fwd_list hs) in Ok (RtHdls l (rt_out_list hs) (next_hdl hs), data).

Definition fd_rt_out_unregister (handler : nat) (hs : rt_hdls) : res (rt_hdls * nat) :=
  let* (l, data) := unregister handler (rt_out_list hs) in Ok (RtHdls (rt_fwd_list hs) l (next_hdl hs), data).

(** "Register the built-in callbacks", at the end of [fd_rtdisp_init]. *)
Definition fd_rtdisp_init (hs : rt_hdls) : res rt_hdls :=
  let* (hs, _) := fd_rt_out_register 0 0 10 hs in
  let* (hs, _) := fd_rt_out_register 1 0 10 hs in Ok hs.

(** [while (!FD_IS_LIST_EMPTY(...))]: the first handler goes. *)
Fixpoint unregister_all (n : nat) (l : list rt_hdl) : list rt_hdl :=
  match n, l with
  | S n, h :: l' =>
      unregister_all n (match unregister (rh_id h) l with Ok (l, _) => l | _ => l end)
  | _, _ => l
  end.

Definition fd_rtdisp_cleanup (hs : rt_hdls) : rt_hdls :=
  RtHdls (unregister_all (length (rt_fwd_list hs)) (rt_fwd_list hs))
    (unregister_all (length (rt_out_list hs)) (rt_out_list hs)) (next_hdl hs).

(** ** Decorated names *)

(** [nai_get_indexes] from the index [i] on: [*excl_idx] and [*at_idx]. *)
Fixpoint nai_get_indexes (un : bytes) (i excl : Z) : Z * Z :=
  match un with
  | [] => (excl, 0)
  | c :: un =>
      if decide (c = 33) then nai_get_indexes un (i + 1) (if decide (excl = 0) then i else excl)
      else if decide (c = 64) then (excl, i)
      else if decide (c = 0) then (excl, 0)
      else if decide (c = 92) then
        match un with [] => (excl, 0) | _ :: un => nai_get_indexes un (i + 2) excl end
      else nai_get_indexes un (i + 1) excl
  end.

(** The new values of User-Name and Destination-Realm when [*was_nai] is set. *)
Definition process_decorated_NAI (un : bytes) : res (option (bytes * bytes)) :=
  let '(sep, at_) := nai_get_indexes un 0 0 in
  if decide (sep = 0 ∨ sep > at_) then Ok None else
  let* valid := fd_os_is_valid_DiameterIdentity un sep in
  if valid : bool then
    let home := take (Z.to_nat sep) un in
    Ok (Some (take (Z.to_nat (at_ - sep)) (drop (Z.to_nat (sep + 1)) un) ++ home, home))
  else Ok None.

(** ** The AVPs of a request that the routing looks at *)

Inductive status := UNKNOWN | YES | NO.

#[export] Instance status_eq_dec : EqDecision status.
Proof. solve_decision. Defined.

(** [is_dest_host], [is_dest_realm], and the places of [un] and of the AVP that
    [dr_val] belongs to. *)
Record found := Found { dest_host : status; dest_realm : status; un_at : option nat; dr_at : option nat }.

Definition no_found : found := Found UNKNOWN UNKNOWN None None.

(** Why the loop ends early: the parsing of the [i]-th AVP fails, or the host is in
    the Route-Record. *)
Inductive refusal := BadAvp (i : nat) (e : perr) | LoopDetected.

Definition is_routing_avp (a : avp) : bool :=
  negb (has (avp_flags (avp_public a)) AVP_FLAG_VENDOR) &&
  bool_decide (avp_code (avp_public a) ∈ [AC_DESTINATION_HOST; AC_DESTINATION_REALM; AC_USER_NAME; AC_ROUTE_RECORD]).

(** [!fd_os_almostcasesrch(...)] *)
Definition same_name (x y : bytes) : bool := bool_decide (fst (fd_os_almostcasesrch_int x y) = 0).

Definition yes_no (b : bool) : status := if b then YES else NO.

(** "Stop when we found all 3 AVPs". *)
Definition all_found (f : found) : bool :=
  bool_decide (dest_host f ≠ UNKNOWN) && bool_decide (dest_realm f ≠ UNKNOWN) && bool_decide (is_Some (un_at f)).

(** The value of an AVP of type OctetString, after [ASSERT( ahdr->avp_value )]. *)
Definition os_value (a : avp) : res bytes := match avp_val a with Some (OS v) => Ok v | _ => Crash end.

Section routing.
Context {D S : Type} `{!MsgDictionary D} `{!DispDictionary D} `{!CoreDictionary D} `{!MsgSessions S}.
Context (d : D) (cfg : fd_config) (bo : base_objs) (pei_message : perr + rules_err → option bytes) (fuel : nat) (env : env).
(** The callbacks of the extensions: with their data and the message they may
    replace or take ([None]).  An OUT callback also changes the scores. *)
Context (fwd_cb : nat → nat → nat → daemon S → daemon S * option nat * option errno).
Context (out_cb : nat → nat → nat → list rtd_candidate → daemon S → daemon S * option nat * list rtd_candidate * option errno).
(** The answer callbacks, and the callbacks of the dispatch. *)
Context (answer_cb : nat → option nat → nat → daemon S → daemon S * option nat).
Context (disp_cb : nat → daemon S → nat → option path → option nat → nat → daemon S * cb_result).
(** The low bit of the calls of [rand()] of the ordering of the candidates. *)
Context (rand : nat → bool).
Abbreviation M := (M (daemon S)).

Definition diamid : bytes := cnf_diamid (cnf_id cfg).
Definition realm : bytes := cnf_diamrlm (cnf_id cfg).

(** *** Building blocks *)

Definition msg_at (a : nat) : M msg := the_msg a.
Definition is_request (m : msg) : bool := has (msg_flags (msg_public m)) CMD_FLAG_REQUEST.
Definition is_error (m : msg) : bool := has (msg_flags (msg_public m)) CMD_FLAG_ERROR.

(** [fd_msg_answ_getq], then the query. *)
Definition query_of (m : msg) : M msg := match msg_query m with Some q => msg_at q | None => fail EINVAL end.

(** [fd_msg_new_answer_from_req] and [fd_msg_rescode_set] with the type 1: the
    address of the answer. *)
Definition make_answer (a : nat) (flags : Z) (code : bytes) (em : option bytes) (failedavp : option avp) : M nat :=
  let! m := msg_at a in
  let! g := gets id in
  let! (ans, qry, st, eteid) := lift (fd_msg_new_answer_from_req d fuel flags a m (g_sess g) (g_eteid g)) in
  modify (set_counters st eteid) ;!
  update_msg a qry ;!
  let! ans := lift (fd_msg_rescode_set d (cnf_id cfg) bo ans code em failedavp 1) in
  new_msg ans.

(** The message is in the queue of the peer now, an answer with its query: both
    leave the memory of the threads. *)
Definition forget_msg (a : nat) (g : daemon S) : daemon S :=
  match g_msgs g !! a with
  | None => g
  | Some m => set_memory (delete a (match msg_query m with Some q => delete q (g_msgs g) | None => g_msgs g end)) g
  end.

(** [fd_out_send(&msg, NULL, peer, 1)] *)
Definition send_to_peer (a : nat) (i : nat) : M unit :=
  let! m := msg_at a in
  on_peer i (fd_out_send d env m None true true) ;!
  modify (forget_msg a).

Definition getbyid (id : bytes) : M (option nat) := let! l := gets g_peers in lift (fd_peer_getbyid id false l).

Definition peer_in (i : option nat) (l : list peer_state) : M bool :=
  let! ps := gets g_peers in
  ret (match fd_peer_getstate ps i with Some st => bool_decide (st ∈ l) | None => false end).

(** *** [return_error] *)

Definition return_error (a : nat) (error_code : bytes) (error_message : option bytes) (failedavp : option avp) : M unit :=
  let! m := msg_at a in
  match msg_src_id m with
  | None =>
      let! ans := make_answer a MSGFL_ANSW_ERROR error_code error_message failedavp in
      post Incoming ans
  | Some id =>
      let! peer := getbyid id in
      match peer with
      | None => drop_msg a
      | Some i =>
          let! ans := make_answer a MSGFL_ANSW_ERROR error_code error_message failedavp in
          send_to_peer ans i
      end
  end.

(** *** Routing in *)

(** One AVP of the loop of [msg_rt_in]. *)
Definition routing_avp (i : nat) (a : avp) (f : found) : res (avp * (found + refusal)) :=
  if negb (is_routing_avp a) then Ok (a, inl f) else
  let code := avp_code (avp_public a) in
  let* (a, e) := parsedict_do_avp d fuel false a in
  match e with
  | Some e => Ok (a, inr (BadAvp i e))
  | None =>
      let* v := os_value a in
      if decide (code = AC_DESTINATION_HOST) then
        Ok (a, inl (Found (yes_no (same_name v diamid)) (dest_realm f) (un_at f) (dr_at f)))
      else if decide (code = AC_DESTINATION_REALM) then
        Ok (a, inl (Found (dest_host f) (yes_no (same_name v realm)) (un_at f) (Some i)))
      else if decide (code = AC_USER_NAME) then
        Ok (a, inl (Found (dest_host f) (dest_realm f) (Some i) (dr_at f)))
      else Ok (a, if same_name v diamid then inr LoopDetected else inl f)
  end.

Fixpoint routing_avps (i : nat) (l : list avp) (f : found) : res (list avp * (found + refusal)) :=
  match l with
  | [] => Ok ([], inl f)
  | a :: l =>
      let* (a, r) := routing_avp i a f in
      match r with
      | inr e => Ok (a :: l, inr e)
      | inl f =>
          if all_found f then Ok (a :: l, inl f)
          else let* (l, r) := routing_avps (Datatypes.S i) l f in Ok (a :: l, r)
      end
  end.

(** The value of the AVP at the place. *)
Definition value_at (l : list avp) (i : option nat) : option bytes :=
  i ← i; a ← l !! i; match avp_val a with Some (OS v) => Some v | _ => None end.

Definition set_value_at (i : option nat) (v : bytes) (l : list avp) : list avp :=
  match i with Some i => alter (with_value (Some (OS v))) i l | None => l end.

(** "test for decorated NAI": whether the message is submitted again. *)
Definition decorated (a : nat) (f : found) : M bool :=
  let! m := msg_at a in
  match value_at (msg_children m) (un_at f) with
  | None => ret false
  | Some un =>
      let! r := lift (process_decorated_NAI un) in
      match r with
      | None => ret false
      | Some (un, dr) =>
          update_msg a (set_children (set_value_at (dr_at f) dr (set_value_at (un_at f) un (msg_children m))) m) ;!
          post Incoming a ;! ret true
      end
  end.

(** What the thread does next with the message: it is done with it, or the
    callbacks are called ([true] when it goes to another peer). *)
Inductive rt_next := Done | Callbacks (forward : bool).

Definition refuse (a : nat) (code : string) (em : option string) : M rt_next :=
  return_error a (str code) (str <$> em) None ;! ret Done.

(** "OK, now decide what we do with the request". *)
Definition decide_request (a : nat) (local_app : bool) (f : found) : M rt_next :=
  if decide (dest_realm f = UNKNOWN) then
    refuse a "DIAMETER_COMMAND_UNSUPPORTED"
      (Some "Non-routable message not supported (invalid bit ? missing Destination-Realm ?)"%string)
  else if decide (dest_host f = YES) then
    if local_app then post Local a ;! ret Done
    else refuse a "DIAMETER_APPLICATION_UNSUPPORTED" None
  else if decide (dest_host f = NO ∨ dest_realm f = NO) then
    if cnf_no_fwd cfg then refuse a "DIAMETER_UNABLE_TO_DELIVER" (Some "I am not a Diameter agent"%string)
    else ret (Callbacks true)
  else
    let! nai := decorated a f in
    if nai : bool then ret Done
    else if local_app then post Local a ;! ret Done
    else if cnf_no_fwd cfg then refuse a "DIAMETER_APPLICATION_UNSUPPORTED" None
    else ret (Callbacks true).

Definition refuse_scan (a : nat) (m : msg) (r : refusal) : M rt_next :=
  match r with
  | LoopDetected => refuse a "DIAMETER_LOOP_DETECTED" None
  | BadAvp i e =>
      match pei_of m (inl (at_child i e)) with
      | Some (code, avp, _) => return_error a code (pei_message (inl e)) avp ;! ret Done
      | None => fail (fst e)
      end
  end.

Definition rt_in_request (a : nat) (m : msg) : M rt_next :=
  let appl := msg_appl (msg_public m) in
  if decide (appl = 0 ∨ appl = AI_RELAY) then
    refuse a "DIAMETER_APPLICATION_UNSUPPORTED" (Some "Routable message with application id 0 or relay"%string)
  else
    let local_app := bool_decide (is_Some (fd_app_check (cnf_apps cfg) appl)) in
    let! (l, r) := lift (routing_avps 0 (msg_children m) no_found) in
    let m := set_children l m in
    update_msg a m ;!
    match r with
    | inr e => refuse_scan a m e
    | inl f => decide_request a local_app f
    end.

Definition rt_in_answer (a : nat) (m : msg) : M rt_next :=
  let! qry := query_of m in
  let src := bool_decide (is_Some (msg_src_id qry)) in
  if negb src && negb (is_error m) then post Local a ;! ret Done
  else ret (Callbacks src).

(** "Call all registered callbacks for this message". *)
Fixpoint call_fwd (is_req : bool) (hs : list rt_hdl) (a : nat) : M (option nat) :=
  match hs with
  | [] => ret (Some a)
  | rh :: hs =>
      if (is_req && bool_decide (rh_order rh > RT_FWD_ALL)) || (negb is_req && bool_decide (rh_order rh < RT_FWD_ALL))
      then ret (Some a)
      else
        let! g := gets id in
        let '(g, a, e) := fwd_cb (rh_cb rh) (rh_cbdata rh) a g in
        modify (λ _, g) ;!
        match e, a with
        | Some _, Some a => drop_msg a ;! ret None
        | None, Some a => call_fwd is_req hs a
        | _, None => ret None
        end
  end.

(** [rt_fwd_list] in order, or from its end. *)
Definition fwd_order (is_req : bool) (l : list rt_hdl) : list rt_hdl := if is_req then l else rev l.

Definition msg_rt_in (hs : rt_hdls) (a : nat) : M unit :=
  let! m := msg_at a in
  if is_request m && is_error m then
    return_error a (str "DIAMETER_INVALID_HDR_BITS") (Some (str "R & E bits were set")) None
  else
    let! next := if is_request m then rt_in_request a m else rt_in_answer a m in
    match next with
    | Done => ret tt
    | Callbacks forward =>
        let! r := call_fwd (is_request m) (fwd_order (is_request m) (rt_fwd_list hs)) a in
        match r with
        | None => ret tt
        | Some a => post (if forward then Outgoing else Local) a
        end
    end.

(** *** Routing out *)

(** "Retrieve the corresponding query and its origin", and send. *)
Definition rt_out_answer (a : nat) (m : msg) : M unit :=
  let! qry := query_of m in
  assertM (bool_decide (is_Some (msg_src_id qry))) ;!
  let! peer := getbyid (default [] (msg_src_id qry)) in
  let! ok := peer_in peer [STATE_OPEN; STATE_CLOSING_GRACE] in
  match peer with
  | Some i =>
      if ok : bool then
        update_msg a (set_hbhid (hbhid qry) m) ;!
        send_to_peer a i
      else drop_msg a
  | None => drop_msg a
  end.

(** "Add all peers currently in OPEN state": the active list holds the peers
    themselves, here their identities. *)
Fixpoint add_candidates (ps : list fd_peer) (active : list bytes) (rtd : rt_data) : res rt_data :=
  match active with
  | [] => Ok rtd
  | id :: active =>
      match list_find (λ p, pi_diamid p = id) ps with
      | None => Crash
      | Some (_, p) =>
          let* rtd := fd_rtd_candidate_add rtd (pi_diamid p) (pir_realm (runtime p)) in
          add_candidates ps active rtd
      end
  end.

Definition is_route_record (a : avp) : bool :=
  bool_decide (avp_code (avp_public a) = AC_ROUTE_RECORD) && negb (has (avp_flags (avp_public a)) AVP_FLAG_VENDOR).

(** "Now let's remove all peers from the Route-Records", or the AVP that is not
    parsed. *)
Fixpoint drop_route_records (i : nat) (l : list avp) (rtd : rt_data) : res (list avp * (rt_data + nat * perr)) :=
  match l with
  | [] => Ok ([], inl rtd)
  | a :: l =>
      if is_route_record a then
        let* (a, e) := parsedict_do_avp d fuel false a in
        match e with
        | Some e => Ok (a :: l, inr (i, e))
        | None =>
            let* v := os_value a in
            let* rtd := fd_rtd_candidate_del rtd (v ++ [0]) (zlen v) in
            let* (l, r) := drop_route_records (Datatypes.S i) l rtd in Ok (a :: l, r)
        end
      else let* (l, r) := drop_route_records (Datatypes.S i) l rtd in Ok (a :: l, r)
  end.

(** [fd_msg_rt_associate]: the routing data gets an address. *)
Definition associate_rtd (a : nat) (m : msg) (rtd : rt_data) : M nat :=
  let! g := gets id in
  let r := g_next g in
  modify (λ g, set_next (Datatypes.S r) (set_rtds (<[r := rtd]> (g_rtds g)) g)) ;!
  update_msg a (with_attached (msg_query m) (msg_associated m) (Some r) (msg_sess m) (msg_callbacks m) (msg_src_id m) (msg_routable m) m) ;!
  ret r.

(** The routing data of the request: that of an earlier attempt, or a new one;
    [None] when an error was returned instead. *)
Definition routing_data (a : nat) (m : msg) : M (option nat) :=
  match msg_rtdata m with
  | Some r => ret (Some r)
  | None =>
      let! g := gets id in
      let! rtd := lift (add_candidates (g_peers g) (g_active g) fd_rtd_init) in
      let! (l, r) := lift (drop_route_records 0 (msg_children m) rtd) in
      let m := set_children l m in
      update_msg a m ;!
      match r with
      | inl rtd => let! r := associate_rtd a m rtd in ret (Some r)
      | inr (i, e) =>
          match pei_of m (inl (at_child i e)) with
          | Some (code, avp, _) => return_error a code (pei_message (inl e)) avp ;! ret None
          | None => fail (fst e)
          end
      end
  end.

Definition the_candidates (r : nat) : M (list rtd_candidate) := λ g,
  match g_rtds g !! r with Some rtd => Ret g (candidates rtd) | None => Abort Own end.
Definition set_candidates (r : nat) (l : list rtd_candidate) : M unit :=
  modify (λ g, set_rtds (alter (λ rtd, RtData (extracted rtd) l (errors rtd)) r (g_rtds g)) g).

(** The peer at the identity of a candidate. *)
Definition the_peer (id : bytes) (l : list fd_peer) : option fd_peer :=
  match fd_peer_getbyid id false l with Ok (Some i) => l !! i | _ => None end.

(** [dont_send_if_no_common_app]. *)
Definition dont_send_if_no_common_app (m : msg) (ps : list fd_peer) (l : list rtd_candidate) : list rtd_candidate :=
  if decide (msg_appl (msg_public m) = 0) then l
  else (λ c, match the_peer (c_diamid c) ps with
             | Some p =>
                 if negb (pir_relay (runtime p)) && bool_decide (fd_app_check (pir_apps (runtime p)) (msg_appl (msg_public m)) = None)
                 then set_score (c_score c + FD_SCORE_NO_DELIVERY) c
                 else c
             | None => c
             end) <$> l.

(** The search of [score_destination_avp]: the AVPs as they are left, [dh] and
    [dr], or the error of the parsing. *)
Fixpoint destination_avps (l : list avp) (dh dr : option bytes) : res (list avp * (option bytes * option bytes + errno)) :=
  match l with
  | [] => Ok ([], inl (dh, dr))
  | a :: l' =>
      let code := avp_code (avp_public a) in
      let wanted := negb (has (avp_flags (avp_public a)) AVP_FLAG_VENDOR) &&
                    bool_decide (code ∈ [AC_DESTINATION_HOST; AC_DESTINATION_REALM]) in
      let* (a, e) := if wanted : bool then parsedict_do_avp d fuel false a else Ok (a, None) in
      match e with
      | Some e => Ok (a :: l', inr (fst e))
      | None =>
          let* (dh, dr) :=
            if wanted : bool then
              let* v := os_value a in
              Ok (if decide (code = AC_DESTINATION_HOST) then (Some v, dr) else (dh, Some v))
            else Ok (dh, dr) in
          if bool_decide (is_Some dh) && bool_decide (is_Some dr) then Ok (a :: l', inl (dh, dr))
          else let* (l', r) := destination_avps l' dh dr in Ok (a :: l', r)
      end
  end.

(** The points of a candidate. *)
Definition destination_score (dh dr : option bytes) (c : rtd_candidate) : rtd_candidate :=
  if match dh with Some h => same_name h (c_diamid c) | None => false end then set_score (c_score c + FD_SCORE_FINALDEST) c
  else if match dr with Some r => same_name r (default [] (c_realm c)) | None => false end then
    set_score (c_score c + FD_SCORE_REALM) c
  else c.

Definition score_destination_avp (m : msg) (l : list rtd_candidate) : res (msg * (list rtd_candidate + errno)) :=
  let* (avps, r) := destination_avps (msg_children m) None None in
  Ok (set_children avps m, match r with inl (dh, dr) => inl (destination_score dh dr <$> l) | inr e => inr e end).

(** One OUT callback: [*pmsg], the candidates and the result. *)
Definition call_out_hdl (rh : rt_hdl) (a : nat) (l : list rtd_candidate) : M (option nat * list rtd_candidate * option errno) :=
  match rh_cb rh with
  | 0%nat =>
      let! m := msg_at a in let! ps := gets g_peers in
      ret (Some a, dont_send_if_no_common_app m ps l, None)
  | 1%nat =>
      let! m := msg_at a in
      let! (m, r) := lift (score_destination_avp m l) in
      update_msg a m ;!
      ret match r with inl l => (Some a, l, None) | inr e => (Some a, l, Some e) end
  | cb =>
      let! g := gets id in
      let '(g, a, l, e) := out_cb cb (rh_cbdata rh) a l g in
      modify (λ _, g) ;! ret (a, l, e)
  end.

(** "We call the cb by reverse priority order": [hs] is the reversed list. *)
Fixpoint call_out (hs : list rt_hdl) (r : nat) (a : nat) : M (option nat) :=
  match hs with
  | [] => ret (Some a)
  | rh :: hs =>
      let! l := the_candidates r in
      let! (a, l, e) := call_out_hdl rh a l in
      set_candidates r l ;!
      match e, a with
      | Some _, Some a => drop_msg a ;! ret None
      | None, Some a => call_out hs r a
      | _, None => ret None
      end
  end.

(** "Now try sending the message": [l] is the reversed list of the candidates. *)
Fixpoint try_candidates (l : list rtd_candidate) (a : nat) : M bool :=
  match l with
  | [] => ret false
  | c :: l =>
      if decide (c_score c < 0) then ret false
      else
        let! peer := getbyid (c_diamid c) in
        let! open := peer_in peer [STATE_OPEN] in
        match peer with
        | Some i =>
            if open : bool then catch (send_to_peer a i ;! ret true) (λ _, try_candidates l a) else try_candidates l a
        | None => try_candidates l a
        end
  end.

Definition rt_out_request (hs : rt_hdls) (a : nat) (m : msg) : M unit :=
  let! r := routing_data a m in
  match r with
  | None => ret tt
  | Some r =>
      modify (λ g, set_rtds (alter (λ rtd, fd_rtd_candidate_extract rtd FD_SCORE_INI) r (g_rtds g)) g) ;!
      let! b := call_out (rev (rt_out_list hs)) r a in
      match b with
      | None => ret tt
      | Some a =>
          let! l := the_candidates r in
          let l := fd_rtd_candidate_reorder rand l in
          set_candidates r l ;!
          let! sent := try_candidates (rev l) a in
          if sent : bool then ret tt
          else
            ignore (return_error a (str "DIAMETER_UNABLE_TO_DELIVER")
                      (Some (str "No suitable candidate to route the message to")) None)
      end
  end.

Definition msg_rt_out (hs : rt_hdls) (a : nat) : M unit :=
  let! m := msg_at a in
  if is_request m then rt_out_request hs a m else rt_out_answer a m.

(** *** Dispatching *)

(** What the parsing gives: the message to go on with. *)
Definition parsed_or_error (a : nat) (r : parse_outcome) : M (option nat) :=
  match r with
  | Valid m => update_msg a m ;! ret (Some a)
  | Failed m _ => update_msg a m ;! drop_msg a ;! ret None
  | Reply ans qry => update_msg a qry ;! let! ans := new_msg ans in post Outgoing ans ;! ret None
  | InvalidAnswer m rescued => update_msg a m ;! if rescued then ret (Some a) else drop_msg a ;! ret None
  end.

(** An error that comes from making the answer drops the message, which is taken
    as it was. *)
Definition parse_or_error (a : nat) : M (option nat) :=
  let! m := msg_at a in
  let! g := gets id in
  match fd_msg_parse_or_error d (cnf_id cfg) bo pei_message fuel a m (g_sess g) (g_eteid g) with
  | Ok (r, st, eteid) => modify (set_counters st eteid) ;! parsed_or_error a r
  | Err _ => drop_msg a ;! ret None
  | Crash => lift Crash
  end.

(** "Call it if the original request was registered with a callback": whether
    the query came from a peer, and the message if it is left. *)
Definition call_anscb (a : nat) : M (bool * option nat) :=
  let! m := msg_at a in
  let! qry := query_of m in
  let src := bool_decide (is_Some (msg_src_id qry)) in
  match fd_msg_anscb_get qry with
  | (Some cb, _, data) =>
      let! g := gets id in
      let '(g, a) := answer_cb cb data a g in
      modify (λ _, g) ;! ret (src, a)
  | _ => ret (src, Some a)
  end.

(** [fd_msg_sess_get]; [*new] is not asked for. *)
Definition sess_get (a : nat) : M (option nat) :=
  let! m := msg_at a in
  let! g := gets id in
  let! (m, st, r) := lift (fd_msg_sess_get d fuel m (g_sess g)) in
  modify (set_counters st (g_eteid g)) ;!
  update_msg a m ;!
  match r with inl e => fail e | inr (s, _) => ret s end.

(** "Create an answer with the error code and message", sent to [fd_g_outgoing]. *)
Definition answer_error (a : nat) (ec : bytes) (em : option bytes) : M unit :=
  let! ans := make_answer a 0 ec em None in post Outgoing ans.

(** "Now, act depending on msg and action and ec". *)
Definition dispatched (is_req qry_src : bool) (s : dstate (daemon S)) : M unit :=
  match cur_msg s with
  | None =>
      match dropped s with Some (_, Some e) => drop_msg e | _ => ret tt end
  | Some a =>
      let ec := if app_unsupported s then str "DIAMETER_APPLICATION_UNSUPPORTED" else str "DIAMETER_UNABLE_TO_COMPLY" in
      match action s with
      | DISP_ACT_CONT =>
          if negb (cnf_no_fwd cfg) && (is_req || qry_src) then post Outgoing a
          else if is_req then
            answer_error a (str "DIAMETER_COMMAND_UNSUPPORTED")
              (Some (str "The message was not handled by any extension callback"))
          else drop_msg a
      | DISP_ACT_ERROR => if is_req then answer_error a ec None else drop_msg a
      | DISP_ACT_SEND => post Outgoing a
      end
  end.

Definition msg_dispatch (st : disp) (a : nat) : M unit :=
  let! m := msg_at a in
  let is_req := is_request m in
  let! r := parse_or_error a in
  match r with
  | None => ret tt
  | Some a =>
      let! (src, r) := if is_req then ret (false, Some a) else call_anscb a in
      match r with
      | None => ret tt
      | Some a =>
          let! sess := sess_get a in
          let! g := gets id in
          let! (s, e) := lift (fd_msg_dispatch d disp_cb g_msgs fuel st a sess g) in
          modify (λ _, Dispatch.world s) ;!
          match e with
          | Some e => fail e
          | None => dispatched is_req src s
          end
      end
  end.
End routing.

(** ** The threads *)

Inductive thr_result := Continue | Terminated | FatalError.

(** One round of [process_thr]: the next message of the queue goes to the action;
    without any within a second, the thread looks whether it must stop.  After a
    fatal error the daemon shuts down. *)
Definition process_thr {S} (q : queue) (must_stop : bool) (action : nat → M (daemon S) unit) : M (daemon S) thr_result :=
  let! g := gets id in
  match match q with Incoming => g_incoming g | Local => g_local g | Outgoing => g_outgoing g end with
  | [] => ret (if must_stop then Terminated else Continue)
  | a :: l =>
      modify (λ g, match q with
                   | Incoming => set_queues l (g_local g) (g_outgoing g) g
                   | Local => set_queues (g_incoming g) l (g_outgoing g) g
                   | Outgoing => set_queues (g_incoming g) (g_local g) l g
                   end) ;!
      catch (action a ;! ret Continue) (λ _, ret FatalError)
  end.

(** [fd_disp_app_support]: [app] and [vendor] are the identifiers of the objects,
    whose types are checked. *)
Definition fd_disp_app_support (apps : list fd_app) (app vendor : Z) (auth acct : bool) : res (list fd_app) :=
  check auth || acct in Ok (fd_app_merge apps app vendor auth acct).
