(* ===== verification/RoutingSpec.v ===== *)
(** * Properties of the routing

    The order of the callbacks, the decorated names, the decision of the
    routing-in thread for a request, the errors that it returns, and the choice of
    the next hop by the routing-out thread. *)

From Stdlib Require Import ZArith Lia String.
From stdpp Require Import base sorting sets list gmap.
From S2P Require Import Prelude Time Ostr RtData DictTypes Msg MsgBuf MsgDict MsgTree MsgRules Dispatch Fifo SentReq Apps CoreMsg Effect PeerTypes Peer Daemon PeerList Routing.

(** ** The registered callbacks *)

Definition Ordered : list rt_hdl → Prop := StronglySorted (λ a b, rh_order a ≤ rh_order b).

(** Ordered, with addresses that are given once. *)
Definition list_ok (next : nat) (l : list rt_hdl) : Prop :=
  Ordered l ∧ NoDup (rh_id <$> l) ∧ Forall (λ h, (rh_id h < next)%nat) l.

Definition hdls_ok (hs : rt_hdls) : Prop :=
  list_ok (next_hdl hs) (rt_fwd_list hs) ∧ list_ok (next_hdl hs) (rt_out_list hs) ∧
  Forall (λ h, RT_FWD_REQ ≤ rh_order h ∧ rh_order h ≤ RT_FWD_ANS) (rt_fwd_list hs).

Inductive hdls_step : rt_hdls → rt_hdls → Prop :=
  | step_fwd_register cb data dir hs hs' h : fd_rt_fwd_register cb data dir hs = Ok (hs', h) → hdls_step hs hs'
  | step_out_register cb data prio hs hs' h : fd_rt_out_register cb data prio hs = Ok (hs', h) → hdls_step hs hs'
  | step_fwd_unregister h hs hs' data : fd_rt_fwd_unregister h hs = Ok (hs', data) → hdls_step hs hs'
  | step_out_unregister h hs hs' data : fd_rt_out_unregister h hs = Ok (hs', data) → hdls_step hs hs'
  | step_init hs hs' : fd_rtdisp_init hs = Ok hs' → hdls_step hs hs'
  | step_cleanup hs : hdls_step hs (fd_rtdisp_cleanup hs).

Lemma add_ordered_perm new l : add_ordered new l ≡ₚ new :: l.
Proof.
  induction l as [|h l IH]; [done|]. cbn [add_ordered]. case_decide; [done|]. rewrite IH. apply Permutation_swap.
Qed.

Lemma add_ordered_sorted new l : Ordered l → Ordered (add_ordered new l).
Proof.
  induction 1 as [|h l Hl IH Hh]; cbn [add_ordered]; [repeat constructor|]. case_decide as Ho.
  - constructor; [by constructor|]. constructor; [done|]. eapply Forall_impl; [exact Hh|]. cbn. lia.
  - constructor; [done|]. rewrite add_ordered_perm. constructor; [lia|done].
Qed.

Lemma list_ok_register n new l : rh_id new = n → list_ok n l → list_ok (S n) (add_ordered new l).
Proof.
  intros E (Ho & Hn & Hl). split; [by apply add_ordered_sorted|]. split.
  - rewrite add_ordered_perm, fmap_cons. constructor; [|done].
    intros (h & Eh & Hh)%list_elem_of_fmap. rewrite Forall_forall in Hl. specialize (Hl h Hh). lia.
  - rewrite add_ordered_perm. constructor; [lia|]. eapply Forall_impl; [exact Hl|]. cbn. lia.
Qed.

Lemma Forall_sublist {A} (P : A → Prop) k l : sublist k l → Forall P l → Forall P k.
Proof.
  intros Hs Hl. rewrite Forall_forall in *. intros y Hy. apply Hl. eapply elem_of_submseteq; [exact Hy|by apply sublist_submseteq].
Qed.

Lemma list_ok_sublist n k l : sublist k l → list_ok n l → list_ok n k.
Proof.
  intros Hs (Ho & Hn & Hl). split; [|split].
  - by eapply StronglySorted_sublist.
  - eapply sublist_NoDup; [exact Hn|]. by apply fmap_sublist.
  - by eapply Forall_sublist.
Qed.

Lemma list_ok_mono n n' l : (n ≤ n')%nat → list_ok n l → list_ok n' l.
Proof. intros Hn (Ho & Hd & Hl). split; [done|]. split; [done|]. eapply Forall_impl; [exact Hl|]. cbn. lia. Qed.

Lemma unregister_sublist h l l' data : unregister h l = Ok (l', data) → sublist l' l.
Proof. unfold unregister. destruct (list_find _ l) as [[? ?]|]; [|done]. intros [= <- _]. apply sublist_filter. Qed.

Lemma unregister_all_sublist n l : sublist (unregister_all n l) l.
Proof.
  revert l. induction n as [|n IH]; intros [|h l]; try done. cbn [unregister_all].
  destruct (unregister (rh_id h) (h :: l)) as [[l' data]| |] eqn:E; [|apply IH..].
  etrans; [apply IH|]. by eapply unregister_sublist.
Qed.

Lemma out_register_ok cb data prio hs hs' h : fd_rt_out_register cb data prio hs = Ok (hs', h) → hdls_ok hs → hdls_ok hs'.
Proof.
  intros [= <- _] (Hf & Ho & Hd). split; [|split].
  - by eapply list_ok_mono; [|exact Hf]; cbn; lia.
  - by apply list_ok_register.
  - done.
Qed.

Lemma hdls_step_ok hs hs' : hdls_step hs hs' → hdls_ok hs → hdls_ok hs'.
Proof.
  intros [cb data dir t t' h H|cb data prio t t' h H|h t t' data H|h t t' data H|t t' H|t] Hok.
  - revert H. unfold fd_rt_fwd_register. case_bool_decide as Hdir; [|done]. intros [= <- _].
    destruct Hok as (Hf & Ho & Hd). split; [by apply list_ok_register|]. split.
    + by eapply list_ok_mono; [|exact Ho]; cbn; lia.
    + cbn. rewrite add_ordered_perm. by constructor.
  - by eapply out_register_ok.
  - revert H. unfold fd_rt_fwd_unregister. destruct (unregister h (rt_fwd_list t)) as [[l data']| |] eqn:E; [|done..].
    intros [= <- _]. apply unregister_sublist in E. destruct Hok as (Hf & Ho & Hd).
    split; [by eapply list_ok_sublist|]. split; [done|]. by eapply Forall_sublist.
  - revert H. unfold fd_rt_out_unregister. destruct (unregister h (rt_out_list t)) as [[l data']| |] eqn:E; [|done..].
    intros [= <- _]. apply unregister_sublist in E. destruct Hok as (Hf & Ho & Hd).
    split; [done|]. split; [by eapply list_ok_sublist|done].
  - unfold fd_rtdisp_init in H. apply res_bind_ok in H as ([t1 h1] & H1 & H).
    apply res_bind_ok in H as ([t2 h2] & H2 & H). injection H as <-. by eapply out_register_ok, out_register_ok.
  - destruct Hok as (Hf & Ho & Hd). split; [|split].
    + eapply list_ok_sublist; [apply unregister_all_sublist|done].
    + eapply list_ok_sublist; [apply unregister_all_sublist|done].
    + eapply Forall_sublist; [apply unregister_all_sublist|done].
Qed.

(** *** The order of the calls *)

(** The handlers for a direction. *)
Definition applies (is_req : bool) (h : rt_hdl) : Prop :=
  if is_req then rh_order h = RT_FWD_REQ ∨ rh_order h = RT_FWD_ALL else rh_order h = RT_FWD_ALL ∨ rh_order h = RT_FWD_ANS.

#[export] Instance applies_dec is_req h : Decision (applies is_req h).
Proof. unfold applies. destruct is_req; apply _. Defined.

Lemma StronglySorted_impl {A} (R R' : A → A → Prop) l : (∀ x y, R x y → R' x y) → StronglySorted R l → StronglySorted R' l.
Proof. intros HR. induction 1 as [|x l _ IH Hx]; constructor; [done|]. eapply Forall_impl; [exact Hx|]. apply HR. Qed.

Lemma StronglySorted_rev {A} (R : A → A → Prop) l : StronglySorted R l → StronglySorted (λ x y, R y x) (rev l).
Proof.
  induction 1 as [|x l Hl IH Hx]; [constructor|]. cbn. apply StronglySorted_mid; [by rewrite app_nil_r| |constructor].
  rewrite Forall_forall in *. intros y Hy. apply Hx. by apply list_elem_of_In, in_rev, list_elem_of_In.
Qed.

Lemma filter_ext_in {A} (P Q : A → Prop) `{∀ x, Decision (P x)} `{∀ x, Decision (Q x)} l :
  Forall (λ x, P x ↔ Q x) l → filter P l = filter Q l.
Proof.
  induction 1 as [|x l Hx _ IH]; [done|]. rewrite !filter_cons.
  destruct (decide (P x)), (decide (Q x)); rewrite ?IH; tauto || done.
Qed.

Lemma unregister_all_empty n l : NoDup (rh_id <$> l) → length l = n → unregister_all n l = [].
Proof.
  revert n. induction l as [|h l IH]; intros n Hn <-; [done|]. cbn [length unregister_all].
  rewrite fmap_cons in Hn. apply NoDup_cons in Hn as [Hh Hn].
  unfold unregister. cbn [list_find]. rewrite decide_True by done. rewrite filter_cons, decide_False by (intros H; by apply H).
  rewrite list_filter_all; [by apply IH|]. apply Forall_forall. intros x Hx E. apply Hh. rewrite <- E. by apply list_elem_of_fmap_2.
Qed.

Section fwd.
Context {S : Type} `{!MsgSessions S} (fwd_cb : nat → nat → nat → daemon S → daemon S * option nat * option errno).

(** All the callbacks of a list, one after the other, until the message is taken
    or one of them fails. *)
Fixpoint call_each (hs : list rt_hdl) (a : nat) : M (daemon S) (option nat) :=
  match hs with
  | [] => ret (Some a)
  | rh :: hs =>
      let! g := gets id in
      let '(g, a, e) := fwd_cb (rh_cb rh) (rh_cbdata rh) a g in
      modify (λ _, g) ;!
      match e, a with
      | Some _, Some a => drop_msg a ;! ret None
      | None, Some a => call_each hs a
      | _, None => ret None
      end
  end.

(** The test that ends the loop. *)
Definition beyond (is_req : bool) (h : rt_hdl) : bool :=
  (is_req && bool_decide (rh_order h > RT_FWD_ALL)) || (negb is_req && bool_decide (rh_order h < RT_FWD_ALL)).

Lemma call_fwd_each is_req l a g :
  StronglySorted (λ x y, beyond is_req x = true → beyond is_req y = true) l →
  call_fwd fwd_cb is_req l a g = call_each (filter (λ h, beyond is_req h = false) l) a g.
Proof.
  intros Hs. revert a g. induction Hs as [|h l _ IH Hh]; intros a g; [done|]. cbn [call_fwd].
  fold (beyond is_req h). rewrite filter_cons. destruct (beyond is_req h) eqn:E.
  - rewrite decide_False by done.
    assert (filter (λ h, beyond is_req h = false) l = []) as ->; [|done].
    clear -Hh E. induction Hh as [|y l Hy _ IHl]; [done|]. rewrite filter_cons, decide_False; [done|]. by rewrite (Hy eq_refl).
  - rewrite decide_True by done. cbn [call_each]. unfold bind, gets, modify. cbn [id].
    destruct (fwd_cb (rh_cb h) (rh_cbdata h) a g) as [[g' [a'|]] [e|]]; done.
Qed.

Lemma beyond_applies is_req h : RT_FWD_REQ ≤ rh_order h ∧ rh_order h ≤ RT_FWD_ANS → beyond is_req h = false ↔ applies is_req h.
Proof.
  unfold beyond, applies, RT_FWD_REQ, RT_FWD_ALL, RT_FWD_ANS. destruct is_req; cbn; intros; case_bool_decide; cbn;
    (split; [intros; try done; lia|intros; try done; lia]).
Qed.

Lemma beyond_mono (is_req : bool) x y :
  (if is_req then rh_order x ≤ rh_order y else rh_order y ≤ rh_order x) → beyond is_req x = true → beyond is_req y = true.
Proof. unfold beyond. destruct is_req; cbn; repeat case_bool_decide; cbn; done || lia. Qed.

(** C11: in every state that registrations and removals can reach, the two lists
    of handlers are ordered; the FWD callbacks that run for a request are exactly
    those registered for requests or for all messages, in the order of the list,
    and for an answer those registered for answers or for all messages, in the
    opposite order; [fd_rtdisp_cleanup] leaves no handler. *)
Theorem fwd_callbacks_order hs is_req a g :
  rtc hdls_step no_hdls hs →
  Ordered (rt_fwd_list hs) ∧ Ordered (rt_out_list hs) ∧
  call_fwd fwd_cb is_req (fwd_order is_req (rt_fwd_list hs)) a g
    = call_each (filter (applies is_req) (fwd_order is_req (rt_fwd_list hs))) a g ∧
  rt_fwd_list (fd_rtdisp_cleanup hs) = [] ∧ rt_out_list (fd_rtdisp_cleanup hs) = [].
Proof.
  intros Hr. assert (hdls_ok hs) as (Hf & Ho & Hd).
  { assert (hdls_ok no_hdls) as H0 by (split; [|split]; try constructor; try split; constructor).
    induction Hr as [|h1 h2 h3 Hs _ IH]; [done|]. by eapply IH, hdls_step_ok. }
  split; [apply Hf|]. split; [apply Ho|]. split.
  - rewrite call_fwd_each.
    + f_equal. apply filter_ext_in. assert (Forall (λ h, RT_FWD_REQ ≤ rh_order h ∧ rh_order h ≤ RT_FWD_ANS) (fwd_order is_req (rt_fwd_list hs))) as Hd'.
      { destruct is_req; [done|]. cbn. rewrite Forall_forall in *. intros y Hy. apply Hd. by apply list_elem_of_In, in_rev, list_elem_of_In. }
      eapply Forall_impl; [exact Hd'|]. intros h Hh. apply beyond_applies, Hh.
    + destruct is_req; cbn [fwd_order].
      * eapply StronglySorted_impl; [|apply Hf]. intros x y Hxy. by apply (beyond_mono true).
      * eapply StronglySorted_impl; [|apply StronglySorted_rev, Hf]. intros x y Hxy. by apply (beyond_mono false).
  - split; apply unregister_all_empty; try done; [apply Hf|apply Ho].
Qed.
End fwd.
