(* ===== verification/NaiSpec.v ===== *)
(** * Decorated names ([process_decorated_NAI])

    A User-Name [home!rest@realm] is turned into [rest@home] and sent to the
    realm [home]; what the index scan of the code finds is characterised by
    splitting the string. *)

From Stdlib Require Import ZArith Lia.
From stdpp Require Import base list.
From S2P Require Import Prelude Ostr Routing.

(** The scan passes over the string: no at sign and no zero byte, apart from bytes
    behind a backslash. *)
Fixpoint passes (l : bytes) : bool :=
  match l with
  | [] => true
  | c :: l =>
      if decide (c = 64 ∨ c = 0) then false
      else if decide (c = 92) then match l with [] => false | _ :: l => passes l end
      else passes l
  end.

(** [*excl_idx] behind the string. *)
Fixpoint bang (l : bytes) (i excl : Z) : Z :=
  match l with
  | [] => excl
  | c :: l =>
      if decide (c = 33) then bang l (i + 1) (if decide (excl = 0) then i else excl)
      else if decide (c = 92) then match l with [] => excl | _ :: l => bang l (i + 2) excl end
      else bang l (i + 1) excl
  end.

(** A decorated name and its parts. *)
Definition decorated_as (un home rest tail : bytes) : Prop :=
  un = home ++ 33 :: rest ++ 64 :: tail ∧ home ≠ [] ∧ valid_identity home = true ∧ passes rest = true.

(** Induction along the scan, which takes one byte or two. *)
Lemma scan_ind (P : bytes → Prop) :
  P [] → (∀ c l, P l → (∀ e k, l = e :: k → P k) → P (c :: l)) → ∀ l, P l.
Proof.
  intros H0 Hc l. assert (P l ∧ ∀ e k, l = e :: k → P k) as [? _]; [|done].
  induction l as [|c l [IH1 IH2]]; [done|]. split; [by apply Hc|]. by intros e k [= <- <-].
Qed.

Lemma scan_found pre tail : passes pre = true → ∀ i excl,
  nai_get_indexes (pre ++ 64 :: tail) i excl = (bang pre i excl, i + zlen pre).
Proof.
  induction pre as [|c l IH IH2] using scan_ind; intros Hp i excl.
  { cbn. f_equal. unfold zlen. cbn. lia. }
  cbn [passes] in Hp. destruct (decide (c = 64 ∨ c = 0)) as [|Hn]; [done|].
  cbn [app nai_get_indexes bang]. destruct (decide (c = 33)) as [->|H33].
  { rewrite decide_False in Hp by done. rewrite IH by done. rewrite zlen_cons. f_equal. lia. }
  rewrite !(decide_False (P:=c = 64)), !(decide_False (P:=c = 0)) by tauto. case_decide as H92.
  - destruct l as [|e k]; [done|]. cbn [app]. rewrite (IH2 e k) by done. rewrite !zlen_cons. f_equal. lia.
  - rewrite IH by done. rewrite zlen_cons. f_equal. lia.
Qed.

(** Without an at sign that the scan reaches, [*at_idx] stays 0. *)
Lemma scan_cases l : ∀ i excl,
  snd (nai_get_indexes l i excl) = 0 ∨ ∃ pre tail, l = pre ++ 64 :: tail ∧ passes pre = true.
Proof.
  induction l as [|c l IH IH2] using scan_ind; intros i excl; [by left|]. cbn [nai_get_indexes].
  destruct (decide (c = 64)) as [->|H64].
  { right. by exists [], l. }
  assert (∀ j e, snd (nai_get_indexes l j e) = 0 ∨ ∃ pre tail, c :: l = pre ++ 64 :: tail ∧ passes pre = true ∨ c = 0 ∨ c = 92) as Hrec.
  { intros j e. destruct (IH j e) as [|(pre & tail & -> & Hp)]; [by left|]. right. exists (c :: pre), tail.
    destruct (decide (c = 0)) as [|H0]; [tauto|]. destruct (decide (c = 92)) as [|H92]; [tauto|].
    left. split; [done|]. cbn [passes]. by rewrite !decide_False by tauto. }
  case_decide as H33.
  { destruct (Hrec (i + 1) (if decide (excl = 0) then i else excl)) as [|(pre & tail & [?|[?|?]])]; [by left|right; eauto|lia..]. }
  case_decide as H0; [by left|]. case_decide as H92.
  - destruct l as [|e k]; [by left|]. destruct (IH2 e k eq_refl (i + 2) excl) as [|(pre & tail & -> & Hp)]; [by left|].
    right. exists (c :: e :: pre), tail. split; [done|]. cbn [passes]. by rewrite decide_False, decide_True by tauto.
  - destruct (Hrec (i + 1) excl) as [|(pre & tail & [?|[?|?]])]; [by left|right; eauto|lia..].
Qed.

Lemma bang_kept l : ∀ i excl, excl ≠ 0 → bang l i excl = excl.
Proof.
  induction l as [|c l IH IH2] using scan_ind; intros i excl He; [done|]. cbn [bang].
  rewrite (decide_False (P:=excl = 0)) by done. case_decide; [by apply IH|]. case_decide; [|by apply IH].
  destruct l as [|e k]; [done|]. by apply (IH2 e k).
Qed.

(** The index found is that of an exclamation mark. *)
Lemma bang_at l : ∀ i, 0 ≤ i → bang l i 0 ≠ 0 →
  ∃ j, bang l i 0 = i + Z.of_nat j ∧ l !! j = Some 33.
Proof.
  induction l as [|c l IH IH2] using scan_ind; intros i Hi Hb; [done|]. cbn [bang] in Hb |- *.
  rewrite (decide_True (P:=0 = 0)) in Hb |- * by done. case_decide as H33.
  - subst c. destruct (decide (i = 0)) as [->|Hi0].
    + destruct (IH (0 + 1)) as (j & -> & Hj); [lia|done|]. exists (S j). split; [lia|done].
    + exists 0%nat. rewrite bang_kept by done. split; [lia|done].
  - case_decide as H92.
    + destruct l as [|e k]; [done|]. destruct (IH2 e k eq_refl (i + 2)) as (j & -> & Hj); [lia|done|].
      exists (S (S j)). split; [lia|done].
    + destruct (IH (i + 1)) as (j & -> & Hj); [lia|done|]. exists (S j). split; [lia|done].
Qed.

(** A character of an identity is none of those that the scan looks for. *)
Lemma identity_char_plain c : identity_char c = true → c ≠ 33 ∧ c ≠ 64 ∧ c ≠ 0 ∧ c ≠ 92.
Proof. intros H. split_and!; intros ->; vm_compute in H; done. Qed.

Lemma identity_scanned home l : valid_identity home = true → ∀ i excl,
  passes (home ++ l) = passes l ∧ bang (home ++ l) i excl = bang l (i + zlen home) excl.
Proof.
  induction home as [|c home IH]; intros Hv i excl.
  { cbn [app]. split; [done|]. f_equal. unfold zlen. cbn. lia. }
  cbn in Hv. apply andb_true_iff in Hv as [Hc Hv]. destruct (identity_char_plain c Hc) as (H1 & H2 & H3 & H4).
  cbn [app passes bang]. rewrite (decide_False (P:=c = 64 ∨ c = 0)), (decide_False (P:=c = 33)), !(decide_False (P:=c = 92)) by tauto.
  destruct (IH Hv (i + 1) excl) as [-> ->]. split; [done|]. f_equal. rewrite zlen_cons. lia.
Qed.

Lemma scan_nonneg l : ∀ i excl, 0 ≤ i → 0 ≤ excl → 0 ≤ fst (nai_get_indexes l i excl).
Proof.
  induction l as [|c l IH IH2] using scan_ind; intros i excl Hi He; [done|]. cbn [nai_get_indexes].
  case_decide; [case_decide; apply IH; lia|]. do 2 (case_decide; [done|]). case_decide; [|apply IH; lia].
  destruct l as [|e k]; [done|]. apply (IH2 e k); [done|lia..].
Qed.

Lemma excl_no_continuation : no_continuation 33.
Proof. done. Qed.

Lemma process_decorated_run un home rest tail : decorated_as un home rest tail →
  process_decorated_NAI un = Ok (Some (rest ++ 64 :: home, home)).
Proof.
  intros (-> & Hh & Hv & Hp). unfold process_decorated_NAI.
  assert (0 < zlen home) as Hpos by (destruct home; [done|rewrite zlen_cons; pose proof (zlen_nonneg home); lia]).
  destruct (identity_scanned home (33 :: rest) Hv 0 0) as [Hpas Hbang].
  replace (home ++ 33 :: rest ++ 64 :: tail) with ((home ++ 33 :: rest) ++ 64 :: tail) by (by rewrite <- app_assoc).
  rewrite scan_found by (by rewrite Hpas). rewrite Hbang. cbn [bang]. rewrite !(decide_True (P:=_ = _)) by done.
  rewrite bang_kept by lia. rewrite zlen_app, zlen_cons. pose proof (zlen_nonneg rest).
  rewrite decide_False by lia. rewrite <- app_assoc. cbn [app]. rewrite !Z.add_0_l.
  rewrite (is_valid_stopped 33) by apply excl_no_continuation. rewrite Hv. cbn [res_bind]. unfold zlen in *.
  rewrite Nat2Z.id, take_app_length. do 3 f_equal.
  replace (Z.to_nat (Z.of_nat (length home) + 1)) with (length home + 1)%nat by lia.
  rewrite drop_app_add. cbn [drop]. rewrite drop_0.
  replace (Z.to_nat _) with (length rest + 1)%nat by lia. rewrite take_app_add. cbn [take]. rewrite take_0. by rewrite <- app_assoc.
Qed.

(** The number of exclamation marks. *)
Definition bangs (l : bytes) : nat := length (filter (λ c : Z, c = 33) l).

Lemma bangs_app k l : bangs (k ++ l) = (bangs k + bangs l)%nat.
Proof. unfold bangs. by rewrite filter_app, length_app. Qed.

Lemma process_decorated_cases un :
  process_decorated_NAI un = Ok None ∨ ∃ home rest tail, decorated_as un home rest tail.
Proof.
  unfold process_decorated_NAI. destruct (scan_cases un 0 0) as [H0|(pre & tail & -> & Hp)].
  - pose proof (scan_nonneg un 0 0) as Hn. destruct (nai_get_indexes un 0 0) as [sep at_]. cbn in H0, Hn.
    left. rewrite decide_True by lia. done.
  - rewrite scan_found by done. rewrite Z.add_0_l. destruct (decide (bang pre 0 0 = 0)) as [E|Hb].
    { left. by rewrite decide_True by tauto. }
    destruct (bang_at pre 0) as (j & Ej & Hj); [done|done|]. rewrite Z.add_0_l in Ej.
    pose proof (lookup_lt_Some _ _ _ Hj) as Hlt. rewrite decide_False by (unfold zlen; lia).
    pose proof (take_drop_middle pre j 33 Hj) as Epre. rewrite Ej.
    assert (zlen (take j pre) = Z.of_nat j) as Ez by (unfold zlen; rewrite length_take; lia).
    rewrite <- Epre at 1. rewrite <- app_assoc. cbn [app]. rewrite <- Ez.
    rewrite (is_valid_stopped 33) by apply excl_no_continuation. cbn [res_bind].
    destruct (valid_identity (take j pre)) eqn:Hv; [right|by left].
    exists (take j pre), (drop (S j) pre), tail. split; [rewrite <- Epre at 1; by rewrite <- app_assoc|].
    split; [intros E; rewrite E, zlen_nil in Ez; lia|]. split; [done|].
    destruct (identity_scanned (take j pre) (33 :: drop (S j) pre) Hv 0 0) as [Hpp _]. rewrite Epre, Hp in Hpp.
    cbn [passes] in Hpp. by rewrite !decide_False in Hpp by lia.
Qed.

Lemma process_decorated_ok un : ∃ r, process_decorated_NAI un = Ok r.
Proof.
  destruct (process_decorated_cases un) as [->|(h & r & t & H)]; [by eexists|].
  rewrite (process_decorated_run _ _ _ _ H). by eexists.
Qed.

(** C12: the User-Name is taken for a decorated one exactly when it is
    [home!rest@tail], where [home] is a non-empty identity and [rest] holds no at
    sign and no zero byte that is not behind a backslash; the new User-Name is
    then [rest@home] and the new Destination-Realm [home].  No byte outside of
    the value is read, and the new User-Name holds fewer exclamation marks: a
    request is submitted again at most as often as its User-Name has any. *)
Theorem process_decorated_NAI_spec un :
  (∃ r, process_decorated_NAI un = Ok r) ∧
  (∀ un' dr, process_decorated_NAI un = Ok (Some (un', dr)) ↔
     ∃ home rest tail, decorated_as un home rest tail ∧ un' = rest ++ 64 :: home ∧ dr = home) ∧
  (∀ un' dr, process_decorated_NAI un = Ok (Some (un', dr)) →
     (bangs un' < bangs un)%nat).
Proof.
  pose proof (process_decorated_cases un) as Hcases.
  assert (∀ home rest tail home' rest' tail', decorated_as un home rest tail → decorated_as un home' rest' tail' →
            rest ++ 64 :: home = rest' ++ 64 :: home' ∧ home = home') as Huniq.
  { intros h r t h' r' t' H1%process_decorated_run H2%process_decorated_run. rewrite H1 in H2. by injection H2. }
  split; [|split].
  - apply process_decorated_ok.
  - intros un' dr. split.
    + destruct Hcases as [->|(h & r & t & H)]; [done|]. rewrite (process_decorated_run _ _ _ _ H).
      intros [= <- <-]. by exists h, r, t.
    + intros (h & r & t & H & -> & ->). by apply process_decorated_run in H.
  - intros un' dr. destruct Hcases as [->|(h & r & t & H)]; [done|]. rewrite (process_decorated_run _ _ _ _ H).
    intros [= <- _]. destruct H as (-> & _).
    change (64 :: h) with ([64] ++ h). change (33 :: r ++ 64 :: t) with ([33] ++ r ++ [64] ++ t).
    rewrite !bangs_app. change (bangs [33]) with 1%nat. change (bangs [64]) with 0%nat. lia.
Qed.
