(* ===== verification/RtInSpec.v ===== *)
(** * The decision for an incoming request ([msg_rt_in])

    What the routing-in thread does with a request, as a function of the values of
    its routing AVPs, and what happens to the errors it returns. *)

From Stdlib Require Import ZArith Lia String.
From stdpp Require Import base sorting sets list gmap.
From S2P Require Import Prelude Time Ostr RtData DictTypes Msg MsgBuf MsgDict MsgTree MsgRules Dispatch Fifo SentReq Apps CoreMsg Effect PeerTypes Peer Daemon PeerList Routing NaiSpec.

(** ** The values of the routing AVPs *)

(** The value for a code among pairs of codes and values. *)
Definition value_of (code : Z) (rs : list (Z * bytes)) : option bytes := snd ∘ snd <$> list_find (λ r, fst r = code) rs.

(** The codes that appear once. *)
Definition single_codes : list Z := [AC_DESTINATION_HOST; AC_DESTINATION_REALM; AC_USER_NAME].
Definition unique (rs : list (Z * bytes)) : Prop := NoDup (filter (λ c, c ∈ single_codes) (fst <$> rs)).

(** The pairs that the loop looks at: up to the one with which the three AVPs are
    found, some of which were found before. *)
Fixpoint examined (host realm user : bool) (rs : list (Z * bytes)) : list (Z * bytes) :=
  match rs with
  | [] => []
  | (c, v) :: rs =>
      let host := host || bool_decide (c = AC_DESTINATION_HOST) in
      let realm := realm || bool_decide (c = AC_DESTINATION_REALM) in
      let user := user || bool_decide (c = AC_USER_NAME) in
      (c, v) :: if host && realm && user then [] else examined host realm user rs
  end.

Inductive verdict := VRefuse (code : string) | VLocal | VForward | VAgain (un dr : bytes).

Section decision.
Context {D S : Type} `{!MsgDictionary D} `{!DispDictionary D} `{!CoreDictionary D} `{!MsgSessions S}.
Context (d : D) (cfg : fd_config) (bo : base_objs) (pei_message : perr + rules_err → option bytes) (fuel : nat) (env : env).
Context (fwd_cb : nat → nat → nat → daemon S → daemon S * option nat * option errno).
Implicit Types g : daemon S.

#[local] Notation host_id := (diamid cfg).
#[local] Notation realm_id := (realm cfg).

(** The routing AVPs of a list can be parsed, and have these codes and values. *)
Inductive scanned : list avp → list (Z * bytes) → Prop :=
  | scanned_nil : scanned [] []
  | scanned_other a l rs : is_routing_avp a = false → scanned l rs → scanned (a :: l) rs
  | scanned_avp a a' v l rs :
      is_routing_avp a = true → parsedict_do_avp d fuel false a = Ok (a', None) → os_value a' = Ok v →
      scanned l rs → scanned (a :: l) ((avp_code (avp_public a), v) :: rs).

(** The host is named in a Route-Record that is examined. *)
Definition loops (rs : list (Z * bytes)) : bool :=
  existsb (λ r, bool_decide (fst r = AC_ROUTE_RECORD) && same_name (snd r) host_id) rs.

(** The decision, from the values of Destination-Host, Destination-Realm and
    User-Name; [local]: the application is supported. *)
Definition decision (local : bool) (dh dr un : option bytes) : verdict :=
  match dr, dh with
  | None, _ => VRefuse "DIAMETER_COMMAND_UNSUPPORTED"
  | Some _, Some h =>
      if same_name h host_id then if local then VLocal else VRefuse "DIAMETER_APPLICATION_UNSUPPORTED"
      else if cnf_no_fwd cfg then VRefuse "DIAMETER_UNABLE_TO_DELIVER" else VForward
  | Some r, None =>
      if same_name r realm_id then
        match un ≫= λ u, match process_decorated_NAI u with Ok r => r | _ => None end with
        | Some (u, r) => VAgain u r
        | None => if local then VLocal
                  else if cnf_no_fwd cfg then VRefuse "DIAMETER_APPLICATION_UNSUPPORTED" else VForward
        end
      else if cnf_no_fwd cfg then VRefuse "DIAMETER_UNABLE_TO_DELIVER" else VForward
  end.

Definition request_verdict (appl : Z) (rs : list (Z * bytes)) : verdict :=
  if loops (examined false false false rs) then VRefuse "DIAMETER_LOOP_DETECTED"
  else decision (bool_decide (is_Some (fd_app_check (cnf_apps cfg) appl)))
         (value_of AC_DESTINATION_HOST rs) (value_of AC_DESTINATION_REALM rs) (value_of AC_USER_NAME rs).

(** ** The scan *)

Definition status_of (v : option bytes) (x : bytes) : status :=
  match v with None => UNKNOWN | Some v => yes_no (same_name v x) end.

(** What [found] says of the values seen so far, with the AVPs parsed so far. *)
Record agrees (L : list avp) (f : found) (rs : list (Z * bytes)) : Prop := Agrees {
  ag_host : dest_host f = status_of (value_of AC_DESTINATION_HOST rs) host_id;
  ag_realm : dest_realm f = status_of (value_of AC_DESTINATION_REALM rs) realm_id;
  ag_user : value_at L (un_at f) = value_of AC_USER_NAME rs;
  ag_un : is_Some (un_at f) ↔ is_Some (value_of AC_USER_NAME rs);
  ag_dr : value_at L (dr_at f) = value_of AC_DESTINATION_REALM rs;
  ag_bound : ∀ i, un_at f = Some i ∨ dr_at f = Some i → (i < length L)%nat;
  ag_apart : ∀ i, un_at f = Some i → dr_at f ≠ Some i }.

Lemma value_at_app L L' i : (∀ j, i = Some j → (j < length L)%nat) → value_at (L ++ L') i = value_at L i.
Proof. destruct i as [j|]; [|done]. intros H. cbn. by rewrite lookup_app_l by by apply H. Qed.

Lemma agrees_app L L' f rs : agrees L f rs → agrees (L ++ L') f rs.
Proof.
  intros [H1 H2 H3 H4 H5 H6 H7]. split; try done.
  - rewrite value_at_app; [done|]. intros j Hj. apply H6. by left.
  - rewrite value_at_app; [done|]. intros j Hj. apply H6. by right.
  - intros i Hi. rewrite length_app. specialize (H6 i Hi). lia.
Qed.

Lemma value_of_app code rs rs' :
  value_of code (rs ++ rs') = match value_of code rs with Some x => Some x | None => value_of code rs' end.
Proof.
  unfold value_of. induction rs as [|[c v] rs IH]; [done|].
  cbn [app list_find fst]. destruct (decide (c = code)) as [->|Hne]; [done|].
  destruct (list_find (λ r, fst r = code) (rs ++ rs')) as [[i x]|];
    destruct (list_find (λ r, fst r = code) rs) as [[j y]|]; cbn in *; done.
Qed.

Lemma value_of_one code c v : value_of code [(c, v)] = if decide (c = code) then Some v else None.
Proof. unfold value_of. cbn. by destruct (decide (c = code)). Qed.

Lemma value_of_none code rs : code ∉ fst <$> rs → value_of code rs = None.
Proof.
  intros H. unfold value_of. replace (list_find _ rs) with (@None (nat * (Z * bytes))); [done|]. symmetry.
  apply list_find_None. apply Forall_forall. intros [c v] Hx E. apply H. apply list_elem_of_fmap. by exists (c, v).
Qed.

Lemma unique_fresh rs c v rs' : unique (rs ++ (c, v) :: rs') → c ∈ single_codes → value_of c rs = None.
Proof.
  intros Hu Hc. apply value_of_none. intros Hin. unfold unique in Hu.
  rewrite fmap_app, fmap_cons, filter_app, filter_cons in Hu. cbn [fst] in Hu. rewrite decide_True in Hu by done.
  apply NoDup_app in Hu as (_ & Hd & _). apply (Hd c); [|by left]. apply list_elem_of_filter. done.
Qed.

(** What one AVP adds. *)
Definition note (i : nat) (c : Z) (v : bytes) (f : found) : found :=
  if decide (c = AC_DESTINATION_HOST) then Found (yes_no (same_name v host_id)) (dest_realm f) (un_at f) (dr_at f)
  else if decide (c = AC_DESTINATION_REALM) then Found (dest_host f) (yes_no (same_name v realm_id)) (un_at f) (Some i)
  else if decide (c = AC_USER_NAME) then Found (dest_host f) (dest_realm f) (Some i) (dr_at f)
  else f.

Definition loop_here (c : Z) (v : bytes) : bool := bool_decide (c = AC_ROUTE_RECORD) && same_name v host_id.

Lemma routing_avp_run i a a' v f :
  is_routing_avp a = true → parsedict_do_avp d fuel false a = Ok (a', None) → os_value a' = Ok v →
  routing_avp d cfg fuel i a f
  = Ok (a', if loop_here (avp_code (avp_public a)) v then inr LoopDetected else inl (note i (avp_code (avp_public a)) v f)).
Proof.
  intros Hr Hp Hv. unfold routing_avp, note, loop_here. rewrite Hr, Hp. cbn [negb res_bind]. rewrite Hv. cbn [res_bind].
  assert (avp_code (avp_public a) ∈ [AC_DESTINATION_HOST; AC_DESTINATION_REALM; AC_USER_NAME; AC_ROUTE_RECORD]) as Hin.
  { unfold is_routing_avp in Hr. apply andb_true_iff in Hr as [_ Hr]. by apply bool_decide_eq_true in Hr. }
  set (c := avp_code (avp_public a)) in *. clearbody c.
  repeat (apply elem_of_cons in Hin as [->|Hin]; [done|]). by apply not_elem_of_nil in Hin.
Qed.

Lemma os_value_val a v : os_value a = Ok v → avp_val a = Some (OS v).
Proof. unfold os_value. destruct (avp_val a) as [[|]|]; by intros [= ->]. Qed.

Lemma value_at_last L a v : os_value a = Ok v → value_at (L ++ [a]) (Some (length L)) = Some v.
Proof. intros Hv%os_value_val. cbn. by rewrite lookup_app_r, Nat.sub_diag; cbn; [rewrite Hv|]. Qed.

Lemma agrees_note L a c v f rs : agrees L f rs → os_value a = Ok v →
  (c ∈ single_codes → value_of c rs = None) → agrees (L ++ [a]) (note (length L) c v f) (rs ++ [(c, v)]).
Proof.
  intros Ha Hv Hfresh. pose proof (agrees_app L [a] f rs Ha) as [H1 H2 H3 H4 H5 H6 H7]. unfold note.
  assert (∀ c', c ≠ c' → value_of c' (rs ++ [(c, v)]) = value_of c' rs) as Hother.
  { intros c' Hc. rewrite value_of_app, value_of_one, decide_False by done. by destruct (value_of c' rs). }
  assert (c ∈ single_codes → value_of c (rs ++ [(c, v)]) = Some v) as Hthis.
  { intros Hc. by rewrite value_of_app, Hfresh, value_of_one, decide_True. }
  pose proof (ag_bound _ _ _ Ha) as Hb.
  repeat case_decide; subst; split; cbn [dest_host dest_realm un_at dr_at];
    rewrite ?(Hother AC_DESTINATION_HOST), ?(Hother AC_DESTINATION_REALM), ?(Hother AC_USER_NAME) by done;
    rewrite ?Hthis by (unfold single_codes; set_solver); try done.
  all: try (by apply value_at_last). all: try (by split; eauto).
  all: try (intros i Hi Hi'; first [injection Hi as <-|injection Hi' as <-]; assert (length L < length L)%nat by (apply Hb; tauto); lia).
  all: intros i Hi; rewrite length_app; cbn [length]; try (specialize (Hb i)); destruct Hi as [Hi|Hi]; try (injection Hi as <-; lia);
    try (assert (i < length L)%nat by (apply Hb; tauto); lia).
Qed.

Definition has_host (f : found) : bool := bool_decide (dest_host f ≠ UNKNOWN).
Definition has_realm (f : found) : bool := bool_decide (dest_realm f ≠ UNKNOWN).
Definition has_user (f : found) : bool := bool_decide (is_Some (un_at f)).

Lemma yes_no_known b : yes_no b ≠ UNKNOWN.
Proof. by destruct b. Qed.

Lemma note_flags i c v f :
  has_host (note i c v f) = has_host f || bool_decide (c = AC_DESTINATION_HOST) ∧
  has_realm (note i c v f) = has_realm f || bool_decide (c = AC_DESTINATION_REALM) ∧
  has_user (note i c v f) = has_user f || bool_decide (c = AC_USER_NAME).
Proof.
  unfold note. repeat case_decide; subst; unfold has_host, has_realm, has_user; cbn [dest_host dest_realm un_at];
    rewrite ?(bool_decide_true _ (yes_no_known _)), ?orb_true_r, ?orb_false_r; split_and!; try done.
  all: rewrite ?(bool_decide_false (c = _)) by done; by rewrite ?orb_false_r.
Qed.

Lemma status_unknown o x : status_of o x ≠ UNKNOWN → is_Some o.
Proof. destruct o; [eauto|done]. Qed.

Lemma agrees_more L f rs rs' : all_found f = true → agrees L f rs → agrees L f (rs ++ rs').
Proof.
  intros Hf [H1 H2 H3 H4 H5 H6]. unfold all_found in Hf. rewrite !andb_true_iff, !bool_decide_eq_true in Hf.
  destruct Hf as [[Hh Hr] Hu]. rewrite H1 in Hh. rewrite H2 in Hr. apply status_unknown in Hh as [h Hh], Hr as [r Hr].
  apply H4 in Hu as Hu'. destruct Hu' as [u Hu'].
  assert (∀ c x, value_of c rs = Some x → value_of c (rs ++ rs') = Some x) as Hm by (intros c x E; by rewrite value_of_app, E).
  split; rewrite ?(Hm _ _ Hh), ?(Hm _ _ Hr), ?(Hm _ _ Hu'); try done.
  - by rewrite H1, Hh.
  - by rewrite H2, Hr.
  - by rewrite H3.
  - by rewrite H5.
Qed.

(** The scan of the rest of the message. *)
Lemma routing_scan l rs : scanned l rs → ∀ L rs0 f, all_found f = false → agrees L f rs0 → unique (rs0 ++ rs) →
  if loops (examined (has_host f) (has_realm f) (has_user f) rs)
  then ∃ l1, routing_avps d cfg fuel (length L) l f = Ok (l1, inr LoopDetected)
  else ∃ l1 f', routing_avps d cfg fuel (length L) l f = Ok (l1, inl f') ∧ agrees (L ++ l1) f' (rs0 ++ rs).
Proof.
  induction 1 as [|a l rs Ha _ IH|a a' v l rs Hr Hp Hv _ IH]; intros L rs0 f Hf Hag Hu.
  - exists [], f. by rewrite !app_nil_r.
  - cbn [routing_avps]. unfold routing_avp. rewrite Ha. cbn [negb res_bind]. rewrite Hf.
    specialize (IH (L ++ [a]) rs0 f Hf (agrees_app _ _ _ _ Hag) Hu). rewrite length_app, Nat.add_1_r in IH.
    destruct (loops _).
    + destruct IH as (l1 & ->). by eexists.
    + destruct IH as (l1 & f' & -> & Hf'). cbn [res_bind]. exists (a :: l1), f'. split; [done|].
      by rewrite <- app_assoc in Hf'.
  - cbn [routing_avps]. rewrite (routing_avp_run _ _ _ _ _ Hr Hp Hv). cbn [res_bind].
    set (c := avp_code (avp_public a)) in *. cbn [examined].
    destruct (note_flags (length L) c v f) as (E1 & E2 & E3). rewrite <- E1, <- E2, <- E3.
    cbn [loops existsb fst snd]. fold (loop_here c v). destruct (loop_here c v); cbn [orb]; [by eexists|].
    assert (agrees (L ++ [a']) (note (length L) c v f) (rs0 ++ [(c, v)])) as Hag'.
    { apply agrees_note; [done..|]. intros Hc. by eapply unique_fresh. }
    change (all_found (note (length L) c v f)) with
      (has_host (note (length L) c v f) && has_realm (note (length L) c v f) && has_user (note (length L) c v f)).
    destruct (has_host _ && has_realm _ && has_user _) eqn:Eall; cbn [loops existsb].
    + exists (a' :: l), (note (length L) c v f). split; [done|].
      change (agrees (L ++ [a'] ++ l) (note (length L) c v f) (rs0 ++ [(c, v)] ++ rs)).
      rewrite !app_assoc. apply agrees_more; [exact Eall|]. by apply agrees_app.
    + specialize (IH (L ++ [a']) (rs0 ++ [(c, v)]) (note (length L) c v f) Eall Hag').
      rewrite <- app_assoc in IH. specialize (IH Hu). rewrite length_app, Nat.add_1_r in IH.
      unfold loops in IH |- *. destruct (existsb _ _).
      * destruct IH as (l1 & ->). by eexists.
      * destruct IH as (l1 & f' & -> & Hf'). cbn [res_bind]. exists (a' :: l1), f'. split; [done|].
        by rewrite <- !app_assoc in Hf'.
Qed.

(** ** The thread *)

(** The AVPs of the message are replaced. *)
Definition with_avps (a : nat) (m : msg) (l : list avp) g : daemon S := set_memory (<[a := set_children l m]> (g_msgs g)) g.

(** The values at two places are replaced. *)
Definition renamed (l1 l2 : list avp) (un dr : bytes) : Prop :=
  ∃ i j, i ≠ j ∧ value_at l2 (Some i) = Some un ∧ value_at l2 (Some j) = Some dr ∧
    (∀ k, k ≠ i → k ≠ j → l2 !! k = l1 !! k) ∧ length l2 = length l1.

(** What a verdict means for the message [m] at [a]. *)
Definition enacts (hs : rt_hdls) (a : nat) (m : msg) (l1 : list avp) g (v : verdict) (o : outcome (daemon S) unit) : Prop :=
  let g1 := with_avps a m l1 g in
  match v with
  | VRefuse code => ∃ em, o = return_error d cfg bo fuel env a (str code) em None g1
  | VLocal => o = post Local a g1
  | VForward => o = (let! r := call_fwd fwd_cb true (rt_fwd_list hs) a in
                     match r with None => ret tt | Some a => post Outgoing a end) g1
  | VAgain un dr => ∃ l2, renamed l1 l2 un dr ∧ o = post Incoming a (with_avps a m l2 g)
  end.

Lemma msg_at_run a g m : g_msgs g !! a = Some m → msg_at a g = Ret g m.
Proof. intros H. unfold msg_at, the_msg. by rewrite H. Qed.

(** What follows the decision. *)
Definition rt_in_rest (hs : rt_hdls) (a : nat) (next : rt_next) : M (daemon S) unit :=
  match next with
  | Done => ret tt
  | Callbacks forward =>
      let! r := call_fwd fwd_cb true (rt_fwd_list hs) a in
      match r with None => ret tt | Some a => post (if forward then Outgoing else Local) a end
  end.

Lemma bind_done (m : M (daemon S) unit) hs a g : bind (m ;! ret Done) (rt_in_rest hs a) g = m g.
Proof. unfold bind. destruct (m g) as [t []|t e|w]; done. Qed.

Lemma status_yes o x : status_of o x = YES → ∃ v, o = Some v ∧ same_name v x = true.
Proof. destruct o as [v|]; [|done]. cbn. destruct (same_name v x) eqn:E; [eauto|done]. Qed.
Lemma status_no o x : status_of o x = NO → ∃ v, o = Some v ∧ same_name v x = false.
Proof. destruct o as [v|]; [|done]. cbn. destruct (same_name v x) eqn:E; [done|eauto]. Qed.
Lemma status_none o x : status_of o x = UNKNOWN → o = None.
Proof. destruct o as [v|]; [|done]. cbn. by destruct (same_name v x). Qed.

Lemma with_avps_twice a m l l' g : with_avps a m l' (with_avps a m l g) = with_avps a m l' g.
Proof. unfold with_avps. cbn. unfold set_memory. cbn. by rewrite insert_insert_eq. Qed.

Lemma with_avps_at a m l g : g_msgs (with_avps a m l g) !! a = Some (set_children l m).
Proof. cbn. by rewrite lookup_insert_eq. Qed.

Lemma value_at_set i v l : (∃ x, value_at l (Some i) = Some x) → value_at (set_value_at (Some i) v l) (Some i) = Some v.
Proof.
  intros (x & Hx). cbn in *. rewrite list_lookup_alter. destruct (l !! i) as [b|]; [|done]. rewrite decide_True by done. by destruct b.
Qed.

Lemma value_at_other i j v l : i ≠ j → value_at (set_value_at (Some j) v l) (Some i) = value_at l (Some i).
Proof. intros H. cbn. by rewrite list_lookup_alter_ne. Qed.

Lemma renamed_set l1 f rs un dr x y : agrees l1 f rs →
  value_of AC_USER_NAME rs = Some x → value_of AC_DESTINATION_REALM rs = Some y →
  renamed l1 (set_value_at (dr_at f) dr (set_value_at (un_at f) un l1)) un dr.
Proof.
  intros [H1 H2 H3 H4 H5 H6 H7] Hx Hy. rewrite Hx in H3, H4. rewrite Hy in H5.
  destruct (proj2 H4 ltac:(by eexists)) as [i Ei]. rewrite Ei in *.
  destruct (dr_at f) as [j|] eqn:Ej; [|done]. assert (i ≠ j) as Hne by (intros ->; by eapply H7).
  exists i, j. split; [done|]. split; [rewrite value_at_other by done; by eapply value_at_set; eexists|].
  split; [apply value_at_set; exists y; by rewrite value_at_other by done|]. split.
  - intros k Hki Hkj. cbn. by rewrite !list_lookup_alter_ne by done.
  - cbn. by rewrite !length_alter.
Qed.

(** A decorated name is submitted again. *)
Lemma decorated_run a m f l1 g rs un : agrees l1 f rs → value_of AC_USER_NAME rs = un →
  decorated a f (with_avps a m l1 g) =
  match un ≫= λ u, match process_decorated_NAI u with Ok r => r | _ => None end with
  | Some (u, r) =>
      Ret (let g2 := with_avps a m (set_value_at (dr_at f) r (set_value_at (un_at f) u l1)) g in
           set_queues (g_incoming g2 ++ [a]) (g_local g2) (g_outgoing g2) g2) true
  | None => Ret (with_avps a m l1 g) false
  end.
Proof.
  intros Ha <-. unfold decorated. rewrite (bind_ret _ _ _ _ _ _ (msg_at_run _ _ _ (with_avps_at a m l1 g)) eq_refl).
  change (msg_children (set_children l1 m)) with l1. rewrite (ag_user _ _ _ Ha).
  destruct (value_of AC_USER_NAME rs) as [u|]; [|done]. cbn [mbind option_bind].
  destruct (process_decorated_ok u) as [r E]. rewrite E. cbn [lift_at]. destruct r as [[u' r']|]; [|done].
  set (l2 := set_value_at (dr_at f) r' (set_value_at (un_at f) u' l1)). rewrite <- (with_avps_twice a m l1 l2 g). done.
Qed.

#[local] Notation rt_in := (msg_rt_in d cfg bo pei_message fuel env fwd_cb).

(** The thread, once the scan is done. *)
Lemma rt_in_scanned hs a g m l1 r :
  g_msgs g !! a = Some m → is_request m = true → is_error m = false →
  msg_appl (msg_public m) ≠ 0 → msg_appl (msg_public m) ≠ AI_RELAY →
  routing_avps d cfg fuel 0 (msg_children m) no_found = Ok (l1, r) →
  rt_in hs a g =
  (let! next := match r with
                | inr e => refuse_scan d cfg bo pei_message fuel env a (set_children l1 m) e
                | inl f => decide_request d cfg bo fuel env a
                             (bool_decide (is_Some (fd_app_check (cnf_apps cfg) (msg_appl (msg_public m))))) f
                end in rt_in_rest hs a next) (with_avps a m l1 g).
Proof.
  intros Hm Hreq Herr H0 Hrel Escan. unfold msg_rt_in.
  rewrite (bind_ret _ _ _ _ _ _ (msg_at_run _ _ _ Hm) eq_refl). rewrite Hreq, Herr. cbn [andb].
  unfold rt_in_request. rewrite decide_False by tauto. rewrite Escan. done.
Qed.

Lemma decide_run hs a m l1 g local f rs : agrees l1 f rs →
  enacts hs a m l1 g (decision local (value_of AC_DESTINATION_HOST rs) (value_of AC_DESTINATION_REALM rs) (value_of AC_USER_NAME rs))
    ((let! next := decide_request d cfg bo fuel env a local f in rt_in_rest hs a next) (with_avps a m l1 g)).
Proof.
  intros Ha. unfold decide_request, decision. pose proof (ag_host _ _ _ Ha) as Hh. pose proof (ag_realm _ _ _ Ha) as Hr.
  case_decide as Hr0.
  { rewrite Hr0 in Hr. rewrite (status_none _ _ (eq_sym Hr)). eexists. apply bind_done. }
  destruct (value_of AC_DESTINATION_REALM rs) as [r|] eqn:Er; [|done]. case_decide as Hh1.
  { rewrite Hh1 in Hh. destruct (status_yes _ _ (eq_sym Hh)) as (h & -> & ->). destruct local; [done|].
    eexists. apply bind_done. }
  destruct (value_of AC_DESTINATION_HOST rs) as [h|]; cbn [status_of] in Hh.
  { destruct (same_name h host_id); [by rewrite Hh in Hh1|]. rewrite decide_True by (by left).
    destruct (cnf_no_fwd cfg); [eexists; apply bind_done|done]. }
  cbn [status_of] in Hr. destruct (same_name r realm_id).
  - rewrite decide_False by (rewrite Hh, Hr; by intros [?|?]).
    pose proof (decorated_run a m f l1 g rs _ Ha eq_refl) as Hd.
    destruct (value_of AC_USER_NAME rs ≫= _) as [[u r']|] eqn:Eu.
    + eexists. split.
      * destruct (value_of AC_USER_NAME rs) as [x|] eqn:Ex; [|done]. by eapply renamed_set.
      * unfold bind at 1 2. by rewrite Hd.
    + destruct local; [unfold bind at 1 2; by rewrite Hd|].
      destruct (cnf_no_fwd cfg); [eexists|]; unfold bind at 1 2; rewrite Hd; [apply bind_done|done].
  - rewrite decide_True by (by right). destruct (cnf_no_fwd cfg); [eexists; apply bind_done|done].
Qed.

(** The scan and what follows it. *)
Lemma rt_in_run hs a g m rs :
  g_msgs g !! a = Some m → is_request m = true → is_error m = false →
  msg_appl (msg_public m) ≠ 0 → msg_appl (msg_public m) ≠ AI_RELAY →
  scanned (msg_children m) rs → unique rs →
  ∃ l1 r, routing_avps d cfg fuel 0 (msg_children m) no_found = Ok (l1, r) ∧
    enacts hs a m l1 g (request_verdict (msg_appl (msg_public m)) rs) (rt_in hs a g).
Proof.
  intros Hm Hreq Herr H0 Hrel Hs Hu. unfold request_verdict.
  assert (agrees [] no_found []) as Hno by (split; try done; [split; intros [? ?]; done|intros ? [?|?]; done]).
  pose proof (routing_scan _ _ Hs [] [] no_found eq_refl Hno Hu) as Hscan. cbn [app length] in Hscan.
  set (lp := loops _) in *. change (loops _) with lp in Hscan.
  destruct lp.
  - destruct Hscan as (l1 & Escan). exists l1, (inr LoopDetected). split; [done|]. exists None.
    rewrite (rt_in_scanned hs a g m l1 _ Hm Hreq Herr H0 Hrel Escan). cbn [refuse_scan]. apply bind_done.
  - destruct Hscan as (l1 & f & Escan & Ha). cbn [app] in Ha. exists l1, (inl f). split; [done|].
    rewrite (rt_in_scanned hs a g m l1 _ Hm Hreq Herr H0 Hrel Escan). apply decide_run; done.
Qed.

(** C8: what [msg_rt_in] does with a request that is no error and belongs to an
    application other than the base protocol: it answers LOOP_DETECTED when the
    host is named in a Route-Record that it examines; otherwise the values of
    Destination-Realm, Destination-Host and User-Name alone decide, with the
    applications and the settings of the host, whether the request is refused
    (and with which code), handled locally, submitted again under the names taken
    from a decorated User-Name, or passed to the callbacks and then forwarded. *)
Theorem msg_rt_in_decision hs a g m rs :
  g_msgs g !! a = Some m → is_request m = true → is_error m = false →
  msg_appl (msg_public m) ≠ 0 → msg_appl (msg_public m) ≠ AI_RELAY →
  scanned (msg_children m) rs → unique rs →
  ∃ l1, enacts hs a m l1 g (request_verdict (msg_appl (msg_public m)) rs) (rt_in hs a g).
Proof.
  intros Hm Hreq Herr H0 Hrel Hs Hu. destruct (rt_in_run hs a g m rs) as (l1 & r & _ & H); [done..|]. by exists l1.
Qed.
End decision.
