(* ===== verification/RtOutSpec.v ===== *)
(** * The next hop of a message ([msg_rt_out]) and the returned errors

    How a message is handed over to a peer, where the errors go that the routing
    returns, and which candidate a request is sent to. *)

From Stdlib Require Import ZArith Lia String.
From stdpp Require Import base sorting sets list gmap.
From S2P Require Import Prelude Time Ostr RtData DictTypes Msg MsgBuf MsgDict MsgTree MsgRules Dispatch Fifo SentReq Apps CoreMsg Effect PeerTypes Peer Daemon PeerList Routing RoutingSpec.

Section out.
Context {D S : Type} `{!MsgDictionary D} `{!DispDictionary D} `{!CoreDictionary D} `{!MsgSessions S}.
Context (d : D) (cfg : fd_config) (bo : base_objs) (pei_message : perr + rules_err → option bytes) (fuel : nat) (env : env).
Implicit Types g : daemon S.

(** ** Handing a message over to a peer *)

(** The peer with one more message to send; an answer is one request less to
    answer. *)
Definition queued (m : msg) (p : fd_peer) : fd_peer :=
  let p := if is_request m then p else set_p_reqin_count (p_reqin_count p - 1) p in
  set_p_tosend (p_tosend p ++ [m]) p.

Definition handed_over (a i : nat) (m : msg) (p : fd_peer) g : daemon S :=
  forget_msg a (set_peers (<[i := queued m p]> (g_peers g)) g).

Lemma unfocus_same i p q g : unfocus i (set_peer q (focus p g)) g = set_peers (<[i := q]> (g_peers g)) g.
Proof. by destruct g. Qed.

Lemma set_peer_twice p q (w : world S) : set_peer q (set_peer p w) = set_peer q w.
Proof. done. Qed.

Lemma unfocus_id i p g : g_peers g !! i = Some p → unfocus i (focus p g) g = g.
Proof. intros Hp. unfold unfocus. cbn [focus w_peer]. rewrite list_insert_id by done. by destruct g. Qed.

Lemma send_to_open a i m p g :
  g_msgs g !! a = Some m → g_peers g !! i = Some p → p_state p = STATE_OPEN → is_Some (p_cnxctx p) →
  send_to_peer d env a i g = Ret (handed_over a i m p g) tt.
Proof.
  intros Hm Hp Hst Hc. unfold send_to_peer. eapply bind_ret; [unfold msg_at, the_msg; by rewrite Hm|].
  eapply bind_ret; [|done]. unfold on_peer. rewrite Hp. unfold fd_out_send, bind, get, gets, require. cbn [focus w_peer id].
  rewrite (bool_decide_true (is_Some (p_cnxctx p))) by done. rewrite orb_true_r by done. cbn [andb ret].
  unfold is_request in *. destruct (has (msg_flags (msg_public m)) CMD_FLAG_REQUEST) eqn:Er; cbn [negb when ret].
  - rewrite (bool_decide_true (p_state p = STATE_OPEN)) by done. unfold upd, modify. cbn [focus w_peer]. rewrite unfocus_same.
    unfold queued, is_request. by rewrite Er.
  - rewrite (bool_decide_true (p_state p = STATE_OPEN)) by done. unfold upd, modify. cbn [set_peer focus w_peer].
    rewrite set_peer_twice, unfocus_same.
    unfold queued, is_request. by rewrite Er.
Qed.

(** Without a connection the call is refused, and nothing changes. *)
Lemma send_unconnected a i m p g :
  g_msgs g !! a = Some m → g_peers g !! i = Some p → p_cnxctx p = None → send_to_peer d env a i g = Fail g EINVAL.
Proof.
  intros Hm Hp Hc. unfold send_to_peer, bind, msg_at, the_msg. rewrite Hm. unfold on_peer. rewrite Hp.
  unfold fd_out_send, bind, get, gets, require. cbn [focus w_peer id]. rewrite Hc. cbn. by rewrite unfocus_id.
Qed.

(** ** The returned errors *)

Lemma make_answer_peers a flags code em failed g g' ans :
  make_answer d cfg bo fuel a flags code em failed g = Ret g' ans →
  g_peers g' = g_peers g ∧ g_dropped g' = g_dropped g ∧ is_Some (g_msgs g' !! ans).
Proof.
  unfold make_answer, bind, msg_at, the_msg. destruct (g_msgs g !! a) as [m|]; [|done]. cbn [gets id].
  destruct (fd_msg_new_answer_from_req d fuel flags a m (g_sess g) (g_eteid g)) as [[[[an q] st] et]| |]; [|done..].
  cbn. destruct (fd_msg_rescode_set _ _ _ _ _ _ _ _) as [an'| |]; [|done..]. cbn. intros [= <- <-]. cbn.
  split; [done|]. split; [done|]. rewrite lookup_insert_eq. by eexists.
Qed.

(** C10: where an error goes that the routing returns for a request: to the queue
    of incoming messages when the request was issued locally; nowhere, and the
    request is dropped, when the peer it came from is no longer known; to that
    peer when it is open; and when the peer is known but has no connection, the
    call fails with [EINVAL], which the routing-in thread takes for a fatal
    error. *)
Theorem return_error_spec a code em failed g m :
  g_msgs g !! a = Some m →
  match msg_src_id m with
  | None => ∀ g' ans, make_answer d cfg bo fuel a MSGFL_ANSW_ERROR code em failed g = Ret g' ans →
      return_error d cfg bo fuel env a code em failed g = post Incoming ans g'
  | Some id => ∀ r, fd_peer_getbyid id false (g_peers g) = Ok r →
      match r with
      | None => return_error d cfg bo fuel env a code em failed g
                = Ret (free_msg a (set_dropped (g_dropped g ++ [a]) g)) tt
      | Some i => ∀ p g' ans, g_peers g !! i = Some p →
          make_answer d cfg bo fuel a MSGFL_ANSW_ERROR code em failed g = Ret g' ans →
          (p_state p = STATE_OPEN → is_Some (p_cnxctx p) → ∃ m', g_msgs g' !! ans = Some m' ∧
             return_error d cfg bo fuel env a code em failed g = Ret (handed_over ans i m' p g') tt) ∧
          (p_cnxctx p = None → return_error d cfg bo fuel env a code em failed g = Fail g' EINVAL)
      end
  end.
Proof.
  intros Hm. unfold return_error.
  assert (∀ (f : msg → M (daemon S) unit), bind (msg_at a) f g = f m g) as Hat.
  { intros f. by apply (bind_ret _ _ _ g m); [unfold msg_at, the_msg; rewrite Hm|]. }
  rewrite Hat. destruct (msg_src_id m) as [id|].
  - intros r Hr. assert (∀ (f : option nat → M (daemon S) unit), bind (getbyid id) f g = f r g) as Hget.
    { intros f. apply (bind_ret _ _ _ g r); [|done]. unfold getbyid, bind, gets. by rewrite Hr. }
    rewrite Hget. destruct r as [i|]; [|done]. intros p g' ans Hp Hans.
    pose proof (make_answer_peers _ _ _ _ _ _ _ _ Hans) as (Hps & _ & [m' Hm']).
    rewrite (bind_ret _ _ _ _ _ _ Hans eq_refl). split.
    + intros Hst Hc. exists m'. split; [done|]. apply send_to_open; [done|by rewrite Hps|done..].
    + intros Hc. eapply send_unconnected; [done|by rewrite Hps|done].
  - intros g' ans Hans. by rewrite (bind_ret _ _ _ _ _ _ Hans eq_refl).
Qed.

(** A request with the error bit set, from a peer that has no connection left, ends
    the routing-in thread with a fatal error: the answer is made, it cannot be
    sent, and [process_thr] shuts the daemon down. *)
Theorem closed_source_fatal fwd_cb hs must_stop a l g m src i p g' ans :
  g_incoming g = a :: l → g_msgs g !! a = Some m →
  is_request m = true → is_error m = true →
  msg_src_id m = Some src → fd_peer_getbyid src false (g_peers g) = Ok (Some i) →
  g_peers g !! i = Some p → p_cnxctx p = None →
  make_answer d cfg bo fuel a MSGFL_ANSW_ERROR (str "DIAMETER_INVALID_HDR_BITS") (Some (str "R & E bits were set")) None
    (set_queues l (g_local g) (g_outgoing g) g) = Ret g' ans →
  process_thr Incoming must_stop (msg_rt_in d cfg bo pei_message fuel env fwd_cb hs) g = Ret g' FatalError.
Proof.
  intros Hq Hm Hreq Herr Hsrc Hget Hp Hc Hans. unfold process_thr. unfold bind at 1. cbn [gets id]. rewrite Hq.
  unfold bind at 1, modify. unfold catch, bind at 1, msg_rt_in, bind at 1, msg_at, the_msg.
  change (g_msgs (set_queues _ _ _ g)) with (g_msgs g). rewrite Hm, Hreq, Herr. cbn [andb].
  unfold return_error, bind at 1, msg_at, the_msg. change (g_msgs (set_queues _ _ _ g)) with (g_msgs g). rewrite Hm, Hsrc.
  unfold bind at 1, getbyid, bind at 1. cbn [gets]. change (g_peers (set_queues _ _ _ g)) with (g_peers g). rewrite Hget. cbn [lift_at].
  unfold ret at 1. pose proof (make_answer_peers _ _ _ _ _ _ _ _ Hans) as (Hps & _ & [m' Hm']).
  unfold bind at 1. rewrite Hans. by rewrite (send_unconnected ans i m' p g') by (done || by rewrite Hps).
Qed.

(** ** The choice of the candidate *)

(** The candidate is the [i]-th peer, which is open and connected. *)
Definition usable g (c : rtd_candidate) (i : nat) (p : fd_peer) : Prop :=
  fd_peer_getbyid (c_diamid c) false (g_peers g) = Ok (Some i) ∧ g_peers g !! i = Some p ∧
  p_state p = STATE_OPEN ∧ is_Some (p_cnxctx p).

(** One turn of the loop. *)
Lemma try_step c l a g r : 0 ≤ c_score c → fd_peer_getbyid (c_diamid c) false (g_peers g) = Ok r →
  try_candidates d env (c :: l) a g =
  match r ≫= λ i, p ← g_peers g !! i; if decide (p_state p = STATE_OPEN) then Some i else None with
  | Some i =>
      match send_to_peer d env a i g with
      | Ret s _ => Ret s true
      | Fail s _ => try_candidates d env l a s
      | Abort w => Abort w
      end
  | None => try_candidates d env l a g
  end.
Proof.
  intros Hc Hr. cbn [try_candidates]. rewrite decide_False by lia.
  eapply bind_ret; [unfold getbyid, bind, gets; by rewrite Hr|]. eapply bind_ret; [done|].
  destruct r as [i|]; [|done]. unfold fd_peer_getstate. cbn [mbind option_bind].
  destruct (g_peers g !! i) as [p|]; [|done]. cbn [mbind option_bind].
  destruct (decide (p_state p = STATE_OPEN)) as [->|Hne].
  - rewrite bool_decide_true by (by left). unfold catch, bind. by destruct (send_to_peer d env a i g).
  - rewrite bool_decide_false; [done|]. by intros [?|?%not_elem_of_nil]%elem_of_cons.
Qed.

(** Where the search over a list ends: at its first usable candidate, before any
    negative score. *)
Lemma try_candidates_run l a m g :
  g_msgs g !! a = Some m → Forall (λ c, c_diamid c ≠ []) l → StronglySorted (λ x y, c_score y ≤ c_score x) l →
  (∃ c i p, c ∈ l ∧ 0 ≤ c_score c ∧ usable g c i p ∧
     (∀ c' i' p', c' ∈ l → usable g c' i' p' → c_score c' ≤ c_score c) ∧
     try_candidates d env l a g = Ret (handed_over a i m p g) true) ∨
  ((∀ c i p, c ∈ l → usable g c i p → c_score c < 0) ∧ try_candidates d env l a g = Ret g false).
Proof.
  intros Hm Hne Hs. induction Hs as [|c l Hl IH Hc].
  { right. split; [|done]. intros c i p Hc. by apply not_elem_of_nil in Hc. }
  apply Forall_cons in Hne as [Hid Hne]. specialize (IH Hne). rewrite Forall_forall in Hc.
  destruct (decide (c_score c < 0)) as [Hneg|Hneg].
  { right. split; [|cbn [try_candidates]; by rewrite decide_True]. intros c' i p [->|Hc']%elem_of_cons _; [done|]. specialize (Hc c' Hc'). lia. }
  destruct (fd_peer_getbyid (c_diamid c) false (g_peers g)) as [r|e|] eqn:Hget;
    [|by unfold fd_peer_getbyid in Hget; rewrite bool_decide_true in Hget by done|
      by unfold fd_peer_getbyid in Hget; rewrite bool_decide_true in Hget by done].
  rewrite (try_step c l a g r) by (lia || done).
  assert (∀ o, o = try_candidates d env l a g → (∀ i p, ¬ usable g c i p) →
    (∃ c0 i p, c0 ∈ c :: l ∧ 0 ≤ c_score c0 ∧ usable g c0 i p ∧
       (∀ c' i' p', c' ∈ c :: l → usable g c' i' p' → c_score c' ≤ c_score c0) ∧ o = Ret (handed_over a i m p g) true) ∨
    ((∀ c' i p, c' ∈ c :: l → usable g c' i p → c_score c' < 0) ∧ o = Ret g false)) as Hskip.
  { intros o -> Hun. destruct IH as [(c0 & i & p & H1 & H2 & H3 & H4 & H5)|[H1 H2]].
    - left. exists c0, i, p. split; [by right|]. split; [done|]. split; [done|]. split; [|done].
      intros c' i' p' [->|Hc']%elem_of_cons Hu; [by destruct (Hun i' p')|by eapply H4].
    - right. split; [|done]. intros c' i p [->|Hc']%elem_of_cons Hu; [by destruct (Hun i p)|by eapply H1]. }
  destruct r as [i|]; [|apply Hskip; [done|intros i p (E & _); rewrite Hget in E; done]].
  cbn [mbind option_bind]. destruct (g_peers g !! i) as [p|] eqn:Hp;
    [|apply Hskip; [done|intros j q (E & Hq & _); rewrite Hget in E; injection E as <-; by rewrite Hp in Hq]].
  cbn [mbind option_bind]. destruct (decide (p_state p = STATE_OPEN)) as [Hst|Hst].
  - destruct (p_cnxctx p) as [cx|] eqn:Hcx.
    + left. exists c, i, p. split; [by left|]. split; [lia|].
      split; [split; [done|split; [done|split; [done|rewrite Hcx; by eexists]]]|]. split.
      * intros c' i' p' [->|Hc']%elem_of_cons _; [done|by apply Hc].
      * by rewrite (send_to_open a i m p g) by (done || rewrite Hcx; by eexists).
    + rewrite (send_unconnected a i m p g) by done. apply Hskip; [done|].
      intros j q (E & Hq & _ & Hcq). rewrite Hget in E. injection E as <-. rewrite Hp in Hq. injection Hq as <-.
      rewrite Hcx in Hcq. by destruct Hcq.
  - apply Hskip; [done|].
    intros j q (E & Hq & Hopen & _). rewrite Hget in E. injection E as <-. rewrite Hp in Hq. by injection Hq as <-.
Qed.

(** The whole list, ordered with whatever random numbers. *)
Lemma try_reordered rand l a m g :
  g_msgs g !! a = Some m → Forall (λ c, c_diamid c ≠ []) l →
  let run := try_candidates d env (rev (fd_rtd_candidate_reorder rand l)) a g in
  (∃ c i p, c ∈ l ∧ 0 ≤ c_score c ∧ usable g c i p ∧
     (∀ c' i' p', c' ∈ l → usable g c' i' p' → c_score c' ≤ c_score c) ∧ run = Ret (handed_over a i m p g) true) ∨
  ((∀ c i p, c ∈ l → usable g c i p → c_score c < 0) ∧ run = Ret g false).
Proof.
  intros Hm Hne. cbn zeta. destruct (fd_rtd_candidate_reorder_spec rand l) as [Hs Hp].
  assert (∀ c, c ∈ rev (fd_rtd_candidate_reorder rand l) ↔ c ∈ l) as Hin.
  { intros c. rewrite !list_elem_of_In, <- in_rev, <- !list_elem_of_In. by rewrite Hp. }
  destruct (try_candidates_run (rev (fd_rtd_candidate_reorder rand l)) a m g) as [(c & i & p & H1 & H2 & H3 & H4 & H5)|[H1 H2]].
  - done.
  - apply Forall_forall. intros c Hc. apply Hin in Hc. rewrite Forall_forall in Hne. by apply Hne.
  - by apply StronglySorted_rev in Hs.
  - left. exists c, i, p. split; [by apply Hin|]. split; [done|]. split; [done|]. split; [|done].
    intros c' i' p' Hc'. apply H4. by apply Hin.
  - right. split; [|done]. intros c i p Hc. apply H1. by apply Hin.
Qed.
End out.
