(* ===== verification/RtBuiltin.v ===== *)
(** * The built-in routing

    With the two callbacks that [fd_rtdisp_init] registers and no other, which
    peers a request can be sent to: how the candidates are collected, what the
    Route-Record AVPs take away, the points of the callbacks, and the choice. *)

From Stdlib Require Import ZArith Lia String.
From stdpp Require Import base sorting sets list gmap.
From S2P Require Import Prelude Time Ostr RtData DictTypes Msg MsgBuf MsgDict MsgTree MsgRules Dispatch Fifo SentReq Apps CoreMsg Effect PeerTypes Peer Daemon PeerList PeerListSpec Routing RoutingSpec RtInSpec RtOutSpec.

(** ** The candidates *)

Definition of_peer (ps : list fd_peer) (active : list bytes) (c : rtd_candidate) : Prop :=
  c_diamid c ∈ active ∧ ∃ p, p ∈ ps ∧ pi_diamid p = c_diamid c ∧ c_realm c = pir_realm (runtime p).

(** The identities of the active peers: those of known peers, and valid. *)
Definition active_ok (ps : list fd_peer) (active : list bytes) : Prop :=
  Forall (λ x, x ∈ ids ps ∧ x ≠ [] ∧ valid_identity x = true) active.

(** What the routing data of a new request holds. *)
Record fresh_rtd (P : rtd_candidate → Prop) (rtd : rt_data) : Prop := FreshRtd {
  fr_wf : rtd_wf rtd; fr_ex : extracted rtd = 0; fr_all : Forall P (candidates rtd) }.

Lemma list_find_peer ps x : x ∈ ids ps → ∃ i p, list_find (λ p, pi_diamid p = x) ps = Some (i, p) ∧ p ∈ ps ∧ pi_diamid p = x.
Proof.
  intros (p & -> & Hp)%list_elem_of_fmap. destruct (list_find_elem_of (λ q, pi_diamid q = pi_diamid p) ps p Hp eq_refl) as [[i q] E].
  exists i, q. split; [done|]. apply list_find_Some in E as (Hq & Hid & _). split; [by eapply list_elem_of_lookup_2|done].
Qed.

Lemma add_candidates_fresh ps active done_ rtd :
  active_ok ps active → fresh_rtd (of_peer ps (done_ ++ active)) rtd →
  ∃ rtd', add_candidates ps active rtd = Ok rtd' ∧ fresh_rtd (of_peer ps (done_ ++ active)) rtd' ∧
    (∀ x, x ∈ active ∨ x ∈ c_diamid <$> candidates rtd → x ∈ c_diamid <$> candidates rtd').
Proof.
  intros Ha. revert done_ rtd. induction Ha as [|x active (Hx & Hne & Hv) _ IH]; intros done_ rtd Hf; cbn [add_candidates].
  { exists rtd. split; [done|]. split; [done|]. intros y [Hy|Hy]; [by apply not_elem_of_nil in Hy|done]. }
  destruct (list_find_peer ps x Hx) as (i & p & -> & Hp & Hid). pose proof Hf as [Hwf Hex Hall].
  assert (∃ rtd1, fd_rtd_candidate_add rtd (pi_diamid p) (pir_realm (runtime p)) = Ok rtd1 ∧
            fresh_rtd (of_peer ps ((done_ ++ [x]) ++ active)) rtd1 ∧
            (∀ y, y = x ∨ y ∈ c_diamid <$> candidates rtd → y ∈ c_diamid <$> candidates rtd1)) as (rtd1 & -> & Hf1 & Hin1).
  { rewrite Hid. rewrite <- app_assoc. cbn [app].
    destruct (fd_rtd_candidate_add_ok rtd x (pir_realm (runtime p)) Hwf Hex Hne) as [(a & b & Hab & Hn & E & Hi)|[Hin E]];
      rewrite E; eexists; (split; [done|]); split.
    - split; [by eapply candidate_add_wf|done|]. cbn [candidates]. rewrite Hab in Hall.
      apply Forall_app in Hall as [H1 H2]. apply Forall_app. split; [done|]. constructor; [|done].
      split; [cbn; set_solver|]. by exists p.
    - intros y Hy. cbn [candidates]. rewrite Hab in Hy. rewrite fmap_app, fmap_cons. cbn [c_diamid]. rewrite fmap_app in Hy. set_solver.
    - done.
    - intros y [->|Hy]; done. }
  cbn [res_bind]. destruct (IH (done_ ++ [x]) rtd1 Hf1) as (rtd' & E & Hf' & Hin'). exists rtd'. rewrite <- app_assoc in Hf'.
  split; [done|]. split; [done|]. intros y Hy. apply Hin'.
  destruct Hy as [[->|Hy]%elem_of_cons|Hy]; [right; apply Hin1; by left|by left|right; apply Hin1; by right].
Qed.

(** ** The Route-Record AVPs *)

(** The candidates without those named. *)
Definition drop_all (vs : list bytes) (rtd : rt_data) : rt_data := foldl (λ r v, drop_candidate v r) rtd vs.

Lemma drop_all_fresh P vs rtd : fresh_rtd P rtd → fresh_rtd P (drop_all vs rtd).
Proof.
  revert rtd. induction vs as [|v vs IH]; intros rtd Hf; [done|]. apply IH. destruct Hf as [Hwf Hex Hall].
  split; [by apply drop_candidate_wf|done|]. cbn. eapply Forall_sublist; [apply remove_first_sub|done].
Qed.

(** No two candidates have the same identity up to case. *)
Definition folded (rtd : rt_data) : list bytes := fmap asciitolower <$> (c_diamid <$> candidates rtd).

Lemma drop_candidate_gone v rtd : NoDup (folded rtd) → Forall (λ c, ¬ case_equal v (c_diamid c)) (candidates (drop_candidate v rtd)).
Proof. apply remove_first_gone. Qed.

Lemma drop_candidate_kept v c rtd : c ∈ candidates rtd → ¬ case_equal v (c_diamid c) → c ∈ candidates (drop_candidate v rtd).
Proof.
  cbn. intros Hc Hn. induction (candidates rtd) as [|x l IH]; [by apply not_elem_of_nil in Hc|]. cbn [remove_first].
  apply elem_of_cons in Hc as [->|Hc]; case_decide as Hx; [done|by left|done|right; by apply IH].
Qed.

Lemma drop_candidate_folded v rtd : NoDup (folded rtd) → NoDup (folded (drop_candidate v rtd)).
Proof. intros H. eapply sublist_NoDup; [exact H|]. do 2 apply fmap_sublist. apply remove_first_sub. Qed.

Lemma drop_all_spec vs rtd c : NoDup (folded rtd) →
  c ∈ candidates (drop_all vs rtd) ↔ c ∈ candidates rtd ∧ Forall (λ v, ¬ case_equal v (c_diamid c)) vs.
Proof.
  revert rtd. induction vs as [|v vs IH]; intros rtd Hn; [by split; [|intros [? _]]|].
  cbn [drop_all foldl]. rewrite (IH (drop_candidate v rtd)) by by apply drop_candidate_folded.
  rewrite Forall_cons. split.
  - intros [Hc Hvs]. split; [eapply sublist_subseteq; [apply (remove_first_sub (is_candidate v))|exact Hc]|]. split; [|done].
    pose proof (drop_candidate_gone v rtd Hn) as Hg. rewrite Forall_forall in Hg. by apply Hg.
  - intros (Hc & Hv & Hvs). split; [by apply drop_candidate_kept|done].
Qed.

(** Two names that are the same up to case. *)
Lemma same_name_case x y : same_name x y = true ↔ case_equal x y.
Proof. unfold same_name. rewrite bool_decide_eq_true. apply almost_spec. Qed.

Lemma value_of_cons code c v rs : value_of code ((c, v) :: rs) = if decide (c = code) then Some v else value_of code rs.
Proof. change ((c, v) :: rs) with ([(c, v)] ++ rs). rewrite value_of_app, value_of_one. by case_decide. Qed.

Lemma unique_cons c v rs : unique ((c, v) :: rs) → unique rs ∧ (c ∈ single_codes → value_of c rs = None).
Proof.
  unfold unique. rewrite fmap_cons, filter_cons. cbn [fst]. case_decide as Hc; [|done].
  intros [Hn Hu]%NoDup_cons. split; [done|]. intros _. apply value_of_none. intros Hin. apply Hn. by apply list_elem_of_filter.
Qed.

(** The values of the Route-Record AVPs. *)
Definition records (rs : list (Z * bytes)) : list bytes := snd <$> filter (λ r, fst r = AC_ROUTE_RECORD) rs.

(** The identities of the candidates are names of peers. *)
Definition cands_valid (rtd : rt_data) : Prop :=
  Forall (λ c, c_diamid c ≠ [] ∧ valid_identity (c_diamid c) = true) (candidates rtd).

Lemma candidate_del_value P v rtd : fresh_rtd P rtd → cands_valid rtd →
  fd_rtd_candidate_del rtd (v ++ [0]) (zlen v) = Ok (drop_candidate v rtd).
Proof.
  intros Hf Hid. destruct v as [|b v].
  - unfold fd_rtd_candidate_del. rewrite decide_True by done. f_equal. unfold drop_candidate.
    rewrite remove_first_none; [by destruct rtd|]. eapply Forall_impl; [exact Hid|].
    intros c [Hne _] Hce%case_equal_length. by destruct (c_diamid c).
  - apply candidate_del_run; [apply Hf| |done]. eapply Forall_impl; [exact Hid|]. by intros c [].
Qed.

Lemma drop_candidate_cands v rtd : cands_valid rtd → cands_valid (drop_candidate v rtd).
Proof. intros H. eapply Forall_sublist; [apply remove_first_sub|exact H]. Qed.

Section builtin.
Context {D S : Type} `{!MsgDictionary D} `{!DispDictionary D} `{!CoreDictionary D} `{!MsgSessions S}.
Context (d : D) (cfg : fd_config) (bo : base_objs) (pei_message : perr + rules_err → option bytes) (fuel : nat) (env : env).
Context (out_cb : nat → nat → nat → list rtd_candidate → daemon S → daemon S * option nat * list rtd_candidate * option errno).
Context (rand : nat → bool).
Implicit Types g : daemon S.

(** The AVPs that the routing looks at can be read, and read again once they have
    been parsed. *)
Inductive readable : list avp → list (Z * bytes) → Prop :=
  | readable_nil : readable [] []
  | readable_other a l rs : is_routing_avp a = false → readable l rs → readable (a :: l) rs
  | readable_avp a a' v l rs :
      is_routing_avp a = true → avp_public a' = avp_public a → os_value a' = Ok v →
      parsedict_do_avp d fuel false a = Ok (a', None) → parsedict_do_avp d fuel false a' = Ok (a', None) →
      readable l rs → readable (a :: l) ((avp_code (avp_public a), v) :: rs).

Lemma routing_avp_public a a' : avp_public a' = avp_public a → is_routing_avp a' = is_routing_avp a.
Proof. unfold is_routing_avp. by intros ->. Qed.

Lemma route_record_routing a : is_route_record a = true → is_routing_avp a = true.
Proof.
  unfold is_route_record, is_routing_avp. rewrite !andb_true_iff, !bool_decide_eq_true. intros [-> ->]. split; [done|set_solver].
Qed.

Lemma routing_not_vendor a : is_routing_avp a = true → has (avp_flags (avp_public a)) AVP_FLAG_VENDOR = false.
Proof. unfold is_routing_avp. rewrite andb_true_iff, negb_true_iff. by intros [? _]. Qed.

Lemma drop_route_records_run P l rs : readable l rs → ∀ i rtd, fresh_rtd P rtd → cands_valid rtd →
  ∃ l', drop_route_records d fuel i l rtd = Ok (l', inl (drop_all (records rs) rtd)) ∧ readable l' rs.
Proof.
  induction 1 as [|a l rs Ha Hl IH|a a' v l rs Ha Hp Hv Ep Ep' Hl IH]; intros i rtd Hf Hid; cbn [drop_route_records].
  - exists []. by split; [|constructor].
  - destruct (is_route_record a) eqn:Er; [apply route_record_routing in Er; congruence|].
    destruct (IH (Datatypes.S i) rtd Hf Hid) as (l' & -> & Hl'). exists (a :: l'). by split; [|constructor].
  - unfold is_route_record. rewrite (routing_not_vendor a Ha), andb_true_r. unfold records. rewrite filter_cons. cbn [fst].
    case_bool_decide as Hc.
    + rewrite decide_True by done. rewrite Ep. cbn [res_bind]. rewrite Hv. cbn [res_bind].
      rewrite (candidate_del_value P v rtd Hf Hid).
      cbn [res_bind].
      destruct (IH (Datatypes.S i) (drop_candidate v rtd)) as (l' & -> & Hl').
      { by apply (drop_all_fresh P [v]). } { by apply drop_candidate_cands. }
      exists (a' :: l'). split; [done|]. rewrite <- Hp. by apply (readable_avp a' a'); [rewrite (routing_avp_public a a' Hp)|..].
    + rewrite decide_False by done. destruct (IH (Datatypes.S i) rtd Hf Hid) as (l' & -> & Hl').
      exists (a :: l'). split; [done|]. by eapply readable_avp.
Qed.

Definition or_else (x y : option bytes) : option bytes := match x with Some _ => x | None => y end.

(** What the search of [score_destination_avp] finds. *)
Lemma destination_avps_run l rs : readable l rs → unique rs → ∀ dh dr,
  (is_Some dh → value_of AC_DESTINATION_HOST rs = None) → (is_Some dr → value_of AC_DESTINATION_REALM rs = None) →
  ∃ l', destination_avps d fuel l dh dr
        = Ok (l', inl (or_else dh (value_of AC_DESTINATION_HOST rs), or_else dr (value_of AC_DESTINATION_REALM rs))).
Proof.
  induction 1 as [|a l rs Ha Hl IH|a a' v l rs Ha Hp Hv Ep Ep' Hl IH]; intros Hu dh dr Hdh Hdr; cbn [destination_avps].
  - exists []. by destruct dh, dr.
  - assert (negb (has (avp_flags (avp_public a)) AVP_FLAG_VENDOR) &&
            bool_decide (avp_code (avp_public a) ∈ [AC_DESTINATION_HOST; AC_DESTINATION_REALM]) = false) as ->.
    { unfold is_routing_avp in Ha. destruct (negb _); [|done]. cbn [andb] in *. apply bool_decide_eq_false in Ha.
      apply bool_decide_eq_false. set_solver. }
    cbn [res_bind]. case_bool_decide as Bh; [case_bool_decide as Br|]; cbn [andb].
    + exists (a :: l). by destruct Bh as [? ->], Br as [? ->].
    + destruct (IH Hu dh dr Hdh Hdr) as (l' & ->). by eexists.
    + destruct (IH Hu dh dr Hdh Hdr) as (l' & ->). by eexists.
  - destruct (unique_cons _ _ _ Hu) as [Hu' Hone]. rewrite (routing_not_vendor a Ha). cbn [negb andb].
    rewrite !value_of_cons in *. set (c := avp_code (avp_public a)) in *.
    destruct (decide (c = AC_DESTINATION_HOST)) as [Hh|Hh]; [|destruct (decide (c = AC_DESTINATION_REALM)) as [Hr|Hr]].
    + rewrite bool_decide_true by (rewrite Hh; by left). rewrite Ep. cbn [res_bind]. rewrite Hv. cbn [res_bind].
      rewrite (decide_False (P:=c = AC_DESTINATION_REALM)) in * by (rewrite Hh; done).
      destruct dh; [by discriminate Hdh|]. rewrite bool_decide_true by by eexists. rewrite Hh in Hone.
      case_bool_decide as Br; cbn [andb].
      * exists (a' :: l). by destruct Br as [? ->].
      * destruct (IH Hu' (Some v) dr) as (l' & ->); [intros _; apply Hone; by left|done|]. by eexists.
    + rewrite bool_decide_true by (rewrite Hr; right; by left). rewrite Ep. cbn [res_bind]. rewrite Hv. cbn [res_bind].
      destruct dr; [by discriminate Hdr|]. rewrite (bool_decide_true (is_Some (Some v))) by by eexists.
      rewrite Hr in Hone. case_bool_decide as Bh; cbn [andb].
      * exists (a' :: l). by destruct Bh as [? ->].
      * destruct (IH Hu' dh (Some v)) as (l' & ->); [done|intros _; apply Hone; right; by left|]. by eexists.
    + rewrite bool_decide_false by (intros [?|[?|?%not_elem_of_nil]%elem_of_cons]%elem_of_cons; done). cbn [res_bind].
      case_bool_decide as Bh; [case_bool_decide as Br|]; cbn [andb].
      * exists (a :: l). by destruct Bh as [? ->], Br as [? ->].
      * destruct (IH Hu' dh dr Hdh Hdr) as (l' & ->). by eexists.
      * destruct (IH Hu' dh dr Hdh Hdr) as (l' & ->). by eexists.
Qed.

(** ** The scores *)

(** The peer is not expected to refuse the application of the message. *)
Definition supports (appl : Z) (p : fd_peer) : bool :=
  bool_decide (appl = 0) || pir_relay (runtime p) || bool_decide (is_Some (fd_app_check (pir_apps (runtime p)) appl)).

Definition named (v : option bytes) (x : bytes) : bool := match v with Some v => same_name v x | None => false end.

(** The score that the built-in callbacks give. *)
Definition points (appl : Z) (rs : list (Z * bytes)) (p : fd_peer) : Z :=
  FD_SCORE_INI + (if supports appl p then 0 else FD_SCORE_NO_DELIVERY) +
  (if named (value_of AC_DESTINATION_HOST rs) (pi_diamid p) then FD_SCORE_FINALDEST
   else if named (value_of AC_DESTINATION_REALM rs) (default [] (pir_realm (runtime p))) then FD_SCORE_REALM else 0).

(** The three steps for one candidate. *)
Definition scored (m : msg) (ps : list fd_peer) (rs : list (Z * bytes)) (l : list rtd_candidate) : list rtd_candidate :=
  destination_score (value_of AC_DESTINATION_HOST rs) (value_of AC_DESTINATION_REALM rs) <$>
    dont_send_if_no_common_app m ps (set_score FD_SCORE_INI <$> l).

Lemma the_peer_of ps active c p : ids_ok (ids ps) → c_diamid c ≠ [] → of_peer ps active c → p ∈ ps → pi_diamid p = c_diamid c →
  the_peer (c_diamid c) ps = Some p ∧ c_realm c = pir_realm (runtime p).
Proof.
  intros Hok Hne (_ & q & Hq & Eq & Er) Hp Ep.
  destruct (getbyid_found (c_diamid c) ps Hok Hne) as (r & Hr & Hspec). unfold the_peer. rewrite Hr.
  apply list_elem_of_lookup in Hp as [i Hi], Hq as [j Hj].
  assert (r = Some i) as -> by (apply Hspec; by exists p).
  assert (Some i = Some j) as [= <-] by (apply Hspec; by exists q).
  rewrite Hi in Hj |- *. by injection Hj as ->.
Qed.

Lemma scored_points m ps active rs l : ids_ok (ids ps) → Forall (λ c, c_diamid c ≠ []) l → Forall (of_peer ps active) l →
  Forall2 (λ c c', c_diamid c' = c_diamid c ∧
             ∀ p, p ∈ ps → pi_diamid p = c_diamid c → c_score c' = points (msg_appl (msg_public m)) rs p) l (scored m ps rs l).
Proof.
  intros Hok Hne Hl. unfold scored, dont_send_if_no_common_app. set (appl := msg_appl (msg_public m)).
  assert (∀ c c1 p, the_peer (c_diamid c) ps = Some p → c_realm c = pir_realm (runtime p) → pi_diamid p = c_diamid c →
    c_diamid c1 = c_diamid c → c_realm c1 = c_realm c → c_score c1 = FD_SCORE_INI + (if supports appl p then 0 else FD_SCORE_NO_DELIVERY) →
    c_score (destination_score (value_of AC_DESTINATION_HOST rs) (value_of AC_DESTINATION_REALM rs) c1) = points appl rs p) as Hdest.
  { intros c c1 p Ht Hr Hp E1 E2 E3. unfold destination_score, points, named. rewrite E1, E2, Hr, <- Hp.
    destruct (value_of AC_DESTINATION_HOST rs) as [h|]; [destruct (same_name h _); [cbn; rewrite E3; lia|]|];
      (destruct (value_of AC_DESTINATION_REALM rs) as [r|]; [destruct (same_name r _)|]; cbn; rewrite E3; lia). }
  destruct (decide (appl = 0)) as [E0|E0]; induction Hl as [|c l Hc Hl IH]; try constructor;
    apply Forall_cons in Hne as [Hcne Hne]; try (by apply IH).
  - split; [unfold destination_score; repeat case_match; done|]. intros p Hp Hid. destruct (the_peer_of ps active c p) as [Ht Hr]; [done..|].
    apply (Hdest c); try done. unfold supports. rewrite (bool_decide_true _ E0). cbn. lia.
  - split; [unfold destination_score; cbn; repeat case_match; done|]. intros p Hp Hid.
    destruct (the_peer_of ps active c p) as [Ht Hr]; [done..|].
    apply (Hdest c); try done; cbn [c_diamid set_score]; rewrite Ht; try by case_match.
    unfold supports. rewrite (bool_decide_false _ E0). cbn [orb].
    destruct (pir_relay (runtime p)); cbn [negb andb orb]; [cbn; lia|].
    destruct (fd_app_check _ _); [rewrite bool_decide_false, bool_decide_true by (done || by eexists); cbn; lia|].
    rewrite bool_decide_true, bool_decide_false by (done || by intros []). cbn. lia.
Qed.

(** Who can get the message: a not negative score is that of the final
    destination, or of a peer of the destination realm that supports the
    application. *)
Lemma points_sign appl rs p : 0 ≤ points appl rs p ↔
  named (value_of AC_DESTINATION_HOST rs) (pi_diamid p) = true ∨
  (named (value_of AC_DESTINATION_REALM rs) (default [] (pir_realm (runtime p))) = true ∧ supports appl p = true).
Proof.
  unfold points, FD_SCORE_INI, FD_SCORE_NO_DELIVERY, FD_SCORE_FINALDEST, FD_SCORE_REALM.
  destruct (named _ (pi_diamid p)), (named _ (default _ _)), (supports appl p); cbn;
    (split; [intros; try lia; tauto|intros [?|[? ?]]; done || lia]).
Qed.

(** The final destination has more than any other. *)
Lemma points_final appl rs p q :
  named (value_of AC_DESTINATION_HOST rs) (pi_diamid p) = true → points appl rs p ≤ points appl rs q →
  named (value_of AC_DESTINATION_HOST rs) (pi_diamid q) = true.
Proof.
  unfold points, FD_SCORE_INI, FD_SCORE_NO_DELIVERY, FD_SCORE_FINALDEST, FD_SCORE_REALM. intros ->.
  destruct (named (value_of AC_DESTINATION_HOST rs) (pi_diamid q)); [done|]. repeat case_match; lia.
Qed.

(** ** The run *)

(** The message with its new routing data, and the daemon with both. *)
Definition attached (m : msg) (l : list avp) (r : nat) : msg :=
  with_attached (msg_query m) (msg_associated m) (Some r) (msg_sess m) (msg_callbacks m) (msg_src_id m) (msg_routable m)
    (set_children l m).

Definition prepared (a : nat) (m : msg) (l : list avp) (rtd : rt_data) g : daemon S :=
  set_next (Datatypes.S (g_next g))
    (set_rtds (<[g_next g := rtd]> (g_rtds g)) (set_memory (<[a := attached m l (g_next g)]> (g_msgs g)) g)).

(** The candidates of a new request. *)
Record eligible_rtd g (rs : list (Z * bytes)) (rtd : rt_data) : Prop := EligibleRtd {
  er_peers : Forall (of_peer (g_peers g) (g_active g)) (candidates rtd);
  er_valid : cands_valid rtd;
  er_ids : ∀ x, x ∈ c_diamid <$> candidates rtd ↔ x ∈ g_active g ∧ Forall (λ v, ¬ case_equal v x) (records rs) }.

Lemma cands_of_active ps active l : active_ok ps active → Forall (of_peer ps active) l →
  Forall (λ c, c_diamid c ≠ [] ∧ valid_identity (c_diamid c) = true) l.
Proof.
  intros Ha Hl. eapply Forall_impl; [exact Hl|]. intros c [Hc _]. unfold active_ok in Ha. rewrite Forall_forall in Ha. by apply Ha in Hc as (_ & ? & ?).
Qed.

Lemma folded_nodup ps active rtd : case_distinct (ids ps) → fresh_rtd (of_peer ps active) rtd → NoDup (folded rtd).
Proof.
  intros Hd [(_ & Hs & _) He Hall]. unfold folded.
  assert (∀ x, x ∈ c_diamid <$> candidates rtd → x ∈ ids ps) as Hin.
  { intros x (c & -> & Hc)%list_elem_of_fmap. rewrite Forall_forall in Hall. destruct (Hall c Hc) as (_ & p & Hp & <- & _).
    by apply list_elem_of_fmap_2. }
  apply NoDup_fmap_2_strong; [|by apply (Increasing_NoDup fd_os_cmp_int), Hs].
  intros x y Hx%Hin Hy%Hin Hxy. apply list_elem_of_lookup in Hx as [i Hi], Hy as [j Hj].
  assert (i = j) as <- by by eapply (case_distinct_inj (ids ps)). rewrite Hi in Hj. by injection Hj.
Qed.

Lemma routing_data_run a m g rs :
  g_msgs g !! a = Some m → msg_rtdata m = None → ids_ok (ids (g_peers g)) → active_ok (g_peers g) (g_active g) →
  readable (msg_children m) rs →
  ∃ l rtd, routing_data d cfg bo pei_message fuel env a m g = Ret (prepared a m l rtd g) (Some (g_next g)) ∧
    readable l rs ∧ eligible_rtd g rs rtd.
Proof.
  intros Hm Hr Hok Ha Hrd. unfold routing_data. rewrite Hr.
  assert (fresh_rtd (of_peer (g_peers g) ([] ++ g_active g)) fd_rtd_init) as H0.
  { split; [|done|constructor]. split; [cbn; lia|]. split; [intros _|]; constructor. }
  destruct (add_candidates_fresh _ _ [] _ Ha H0) as (rtd & Eadd & Hf & Hin). cbn [app] in Hf.
  pose proof (cands_of_active _ _ _ Ha (fr_all _ _ Hf)) as Hcv.
  destruct (drop_route_records_run _ _ _ Hrd 0 rtd Hf Hcv) as (l & Edrop & Hl).
  exists l, (drop_all (records rs) rtd). split; [|split; [done|]].
  - eapply bind_ret; [done|]. cbn [id]. eapply bind_ret; [by rewrite Eadd|]. eapply bind_ret; [by rewrite Edrop|]. cbn beta iota.
    unfold bind, associate_rtd, update_msg, modify. cbn. unfold prepared, set_memory, set_next, set_rtds. cbn.
    by rewrite insert_insert_eq.
  - pose proof (drop_all_fresh _ (records rs) _ Hf) as Hf'. split; [apply Hf'|by eapply cands_of_active; [|apply Hf']|].
    assert (∀ c, c ∈ candidates (drop_all (records rs) rtd) ↔ c ∈ candidates rtd ∧ Forall (λ v, ¬ case_equal v (c_diamid c)) (records rs)) as Hspec.
    { intros c. apply drop_all_spec. eapply folded_nodup; [apply Hok|exact Hf]. }
    intros x. rewrite list_elem_of_fmap. split.
    + intros (c & -> & [Hc Hv]%Hspec). split; [|done]. pose proof (fr_all _ _ Hf) as Hall. rewrite Forall_forall in Hall. by apply Hall in Hc as [? _].
    + intros [Hx Hv]. destruct (proj1 (list_elem_of_fmap _ _ _) (Hin x (or_introl Hx))) as (c & -> & Hc). exists c. split; [done|]. by apply Hspec.
Qed.

Lemma the_candidates_run a m l rtd g : the_candidates (g_next g) (prepared a m l rtd g) = Ret (prepared a m l rtd g) (candidates rtd).
Proof. unfold the_candidates, prepared. cbn. by rewrite lookup_insert_eq. Qed.

Lemma set_candidates_run a m l rtd k g :
  set_candidates (g_next g) k (prepared a m l rtd g) = Ret (prepared a m l (RtData (extracted rtd) k (errors rtd)) g) tt.
Proof. unfold set_candidates, modify, prepared, set_next, set_rtds. cbn. by rewrite alter_insert_eq. Qed.

Lemma extract_run a m l rtd g :
  set_rtds (alter (λ rtd, fd_rtd_candidate_extract rtd FD_SCORE_INI) (g_next g) (g_rtds (prepared a m l rtd g))) (prepared a m l rtd g)
  = prepared a m l (fd_rtd_candidate_extract rtd FD_SCORE_INI) g.
Proof. unfold prepared, set_next, set_rtds. cbn. by rewrite alter_insert_eq. Qed.

Lemma prepared_at a m l rtd g : g_msgs (prepared a m l rtd g) !! a = Some (attached m l (g_next g)).
Proof. cbn. by rewrite lookup_insert_eq. Qed.

Lemma update_prepared a m l l' rtd g :
  update_msg a (attached m l' (g_next g)) (prepared a m l rtd g) = Ret (prepared a m l' rtd g) tt.
Proof. unfold update_msg, modify, prepared, set_next, set_rtds, set_memory. cbn. by rewrite insert_insert_eq. Qed.

Lemma call_out_builtin a m l rs rtd g : readable l rs → unique rs →
  ∃ l', call_out d fuel out_cb [RtHdl 0 0 10 0; RtHdl 1 0 10 1] (g_next g) a
          (prepared a m l (fd_rtd_candidate_extract rtd FD_SCORE_INI) g)
        = Ret (prepared a m l' (RtData (signed 32 (extracted rtd + 1)) (scored m (g_peers g) rs (candidates rtd)) (errors rtd)) g) (Some a).
Proof.
  intros Hl Hu. destruct (destination_avps_run l rs Hl Hu None None) as (l' & Edest); [by intros []..|]. exists l'.
  cbn [call_out]. eapply bind_ret; [apply the_candidates_run|]. eapply bind_ret.
  { unfold call_out_hdl. cbn [rh_cb]. eapply bind_ret; [apply msg_at_run, prepared_at|]. by eapply bind_ret. }
  cbn beta iota. eapply bind_ret; [apply set_candidates_run|]. cbn beta iota.
  eapply bind_ret; [apply the_candidates_run|]. eapply bind_ret.
  { unfold call_out_hdl. cbn [rh_cb]. eapply bind_ret; [apply msg_at_run, prepared_at|].
    unfold score_destination_avp. change (msg_children (attached m l (g_next g))) with l. rewrite Edest. cbn [res_bind].
    eapply bind_ret; [done|]. cbn beta iota. eapply bind_ret; [apply (update_prepared a m l l')|done]. }
  cbn beta iota. by eapply bind_ret; [apply set_candidates_run|].
Qed.

(** A peer that a request can be sent to. *)
Definition eligible g (rs : list (Z * bytes)) (i : nat) (p : fd_peer) : Prop :=
  g_peers g !! i = Some p ∧ p_state p = STATE_OPEN ∧ is_Some (p_cnxctx p) ∧
  pi_diamid p ∈ g_active g ∧ Forall (λ v, ¬ case_equal v (pi_diamid p)) (records rs).

(** The candidates that can be used are the eligible peers, with their points. *)
Lemma usable_eligible a m l' r' g rs rtd c i p :
  ids_ok (ids (g_peers g)) → eligible_rtd g rs rtd → c ∈ scored m (g_peers g) rs (candidates rtd) →
  usable (prepared a m l' r' g) c i p → eligible g rs i p ∧ c_score c = points (msg_appl (msg_public m)) rs p.
Proof.
  intros Hok [Hall Hv Hids] Hc (Hg & Hp & Hst & Hcx). change (g_peers (prepared a m l' r' g)) with (g_peers g) in Hg, Hp.
  assert (Forall (λ c, c_diamid c ≠ []) (candidates rtd)) as Hne by (eapply Forall_impl; [exact Hv|]; by intros ? []).
  pose proof (scored_points m _ _ rs _ Hok Hne Hall) as H2.
  apply list_elem_of_lookup in Hc as [k Hk]. destruct (Forall2_lookup_r _ _ _ _ _ H2 Hk) as (c0 & Hk0 & Eid & Hpts).
  apply list_elem_of_lookup_2 in Hk0. rewrite Eid in Hg.
  assert (c_diamid c0 ≠ []) as Hne0 by (rewrite Forall_forall in Hne; by apply Hne).
  destruct (getbyid_found (c_diamid c0) (g_peers g) Hok Hne0) as (r & Hr & Hspec). rewrite Hr in Hg. injection Hg as ->.
  destruct (proj1 (Hspec i) eq_refl) as (q & Hq & Eq). rewrite Hp in Hq. injection Hq as <-.
  assert (c_diamid c0 ∈ c_diamid <$> candidates rtd) as Hin by by apply list_elem_of_fmap_2. apply Hids in Hin as [Hin1 Hin2].
  split; [|by apply Hpts; [by eapply list_elem_of_lookup_2|]]. by rewrite <- Eq in Hin1, Hin2.
Qed.

Lemma eligible_usable a m l' r' g rs rtd i p :
  ids_ok (ids (g_peers g)) → active_ok (g_peers g) (g_active g) → eligible_rtd g rs rtd → eligible g rs i p →
  ∃ c, c ∈ scored m (g_peers g) rs (candidates rtd) ∧ usable (prepared a m l' r' g) c i p.
Proof.
  intros Hok Ha [Hall Hv Hids] (Hp & Hst & Hcx & Hact & Hrec).
  assert (pi_diamid p ∈ c_diamid <$> candidates rtd) as (c0 & Eid & Hc0)%list_elem_of_fmap by by apply Hids.
  assert (Forall (λ c, c_diamid c ≠ []) (candidates rtd)) as Hne by (eapply Forall_impl; [exact Hv|]; by intros ? []).
  pose proof (scored_points m _ _ rs _ Hok Hne Hall) as H2.
  apply list_elem_of_lookup in Hc0 as [k Hk]. destruct (Forall2_lookup_l _ _ _ _ _ H2 Hk) as (c & Hk' & Ec & _).
  exists c. split; [by eapply list_elem_of_lookup_2|]. unfold usable. change (g_peers (prepared a m l' r' g)) with (g_peers g).
  rewrite Ec, <- Eid. split; [|done].
  assert (pi_diamid p ≠ []) as Hne0 by (rewrite Eid; apply list_elem_of_lookup_2 in Hk; rewrite Forall_forall in Hne; by apply Hne).
  destruct (getbyid_found (pi_diamid p) (g_peers g) Hok Hne0) as (r & -> & Hspec). f_equal. apply Hspec. by exists p.
Qed.

(** The final destination, or a peer of the destination realm that supports the
    application. *)
Definition final_destination (rs : list (Z * bytes)) (p : fd_peer) : Prop :=
  ∃ h, value_of AC_DESTINATION_HOST rs = Some h ∧ case_equal h (pi_diamid p).
Definition next_hop (appl : Z) (rs : list (Z * bytes)) (p : fd_peer) : Prop :=
  supports appl p = true ∧
  ∃ r, value_of AC_DESTINATION_REALM rs = Some r ∧ case_equal r (default [] (pir_realm (runtime p))).

Lemma named_spec v x : named v x = true ↔ ∃ h, v = Some h ∧ case_equal h x.
Proof.
  unfold named. destruct v as [h|]; [rewrite same_name_case|]; [|by split; [|intros (? & ? & _)]].
  split; [by exists h|]. by intros (h' & [= <-] & ?).
Qed.

Lemma points_hop appl rs p : 0 ≤ points appl rs p ↔ final_destination rs p ∨ next_hop appl rs p.
Proof. rewrite points_sign, !named_spec. unfold final_destination, next_hop. tauto. Qed.

Lemma final_destination_one g rs i p j q : case_distinct (ids (g_peers g)) → g_peers g !! i = Some p → g_peers g !! j = Some q →
  final_destination rs p → final_destination rs q → i = j.
Proof.
  intros Hd Hp Hq (h & Eh & Hh) (h' & Eh' & Hh'). rewrite Eh in Eh'. injection Eh' as <-.
  eapply (case_distinct_inj (ids (g_peers g)) i j (pi_diamid p) (pi_diamid q) Hd); [unfold ids; rewrite list_lookup_fmap..|].
  - by rewrite Hp.
  - by rewrite Hq.
  - unfold case_equal in *. congruence.
Qed.

(** The run of the routing-out thread. *)
Lemma builtin_run hs a g m rs :
  fd_rtdisp_init no_hdls = Ok hs →
  g_msgs g !! a = Some m → is_request m = true → msg_rtdata m = None →
  ids_ok (ids (g_peers g)) → active_ok (g_peers g) (g_active g) →
  readable (msg_children m) rs → unique rs →
  let appl := msg_appl (msg_public m) in
  let run := msg_rt_out d cfg bo pei_message fuel env out_cb rand hs a g in
  ∃ l rtd,
  (∃ i p, eligible g rs i p ∧ (final_destination rs p ∨ next_hop appl rs p) ∧
     (∀ j q, eligible g rs j q → (final_destination rs q → j = i) ∧ points appl rs q ≤ points appl rs p) ∧
     run = Ret (handed_over a i (attached m l (g_next g)) p (prepared a m l rtd g)) tt) ∨
  ((∀ i p, eligible g rs i p → ¬ final_destination rs p ∧ ¬ next_hop appl rs p) ∧
   run = ignore (return_error d cfg bo fuel env a (str "DIAMETER_UNABLE_TO_DELIVER")
           (Some (str "No suitable candidate to route the message to")) None) (prepared a m l rtd g)).
Proof.
  intros [= <-] Hm Hreq Hr Hok Ha Hrd Hu. cbn zeta.
  destruct (routing_data_run a m g rs Hm Hr Hok Ha Hrd) as (l & rtd & Edata & Hl & Her).
  destruct (call_out_builtin a m l rs rtd g Hl Hu) as (l' & Eout).
  set (cands := scored m (g_peers g) rs (candidates rtd)) in *.
  set (rtd' := RtData (signed 32 (extracted rtd + 1)) (fd_rtd_candidate_reorder rand cands) (errors rtd)).
  exists l', rtd'. set (g' := prepared a m l' rtd' g).
  assert (msg_rt_out d cfg bo pei_message fuel env out_cb rand (RtHdls [] [RtHdl 1 0 10 1; RtHdl 0 0 10 0] 2) a g
    = (let! sent := try_candidates d env (rev (fd_rtd_candidate_reorder rand cands)) a in
       if sent : bool then ret tt
       else ignore (return_error d cfg bo fuel env a (str "DIAMETER_UNABLE_TO_DELIVER")
              (Some (str "No suitable candidate to route the message to")) None)) g') as Erun.
  { unfold msg_rt_out. eapply bind_ret; [by apply msg_at_run|]. rewrite Hreq. unfold rt_out_request.
    eapply bind_ret; [exact Edata|]. cbn beta iota. eapply bind_ret; [unfold modify; by rewrite extract_run|].
    eapply bind_ret; [exact Eout|]. cbn beta iota. eapply bind_ret; [apply the_candidates_run|]. cbn [candidates].
    eapply bind_ret; [apply set_candidates_run|]. done. }
  assert (Forall (λ c, c_diamid c ≠ []) cands) as Hne.
  { pose proof Her as [Hall Hv _]. assert (Forall (λ c, c_diamid c ≠ []) (candidates rtd)) as Hne by (eapply Forall_impl; [exact Hv|]; by intros ? []).
    pose proof (scored_points m _ _ rs _ Hok Hne Hall) as H2. fold cands in H2. clear -H2 Hne. induction H2 as [|c c' ? ? [E _] _ IH]; [done|].
    apply Forall_cons in Hne as [? ?]. constructor; [by rewrite E|by apply IH]. }
  destruct (try_reordered d env rand cands a (attached m l' (g_next g)) g' (prepared_at _ _ _ _ _) Hne)
    as [(c & i & p & Hc & Hc0 & Hus & Hbest & Hrun)|[Hnone Hrun]].
  - left. exists i, p. destruct (usable_eligible a m l' rtd' g rs rtd c i p Hok Her Hc Hus) as [Hel Hsc].
    rewrite Hsc in *. apply points_hop in Hc0 as Hhop.
    assert (∀ j q, eligible g rs j q → points (msg_appl (msg_public m)) rs q ≤ points (msg_appl (msg_public m)) rs p) as Hmax.
    { intros j q Hq. destruct (eligible_usable a m l' rtd' g rs rtd j q Hok Ha Her Hq) as (cq & Hcq & Huq).
      destruct (usable_eligible a m l' rtd' g rs rtd cq j q Hok Her Hcq Huq) as [_ <-]. by apply (Hbest cq j q). }
    split; [done|]. split; [done|]. split.
    + intros j q Hq. split; [|by eapply Hmax]. intros Hf.
      eapply (final_destination_one g rs j q i p); [apply Hok|apply Hq|apply Hel|done|].
      apply named_spec. eapply points_final; [by apply named_spec|by apply (Hmax j q)].
    + rewrite Erun. by eapply bind_ret; [exact Hrun|].
  - right. split.
    + intros i p Hp. destruct (eligible_usable a m l' rtd' g rs rtd i p Hok Ha Her Hp) as (c & Hc & Hus).
      destruct (usable_eligible a m l' rtd' g rs rtd c i p Hok Her Hc Hus) as [_ Hsc].
      pose proof (Hnone c i p Hc Hus) as Hneg. rewrite Hsc in Hneg.
      pose proof (points_hop (msg_appl (msg_public m)) rs p) as Hh.
      assert (¬ (final_destination rs p ∨ next_hop (msg_appl (msg_public m)) rs p)) as Hno by (intros ?%Hh; lia). tauto.
    + rewrite Erun. by eapply bind_ret; [exact Hrun|].
Qed.

(** C7: with the two callbacks that [fd_rtdisp_init] registers and no other, a new
    request goes to an active peer that is open, connected and not named in a
    Route-Record, and that is its Destination-Host or is in its Destination-Realm
    and supports its application; to the Destination-Host when that is such a
    peer, and else to one of those with the most points, whatever the random
    numbers are.  It is answered UNABLE_TO_DELIVER exactly when there is no such
    peer. *)
Theorem rt_out_builtin hs a g m rs :
  fd_rtdisp_init no_hdls = Ok hs →
  g_msgs g !! a = Some m → is_request m = true → msg_rtdata m = None →
  ids_ok (ids (g_peers g)) → active_ok (g_peers g) (g_active g) →
  readable (msg_children m) rs → unique rs →
  let appl := msg_appl (msg_public m) in
  let run := msg_rt_out d cfg bo pei_message fuel env out_cb rand hs a g in
  ∃ l rtd,
  (∃ i p, eligible g rs i p ∧ (final_destination rs p ∨ next_hop appl rs p) ∧
     (∀ j q, eligible g rs j q → (final_destination rs q → j = i) ∧ points appl rs q ≤ points appl rs p) ∧
     run = Ret (handed_over a i (attached m l (g_next g)) p (prepared a m l rtd g)) tt) ∨
  ((∀ i p, eligible g rs i p → ¬ final_destination rs p ∧ ¬ next_hop appl rs p) ∧
   run = ignore (return_error d cfg bo fuel env a (str "DIAMETER_UNABLE_TO_DELIVER")
           (Some (str "No suitable candidate to route the message to")) None) (prepared a m l rtd g)).
Proof. apply builtin_run. Qed.
End builtin.
