(* ===== verification/Relay.v ===== *)
(** * Relaying a request

    The routing-in and the routing-out threads together: a request that the daemon
    forwards, from the queue of incoming messages to the queue of the next peer. *)

From Stdlib Require Import ZArith Lia String.
From stdpp Require Import base sorting sets list gmap.
From S2P Require Import Prelude Time Ostr RtData DictTypes Msg MsgBuf MsgDict MsgTree MsgRules Dispatch Fifo SentReq Apps CoreMsg Effect PeerTypes Peer Daemon PeerList PeerListSpec Routing RoutingSpec RtInSpec RtOutSpec RtBuiltin.

Section relay.
Context {D S : Type} `{!MsgDictionary D} `{!DispDictionary D} `{!CoreDictionary D} `{!MsgSessions S}.
Context (d : D) (cfg : fd_config) (bo : base_objs) (pei_message : perr + rules_err → option bytes) (fuel : nat) (env : env).
Context (fwd_cb : nat → nat → nat → daemon S → daemon S * option nat * option errno).
Context (out_cb : nat → nat → nat → list rtd_candidate → daemon S → daemon S * option nat * list rtd_candidate * option errno).
Context (rand : nat → bool).
Implicit Types g : daemon S.

Lemma readable_scanned l rs : readable d fuel l rs → scanned d fuel l rs.
Proof. induction 1; by econstructor. Qed.

(** The first thread leaves the AVPs so that the second can read them. *)
Lemma routing_avps_readable l rs : readable d fuel l rs → ∀ i f l' r,
  routing_avps d cfg fuel i l f = Ok (l', r) → readable d fuel l' rs.
Proof.
  induction 1 as [|a l rs Ha Hl IH|a a' v l rs Ha Hp Hv Ep Ep' Hl IH]; intros i f l' r; cbn [routing_avps].
  - intros [= <- _]. constructor.
  - unfold routing_avp. rewrite Ha. cbn [negb res_bind]. destruct (all_found f).
    + intros [= <- _]. by constructor.
    + destruct (routing_avps d cfg fuel (Datatypes.S i) l f) as [[l1 r1]| |] eqn:E; [|done..].
      intros [= <- _]. constructor; [done|]. by eapply IH.
  - rewrite (routing_avp_run d cfg fuel i a a' v f Ha Ep Hv). cbn [res_bind].
    assert (∀ k, readable d fuel k rs → readable d fuel (a' :: k) ((avp_code (avp_public a), v) :: rs)) as Hcons.
    { intros k Hk. rewrite <- Hp. by apply (readable_avp d fuel a' a'); [rewrite (routing_avp_public a a' Hp)|..]. }
    destruct (loop_here _ _ _); [intros [= <- _]; by apply Hcons|].
    destruct (all_found _); [intros [= <- _]; by apply Hcons|].
    destruct (routing_avps d cfg fuel (Datatypes.S i) l _) as [[l1 r1]| |] eqn:E; [|done..].
    intros [= <- _]. apply Hcons. by eapply IH.
Qed.

#[local] Notation thr_in hs := (process_thr Incoming false (msg_rt_in d cfg bo pei_message fuel env fwd_cb hs)).
#[local] Notation thr_out hs := (process_thr Outgoing false (msg_rt_out d cfg bo pei_message fuel env out_cb rand hs)).

(** A forwarded request ends in the queue of outgoing messages. *)
Lemma forwarded_posted hs a inq g m rs :
  rt_fwd_list hs = [] → g_incoming g = a :: inq → g_msgs g !! a = Some m → is_request m = true → is_error m = false →
  msg_appl (msg_public m) ≠ 0 → msg_appl (msg_public m) ≠ AI_RELAY →
  readable d fuel (msg_children m) rs → unique rs → request_verdict cfg (msg_appl (msg_public m)) rs = VForward →
  ∃ l1, readable d fuel l1 rs ∧
    thr_in hs g = Ret (with_avps a m l1 (set_queues inq (g_local g) (g_outgoing g ++ [a]) g)) Continue.
Proof.
  intros Hhs Hq Hm Hreq Herr H0 Hrel Hrd Hu Hv. set (g0 := set_queues inq (g_local g) (g_outgoing g) g).
  destruct (rt_in_run d cfg bo pei_message fuel env fwd_cb hs a g0 m rs) as (l1 & r & Escan & Hen);
    [done..|by apply readable_scanned|done|].
  exists l1. split; [by eapply routing_avps_readable|]. rewrite Hv in Hen. cbn [enacts] in Hen.
  unfold process_thr. eapply bind_ret; [done|]. cbn [Datatypes.id]. rewrite Hq. eapply bind_ret; [done|].
  unfold catch. unfold bind. fold g0. rewrite Hen, Hhs. done.
Qed.

(** C6: a request that is to be forwarded, in a daemon with the built-in callbacks
    only and no other message to send: after one round of the routing-in thread
    and one of the routing-out thread, it is in the queue of the peer that is its
    Destination-Host, or of one of its Destination-Realm, if there is one that is
    active, open, connected and not named in a Route-Record, and the threads go on;
    otherwise UNABLE_TO_DELIVER is returned to where it came from, and the threads
    go on, even when that fails. *)
Theorem request_relayed hs a inq g m rs :
  fd_rtdisp_init no_hdls = Ok hs →
  g_incoming g = a :: inq → g_outgoing g = [] →
  g_msgs g !! a = Some m → is_request m = true → is_error m = false → msg_rtdata m = None →
  msg_appl (msg_public m) ≠ 0 → msg_appl (msg_public m) ≠ AI_RELAY →
  ids_ok (ids (g_peers g)) → active_ok (g_peers g) (g_active g) →
  readable d fuel (msg_children m) rs → unique rs →
  request_verdict cfg (msg_appl (msg_public m)) rs = VForward →
  ∃ l rtd,
  let g' := prepared a m l rtd (set_queues inq (g_local g) [] g) in
  (∃ i p, eligible g rs i p ∧ (final_destination rs p ∨ next_hop (msg_appl (msg_public m)) rs p) ∧
     (∀ j q, eligible g rs j q → final_destination rs q → j = i) ∧
     (thr_in hs ;! thr_out hs) g = Ret (handed_over a i (attached m l (g_next g)) p g') Continue) ∨
  ((∀ i p, eligible g rs i p → ¬ final_destination rs p ∧ ¬ next_hop (msg_appl (msg_public m)) rs p) ∧
   (thr_in hs ;! thr_out hs) g = (ignore (return_error d cfg bo fuel env a (str "DIAMETER_UNABLE_TO_DELIVER")
       (Some (str "No suitable candidate to route the message to")) None) ;! ret Continue) g').
Proof.
  intros Hinit Hq Hout Hm Hreq Herr Hr H0 Hrel Hok Ha Hrd Hu Hv.
  assert (rt_fwd_list hs = []) as Hfwd by by injection Hinit as <-.
  destruct (forwarded_posted hs a inq g m rs) as (l1 & Hl1 & Ein); [done..|]. rewrite Hout in Ein. cbn [app] in Ein.
  set (g1 := with_avps a m l1 (set_queues inq (g_local g) [] g)).
  destruct (builtin_run d cfg bo pei_message fuel env out_cb rand hs a g1 (set_children l1 m) rs Hinit) as (l & rtd & Hrun);
    [apply with_avps_at|done..|]. cbn zeta in Hrun.
  assert (prepared a (set_children l1 m) l rtd g1 = prepared a m l rtd (set_queues inq (g_local g) [] g)) as Eg.
  { unfold g1, prepared, with_avps, set_next, set_rtds, set_memory. cbn. by rewrite insert_insert_eq. }
  rewrite Eg in Hrun. exists l, rtd. cbn zeta.
  assert (∀ o, msg_rt_out d cfg bo pei_message fuel env out_cb rand hs a g1 = o →
    (thr_in hs ;! thr_out hs) g = match o with Ret s _ => Ret s Continue | Fail s _ => Ret s FatalError | Abort w => Abort w end) as Hthr.
  { intros o Ho. eapply bind_ret; [exact Ein|]. unfold process_thr. eapply bind_ret; [done|]. cbn [Datatypes.id].
    change (g_outgoing (with_avps _ _ _ _)) with [a]. eapply bind_ret; [done|]. unfold catch, bind. fold g1.
    change (set_queues _ _ [] (with_avps a m l1 _)) with g1. rewrite Ho. by destruct o. }
  destruct Hrun as [(i & p & Hel & Hhop & Hbest & Hrun)|[Hno Hrun]].
  - left. exists i, p. split; [done|]. split; [done|]. split; [intros j q Hj; by apply Hbest|]. by rewrite (Hthr _ Hrun).
  - right. split; [done|]. rewrite (Hthr _ Hrun). unfold ignore, catch, bind.
    by destruct (return_error d cfg bo fuel env a (str "DIAMETER_UNABLE_TO_DELIVER") _ _ _).
Qed.
End relay.
