(* ===== verification/RtExamples.v ===== *)
(** * A concrete relay

    The host [h.example.net] with two open peers, [p.example.net] and [q.other.org],
    and the requests that the witnesses of the routing follow. *)

From Stdlib Require Import ZArith Lia String.
From stdpp Require Import base sorting sets list gmap relations.
From S2P Require Import Prelude Time Ostr RtData DictTypes Msg MsgBuf MsgDict MsgTree MsgRules Dispatch Fifo SentReq Apps DictFct Endpoints CoreMsg Effect PeerTypes Peer LinkLocal Capab Exchange Psm PeerExamples Daemon PeerList PeerListSpec Routing RoutingSpec NaiSpec RtInSpec RtOutSpec RtBuiltin Relay.

Module Routes.
Import Small MsgTree.Examples PeerExamples.Link.

(** The dictionary of the link with the AVPs of the routing and a command of an
    application. *)
Definition routes : dict := Dict
  (avps base ++
   [DictAvpData 1 0 (str "User-Name") 192 64 AVP_TYPE_OCTETSTRING;
    DictAvpData 282 0 (str "Route-Record") 192 64 AVP_TYPE_OCTETSTRING;
    DictAvpData 283 0 (str "Destination-Realm") 192 64 AVP_TYPE_OCTETSTRING;
    DictAvpData 293 0 (str "Destination-Host") 192 64 AVP_TYPE_OCTETSTRING])
  (cmds base ++ [DictCmdData 272 (str "Credit-Control-Request") 224 192; DictCmdData 272 (str "Credit-Control-Answer") 224 64])
  (λ o, []).

Definition objs : base_objs := Eval vm_compute in match fd_msg_init routes with Ok o => o | _ => Link.objs end.

Example routes_objs : fd_msg_init routes = Ok objs.
Proof. vm_compute. reflexivity. Qed.

(** Received AVPs, not parsed yet. *)
Definition raw (code : Z) (v : bytes) : avp := Avp None (0, 0) (AvpHdr code 64 (8 + zlen v) 0) None (Some v) None [].

Definition request (flags : Z) (src : option bytes) (l : list avp) : msg :=
  Msg None (0, 0) (MsgHdr 1 0 flags 272 4 77 99) None 0 None false None None (MsgCb None None None (0, 0)) src l.

(** The two peers: the first is that of [PeerExamples], once open. *)
Definition p_peer : fd_peer := Eval vm_compute in w_peer w4.
Definition q_peer : fd_peer := Eval vm_compute in
  Peer (str "q.other.org") [] (config p_peer) (set_pir_realm (Some (str "other.org")) (runtime p_peer)) STATE_OPEN
    (p_exp_timer p_peer) (p_flags p_peer) (Some []) (p_psm_timer p_peer) [] (p_outthr p_peer) 1 init_srl [] 0 None None
    false (Some 8%nat) false false.

(** The realms of the daemon, with one message of the address 5. *)
Definition daemon_with (m : msg) (inq outq : list nat) : daemon (list bytes) :=
  Daemon [q_peer; p_peer] [str "p.example.net"; str "q.other.org"] [] ∅ {[ 5%nat := m ]} ∅ 6 inq [] outq [] 0 [] [].

Lemma peers_in_order : ids_ok (ids [q_peer; p_peer]).
Proof. split; [repeat constructor; by_compute|unfold case_distinct; by_compute]. Qed.

Lemma actives_known : active_ok [q_peer; p_peer] [str "p.example.net"; str "q.other.org"].
Proof. unfold active_ok. by_compute. Qed.

(** A request for the realm of the second peer, that went through another relay;
    its AVPs are not parsed. *)
Definition avps_for_q : list avp :=
  [raw 263 (str "s1"); raw 283 (str "OTHER.org"); raw 282 (str "s.example.net"); raw 1 (str "user")].
Definition values_for_q : list (Z * bytes) :=
  [(AC_DESTINATION_REALM, str "OTHER.org"); (AC_ROUTE_RECORD, str "s.example.net"); (AC_USER_NAME, str "user")].

Lemma for_q_readable : readable routes 10 avps_for_q values_for_q.
Proof.
  unfold avps_for_q, values_for_q. apply readable_other; [by vm_compute|].
  do 3 (eapply (readable_avp _ _ (raw _ _)); [by vm_compute| | |vm_compute; reflexivity|by vm_compute|]; [by vm_compute..|]).
  constructor.
Qed.

Lemma for_q_unique : unique values_for_q.
Proof. unfold unique. by_compute. Qed.

Definition no_fwd_cb (cb data a : nat) (g : daemon (list bytes)) := (g, Some a, @None errno).
Definition no_out_cb (cb data a : nat) (l : list rtd_candidate) (g : daemon (list bytes)) := (g, Some a, l, @None errno).
Definition no_coin (n : nat) : bool := false.

Definition for_q : msg := request 192 (Some (str "s.example.net")) avps_for_q.
Definition hdls : rt_hdls := RtHdls [] [RtHdl 1 0 10 1; RtHdl 0 0 10 0] 2.

(** The second peer can have it. *)
Lemma q_eligible l : eligible (daemon_with for_q l []) values_for_q 0 q_peer.
Proof.
  split; [done|]. split; [done|]. split; [by eexists|]. split; [cbn; set_solver|]. by_compute.
Qed.

Lemma q_next_hop : next_hop 4 values_for_q q_peer.
Proof. split; [by vm_compute|]. exists (str "OTHER.org"). split; by vm_compute. Qed.

Definition in_thr := process_thr Incoming false (msg_rt_in routes cfg objs (λ _, None) 10 (at_ 9) no_fwd_cb hdls).
Definition out_thr := process_thr Outgoing false (msg_rt_out routes cfg objs (λ _, None) 10 (at_ 9) no_out_cb no_coin hdls).

(** The request goes to a peer. *)
Lemma request_relayed_witness :
  ∃ i p m g', (final_destination values_for_q p ∨ next_hop 4 values_for_q p) ∧
    (in_thr ;! out_thr) (daemon_with for_q [5%nat] []) = Ret (handed_over 5 i m p g') Continue.
Proof.
  destruct (request_relayed routes cfg objs (λ _, None) 10 (at_ 9) no_fwd_cb no_out_cb no_coin hdls 5 [] (daemon_with for_q [5%nat] [])
    for_q values_for_q eq_refl eq_refl eq_refl eq_refl eq_refl eq_refl eq_refl ltac:(by_compute) ltac:(by_compute)
    peers_in_order actives_known for_q_readable for_q_unique eq_refl) as (l & rtd & [(i & p & _ & Hhop & _ & Hrun)|[Hno _]]).
  - exists i, p. do 2 eexists. split; [exact Hhop|exact Hrun].
  - exfalso. destruct (Hno 0%nat q_peer (q_eligible _)) as [_ H]. apply H, q_next_hop.
Defined.

(** ** The list of peers *)

Definition no_idn (x : bytes) : option bytes := None.
Definition empty : daemon (list bytes) := Daemon [] [] [] ∅ ∅ ∅ 6 [] [] [] [] 0 [] [].
Definition some_info : peer_info := PeerInfo (str "p.example.net" ++ [0]) [] (PeerConfig PI_SEC_NONE true false None 60 0 0).
Definition two : daemon (list bytes) := daemon_with for_q [5%nat] [].

(** The identity in capital letters is found by the second search only. *)
Lemma fd_peer_getbyid_witness :
  fd_peer_getbyid (str "P.EXAMPLE.NET") false [q_peer; p_peer] = Ok None ∧
  fd_peer_getbyid (str "P.EXAMPLE.NET") true [q_peer; p_peer] = Ok (Some 1%nat).
Proof.
  destruct (fd_peer_getbyid_spec (str "P.EXAMPLE.NET") [q_peer; p_peer] peers_in_order ltac:(by_compute)) as (r & r' & E & E' & Hr & Hr').
  rewrite E, E'. split; f_equal.
  - destruct r as [i|]; [exfalso|done]. destruct (proj1 (Hr i) eq_refl) as (p & Hp & Eid).
    do 2 (destruct i as [|i]; [injection Hp as <-; revert Eid; by vm_compute|]). done.
  - apply Hr'. exists p_peer. split; [done|by_compute].
Defined.

Definition new_peer : fd_peer := Eval vm_compute in
  match peer_of_info no_idn 1 some_info false empty with Ret _ p => p | _ => p_peer end.

Lemma fd_peer_add_witness :
  (∃ i, fd_peer_add (at_ 9) no_idn 1 some_info false empty = Ret (with_new_peer (at_ 9) i new_peer empty) tt) ∧
  fd_peer_add (at_ 9) no_idn 1 some_info false two = Fail two EEXIST.
Proof.
  split.
  - destruct (proj2 (fd_peer_add_spec (at_ 9) no_idn 1 some_info false empty new_peer (conj (SSorted_nil _) (NoDup_nil_2))
      ltac:(vm_compute; reflexivity)) ltac:(intros y Hy; by apply not_elem_of_nil in Hy)) as (i & Hi & _).
    exists i. exact Hi.
  - apply (proj1 (fd_peer_add_spec (at_ 9) no_idn 1 some_info false two new_peer peers_in_order ltac:(vm_compute; reflexivity))).
    exists (str "p.example.net"). split; [cbn; set_solver|by_compute].
Defined.

(** The list after two additions. *)
Definition added : daemon (list bytes) := Eval vm_compute in
  match fd_peer_add (at_ 9) no_idn 1 some_info false empty with Ret g _ => g | _ => empty end.

Lemma peers_reachable_witness : peers_ok added.
Proof.
  apply (peers_reachable_ok routes cfg objs (λ _, None) 10 no_idn empty added eq_refl).
  apply rtc_once. apply (step_add _ _ _ _ _ _ (at_ 9) 1 some_info false). vm_compute. reflexivity.
Defined.

(** ** The callbacks *)

Lemma fwd_callbacks_witness :
  let hs := RtHdls [RtHdl 1 0 1 4; RtHdl 0 0 3 5] [] 2 in
  call_fwd no_fwd_cb false (rev (rt_fwd_list hs)) 5 two = call_each no_fwd_cb [RtHdl 0 0 3 5] 5 two.
Proof.
  destruct (fwd_callbacks_order no_fwd_cb (RtHdls [RtHdl 1 0 1 4; RtHdl 0 0 3 5] [] 2) false 5 two) as (_ & _ & H & _).
  - eapply rtc_l; [by eapply (step_fwd_register 5 0 3 no_hdls)|]. eapply rtc_l; [by eapply (step_fwd_register 4 0 1)|]. apply rtc_refl.
  - exact H.
Defined.

(** ** Errors *)

(** The error of a request of a peer that is open is sent to it. *)
Definition from_p : msg := request 192 (Some (str "p.example.net")) avps_for_q.
Definition refused : daemon (list bytes) := Eval vm_compute in
  match make_answer routes cfg objs 10 5 MSGFL_ANSW_ERROR (str "DIAMETER_LOOP_DETECTED") None None (daemon_with from_p [] []) with
  | Ret g _ => g | _ => empty end.

Lemma return_error_witness : ∃ m',
  return_error routes cfg objs 10 (at_ 9) 5 (str "DIAMETER_LOOP_DETECTED") None None (daemon_with from_p [] [])
  = Ret (handed_over 6 1 m' p_peer refused) tt.
Proof.
  pose proof (return_error_spec routes cfg objs 10 (at_ 9) 5 (str "DIAMETER_LOOP_DETECTED") None None
    (daemon_with from_p [] []) from_p eq_refl) as H.
  specialize (H (Some 1%nat) ltac:(vm_compute; reflexivity)). cbn beta iota in H.
  destruct (H p_peer refused 6%nat eq_refl ltac:(vm_compute; reflexivity)) as [Hopen _].
  destruct (Hopen eq_refl ltac:(by eexists)) as (m' & _ & E). exists m'. exact E.
Defined.

(** A peer whose connection is gone. *)
Definition closed_p : fd_peer := Eval vm_compute in set_p_cnxctx None (set_p_state STATE_CLOSED p_peer).
Definition bad_bits : msg := request 224 (Some (str "p.example.net")) avps_for_q.
Definition with_closed : daemon (list bytes) :=
  Daemon [q_peer; closed_p] [str "q.other.org"] [] ∅ {[ 5%nat := bad_bits ]} ∅ 6 [5%nat] [] [] [] 0 [] [].

Example closed_source_ends :
  ∃ g', process_thr Incoming false (msg_rt_in routes cfg objs (λ _, None) 10 (at_ 9) no_fwd_cb hdls) with_closed = Ret g' FatalError.
Proof. eexists. vm_compute. reflexivity. Qed.

(** ** The decision *)

(** A name that sends the request to another realm. *)
Definition avps_nai : list avp := [raw 283 (str "example.net"); raw 1 (str "other.org!user@example.net")].
Definition values_nai : list (Z * bytes) :=
  [(AC_DESTINATION_REALM, str "example.net"); (AC_USER_NAME, str "other.org!user@example.net")].

Lemma nai_scanned : scanned routes 10 avps_nai values_nai.
Proof.
  unfold avps_nai, values_nai.
  do 2 (eapply (scanned_avp _ _ (raw _ _)); [by vm_compute|vm_compute; reflexivity|by vm_compute|]). constructor.
Qed.

Lemma msg_rt_in_witness : ∃ l1 l2, renamed l1 l2 (str "user@other.org") (str "other.org") ∧
  msg_rt_in routes cfg objs (λ _, None) 10 (at_ 9) no_fwd_cb hdls 5 (daemon_with (request 192 None avps_nai) [] [])
  = post Incoming 5 (with_avps 5 (request 192 None avps_nai) l2 (daemon_with (request 192 None avps_nai) [] [])).
Proof.
  destruct (msg_rt_in_decision routes cfg objs (λ _, None) 10 (at_ 9) no_fwd_cb hdls 5 (daemon_with (request 192 None avps_nai) [] [])
    (request 192 None avps_nai) values_nai eq_refl eq_refl eq_refl ltac:(by_compute) ltac:(by_compute) nai_scanned
    ltac:(unfold unique; by_compute)) as (l1 & Hen).
  assert (request_verdict cfg 4 values_nai = VAgain (str "user@other.org") (str "other.org")) as Hv by (vm_compute; reflexivity).
  change (msg_appl (msg_public (request 192 None avps_nai))) with 4 in Hen. rewrite Hv in Hen.
  destruct Hen as (l2 & Hr & Hrun). exists l1, l2. split; [exact Hr|exact Hrun].
Defined.

(** ** The next hop *)

(** A request made here for the first peer, which is busy with nothing. *)
Definition avps_for_p : list avp := [raw 283 (str "example.net"); raw 293 (str "p.example.net")].
Definition values_for_p : list (Z * bytes) :=
  [(AC_DESTINATION_REALM, str "example.net"); (AC_DESTINATION_HOST, str "p.example.net")].
Definition for_p : msg := request 192 None avps_for_p.

Lemma for_p_readable : readable routes 10 avps_for_p values_for_p.
Proof.
  unfold avps_for_p, values_for_p.
  do 2 (eapply (readable_avp _ _ (raw _ _)); [by vm_compute| | |vm_compute; reflexivity|by vm_compute|]; [by vm_compute..|]).
  constructor.
Qed.

Lemma rt_out_builtin_witness : ∃ m g',
  msg_rt_out routes cfg objs (λ _, None) 10 (at_ 9) no_out_cb no_coin hdls 5 (daemon_with for_p [] [])
  = Ret (handed_over 5 1 m p_peer g') tt.
Proof.
  assert (eligible (daemon_with for_p [] []) values_for_p 1 p_peer) as Hel.
  { split; [done|]. split; [done|]. split; [by eexists|]. split; [cbn; set_solver|]. constructor. }
  assert (final_destination values_for_p p_peer) as Hf by (exists (str "p.example.net"); split; by vm_compute).
  destruct (rt_out_builtin routes cfg objs (λ _, None) 10 (at_ 9) no_out_cb no_coin hdls 5 (daemon_with for_p [] []) for_p
    values_for_p eq_refl eq_refl eq_refl eq_refl peers_in_order actives_known for_p_readable ltac:(unfold unique; by_compute))
    as (l & rtd & [(i & p & Hp & _ & Hbest & Hrun)|[Hno _]]).
  - destruct (Hbest 1%nat p_peer Hel) as [E _]. specialize (E Hf). subst i.
    destruct Hp as (Hp & _). injection Hp as <-. do 2 eexists. exact Hrun.
  - exfalso. by destruct (Hno 1%nat p_peer Hel) as [H _].
Defined.

(** ** The dispatch of an answer *)

(** An answer of a command that is not in the dictionary, with an error code, to a
    request sent without a callback. *)
Definition sent_request : msg :=
  Msg None (0, 0) (MsgHdr 1 0 192 999 4 1 1) None 0 None true None None (MsgCb None None None (0, 0)) None [].
Definition unknown_answer : msg :=
  Msg None (0, 0) (MsgHdr 1 0 64 999 4 1 1) None 0 (Some 6%nat) false None None (MsgCb None None None (0, 0))
    (Some (str "p.example.net")) [raw 268 [0; 0; 11; 186]].
Definition with_answer : daemon (list bytes) :=
  Daemon [q_peer; p_peer] [] [] ∅ (<[6%nat := sent_request]> {[ 5%nat := unknown_answer ]}) ∅ 7 [] [5%nat] [] [] 0 [] [].

Definition no_answer_cb (cb : nat) (data : option nat) (a : nat) (g : daemon (list bytes)) := (g, Some a).
Definition no_disp_cb (cb : nat) (g : daemon (list bytes)) (a : nat) (p : option path) (s : option nat) (o : nat) :=
  (g, CbResult (Some a) DISP_ACT_CONT None).

Example unknown_answer_ends :
  ∃ g', process_thr Local false (msg_dispatch routes cfg objs (λ _, None) 10 no_answer_cb no_disp_cb (Disp ∅ [] [] ∅)) with_answer
        = Ret g' FatalError.
Proof. eexists. vm_compute. reflexivity. Qed.
End Routes.
