(* ===== verification/AclWl.v ===== *)
(** * The whitelist of peers ([acl_wl/aw_tree.c], [acl_wl.c])

    The tree of the names that are allowed to connect, label by label from the top
    of the domain names, as it is built by the lines of the configuration file and
    searched for the identity of a peer; and the callback that decides on a peer.
    The file is the sequence of the lexical elements of [aw_conf.l]; their regular
    expressions, the lock and the display are not modelled. *)

From Stdlib Require Import ZArith Lia String.
From stdpp Require Import base list.
From S2P Require Import Prelude Ostr CString DictTypes Capab CoreMsg PeerTypes.

(** Maximum depth of the tree. *)
Definition AW_TREE_MAXDEPTH : nat := 10.

(** [struct tree_item]; a list of items is [fd_list]: the label, [None] for a
    generic container, the flags, whether it can be a leaf, and the subtree. *)
Inductive tree_item := Ti (ti_str : option bytes) (ti_flags : Z) (ti_leaf : bool) (ti_children : list tree_item).

Definition ti_str (t : tree_item) : option bytes := let '(Ti s _ _ _) := t in s.
Definition ti_flags (t : tree_item) : Z := let '(Ti _ f _ _) := t in f.
Definition ti_leaf (t : tree_item) : bool := let '(Ti _ _ l _) := t in l.
Definition ti_children (t : tree_item) : list tree_item := let '(Ti _ _ _ c) := t in c.

(** The labels of a name, the first one first; one more than the depth is an error. *)
Definition parse_name (name : bytes) : option (list bytes) :=
  if decide (length (split_on 46 name) <= AW_TREE_MAXDEPTH)%nat then Some (split_on 46 name) else None.

(** The comparison of the loops: the label of an item, then the lengths. *)
Definition label_cmp (item label : bytes) : Z :=
  let cmp := strncasecmp (length label) item label in
  if decide (cmp ≠ 0) then cmp else zlen item - zlen label.

(** The ordered search for a label: [f] makes the item that is found, or a new one
    at the place of the label. *)
Fixpoint place (label : bytes) (f : option tree_item → res tree_item) (l : list tree_item) : res (list tree_item) :=
  match l with
  | [] => let* t := f None in Ok [t]
  | ti :: l =>
      match ti_str ti with
      | None => Crash
      | Some s =>
          if decide (label_cmp s label > 0) then let* t := f None in Ok (t :: ti :: l)
          else if decide (label_cmp s label < 0) then let* l := place label f l in Ok (ti :: l)
          else let* t := f (Some ti) in Ok (t :: l)
      end
  end.

(** The list starts with a generic entry. *)
Definition generic (l : list tree_item) : option tree_item :=
  match l with ti :: _ => match ti_str ti with None => Some ti | Some _ => None end | [] => None end.

(** The item of the last label, new or marked; and that of a label above it. *)
Definition leaf_item (label : bytes) (flags : Z) (o : option tree_item) : res tree_item :=
  Ok match o with
     | Some (Ti s fl leaf ch) => Ti s (if leaf then Z.lor fl flags else flags) true ch
     | None => Ti (Some label) flags true []
     end.

Definition inner_item (label : bytes) (add : list tree_item → res (list tree_item)) (o : option tree_item) : res tree_item :=
  match o with
  | Some (Ti s fl leaf ch) => let* ch := add ch in Ok (Ti s fl leaf ch)
  | None => let* ch := add [] in Ok (Ti (Some label) 0 false ch)
  end.

(** The last label: a leaf, new or marked, or a generic entry instead of the list. *)
Definition add_leaf (label : bytes) (flags : Z) (l : list tree_item) : res (list tree_item) :=
  if decide (head label = Some 42) then Ok [Ti None flags true []]
  else
    match generic l with
    | Some _ => Ok l
    | None => place label (leaf_item label flags) l
    end.

(** The labels from the last one. *)
Fixpoint add_labels (rev_labels : list bytes) (flags : Z) (l : list tree_item) : res (list tree_item) :=
  match rev_labels with
  | [] => Ok l
  | label :: rest =>
      match rest with
      | [] => add_leaf label flags l
      | _ :: _ =>
          match generic l with
          | Some _ => Ok l
          | None => place label (inner_item label (add_labels rest flags)) l
          end
      end
  end.

Definition aw_tree_add (name : bytes) (flags : Z) (tree_root : list tree_item) : res (list tree_item) :=
  if decide (name = []) then Err EINVAL
  else match parse_name name with None => Err EINVAL | Some labels => add_labels (rev labels) flags tree_root end.

(** The search of a label. *)
Fixpoint find_label (label : bytes) (l : list tree_item) : res (option tree_item) :=
  match l with
  | [] => Ok None
  | ti :: l =>
      match ti_str ti with
      | None => Crash
      | Some s =>
          if decide (label_cmp s label > 0) then Ok None
          else if decide (label_cmp s label < 0) then find_label label l
          else Ok (Some ti)
      end
  end.

(** The flags; [None] stands for -1. *)
Fixpoint lookup_labels (rev_labels : list bytes) (l : list tree_item) : res (option Z) :=
  match rev_labels with
  | [] => Ok None
  | label :: rest =>
      match generic l with
      | Some ti => Ok (Some (ti_flags ti))
      | None =>
          let* r := find_label label l in
          match r with
          | None => Ok None
          | Some ti =>
              match rest with
              | [] => Ok (if ti_leaf ti then Some (ti_flags ti) else None)
              | _ :: _ => lookup_labels rest (ti_children ti)
              end
          end
      end
  end.

Definition aw_tree_lookup (name : bytes) (tree_root : list tree_item) : res (option Z) :=
  match parse_name name with None => Ok None | Some labels => lookup_labels (rev labels) tree_root end.

(** *** The configuration file *)

(** The elements of the file that [aw_conf.l] acts on. *)
Inductive token := T_newline | T_ALLOW_IPSEC | T_ALLOW_OLD_TLS | T_FQDN (yytext : bytes) | T_other.

(** The scanner and the grammar over the elements: the flags of the line and the
    tree that are left, and whether the parser has failed. [curflag] and the tree
    are static variables: they are there before the file. *)
Fixpoint aw_confparse (tokens : list token) (curflag : Z) (tree_root : list tree_item) : res (bool * Z * list tree_item) :=
  match tokens with
  | [] => Ok (true, curflag, tree_root)
  | T_newline :: ts => aw_confparse ts 0 tree_root
  | T_ALLOW_IPSEC :: ts => aw_confparse ts (Z.lor curflag PI_SEC_NONE) tree_root
  | T_ALLOW_OLD_TLS :: ts => aw_confparse ts (Z.lor curflag PI_SEC_TLS_OLD) tree_root
  | T_FQDN name :: ts =>
      match aw_tree_add name curflag tree_root with
      | Ok tree => aw_confparse ts curflag tree
      | Err _ => Ok (false, curflag, tree_root)
      | Crash => Crash
      end
  | T_other :: _ => Ok (false, curflag, tree_root)
  end.

(** The reload on a signal: the flags and the tree that are left. *)
Definition sig_hdlr (tokens : list token) (curflag : Z) (tree_root : list tree_item) : res (Z * list tree_item) :=
  let* r := aw_confparse tokens curflag [] in
  let '(ok, curflag, new) := r in
  Ok (curflag, if ok then new else tree_root).

(** *** The callback *)

Definition with_sec (sec : Z) (c : peer_config) : peer_config :=
  PeerConfig sec (pic_exp c) (pic_persist c) (pic_realm c) (pic_lft c) (pic_tctimer c) (pic_twtimer c).

(** What [aw_validate] answers for a peer. *)
Definition aw_validate (tree_root : list tree_item) (p : fd_peer) : res validator :=
  let* r := aw_tree_lookup (pi_diamid p) tree_root in
  Ok match r with
     | None => Validator None 0 false (λ c, c)
     | Some flags =>
         if pir_cert (runtime p) then Validator None 1 false (λ c, c)
         else if decide (flags = 0) then Validator None 0 false (λ c, c)
         else Validator None 1 false (with_sec (if has flags PI_SEC_NONE && has flags PI_SEC_TLS_OLD then PI_SEC_NONE else flags))
     end.
