(* ===== verification/AclWlSpec.v ===== *)
(** * The whitelist accepts the peers that its entries name

    The meaning of a list of entries, as two maps from the names (the labels from
    the last one, in lower case) to flags: the names, and the generic names; what
    an entry adds to them, and whom they allow. The tree implements it: its lists
    stay ordered, and its search finds what the maps say. *)

From Stdlib Require Import ZArith Lia String.
From stdpp Require Import base list gmap.
From S2P Require Import Prelude Ostr CString DictTypes Capab CapabSpec CoreMsg PeerTypes PeerList AclWl.

(** ** The order of the labels *)

Lemma strncasecmp_lex a b :
  is_cstring a → is_cstring b →
  let c := strncasecmp (length b) a b in let k := strcmp (lower a) (lower b) in
  (c < 0 → k < 0) ∧ (c > 0 → k > 0) ∧ (c = 0 → k = 0 ∧ length a = length b ∨ k > 0 ∧ (length b < length a)%nat).
Proof.
  intros Ha. revert b. induction Ha as [|x a Hx Ha IH]; intros b Hb; destruct Hb as [|y b Hy Hb]; cbn; try lia.
  - apply tolower_pos in Hy. lia.
  - specialize (IH b Hb). cbn zeta in IH. case_decide; [|lia]. destruct IH as (I1 & I2 & I3). split; [done|]. split; [done|].
    intros Hc. specialize (I3 Hc). unfold lower in I3. destruct I3 as [[? ?]|[? ?]]; [left|right]; (split; [done|lia]).
Qed.

Lemma label_cmp_lex a b :
  is_cstring a → is_cstring b →
  (label_cmp a b < 0 ↔ strcmp (lower a) (lower b) < 0) ∧ (label_cmp a b > 0 ↔ strcmp (lower a) (lower b) > 0).
Proof.
  intros Ha Hb. pose proof (strncasecmp_lex a b Ha Hb) as (H1 & H2 & H3). unfold label_cmp, zlen. cbn zeta in *.
  destruct (decide (strncasecmp (length b) a b = 0)) as [He|He].
  - rewrite decide_False by (by intros ?). specialize (H3 He). lia.
  - rewrite decide_True by done. lia.
Qed.

(** ** The lists of items *)

Definition key (t : tree_item) : option bytes := lower <$> ti_str t.
Definition key_cmp (x y : tree_item) : Z := strcmp (default [] (key x)) (default [] (key y)).

Fixpoint find_key (k : bytes) (l : list tree_item) : option tree_item :=
  match l with [] => None | t :: l => if decide (key t = Some k) then Some t else find_key k l end.

Definition named (t : tree_item) : Prop := ∃ s, ti_str t = Some s ∧ is_cstring s.
Definition labelled (l : list tree_item) : Prop := Increasing key_cmp l ∧ Forall named l.

(** A list is a generic entry alone, or labels in order. *)
Inductive wf_list : list tree_item → Prop :=
  | wf_generic fl : wf_list [Ti None fl true []]
  | wf_labelled l : labelled l → Forall (λ t, wf_list (ti_children t)) l → wf_list l.

Lemma labelled_nil : labelled [].
Proof. split; constructor. Qed.

Lemma labelled_generic l : labelled l → generic l = None.
Proof. intros [_ H]. destruct H as [|t l (s & Hs & _) _]; cbn; [done|]. by rewrite Hs. Qed.

Lemma wf_nil : wf_list [].
Proof. apply wf_labelled; [apply labelled_nil|constructor]. Qed.

Lemma find_key_Some k l t : find_key k l = Some t → t ∈ l ∧ key t = Some k.
Proof.
  induction l as [|x l IH]; cbn; [done|]. case_decide; [intros [= ->]; split; [by left|done]|].
  intros [? ?]%IH. split; [by right|done].
Qed.

(** The labels before and behind the place of a label. *)
Lemma find_key_greater k x l :
  labelled (x :: l) → strcmp k (default [] (key x)) < 0 → find_key k (x :: l) = None.
Proof.
  intros [Hs Hn] Hlt. assert (∀ t, t ∈ x :: l → key t ≠ Some k) as Hne.
  { intros t [->|Ht]%elem_of_cons He; [rewrite He in Hlt; cbn in Hlt; by rewrite cmp_refl in Hlt|].
    inversion Hs as [|? ? _ Hx]; subst. rewrite Forall_forall in Hx. specialize (Hx t Ht). unfold key_cmp in Hx. rewrite He in Hx. cbn in Hx.
    apply (cmp_lt_gt strcmp) in Hx. lia. }
  clear -Hne. induction (x :: l) as [|t l' IH]; cbn; [done|]. rewrite decide_False by (apply Hne; by left).
  apply IH. intros t' Ht'. apply Hne. by right.
Qed.

Section place.
Context (label : bytes) (Hlabel : is_cstring label).

Lemma label_cases t : named t →
  ∃ s, ti_str t = Some s ∧ key t = Some (lower s) ∧
    (label_cmp s label > 0 → strcmp (lower label) (lower s) < 0) ∧
    (label_cmp s label < 0 → strcmp (lower s) (lower label) < 0) ∧
    (¬ label_cmp s label > 0 → ¬ label_cmp s label < 0 → lower s = lower label).
Proof.
  intros (s & Hs & Hc). exists s. split; [done|]. split; [unfold key; by rewrite Hs|].
  destruct (label_cmp_lex s label Hc Hlabel) as [H1 H2]. split; [|split].
  - rewrite H2. intros H. apply (cmp_gt_lt strcmp). lia.
  - by rewrite H1.
  - rewrite H1, H2. intros ? ?. apply strcmp_eq. lia.
Qed.

Lemma find_label_spec l : labelled l → find_label label l = Ok (find_key (lower label) l).
Proof.
  intros [Hs Hn]. induction l as [|t l IH]; [done|]. cbn [find_label]. apply Forall_cons in Hn as Hn'. destruct Hn' as [Ht Hl].
  destruct (label_cases t Ht) as (s & Hts & Hk & H1 & H2 & H3). rewrite Hts. case_decide as C1.
  { rewrite find_key_greater; [done|by split|]. rewrite Hk. by apply H1. }
  cbn [find_key]. rewrite Hk. case_decide as C2.
  - rewrite decide_False. 2: { intros [= He]. specialize (H2 C2). rewrite He, cmp_refl in H2. lia. }
    apply IH; [by inversion Hs|done].
  - rewrite decide_True by (f_equal; by apply H3). done.
Qed.

Lemma place_spec f l t :
  labelled l → f (find_key (lower label) l) = Ok t → named t → key t = Some (lower label) →
  ∃ l', place label f l = Ok l' ∧ labelled l' ∧
    (∀ k, find_key k l' = if decide (k = lower label) then Some t else find_key k l) ∧
    (∀ x, x ∈ l' → x = t ∨ x ∈ l).
Proof.
  intros [Hs Hn] Hf Hnt Hkt. induction l as [|x l IH]; cbn [place].
  { cbn in Hf. rewrite Hf. exists [t]. split; [done|]. split; [split; repeat constructor; done|]. split.
    - intros k. cbn. rewrite Hkt. repeat case_decide; congruence.
    - intros y. rewrite list_elem_of_singleton. by left. }
  apply Forall_cons in Hn as Hn'. destruct Hn' as [Hx Hl]. inversion Hs as [|? ? Hsl Hxl]; subst.
  destruct (label_cases x Hx) as (s & Hxs & Hkx & H1 & H2 & H3). rewrite Hxs. case_decide as C1.
  - assert (strcmp (lower label) (default [] (key x)) < 0) as Hlt by (rewrite Hkx; by apply H1).
    rewrite find_key_greater in Hf; [|by split|done]. rewrite Hf. exists (t :: x :: l). split; [done|]. split; [split; [|by constructor]|split].
    + constructor; [done|]. constructor; [unfold key_cmp; by rewrite Hkt|]. rewrite Forall_forall in Hxl |- *. intros y Hy.
      unfold key_cmp. rewrite Hkt. eapply cmp_lt_trans; [apply _|exact Hlt|]. by apply Hxl.
    + intros k. cbn [find_key]. rewrite Hkt. destruct (decide (k = lower label)) as [->|Hk]; [by rewrite decide_True|].
      rewrite decide_False by congruence. done.
    + intros y [->|Hy]%elem_of_cons; [by left|by right].
  - case_decide as C2.
    + assert (key x ≠ Some (lower label)) as Hne.
      { rewrite Hkx. intros [= He]. specialize (H2 C2). rewrite He, cmp_refl in H2. lia. }
      cbn [find_key] in Hf. rewrite decide_False in Hf by done. destruct (IH Hsl Hl Hf) as (l' & -> & [Hs' Hn'] & Hk' & Hin).
      exists (x :: l'). split; [done|]. split; [split; [|by constructor]|split].
      * constructor; [done|]. rewrite Forall_forall in Hxl |- *. intros y [->|Hy]%Hin; [|by apply Hxl].
        unfold key_cmp. rewrite Hkt, Hkx. by apply H2.
      * intros k. cbn [find_key]. rewrite Hk'. destruct (decide (key x = Some k)) as [He|]; [|done].
        rewrite decide_False; [done|congruence].
      * intros y [->|[->|Hy]%Hin]%elem_of_cons; [right; by left|by left|right; by right].
    + assert (key x = Some (lower label)) as He by (rewrite Hkx; f_equal; by apply H3).
      cbn [find_key] in Hf. rewrite decide_True in Hf by done. rewrite Hf. exists (t :: l). split; [done|]. split; [split; [|by constructor]|split].
      * constructor; [done|]. rewrite Forall_forall in Hxl |- *. intros y Hy. specialize (Hxl y Hy). unfold key_cmp in *.
        by rewrite Hkt, <- He.
      * intros k. cbn [find_key]. rewrite Hkt, He. destruct (decide (k = lower label)) as [->|]; [by rewrite decide_True|].
        by rewrite !decide_False by congruence.
      * intros y [->|Hy]%elem_of_cons; [by left|right; by right].
Qed.
End place.

(** ** What a tree says of a path *)

(** A name from its last label, in lower case. *)
Abbreviation path := (list bytes).

(** The generic entry above a path, and the entry of the path itself. *)
Fixpoint t_above (p : path) (l : list tree_item) : option Z :=
  match p with
  | [] => None
  | k :: p =>
      match generic l with
      | Some ti => Some (ti_flags ti)
      | None => match find_key k l with Some ti => t_above p (ti_children ti) | None => None end
      end
  end.

Fixpoint t_name (p : path) (l : list tree_item) : option Z :=
  match p with
  | [] => None
  | k :: p =>
      match find_key k l with
      | None => None
      | Some ti => match p with [] => if ti_leaf ti then Some (ti_flags ti) else None | _ :: _ => t_name p (ti_children ti) end
      end
  end.

Lemma t_above_nil p : t_above p [] = None.
Proof. by destruct p. Qed.

Lemma t_name_nil p : t_name p [] = None.
Proof. by destruct p. Qed.

Definition canonical (labels : list bytes) : path := lower <$> labels.

Lemma children_wf k l ti : wf_list l → find_key k l = Some ti → wf_list (ti_children ti).
Proof.
  intros Hl Hf. destruct Hl as [fl|l _ Hc]; [done|]. apply find_key_Some in Hf as [Hf _]. rewrite Forall_forall in Hc. by apply Hc.
Qed.

Lemma lookup_labels_spec p l :
  Forall is_cstring p → wf_list l →
  lookup_labels p l = Ok (match t_above (canonical p) l with Some fl => Some fl | None => t_name (canonical p) l end).
Proof.
  intros Hp. revert l. induction Hp as [|label p Hlabel Hp IH]; intros l Hl; [done|]. cbn [lookup_labels].
  change (canonical (label :: p)) with (lower label :: canonical p). cbn [t_above t_name].
  destruct Hl as [fl|l Hlab Hc]; [done|]. rewrite labelled_generic, find_label_spec by done. cbn [res_bind].
  destruct (find_key (lower label) l) as [ti|] eqn:Hf; [|done]. rewrite (IH (ti_children ti)).
  - by destruct p.
  - eapply (children_wf _ l); [by apply wf_labelled|done].
Qed.

(** *** Additions *)

(** The path that an entry adds, and whether it is generic: its first label, the
    last one here, starts with a star. *)
Fixpoint generic_entry (rev_labels : list bytes) : bool :=
  match rev_labels with [] => false | [label] => bool_decide (head label = Some 42) | _ :: rest => generic_entry rest end.
Fixpoint entry_path (rev_labels : list bytes) : path :=
  match rev_labels with
  | [] => []
  | label :: rest => match rest with [] => if decide (head label = Some 42) then [] else [lower label] | _ :: _ => lower label :: entry_path rest end
  end.

Definition below (p q : path) : Prop := p `prefix_of` q ∧ p ≠ q.
#[export] Instance below_dec p q : Decision (below p q).
Proof. unfold below. apply _. Defined.

Lemma below_cons k p k' q : below (k :: p) (k' :: q) ↔ k = k' ∧ below p q.
Proof.
  unfold below. split.
  - intros [Hp Hne]. apply prefix_cons_inv_1 in Hp as Hk. apply prefix_cons_inv_2 in Hp. subst. split; [done|]. split; [done|]. congruence.
  - intros [-> [Hp Hne]]. split; [by apply prefix_cons|congruence].
Qed.

Lemma below_nil p : ¬ below p [].
Proof. intros [Hp Hne]. by apply prefix_nil_inv in Hp. Qed.

Lemma nil_below k q : below [] (k :: q).
Proof. split; [apply prefix_nil|done]. Qed.

(** The two answers of the tree after an addition. *)
Definition above_after (l : list tree_item) (p : path) (gen : bool) (fl : Z) (q : path) : option Z :=
  match t_above p l with
  | Some _ => t_above q l
  | None => if gen && bool_decide (below p q) then Some fl else t_above q l
  end.

Definition name_after (l : list tree_item) (p : path) (gen : bool) (fl : Z) (q : path) : option Z :=
  match t_above p l with
  | Some _ => t_name q l
  | None =>
      if gen then if decide (below p q) then None else t_name q l
      else if decide (q = p) then Some (Z.lor (default 0 (t_name q l)) fl) else t_name q l
  end.

Definition adds (rp : list bytes) (fl : Z) (l l' : list tree_item) : Prop :=
  wf_list l' ∧ (∀ q, t_above q l' = above_after l (entry_path rp) (generic_entry rp) fl q) ∧
  (∀ q, t_name q l' = name_after l (entry_path rp) (generic_entry rp) fl q).

Lemma generic_adds rp fl l ti : wf_list l → generic l = Some ti → entry_path rp ≠ [] → adds rp fl l l.
Proof.
  intros Hl Hg Hp. destruct (entry_path rp) as [|k p] eqn:He; [done|]. unfold adds, above_after, name_after. rewrite He. cbn [t_above]. by rewrite Hg.
Qed.

Lemma wf_replaced l l' t : labelled l' → wf_list l → wf_list (ti_children t) → (∀ x, x ∈ l' → x = t ∨ x ∈ l) → generic l = None → wf_list l'.
Proof.
  intros Hl' Hl Ht Hin Hg. apply wf_labelled; [done|]. apply Forall_forall. intros x [->|Hx]%Hin; [done|].
  destruct Hl as [fl|l _ Hc]; [done|]. rewrite Forall_forall in Hc. by apply Hc.
Qed.

Lemma add_leaf_spec label fl l :
  is_cstring label → wf_list l → ∃ l', add_leaf label fl l = Ok l' ∧ adds [label] fl l l'.
Proof.
  intros Hlabel Hl. unfold add_leaf. unfold adds. cbn [entry_path generic_entry]. destruct (decide (head label = Some 42)) as [Hs|Hs].
  { exists [Ti None fl true []]. split; [done|]. rewrite bool_decide_true by done. split; [constructor|].
    split; intros [|k q]; unfold above_after, name_after; cbn [t_above t_name andb].
    - by rewrite bool_decide_false by apply below_nil.
    - by rewrite bool_decide_true by apply nil_below.
    - by rewrite decide_False by apply below_nil.
    - by rewrite decide_True by apply nil_below. }
  rewrite bool_decide_false by done. destruct (generic l) as [g|] eqn:Hg.
  { exists l. split; [done|]. split; [done|]. unfold above_after, name_after. cbn [t_above]. by rewrite Hg. }
  assert (labelled l) as Hlab by (by destruct Hl).
  set (f := leaf_item label fl). set (t := match find_key (lower label) l with Some (Ti s fl0 leaf ch) => Ti s (if leaf then Z.lor fl0 fl else fl) true ch
                             | None => Ti (Some label) fl true [] end).
  assert (f (find_key (lower label) l) = Ok t) as Hf by done.
  assert (named t ∧ key t = Some (lower label) ∧ wf_list (ti_children t) ∧ ti_leaf t = true ∧
    ti_children t = default [] (ti_children <$> find_key (lower label) l) ∧
    ti_flags t = Z.lor (default 0 (t_name [lower label] l)) fl) as (T1 & T2 & T3 & T4 & T5 & T6).
  { unfold t. cbn [t_name]. destruct (find_key (lower label) l) as [[s fl0 leaf ch]|] eqn:Hk.
    - apply find_key_Some in Hk as Hk'. destruct Hk' as [Hin Hkey]. destruct Hlab as [_ Hn]. rewrite Forall_forall in Hn.
      split; [exact (Hn _ Hin)|]. split; [exact Hkey|]. split; [exact (children_wf _ _ _ Hl Hk)|]. cbn. by destruct leaf.
    - split; [by exists label|]. split; [done|]. split; [apply wf_nil|]. done. }
  destruct (place_spec label Hlabel f l t Hlab Hf T1 T2) as (l' & -> & Hl' & Hk & Hin). exists l'. split; [done|].
  assert (generic l' = None) as Hg' by (by apply labelled_generic). split; [exact (wf_replaced l l' t Hl' Hl T3 Hin Hg)|].
  assert (t_above [lower label] l = None) as Ha by (cbn; rewrite Hg; by case_match).
  unfold above_after, name_after. rewrite Ha. cbn [andb]. split; intros [|k q]; [done|cbn [t_above]; rewrite Hg, Hg', Hk|done|cbn [t_name]; rewrite Hk].
  - case_decide; subst; [|done]. rewrite T5. destruct (find_key (lower label) l); cbn; [done|by destruct q].
  - destruct (decide (k = lower label)) as [->|Hne].
    + destruct q as [|k' q]; [by rewrite decide_True, T4, T6 by done|]. rewrite decide_False by done. rewrite T5. by destruct (find_key (lower label) l).
    + by rewrite decide_False by congruence.
Qed.

(** An addition under a label: the items [l] and [l'] before and after, [t] the
    item of the label after, and [ch] what was under it before. *)
Section inner.
Context (label : bytes) (rp : list bytes) (fl : Z) (l l' : list tree_item) (t : tree_item).
Let k0 := lower label.
Let ch := default [] (ti_children <$> find_key k0 l).
Let p := entry_path rp.
Context (Hg : generic l = None) (Hg' : generic l' = None)
  (Hk : ∀ k, find_key k l' = if decide (k = k0) then Some t else find_key k l)
  (Ht : (if ti_leaf t then Some (ti_flags t) else None) = t_name [k0] l)
  (HA : ∀ q, t_above q (ti_children t) = above_after ch p (generic_entry rp) fl q)
  (HN : ∀ q, t_name q (ti_children t) = name_after ch p (generic_entry rp) fl q)
  (Hexact : generic_entry rp = false → p ≠ []).

Lemma t_above_inner q : t_above (k0 :: q) l = t_above q ch.
Proof.
  unfold ch. cbn [t_above]. rewrite Hg. destruct (find_key k0 l); cbn [fmap option_fmap option_map default from_option]; [done|].
  by rewrite t_above_nil.
Qed.

Lemma t_name_inner q : q ≠ [] → t_name (k0 :: q) l = t_name q ch.
Proof.
  unfold ch. cbn [t_name]. destruct (find_key k0 l); cbn [fmap option_fmap option_map default from_option]; rewrite ?t_name_nil; by destruct q.
Qed.

Lemma inner_above q : t_above q l' = above_after l (k0 :: p) (generic_entry rp) fl q.
Proof.
  unfold above_after in *. rewrite t_above_inner. destruct q as [|k q].
  - rewrite bool_decide_false by apply below_nil. rewrite andb_false_r. by destruct (t_above p ch).
  - destruct (decide (k = k0)) as [->|Hkne].
    + rewrite t_above_inner. rewrite (bool_decide_ext (below (k0 :: _) _) (below p q)) by (rewrite below_cons; naive_solver).
      rewrite <- HA. cbn [t_above]. by rewrite Hg', Hk, decide_True.
    + rewrite (bool_decide_false (below _ (k :: q))) by (rewrite below_cons; naive_solver). rewrite andb_false_r.
      cbn [t_above]. rewrite Hg, Hg', Hk, decide_False by done. by destruct (t_above p ch).
Qed.

Lemma inner_name q : t_name q l' = name_after l (k0 :: p) (generic_entry rp) fl q.
Proof.
  unfold name_after in *. rewrite t_above_inner. destruct q as [|k q].
  - rewrite decide_False by apply below_nil. destruct (t_above p ch); [done|]. destruct (generic_entry rp); [done|]. by rewrite decide_False.
  - destruct (decide (k = k0)) as [->|Hkne]; [destruct q as [|k' q]|].
    + cbn [t_name]. rewrite Hk, decide_True, Ht by done. destruct (t_above p ch); [done|]. destruct (generic_entry rp) eqn:He.
      * rewrite decide_False; [done|]. rewrite below_cons. intros [_ Hb]. by apply below_nil in Hb.
      * rewrite decide_False; [done|]. intros [= Hq]. by apply (Hexact eq_refl).
    + rewrite t_name_inner by done.
      transitivity (t_name (k' :: q) (ti_children t)); [cbn [t_name]; by rewrite Hk, decide_True|]. rewrite HN.
      destruct (t_above p ch); [done|]. destruct (generic_entry rp).
      * apply decide_ext. rewrite below_cons. naive_solver.
      * apply decide_ext. split; congruence.
    + assert (t_name (k :: q) l' = t_name (k :: q) l) as Heq by (cbn [t_name]; by rewrite Hk, decide_False).
      rewrite Heq. destruct (t_above p ch); [done|]. rewrite (decide_False (P := k :: q = _)) by congruence.
      rewrite (decide_False (P := below _ (k :: q))) by (rewrite below_cons; naive_solver). by destruct (generic_entry rp).
Qed.
End inner.

Lemma exact_path label rest : generic_entry (label :: rest) = false → entry_path (label :: rest) ≠ [].
Proof.
  revert label. induction rest as [|x rest IH]; intros label; cbn; [|done].
  rewrite bool_decide_eq_false. intros. by rewrite decide_False.
Qed.

Lemma add_labels_spec rp fl l :
  rp ≠ [] → Forall is_cstring rp → wf_list l → ∃ l', add_labels rp fl l = Ok l' ∧ adds rp fl l l'.
Proof.
  intros Hne Hp. revert l. induction Hp as [|label rest Hlabel Hrest IH]; intros l Hl; [done|]. destruct rest as [|label' rest].
  { by apply add_leaf_spec. }
  set (rp := label' :: rest) in *. specialize (IH ltac:(done)).
  assert (add_labels (label :: rp) fl l = match generic l with Some _ => Ok l | None => place label (inner_item label (add_labels rp fl)) l end) as -> by done.
  destruct (generic l) as [g|] eqn:Hg.
  { exists l. split; [done|]. by eapply generic_adds. }
  assert (labelled l) as Hlab by (by destruct Hl).
  destruct (IH (default [] (ti_children <$> find_key (lower label) l))) as (ch' & Hch & Hw & HA & HN).
  { destruct (find_key (lower label) l) eqn:Hk; [by eapply children_wf|apply wf_nil]. }
  set (f := inner_item label (add_labels rp fl)). set (t := match find_key (lower label) l with Some (Ti s fl0 leaf _) => Ti s fl0 leaf ch' | None => Ti (Some label) 0 false ch' end).
  assert (f (find_key (lower label) l) = Ok t) as Hf.
  { unfold f, inner_item, t. destruct (find_key (lower label) l) as [[s fl0 leaf ch]|]; cbn in Hch |- *; by rewrite Hch. }
  assert (named t ∧ key t = Some (lower label) ∧ ti_children t = ch' ∧
    (if ti_leaf t then Some (ti_flags t) else None) = t_name [lower label] l) as (T1 & T2 & T3 & T4).
  { unfold t. cbn [t_name]. destruct (find_key (lower label) l) as [[s fl0 leaf ch]|] eqn:Hk.
    - apply find_key_Some in Hk as Hk'. destruct Hk' as [Hin Hkey]. destruct Hlab as [_ Hn]. rewrite Forall_forall in Hn.
      split; [exact (Hn _ Hin)|]. split; [exact Hkey|]. done.
    - by split; [exists label|]. }
  destruct (place_spec label Hlabel f l t Hlab Hf T1 T2) as (l' & -> & Hl' & Hk & Hin). exists l'. split; [done|].
  assert (generic l' = None) as Hg' by (by apply labelled_generic). rewrite <- T3 in HA, HN, Hw.
  split; [exact (wf_replaced l l' t Hl' Hl Hw Hin Hg)|]. pose proof (exact_path label' rest : generic_entry rp = false → _) as He.
  split; intros q; [by apply (inner_above label rp fl l l' t)|by apply (inner_name label rp fl l l' t)].
Qed.

(** ** What a whitelist means *)

(** The first answer of [f] below [n]. *)
Fixpoint first_some (f : nat → option Z) (n : nat) : option Z :=
  match n with 0%nat => None | S n => match first_some f n with Some r => Some r | None => f n end end.

Lemma first_some_ext f g n : (∀ i, (i < n)%nat → f i = g i) → first_some f n = first_some g n.
Proof.
  induction n as [|n IH]; intros He; cbn; [done|]. rewrite IH by (intros; apply He; lia). by rewrite He by lia.
Qed.

Lemma first_some_none f n : first_some f n = None ↔ ∀ i, (i < n)%nat → f i = None.
Proof.
  induction n as [|n IH]; cbn; [split; [lia|done]|]. destruct (first_some f n) as [r|].
  - split; [done|]. intros H. destruct IH as [_ IH]. exfalso. enough (Some r = None) by done. apply IH. intros. apply H. lia.
  - split; [|intros H; apply H; lia]. intros Hn i Hi. destruct (decide (i = n)) as [->|]; [done|]. apply IH; [done|lia].
Qed.

Lemma first_some_at f n m r : (m < n)%nat → (∀ i, (i < m)%nat → f i = None) → f m = Some r → first_some f n = Some r.
Proof.
  intros Hm Hb Hr. induction n as [|n IH]; [lia|]. cbn. destruct (decide (m = n)) as [->|].
  - rewrite (proj2 (first_some_none f n)); done.
  - rewrite IH; [done|lia].
Qed.

(** The names and the generic names that are allowed. *)
Record whitelist := Whitelist { generics : gmap path Z; names : gmap path Z }.

(** The generic name, the highest one, strictly above a path. *)
Definition above (g : gmap path Z) (p : path) : option Z := first_some (λ n, g !! take n p) (length p).

Definition allow (W : whitelist) (p : path) (gen : bool) (fl : Z) : whitelist :=
  if above (generics W) p then W
  else if gen then
    Whitelist (<[p := fl]> (filter (λ '(q, _), ¬ below p q) (generics W))) (filter (λ '(q, _), ¬ below p q) (names W))
  else Whitelist (generics W) (<[p := Z.lor (default 0 (names W !! p)) fl]> (names W)).

Lemma below_take p q : below p q ↔ ∃ n, (n < length q)%nat ∧ p = take n q.
Proof.
  unfold below. split.
  - intros [[s ->] Hne]. exists (length p). rewrite take_app_length, length_app. split; [|done]. destruct s; [|cbn; lia].
    by rewrite app_nil_r in Hne.
  - intros (n & Hn & ->). split; [eexists; symmetry; apply take_drop|]. intros He. apply (f_equal length) in He. rewrite length_take in He. lia.
Qed.

Lemma above_allow W p fl q :
  above (generics W) p = None →
  above (generics (allow W p true fl)) q = if decide (below p q) then Some fl else above (generics W) q.
Proof.
  intros Hp. unfold allow. rewrite Hp. cbn [generics]. unfold above in *. pose proof (proj1 (first_some_none _ _) Hp) as Hp'. cbn in Hp'.
  destruct (decide (below p q)) as [Hb|Hb].
  - apply below_take in Hb as (m & Hm & ->). apply (first_some_at _ _ m); [done| |by rewrite lookup_insert_eq].
    intros i Hi. rewrite lookup_insert_ne.
    + apply map_lookup_filter_None. left. specialize (Hp' i). rewrite take_take, length_take, !Nat.min_l in Hp' by lia. by apply Hp'.
    + intros He. apply (f_equal length) in He. rewrite !length_take in He. lia.
  - apply first_some_ext. intros i Hi. assert (p ≠ take i q) as Hne by (intros ->; apply Hb, below_take; by exists i).
    rewrite lookup_insert_ne by done. destruct (generics W !! take i q) as [z|] eqn:Hz.
    + apply map_lookup_filter_Some_2; [done|]. intros [Hpre _]. apply Hb. apply below_take. destruct Hpre as [s Hs].
      exists (length p). assert (length p <= i)%nat as Hl. { apply (f_equal length) in Hs. rewrite length_take, length_app in Hs. lia. }
      split; [lia|]. apply (f_equal (take (length p))) in Hs. rewrite take_app_length, take_take, Nat.min_l in Hs; done.
    + by apply map_lookup_filter_None_2; left.
Qed.

(** What is allowed for a path, and what an entry is for. *)
Definition allowed (W : whitelist) (q : path) : option Z := match above (generics W) q with Some fl => Some fl | None => names W !! q end.
Definition matches (p : path) (gen : bool) (q : path) : Prop := if gen then below p q else q = p.

Lemma above_below g p q fl : above g p = Some fl → below p q ∨ q = p → above g q = Some fl.
Proof.
  intros Ha [Hb| ->]; [|done]. apply below_take in Hb as (m & Hm & ->). unfold above in *. rewrite length_take, Nat.min_l in Ha by lia.
  rewrite (first_some_ext _ (λ n, g !! take n q)) in Ha by (intros i Hi; by rewrite take_take, Nat.min_l by lia).
  clear -Ha Hm. induction Hm as [|n Hm IH]; cbn; [by rewrite Ha|by rewrite IH].
Qed.

(** An entry adds what it matches to what is allowed, and takes nothing away. *)
Lemma allowed_allow W p gen fl q : is_Some (allowed (allow W p gen fl) q) ↔ is_Some (allowed W q) ∨ matches p gen q.
Proof.
  unfold matches. destruct (above (generics W) p) as [z|] eqn:Ha.
  { unfold allow. rewrite Ha. split; [by left|]. intros [?|Hm]; [done|]. unfold allowed. rewrite (above_below _ p q z Ha); [done|].
    destruct gen; [by left|by right]. }
  unfold allowed. destruct gen.
  - rewrite above_allow by done. destruct (decide (below p q)) as [Hb|Hb]; [naive_solver|]. unfold allow. rewrite Ha. cbn [names].
    destruct (above (generics W) q); [naive_solver|].
    assert (filter (λ '(q, _), ¬ below p q) (names W) !! q = names W !! q) as ->; [|naive_solver].
    destruct (names W !! q) eqn:Hn; [by apply map_lookup_filter_Some_2|by apply map_lookup_filter_None_2; left].
  - unfold allow. rewrite Ha. cbn [generics names]. destruct (above (generics W) q); [naive_solver|]. destruct (decide (q = p)) as [->|Hne].
    + rewrite lookup_insert_eq. naive_solver.
    + rewrite lookup_insert_ne by done. naive_solver.
Qed.

(** *** The tree of a file *)

Definition represents (l : list tree_item) (W : whitelist) : Prop :=
  wf_list l ∧ (∀ q, t_above q l = above (generics W) q) ∧ (∀ q, t_name q l = names W !! q).

Lemma represents_empty : represents [] (Whitelist ∅ ∅).
Proof.
  split; [apply wf_nil|]. split; intros q; [rewrite t_above_nil|rewrite t_name_nil]; symmetry; [|apply lookup_empty].
  apply first_some_none. intros. apply lookup_empty.
Qed.

Lemma adds_represents rp fl l l' W :
  represents l W → adds rp fl l l' → represents l' (allow W (entry_path rp) (generic_entry rp) fl).
Proof.
  intros (Hl & HA & HN) (Hl' & HA' & HN'). split; [done|]. set (p := entry_path rp) in *. set (gen := generic_entry rp) in *. clearbody p gen.
  split; intros q; [rewrite HA'; unfold above_after|rewrite HN'; unfold name_after]; rewrite HA; destruct (above (generics W) p) eqn:Ha.
  - unfold allow. rewrite Ha. apply HA.
  - rewrite HA. destruct gen; cbn [andb].
    + rewrite above_allow by done. destruct (decide (below p q)); [by rewrite bool_decide_true|by rewrite bool_decide_false].
    + unfold allow. by rewrite Ha.
  - unfold allow. rewrite Ha. apply HN.
  - unfold allow. rewrite Ha, HN. destruct gen; cbn [names].
    + destruct (decide (below p q)) as [Hb|Hb].
      * symmetry. apply map_lookup_filter_None_2. right. naive_solver.
      * symmetry. destruct (names W !! q) eqn:Hn; [by apply map_lookup_filter_Some_2|by apply map_lookup_filter_None_2; left].
    + destruct (decide (q = p)) as [->|Hne]; [by rewrite lookup_insert_eq|by rewrite lookup_insert_ne].
Qed.

(** The path of a name, and that of an entry: the labels under the star. *)
Definition name_path (name : bytes) : path := canonical (rev (split_on 46 name)).
Definition star (name : bytes) : bool := bool_decide (head name = Some 42).
Definition base (name : bytes) : path := canonical (rev (if star name then tail (split_on 46 name) else split_on 46 name)).

Lemma split_on_head name : ∃ l ls, split_on 46 name = l :: ls ∧ bool_decide (head l = Some 42) = star name.
Proof.
  unfold star. destruct name as [|c name]; cbn; [by exists [], []|]. case_decide as Hc.
  - subst. by exists [], (split_on 46 name).
  - destruct (split_on 46 name) as [|t l]; by eexists _, _.
Qed.

Lemma entry_path_rev l ls :
  entry_path (rev (l :: ls)) = canonical (rev (if bool_decide (head l = Some 42) then ls else l :: ls)) ∧
  generic_entry (rev (l :: ls)) = bool_decide (head l = Some 42).
Proof.
  cbn [rev]. assert (∀ r, entry_path (r ++ [l]) = canonical (if bool_decide (head l = Some 42) then r else r ++ [l]) ∧
    generic_entry (r ++ [l]) = bool_decide (head l = Some 42)) as H; [|destruct (H (rev ls)) as [-> ->]; split; [by case_bool_decide|done]].
  induction r as [|x r [IH1 IH2]]; cbn [app entry_path generic_entry].
  - split; [|done]. destruct (decide (head l = Some 42)); [by rewrite bool_decide_true|by rewrite bool_decide_false].
  - destruct (r ++ [l]) as [|y r'] eqn:Hr; [by destruct r|]. rewrite IH1, IH2. split; [|done].
    case_bool_decide; [done|]. by rewrite <- Hr.
Qed.

Lemma entry_path_name name :
  entry_path (rev (split_on 46 name)) = base name ∧ generic_entry (rev (split_on 46 name)) = star name.
Proof.
  destruct (split_on_head name) as (l & ls & Hs & Hl). unfold base. rewrite Hs. cbn [tail]. destruct (entry_path_rev l ls) as [-> ->].
  by rewrite Hl.
Qed.

Lemma split_on_cstring name : is_cstring name → Forall is_cstring (split_on 46 name).
Proof.
  induction 1 as [|c name Hc Hn IH]; cbn; [repeat constructor|]. case_decide; [by repeat constructor|].
  destruct IH as [|t l Ht Hl]; repeat constructor; done.
Qed.

Lemma labels_cstring name : is_cstring name → Forall is_cstring (rev (split_on 46 name)).
Proof. intros H. apply List.Forall_rev. by apply split_on_cstring. Qed.

(** ** The files *)

(** The entries of a file and their flags, by line. *)
Fixpoint entries (tokens : list token) (curflag : Z) : list (bytes * Z) :=
  match tokens with
  | [] => []
  | T_newline :: ts => entries ts 0
  | T_ALLOW_IPSEC :: ts => entries ts (Z.lor curflag PI_SEC_NONE)
  | T_ALLOW_OLD_TLS :: ts => entries ts (Z.lor curflag PI_SEC_TLS_OLD)
  | T_FQDN name :: ts => (name, curflag) :: entries ts curflag
  | T_other :: ts => entries ts curflag
  end.

Definition allow_name (W : whitelist) (e : bytes * Z) : whitelist := allow W (base e.1) (star e.1) e.2.
Definition whitelist_of (es : list (bytes * Z)) : whitelist := foldl allow_name (Whitelist ∅ ∅) es.

(** The elements of a file that is read to its end. *)
Definition accepted (t : token) : Prop :=
  match t with
  | T_FQDN name => name ≠ [] ∧ is_cstring name ∧ (length (split_on 46 name) <= AW_TREE_MAXDEPTH)%nat
  | T_other => False
  | _ => True
  end.

Lemma split_on_nonempty sep s : split_on sep s ≠ [].
Proof. destruct s as [|c s]; cbn; [done|]. case_decide; [done|]. by case_match. Qed.

Lemma aw_tree_add_represents name fl l W :
  accepted (T_FQDN name) → represents l W →
  ∃ l', aw_tree_add name fl l = Ok l' ∧ represents l' (allow_name W (name, fl)).
Proof.
  intros (Hne & Hc & Hd) HR. unfold aw_tree_add. rewrite decide_False by done. unfold parse_name. rewrite decide_True by done.
  destruct (add_labels_spec (rev (split_on 46 name)) fl l) as (l' & -> & Ha).
  - intros He. apply (f_equal (@rev _)) in He. rewrite List.rev_involutive in He. by apply split_on_nonempty in He.
  - by apply labels_cstring.
  - apply HR.
  - exists l'. split; [done|]. unfold allow_name. cbn [fst snd]. destruct (entry_path_name name) as [<- <-]. by eapply adds_represents.
Qed.

Lemma aw_confparse_represents ts fl l W :
  Forall accepted ts → represents l W →
  ∃ fl' l', aw_confparse ts fl l = Ok (true, fl', l') ∧ represents l' (foldl allow_name W (entries ts fl)).
Proof.
  intros Hts. revert fl l W. induction Hts as [|t ts Ht Hts IH]; intros fl l W HR; [by eexists _, _|]. cbn [aw_confparse entries].
  destruct t as [| | |name|]; [by apply IH..| |done].
  destruct (aw_tree_add_represents name fl l W Ht HR) as (l' & -> & HR'). cbn [foldl]. by apply IH.
Qed.

Lemma aw_tree_lookup_represents name l W :
  is_cstring name → represents l W →
  aw_tree_lookup name l = Ok (if decide (length (split_on 46 name) <= AW_TREE_MAXDEPTH)%nat then allowed W (name_path name) else None).
Proof.
  intros Hc (Hl & HA & HN). unfold aw_tree_lookup, parse_name. case_decide; [|done].
  rewrite lookup_labels_spec by (try done; by apply labels_cstring). by rewrite HA, HN.
Qed.

Lemma allowed_whitelist es q :
  is_Some (allowed (whitelist_of es) q) ↔ ∃ e, e ∈ es ∧ matches (base e.1) (star e.1) q.
Proof.
  unfold whitelist_of. induction es as [|e es IH] using rev_ind; cbn.
  - split; [|intros (? & ?%elem_of_nil & _); done]. unfold allowed, above. cbn [generics names]. rewrite (proj2 (first_some_none _ _)).
    + by intros [? ?].
    + intros. apply lookup_empty.
  - rewrite foldl_snoc. unfold allow_name at 1. rewrite allowed_allow, IH. setoid_rewrite elem_of_app. setoid_rewrite list_elem_of_singleton.
    naive_solver.
Qed.

(** C17: a configuration file whose names are well formed and of at most ten labels
    is read to its end, and the tree that it leaves decides as the file says: the
    search of a name never fails and answers the flags of the whitelist of the
    entries; a name is found exactly when an entry of the file is for it, either
    its own name, whatever the case of the letters, or a star above it; and a peer
    is authorized when its name is found and either TLS is in place or flags allow
    it to do without. *)
Theorem whitelist_decides ts p :
  Forall accepted ts → is_cstring (pi_diamid p) →
  let W := whitelist_of (entries ts 0) in let q := name_path (pi_diamid p) in
  let found := if decide (length (split_on 46 (pi_diamid p)) <= AW_TREE_MAXDEPTH)%nat then allowed W q else None in
  (is_Some (allowed W q) ↔ ∃ e, e ∈ entries ts 0 ∧ matches (base e.1) (star e.1) q) ∧
  ∃ fl tree, aw_confparse ts 0 [] = Ok (true, fl, tree) ∧ aw_tree_lookup (pi_diamid p) tree = Ok found ∧
  ∃ v, aw_validate tree p = Ok v ∧ v_ret v = None ∧ v_cb2 v = false ∧
    (v_auth v = 1 ↔ ∃ flags, found = Some flags ∧ (pir_cert (runtime p) = true ∨ flags ≠ 0)) ∧
    (v_auth v ≠ 1 → v_auth v = 0).
Proof.
  intros Hts Hc W q found. split; [apply allowed_whitelist|].
  destruct (aw_confparse_represents ts 0 [] (Whitelist ∅ ∅) Hts represents_empty) as (fl & tree & Ht & HR).
  exists fl, tree. split; [done|]. pose proof (aw_tree_lookup_represents (pi_diamid p) tree W Hc HR) as Hl. fold q found in Hl.
  split; [done|]. unfold aw_validate. rewrite Hl. cbn [res_bind]. clearbody found. eexists. split; [done|].
  destruct found as [flags|]; [|naive_solver]. destruct (pir_cert (runtime p)) eqn:Hcert; [naive_solver|].
  destruct (decide (flags = 0)); cbn; naive_solver.
Qed.

(** *** Files *)

(** A peer with an identity, without TLS. *)
Definition peer_named (name : string) : fd_peer :=
  let p := fd_peer_alloc 0 in
  Peer (str name) (pi_endpoints p) (config p) (runtime p) (p_state p) (p_exp_timer p) (p_flags p) (p_events p) (p_psm_timer p)
    (p_tosend p) (p_outthr p) (p_hbh p) (p_sr p) (p_tofailover p) (p_reqin_count p) (p_receiver p) (p_cer p) (p_ini_thr p)
    (p_cnxctx p) (p_cb2 p) (p_cb p).

Definition sample_file : list token :=
  [T_FQDN (str "*.example.net"); T_newline; T_ALLOW_IPSEC; T_FQDN (str "peer.Example.org"); T_FQDN (str "b.a.example.net")].

Lemma whitelist_decides_witness :
  let p := peer_named "PEER.example.org" in
  ∃ fl tree, aw_confparse sample_file 0 [] = Ok (true, fl, tree) ∧ ∃ v, aw_validate tree p = Ok v ∧ v_auth v = 1.
Proof.
  intros p. destruct (whitelist_decides sample_file p) as [_ (fl & tree & Ht & _ & v & Hv & _ & _ & Ha & _)].
  - repeat constructor; by_compute.
  - repeat constructor; by_compute.
  - exists fl, tree. split; [exact Ht|]. exists v. split; [exact Hv|]. apply Ha. exists 1. split; [by vm_compute|by right].
Defined.

(** The names of one peer after files that are read one after the other: the
    flags of the last line of a file without a newline at its end are there for
    the first line of the next one, and a peer that the same file refuses at the
    start is accepted without TLS after a reload. *)
Example reload_inherits_flags :
  let file := [T_FQDN (str "a.net"); T_newline; T_ALLOW_IPSEC; T_FQDN (str "b.net")] in
  ∃ fl tree fl' tree',
    aw_confparse file 0 [] = Ok (true, fl, tree) ∧ sig_hdlr file fl tree = Ok (fl', tree') ∧
    v_auth <$> (match aw_validate tree (peer_named "a.net") with Ok v => Some v | _ => None end) = Some 0 ∧
    v_auth <$> (match aw_validate tree' (peer_named "a.net") with Ok v => Some v | _ => None end) = Some 1.
Proof. eexists _, _, _, _. repeat split; by vm_compute. Qed.

(** A star does not help for a name of eleven labels. *)
Example star_is_not_deep :
  match aw_tree_add (str "*.net") 1 [] with
  | Ok tree =>
      aw_tree_lookup (str "j.i.h.g.f.e.d.c.b.net") tree = Ok (Some 1) ∧ aw_tree_lookup (str "k.j.i.h.g.f.e.d.c.b.net") tree = Ok None
  | _ => False
  end.
Proof. by vm_compute. Qed.

(** Nor is the star for the domain itself, and a name under it keeps no flags. *)
Example star_supersedes :
  match aw_tree_add (str "*.net") 0 [] with
  | Ok tree =>
      aw_tree_lookup (str "net") tree = Ok None ∧ aw_tree_add (str "a.net") 1 tree = Ok tree ∧ aw_tree_lookup (str "a.net") tree = Ok (Some 0)
  | _ => False
  end.
Proof. by vm_compute. Qed.
