(* ===== verification/RtDefault.v ===== *)
(** * Scores by configured rules ([rt_default/rtd_rules.c], [rt_default.c])

    The repository of the rules: for the identities and for the realms an ordered
    list of targets, each with a list of rules for each criterion; how a line of
    the configuration is added, and what a message and its candidates get from it.
    [regcomp] and [regexec] are the calls of the library of regular expressions:
    a pattern is a string.  The lock and the dumps are left out; so is what an
    error in the middle leaves of the scores, since the daemon then drops the
    message. *)

From Stdlib Require Import ZArith Lia String.
From stdpp Require Import base list.
From S2P Require Import Prelude Ostr CString RtData DictTypes Msg MsgBuf MsgDict MsgTree CoreMsg.

(** [enum rtd_crit_type], [enum rtd_targ_type] *)
Definition RTD_CRI_ALL : nat := 0.
Definition RTD_CRI_OH : nat := 1.
Definition RTD_CRI_OR : nat := 2.
Definition RTD_CRI_DH : nat := 3.
Definition RTD_CRI_DR : nat := 4.
Definition RTD_CRI_UN : nat := 5.
Definition RTD_CRI_SI : nat := 6.
Definition RTD_CRI_MAX : nat := 7.
Definition RTD_TAR_ID : nat := 0.
Definition RTD_TAR_REALM : nat := 1.
Definition RTD_TAR_MAX : nat := 2.
Definition RTD_CRIT_REG : Z := 1.
Definition RTD_TARG_REG : Z := 2.

(** A line of the configuration: the arguments of [rtd_add]. *)
Record line := Line { ln_ct : nat; ln_criteria : option bytes; ln_tt : nat; ln_target : bytes; ln_score : Z; ln_flags : Z }.

(** [plain] is NULL in the rules without a criterion. *)
Record match_data := MatchData { is_regex : bool; plain : option bytes }.
Record rule := Rule { r_md : match_data; r_score : Z }.
Record target := Target { t_md : match_data; t_rules : list (list rule) }.

#[export] Instance match_data_eq_dec : EqDecision match_data.
Proof. solve_decision. Defined.
#[export] Instance rule_eq_dec : EqDecision rule.
Proof. solve_decision. Defined.
#[export] Instance target_eq_dec : EqDecision target.
Proof. solve_decision. Defined.

(** [rtd_init]: no targets, and the models of the AVPs of the criteria, the first
    one of which has none. *)
Definition no_targets : list (list target) := replicate RTD_TAR_MAX [].

Definition criterion_names : list bytes :=
  [str "Origin-Host"; str "Origin-Realm"; str "Destination-Host"; str "Destination-Realm"; str "User-Name"; str "Session-Id"].

Definition rtd_init {D} `{!MsgDictionary D} (d : D) : res (list (option obj)) :=
  (fix go names :=
     match names with
     | [] => Ok []
     | n :: names => let* o := avp_by_name d n in let* l := go names in Ok (o :: l)
     end) criterion_names.

(** The search for the place of a string, among the expressions of its kind: what
    stays in front, the element of that string, and what is behind. *)
Fixpoint md_search {A} (md : A → match_data) (regex : bool) (str : bytes) (l : list A) : list A * option A * list A :=
  match l with
  | [] => ([], None, [])
  | cur :: l' =>
      let continue := let '(a, f, b) := md_search md regex str l' in (cur :: a, f, b) in
      if regex && negb (is_regex (md cur)) then ([], None, l)
      else if negb regex && is_regex (md cur) then continue
      else
        let cmp := strcmp (default [] (plain (md cur))) str in
        if decide (cmp < 0) then continue else if decide (cmp = 0) then ([], Some cur, l') else ([], None, l)
  end.

Section rules.
Context (regcomp : bytes → bool) (regexec : bytes → bytes → res bool).

Definition new_target (str : bytes) (regex : bool) : option target :=
  if regex && negb (regcomp str) then None else Some (Target (MatchData regex (Some str)) (replicate RTD_CRI_MAX [])).

Definition new_rule (str : option bytes) (regex : bool) (score : Z) : option rule :=
  if regex && negb (regcomp (default [] str)) then None else Some (Rule (MatchData regex str) score).

(** The rules of a target with a criterion more: merged, or at its place; at the
    end when there is no criterion. *)
Definition add_rule (ct : nat) (criteria : option bytes) (regex : bool) (score : Z) (l : list rule) : option (list rule) :=
  if decide (ct = RTD_CRI_ALL) then (λ r, l ++ [r]) <$> new_rule None false score
  else
    match md_search r_md regex (default [] criteria) l with
    | (a, Some r, b) => Some (a ++ Rule (r_md r) (r_score r + score) :: b)
    | (a, None, b) => (λ r, a ++ r :: b) <$> new_rule criteria regex score
    end.

(** The repository afterwards, and the error if there is one: a target whose rule
    cannot be made stays. *)
Definition rtd_add (ln : line) (TARGETS : list (list target)) : list (list target) * option errno :=
  let ct := ln_ct ln in let tt := ln_tt ln in
  if bool_decide (ct < RTD_CRI_MAX)%nat && (bool_decide (ct = RTD_CRI_ALL) || bool_decide (is_Some (ln_criteria ln))) &&
     bool_decide (tt < RTD_TAR_MAX)%nat then
    let '(a, found, b) := md_search t_md (has (ln_flags ln) RTD_TARG_REG) (ln_target ln) (default [] (TARGETS !! tt)) in
    match (match found with Some trg => Some trg | None => new_target (ln_target ln) (has (ln_flags ln) RTD_TARG_REG) end) with
    | None => (TARGETS, Some ENOMEM)
    | Some trg =>
        match add_rule ct (ln_criteria ln) (has (ln_flags ln) RTD_CRIT_REG) (ln_score ln) (default [] (t_rules trg !! ct)) with
        | None => (<[tt := a ++ trg :: b]> TARGETS, Some ENOMEM)
        | Some rules => (<[tt := a ++ Target (t_md trg) (<[ct := rules]> (t_rules trg)) :: b]> TARGETS, None)
        end
    end
  else (TARGETS, Some EINVAL).

(** The actions of the parser for the lines of a file, until one fails. *)
Fixpoint rtd_conf_handle (lines : list line) (TARGETS : list (list target)) : list (list target) * option errno :=
  match lines with
  | [] => (TARGETS, None)
  | ln :: lines => match rtd_add ln TARGETS with (T, None) => rtd_conf_handle lines T | (T, Some _) => (T, Some EINVAL) end
  end.

Definition rtd_conf_reload (lines : list line) (TARGETS : list (list target)) : list (list target) :=
  match rtd_conf_handle lines no_targets with (_, Some _) => TARGETS | (T, None) => T end.

(** *** The search *)

(** "always >0 for regex non-match situations" *)
Definition compare_match (str : bytes) (md : match_data) : res Z :=
  match plain md with
  | None => Crash
  | Some p => if is_regex md then let* m := regexec p str in Ok (if m : bool then 0 else 1) else Ok (strncasecmp (length str) str p)
  end.

(** The loops over [get_next_match]: [f] for each element that matches, until the
    list ends or a string behind [str] is met. *)
Fixpoint for_matches {A B} (md : A → match_data) (str : bytes) (f : A → B → res B) (l : list A) (b : B) : res B :=
  match l with
  | [] => Ok b
  | x :: l =>
      let* cmp := compare_match str (md x) in
      if decide (cmp = 0) then let* b := f x b in for_matches md str f l b
      else if decide (cmp < 0) then Ok b
      else for_matches md str f l b
  end.

Definition each_match {A B} (md : A → match_data) (str : bytes) (f : A → B → res B) (l : list A) (b : B) : res B :=
  check bool_decide (str ≠ []) in for_matches md str f l b.

(** *** A message *)

Context {D : Type} `{!MsgDictionary D} (d : D) (fuel : nat) (AVP_MODELS : nat → obj).

(** [parsed_msg_avp], and the AVPs of the message. *)
Inductive status := NOT_RESOLVED_YET | NOT_FOUND | FOUND (avp : avp_value).
Record search_state := SearchState { s_avps : list avp; s_parsed : list status }.

(** "if needed, find the required data in the message" *)
Definition resolve (j : nat) (s : search_state) : res (status * search_state) :=
  match s_parsed s !! j with
  | None => Crash
  | Some NOT_RESOLVED_YET =>
      let* (i, l) := fd_msg_search_avp d fuel (s_avps s) (AVP_MODELS j) true in
      let st := match (i ≫= λ i, l !! i) ≫= avp_val with Some v => FOUND v | None => NOT_FOUND end in
      Ok (st, SearchState l (<[j := st]> (s_parsed s)))
  | Some st => Ok (st, s)
  end.

(** The rules of the [j]-th criterion of a target: the score of the candidate. *)
Definition apply_criterion (j : nat) (t : target) (x : search_state * Z) : res (search_state * Z) :=
  match default [] (t_rules t !! j) with
  | [] => Ok x
  | rules =>
      let '(s, score) := x in
      let* (st, s) := resolve j s in
      match st with
      | FOUND (OS v) => let* score := each_match r_md v (λ r n, Ok (n + r_score r)) rules score in Ok (s, score)
      | FOUND (NUM _) => Crash
      | _ => Ok (s, score)
      end
  end.

Fixpoint apply_criteria (js : list nat) (t : target) (x : search_state * Z) : res (search_state * Z) :=
  match js with [] => Ok x | j :: js => let* x := apply_criterion j t x in apply_criteria js t x end.

(** "First, apply all rules of criteria RTD_CRI_ALL", then the others. *)
Definition apply_target (t : target) (x : search_state * Z) : res (search_state * Z) :=
  let '(s, score) := x in
  apply_criteria (seq 1 (RTD_CRI_MAX - 1)) t (s, foldl (λ n r, n + r_score r) score (default [] (t_rules t !! RTD_CRI_ALL))).

(** One candidate; its realm is read as a string. *)
Definition score_candidate (TARGETS : list (list target)) (c : rtd_candidate) (s : search_state) : res (search_state * rtd_candidate) :=
  match c_realm c with
  | None => Crash
  | Some realm =>
      let* x := each_match t_md (c_diamid c) apply_target (default [] (TARGETS !! RTD_TAR_ID)) (s, c_score c) in
      let* (s, score) := each_match t_md realm apply_target (default [] (TARGETS !! RTD_TAR_REALM)) x in
      Ok (s, set_score score c)
  end.

Fixpoint score_candidates (TARGETS : list (list target)) (l : list rtd_candidate) (s : search_state)
    : res (search_state * list rtd_candidate) :=
  match l with
  | [] => Ok (s, [])
  | c :: l =>
      let* (s, c) := score_candidate TARGETS c s in
      let* (s, l) := score_candidates TARGETS l s in Ok (s, c :: l)
  end.

(** The AVPs of the message, as they are left, and the candidates. *)
Definition rtd_process (TARGETS : list (list target)) (avps : list avp) (candidates : list rtd_candidate)
    : res (list avp * list rtd_candidate) :=
  let* (s, l) := score_candidates TARGETS candidates (SearchState avps (replicate RTD_CRI_MAX NOT_RESOLVED_YET)) in
  Ok (s_avps s, l).

Definition rtd_out (TARGETS : list (list target)) (avps : list avp) (candidates : list rtd_candidate)
    : res (list avp * list rtd_candidate) :=
  match candidates with [] => Ok (avps, []) | _ => rtd_process TARGETS avps candidates end.
End rules.
