(* ===== verification/RtDefaultSpec.v ===== *)
(** * What the configured rules add to the scores

    The repository of rules against the lines of its file: each candidate gets the
    sum of the scores of the lines whose target matches it and whose criterion
    matches the message, whatever the order of the lines and of the lists. *)

From Stdlib Require Import ZArith Lia String.
From stdpp Require Import base list.
From S2P Require Import Prelude Ostr CString RtData DictTypes Msg MsgBuf MsgDict MsgTree CoreMsg CapabSpec RtExamples RtDefault.

(** ** Sums *)

Definition zsum {A} (f : A → Z) (l : list A) : Z := foldr (λ x n, f x + n) 0 l.

Lemma zsum_app {A} (f : A → Z) l k : zsum f (l ++ k) = zsum f l + zsum f k.
Proof. induction l as [|x l IH]; cbn; [done|]. fold (zsum f (l ++ k)) (zsum f l). lia. Qed.

Lemma zsum_cons {A} (f : A → Z) x l : zsum f (x :: l) = f x + zsum f l.
Proof. done. Qed.

Lemma zsum_ext {A} (f g : A → Z) l : (∀ x, x ∈ l → f x = g x) → zsum f l = zsum g l.
Proof.
  induction l as [|x l IH]; intros H; [done|]. rewrite !zsum_cons, IH; [f_equal; apply H; by left|]. intros. apply H. by right.
Qed.

Lemma zsum_zero {A} (f : A → Z) l : (∀ x, x ∈ l → f x = 0) → zsum f l = 0.
Proof. intros H. rewrite (zsum_ext f (λ _, 0)) by done. clear H. induction l; [done|]. by rewrite zsum_cons. Qed.

Lemma zsum_filter {A} (P : A → Prop) `{∀ x, Decision (P x)} (f : A → Z) l : zsum f (filter P l) = zsum (λ x, if decide (P x) then f x else 0) l.
Proof. induction l as [|x l IH]; [done|]. rewrite filter_cons, zsum_cons. destruct (decide (P x)); [rewrite zsum_cons|]; lia. Qed.

Lemma foldl_zsum {A} (f : A → Z) l n : foldl (λ n x, n + f x) n l = n + zsum f l.
Proof. revert n. induction l as [|x l IH]; intros n; cbn; [lia|]. rewrite IH. fold (zsum f l). lia. Qed.

Lemma filter_none {A} (P : A → Prop) `{∀ x, Decision (P x)} l : (∀ x, x ∈ l → ¬ P x) → filter P l = [].
Proof.
  induction l as [|x l IH]; intros Hn; [done|]. rewrite filter_cons_False by (apply Hn; by left). apply IH. intros. apply Hn. by right.
Qed.

(** ** The order of the lists *)

(** The regular expressions first, then by the strings. *)
Definition md_cmp (x y : match_data) : Z :=
  match is_regex x, is_regex y with
  | true, false => -1
  | false, true => 1
  | _, _ => strcmp (default [] (plain x)) (default [] (plain y))
  end.

#[export] Instance md_cmp_order : CmpOrder md_cmp.
Proof.
  split; unfold md_cmp.
  - intros x. destruct (is_regex x); apply cmp_refl.
  - intros x y. destruct (is_regex x), (is_regex y); first [apply cmp_sym|lia].
  - intros x y z. destruct (is_regex x), (is_regex y), (is_regex z); first [apply cmp_trans|lia].
Qed.

(** The strings of the configuration: plain ones are in lower case. *)
Definition good_md (x : match_data) : Prop :=
  ∃ p, plain x = Some p ∧ is_cstring p ∧ (is_regex x = false → lower p = p).

Definition ordered {A} (md : A → match_data) (l : list A) : Prop :=
  Increasing (λ x y, md_cmp (md x) (md y)) l ∧ Forall (λ x, good_md (md x)) l.

Lemma ordered_nil {A} (md : A → match_data) : ordered md [].
Proof. split; constructor. Qed.

Lemma ordered_cons_inv {A} (md : A → match_data) x l :
  ordered md (x :: l) → good_md (md x) ∧ Forall (λ y, md_cmp (md x) (md y) < 0) l ∧ ordered md l.
Proof. intros [Hs Hg]. inversion Hs; subst. inversion Hg; subst. by repeat split. Qed.

Lemma Increasing_fmap {A} (md : A → match_data) l :
  Increasing (λ x y, md_cmp (md x) (md y)) l ↔ Increasing md_cmp (md <$> l).
Proof.
  induction l as [|x l IH]; cbn; [split; constructor|]. split; inversion 1; subst; constructor; rewrite ?Forall_fmap in *; first [by apply IH|assumption].
Qed.

Definition opt_list {A} (o : option A) : list A := match o with Some x => [x] | None => [] end.

Section search.
Context {A : Type} (md : A → match_data) (regex : bool) (str : bytes).
Let new := MatchData regex (Some str).

(** The place of an expression: it splits the list, and what is found has that
    expression. *)
Lemma md_search_spec l a f b :
  ordered md l → md_search md regex str l = (a, f, b) →
  l = a ++ opt_list f ++ b ∧ Forall (λ x, md_cmp (md x) new < 0) a ∧
  match f with Some x => md x = new | None => Forall (λ x, md_cmp new (md x) < 0) b end.
Proof.
  revert a. induction l as [|x l IH]; intros a Hl; cbn [md_search]; [intros [= <- <- <-]; by repeat constructor|].
  apply ordered_cons_inv in Hl as ((p & Hp & _) & Hx & Hl). pose proof (λ a, IH a Hl) as IH'. clear IH. rename IH' into IH.
  assert (∀ a', md_cmp (md x) new < 0 → (let '(a, f, b) := md_search md regex str l in (x :: a, f, b)) = (a', f, b) →
    x :: l = a' ++ opt_list f ++ b ∧ Forall (λ x, md_cmp (md x) new < 0) a' ∧
    match f with Some x => md x = new | None => Forall (λ x, md_cmp new (md x) < 0) b end) as Hcont.
  { intros a' Hlt. destruct (md_search md regex str l) as [[a1 f1] b1]. intros [= <- -> ->]. destruct (IH a1 eq_refl) as (-> & Ha & Hf).
    split; [done|]. by repeat constructor. }
  assert (md_cmp new (md x) < 0 → ([], None, x :: l) = (a, f, b) →
    x :: l = a ++ opt_list f ++ b ∧ Forall (λ x, md_cmp (md x) new < 0) a ∧
    match f with Some x => md x = new | None => Forall (λ x, md_cmp new (md x) < 0) b end) as Hstop.
  { intros Hlt [= <- <- <-]. split; [done|]. split; [constructor|]. constructor; [done|]. eapply Forall_impl; [exact Hx|].
    intros y Hy. exact (cmp_lt_trans md_cmp _ _ _ Hlt Hy). }
  destruct (decide (is_regex (md x) = regex)) as [Hr|Hr].
  - replace (regex && negb (is_regex (md x))) with false by (rewrite Hr; by destruct regex).
    replace (negb regex && is_regex (md x)) with false by (rewrite Hr; by destruct regex).
    assert (md_cmp (md x) new = strcmp p str ∧ md_cmp new (md x) = strcmp str p) as [H1 H2].
    { unfold md_cmp. cbn [is_regex plain]. rewrite Hr, Hp. by destruct regex. }
    rewrite Hp. cbn. case_decide as C1; [apply Hcont; lia|]. case_decide as C2; [|apply Hstop; rewrite H2; apply (cmp_gt_lt strcmp); lia].
    intros [= <- <- <-]. apply strcmp_eq in C2. subst. repeat split; [constructor|]. unfold new. destruct (md x). cbn in *. by subst.
  - destruct regex, (is_regex (md x)) eqn:Hx'; try done; cbn [andb negb].
    + apply Hstop. unfold md_cmp. by rewrite Hx'.
    + apply Hcont. unfold md_cmp. by rewrite Hx'.
Qed.

(** The list with a new element there, or with the element found replaced by one
    of the same expression. *)
Lemma md_search_new l a b x :
  ordered md l → md_search md regex str l = (a, None, b) → md x = new → good_md new → ordered md (a ++ x :: b).
Proof.
  intros Hl Hs Hx Hn. destruct (md_search_spec _ _ _ _ Hl Hs) as (-> & Ha & Hb). destruct Hl as [Hi Hg]. cbn [opt_list app] in *. split.
  - apply StronglySorted_mid; [done| |]; rewrite Hx; done.
  - apply Forall_app in Hg as [? ?]. apply Forall_app. split; [done|]. constructor; [by rewrite Hx|done].
Qed.

Lemma md_search_found l a b x x' :
  ordered md l → md_search md regex str l = (a, Some x, b) → md x' = md x → ordered md (a ++ x' :: b).
Proof.
  intros Hl Hs Hx. destruct (md_search_spec _ _ _ _ Hl Hs) as (-> & Ha & Hb). destruct Hl as [Hi Hg]. cbn [opt_list app] in *.
  split.
  - apply Increasing_fmap. apply Increasing_fmap in Hi. rewrite !fmap_app in *. cbn in *. by rewrite Hx.
  - apply Forall_app in Hg as [? Hb']. apply Forall_cons in Hb' as [? ?]. apply Forall_app. split; [done|]. constructor; [by rewrite Hx|done].
Qed.
End search.

(** ** Matching *)

Section scores.
Context (regcomp : bytes → bool) (regexec : bytes → bytes → res bool).
Context (Hexec : ∀ p s, ∃ b, regexec p s = Ok b).

(** A string matches: the regular expression says so, or it is, up to case, the
    beginning of the plain string. *)
Definition matches (str : bytes) (md : match_data) : bool :=
  let p := default [] (plain md) in
  if is_regex md then match regexec p str with Ok b => b | _ => false end else bool_decide (strncasecmp (length str) str p = 0).

Fixpoint fold_res {A B} (f : A → B → res B) (l : list A) (b : B) : res B :=
  match l with [] => Ok b | x :: l => let* b := f x b in fold_res f l b end.

Lemma compare_match_spec str x : good_md x →
  ∃ c, compare_match regexec str x = Ok c ∧ (c = 0 ↔ matches str x = true) ∧
    (c < 0 → is_regex x = false ∧ strncasecmp (length str) str (default [] (plain x)) < 0).
Proof.
  intros (p & Hp & _). unfold compare_match, matches. rewrite Hp. cbn. destruct (is_regex x).
  - destruct (Hexec p str) as [m ->]. exists (if m then 0 else 1). destruct m; (split; [done|]); (split; [|lia]); split; done.
  - eexists. split; [done|]. rewrite bool_decide_eq_true. done.
Qed.

(** Behind a string that is greater none matches. *)
Lemma behind_no_match str x y :
  Forall (λ x, 0 <= x) str → good_md x → good_md y → md_cmp x y < 0 → is_regex x = false →
  strncasecmp (length str) str (default [] (plain x)) < 0 → matches str y = false.
Proof.
  intros Hstr (p & Hp & Hc & Hlow) (p' & Hp' & Hc' & Hlow'). unfold md_cmp, matches. intros Hlt Hr. rewrite Hr, Hp, Hp' in *. cbn in *.
  destruct (is_regex y); [lia|]. intros Hs.
  pose proof (strncasecmp_mono (length str) str p p' Hstr Hc' (Hlow eq_refl) (Hlow' eq_refl) Hlt Hs). apply bool_decide_eq_false. lia.
Qed.

(** The loop takes each element that matches: where it stops, none is left. *)
Lemma for_matches_spec {A B} (md : A → match_data) str (f : A → B → res B) l b :
  ordered md l → Forall (λ x, 0 <= x) str →
  for_matches regexec md str f l b = fold_res f (filter (λ x, matches str (md x) = true) l) b.
Proof.
  intros Hl Hstr. revert b. induction l as [|x l IH]; intros b; [done|].
  apply ordered_cons_inv in Hl as (Hg & Hx & Hl). specialize (IH Hl).
  cbn [for_matches]. destruct (compare_match_spec str (md x) Hg) as (c & -> & Hz & Hlt). cbn [res_bind].
  destruct (decide (c = 0)) as [E|E].
  - rewrite filter_cons_True by (by apply Hz). cbn [fold_res]. destruct (f x b); cbn; [apply IH|done..].
  - rewrite filter_cons_False by (by rewrite <- Hz). case_decide as C; [|apply IH]. destruct (Hlt C) as [Hr Hs].
    assert (filter (λ y, matches str (md y) = true) l = []) as ->; [|done].
    apply filter_none. intros y Hy. destruct Hl as [_ Hgl]. rewrite Forall_forall in Hx, Hgl.
    rewrite (behind_no_match str (md x) (md y)); auto.
Qed.

(** Loops that only add. *)
Lemma fold_res_add {A} (w : A → Z) l n : fold_res (λ x n, Ok (n + w x)) l n = Ok (n + zsum w l).
Proof. revert n. induction l as [|x l IH]; intros n; cbn; [f_equal; lia|]. rewrite IH. fold (zsum w l). f_equal. lia. Qed.

Lemma fold_res_inv {A S} (I : S → Prop) (f : A → S * Z → res (S * Z)) (w : A → Z) l s n :
  I s → (∀ x s n, x ∈ l → I s → ∃ s', f x (s, n) = Ok (s', n + w x) ∧ I s') →
  ∃ s', fold_res f l (s, n) = Ok (s', n + zsum w l) ∧ I s'.
Proof.
  revert s n. induction l as [|x l IH]; intros s n Hs Hf; cbn.
  - exists s. split; [do 2 f_equal; lia|done].
  - destruct (Hf x s n) as (s1 & -> & Hs1); [by left|done|]. cbn [res_bind]. destruct (IH s1 (n + w x) Hs1) as (s2 & -> & Hs2).
    { intros. apply Hf; [by right|done]. }
    exists s2. split; [|done]. fold (zsum w l). do 2 f_equal. lia.
Qed.

(** ** What a repository is worth *)

Definition wf_target (t : target) : Prop :=
  length (t_rules t) = RTD_CRI_MAX ∧ ∀ j l, t_rules t !! j = Some l → j ≠ RTD_CRI_ALL → ordered r_md l.

Definition wf_targets (T : list (list target)) : Prop :=
  length T = RTD_TAR_MAX ∧ ∀ l, l ∈ T → ordered t_md l ∧ Forall wf_target l.

Context (val : nat → option bytes).

(** The sum of the rules of a target for a message, and of the repository for a
    candidate. *)
Definition rule_weight (j : nat) (r : rule) : Z :=
  if decide (j = RTD_CRI_ALL) then r_score r
  else match val j with Some v => if matches v (r_md r) then r_score r else 0 | None => 0 end.
Definition criterion_weight (t : target) (j : nat) : Z := zsum (rule_weight j) (default [] (t_rules t !! j)).
Definition target_weight (t : target) : Z := zsum (criterion_weight t) (seq 0 RTD_CRI_MAX).
Definition list_weight (str : bytes) (l : list target) : Z := zsum (λ t, if matches str (t_md t) then target_weight t else 0) l.

Definition cand_str (tt : nat) (c : rtd_candidate) : bytes :=
  if decide (tt = RTD_TAR_ID) then c_diamid c else default [] (c_realm c).
Definition total_weight (T : list (list target)) (c : rtd_candidate) : Z :=
  zsum (λ tt, list_weight (cand_str tt c) (default [] (T !! tt))) (seq 0 RTD_TAR_MAX).

(** ** Additions *)

Definition good_str (regex : bool) (s : bytes) : Prop :=
  is_cstring s ∧ if regex then regcomp s = true else lower s = s.

Definition good_line (ln : line) : Prop :=
  (ln_ct ln < RTD_CRI_MAX)%nat ∧ (ln_tt ln < RTD_TAR_MAX)%nat ∧ good_str (has (ln_flags ln) RTD_TARG_REG) (ln_target ln) ∧
  (ln_ct ln ≠ RTD_CRI_ALL → ∃ s, ln_criteria ln = Some s ∧ good_str (has (ln_flags ln) RTD_CRIT_REG) s).

(** What the line says of a message and a candidate. *)
Definition line_weight (c : rtd_candidate) (ln : line) : Z :=
  if matches (cand_str (ln_tt ln) c) (MatchData (has (ln_flags ln) RTD_TARG_REG) (Some (ln_target ln))) &&
     (bool_decide (ln_ct ln = RTD_CRI_ALL) ||
      match val (ln_ct ln) with
      | Some v => matches v (MatchData (has (ln_flags ln) RTD_CRIT_REG) (ln_criteria ln))
      | None => false
      end)
  then ln_score ln else 0.

Lemma good_str_md regex s : good_str regex s → good_md (MatchData regex (Some s)).
Proof. intros [Hc Hs]. exists s. split; [done|]. split; [done|]. cbn. by intros ->. Qed.

Lemma new_rule_good crit regex n s : crit = Some s → good_str regex s → new_rule regcomp crit regex n = Some (Rule (MatchData regex crit) n).
Proof. intros -> [_ Hs]. unfold new_rule. cbn. destruct regex; [by rewrite Hs|done]. Qed.

Lemma new_target_good regex s : good_str regex s → new_target regcomp s regex = Some (Target (MatchData regex (Some s)) (replicate RTD_CRI_MAX [])).
Proof. intros [_ Hs]. unfold new_target. destruct regex; [by rewrite Hs|done]. Qed.

Definition rule_contribution (ct : nat) (crit : option bytes) (regex : bool) (n : Z) : Z := rule_weight ct (Rule (MatchData regex crit) n).

Lemma rule_contribution_eq ct crit regex n :
  rule_contribution ct crit regex n =
  if bool_decide (ct = RTD_CRI_ALL) || match val ct with Some v => matches v (MatchData regex crit) | None => false end then n else 0.
Proof.
  unfold rule_contribution, rule_weight. cbn [r_md r_score]. destruct (decide (ct = RTD_CRI_ALL)) as [He|He]; [by rewrite bool_decide_true|].
  rewrite bool_decide_false by done. by destruct (val ct).
Qed.

Lemma add_rule_spec ct crit regex n l :
  (ct ≠ RTD_CRI_ALL → ordered r_md l) → (ct ≠ RTD_CRI_ALL → ∃ s, crit = Some s ∧ good_str regex s) →
  ∃ l', add_rule regcomp ct crit regex n l = Some l' ∧ (ct ≠ RTD_CRI_ALL → ordered r_md l') ∧
    zsum (rule_weight ct) l' = zsum (rule_weight ct) l + rule_contribution ct crit regex n.
Proof.
  intros Hl Hc. unfold add_rule, rule_contribution. destruct (decide (ct = RTD_CRI_ALL)) as [->|Hct].
  { eexists. split; [done|]. split; [done|]. rewrite zsum_app, zsum_cons.
    assert (∀ md, rule_weight RTD_CRI_ALL (Rule md n) = n) as Hn by done. rewrite !Hn. cbn. lia. }
  destruct (Hc Hct) as (s & -> & Hg). specialize (Hl Hct). cbn [default from_option id].
  destruct (md_search r_md regex s l) as [[a f] b] eqn:Hs. destruct (md_search_spec _ _ _ _ _ _ _ Hl Hs) as (-> & _ & Hf).
  destruct f as [r|]; cbn [opt_list app] in *.
  - eexists. split; [done|]. split; [intros _; by eapply md_search_found|].
    assert (rule_weight ct (Rule (r_md r) (r_score r + n)) = rule_weight ct r + rule_weight ct (Rule (MatchData regex (Some s)) n)) as He.
    { unfold rule_weight. rewrite !decide_False by done. cbn [r_md r_score]. rewrite Hf. destruct (val ct) as [v|]; [destruct (matches v _)|]; lia. }
    rewrite !zsum_app, !zsum_cons. lia.
  - rewrite (new_rule_good _ _ _ s) by done. eexists. split; [done|]. split.
    + intros _. eapply md_search_new; [done|done|done|by apply good_str_md].
    + rewrite !zsum_app, !zsum_cons. lia.
Qed.

Lemma nil_targets_wf str regex : wf_target (Target (MatchData regex (Some str)) (replicate RTD_CRI_MAX [])).
Proof.
  split; [done|]. intros j l Hj _. apply lookup_replicate in Hj as [-> _]. apply ordered_nil.
Qed.

Lemma no_rules_weight md : target_weight (Target md (replicate RTD_CRI_MAX [])) = 0.
Proof. done. Qed.

Lemma zsum_insert (f : nat → Z) g k n : (k < n)%nat → (∀ j, j ≠ k → g j = f j) → zsum g (seq 0 n) = zsum f (seq 0 n) + (g k - f k).
Proof.
  intros Hk Hne. induction n as [|n IH]; [lia|]. rewrite seq_S, !zsum_app, !zsum_cons. cbn. destruct (decide (k = n)) as [->|].
  - rewrite (zsum_ext g f); [lia|]. intros j Hj. apply Hne. apply elem_of_seq in Hj. lia.
  - rewrite IH, (Hne n) by lia. lia.
Qed.

(** The target with the rules of one criterion changed. *)
Lemma target_insert t ct l' :
  wf_target t → (ct < RTD_CRI_MAX)%nat → (ct ≠ RTD_CRI_ALL → ordered r_md l') →
  let t' := Target (t_md t) (<[ct := l']> (t_rules t)) in
  wf_target t' ∧ target_weight t' = target_weight t + (zsum (rule_weight ct) l' - zsum (rule_weight ct) (default [] (t_rules t !! ct))).
Proof.
  intros [Hlen Hord] Hct Hl'. cbn zeta. split.
  - split; [by rewrite <- Hlen; apply length_insert|]. cbn [t_rules]. intros j l Hj Hne. destruct (decide (j = ct)) as [->|Hj'].
    + rewrite list_lookup_insert_eq in Hj by lia. injection Hj as <-. by apply Hl'.
    + rewrite list_lookup_insert_ne in Hj by done. by eapply Hord.
  - unfold target_weight. rewrite (zsum_insert (criterion_weight t) _ ct) by
      (first [done|intros j Hj; unfold criterion_weight; cbn [t_rules]; by rewrite list_lookup_insert_ne]).
    unfold criterion_weight. cbn [t_rules]. by rewrite list_lookup_insert_eq by lia.
Qed.

(** The target that a line is for, and what the list is without it. *)
Lemma target_place rx str l a f b :
  ordered t_md l → Forall wf_target l → good_str rx str → md_search t_md rx str l = (a, f, b) →
  let md := MatchData rx (Some str) in
  ∃ t, match f with Some trg => Some trg | None => new_target regcomp str rx end = Some t ∧ t_md t = md ∧ wf_target t ∧
    (∀ s, list_weight s l = list_weight s a + list_weight s b + (if matches s md then target_weight t else 0)) ∧
    (∀ t', t_md t' = md → wf_target t' → ordered t_md (a ++ t' :: b) ∧ Forall wf_target (a ++ t' :: b)).
Proof.
  intros Hord Hwf Hg Hs md. destruct (md_search_spec _ _ _ _ _ _ _ Hord Hs) as (El & _ & Hf).
  assert (Forall wf_target a ∧ Forall wf_target b) as [Ha Hb].
  { rewrite El, !Forall_app in Hwf. by destruct Hwf as (? & _ & ?). }
  assert (∀ t', wf_target t' → Forall wf_target (a ++ t' :: b)) as Hall by (intros; apply Forall_app; split; [done|by constructor]).
  destruct f as [t|]; cbn [opt_list app] in El.
  - exists t. split; [done|]. split; [done|]. split; [|split].
    + rewrite El, Forall_app, Forall_cons in Hwf. apply Hwf.
    + intros s. rewrite El. unfold list_weight. rewrite !zsum_app, zsum_cons, Hf. unfold md. lia.
    + intros t' Ht' Hw'. split; [|by apply Hall]. eapply md_search_found; [done|done|by rewrite Ht', Hf].
  - rewrite new_target_good by done. eexists. split; [done|]. split; [done|]. split; [apply nil_targets_wf|]. split.
    + intros s. rewrite El, no_rules_weight. unfold list_weight. rewrite zsum_app. destruct (matches _ _); lia.
    + intros t' Ht' Hw'. split; [|by apply Hall]. eapply md_search_new; [done|done|done|by apply good_str_md].
Qed.

Lemma rtd_add_spec ln T :
  wf_targets T → good_line ln →
  ∃ T', rtd_add regcomp ln T = (T', None) ∧ wf_targets T' ∧ ∀ c, total_weight T' c = total_weight T c + line_weight c ln.
Proof.
  intros [HlT HT] (Hct & Htt & Hgt & Hgc). unfold rtd_add.
  rewrite (bool_decide_true (ln_ct ln < _)%nat), (bool_decide_true (ln_tt ln < _)%nat) by done.
  replace (bool_decide (ln_ct ln = RTD_CRI_ALL) || bool_decide (is_Some (ln_criteria ln))) with true; cycle 1.
  { destruct (decide (ln_ct ln = RTD_CRI_ALL)) as [He|He]; [by rewrite bool_decide_true|]. destruct (Hgc He) as (s & -> & _).
    rewrite orb_comm. by rewrite bool_decide_true. }
  cbn [andb]. unfold line_weight. set (tt := ln_tt ln) in *. set (ct := ln_ct ln) in *. set (rx := has (ln_flags ln) RTD_TARG_REG) in *.
  set (crx := has (ln_flags ln) RTD_CRIT_REG) in *.
  destruct (lookup_lt_is_Some_2 T tt ltac:(lia)) as [l Hl]. rewrite Hl. cbn [default from_option id].
  destruct (HT l) as [Hord Hwf]; [by eapply list_elem_of_lookup_2|].
  destruct (md_search t_md rx (ln_target ln) l) as [[a f] b] eqn:Hs.
  destruct (target_place _ _ _ _ _ _ Hord Hwf Hgt Hs) as (t & -> & Ht & Hwt & Hw & Hot). set (md := MatchData rx (Some (ln_target ln))) in *.
  destruct (add_rule_spec ct (ln_criteria ln) crx (ln_score ln) (default [] (t_rules t !! ct))) as (rs & -> & Hors & Hwr); [|done|].
  { intros Hne. destruct (t_rules t !! ct) eqn:Hr; [|apply ordered_nil]. by eapply Hwt. }
  destruct (target_insert t ct rs Hwt Hct Hors) as [Hwt' Hwe]. set (t' := Target _ _) in *. assert (t_md t' = md) as Ht' by exact Ht.
  clearbody t'. destruct (Hot t' Ht' Hwt') as [Ho' Hf']. eexists. split; [done|]. split; [split; [by rewrite length_insert|]|].
  - intros k [i Hk]%list_elem_of_lookup_1. apply list_lookup_insert_Some in Hk as [(-> & <- & _)|[_ Hk]]; [done|].
    apply HT. by eapply list_elem_of_lookup_2.
  - intros c. unfold total_weight. rewrite (zsum_insert (λ tt, list_weight (cand_str tt c) (default [] (T !! tt))) _ tt) by
      (first [done|intros j Hj; by rewrite list_lookup_insert_ne]).
    f_equal. rewrite list_lookup_insert_eq, Hl by lia. cbn [default from_option id]. rewrite Hw.
    unfold list_weight at 1. rewrite zsum_app, zsum_cons. fold (list_weight (cand_str tt c) a) (list_weight (cand_str tt c) b).
    rewrite Ht', Hwe, Hwr, rule_contribution_eq.
    destruct (matches (cand_str tt c) md); cbn [andb]; lia.
Qed.

(** The lines of a file. *)
Lemma rtd_conf_handle_spec lines T :
  wf_targets T → Forall good_line lines →
  ∃ T', rtd_conf_handle regcomp lines T = (T', None) ∧ wf_targets T' ∧
    ∀ c, total_weight T' c = total_weight T c + zsum (line_weight c) lines.
Proof.
  intros HT Hl. revert T HT. induction Hl as [|ln lines Hln Hl IH]; intros T HT; cbn [rtd_conf_handle].
  - exists T. split; [done|]. split; [done|]. intros c. cbn. lia.
  - destruct (rtd_add_spec ln T HT Hln) as (T1 & -> & HT1 & H1). destruct (IH T1 HT1) as (T2 & -> & HT2 & H2).
    exists T2. split; [done|]. split; [done|]. intros c. rewrite H2, H1, zsum_cons. lia.
Qed.

Lemma no_targets_spec : wf_targets no_targets ∧ ∀ c, total_weight no_targets c = 0.
Proof.
  split; [|done]. split; [done|]. intros l [-> _]%elem_of_replicate. split; [apply ordered_nil|constructor].
Qed.

(** ** Messages *)

Context {D : Type} `{!MsgDictionary D} (d : D) (fuel : nat) (AVP_MODELS : nat → obj).

Lemma parsedict_new_public (mandatory : bool) down a a' e :
  (∀ a a' e, down a = Ok (a', e) → avp_public a' = avp_public a) →
  parsedict_new d mandatory down a = Ok (a', e) → avp_public a' = avp_public a.
Proof.
  intros Hd. unfold parsedict_new, avp_resolve, avp_unknown, avp_interpret.
  repeat (case_match || (intros ?; destruct_res); simplify_eq/=;
    first [done|match goal with H : down _ = Ok _ |- _ => exact (Hd _ _ _ H) end|idtac]).
Qed.

Lemma on_children_public f a a' e : on_children f a = Ok (a', e) → avp_public a' = avp_public a.
Proof. unfold on_children. destruct (parsedict_chain _ _ _) as [[l e']| |]; cbn; [by intros [= <- <-]|done..]. Qed.

Lemma parsedict_public n mandatory a a' e : parsedict_do_avp d n mandatory a = Ok (a', e) → avp_public a' = avp_public a.
Proof.
  destruct n as [|n]; cbn [parsedict_do_avp]; [done|]. destruct (avp_model a) as [o|].
  - destruct (avp_data d o) as [data|]; [|by intros [= <- _]]. case_decide; [apply on_children_public|].
    intros Hp. apply parsedict_new_public in Hp; [done|]. intros b b' e'. apply on_children_public.
  - intros Hp. apply parsedict_new_public in Hp; [done|]. intros b b' e'. apply on_children_public.
Qed.

(** The AVPs of the criteria: different ones, that can be searched in the message
    as it comes; what is found is the value for the criterion. *)
Definition status_of (o : option bytes) : status := match o with Some v => FOUND (OS v) | None => NOT_FOUND end.
Definition criterion (j : nat) : Prop := (0 < j < RTD_CRI_MAX)%nat.
Definition is_model (j : nat) (a : avp) : Prop :=
  ∃ data, avp_data d (AVP_MODELS j) = Some data ∧ avp_code (avp_public a) = a_code data ∧ avp_vendor (avp_public a) = a_vendor data.

Context (avps : list avp).
Context (Hmodels : ∀ j, criterion j → is_Some (avp_data d (AVP_MODELS j))).
Context (Hdistinct : ∀ j k a, criterion j → criterion k → is_model j a → is_model k a → j = k).
Context (Hval : ∀ j, criterion j → ∃ i l, fd_msg_search_avp d fuel avps (AVP_MODELS j) true = Ok (i, l) ∧
  (i ≫= λ i, l !! i) ≫= avp_val = OS <$> val j ∧ (∀ v, val j = Some v → v ≠ [] ∧ Forall (λ x, 0 <= x) v)).

(** The first AVP of a criterion. *)
Definition first (j : nat) (l : list avp) : option (nat * avp) :=
  avp_data d (AVP_MODELS j) ≫= λ data,
    list_find (λ a, avp_code (avp_public a) = a_code data ∧ avp_vendor (avp_public a) = a_vendor data) l.

Definition search_inv (s : search_state) : Prop :=
  length (s_parsed s) = RTD_CRI_MAX ∧
  ∀ j, criterion j →
    s_parsed s !! j = Some NOT_RESOLVED_YET ∧ first j (s_avps s) = first j avps ∨ s_parsed s !! j = Some (status_of (val j)).

Lemma list_find_insert_other {A} (P : A → Prop) `{∀ x, Decision (P x)} l i x y :
  l !! i = Some x → ¬ P x → ¬ P y → list_find P (<[i := y]> l) = list_find P l.
Proof.
  revert i. induction l as [|z l IH]; intros i Hi Hx Hy; [done|]. destruct i as [|i]; cbn in *.
  - injection Hi as ->. by rewrite !decide_False.
  - destruct (decide (P z)); [done|]. by rewrite IH.
Qed.

Lemma search_inv_start : search_inv (SearchState avps (replicate RTD_CRI_MAX NOT_RESOLVED_YET)).
Proof. split; [done|]. intros j [_ Hj]. left. split; [by apply lookup_replicate_2|done]. Qed.

(** What the search does, by the first AVP of the criterion. *)
Lemma search_first j l : is_Some (avp_data d (AVP_MODELS j)) →
  fd_msg_search_avp d fuel l (AVP_MODELS j) true =
  match first j l with None => Ok (None, l) | Some (i, a) => let* (a, _) := parsedict_do_avp d fuel false a in Ok (Some i, <[i := a]> l) end.
Proof. intros [data Hd]. unfold fd_msg_search_avp, first. rewrite Hd. cbn. by destruct (list_find _ l) as [[i a]|]. Qed.

Lemma first_Some j l i a : first j l = Some (i, a) → l !! i = Some a ∧ is_model j a.
Proof.
  unfold first, is_model. destruct (avp_data d (AVP_MODELS j)) as [data|]; cbn; [|done]. intros [? [? _]]%list_find_Some. eauto.
Qed.

Lemma first_insert j l i a a' :
  l !! i = Some a → avp_public a' = avp_public a → ¬ is_model j a → first j (<[i := a']> l) = first j l.
Proof.
  intros Hi Hp Hn. unfold first, is_model in *. destruct (avp_data d (AVP_MODELS j)) as [data|]; cbn; [|done].
  eapply list_find_insert_other; [done|naive_solver|]. rewrite Hp. naive_solver.
Qed.

Lemma resolve_spec j s : search_inv s → criterion j → ∃ s', resolve d fuel AVP_MODELS j s = Ok (status_of (val j), s') ∧ search_inv s'.
Proof.
  intros [Hlen Hs] Hj. unfold resolve. destruct (Hs j Hj) as [[Hj' Hf]|Hj'].
  2: { exists s. rewrite Hj'. unfold status_of. by destruct (val j). }
  rewrite Hj'. destruct (Hval j Hj) as (i0 & l0 & Hl0 & Hv & _). rewrite search_first in Hl0 |- * by by apply Hmodels.
  assert (∀ l, (∀ k, criterion k → k ≠ j → first k l = first k (s_avps s)) →
    search_inv (SearchState l (<[j := status_of (val j)]> (s_parsed s)))) as Hinv.
  { intros l Hl. split; [by cbn; rewrite length_insert|]. intros k Hk. cbn. destruct (decide (k = j)) as [->|Hne].
    - right. apply list_lookup_insert_eq. rewrite Hlen. apply Hj.
    - rewrite list_lookup_insert_ne by done. rewrite Hl by done. by apply Hs. }
  rewrite Hf. destruct (first j avps) as [[i a]|] eqn:Hfa.
  - destruct (parsedict_do_avp d fuel false a) as [[a' e]| |] eqn:Ha; cbn in Hl0 |- *; [|done..]. injection Hl0 as <- <-.
    apply first_Some in Hfa as [Hi Hm]. apply first_Some in Hf as [Hi' _]. cbn in Hv.
    rewrite list_lookup_insert_eq in Hv by (by eapply lookup_lt_Some). cbn in Hv.
    rewrite list_lookup_insert_eq by (by eapply lookup_lt_Some). cbn.
    assert ((match avp_val a' with Some v => FOUND v | None => NOT_FOUND end) = status_of (val j)) as ->.
    { rewrite Hv. by destruct (val j). }
    eexists. split; [done|]. apply Hinv. intros k Hk Hne. eapply first_insert; [done|by eapply parsedict_public|].
    intros Hk'. by apply Hne, (Hdistinct k j a).
  - injection Hl0 as <- <-. cbn in Hv |- *. assert (NOT_FOUND = status_of (val j)) as -> by by destruct (val j).
    eexists. split; [done|]. by apply Hinv.
Qed.

Lemma apply_criterion_spec j t s n :
  search_inv s → criterion j → wf_target t →
  ∃ s', apply_criterion regexec d fuel AVP_MODELS j t (s, n) = Ok (s', n + criterion_weight t j) ∧ search_inv s'.
Proof.
  intros Hs Hj [Hlen Hord]. unfold apply_criterion, criterion_weight. destruct (t_rules t !! j) as [l|] eqn:Hl; cbn [default from_option id].
  2: { exists s. split; [|done]. do 2 f_equal. cbn. lia. }
  assert (j ≠ RTD_CRI_ALL) as Hj0 by (unfold criterion, RTD_CRI_ALL in *; lia).
  assert (ordered r_md l) as Ho by (by eapply Hord).
  destruct l as [|r0 l0] eqn:El; [exists s; split; [do 2 f_equal; cbn; lia|done]|]. rewrite <- El in *. clear El r0 l0.
  destruct (resolve_spec j s Hs Hj) as (s' & -> & Hs'). cbn [res_bind]. exists s'. split; [|done].
  destruct (Hval j Hj) as (_ & _ & _ & _ & Hv). unfold status_of. destruct (val j) as [v|] eqn:Ev.
  - destruct (Hv v eq_refl) as [Hne Hnn]. unfold each_match. rewrite bool_decide_true by done.
    rewrite for_matches_spec, fold_res_add by done. cbn [res_bind]. rewrite zsum_filter. do 3 f_equal. apply zsum_ext. intros r _.
    unfold rule_weight. rewrite (decide_False (P := j = RTD_CRI_ALL)) by done. rewrite Ev. by destruct (matches v (r_md r)).
  - rewrite zsum_zero; [do 2 f_equal; lia|]. intros r _. unfold rule_weight. by rewrite decide_False, Ev.
Qed.

Lemma apply_criteria_spec js t s n :
  search_inv s → Forall criterion js → wf_target t →
  ∃ s', apply_criteria regexec d fuel AVP_MODELS js t (s, n) = Ok (s', n + zsum (criterion_weight t) js) ∧ search_inv s'.
Proof.
  intros Hs Hjs Ht. revert s n Hs. induction Hjs as [|j js Hj Hjs IH]; intros s n Hs; cbn [apply_criteria].
  - exists s. split; [do 2 f_equal; cbn; lia|done].
  - destruct (apply_criterion_spec j t s n Hs Hj Ht) as (s1 & -> & H1). cbn [res_bind].
    destruct (IH s1 (n + criterion_weight t j) H1) as (s2 & -> & H2). exists s2. split; [|done]. rewrite zsum_cons. do 2 f_equal. lia.
Qed.

Lemma apply_target_spec t s n :
  search_inv s → wf_target t → ∃ s', apply_target regexec d fuel AVP_MODELS t (s, n) = Ok (s', n + target_weight t) ∧ search_inv s'.
Proof.
  intros Hs Ht. unfold apply_target. rewrite foldl_zsum.
  destruct (apply_criteria_spec (seq 1 (RTD_CRI_MAX - 1)) t s (n + zsum r_score (default [] (t_rules t !! RTD_CRI_ALL))) Hs) as (s' & -> & Hs').
  - apply Forall_forall. intros j Hj%elem_of_seq. unfold criterion, RTD_CRI_MAX in *. lia.
  - done.
  - exists s'. split; [|done]. unfold target_weight. change (seq 0 RTD_CRI_MAX) with (RTD_CRI_ALL :: seq 1 (RTD_CRI_MAX - 1)).
    rewrite zsum_cons. unfold criterion_weight at 2. do 2 f_equal.
    set (rs := default [] _). assert (zsum (rule_weight RTD_CRI_ALL) rs = zsum r_score rs) as -> by (by apply zsum_ext). lia.
Qed.

(** The targets of one list. *)
Lemma each_target_spec str l s n :
  search_inv s → str ≠ [] → Forall (λ x, 0 <= x) str → ordered t_md l → Forall wf_target l →
  ∃ s', each_match regexec t_md str (apply_target regexec d fuel AVP_MODELS) l (s, n) = Ok (s', n + list_weight str l) ∧ search_inv s'.
Proof.
  intros Hs Hne Hnn Ho Hl. unfold each_match. rewrite bool_decide_true by done. rewrite for_matches_spec by done.
  destruct (fold_res_inv search_inv (apply_target regexec d fuel AVP_MODELS) target_weight
              (filter (λ t, matches str (t_md t) = true) l) s n Hs) as (s' & -> & Hs').
  - intros t s1 m [_ Ht]%list_elem_of_filter Hs1. apply apply_target_spec; [done|]. rewrite Forall_forall in Hl. by apply Hl.
  - exists s'. split; [|done]. do 3 f_equal. rewrite zsum_filter. apply zsum_ext. intros t _. by destruct (matches str (t_md t)).
Qed.

(** The candidates of the daemon: an identity and a realm, none empty. *)
Definition good_candidate (c : rtd_candidate) : Prop :=
  c_diamid c ≠ [] ∧ Forall (λ x, 0 <= x) (c_diamid c) ∧ ∃ r, c_realm c = Some r ∧ r ≠ [] ∧ Forall (λ x, 0 <= x) r.

Lemma score_candidate_spec T c s :
  search_inv s → wf_targets T → good_candidate c →
  ∃ s', score_candidate regexec d fuel AVP_MODELS T c s = Ok (s', set_score (c_score c + total_weight T c) c) ∧ search_inv s'.
Proof.
  intros Hs [Hlen HT] (Hd & Hdn & r & Hr & Hrne & Hrn). unfold score_candidate. rewrite Hr.
  destruct (lookup_lt_is_Some_2 T RTD_TAR_ID) as [l0 H0]; [rewrite Hlen; unfold RTD_TAR_ID, RTD_TAR_MAX; lia|].
  destruct (lookup_lt_is_Some_2 T RTD_TAR_REALM) as [l1 H1]; [rewrite Hlen; unfold RTD_TAR_REALM, RTD_TAR_MAX; lia|].
  destruct (HT l0) as [Ho0 Hw0]; [by eapply list_elem_of_lookup_2|]. destruct (HT l1) as [Ho1 Hw1]; [by eapply list_elem_of_lookup_2|].
  rewrite H0, H1. cbn [default from_option id].
  destruct (each_target_spec (c_diamid c) l0 s (c_score c) Hs Hd Hdn Ho0 Hw0) as (s1 & -> & Hs1). cbn [res_bind].
  destruct (each_target_spec r l1 s1 (c_score c + list_weight (c_diamid c) l0) Hs1 Hrne Hrn Ho1 Hw1) as (s2 & -> & Hs2). cbn [res_bind].
  exists s2. split; [|done]. do 3 f_equal. unfold total_weight. change (seq 0 RTD_TAR_MAX) with [RTD_TAR_ID; RTD_TAR_REALM].
  rewrite !zsum_cons, H0, H1. change (cand_str RTD_TAR_ID c) with (c_diamid c).
  assert (cand_str RTD_TAR_REALM c = r) as -> by (unfold cand_str; by rewrite Hr). cbn [default from_option id zsum foldr]. lia.
Qed.

Lemma score_candidates_spec T l s :
  search_inv s → wf_targets T → Forall good_candidate l →
  ∃ s', score_candidates regexec d fuel AVP_MODELS T l s = Ok (s', (λ c, set_score (c_score c + total_weight T c) c) <$> l).
Proof.
  intros Hs HT Hl. revert s Hs. induction Hl as [|c l Hc Hl IH]; intros s Hs; cbn [score_candidates]; [by exists s|].
  destruct (score_candidate_spec T c s Hs HT Hc) as (s1 & -> & H1). cbn [res_bind]. destruct (IH s1 H1) as (s2 & ->). by exists s2.
Qed.

(** C16: the rules of a configuration file whose lines are good ([good_line]: a
    target and a criterion of the known kinds, plain strings in lower case, regular
    expressions that [regcomp] compiles) are all taken.  For candidates with an
    identity and a realm that are not empty ([good_candidate]), a message whose
    AVPs of the criteria have values that are not empty, and a [regexec] that
    reports no error, the callback then adds to the score of each candidate the sum
    of the scores of the lines that apply: those whose target matches the identity
    or the realm of the candidate, and whose criterion, if there is one, is in the
    message with a value that matches.  A plain string matches every string that is
    a prefix of it, without regard to case (Example [prefix_matches]).  The order of
    such lines does not matter, and lines that repeat another one count again.

    The conditions are needed: a line with a capital letter can hide the lines
    behind it (Example [capital_hides]), so that the order matters, and an empty
    value makes the callback fail (Example [empty_value_error]). *)
Theorem rtd_out_scores lines candidates :
  Forall good_line lines → Forall good_candidate candidates →
  ∃ TARGETS avps', rtd_conf_handle regcomp lines no_targets = (TARGETS, None) ∧
    rtd_out regexec d fuel AVP_MODELS TARGETS avps candidates
    = Ok (avps', (λ c, set_score (c_score c + zsum (line_weight c) lines) c) <$> candidates).
Proof.
  intros Hl Hc. destruct no_targets_spec as [H0 Hz]. destruct (rtd_conf_handle_spec lines no_targets H0 Hl) as (T & HT & HwT & Hw).
  destruct (score_candidates_spec T candidates _ search_inv_start HwT Hc) as (s & Hs).
  assert (((λ c, set_score (c_score c + total_weight T c) c) <$> candidates) = (λ c, set_score (c_score c + zsum (line_weight c) lines) c) <$> candidates) as He.
  { apply list_fmap_ext. intros _ c _. by rewrite Hw, Hz. }
  exists T. destruct candidates as [|c l]; [by exists avps|]. exists (s_avps s). split; [done|]. unfold rtd_out, rtd_process.
  rewrite Hs, He. done.
Qed.
End scores.

(** ** A configuration *)

Module Examples.
Import Small Routes.

Definition models : list (option obj) := Eval vm_compute in match rtd_init routes with Ok l => l | _ => [] end.

Example models_init : rtd_init routes = Ok models.
Proof. by vm_compute. Qed.

Definition AVP_MODELS (j : nat) : obj := default 0%nat (match j with 0%nat => None | S j => default None (models !! j) end).

(** A library of regular expressions that knows one. *)
Definition any : bytes := str ".*".
Definition regcomp (p : bytes) : bool := bool_decide (p = any).
Definition regexec (p s : bytes) : res bool := Ok (bool_decide (p = any)).

Definition avps : list avp := [raw 263 (str "s1"); raw 1 (str "Alice"); raw 283 (str "example.net")].
Definition val (j : nat) : option bytes :=
  match j with 4%nat => Some (str "example.net") | 5%nat => Some (str "Alice") | 6%nat => Some (str "s1") | _ => None end.

Definition all (target : string) (score : Z) : line := Line RTD_CRI_ALL None RTD_TAR_ID (str target) score 0.

Definition lines : list line :=
  [Line RTD_CRI_UN (Some (str "alice")) RTD_TAR_REALM (str "example.net") 10 0; all "p.example.net" 5;
   Line RTD_CRI_UN (Some any) RTD_TAR_ID any 1 (RTD_CRIT_REG + RTD_TARG_REG);
   Line RTD_CRI_DH (Some (str "p.example.net")) RTD_TAR_ID (str "p.example.net") 100 0].

Definition cand (id realm : string) : rtd_candidate := RtdCandidate (str id) (Some (str realm)) 0.
Definition candidates : list rtd_candidate := [cand "p.example.net" "example.net"; cand "q.other.org" "other.org"].

(** The codes of the six AVPs. *)
Definition codes : list Z := [0; 264; 296; 293; 283; 1; 263].

Lemma models_codes j data : criterion j → avp_data routes (AVP_MODELS j) = Some data → codes !! j = Some (a_code data).
Proof. intros [H0 H1]. do 7 (destruct j as [|j]; [first [lia|by intros [= <-]]|]). unfold RTD_CRI_MAX in H1. lia. Qed.

Lemma models_distinct j k a : criterion j → criterion k → is_model routes AVP_MODELS j a → is_model routes AVP_MODELS k a → j = k.
Proof.
  intros Hj Hk (dj & Dj & Cj & _) (dk & Dk & Ck & _). apply models_codes in Dj, Dk; [|done..]. rewrite <- Cj in Dj. rewrite <- Ck in Dk.
  assert (NoDup codes) as Hn by by_compute. by apply (NoDup_lookup codes j k (avp_code (avp_public a)) Hn).
Qed.

Lemma models_exist j : criterion j → is_Some (avp_data routes (AVP_MODELS j)).
Proof. intros [H0 H1]. do 7 (destruct j as [|j]; [first [lia|by eexists]|]). unfold RTD_CRI_MAX in H1. lia. Qed.

Lemma values_found j : criterion j → ∃ i l, fd_msg_search_avp routes 10 avps (AVP_MODELS j) true = Ok (i, l) ∧
  (i ≫= λ i, l !! i) ≫= avp_val = OS <$> val j ∧ (∀ v, val j = Some v → v ≠ [] ∧ Forall (λ x, 0 <= x) v).
Proof.
  intros [H0 H1]. unfold RTD_CRI_MAX in H1.
  do 7 (destruct j as [|j]; [first [lia|eexists _, _; split; [vm_compute; reflexivity|split;
    [by vm_compute|first [by intros|intros ? [= <-]; split; [done|by_compute]]]]]|]). lia.
Qed.

Lemma regexec_total p s : ∃ b, regexec p s = Ok b.
Proof. by eexists. Qed.

Lemma rtd_out_scores_witness :
  ∃ TARGETS avps', rtd_conf_handle regcomp lines no_targets = (TARGETS, None) ∧
    rtd_out regexec routes 10 AVP_MODELS TARGETS avps candidates
    = Ok (avps', [set_score 16 (cand "p.example.net" "example.net"); set_score 1 (cand "q.other.org" "other.org")]).
Proof.
  destruct (rtd_out_scores regcomp regexec regexec_total val routes 10 AVP_MODELS avps models_exist models_distinct values_found lines candidates)
    as (T & avps' & HT & Ho).
  - repeat constructor; try (by intros []); try (by eexists; repeat split; by_compute); by_compute.
  - repeat constructor; try (eexists; repeat split); by_compute.
  - exists T, avps'. split; [exact HT|]. exact Ho.
Defined.

(** What the callback makes of candidates with the lines of a file. *)
Definition scores (l : list line) (avps : list avp) (cs : list rtd_candidate) : res (list Z) :=
  let* (_, cs) := rtd_out regexec routes 10 AVP_MODELS (fst (rtd_conf_handle regcomp l no_targets)) avps cs in Ok (c_score <$> cs).

(** A plain target also matches the candidates of which it is an extension. *)
Example prefix_matches : scores [all "p.example.net" 5] avps [cand "p" "example.net"] = Ok [5].
Proof. by vm_compute. Qed.

(** The lists are ordered with the case of the letters and searched without: the
    second rule is lost when the first one begins with a capital. *)
Example capital_hides :
  scores [all "b.net" 5] avps [cand "b.net" "net"] = Ok [5] ∧
  scores [all "b.net" 5; all "Z.net" 7] avps [cand "b.net" "net"] = Ok [0].
Proof. by vm_compute. Qed.

(** A request with an empty User-Name is an error, for which it is dropped, once a
    rule has that criterion. *)
Example empty_value_error :
  scores [Line RTD_CRI_UN (Some (str "alice")) RTD_TAR_ID (str "p.net") 1 0] [raw 1 []] [cand "p.net" "net"] = Err EINVAL.
Proof. by vm_compute. Qed.
End Examples.
