(* ===== verification/MagicConfig.v ===== *)
(** * The configuration of MAGIC ([app_magic/magic_config.h], [magic_config.c])

    The data that the policy engine and the validators read, and the searches in
    it; the loading of the XML files is not modelled.  A string in an array of
    characters is the list of its bytes, without the final 0; a count and its
    array are one list.  A [float] or [double] is a number of the Standard
    Library's [SpecFloat], which computes as IEEE 754 does. *)

From Stdlib Require Import ZArith Lia String SpecFloat.
From stdpp Require Import base list.
From S2P Require Import Prelude Ostr CoreMsg.

(** ** Numbers *)

(** [(float) n] and [(double) n] of an unsigned integer. *)
Definition float_of (n : Z) : spec_float := binary_normalize 24 128 n 0 false.
Definition double_of (n : Z) : spec_float := binary_normalize 53 1024 n 0 false.

(** The integer part. *)
Definition trunc (x : spec_float) : option Z :=
  match x with
  | S754_zero _ => Some 0
  | S754_finite s m e => Some ((if s then Z.opp else (λ z, z)) (Z.shiftl (Zpos m) e))
  | _ => None
  end.

(** [(uint32_t) x]: undefined when the integer part does not fit. *)
Definition u32_of (x : spec_float) : res Z :=
  match trunc x with
  | Some n => if decide (0 ≤ n ∧ n < 2 ^ 32) then Ok n else Crash
  | None => Crash
  end.

(** [strncpy] into an array of [n] characters, whose last one stays 0. *)
Definition strncpy (n : nat) (s : bytes) : bytes := take (n - 1) s.

(** ** Data *)

Definition MAX_ID_LEN : nat := 64.

Inductive DLMType := DLM_TYPE_UNKNOWN | DLM_TYPE_SATELLITE | DLM_TYPE_CELLULAR | DLM_TYPE_HYBRID.

Record CoverageConfig := Coverage {
  cov_enabled : bool;
  min_latitude : spec_float; max_latitude : spec_float; min_longitude : spec_float; max_longitude : spec_float;
  min_altitude_ft : Z; max_altitude_ft : Z }.

Record DLMConfig := Dlm {
  dlm_name : bytes; dlm_type : DLMType; max_forward_bw_kbps : spec_float; supported_qos : list Z; latency_ms : Z;
  coverage : CoverageConfig; is_active : bool }.

Inductive PolicyAction := ACTION_DEFAULT | ACTION_PERMIT | ACTION_PROHIBIT.

#[export] Instance policy_action_eq_dec : EqDecision PolicyAction.
Proof. solve_decision. Defined.

(** [max_latency_ms] is there when [has_max_latency] is set. *)
Record PathPreference := Pref {
  ranking : Z; link_id : bytes; pref_action : PolicyAction; max_latency_ms : option Z;
  on_ground_only : bool; airborne_only : bool }.

Record PolicyRule := Rule { traffic_class : bytes; preferences : list PathPreference }.

Record PolicyRuleSet := RuleSet { flight_phases : bytes; policy_rules : list PolicyRule }.

(** The two matches are there when their flags are set. *)
Record TrafficClassDefinition := ClassDef {
  traffic_class_id : bytes; match_priority_class : option Z; match_qos_level : option Z;
  match_patterns : list bytes; is_default : bool }.

Record SwitchingPolicy := Switching { min_dwell_time_sec : Z; hysteresis_percentage : Z }.

Record CentralPolicyProfile := Central {
  traffic_class_defs : list TrafficClassDefinition; switching_policy : SwitchingPolicy; rulesets : list PolicyRuleSet }.

Inductive CfgFlightPhase :=
  | CFG_FLIGHT_PHASE_GATE | CFG_FLIGHT_PHASE_TAXI | CFG_FLIGHT_PHASE_TAKE_OFF | CFG_FLIGHT_PHASE_CLIMB
  | CFG_FLIGHT_PHASE_CRUISE | CFG_FLIGHT_PHASE_DESCENT | CFG_FLIGHT_PHASE_APPROACH | CFG_FLIGHT_PHASE_LANDING
  | CFG_FLIGHT_PHASE_MAINTENANCE | CFG_FLIGHT_PHASE_UNKNOWN.

#[export] Instance flight_phase_eq_dec : EqDecision CfgFlightPhase.
Proof. solve_decision. Defined.

Record ClientProfile := Client {
  client_id : bytes; profile_name : bytes; client_enabled : bool; max_forward_kbps : Z; qos_priority_class : Z;
  allowed_levels : list Z; allowed_dlms : list bytes; preferred_dlm : bytes; allowed_phases : list CfgFlightPhase }.

Record MagicConfig := Magic {
  dlm_configs : list DLMConfig; policy : CentralPolicyProfile; clients : list ClientProfile; adif_degraded_mode : bool }.

(** ** Searches *)

(** The first element of a list that satisfies a test: the loops of this file. *)
Definition first_of {A} (P : A → bool) (l : list A) : option A := snd <$> list_find (λ x, P x = true) l.

Definition same (x y : bytes) : bool := bool_decide (x = y).

Definition magic_config_find_dlm (config : MagicConfig) (name : bytes) : option DLMConfig :=
  first_of (λ d, same (dlm_name d) name) (dlm_configs config).

Definition magic_config_find_client (config : MagicConfig) (id : bytes) : option ClientProfile :=
  first_of (λ c, same (client_id c) id) (clients config).

Definition magic_config_find_client_by_profile (config : MagicConfig) (name : bytes) : option ClientProfile :=
  c ← first_of (λ c, same (profile_name c) name) (clients config);
  if client_enabled c then Some c else None.

(** An empty list allows everything. *)
Definition magic_config_is_dlm_allowed (client : ClientProfile) (dlm_id : bytes) : bool :=
  bool_decide (allowed_dlms client = []) || bool_decide (dlm_id ∈ allowed_dlms client).

Definition magic_config_is_qos_level_allowed (client : ClientProfile) (qos_level : Z) : bool :=
  bool_decide (allowed_levels client = []) || bool_decide (qos_level ∈ allowed_levels client).

Definition magic_config_is_flight_phase_allowed (client : ClientProfile) (phase : CfgFlightPhase) : bool :=
  bool_decide (allowed_phases client = []) || bool_decide (phase ∈ allowed_phases client).

Definition magic_config_dlm_supports_qos (dlm : DLMConfig) (qos_level : Z) : bool :=
  bool_decide (qos_level ∈ supported_qos dlm).

(** [strstr(s, t) != NULL] *)
Fixpoint strstr (s t : bytes) : bool :=
  bool_decide (t `prefix_of` s) || match s with [] => false | _ :: s => strstr s t end.

Definition magic_config_find_ruleset (config : MagicConfig) (flight_phase : bytes) : option PolicyRuleSet :=
  first_of (λ r, strstr (flight_phases r) flight_phase) (rulesets (policy config)).

(** A position in a box; each comparison of the code is false on a NaN. *)
Definition out_of (lo hi x : spec_float) : bool := SFltb x lo || SFltb hi x.

Definition magic_config_check_dlm_coverage (dlm : DLMConfig) (latitude longitude altitude_ft : spec_float) : bool :=
  let c := coverage dlm in
  if negb (cov_enabled c) then true
  else negb (out_of (min_latitude c) (max_latitude c) latitude ||
             out_of (min_longitude c) (max_longitude c) longitude ||
             out_of (double_of (min_altitude_ft c)) (double_of (max_altitude_ft c)) altitude_ft).
