(* ===== verification/MagicPolicy.v ===== *)
(** * The policy engine of MAGIC ([app_magic/magic_policy.c])

    The classification of the traffic, the checks and the score of a link, the
    choice of the path, and the use that [magic_cic.c] makes of it to ask for the
    resources of a link, with its fallback to others.  The logs are left out; the
    reason of a decision is named, not printed. *)

From Stdlib Require Import ZArith Lia String SpecFloat.
From stdpp Require Import base list.
From S2P Require Import Prelude Ostr CoreMsg Sessions MagicConfig.

(** ** Patterns *)

(** [magic_policy_wildcard_match]; [tolower] is that of the C locale. *)
Fixpoint magic_policy_wildcard_match (pattern : bytes) : bytes → bool :=
  fix go (str : bytes) : bool :=
    match pattern, str with
    | [], _ => bool_decide (str = [])
    | p :: pattern', [] => if decide (p = 42) then magic_policy_wildcard_match pattern' [] else false
    | p :: pattern', c :: str' =>
        if decide (p = 42) then
          if decide (pattern' = []) then true
          else magic_policy_wildcard_match pattern' (c :: str') || go str'
        else if decide (p = 63) then magic_policy_wildcard_match pattern' str'
        else if decide (asciitolower p = asciitolower c) then magic_policy_wildcard_match pattern' str'
        else false
    end.

(** ** Traffic classes *)

Definition BEST_EFFORT : bytes := str "BEST_EFFORT".

(** The loop: [default] is [matched_default]. *)
Fixpoint classify_loop (priority_class qos_level : Z) (profile : bytes) (defs : list TrafficClassDefinition) (default : bytes) : bytes :=
  match defs with
  | [] => default
  | def :: defs =>
      if is_default def then classify_loop priority_class qos_level profile defs (traffic_class_id def)
      else if bool_decide (match_priority_class def = Some priority_class) then traffic_class_id def
      else if bool_decide (match_qos_level def = Some qos_level) then traffic_class_id def
      else if existsb (λ p, magic_policy_wildcard_match p profile) (match_patterns def) then traffic_class_id def
      else classify_loop priority_class qos_level profile defs default
  end.

Definition magic_policy_classify_traffic (policy : CentralPolicyProfile) (priority_class qos_level : Z) (profile : bytes) : bytes :=
  classify_loop priority_class qos_level profile (traffic_class_defs policy) BEST_EFFORT.

(** ** Coverage *)

(** 3.28084 as a double. *)
Definition FEET : spec_float := S754_finite false 7387794900731109 (-51).

Definition magic_policy_check_coverage (c : CoverageConfig) (lat lon alt_m : spec_float) : bool :=
  if negb (cov_enabled c) then true
  else if out_of (min_latitude c) (max_latitude c) lat then false
  else if out_of (min_longitude c) (max_longitude c) lon then false
  else negb (out_of (double_of (min_altitude_ft c)) (double_of (max_altitude_ft c)) (SFmul 53 1024 alt_m FEET)).

(** ** Switching *)

(** The state of a session that the decision looks at; [now] is [time(NULL)]. *)
Definition magic_policy_can_switch_link (sw : SwitchingPolicy) (assigned : bytes) (last_switch current_bw now : Z)
    (new_link_id : bytes) (new_bw_percent : Z) : bool :=
  if decide (assigned = []) then true
  else if decide (assigned = new_link_id) then false
  else if decide (last_switch > 0 ∧ now - last_switch < min_dwell_time_sec sw) then false
  else if decide (current_bw > 0 ∧ new_bw_percent > 0) then
    let threshold := w32 (current_bw + w32 (current_bw * hysteresis_percentage sw) / 100) in
    bool_decide (threshold ≤ new_bw_percent)
  else true.

(** ** The score of a link *)

Definition REJECTED : Z := -999999.

(** The arithmetic wraps at 32 bits; the conversion of the headroom is undefined
    when it does not fit. *)
Definition calculate_link_score (dlm : DLMConfig) (pref : PathPreference) (requested_bw : Z) : res Z :=
  if match max_latency_ms pref with Some m => bool_decide (latency_ms dlm > m) | None => false end then Ok REJECTED
  else
    let score := signed 32 ((10 - ranking pref) * 1000) in
    let bw := float_of requested_bw in
    let* score :=
      if SFleb bw (max_forward_bw_kbps dlm) then
        let* headroom := u32_of (SFsub 24 128 (max_forward_bw_kbps dlm) bw) in Ok (signed 32 (score + headroom / 100))
      else Ok (signed 32 (score - 5000)) in
    let score := signed 32 (score + if decide (latency_ms dlm < 50) then 100 else if decide (latency_ms dlm > 500) then -50 else 0) in
    Ok (signed 32 (score + match dlm_type dlm with
                           | DLM_TYPE_SATELLITE => 5 | DLM_TYPE_CELLULAR => 3 | DLM_TYPE_HYBRID => 4 | DLM_TYPE_UNKNOWN => 0
                           end)).

(** ** The choice of the path *)

(** A registered client of the link manager: its link and the bearers in use. *)
Record DlmClient := DlmCl { is_registered : bool; cl_link_id : bytes; num_active_bearers : Z }.

Record PolicyContext := PolicyCtx { config : MagicConfig; lmi_ctx : option (list DlmClient) }.

(** The lists of the links to exclude are filled in, and not read here. *)
Record PolicyRequest := PolicyReq {
  req_client_id : bytes; req_profile_name : bytes; requested_bw_kbps : Z; requested_ret_bw_kbps : Z;
  priority_class : Z; req_qos_level : Z; flight_phase : bytes; exclude_links : list bytes;
  aircraft_lat : spec_float; aircraft_lon : spec_float; aircraft_alt : spec_float; on_ground : bool; has_adif_data : bool }.

Inductive reason := ClientNotFound | ClientDisabled | TooMuchBandwidth | NoRulesets | NoRule | NoLink | Selected (ranking score : Z).

Record PolicyResponse := PolicyResp {
  success : bool; selected_link_id : bytes; granted_bw_kbps : Z; granted_ret_bw_kbps : Z; resp_qos_level : Z;
  resp_reason : option reason; matched_traffic_class : bytes }.

Definition no_response : PolicyResponse := PolicyResp false [] 0 0 0 None [].
Definition refused_for (r : reason) (class : bytes) : PolicyResponse := PolicyResp false [] 0 0 0 (Some r) class.

Definition max_client_bw (client : ClientProfile) : Z :=
  if decide (max_forward_kbps client = 0) then 10000 else max_forward_kbps client.

(** The rule set of the flight phase, or the first one. *)
Definition ruleset_for (c : MagicConfig) (phase : bytes) : option PolicyRuleSet :=
  match magic_config_find_ruleset c phase with Some r => Some r | None => head (rulesets (policy c)) end.

Definition rule_of (class : bytes) (r : PolicyRuleSet) : option PolicyRule :=
  first_of (λ rule, same (traffic_class rule) class) (policy_rules r).

(** The rule of the class, or that of ALL_TRAFFIC, or that of the priority. *)
Definition matched_rule (client : ClientProfile) (class : bytes) (r : PolicyRuleSet) : option PolicyRule :=
  match rule_of class r with
  | Some rule => Some rule
  | None =>
      match rule_of (str "ALL_TRAFFIC") r with
      | Some rule => Some rule
      | None =>
          if decide (qos_priority_class client > 0) then rule_of (str "PRIORITY_" ++ print_u32 (qos_priority_class client)) r
          else None
      end
  end.

(** The tests of the loop, the score apart: the link of a preference. *)
Definition candidate_link (ctx : PolicyContext) (client : ClientProfile) (req : PolicyRequest) (pref : PathPreference) : option DLMConfig :=
  if decide (pref_action pref = ACTION_PROHIBIT) then None
  else if negb (magic_config_is_dlm_allowed client (link_id pref)) then None
  else
    dlm ← magic_config_find_dlm (config ctx) (link_id pref);
    if negb (is_active dlm) then None
    else if negb (adif_degraded_mode (config ctx)) && cov_enabled (coverage dlm) && has_adif_data req &&
            (negb (SFeqb (aircraft_lat req) (S754_zero false)) || negb (SFeqb (aircraft_lon req) (S754_zero false))) &&
            negb (magic_policy_check_coverage (coverage dlm) (aircraft_lat req) (aircraft_lon req) (aircraft_alt req)) then None
    else if has_adif_data req && ((on_ground_only pref && negb (on_ground req)) || (airborne_only pref && on_ground req)) then None
    else Some dlm.

Definition active_sessions (ctx : PolicyContext) (link : bytes) : Z :=
  match lmi_ctx ctx with
  | Some l => default 0 (num_active_bearers <$> first_of (λ c, is_registered c && same (cl_link_id c) link) l)
  | None => 0
  end.

Definition is_preferred (client : ClientProfile) (link : bytes) : bool :=
  bool_decide (preferred_dlm client ≠ []) && same link (preferred_dlm client).

(** The score with the load and the preference of the client. *)
Definition final_score (ctx : PolicyContext) (client : ClientProfile) (req : PolicyRequest) (pref : PathPreference) (dlm : DLMConfig) : res Z :=
  let* score := calculate_link_score dlm pref (requested_bw_kbps req) in
  let score := signed 32 (score - signed 32 (active_sessions ctx (link_id pref) * 600)) in
  Ok (if is_preferred client (link_id pref) then signed 32 (score + 500) else score).

(** The loop of the preferences: the best score, and its link and preference. *)
Fixpoint best_link (ctx : PolicyContext) (client : ClientProfile) (req : PolicyRequest) (prefs : list PathPreference)
    (best : Z * option (DLMConfig * PathPreference)) : res (Z * option (DLMConfig * PathPreference)) :=
  match prefs with
  | [] => Ok best
  | pref :: prefs =>
      match candidate_link ctx client req pref with
      | None => best_link ctx client req prefs best
      | Some dlm =>
          let* score := final_score ctx client req pref dlm in
          best_link ctx client req prefs (if decide (score > fst best) then (score, Some (dlm, pref)) else best)
      end
  end.

Definition magic_policy_select_path (ctx : PolicyContext) (req : PolicyRequest) : res PolicyResponse :=
  match magic_config_find_client (config ctx) (req_client_id req) with
  | None => Ok (refused_for ClientNotFound [])
  | Some client =>
      if negb (client_enabled client) then Ok (refused_for ClientDisabled [])
      else if decide (requested_bw_kbps req > max_client_bw client) then Ok (refused_for TooMuchBandwidth [])
      else
        match ruleset_for (config ctx) (flight_phase req) with
        | None => Ok (refused_for NoRulesets [])
        | Some r =>
            let class := magic_policy_classify_traffic (policy (config ctx)) (priority_class req) (req_qos_level req) (req_profile_name req) in
            let class_id := strncpy MAX_ID_LEN class in
            match matched_rule client class r with
            | None => Ok (refused_for NoRule class_id)
            | Some rule =>
                let* (score, link) := best_link ctx client req (preferences rule) (REJECTED, None) in
                match link with
                | None => Ok (refused_for NoLink class_id)
                | Some (dlm, pref) =>
                    Ok (PolicyResp true (strncpy MAX_ID_LEN (dlm_name dlm)) (requested_bw_kbps req) (requested_ret_bw_kbps req)
                          (req_qos_level req) (Some (Selected (ranking pref) score)) class_id)
                end
            end
        end
  end.

(** ** The resources of a link ([magic_cic.c]) *)

Definition MCAR_RETRY_MAX_COUNT : nat := 3.
Definition MCAR_FALLBACK_MAX_LINKS : nat := 4.

(** [tried_links], and the requests sent to the link managers so far. *)
Record McarProcessContext := Mcar { tried_links : list bytes; requests : list bytes; policy_resp : PolicyResponse }.

Definition mcar_link_already_tried (ctx : McarProcessContext) (link : bytes) : bool := bool_decide (link ∈ tried_links ctx).

Definition mcar_mark_link_tried (link : bytes) (ctx : McarProcessContext) : McarProcessContext :=
  if decide (length (tried_links ctx) < MCAR_FALLBACK_MAX_LINKS)%nat
  then Mcar (tried_links ctx ++ [strncpy MAX_ID_LEN link]) (requests ctx) (policy_resp ctx)
  else ctx.

Section mcar.
(** The answer of the link manager to the [n]-th request: whether the resources
    are given.  The context of the engine, with the loads of the links, when it is
    asked for the [n]-th time; and what the aircraft interface says for the first
    decision and for the fallback: a position with the altitude in meters and
    whether the aircraft is on ground, if it is valid. *)
Context (mih_request : nat → bytes → bool).
Context (policy_ctx : nat → PolicyContext) (adif_state : nat → option (spec_float * spec_float * spec_float * bool)).

Fixpoint mcar_try_link_with_retry (attempts : nat) (link : bytes) (ctx : McarProcessContext) : bool * McarProcessContext :=
  match attempts with
  | 0%nat => (false, ctx)
  | S attempts =>
      let n := length (requests ctx) in
      let ctx := Mcar (tried_links ctx) (requests ctx ++ [link]) (policy_resp ctx) in
      if mih_request n link then (true, ctx) else mcar_try_link_with_retry attempts link ctx
  end.

(** The data of the aircraft in a request. *)
Definition with_adif (a : option (spec_float * spec_float * spec_float * bool)) (req : PolicyRequest) : PolicyRequest :=
  let '(lat, lon, alt, ground) := default (S754_zero false, S754_zero false, S754_zero false, false) a in
  PolicyReq (req_client_id req) (req_profile_name req) (requested_bw_kbps req) (requested_ret_bw_kbps req) (priority_class req)
    (req_qos_level req) (flight_phase req) (exclude_links req) lat lon alt ground (bool_decide (is_Some a)).

(** The links already tried go into the request. *)
Definition with_excluded (l : list bytes) (req : PolicyRequest) : PolicyRequest :=
  PolicyReq (req_client_id req) (req_profile_name req) (requested_bw_kbps req) (requested_ret_bw_kbps req) (priority_class req)
    (req_qos_level req) (flight_phase req) l (aircraft_lat req) (aircraft_lon req) (aircraft_alt req) (on_ground req) (has_adif_data req).

(** The turn [i] and [n - 1] more. *)
Fixpoint fallback_loop (n i : nat) (req : PolicyRequest) (ctx : McarProcessContext) : res (bool * McarProcessContext) :=
  match n with
  | 0%nat => Ok (false, ctx)
  | S n =>
      let* resp := magic_policy_select_path (policy_ctx (S i)) (with_excluded (tried_links ctx) req) in
      if negb (success resp) then Ok (false, ctx)
      else if mcar_link_already_tried ctx (selected_link_id resp) then fallback_loop n (S i) req ctx
      else
        let '(ok, ctx) := mcar_try_link_with_retry MCAR_RETRY_MAX_COUNT (selected_link_id resp)
                            (mcar_mark_link_tried (selected_link_id resp) ctx) in
        if ok : bool then Ok (true, Mcar (tried_links ctx) (requests ctx) resp) else fallback_loop n (S i) req ctx
  end.

(** The request is built again, with the same parameters and what the aircraft
    interface says now. *)
Definition mcar_try_fallback_links (req : PolicyRequest) : McarProcessContext → res (bool * McarProcessContext) :=
  fallback_loop MCAR_FALLBACK_MAX_LINKS 0 (with_adif (adif_state 1) req).

(** From the decision of the policy to the resources: steps 4.3 and 4.4 of
    scenario C; [req] holds the parameters of the client. *)
Definition mcar_allocate (req : PolicyRequest) : res (bool * McarProcessContext) :=
  let* resp := magic_policy_select_path (policy_ctx 0) (with_adif (adif_state 0) req) in
  if negb (success resp) then Ok (false, Mcar [] [] resp)
  else
    let ctx := mcar_mark_link_tried (selected_link_id resp) (Mcar [] [] resp) in
    let '(ok, ctx) := mcar_try_link_with_retry MCAR_RETRY_MAX_COUNT (selected_link_id resp) ctx in
    if ok : bool then Ok (true, ctx) else mcar_try_fallback_links req ctx.
End mcar.
