(* ===== verification/MagicPolicySpec.v ===== *)
(** * What the policy engine of MAGIC decides

    The language of the patterns; the links that a request may get and the one it
    gets; the two sides of the protection against switching back and forth; and
    what the fallback of [magic_cic.c] comes to, since the engine does not read
    the links to exclude. *)

From Stdlib Require Import ZArith Lia String SpecFloat.
From stdpp Require Import base list.
From S2P Require Import Prelude Ostr CoreMsg Sessions MagicConfig MagicPolicy.

(** ** Patterns *)

(** [globs pattern s]: [*] stands for any bytes, [?] for one, and any other
    character for itself, whatever its case. *)
Inductive globs : bytes → bytes → Prop :=
  | globs_end : globs [] []
  | globs_star p s1 s2 : globs p s2 → globs (42 :: p) (s1 ++ s2)
  | globs_any p c s : globs p s → globs (63 :: p) (c :: s)
  | globs_char x p c s :
      x ≠ 42 → x ≠ 63 → asciitolower x = asciitolower c → globs p s → globs (x :: p) (c :: s).
#[local] Hint Constructors globs : core.

Lemma wildcard_star p s :
  magic_policy_wildcard_match (42 :: p) s = true ↔ ∃ s1 s2, s = s1 ++ s2 ∧ magic_policy_wildcard_match p s2 = true.
Proof.
  induction s as [|c s IH].
  - change (magic_policy_wildcard_match (42 :: p) []) with (magic_policy_wildcard_match p []). split.
    + intros H. by exists [], [].
    + intros (s1 & s2 & [-> ->]%eq_sym%app_nil & H). done.
  - change (magic_policy_wildcard_match (42 :: p) (c :: s)) with
      (if decide (p = []) then true
       else magic_policy_wildcard_match p (c :: s) || magic_policy_wildcard_match (42 :: p) s).
    case_decide as Hp.
    { subst. split; [intros _|done]. exists (c :: s), []. by rewrite app_nil_r. }
    rewrite orb_true_iff, IH. split.
    + intros [H|(s1 & s2 & -> & H)]; [by exists [], (c :: s)|by exists (c :: s1), s2].
    + intros ([|b s1] & s2 & E & H); simplify_eq/=; [by left|]. right. eauto.
Qed.

Lemma wildcard_char x p c s :
  x ≠ 42 →
  magic_policy_wildcard_match (x :: p) (c :: s) = true ↔
  (x = 63 ∨ asciitolower x = asciitolower c) ∧ magic_policy_wildcard_match p s = true.
Proof. intros Hx. cbn. repeat case_decide; simplify_eq; naive_solver. Qed.

(** C20: [magic_policy_wildcard_match] decides the language of the patterns: the
    loop with its early end at a trailing [*], its recursion at each position and
    the stars it drops at the end accept exactly the strings that the pattern
    describes. *)
Theorem wildcard_match_globs p s : magic_policy_wildcard_match p s = true ↔ globs p s.
Proof.
  split.
  - revert s. induction p as [|x p IH]; intros s.
    { destruct s; [auto|done]. }
    destruct (decide (x = 42)) as [->|Hx].
    { rewrite wildcard_star. intros (s1 & s2 & -> & H). eauto. }
    destruct s as [|c s]; [cbn; by rewrite decide_False|]. rewrite wildcard_char by done.
    destruct (decide (x = 63)) as [->|]; naive_solver.
  - induction 1 as [|p s1 s2 _ IH|p c s _ IH|x p c s H1 H2 H3 _ IH].
    + done.
    + apply wildcard_star. eauto.
    + apply wildcard_char; [done|]. auto.
    + apply wildcard_char; auto.
Qed.

(** ** The links of a request *)

Definition in_range (lo hi x : spec_float) : Prop := SFltb x lo = false ∧ SFltb hi x = false.

(** The position is within the coverage of a link; the altitude is known in metres
    and the limits are in feet. *)
Definition covered (c : CoverageConfig) (req : PolicyRequest) : Prop :=
  in_range (min_latitude c) (max_latitude c) (aircraft_lat req) ∧
  in_range (min_longitude c) (max_longitude c) (aircraft_lon req) ∧
  in_range (double_of (min_altitude_ft c)) (double_of (max_altitude_ft c)) (SFmul 53 1024 (aircraft_alt req) FEET).

(** The position is known: the two coordinates are not 0 at once. *)
Definition located (req : PolicyRequest) : Prop :=
  SFeqb (aircraft_lat req) (S754_zero false) = false ∨ SFeqb (aircraft_lon req) (S754_zero false) = false.

(** The link of a preference may carry the request. *)
Record admissible (ctx : PolicyContext) (client : ClientProfile) (req : PolicyRequest) (pref : PathPreference) (dlm : DLMConfig) : Prop := {
  adm_action : pref_action pref ≠ ACTION_PROHIBIT;
  adm_allowed : allowed_dlms client = [] ∨ link_id pref ∈ allowed_dlms client;
  adm_dlm : magic_config_find_dlm (config ctx) (link_id pref) = Some dlm;
  adm_active : is_active dlm = true;
  adm_coverage : has_adif_data req = true → adif_degraded_mode (config ctx) = false → cov_enabled (coverage dlm) = true →
    located req → covered (coverage dlm) req;
  adm_wheels : has_adif_data req = true →
    (on_ground_only pref = true → on_ground req = true) ∧ (airborne_only pref = true → on_ground req = false) }.

Lemma check_coverage_iff c req :
  cov_enabled c = true →
  magic_policy_check_coverage c (aircraft_lat req) (aircraft_lon req) (aircraft_alt req) = true ↔ covered c req.
Proof.
  intros Hc. unfold magic_policy_check_coverage, covered, in_range, out_of. rewrite Hc. cbn [negb].
  repeat match goal with |- context [SFltb ?x ?y] => destruct (SFltb x y) end; cbn; naive_solver.
Qed.

Lemma is_dlm_allowed_iff client l :
  magic_config_is_dlm_allowed client l = true ↔ allowed_dlms client = [] ∨ l ∈ allowed_dlms client.
Proof. unfold magic_config_is_dlm_allowed. by rewrite orb_true_iff, !bool_decide_eq_true. Qed.

Lemma candidate_link_iff ctx client req pref dlm :
  candidate_link ctx client req pref = Some dlm ↔ admissible ctx client req pref dlm.
Proof.
  unfold candidate_link. split.
  - case_decide as Ha; [done|]. destruct (magic_config_is_dlm_allowed client (link_id pref)) eqn:Hd; [|done]. cbn [negb].
    destruct (magic_config_find_dlm (config ctx) (link_id pref)) as [d|] eqn:Hf; [|done]. cbn.
    destruct (is_active d) eqn:Hi; [|done]. cbn [negb].
    destruct (_ && _) eqn:Hc; [done|]. destruct (has_adif_data req && _) eqn:Hw; [done|]. intros [= ->].
    split; [done|by apply is_dlm_allowed_iff|done|done| |].
    + intros Hh Hg He Hl. apply check_coverage_iff; [done|]. revert Hc. rewrite Hh, Hg, He. cbn.
      destruct Hl as [-> | ->]; cbn; rewrite ?orb_true_r; cbn; by destruct (magic_policy_check_coverage _ _ _ _).
    + intros Hh. revert Hw. rewrite Hh. cbn. destruct (on_ground_only pref), (airborne_only pref), (on_ground req); cbn; intuition.
  - intros [Ha Hd Hf Hi Hc Hw]. rewrite decide_False by done. rewrite (proj2 (is_dlm_allowed_iff _ _) Hd). cbn [negb].
    rewrite Hf. cbn. rewrite Hi. cbn [negb].
    assert (negb (adif_degraded_mode (config ctx)) && cov_enabled (coverage dlm) && has_adif_data req &&
            (negb (SFeqb (aircraft_lat req) (S754_zero false)) || negb (SFeqb (aircraft_lon req) (S754_zero false))) &&
            negb (magic_policy_check_coverage (coverage dlm) (aircraft_lat req) (aircraft_lon req) (aircraft_alt req)) = false) as ->.
    { apply not_true_iff_false. rewrite !andb_true_iff, orb_true_iff, !negb_true_iff. intros ((((Hg & He) & Hh) & Hl) & Hn).
      apply not_true_iff_false in Hn. apply Hn, check_coverage_iff; [done|]. by apply Hc. }
    destruct (has_adif_data req); [|done]. destruct (Hw eq_refl) as [H1 H2]. cbn.
    destruct (on_ground_only pref), (airborne_only pref), (on_ground req); cbn; naive_solver.
Qed.

(** ** The choice *)

(** The preference number [i] of the list offers a link with a score. *)
Definition offers (ctx : PolicyContext) (client : ClientProfile) (req : PolicyRequest) (prefs : list PathPreference)
    (i : nat) (pref : PathPreference) (dlm : DLMConfig) (score : Z) : Prop :=
  prefs !! i = Some pref ∧ admissible ctx client req pref dlm ∧ final_score ctx client req pref dlm = Ok score.

(** The best offer above a score, the first one among equals. *)
Definition best_offer (ctx : PolicyContext) (client : ClientProfile) (req : PolicyRequest) (prefs : list PathPreference)
    (above : Z) (pref : PathPreference) (dlm : DLMConfig) (score : Z) : Prop :=
  above < score ∧ ∃ i, offers ctx client req prefs i pref dlm score ∧
    ∀ j pref' dlm' score', offers ctx client req prefs j pref' dlm' score' → score' ≤ score ∧ ((j < i)%nat → score' < score).

Definition no_offer (ctx : PolicyContext) (client : ClientProfile) (req : PolicyRequest) (prefs : list PathPreference) (above : Z) : Prop :=
  ∀ i pref dlm score, offers ctx client req prefs i pref dlm score → score ≤ above.

Section choice.
Context (ctx : PolicyContext) (client : ClientProfile) (req : PolicyRequest).

Lemma offers_head pref prefs i p d s :
  offers ctx client req (pref :: prefs) i p d s →
  i = 0%nat ∧ p = pref ∧ admissible ctx client req pref d ∧ final_score ctx client req pref d = Ok s ∨
  ∃ j, i = S j ∧ offers ctx client req prefs j p d s.
Proof. intros (Hi & Ha & Hs). destruct i as [|i]; simplify_eq/=; [by left|]. right. exists i. split; [done|]. by split. Qed.

Lemma best_link_spec prefs best :
  (∀ pref dlm, pref ∈ prefs → admissible ctx client req pref dlm → ∃ score, final_score ctx client req pref dlm = Ok score) →
  ∃ score choice, best_link ctx client req prefs best = Ok (score, choice) ∧
    ((score, choice) = best ∧ no_offer ctx client req prefs (fst best) ∨
     ∃ pref dlm, choice = Some (dlm, pref) ∧ best_offer ctx client req prefs (fst best) pref dlm score).
Proof.
  revert best. induction prefs as [|pref prefs IH]; intros best Hdef.
  { exists (fst best), (snd best). split; [by destruct best|]. left. split; [by destruct best|]. by intros i ? ? ? ([=] & _). }
  assert (∀ p d, p ∈ prefs → admissible ctx client req p d → ∃ s, final_score ctx client req p d = Ok s) as Htl
    by (intros p d Hp; apply Hdef; by right).
  cbn [best_link]. destruct (candidate_link ctx client req pref) as [dlm|] eqn:Hc.
  - apply candidate_link_iff in Hc as Ha. destruct (Hdef pref dlm) as [s Hs]; [by left|done|]. rewrite Hs. cbn [res_bind].
    assert (∀ d, admissible ctx client req pref d → d = dlm) as Hone.
    { intros d Hd. apply candidate_link_iff in Hd. congruence. }
    set (best' := if decide (s > fst best) then (s, Some (dlm, pref)) else best).
    assert (s ≤ fst best' ∧ fst best ≤ fst best') as [Hb1 Hb2] by (unfold best'; case_decide; cbn; lia).
    destruct (IH best' Htl) as (score & choice & -> & Hres). exists score, choice. split; [done|].
    destruct Hres as [[He Hno]|(p & d & Hch & Hlt & i & Ho & Hmax)].
    + unfold best' in He, Hno. case_decide as Hgt; simplify_eq/=.
      * right. exists pref, dlm. split; [done|]. split; [lia|]. exists 0%nat. split; [done|].
        intros j p' d' s' [(-> & -> & Ha' & Hs')|(k & -> & Ho)]%offers_head.
        -- apply Hone in Ha' as ->. split; [|lia]. assert (s' = s) by congruence. lia.
        -- split; [|lia]. by apply Hno in Ho.
      * left. split; [done|]. intros j p' d' s' [(-> & -> & Ha' & Hs')|(k & -> & Ho)]%offers_head; [|by apply Hno in Ho].
        apply Hone in Ha' as ->. assert (s' = s) by congruence. lia.
    + right. exists p, d. split; [done|]. split; [lia|]. exists (S i). split; [done|].
      intros j p' d' s' [(-> & -> & Ha' & Hs')|(k & -> & Ho')]%offers_head.
      * apply Hone in Ha' as ->. assert (s' = s) by congruence. subst. split; [|intros _]; lia.
      * destruct (Hmax _ _ _ _ Ho'). split; [done|]. intros Hk. by auto with lia.
  - assert (∀ i p d s, offers ctx client req (pref :: prefs) i p d s → ∃ j, i = S j ∧ offers ctx client req prefs j p d s) as Hsk.
    { intros i p d s [(-> & -> & Ha & _)|?]%offers_head; [|done]. apply candidate_link_iff in Ha. congruence. }
    destruct (IH best Htl) as (score & choice & -> & Hres). exists score, choice. split; [done|].
    destruct Hres as [[He Hno]|(p & d & Hch & Hlt & i & Ho & Hmax)].
    + left. split; [done|]. intros i p d s (j & -> & Ho)%Hsk. by eapply Hno.
    + right. exists p, d. split; [done|]. split; [done|]. exists (S i). split; [done|].
      intros j p' d' s' (k & -> & Ho')%Hsk. destruct (Hmax _ _ _ _ Ho'). split; [done|]. intros Hk. by auto with lia.
Qed.
End choice.

(** The headroom of a link fits in the 32 bits that the score converts it to. *)
Definition headroom_fits (bw : Z) (dlm : DLMConfig) : Prop :=
  SFleb (float_of bw) (max_forward_bw_kbps dlm) = true →
  ∃ n, u32_of (SFsub 24 128 (max_forward_bw_kbps dlm) (float_of bw)) = Ok n.

Lemma final_score_defined ctx client req pref dlm :
  headroom_fits (requested_bw_kbps req) dlm → ∃ score, final_score ctx client req pref dlm = Ok score.
Proof.
  intros Hh. unfold final_score, calculate_link_score. destruct (match max_latency_ms pref with Some _ => _ | None => _ end).
  { cbn. eauto. }
  cbn zeta. destruct (SFleb _ _) eqn:Hle; [destruct (Hh Hle) as [n ->]|]; cbn; eauto.
Qed.

Lemma first_of_elem {A} (P : A → bool) l x : first_of P l = Some x → x ∈ l ∧ P x = true.
Proof.
  unfold first_of. intros ([i y] & Hf & Hx)%fmap_Some. cbn in Hx. subst. apply list_find_Some in Hf as (Hi & HP & _).
  split; [by eapply list_elem_of_lookup_2|done].
Qed.

(** The client may ask for this bandwidth. *)
Definition served (ctx : PolicyContext) (req : PolicyRequest) (client : ClientProfile) : Prop :=
  magic_config_find_client (config ctx) (req_client_id req) = Some client ∧ client_enabled client = true ∧
  requested_bw_kbps req ≤ max_client_bw client.

Definition class_of (ctx : PolicyContext) (req : PolicyRequest) : bytes :=
  magic_policy_classify_traffic (policy (config ctx)) (priority_class req) (req_qos_level req) (req_profile_name req).

(** The rule that applies to a client: of its class in the rule set of the phase. *)
Definition rule_for (ctx : PolicyContext) (req : PolicyRequest) (client : ClientProfile) : option PolicyRule :=
  r ← ruleset_for (config ctx) (flight_phase req); matched_rule client (class_of ctx req) r.

(** The decisions that the policy allows. *)
Inductive decides (ctx : PolicyContext) (req : PolicyRequest) : PolicyResponse → Prop :=
  | dec_not_served why :
      (∀ client, ¬ served ctx req client) → why ∈ [ClientNotFound; ClientDisabled; TooMuchBandwidth] →
      decides ctx req (refused_for why [])
  | dec_no_rule client why class :
      served ctx req client → rule_for ctx req client = None → why ∈ [NoRulesets; NoRule] →
      decides ctx req (refused_for why class)
  | dec_no_link client rule :
      served ctx req client → rule_for ctx req client = Some rule →
      no_offer ctx client req (preferences rule) REJECTED →
      decides ctx req (refused_for NoLink (strncpy MAX_ID_LEN (class_of ctx req)))
  | dec_link client rule pref dlm score :
      served ctx req client → rule_for ctx req client = Some rule →
      best_offer ctx client req (preferences rule) REJECTED pref dlm score →
      decides ctx req (PolicyResp true (strncpy MAX_ID_LEN (dlm_name dlm)) (requested_bw_kbps req) (requested_ret_bw_kbps req)
        (req_qos_level req) (Some (Selected (ranking pref) score)) (strncpy MAX_ID_LEN (class_of ctx req))).

(** C14: [magic_policy_select_path] always answers, and its answer is a decision of
    the policy: it refuses when the client is unknown, disabled or asks for more
    than its limit, when no rule applies, or when no admissible link has a score;
    otherwise the link is one of the rule's preferences, not prohibited, allowed
    to the client, active, covering the position of the aircraft and fit for the
    state of its wheels, and no admissible link has a better score (nor an equal
    one before it in the rule). *)
Theorem select_path_decides ctx req :
  Forall (headroom_fits (requested_bw_kbps req)) (dlm_configs (config ctx)) →
  ∃ resp, magic_policy_select_path ctx req = Ok resp ∧ decides ctx req resp.
Proof.
  intros Hfit. unfold magic_policy_select_path.
  destruct (magic_config_find_client _ _) as [client|] eqn:Hc.
  2: { eexists. split; [done|]. apply dec_not_served; [|by left]. intros c (Hc' & _). congruence. }
  destruct (client_enabled client) eqn:He; cbn [negb].
  2: { eexists. split; [done|]. apply dec_not_served; [|right; by left]. intros c (Hc' & He' & _). congruence. }
  case_decide as Hbw.
  { eexists. split; [done|]. apply dec_not_served; [|right; right; by left]. intros c (Hc' & _ & Hb'). simplify_eq. lia. }
  assert (served ctx req client) as Hs by (split; [done|split; [done|lia]]).
  destruct (ruleset_for _ _) as [r|] eqn:Hr.
  2: { eexists. split; [done|]. eapply dec_no_rule; [done| |by left]. unfold rule_for. by rewrite Hr. }
  destruct (matched_rule client _ r) as [rule|] eqn:Hm.
  2: { eexists. split; [done|]. eapply dec_no_rule; [done| |right; by left]. unfold rule_for. by rewrite Hr. }
  assert (rule_for ctx req client = Some rule) as Hrule by (unfold rule_for; by rewrite Hr).
  destruct (best_link_spec ctx client req (preferences rule) (REJECTED, None)) as (score & choice & Hbest & Hres).
  { intros pref dlm _ Ha. apply final_score_defined. rewrite Forall_forall in Hfit. apply Hfit.
    by destruct (first_of_elem _ _ _ (adm_dlm _ _ _ _ _ Ha)). }
  rewrite Hbest. cbn [res_bind].
  destruct Hres as [[[= -> ->] Hno]|(pref & dlm & -> & Hb)]; eexists; (split; [done|]).
  - by apply (dec_no_link _ _ client rule).
  - by apply (dec_link _ _ client rule).
Qed.

(** ** Switching *)

(** Two links of qualities [q] and [q'] do not alternate: when the margin of the
    better one is at least one point, a switch that is allowed excludes the switch
    back with the same qualities, at whatever time and whenever the last one. *)
Theorem no_switch_back sw link link' last last' q q' now now' :
  0 < q → 0 < q' → q' * hysteresis_percentage sw < 2 ^ 32 → q + q * hysteresis_percentage sw < 2 ^ 32 →
  q' + q' * hysteresis_percentage sw < 2 ^ 32 → 100 ≤ q' * hysteresis_percentage sw → 0 ≤ hysteresis_percentage sw →
  link ≠ [] → link' ≠ [] →
  magic_policy_can_switch_link sw link last q now link' q' = true →
  magic_policy_can_switch_link sw link' last' q' now' link q = false.
Proof.
  intros Hq Hq' H1 H2 H3 Hh H0 Hl Hl'. unfold magic_policy_can_switch_link.
  rewrite (decide_False (P := link = [])), (decide_False (P := link' = [])) by done.
  case_decide; [done|]. case_decide; [done|]. rewrite decide_True by lia.
  rewrite decide_False by done. case_decide; [done|]. rewrite decide_True by lia.
  rewrite bool_decide_eq_true, bool_decide_eq_false. unfold w32.
  assert (0 ≤ q * hysteresis_percentage sw) by nia. assert (1 ≤ q' * hysteresis_percentage sw / 100) by (apply Z.div_le_lower_bound; lia).
  assert (q' * hysteresis_percentage sw / 100 ≤ q' * hysteresis_percentage sw) by (apply Z.div_le_upper_bound; lia).
  assert (0 ≤ q * hysteresis_percentage sw / 100) by (apply Z.div_pos; lia).
  assert (q * hysteresis_percentage sw / 100 ≤ q * hysteresis_percentage sw) by (apply Z.div_le_upper_bound; lia).
  rewrite (Z.mod_small (q * _)), (Z.mod_small (q' * _)) by lia. rewrite !Z.mod_small by lia. lia.
Qed.

(** ** The fallback *)

Lemma strncpy_idem n s : strncpy n (strncpy n s) = strncpy n s.
Proof. unfold strncpy. by rewrite take_take, Nat.min_id. Qed.

Lemma best_link_excluded ctx client req l prefs best :
  best_link ctx client (with_excluded l req) prefs best = best_link ctx client req prefs best.
Proof.
  revert best. induction prefs as [|pref prefs IH]; intros best; [done|]. cbn [best_link].
  change (candidate_link ctx client (with_excluded l req) pref) with (candidate_link ctx client req pref).
  destruct (candidate_link ctx client req pref) as [dlm|]; [|done].
  change (final_score ctx client (with_excluded l req) pref dlm) with (final_score ctx client req pref dlm).
  destruct (final_score ctx client req pref dlm); [cbn [res_bind]; apply IH|done|done].
Qed.

(** The links to exclude change nothing. *)
Lemma select_path_excluded ctx req l :
  magic_policy_select_path ctx (with_excluded l req) = magic_policy_select_path ctx req.
Proof.
  unfold magic_policy_select_path. cbn [req_client_id requested_bw_kbps flight_phase priority_class req_qos_level
    req_profile_name requested_ret_bw_kbps with_excluded].
  repeat case_match; try done. by rewrite best_link_excluded.
Qed.

Lemma selected_fits ctx req resp :
  magic_policy_select_path ctx req = Ok resp → strncpy MAX_ID_LEN (selected_link_id resp) = selected_link_id resp.
Proof.
  unfold magic_policy_select_path, refused_for. do 5 (case_match; try by intros [= <-]).
  match goal with |- context [best_link ?a ?b ?c ?d ?e] => destruct (best_link a b c d e) as [[score [[dlm pref]|]]| |] end;
    cbn [res_bind]; [| |done|done].
  - intros [= <-]. apply strncpy_idem.
  - by intros [= <-].
Qed.

Section fallback.
Context (mih_request : nat → bytes → bool).
Context (policy_ctx : nat → PolicyContext) (adif_state : nat → option (spec_float * spec_float * spec_float * bool)).

Lemma retry_spec n link ctx ok ctx' :
  mcar_try_link_with_retry mih_request n link ctx = (ok, ctx') →
  tried_links ctx' = tried_links ctx ∧
  ∃ k, (k ≤ n)%nat ∧ requests ctx' = requests ctx ++ replicate k link ∧
    (ok = true → (0 < k)%nat ∧ mih_request (length (requests ctx) + (k - 1)) link = true) ∧
    (ok = false → k = n ∧ ∀ j, (j < n)%nat → mih_request (length (requests ctx) + j) link = false).
Proof.
  revert ctx. induction n as [|n IH]; intros ctx; cbn [mcar_try_link_with_retry].
  { intros [= <- <-]. split; [done|]. exists 0%nat. rewrite app_nil_r. repeat split; try done; lia. }
  destruct (mih_request _ _) eqn:Hr.
  - intros [= <- <-]. split; [done|]. exists 1%nat. split; [lia|]. split; [done|]. split; [|done]. intros _. split; [lia|].
    by rewrite Nat.add_0_r.
  - intros (Ht & k & Hk & Hq & Hok & Hno)%IH. split; [done|]. exists (S k). cbn [requests] in *. rewrite length_app in *. cbn in *.
    rewrite Hq, <- app_assoc. split; [lia|]. split; [done|]. split.
    + intros [Hp Hm]%Hok. split; [lia|]. rewrite <- Hm. f_equal. lia.
    + intros [-> Hm]%Hno. split; [done|]. intros [|j] Hj; [by rewrite Nat.add_0_r|]. rewrite <- (Hm j) by lia. f_equal. lia.
Qed.

(** The engine answers with the same link at each turn, and it was tried. *)
Lemma fallback_stuck n i req resp ctx :
  (∀ j, (j < n)%nat → magic_policy_select_path (policy_ctx (S (i + j))) req = Ok resp) → success resp = true →
  selected_link_id resp ∈ tried_links ctx →
  fallback_loop mih_request policy_ctx n i req ctx = Ok (false, ctx).
Proof.
  intros Hsel Hs Ht. revert i Hsel. induction n as [|n IH]; intros i Hsel; cbn [fallback_loop]; [done|].
  rewrite select_path_excluded. pose proof (Hsel 0%nat ltac:(lia)) as H0. rewrite Nat.add_0_r in H0. rewrite H0.
  cbn [res_bind]. rewrite Hs. cbn [negb]. unfold mcar_link_already_tried. rewrite bool_decide_true by done.
  apply IH. intros j Hj. rewrite <- (Hsel (S j)) by lia. do 2 f_equal. lia.
Qed.

(** C19: the fallback of a request never reaches another link.  While the context
    of the engine (the policy, the loads of the links) and the data of the aircraft
    stay the same: when the policy selects a link, the requests for resources are one to three requests to that
    link, the last of which was granted or all three of which were refused, even
    when other links of the rule are free; for the links already tried, which the
    code puts into the next question to the engine, are not read there, and the
    same link comes back at each of the four turns. *)
Theorem mcar_allocate_one_link req resp :
  (∀ i, (i ≤ MCAR_FALLBACK_MAX_LINKS)%nat → policy_ctx i = policy_ctx 0%nat) → adif_state 1%nat = adif_state 0%nat →
  magic_policy_select_path (policy_ctx 0%nat) (with_adif (adif_state 0%nat) req) = Ok resp → success resp = true →
  ∃ ok ctx k, mcar_allocate mih_request policy_ctx adif_state req = Ok (ok, ctx) ∧
    requests ctx = replicate k (selected_link_id resp) ∧ (1 ≤ k ≤ 3)%nat ∧
    (ok = true → mih_request (k - 1) (selected_link_id resp) = true) ∧
    (ok = false → k = 3%nat ∧ ∀ j, (j < 3)%nat → mih_request j (selected_link_id resp) = false).
Proof.
  intros Hctx Hadif Hsel Hs. unfold mcar_allocate. rewrite Hsel. cbn [res_bind]. rewrite Hs. cbn [negb].
  set (ctx0 := mcar_mark_link_tried _ _).
  assert (tried_links ctx0 = [selected_link_id resp] ∧ requests ctx0 = []) as [Ht0 Hq0].
  { unfold ctx0, mcar_mark_link_tried. cbn [tried_links length]. rewrite decide_True by (unfold MCAR_FALLBACK_MAX_LINKS; lia).
    cbn [tried_links requests]. by rewrite (selected_fits _ _ _ Hsel). }
  destruct (mcar_try_link_with_retry mih_request MCAR_RETRY_MAX_COUNT (selected_link_id resp) ctx0) as [ok ctx] eqn:Hr.
  apply retry_spec in Hr as (Ht & k & Hk & Hq & Hok & Hno). rewrite Hq0 in *. cbn in Hq, Hok, Hno.
  unfold MCAR_RETRY_MAX_COUNT in *. destruct ok.
  - destruct Hok as [Hp Hm]; [done|]. exists true, ctx, k. split; [done|]. split; [done|]. split; [lia|]. done.
  - destruct Hno as [-> Hm]; [done|]. exists false, ctx, 3%nat. split; [|split; [done|split; [lia|done]]].
    unfold mcar_try_fallback_links. apply (fallback_stuck _ _ _ resp); [|done|rewrite Ht, Ht0; by left].
    intros j Hj. by rewrite Hadif, Hctx by lia.
Qed.
End fallback.

(** ** Examples *)

Module Links.
Definition everywhere : CoverageConfig :=
  Coverage false (double_of 0) (double_of 0) (double_of 0) (double_of 0) 0 0.

(** The north-eastern quarter, up to 60000 feet. *)
Definition north_east : CoverageConfig :=
  Coverage true (double_of 0) (double_of 90) (double_of 0) (double_of 180) 0 60000.

Definition sat : DLMConfig := Dlm (str "SATCOM") DLM_TYPE_SATELLITE (float_of 5000) [0; 1] 600 north_east true.
Definition cell : DLMConfig := Dlm (str "CELL") DLM_TYPE_CELLULAR (float_of 2000) [0; 1; 2] 40 everywhere true.

Definition use (link : bytes) (rank : Z) (max_latency : option Z) (ground : bool) : PathPreference :=
  Pref rank link ACTION_PERMIT max_latency ground false.

(** The cellular link on ground first, then the satellite. *)
Definition any_traffic : PolicyRule := Rule (str "ALL_TRAFFIC") [use (str "CELL") 1 None true; use (str "SATCOM") 2 None false].
(** The satellite, if it answers within half a second. *)
Definition urgent : PolicyRule := Rule (str "VOICE") [use (str "SATCOM") 1 (Some 500) false].

Definition crew : ClientProfile := Client (str "crew") (str "CREW") true 3000 2 [] [] [] [].
Definition pax : ClientProfile := Client (str "pax") (str "PAX") true 3000 5 [] [] (str "SATCOM") [].

Definition site : MagicConfig :=
  Magic [sat; cell]
    (Central [ClassDef (str "VOICE") None None [str "*voice*"] false] (Switching 30 20)
       [RuleSet (str "TAXI,CRUISE") [urgent; any_traffic]])
    [crew; pax] false.
Definition engine : PolicyContext := PolicyCtx site (Some [DlmCl true (str "CELL") 1]).

(** A request of 1 Mb/s from 48 north, 2 east. *)
Definition ask (who what : bytes) (ground : bool) : PolicyRequest :=
  PolicyReq who what 1000 500 2 1 (str "CRUISE") [] (double_of 48) (double_of 2) (double_of 9000) ground true.

(** In flight the cellular link is not fit, on ground it wins. *)
Example in_flight :
  magic_policy_select_path engine (ask (str "crew") (str "web") false) =
  Ok (PolicyResp true (str "SATCOM") 1000 500 1 (Some (Selected 2 7995)) (str "BEST_EFFORT")).
Proof. by vm_compute. Qed.

Example on_the_ground :
  magic_policy_select_path engine (ask (str "crew") (str "web") true) =
  Ok (PolicyResp true (str "CELL") 1000 500 1 (Some (Selected 1 8513)) (str "BEST_EFFORT")).
Proof. by vm_compute. Qed.

(** The satellite is too slow for voice; but a client whose preferred link it is
    gets it: the 500 points of the preference lift the score of a rejected link
    above the one that stands for no link. *)
Example too_slow :
  magic_policy_select_path engine (ask (str "crew") (str "HD-Voice/1") false) = Ok (refused_for NoLink (str "VOICE")).
Proof. by vm_compute. Qed.

Example too_slow_but_preferred :
  magic_policy_select_path engine (ask (str "pax") (str "HD-Voice/1") false) =
  Ok (PolicyResp true (str "SATCOM") 1000 500 1 (Some (Selected 1 (-999499))) (str "VOICE")).
Proof. by vm_compute. Qed.

Lemma headrooms_fit : Forall (headroom_fits 1000) (dlm_configs (config engine)).
Proof. repeat constructor; intros _; vm_compute; eauto. Qed.

Lemma select_path_decides_witness :
  ∃ resp, magic_policy_select_path engine (ask (str "crew") (str "web") false) = Ok resp ∧
    decides engine (ask (str "crew") (str "web") false) resp.
Proof. apply select_path_decides. exact headrooms_fit. Defined.

(** The aircraft of [ask], on ground. *)
Definition on_ground_now : option (spec_float * spec_float * spec_float * bool) :=
  Some (double_of 48, double_of 2, double_of 9000, true).

(** The cellular link refuses and the satellite would accept. *)
Definition only_sat (n : nat) (link : bytes) : bool := same link (str "SATCOM").

Definition chosen : PolicyResponse := PolicyResp true (str "CELL") 1000 500 1 (Some (Selected 1 8513)) (str "BEST_EFFORT").

Lemma mcar_allocate_one_link_witness :
  ∃ ok ctx k, mcar_allocate only_sat (λ _, engine) (λ _, on_ground_now) (ask (str "crew") (str "web") true) = Ok (ok, ctx) ∧
    requests ctx = replicate k (selected_link_id chosen) ∧ (1 ≤ k ≤ 3)%nat ∧
    (ok = true → only_sat (k - 1) (selected_link_id chosen) = true) ∧
    (ok = false → k = 3%nat ∧ ∀ j, (j < 3)%nat → only_sat j (selected_link_id chosen) = false).
Proof. apply mcar_allocate_one_link; first [done | by vm_compute]. Defined.

Example satellite_never_asked :
  mcar_allocate only_sat (λ _, engine) (λ _, on_ground_now) (ask (str "crew") (str "web") true) =
  Ok (false, Mcar [str "CELL"] [str "CELL"; str "CELL"; str "CELL"] chosen).
Proof. by vm_compute. Qed.

(** A phase whose name is a part of another's takes its rules; a margin of 20%
    keeps the two links from alternating. *)
Example phase_by_part : magic_config_find_ruleset site (str "AXI") = head (rulesets (policy site)).
Proof. by vm_compute. Qed.

Lemma no_switch_back_witness :
  magic_policy_can_switch_link (Switching 30 20) (str "SATCOM") 0 50 1000 (str "CELL") 60 = true ∧
  magic_policy_can_switch_link (Switching 30 20) (str "CELL") 0 60 2000 (str "SATCOM") 50 = false.
Proof.
  split; [by_compute|]. apply (no_switch_back (Switching 30 20) (str "SATCOM") (str "CELL") 0 0 50 60 1000 2000); by_compute.
Defined.
End Links.
