(* ===== verification/MagicSession.v ===== *)
(** * The sessions of MAGIC ([app_magic/magic_session.c])

    The table of the sessions of the clients, the table of the clients with their
    quotas, the rules of traffic of a session, and the life that [magic_cic.c] and
    [magic_cic_push.c] give to a session.  A pointer to a session or a client is
    its slot.  The mutex is not modelled: an operation runs as one step.  The
    fields that these files only store for others are left out; the calls to
    [magic_dataplane_remove_client_route] are recorded.  [now] is [time(NULL)]. *)

From Stdlib Require Import ZArith Lia String.
From stdpp Require Import base list.
From S2P Require Import Prelude Ostr CoreMsg MagicConfig.

Definition MAX_SESSIONS : nat := 100.
Definition MAX_SESSION_ID_LEN : nat := 128.
Definition MAX_SESSIONS_PER_CLIENT : nat := 10.
Definition MAX_TFT_PER_SESSION : nat := 8.
Definition MAX_CLIENTS : nat := 50.

(** ** Data *)

Inductive SessionState :=
  | SESSION_STATE_INIT | SESSION_STATE_AUTHENTICATED | SESSION_STATE_ACTIVE | SESSION_STATE_MODIFYING
  | SESSION_STATE_SUSPENDED | SESSION_STATE_TERMINATING | SESSION_STATE_CLOSED.

#[export] Instance session_state_eq_dec : EqDecision SessionState.
Proof. solve_decision. Defined.

Record SessionTftRule := Tft {
  tft_in_use : bool; tft_id : Z; direction : Z; protocol : Z; src_ip : bytes; dst_ip : bytes;
  src_port_start : Z; src_port_end : Z; dst_port_start : Z; dst_port_end : Z }.

Record ClientSession := Sess {
  s_in_use : bool; s_id : bytes; s_client : bytes; s_realm : bytes; s_link : bytes; s_bearer : Z; s_state : SessionState;
  s_created : Z; s_activity : Z; s_bw : Z; s_ret_bw : Z; s_tfts : list SessionTftRule; s_level : Z; s_subscribed : bool;
  s_last_switch : Z; s_previous_link : bytes }.

(** [active_session_indices] with its count is one list. *)
Record ClientContext := CCtx {
  c_in_use : bool; c_id : bytes; max_forward_bw : Z; max_return_bw : Z; guaranteed_forward_bw : Z; guaranteed_return_bw : Z;
  max_concurrent_sessions : Z; allocated_forward_bw : Z; allocated_return_bw : Z; active_sessions_of : list nat;
  total_sessions_created : Z; c_activity : Z }.

Record SessionManager := Mgr {
  sessions : list ClientSession; session_count : Z; contexts : list ClientContext; client_count : Z;
  dataplane_initialized : bool; routes_removed : list bytes }.

(** What [memset] leaves. *)
Definition no_session : ClientSession := Sess false [] [] [] [] 0 SESSION_STATE_INIT 0 0 0 0 [] 0 false 0 [].
Definition no_context : ClientContext := CCtx false [] 0 0 0 0 0 0 0 [] 0 0.

Definition magic_session_init (dataplane : bool) : SessionManager :=
  Mgr (replicate MAX_SESSIONS no_session) 0 (replicate MAX_CLIENTS no_context) 0 dataplane [].

(** Updates of a few fields. *)
Definition with_state (st : SessionState) (now : Z) (s : ClientSession) : ClientSession :=
  Sess (s_in_use s) (s_id s) (s_client s) (s_realm s) (s_link s) (s_bearer s) st (s_created s) now (s_bw s) (s_ret_bw s)
    (s_tfts s) (s_level s) (s_subscribed s) (s_last_switch s) (s_previous_link s).
Definition with_link (link : bytes) (bearer bw ret_bw : Z) (s : ClientSession) : ClientSession :=
  Sess (s_in_use s) (s_id s) (s_client s) (s_realm s) link bearer (s_state s) (s_created s) (s_activity s) bw ret_bw
    (s_tfts s) (s_level s) (s_subscribed s) (s_last_switch s) (s_previous_link s).
Definition with_switch (previous : bytes) (time : Z) (s : ClientSession) : ClientSession :=
  Sess (s_in_use s) (s_id s) (s_client s) (s_realm s) (s_link s) (s_bearer s) (s_state s) (s_created s) (s_activity s) (s_bw s)
    (s_ret_bw s) (s_tfts s) (s_level s) (s_subscribed s) time previous.
Definition with_tfts (l : list SessionTftRule) (s : ClientSession) : ClientSession :=
  Sess (s_in_use s) (s_id s) (s_client s) (s_realm s) (s_link s) (s_bearer s) (s_state s) (s_created s) (s_activity s) (s_bw s)
    (s_ret_bw s) l (s_level s) (s_subscribed s) (s_last_switch s) (s_previous_link s).

Definition with_sessions (l : list ClientSession) (mgr : SessionManager) : SessionManager :=
  Mgr l (session_count mgr) (contexts mgr) (client_count mgr) (dataplane_initialized mgr) (routes_removed mgr).
Definition with_contexts (l : list ClientContext) (mgr : SessionManager) : SessionManager :=
  Mgr (sessions mgr) (session_count mgr) l (client_count mgr) (dataplane_initialized mgr) (routes_removed mgr).

(** A session changed in place. *)
Definition on_session (f : ClientSession → ClientSession) (i : nat) (mgr : SessionManager) : SessionManager :=
  with_sessions (alter f i (sessions mgr)) mgr.
Definition on_context (f : ClientContext → ClientContext) (j : nat) (mgr : SessionManager) : SessionManager :=
  with_contexts (alter f j (contexts mgr)) mgr.

(** ** Searches *)

(** The first slot that satisfies a test, and all of them. *)
Definition slot_of {A} (P : A → bool) (l : list A) : option nat := fst <$> list_find (λ x, P x = true) l.
Definition slots_of {A} (P : A → bool) (l : list A) : list nat :=
  filter (λ i, (P <$> l !! i) = Some true) (seq 0 (length l)).

Definition magic_session_find_by_id (mgr : SessionManager) (session_id : bytes) : option nat :=
  slot_of (λ s, s_in_use s && same (s_id s) session_id) (sessions mgr).

Definition magic_session_find_by_client (mgr : SessionManager) (client_id : bytes) : option nat :=
  slot_of (λ s, s_in_use s && same (s_client s) client_id &&
                bool_decide (s_state s ≠ SESSION_STATE_CLOSED) && bool_decide (s_state s ≠ SESSION_STATE_TERMINATING)) (sessions mgr).

Definition magic_session_count_by_client (mgr : SessionManager) (client_id : bytes) : nat :=
  length (slots_of (λ s, s_in_use s && same (s_client s) client_id && bool_decide (s_state s = SESSION_STATE_ACTIVE)) (sessions mgr)).

Definition is_open (s : ClientSession) : bool :=
  bool_decide (s_state s = SESSION_STATE_AUTHENTICATED) || bool_decide (s_state s = SESSION_STATE_ACTIVE).

Definition magic_session_find_subscribed (mgr : SessionManager) (max_count : nat) : list nat :=
  take max_count (slots_of (λ s, s_in_use s && s_subscribed s && is_open s) (sessions mgr)).

Definition magic_session_get_active_sessions (mgr : SessionManager) (max_count : nat) : list nat :=
  take max_count (slots_of (λ s, s_in_use s && is_open s) (sessions mgr)).

(** [magic_client_context_find]; also the first loop of the creation of one. *)
Definition magic_client_context_find (mgr : SessionManager) (client_id : bytes) : option nat :=
  slot_of (λ c, c_in_use c && same (c_id c) client_id) (contexts mgr).

Definition magic_client_get_sessions (mgr : SessionManager) (c : ClientContext) (max_count : nat) : list nat :=
  take max_count (filter (λ i, (s_in_use <$> sessions mgr !! i) = Some true) (active_sessions_of c)).

(** ** The quotas of a client *)

Definition magic_client_context_set_quota (max_forward max_return guaranteed_forward guaranteed_return : Z) (c : ClientContext) : ClientContext :=
  CCtx (c_in_use c) (c_id c) max_forward max_return guaranteed_forward guaranteed_return (max_concurrent_sessions c)
    (allocated_forward_bw c) (allocated_return_bw c) (active_sessions_of c) (total_sessions_created c) (c_activity c).

Definition available (max allocated : Z) : Z := if decide (max > allocated) then max - allocated else 0.

(** The code, and the bandwidths granted. *)
Definition magic_client_can_allocate_bandwidth (c : ClientContext) (request_forward request_return : Z) : bool * Z * Z :=
  if decide (max_forward_bw c = 0 ∧ max_return_bw c = 0) then (true, request_forward, request_return)
  else
    let available_forward := available (max_forward_bw c) (allocated_forward_bw c) in
    let available_return := available (max_return_bw c) (allocated_return_bw c) in
    if decide (available_forward < guaranteed_forward_bw c ∨ available_return < guaranteed_return_bw c) then (false, 0, 0)
    else (true, if decide (request_forward < available_forward) then request_forward else available_forward,
                if decide (request_return < available_return) then request_return else available_return).

(** A change of a total, kept above 0; the sum wraps. *)
Definition update_total (total delta : Z) : Z :=
  if decide (delta >= 0) then w32 (total + w32 delta)
  else let dec := w32 (- delta) in if decide (total >= dec) then total - dec else 0.

Definition magic_client_update_allocated_bandwidth (delta_forward delta_return now : Z) (c : ClientContext) : ClientContext :=
  CCtx (c_in_use c) (c_id c) (max_forward_bw c) (max_return_bw c) (guaranteed_forward_bw c) (guaranteed_return_bw c)
    (max_concurrent_sessions c) (update_total (allocated_forward_bw c) delta_forward)
    (update_total (allocated_return_bw c) delta_return) (active_sessions_of c) (total_sessions_created c) now.

Definition magic_client_can_create_session (c : ClientContext) : bool :=
  bool_decide (max_concurrent_sessions c = 0) ||
  bool_decide (Z.of_nat (length (active_sessions_of c)) < signed 32 (max_concurrent_sessions c)).

Definition with_active (l : list nat) (created now : Z) (c : ClientContext) : ClientContext :=
  CCtx (c_in_use c) (c_id c) (max_forward_bw c) (max_return_bw c) (guaranteed_forward_bw c) (guaranteed_return_bw c)
    (max_concurrent_sessions c) (allocated_forward_bw c) (allocated_return_bw c) l created now.

Definition magic_client_add_session (i : nat) (now : Z) (c : ClientContext) : bool * ClientContext :=
  if negb (bool_decide (i < MAX_SESSIONS)%nat) then (false, c)
  else if negb (magic_client_can_create_session c) then (false, c)
  else if decide (i ∈ active_sessions_of c) then (true, c)
  else if decide (length (active_sessions_of c) < MAX_SESSIONS_PER_CLIENT)%nat then
    (true, with_active (active_sessions_of c ++ [i]) (total_sessions_created c + 1) now c)
  else (false, c).

(** The first occurrence of the index leaves. *)
Fixpoint remove_first (i : nat) (l : list nat) : list nat :=
  match l with [] => [] | x :: l => if decide (x = i) then l else x :: remove_first i l end.

Definition magic_client_remove_session (i : nat) (now : Z) (c : ClientContext) : bool * ClientContext :=
  if decide (i ∈ active_sessions_of c) then
    (true, with_active (remove_first i (active_sessions_of c)) (total_sessions_created c) now c)
  else (false, c).

Definition new_context (client_id : bytes) (now : Z) : ClientContext :=
  CCtx true (strncpy 64 client_id) 0 0 0 0 (Z.of_nat MAX_SESSIONS_PER_CLIENT) 0 0 [] 0 now.

Definition magic_client_context_get_or_create (mgr : SessionManager) (client_id : bytes) (now : Z) : SessionManager * option nat :=
  match magic_client_context_find mgr client_id with
  | Some j => (mgr, Some j)
  | None =>
      match slot_of (λ c, negb (c_in_use c)) (contexts mgr) with
      | Some j =>
          (Mgr (sessions mgr) (session_count mgr) (alter (λ _, new_context client_id now) j (contexts mgr)) (client_count mgr + 1)
             (dataplane_initialized mgr) (routes_removed mgr), Some j)
      | None => (mgr, None)
      end
  end.

(** ** The rules of traffic of a session *)

Definition magic_session_add_tft (tft : SessionTftRule) (s : ClientSession) : bool * ClientSession :=
  if decide (MAX_TFT_PER_SESSION <= length (s_tfts s))%nat then (false, s)
  else (true, with_tfts (s_tfts s ++ [Tft true (tft_id tft) (direction tft) (protocol tft) (src_ip tft) (dst_ip tft)
                                        (src_port_start tft) (src_port_end tft) (dst_port_start tft) (dst_port_end tft)]) s).

Definition magic_session_clear_tfts : ClientSession → ClientSession := with_tfts [].

(** 0 to 0 stands for any port. *)
Definition port_in (first last port : Z) : bool :=
  (bool_decide (first = 0) && bool_decide (last = 0)) || (bool_decide (first ≤ port) && bool_decide (port ≤ last)).

(** The addresses given are compared as strings; an empty one in the rule stands
    for any. *)
Definition ip_in (rule : bytes) (ip : option bytes) : bool :=
  match ip with Some ip => bool_decide (rule = []) || same rule ip | None => true end.

Definition tft_matches (from to : option bytes) (proto from_port to_port : Z) (tft : SessionTftRule) : bool :=
  tft_in_use tft && (bool_decide (protocol tft = 0) || bool_decide (protocol tft = proto)) &&
  ip_in (src_ip tft) from && ip_in (dst_ip tft) to &&
  port_in (src_port_start tft) (src_port_end tft) from_port && port_in (dst_port_start tft) (dst_port_end tft) to_port.

Definition magic_session_find_tft (s : ClientSession) (from to : option bytes) (proto from_port to_port : Z) : option SessionTftRule :=
  first_of (tft_matches from to proto from_port to_port) (s_tfts s).

(** ** The life of a session *)

Definition new_session (session_id client_id client_realm : bytes) (now : Z) : ClientSession :=
  Sess true (strncpy MAX_SESSION_ID_LEN session_id) (strncpy 64 client_id) (strncpy 64 client_realm) [] 0
    SESSION_STATE_INIT now now 0 0 [] 0 false 0 [].

(** The result of [magic_client_add_session] is not looked at. *)
Definition magic_session_create (session_id client_id client_realm : bytes) (now : Z) (mgr : SessionManager) : SessionManager * option nat :=
  match slot_of (λ s, negb (s_in_use s)) (sessions mgr) with
  | None => (mgr, None)
  | Some i =>
      let mgr := on_session (λ _, new_session session_id client_id client_realm now) i mgr in
      let '(mgr, ctx) := magic_client_context_get_or_create mgr client_id now in
      let mgr := match ctx with Some j => on_context (λ c, snd (magic_client_add_session i now c)) j mgr | None => mgr end in
      (Mgr (sessions mgr) (session_count mgr + 1) (contexts mgr) (client_count mgr) (dataplane_initialized mgr) (routes_removed mgr),
       Some i)
  end.

Definition magic_session_assign_link (link_id : bytes) (bearer_id bw ret_bw now : Z) (s : ClientSession) : ClientSession :=
  let s :=
    if decide (s_link s ≠ [] ∧ s_link s ≠ link_id) then with_switch (strncpy 64 (s_link s)) now s
    else if decide (s_link s = []) then with_switch (s_previous_link s) now s else s in
  with_state SESSION_STATE_ACTIVE now (with_link (strncpy 64 link_id) bearer_id bw ret_bw s).

(** The route of the session leaves the data plane. *)
Definition remove_route (session_id : bytes) (mgr : SessionManager) : SessionManager :=
  Mgr (sessions mgr) (session_count mgr) (contexts mgr) (client_count mgr) (dataplane_initialized mgr) (routes_removed mgr ++ [session_id]).

Definition magic_session_release_link (i : nat) (mgr : SessionManager) : SessionManager :=
  match sessions mgr !! i with
  | Some s =>
      if decide (s_bearer s = 0 ∨ s_link s = []) then mgr
      else
        let mgr := if dataplane_initialized mgr && bool_decide (s_id s ≠ []) then remove_route (s_id s) mgr else mgr in
        on_session (with_link [] 0 0 0) i mgr
  | None => mgr
  end.

(** The bandwidth of the session, and the session, leave the context of its client. *)
Definition forget (i : nat) (s : ClientSession) (now : Z) (c : ClientContext) : ClientContext :=
  snd (magic_client_remove_session i now
    (magic_client_update_allocated_bandwidth (- signed 32 (s_bw s)) (- signed 32 (s_ret_bw s)) now c)).

Definition forget_session (i : nat) (s : ClientSession) (now : Z) (mgr : SessionManager) : SessionManager :=
  match magic_client_context_find mgr (s_client s) with Some j => on_context (forget i s now) j mgr | None => mgr end.

Definition magic_session_delete (session_id : bytes) (now : Z) (mgr : SessionManager) : SessionManager * bool :=
  match magic_session_find_by_id mgr session_id with
  | None => (mgr, false)
  | Some i =>
      let s := default no_session (sessions mgr !! i) in
      let mgr := forget_session i s now mgr in
      let mgr := magic_session_release_link i (on_session magic_session_clear_tfts i mgr) in
      let mgr := on_session (λ _, no_session) i mgr in
      (Mgr (sessions mgr) (if decide (session_count mgr > 0) then session_count mgr - 1 else session_count mgr) (contexts mgr)
         (client_count mgr) (dataplane_initialized mgr) (routes_removed mgr), true)
  end.

Definition magic_session_set_state : SessionState → Z → ClientSession → ClientSession := with_state.

Definition magic_session_set_subscription (level : Z) (s : ClientSession) : ClientSession :=
  Sess (s_in_use s) (s_id s) (s_client s) (s_realm s) (s_link s) (s_bearer s) (s_state s) (s_created s) (s_activity s) (s_bw s)
    (s_ret_bw s) (s_tfts s) level (bool_decide (level > 0)) (s_last_switch s) (s_previous_link s).

Definition magic_session_suspend (now : Z) (s : ClientSession) : bool * ClientSession :=
  if decide (s_state s = SESSION_STATE_ACTIVE) then
    (true, with_state SESSION_STATE_SUSPENDED now (with_link (s_link s) (s_bearer s) 0 0 s))
  else (false, s).

Definition magic_session_resume (now : Z) (s : ClientSession) : bool * ClientSession :=
  if decide (s_state s = SESSION_STATE_SUSPENDED) then (true, with_state SESSION_STATE_ACTIVE now s) else (false, s).

(** The sessions idle for too long; the contexts of their clients and the count
    of the sessions stay. *)
Definition cleanup_slot (now timeout_sec : Z) (acc : SessionManager * nat) (i : nat) : SessionManager * nat :=
  let '(mgr, n) := acc in
  match sessions mgr !! i with
  | Some s =>
      if s_in_use s && bool_decide (now - s_activity s > timeout_sec) then
        (on_session (λ _, no_session) i (magic_session_release_link i mgr), S n)
      else (mgr, n)
  | None => (mgr, n)
  end.

Definition magic_session_cleanup_timeout (timeout_sec now : Z) (mgr : SessionManager) : SessionManager * nat :=
  foldl (cleanup_slot now timeout_sec) (mgr, 0%nat) (seq 0 MAX_SESSIONS).

Definition magic_session_cleanup (mgr : SessionManager) : SessionManager :=
  let mgr := foldl (λ mgr i, if default false (s_in_use <$> sessions mgr !! i) then magic_session_release_link i mgr else mgr)
               mgr (seq 0 MAX_SESSIONS) in
  with_sessions (replicate MAX_SESSIONS no_session) mgr.

(** ** What the protocol does with them *)

(** The begin of a MCAR: an old session of the same identifier is closed. *)
Definition mcar_reset_old_session (session_id : bytes) (now : Z) (mgr : SessionManager) : SessionManager :=
  match magic_session_find_by_id mgr session_id with
  | None => mgr
  | Some i =>
      let mgr := on_session (magic_session_set_state SESSION_STATE_CLOSED now) i mgr in
      let s := default no_session (sessions mgr !! i) in
      if decide (s_link s = []) then mgr else remove_route (s_id s) mgr
  end.

(** After the authentication. *)
Definition mcar_open_session (session_id client_id client_realm : bytes) (now : Z) (mgr : SessionManager) : SessionManager * option nat :=
  let '(mgr, slot) := magic_session_create session_id client_id client_realm now mgr in
  match slot with
  | None => (mgr, None)
  | Some i => (on_session (magic_session_set_state SESSION_STATE_AUTHENTICATED now) i mgr, Some i)
  end.

(** The check of a MCCR: no session, an open one, or a refusal. *)
Inductive mccr_session := MccrNew | MccrExisting (i : nat) | MccrInvalidState.

Definition mccr_find_session (session_id : bytes) (mgr : SessionManager) : mccr_session :=
  match magic_session_find_by_id mgr session_id with
  | None => MccrNew
  | Some i => if is_open (default no_session (sessions mgr !! i)) then MccrExisting i else MccrInvalidState
  end.

(** Its grant of a link, to the session it found or to a new one. *)
Definition mccr_start_session (existing : option nat) (session_id client_id client_realm link_id : bytes) (bearer_id bw ret_bw now : Z)
    (mgr : SessionManager) : SessionManager * option nat :=
  let '(mgr, slot) :=
    match existing with Some i => (mgr, Some i) | None => magic_session_create session_id client_id client_realm now mgr end in
  match slot with
  | None => (mgr, None)
  | Some i =>
      (on_session (λ s, magic_session_set_state SESSION_STATE_ACTIVE now (magic_session_assign_link link_id bearer_id bw ret_bw now s)) i mgr,
       Some i)
  end.

(** Its stop: the link is given back and the session stays authenticated. *)
Definition mccr_execute_stop (session_id : bytes) (now : Z) (i : nat) (mgr : SessionManager) : SessionManager :=
  if decide (s_link (default no_session (sessions mgr !! i)) = []) then mgr
  else on_session (λ s, magic_session_set_state SESSION_STATE_AUTHENTICATED now (with_link [] 0 0 0 s)) i (remove_route session_id mgr).

(** A STR. *)
Definition str_close_session (session_id : bytes) (now : Z) (mgr : SessionManager) : SessionManager :=
  match magic_session_find_by_id mgr session_id with
  | Some i => on_session (magic_session_set_state SESSION_STATE_CLOSED now) i mgr
  | None => mgr
  end.

(** No answer to a MNTR: the callback without a message. *)
Definition mntr_timeout (now : Z) (i : nat) (mgr : SessionManager) : SessionManager :=
  fst (magic_session_delete (s_id (default no_session (sessions mgr !! i))) now mgr).

(** A link goes down or comes back: the sessions that use it. *)
Definition link_status_session (link_id : bytes) (is_up : bool) (now : Z) (s : ClientSession) : ClientSession :=
  if negb (s_in_use s) || bool_decide (s_state s = SESSION_STATE_CLOSED) then s
  else if decide (s_link s ≠ link_id) then s
  else snd (if is_up then magic_session_resume now s else magic_session_suspend now s).

Definition magic_cic_on_link_status_change (link_id : bytes) (is_up : bool) (now : Z) (mgr : SessionManager) : SessionManager :=
  with_sessions (link_status_session link_id is_up now <$> sessions mgr) mgr.
