(* ===== verification/MagicSessionSpec.v ===== *)
(** * The tables of the sessions of MAGIC stay consistent, and fill up

    A server as a run of the handlers of [magic_cic.c] on the manager of the
    sessions; the invariant that they keep; and two things that the runs show: no
    handler gives the slot of a closed session back, and a client that comes back
    with the identifier of its old session cannot use the new one. *)

From Stdlib Require Import ZArith Lia String.
From stdpp Require Import base list sets.
From S2P Require Import Prelude Ostr CoreMsg MagicConfig MagicSession.

(** ** Tables *)

Section tables.
Context {A : Type} (P : A → bool).

Lemma slot_of_Some l i :
  slot_of P l = Some i ↔ ∃ x, l !! i = Some x ∧ P x = true ∧ ∀ k y, (k < i)%nat → l !! k = Some y → P y = false.
Proof.
  unfold slot_of. rewrite fmap_Some. split.
  - intros ([j x] & (Hi & HP & Hb)%list_find_Some & Hj). cbn in Hj. subst j. exists x. split; [done|]. split; [done|].
    intros k y Hk Hy. apply not_true_iff_false. by apply (Hb k).
  - intros (x & Hi & HP & Hb). exists (i, x). split; [|done]. apply list_find_Some. split; [done|]. split; [done|].
    intros k y Hy Hk. apply not_true_iff_false. by apply (Hb k).
Qed.

Lemma slot_of_None l : slot_of P l = None ↔ ∀ i x, l !! i = Some x → P x = false.
Proof.
  unfold slot_of. rewrite fmap_None, list_find_None, Forall_lookup. split; intros H i x Hi; specialize (H i x Hi).
  - by apply not_true_iff_false.
  - by apply not_true_iff_false.
Qed.

(** The slots that satisfy a test. *)
Definition used (l : list A) : nat := length (filter (λ x, P x = true) l).

Lemma used_cons x l : used (x :: l) = ((if P x then 1 else 0) + used l)%nat.
Proof. unfold used. rewrite filter_cons. destruct (P x); by case_decide. Qed.

Lemma used_alter f i l x :
  l !! i = Some x → (used (alter f i l) + (if P x then 1 else 0) = used l + (if P (f x) then 1 else 0))%nat.
Proof.
  revert i. induction l as [|y l IH]; intros [|i] Hi; simplify_eq/=.
  - change (alter f 0%nat (x :: l)) with (f x :: l). rewrite !used_cons. lia.
  - change (alter f (S i) (y :: l)) with (y :: alter f i l). rewrite !used_cons. specialize (IH i Hi). lia.
Qed.

Lemma used_le l : (used l ≤ length l)%nat.
Proof. apply length_filter. Qed.

Lemma used_full l : (∀ i x, l !! i = Some x → P x = true) → used l = length l.
Proof.
  induction l as [|x l IH]; intros H; [done|]. rewrite used_cons, (H 0%nat x) by done. cbn. f_equal. apply IH. intros i y. apply (H (S i)).
Qed.

Lemma used_lt l i x : l !! i = Some x → P x = false → (used l < length l)%nat.
Proof.
  revert i. induction l as [|y l IH]; intros [|i] Hi HP; simplify_eq/=; rewrite used_cons.
  - rewrite HP. pose proof (used_le l). lia.
  - specialize (IH i Hi HP). destruct (P y); lia.
Qed.

Lemma used_alter_same f i l : (∀ x, P (f x) = P x) → used (alter f i l) = used l.
Proof.
  intros Hf. revert i. induction l as [|y l IH]; intros [|i]; [done|done| |].
  - change (alter f 0%nat (y :: l)) with (f y :: l). by rewrite !used_cons, Hf.
  - change (alter f (S i) (y :: l)) with (y :: alter f i l). by rewrite !used_cons, IH.
Qed.
End tables.

(** What the tables keep of a session: whether its slot is used, and whose it is. *)
Definition owner (s : ClientSession) : bool * bytes := (s_in_use s, s_client s).
Definition owners (mgr : SessionManager) : list (bool * bytes) := owner <$> sessions mgr.

(** Changes that the tables do not see: an equivalence of managers. *)
Record same_tables (mgr mgr' : SessionManager) : Prop := {
  same_owners : owners mgr' = owners mgr; same_count : session_count mgr' = session_count mgr;
  same_contexts : contexts mgr' = contexts mgr; same_clients : client_count mgr' = client_count mgr }.

#[export] Instance same_tables_equiv : Equivalence same_tables.
Proof.
  split; [done| |].
  - by intros m m' [].
  - intros m1 m2 m3 [] []. split; congruence.
Qed.

(** A session changed in place keeps its slot and its client. *)
Definition keeps (f : ClientSession → ClientSession) : Prop := ∀ s, owner (f s) = owner s.

Lemma on_session_same f i mgr : keeps f → same_tables mgr (on_session f i mgr).
Proof.
  intros Hf. split; [|done..]. apply list_eq. intros k. unfold owners. cbn. rewrite !list_lookup_fmap, list_lookup_alter.
  case_decide as Hk; [|done]. subst. destruct (sessions mgr !! k); cbn; [by rewrite Hf|done].
Qed.

Lemma remove_route_same sid mgr : same_tables mgr (remove_route sid mgr).
Proof. done. Qed.

Lemma assign_keeps link bearer bw ret now : keeps (magic_session_assign_link link bearer bw ret now).
Proof. intros s. unfold magic_session_assign_link. by repeat case_decide. Qed.

Lemma release_same i mgr : same_tables mgr (magic_session_release_link i mgr).
Proof.
  unfold magic_session_release_link. destruct (sessions mgr !! i) as [s|]; [|done]. case_decide; [done|].
  case_match; [etrans; [apply remove_route_same|]|]; by apply on_session_same.
Qed.

(** ** Runs of the server *)

(** The handlers that change the sessions.  The grant of a MCAR and the checks of
    the state of the aircraft name the session by its slot, as the code does. *)
Inductive event :=
  | EvMcar (session_id client_id client_realm : bytes) (authenticated : bool) (now : Z)
  | EvGrant (i : nat) (link_id : bytes) (bearer_id bw ret_bw now : Z)
  | EvSubscribe (i : nat) (level : Z)
  | EvMccrStart (session_id client_id client_realm link_id : bytes) (bearer_id bw ret_bw now : Z)
  | EvMccrStop (session_id : bytes) (now : Z)
  | EvStr (session_id : bytes) (now : Z)
  | EvAircraft (i : nat) (now : Z)
  | EvLink (link_id : bytes) (is_up : bool) (now : Z)
  | EvMntrTimeout (i : nat) (now : Z).

Definition is_some {A} (x : option A) : bool := match x with Some _ => true | None => false end.

(** The manager after the event, and whether a session was created. *)
Definition handle (e : event) (mgr : SessionManager) : SessionManager * bool :=
  match e with
  | EvMcar sid cid realm authenticated now =>
      let mgr := mcar_reset_old_session sid now mgr in
      if authenticated then let '(mgr, slot) := mcar_open_session sid cid realm now mgr in (mgr, is_some slot) else (mgr, false)
  | EvGrant i link bearer bw ret_bw now => (on_session (magic_session_assign_link link bearer bw ret_bw now) i mgr, false)
  | EvSubscribe i level => (on_session (magic_session_set_subscription level) i mgr, false)
  | EvMccrStart sid cid realm link bearer bw ret_bw now =>
      match mccr_find_session sid mgr with
      | MccrNew =>
          let '(mgr, slot) := mccr_start_session None sid cid realm link bearer bw ret_bw now mgr in (mgr, is_some slot)
      | MccrExisting i => (fst (mccr_start_session (Some i) sid cid realm link bearer bw ret_bw now mgr), false)
      | MccrInvalidState => (mgr, false)
      end
  | EvMccrStop sid now =>
      match mccr_find_session sid mgr with MccrExisting i => (mccr_execute_stop sid now i mgr, false) | _ => (mgr, false) end
  | EvStr sid now => (str_close_session sid now mgr, false)
  | EvAircraft i now => (on_session (magic_session_set_state SESSION_STATE_CLOSED now) i mgr, false)
  | EvLink link is_up now => (magic_cic_on_link_status_change link is_up now mgr, false)
  | EvMntrTimeout i now => (mntr_timeout now i mgr, false)
  end.

(** The manager and the number of sessions created so far. *)
Definition run (mgr : SessionManager) (l : list event) : SessionManager * nat :=
  foldl (λ '(mgr, n) e, let '(mgr, created) := handle e mgr in (mgr, if created : bool then S n else n)) (mgr, 0%nat) l.

(** The identifiers of the clients fit the arrays of [magic_cic.c]. *)
Definition fits (e : event) : bool :=
  match e with
  | EvMcar _ cid _ _ _ | EvMccrStart _ cid _ _ _ _ _ _ => bool_decide (length cid < 64)%nat
  | _ => true
  end.

(** ** The invariant *)

Definition in_table (o : bool * bytes) : bool := fst o.

(** The list of a client holds slots in use by that client, each once, ten at most. *)
Definition good_list (o : list (bool * bytes)) (c : ClientContext) : Prop :=
  NoDup (active_sessions_of c) ∧ (length (active_sessions_of c) ≤ MAX_SESSIONS_PER_CLIENT)%nat ∧
  ∀ i, i ∈ active_sessions_of c → o !! i = Some (true, c_id c).

(** A client has one context. *)
Definition one_context (l : list ClientContext) : Prop :=
  ∀ j j' c c', l !! j = Some c → l !! j' = Some c' → c_in_use c = true → c_in_use c' = true → c_id c = c_id c' → j = j'.

Definition good_lists (o : list (bool * bytes)) (l : list ClientContext) : Prop :=
  ∀ j c, l !! j = Some c → c_in_use c = true → good_list o c.

(** The counts are those of the used slots. *)
Record wf (mgr : SessionManager) : Prop := {
  wf_slots : length (owners mgr) = MAX_SESSIONS;
  wf_count : session_count mgr = Z.of_nat (used in_table (owners mgr));
  wf_clients : client_count mgr = Z.of_nat (used c_in_use (contexts mgr));
  wf_ids : one_context (contexts mgr);
  wf_lists : good_lists (owners mgr) (contexts mgr) }.

Lemma wf_same mgr mgr' : same_tables mgr mgr' → wf mgr → wf mgr'.
Proof. intros [Ho Hn Hc Hl] []. split; rewrite ?Ho, ?Hn, ?Hc, ?Hl; done. Qed.

#[export] Instance wf_proper : Proper (same_tables ==> iff) wf.
Proof. intros m m' H. split; apply wf_same; [done|by symmetry]. Qed.

Lemma session_init_wf dp : wf (magic_session_init dp).
Proof.
  split; [done|by vm_compute|by vm_compute| |].
  - intros j j' c c' Hj _ Hu. apply lookup_replicate in Hj as [-> _]. done.
  - intros j c Hj Hu. apply lookup_replicate in Hj as [-> _]. done.
Qed.

Lemma strncpy_fits n s : (length s < n)%nat → strncpy n s = s.
Proof. intros. apply take_ge. lia. Qed.

(** *** The contexts of the clients *)

Lemma good_list_other o c i x :
  good_list o c → i ∉ active_sessions_of c → good_list (alter (λ _, x) i o) c.
Proof. intros (Hn & Hl & Ho) Hi. split; [done|]. split; [done|]. intros k Hk. rewrite list_lookup_alter_ne by set_solver. auto. Qed.

(** A slot that is not in use is in no list. *)
Lemma good_lists_take o l i old x : good_lists o l → o !! i = Some (false, old) → good_lists (alter (λ _, x) i o) l.
Proof.
  intros Hg Hi j c Hj Hu. apply good_list_other; [by eapply Hg|]. intros Hin. destruct (Hg j c Hj Hu) as (_ & _ & Ho).
  apply Ho in Hin. congruence.
Qed.

(** A context changed in place. *)
Lemma one_context_alter l f j :
  one_context l → (∀ c, c_in_use (f c) = c_in_use c ∧ c_id (f c) = c_id c) → one_context (alter f j l).
Proof.
  intros Hl Hf k k' c c' Hk Hk' Hu Hu' He.
  assert (∀ k c, alter f j l !! k = Some c → ∃ d, l !! k = Some d ∧ c_in_use d = c_in_use c ∧ c_id d = c_id c) as Hd.
  { intros n d. rewrite list_lookup_alter. case_decide; [|by eauto]. intros (d' & ? & ->)%fmap_Some. subst. destruct (Hf d') as [-> ->]. eauto. }
  destruct (Hd _ _ Hk) as (d & ? & ? & ?), (Hd _ _ Hk') as (d' & ? & ? & ?). eapply Hl; [done..| | |]; congruence.
Qed.

Lemma good_lists_alter o l f j :
  good_lists o l → (∀ c, c_in_use (f c) = c_in_use c) →
  (∀ c, l !! j = Some c → c_in_use c = true → good_list o c → good_list o (f c)) → good_lists o (alter f j l).
Proof.
  intros Hg Hf Hj k c. rewrite list_lookup_alter. case_decide as Hk; [subst k|by apply Hg].
  intros (d & Hd & ->)%fmap_Some. rewrite Hf. intros Hu. apply Hj; [done..|]. by eapply Hg.
Qed.

Lemma context_find_Some mgr cid j :
  magic_client_context_find mgr cid = Some j → ∃ c, contexts mgr !! j = Some c ∧ c_in_use c = true ∧ c_id c = cid.
Proof.
  intros (c & Hc & [Hu He]%andb_true_iff & _)%slot_of_Some. exists c. split; [done|]. split; [done|]. by apply bool_decide_eq_true in He.
Qed.

Lemma context_find_None mgr cid j c :
  magic_client_context_find mgr cid = None → contexts mgr !! j = Some c → c_in_use c = true → c_id c ≠ cid.
Proof.
  intros Hn Hj Hu He. apply (proj1 (slot_of_None _ _) Hn) in Hj. unfold same in Hj. by rewrite Hu, He, bool_decide_true in Hj.
Qed.

(** The context that a creation finds or makes. *)
Lemma get_or_create_spec mgr cid now mgr' slot :
  (length cid < 64)%nat → one_context (contexts mgr) → good_lists (owners mgr) (contexts mgr) →
  client_count mgr = Z.of_nat (used c_in_use (contexts mgr)) →
  magic_client_context_get_or_create mgr cid now = (mgr', slot) →
  one_context (contexts mgr') ∧ good_lists (owners mgr) (contexts mgr') ∧
  client_count mgr' = Z.of_nat (used c_in_use (contexts mgr')) ∧
  ∀ j, slot = Some j → ∃ c, contexts mgr' !! j = Some c ∧ c_in_use c = true ∧ c_id c = cid.
Proof.
  intros Hfit Hone Hgood Hn. unfold magic_client_context_get_or_create. destruct (magic_client_context_find mgr cid) as [j|] eqn:Hf.
  { intros [= <- <-]. repeat (split; [done|]). intros ? [= <-]. by apply context_find_Some. }
  destruct (slot_of _ _) as [j|] eqn:Hs; intros [= <- <-]; [|by repeat (split; [done|])].
  apply slot_of_Some in Hs as (c0 & Hj & Hu0 & _). apply negb_true_iff in Hu0. cbn [contexts client_count].
  assert (∀ k c, alter (λ _, new_context cid now) j (contexts mgr) !! k = Some c →
    k = j ∧ c = new_context cid now ∨ k ≠ j ∧ contexts mgr !! k = Some c) as Hk.
  { intros k c. rewrite list_lookup_alter. case_decide; [|by right]. subst. rewrite Hj. intros [= <-]. by left. }
  assert (c_id (new_context cid now) = cid) as Hid by (by apply strncpy_fits).
  split; [|split; [|split]].
  - intros k k' c c' [[-> ->]|[? Hc]]%Hk [[-> ->]|[? Hc']]%Hk Hu Hu' He; [done| | |by eapply Hone].
    + rewrite Hid in He. by destruct (context_find_None _ _ _ _ Hf Hc' Hu').
    + rewrite Hid in He. by destruct (context_find_None _ _ _ _ Hf Hc Hu).
  - intros k c [[-> ->]|[? Hc]]%Hk Hu; [|by eapply Hgood]. split; [constructor|]. split; [cbn; lia|]. cbn. set_solver.
  - pose proof (used_alter c_in_use (λ _, new_context cid now) j (contexts mgr) c0 Hj) as H. rewrite Hu0 in H. cbn in H. lia.
  - intros ? [= <-]. exists (new_context cid now). rewrite list_lookup_alter_eq, Hj. done.
Qed.

(** A session enters the list of its client, or not. *)
Lemma add_session_good o i now c :
  good_list o c → o !! i = Some (true, c_id c) → good_list o (snd (magic_client_add_session i now c)).
Proof.
  intros Hg Hi. pose proof Hg as (Hn & Hl & Ho). unfold magic_client_add_session. case_match; [done|]. case_match; [done|].
  destruct (decide (i ∈ active_sessions_of c)) as [|Hni]; [done|].
  destruct (decide (length (active_sessions_of c) < MAX_SESSIONS_PER_CLIENT)%nat); [|done]. cbn. split; [|split].
  - apply NoDup_app. split; [done|]. split; [set_solver|apply NoDup_singleton].
  - cbn. rewrite length_app. cbn. lia.
  - intros k [Hk| ->%list_elem_of_singleton]%elem_of_app; [by apply Ho|done].
Qed.

Lemma add_session_id i now c :
  c_in_use (snd (magic_client_add_session i now c)) = c_in_use c ∧ c_id (snd (magic_client_add_session i now c)) = c_id c.
Proof. unfold magic_client_add_session. by repeat case_match. Qed.

(** *** Creation *)

(** A manager whose session of slot [i] is now that of [cid], and counted. *)
Definition taken (i : nat) (cid : bytes) (mgr mgr' : SessionManager) : Prop :=
  (∃ old, owners mgr !! i = Some (false, old)) ∧
  owners mgr' = alter (λ _, (true, strncpy 64 cid)) i (owners mgr) ∧ session_count mgr' = session_count mgr + 1.

Lemma owners_alter f i mgr :
  owners (on_session f i mgr) = match sessions mgr !! i with Some s => alter (λ _, owner (f s)) i (owners mgr) | None => owners mgr end.
Proof.
  apply list_eq. intros k. unfold owners, on_session. cbn. destruct (sessions mgr !! i) as [s|] eqn:Hi.
  - rewrite list_lookup_alter, !list_lookup_fmap, list_lookup_alter. case_decide as Hk; [subst|done]. by rewrite Hi.
  - rewrite !list_lookup_fmap, list_lookup_alter. case_decide as Hk; [subst|done]. by rewrite Hi.
Qed.

Lemma get_or_create_sessions mgr cid now :
  sessions (fst (magic_client_context_get_or_create mgr cid now)) = sessions mgr ∧
  session_count (fst (magic_client_context_get_or_create mgr cid now)) = session_count mgr.
Proof. unfold magic_client_context_get_or_create. by repeat case_match. Qed.

Lemma create_taken sid cid realm now mgr mgr' slot :
  magic_session_create sid cid realm now mgr = (mgr', slot) →
  match slot with
  | Some i => taken i cid mgr mgr'
  | None => mgr' = mgr ∧ ∀ i o, owners mgr !! i = Some o → in_table o = true
  end.
Proof.
  unfold magic_session_create. destruct (slot_of _ _) as [i|] eqn:Hs.
  - apply slot_of_Some in Hs as (s & Hi & Hu & _). apply negb_true_iff in Hu.
    pose proof (get_or_create_sessions (on_session (λ _, new_session sid cid realm now) i mgr) cid now) as [H1 H2].
    destruct (magic_client_context_get_or_create _ _ _) as [m ctx]. cbn in H1, H2.
    assert (owners m = alter (λ _, (true, strncpy 64 cid)) i (owners mgr)) as Ho.
    { pose proof (owners_alter (λ _, new_session sid cid realm now) i mgr) as H. rewrite Hi in H. unfold owners at 1. rewrite H1. exact H. }
    destruct ctx as [j|]; intros [= <- <-]; (split; [|split; [exact Ho|cbn; by rewrite H2]]).
    all: exists (s_client s); unfold owners; rewrite list_lookup_fmap, Hi; cbn; unfold owner; by rewrite Hu.
  - intros [= <- <-]. split; [done|]. intros i o. unfold owners. rewrite list_lookup_fmap. intros (s & Hi & ->)%fmap_Some.
    by apply negb_false_iff, (proj1 (slot_of_None _ _) Hs i s).
Qed.

(** The creation keeps the invariant. *)
Lemma session_create_wf sid cid realm now mgr mgr' slot :
  (length cid < 64)%nat → wf mgr → magic_session_create sid cid realm now mgr = (mgr', slot) → wf mgr'.
Proof.
  intros Hfit Hwf Hc. pose proof (create_taken _ _ _ _ _ _ _ Hc) as Ht. revert Hc. unfold magic_session_create.
  destruct (slot_of _ _) as [i|] eqn:Hs; [|by intros [= <- <-]].
  set (m0 := on_session _ i mgr). destruct (magic_client_context_get_or_create m0 cid now) as [m ctx] eqn:Hg.
  intros Hm. assert (slot = Some i) as -> by (by injection Hm). destruct Ht as ([old Hi] & Ho & Hn). destruct Hwf as [H1 H2 H3 H4 H5].
  rewrite strncpy_fits in Ho by done. pose proof (get_or_create_sessions m0 cid now) as [Hm1 Hm2]. rewrite Hg in Hm1, Hm2. cbn in Hm1, Hm2.
  assert (owners m0 = owners mgr') as Ho0.
  { injection Hm as <-. unfold owners. cbn. rewrite <- Hm1. by destruct ctx. }
  pose proof (good_lists_take _ _ _ _ (true, cid) H5 Hi) as H5'. rewrite <- Ho in H5'.
  eapply get_or_create_spec in Hg as (G1 & G2 & G3 & G4); [|done|done|by rewrite Ho0|done]. rewrite Ho0 in G2.
  assert (owners mgr' !! i = Some (true, cid)) as Hi' by (by rewrite Ho, list_lookup_alter_eq, Hi).
  split.
  - by rewrite Ho, length_alter.
  - rewrite Hn, H2, Ho. pose proof (used_alter in_table (λ _, (true, cid)) i (owners mgr) _ Hi) as H. cbn in H. lia.
  - injection Hm as <-. cbn [contexts client_count]. destruct ctx as [j|]; [|done]. cbn [contexts client_count on_context with_contexts].
    rewrite G3. f_equal. symmetry. apply used_alter_same. intros c. apply add_session_id.
  - injection Hm as <-. cbn [contexts]. destruct ctx as [j|]; [|done]. apply one_context_alter; [done|]. intros c. apply add_session_id.
  - set (o := owners mgr') in *. clearbody o. injection Hm as <-. cbn [contexts]. destruct ctx as [j|]; [|done].
    apply good_lists_alter; [done|intros c; apply add_session_id|]. intros c Hj Hu Hgood. destruct (G4 j eq_refl) as (c' & Hc' & _ & Hid).
    apply add_session_good; [done|]. simplify_eq. by rewrite Hi'.
Qed.

(** *** Deletion *)

Lemma remove_first_spec i l :
  NoDup l → NoDup (remove_first i l) ∧ i ∉ remove_first i l ∧ (length (remove_first i l) ≤ length l)%nat ∧
            (∀ k, k ∈ remove_first i l → k ∈ l).
Proof.
  induction 1 as [|x l Hx Hl IH]; cbn; [split; [constructor|]; set_solver|]. destruct IH as (I1 & I2 & I3 & I4).
  case_decide as He; [subst; repeat split; [done|done|lia|set_solver]|].
  repeat split; [constructor; [set_solver|done]|set_solver|cbn; lia|set_solver].
Qed.

(** A session leaves the list of its client, which holds it no more. *)
Lemma remove_session_good o i now c :
  good_list o c → good_list o (snd (magic_client_remove_session i now c)) ∧
                  i ∉ active_sessions_of (snd (magic_client_remove_session i now c)).
Proof.
  intros Hg. pose proof Hg as (Hn & Hl & Ho). unfold magic_client_remove_session. case_decide; [|done]. cbn.
  destruct (remove_first_spec i _ Hn) as (? & ? & ? & ?). split; [|done]. split; [done|]. split; cbn; [lia|auto].
Qed.

Lemma remove_session_id i now c :
  c_in_use (snd (magic_client_remove_session i now c)) = c_in_use c ∧ c_id (snd (magic_client_remove_session i now c)) = c_id c.
Proof. unfold magic_client_remove_session. by case_decide. Qed.

Lemma forget_id i s now c : c_in_use (forget i s now c) = c_in_use c ∧ c_id (forget i s now c) = c_id c.
Proof. unfold forget. by rewrite !(proj1 (remove_session_id _ _ _)), !(proj2 (remove_session_id _ _ _)). Qed.

Lemma forget_list o i s now c : good_list o c → good_list o (forget i s now c) ∧ i ∉ active_sessions_of (forget i s now c).
Proof. intros Hg. apply remove_session_good. exact Hg. Qed.

Lemma delete_freed sid now mgr mgr' ok :
  magic_session_delete sid now mgr = (mgr', ok) →
  mgr' = mgr ∧ ok = false ∨
  ok = true ∧ ∃ i s, sessions mgr !! i = Some s ∧ s_in_use s = true ∧
    owners mgr' = alter (λ _, (false, [])) i (owners mgr) ∧ contexts mgr' = contexts (forget_session i s now mgr) ∧ client_count mgr' = client_count mgr ∧
    session_count mgr' = (if decide (session_count mgr > 0) then session_count mgr - 1 else session_count mgr).
Proof.
  unfold magic_session_delete. destruct (magic_session_find_by_id mgr sid) as [i|] eqn:Hf; [|intros [= <- <-]; by left].
  apply slot_of_Some in Hf as (s & Hi & [Hu _]%andb_true_iff & _). rewrite Hi. cbn [default from_option].
  set (m1 := forget_session i s now mgr).
  pose proof (release_same i (on_session magic_session_clear_tfts i m1)) as [R1 R2 R3 R4].
  set (m2 := magic_session_release_link i _) in *. intros [= <- <-]. right. split; [done|]. exists i, s.
  assert (owners m1 = owners mgr) as Hm1 by (unfold m1, forget_session; by case_match).
  assert (keeps magic_session_clear_tfts) as Hk by done.
  pose proof (on_session_same _ i m1 Hk) as [K1 K2 K3 K4].
  assert (owners m2 = owners mgr) as Hm2 by congruence.
  split; [done|]. split; [done|]. split; [|split; [|split]].
  - pose proof (owners_alter (λ _, no_session) i m2) as H.
    assert (is_Some (sessions m2 !! i)) as [s2 Hs2].
    { apply (fmap_is_Some owner). rewrite <- list_lookup_fmap. change (owner <$> sessions m2) with (owners m2). rewrite Hm2.
      unfold owners. rewrite list_lookup_fmap, Hi. done. }
    rewrite Hs2, Hm2 in H. exact H.
  - cbn [contexts with_sessions on_session]. by rewrite R3, K3.
  - cbn [client_count with_sessions on_session]. rewrite R4, K4. unfold m1, forget_session. by case_match.
  - assert (session_count m2 = session_count mgr) as Hc by (rewrite R2, K2; unfold m1, forget_session; by case_match).
    cbn [session_count with_sessions on_session]. by rewrite Hc.
Qed.

(** After the deletion no list holds the slot. *)
Lemma forget_good i s now mgr :
  wf mgr → owners mgr !! i = Some (true, s_client s) →
  one_context (contexts (forget_session i s now mgr)) ∧ good_lists (alter (λ _, (false, [])) i (owners mgr)) (contexts (forget_session i s now mgr)) ∧
  used c_in_use (contexts (forget_session i s now mgr)) = used c_in_use (contexts mgr).
Proof.
  intros [H1 H2 H3 H4 H5] Hi.
  assert (∀ c, c_in_use (forget i s now c) = c_in_use c ∧ c_id (forget i s now c) = c_id c) as Hid by (intros c; apply forget_id).
  assert (∀ c, c ∈ contexts mgr → c_in_use c = true → i ∈ active_sessions_of c → c_id c = s_client s) as Hmine.
  { intros c [j Hj]%list_elem_of_lookup Hu Hin. destruct (H5 j c Hj Hu) as (_ & _ & Ho). apply Ho in Hin. congruence. }
  unfold forget_session. destruct (magic_client_context_find mgr (s_client s)) as [j|] eqn:Hf.
  - apply context_find_Some in Hf as (c0 & Hj & Hu0 & He0).
    split; [by apply one_context_alter|]. cbn [contexts on_context with_contexts]. split; [|apply used_alter_same; apply Hid].
    intros k c. rewrite list_lookup_alter. case_decide as Hk.
    + subst k. rewrite Hj. intros [= <-] _. destruct (forget_list _ i s now _ (H5 j c0 Hj Hu0)). by apply good_list_other.
    + intros Hc Hu. apply good_list_other; [by eapply H5|]. intros Hin. apply Hk. eapply H4; [done..|].
      rewrite He0. symmetry. apply Hmine; [by eapply list_elem_of_lookup_2|done..].
  - split; [done|]. split; [|done]. intros k c Hc Hu. apply good_list_other; [by eapply H5|]. intros Hin.
    eapply (context_find_None mgr); [done..|]. apply Hmine; [by eapply list_elem_of_lookup_2|done..].
Qed.

Lemma session_delete_wf sid now mgr mgr' ok : wf mgr → magic_session_delete sid now mgr = (mgr', ok) → wf mgr'.
Proof.
  intros Hwf [[-> _]|(_ & i & s & Hi & Hu & Ho & Hc & Hn & Hs)]%delete_freed; [done|].
  assert (owners mgr !! i = Some (true, s_client s)) as Hi' by (unfold owners; rewrite list_lookup_fmap, Hi; cbn; unfold owner; by rewrite Hu).
  destruct (forget_good i s now mgr Hwf Hi') as (G1 & G2 & G3). destruct Hwf as [H1 H2 H3 H4 H5].
  split; rewrite ?Ho, ?Hc; [by rewrite length_alter| |congruence|done|done].
  pose proof (used_alter in_table (λ _, (false, [])) i (owners mgr) _ Hi') as H. cbn in H. rewrite Hs. case_decide; lia.
Qed.

(** *** The handlers *)

Lemma reset_old_same sid now mgr : same_tables mgr (mcar_reset_old_session sid now mgr).
Proof.
  unfold mcar_reset_old_session. case_match; [|done]. case_decide; [|etrans; [|apply remove_route_same]]; by apply on_session_same.
Qed.

Lemma stop_same sid now i mgr : same_tables mgr (mccr_execute_stop sid now i mgr).
Proof. unfold mccr_execute_stop. case_decide; [done|]. etrans; [apply (remove_route_same sid)|]. by apply on_session_same. Qed.

Lemma str_same sid now mgr : same_tables mgr (str_close_session sid now mgr).
Proof. unfold str_close_session. case_match; [|done]. by apply on_session_same. Qed.

Lemma link_same link up now mgr : same_tables mgr (magic_cic_on_link_status_change link up now mgr).
Proof.
  split; [|done..]. unfold owners. cbn. rewrite <- list_fmap_compose. apply list_fmap_ext. intros i s _. cbn.
  unfold link_status_session, magic_session_resume, magic_session_suspend. by repeat case_match.
Qed.

(** A session is created between two changes that the tables do not see. *)
Definition creates (cid : bytes) (mgr mgr' : SessionManager) : Prop :=
  ∃ m0 m1 sid realm now i, same_tables mgr m0 ∧ magic_session_create sid cid realm now m0 = (m1, Some i) ∧ same_tables m1 mgr'.

(** An event is a quiet change, a creation or a deletion. *)
Inductive effect (e : event) (mgr mgr' : SessionManager) : bool → Prop :=
  | eff_quiet : same_tables mgr mgr' → effect e mgr mgr' false
  | eff_create cid : (fits e = true → (length cid < 64)%nat) → creates cid mgr mgr' → effect e mgr mgr' true
  | eff_delete i now : e = EvMntrTimeout i now → mgr' = mntr_timeout now i mgr → effect e mgr mgr' false.

Lemma handle_effect e mgr : effect e mgr (fst (handle e mgr)) (snd (handle e mgr)).
Proof.
  destruct e as [sid cid realm ok now|i link bearer bw ret now|i level|sid cid realm link bearer bw ret now|sid now|sid now|i now|link up now|i now];
    cbn [handle].
  - pose proof (reset_old_same sid now mgr) as Hr. destruct ok; [|by apply eff_quiet]. unfold mcar_open_session.
    destruct (magic_session_create _ _ _ _ _) as [m [j|]] eqn:Hc.
    + apply (eff_create _ _ _ cid); [by intros Hf%bool_decide_eq_true|]. exists (mcar_reset_old_session sid now mgr), m, sid, realm, now, j.
      split; [done|]. split; [done|]. by apply on_session_same.
    + apply create_taken in Hc as [-> _]. by apply eff_quiet.
  - apply eff_quiet, on_session_same, assign_keeps.
  - apply eff_quiet. by apply on_session_same.
  - assert (∀ j m, same_tables m (on_session (λ s, magic_session_set_state SESSION_STATE_ACTIVE now
      (magic_session_assign_link link bearer bw ret now s)) j m)) as Hs.
    { intros j m. apply on_session_same. intros s. rewrite <- (assign_keeps link bearer bw ret now s). done. }
    destruct (mccr_find_session sid mgr) as [|j|]; unfold mccr_start_session; [|apply eff_quiet, Hs|by apply eff_quiet].
    destruct (magic_session_create _ _ _ _ _) as [m [j|]] eqn:Hc.
    + apply (eff_create _ _ _ cid); [by intros Hf%bool_decide_eq_true|]. exists mgr, m, sid, realm, now, j. split; [done|]. split; [done|apply Hs].
    + apply create_taken in Hc as [-> _]. by apply eff_quiet.
  - destruct (mccr_find_session sid mgr); apply eff_quiet; [done|apply stop_same|done].
  - apply eff_quiet, str_same.
  - apply eff_quiet. by apply on_session_same.
  - apply eff_quiet, link_same.
  - by eapply eff_delete.
Qed.

Lemma event_wf e mgr : fits e = true → wf mgr → wf (fst (handle e mgr)).
Proof.
  intros Hf Hwf. destruct (handle_effect e mgr) as [H|cid Hc (m0 & m1 & sid & realm & now & i & H0 & H1 & H2)|i now _ ->].
  - by rewrite <- H.
  - rewrite <- H2. eapply session_create_wf; [by apply Hc| |done]. by rewrite <- H0.
  - unfold mntr_timeout. destruct (magic_session_delete _ _ _) as [m ok] eqn:Hd. by eapply session_delete_wf.
Qed.

(** Run from a state with [n] sessions created. *)
Lemma run_ind (R : SessionManager → nat → Prop) mgr l :
  R mgr 0%nat → (∀ e m n, e ∈ l → R m n → R (fst (handle e m)) (if snd (handle e m) then S n else n)) →
  R (fst (run mgr l)) (snd (run mgr l)).
Proof.
  unfold run. generalize 0%nat. revert mgr. induction l as [|e l IH]; intros mgr n H0 Hstep; [done|]. cbn [foldl].
  pose proof (Hstep e mgr n) as H. destruct (handle e mgr) as [m b]. cbn in H. apply IH; [apply H; [by left|done]|].
  intros e' m' n' He'. apply Hstep. by right.
Qed.

(** C13: the tables of the sessions stay consistent in every run of the server:
    the two counts are those of the slots in use, a client never has two contexts,
    and the list of a context holds, without repetition and at most ten, slots in
    use by sessions of that client; whatever the order of the authentications,
    changes, terminations, link events and unanswered notifications. *)
Theorem server_tables_wf dataplane l :
  Forall (λ e, fits e = true) l → wf (fst (run (magic_session_init dataplane) l)).
Proof.
  intros Hl. rewrite Forall_forall in Hl.
  apply (run_ind (λ m _, wf m)); [apply session_init_wf|]. intros e m _ He Hm. apply event_wf; auto.
Qed.

(** *** Exhaustion *)

Definition is_timeout (e : event) : bool := match e with EvMntrTimeout _ _ => true | _ => false end.

Lemma handle_used e mgr :
  is_timeout e = false →
  length (owners (fst (handle e mgr))) = length (owners mgr) ∧
  used in_table (owners (fst (handle e mgr))) = (used in_table (owners mgr) + if snd (handle e mgr) then 1 else 0)%nat.
Proof.
  intros Ht. destruct (handle_effect e mgr) as [[H]|cid Hc (m0 & m1 & sid & realm & now & i & [H0] & H1 & [H2])|i now -> _].
  - rewrite H. split; [done|lia].
  - apply create_taken in H1 as ([old Hi] & Ho & _). rewrite H2, Ho, length_alter, <- H0. split; [done|].
    pose proof (used_alter in_table (λ _, (true, strncpy 64 cid)) i (owners m0) _ Hi) as H. cbn [in_table fst] in H. lia.
  - done.
Qed.

(** C18: the end of a session gives nothing back: as long as no notification goes
    unanswered, the server creates at most a hundred sessions in its life, however
    many of them were terminated; once the hundredth is created every further
    authentication fails, for a terminated session keeps its slot in the state
    CLOSED and no handler reuses or deletes it. *)
Theorem sessions_run_out dataplane l :
  Forall (λ e, is_timeout e = false) l →
  let '(mgr, created) := run (magic_session_init dataplane) l in
  (created ≤ MAX_SESSIONS)%nat ∧
  (created = MAX_SESSIONS → ∀ session_id client_id client_realm now,
     mcar_open_session session_id client_id client_realm now mgr = (mgr, None)).
Proof.
  intros Hl. rewrite Forall_forall in Hl.
  assert (let m := fst (run (magic_session_init dataplane) l) in
          length (owners m) = MAX_SESSIONS ∧ used in_table (owners m) = snd (run (magic_session_init dataplane) l)) as [Hlen Hu].
  { apply (run_ind (λ m n, length (owners m) = MAX_SESSIONS ∧ used in_table (owners m) = n)); [by vm_compute|].
    intros e m n He [H1 H2]. destruct (handle_used e m (Hl e He)) as [-> ->]. split; [done|]. case_match; lia. }
  destruct (run _ l) as [mgr created]. cbn in Hlen, Hu. pose proof (used_le in_table (owners mgr)). split; [lia|].
  intros -> sid cid realm now. unfold mcar_open_session. destruct (magic_session_create _ _ _ _ _) as [m [i|]] eqn:Hc.
  - apply create_taken in Hc as ([old Hi] & _). pose proof (used_lt in_table _ _ _ Hi). cbn in *. lia.
  - by apply create_taken in Hc as [-> _].
Qed.

(** ** A client that comes back *)

Lemma create_sessions sid cid realm now mgr mgr' j :
  magic_session_create sid cid realm now mgr = (mgr', Some j) →
  slot_of (λ s, negb (s_in_use s)) (sessions mgr) = Some j ∧
  sessions mgr' = alter (λ _, new_session sid cid realm now) j (sessions mgr).
Proof.
  unfold magic_session_create. destruct (slot_of _ _) as [i|] eqn:Hs; [|done].
  pose proof (get_or_create_sessions (on_session (λ _, new_session sid cid realm now) i mgr) cid now) as [H1 _].
  destruct (magic_client_context_get_or_create _ _ _) as [m ctx]. cbn in H1.
  intros [= <- <-]. split; [done|]. cbn. rewrite <- H1. by destruct ctx.
Qed.

Lemma reset_sessions sid now mgr i :
  magic_session_find_by_id mgr sid = Some i →
  sessions (mcar_reset_old_session sid now mgr) = alter (magic_session_set_state SESSION_STATE_CLOSED now) i (sessions mgr).
Proof. unfold mcar_reset_old_session. intros ->. by case_decide. Qed.

(** a client that authenticates again under the identifier of its session
    cannot use the session it gets: the old one is closed but stays in its slot,
    where the next search by that identifier finds it first, so that every change
    of the communication is refused because of its state. *)
Theorem reauthenticated_unusable sid cid realm now mgr mgr' i j :
  magic_session_find_by_id mgr sid = Some i →
  (∀ k s, (k < i)%nat → sessions mgr !! k = Some s → s_in_use s = true) →
  mcar_open_session sid cid realm now (mcar_reset_old_session sid now mgr) = (mgr', Some j) →
  (i < j)%nat ∧ magic_session_find_by_id mgr' sid = Some i ∧ mccr_find_session sid mgr' = MccrInvalidState.
Proof.
  intros Hf Hlow. unfold mcar_open_session. destruct (magic_session_create _ _ _ _ _) as [m [j'|]] eqn:Hc; [|done].
  intros [= <- ->]. apply create_sessions in Hc as [Hj Hm]. rewrite (reset_sessions _ _ _ _ Hf) in Hj, Hm.
  apply slot_of_Some in Hf as (s & Hi & [Hu Hid]%andb_true_iff & Hb). apply bool_decide_eq_true in Hid.
  apply slot_of_Some in Hj as (f & Hj & Hfree & _). apply negb_true_iff in Hfree.
  assert (i < j)%nat as Hij.
  { rewrite list_lookup_alter in Hj. case_decide as He; [subst; rewrite Hi in Hj; injection Hj as <-; cbn in Hfree; congruence|].
    destruct (decide (j < i)%nat) as [Hlt|]; [|lia]. rewrite (Hlow j f Hlt Hj) in Hfree. done. }
  set (mgr1 := on_session _ j m).
  assert (∀ k, (k ≤ i)%nat → sessions mgr1 !! k = alter (magic_session_set_state SESSION_STATE_CLOSED now) i (sessions mgr) !! k) as Hk.
  { intros k Hk. unfold mgr1. cbn. rewrite list_lookup_alter_ne by lia. rewrite Hm. by rewrite list_lookup_alter_ne by lia. }
  assert (sessions mgr1 !! i = Some (magic_session_set_state SESSION_STATE_CLOSED now s)) as Hi1.
  { rewrite Hk by lia. by rewrite list_lookup_alter_eq, Hi. }
  assert (magic_session_find_by_id mgr1 sid = Some i) as Hfind.
  { apply slot_of_Some. exists (magic_session_set_state SESSION_STATE_CLOSED now s). split; [done|]. split.
    - cbn. rewrite Hu. by apply bool_decide_eq_true.
    - intros k y Hlt. rewrite Hk by lia. rewrite list_lookup_alter_ne by lia. by apply Hb. }
  split; [done|]. split; [done|]. unfold mccr_find_session. by rewrite Hfind, Hi1.
Qed.

(** ** Examples *)

Module Tables.
Definition cid : bytes := str "client.aero".

(** A session is authenticated, gets a link, loses it, finds it again, and ends. *)
Definition flight : list event :=
  [EvMcar (str "s;1") cid (str "aero") true 10; EvGrant 0 (str "SATCOM") 7 1000 500 11; EvLink (str "SATCOM") false 12;
   EvLink (str "SATCOM") true 13; EvMccrStart (str "s;2") cid (str "aero") (str "CELL") 3 200 100 14; EvStr (str "s;1") 15].

(** The link comes back, the bandwidth does not. *)
Example resumed_without_bandwidth :
  (λ s, (s_state s, s_link s, s_bw s, s_ret_bw s)) <$> sessions (fst (run (magic_session_init true) (take 4 flight))) !! 0%nat =
  Some (SESSION_STATE_ACTIVE, str "SATCOM", 0, 0).
Proof. by vm_compute. Qed.

(** A session that the cleanup of the idle ones takes leaves its client and the
    count of the sessions as they were: the invariant is lost. *)
Definition idle : SessionManager := fst (magic_session_cleanup_timeout 60 1000 (fst (run (magic_session_init true) flight))).

Example cleanup_forgets_the_counts :
  used in_table (owners idle) = 0%nat ∧ session_count idle = 2 ∧ (active_sessions_of <$> contexts idle !! 0%nat) = Some [0; 1]%nat.
Proof. by vm_compute. Qed.

Lemma server_tables_wf_witness : wf (fst (run (magic_session_init false) (take 3 flight))).
Proof. apply server_tables_wf. by repeat constructor. Defined.

(** A hundred sessions that end, and the next one is refused. *)
Definition hundred : list event :=
  mjoin ((λ n, [EvMcar (str "s;" ++ [n]) cid (str "aero") true 10; EvStr (str "s;" ++ [n]) 20]) <$> seqZ 1 100).

Lemma sessions_run_out_witness :
  let '(mgr, created) := run (magic_session_init true) hundred in
  (created ≤ MAX_SESSIONS)%nat ∧
  (created = MAX_SESSIONS → ∀ session_id client_id client_realm now,
     mcar_open_session session_id client_id client_realm now mgr = (mgr, None)).
Proof. apply sessions_run_out. by_compute. Defined.

Example hundred_created :
  snd (run (magic_session_init true) hundred) = MAX_SESSIONS ∧
  Forall (λ s, s_in_use s = true ∧ s_state s = SESSION_STATE_CLOSED)
    (sessions (fst (run (magic_session_init true) hundred))).
Proof. by_compute. Qed.

Definition once : SessionManager := fst (run (magic_session_init true) (take 1 flight)).
Definition twice : SessionManager := fst (mcar_open_session (str "s;1") cid (str "aero") 20 (mcar_reset_old_session (str "s;1") 20 once)).

Lemma reauthenticated_unusable_witness :
  (0 < 1)%nat ∧ magic_session_find_by_id twice (str "s;1") = Some 0%nat ∧ mccr_find_session (str "s;1") twice = MccrInvalidState.
Proof.
  apply (reauthenticated_unusable (str "s;1") cid (str "aero") 20 once twice 0 1); [by vm_compute|lia|by vm_compute].
Defined.
End Tables.
