(* ===== verification/MagicTft.v ===== *)
(** * The filters of traffic of MAGIC ([app_magic/magic_tft_validator.c], [magic_napt_validator.c])

    The reading of ranges of addresses and ports, of TFT and NAPT rules, and the
    checks against the whitelist of a client.  The messages are left out.  A string
    is the list of its bytes; what the C library does with it is written out
    ([isspace], [atoi], [strchr], [strtok], [inet_pton], as glibc has them). *)

From Stdlib Require Import ZArith Lia String.
From stdpp Require Import base list.
From S2P Require Import Prelude Ostr CoreMsg MagicConfig.

(** ** Strings *)

Definition isspace (c : Z) : bool := bool_decide (9 ≤ c ≤ 13) || bool_decide (c = 32).
Definition isdigit (c : Z) : bool := bool_decide (48 ≤ c ≤ 57).

(** The loops that skip the leading spaces. *)
Fixpoint skip_spaces (s : bytes) : bytes :=
  match s with c :: s' => if isspace c then skip_spaces s' else s | [] => [] end.

Definition trim_whitespace (s : bytes) : bytes := reverse (skip_spaces (reverse (skip_spaces s))).

(** The bytes up to a separator, and those after it. *)
Fixpoint strchr (sep : Z) (s : bytes) : option (bytes * bytes) :=
  match s with
  | [] => None
  | c :: s => if decide (c = sep) then Some ([], s) else prod_map (cons c) id <$> strchr sep s
  end.

(** The value of the leading digits. *)
Fixpoint digits (acc : Z) (s : bytes) : Z :=
  match s with c :: s => if isdigit c then digits (acc * 10 + (c - 48)) s else acc | [] => acc end.

(** [(int) strtol(s, NULL, 10)]: the 64-bit value saturates, the 32-bit one wraps. *)
Definition atoi (s : bytes) : Z :=
  let v :=
    match skip_spaces s with
    | 45 :: s => Z.max (- 2 ^ 63) (- digits 0 s)
    | 43 :: s => Z.min (2 ^ 63 - 1) (digits 0 s)
    | s => Z.min (2 ^ 63 - 1) (digits 0 s)
    end in
  signed 32 v.

(** The tokens of [strtok]: the empty ones are skipped. *)
Definition strtok (sep : Z) (s : bytes) : list bytes := filter (λ t, t ≠ []) (split_on sep s).

(** [inet_pton(AF_INET, ...)]: four numbers without leading zeros. *)
Definition octet (s : bytes) : option Z :=
  if decide (s = []) then None
  else if negb (forallb isdigit s) then None
  else if bool_decide (head s = Some 48) && bool_decide (1 < length s)%nat then None
  else if decide (digits 0 s ≤ 255) then Some (digits 0 s) else None.

Definition inet_pton (s : bytes) : option Z :=
  match split_on 46 s with
  | [a; b; c; d] =>
      a ← octet a; b ← octet b; c ← octet c; d ← octet d;
      Some (((a * 256 + b) * 256 + c) * 256 + d)
  | _ => None
  end.

(** 0 stands for an error. *)
Definition ip_str_to_uint32 (s : bytes) : Z := default 0 (inet_pton s).

(** ** Ranges *)

Record IPRange := Ips { start_ip : Z; end_ip : Z; ips_valid : bool }.
Record PortRange := Ports { start_port : Z; end_port : Z; ports_valid : bool }.

Definition no_ips : IPRange := Ips 0 0 false.
Definition no_ports : PortRange := Ports 0 0 false.

Definition mask_of (prefix_len : Z) : Z := if decide (prefix_len = 0) then 0 else w32 (Z.shiftl (2 ^ 32 - 1) (32 - prefix_len)).
Definition not32 (x : Z) : Z := 2 ^ 32 - 1 - x.

Definition parse_ip_range (range_str : bytes) : option IPRange :=
  let buffer := trim_whitespace (strncpy 128 range_str) in
  match strchr 47 buffer with
  | Some (ip_part, prefix_part) =>
      let ip := ip_str_to_uint32 ip_part in
      let prefix_len := atoi prefix_part in
      if decide (ip = 0 ∨ prefix_len < 0 ∨ prefix_len > 32) then None
      else Some (Ips (Z.land ip (mask_of prefix_len)) (Z.lor ip (not32 (mask_of prefix_len))) true)
  | None =>
      match strchr 45 buffer with
      | Some (start_str, end_str) =>
          let start := ip_str_to_uint32 (trim_whitespace start_str) in
          let end_ := ip_str_to_uint32 (trim_whitespace end_str) in
          if decide (start = 0 ∨ end_ = 0 ∨ start > end_) then None else Some (Ips start end_ true)
      | None =>
          let ip := ip_str_to_uint32 buffer in
          if decide (ip = 0 ∧ buffer ≠ str "0.0.0.0") then None else Some (Ips ip ip true)
      end
  end.

Definition parse_port_token (token : bytes) : option PortRange :=
  let token := trim_whitespace token in
  let '(start, end_) :=
    match strchr 45 token with Some (s, e) => (atoi s, atoi e) | None => (atoi token, atoi token) end in
  if decide (start < 0 ∨ start > 65535 ∨ end_ < 0 ∨ end_ > 65535 ∨ start > end_) then None else Some (Ports start end_ true).

(** The first [max_ranges] ranges of the list; [None] when one of them is wrong. *)
Definition parse_port_range (max_ranges : nat) (range_str : bytes) : option (list PortRange) :=
  mapM parse_port_token (take max_ranges (strtok 44 (trim_whitespace (strncpy 512 range_str)))).

Definition ip_in_range (ip : Z) (range : IPRange) : bool :=
  ips_valid range && bool_decide (start_ip range ≤ ip) && bool_decide (ip ≤ end_ip range).

Definition port_in_ranges (port : Z) (ranges : list PortRange) : bool :=
  existsb (λ r, ports_valid r && bool_decide (start_port r ≤ port) && bool_decide (port ≤ end_port r)) ranges.

Definition toupper (c : Z) : Z := if decide (97 ≤ c ≤ 122) then c - 32 else c.

Definition protocol_name_to_number (name : bytes) : Z :=
  let buffer := toupper <$> strncpy 32 name in
  if same buffer (str "TCP") then 6
  else if same buffer (str "UDP") then 17
  else if same buffer (str "ICMP") then 1
  else if same buffer (str "IP") then 0
  else let proto := atoi buffer in if decide (0 ≤ proto ≤ 255) then proto else 0.

(** ** TFT rules *)

Record TFTRule := Rule3gpp {
  tft_src_ip : IPRange; tft_dst_ip : IPRange; tft_src_port : PortRange; tft_dst_port : PortRange;
  tft_protocol : Z; has_protocol : bool; is_outbound : bool }.

(** [strncmp(p, word, strlen(word)) == 0], and the spaces after it. *)
Definition keyword (word s : bytes) : option bytes :=
  if decide (take (length word) s = word) then Some (skip_spaces (drop (length word) s)) else None.

(** At most [n] bytes that are not spaces. *)
Fixpoint word_of (n : nat) (s : bytes) : bytes * bytes :=
  match n, s with
  | S n, c :: s' => if isspace c then ([], s) else let '(w, r) := word_of n s' in (c :: w, r)
  | _, _ => ([], s)
  end.

Definition any_port : PortRange := Ports 0 65535 true.

(** The destination: an address and, after a colon, its ports, of which the first
    range is kept. *)
Definition parse_destination (dest_str : bytes) : option (IPRange * PortRange) :=
  match strchr 58 dest_str with
  | Some (ip_str, port_str) =>
      ips ← parse_ip_range ip_str; ports ← parse_port_range 10 port_str;
      Some (ips, default no_ports (head ports))
  | None => ips ← parse_ip_range dest_str; Some (ips, any_port)
  end.

Definition direction_of (s : bytes) : option (bool * bytes) :=
  match keyword (str "out") s with
  | Some s => Some (true, s)
  | None => s ← keyword (str "in") s; Some (false, s)
  end.

Definition tft_parse_rule (tft_string : bytes) : option TFTRule :=
  p ← keyword (str "permit") (strncpy 512 tft_string);
  '(out, p) ← direction_of p;
  p ← keyword (str "ip") p;
  p ← keyword (str "from") p;
  let '(src_str, p) := word_of 63 p in
  src ← parse_ip_range src_str;
  p ← keyword (str "to") (skip_spaces p);
  let '(dest_str, p) := word_of 127 p in
  '(dst, dst_port) ← parse_destination dest_str;
  match skip_spaces p with
  | [] => Some (Rule3gpp src dst no_ports dst_port 0 false out)
  | p => Some (Rule3gpp src dst no_ports dst_port (protocol_name_to_number (fst (word_of 31 p))) true out)
  end.

(** ** The whitelist *)

Record TrafficSecurityConfig := Whitelist {
  dest_ip_range : bytes; dest_port_range : bytes; source_port_range : bytes; allowed_protocols : list bytes }.

(** 0, -1 and -2. *)
Inductive verdict := Granted | Rejected | Malformed.

Definition all_ips : IPRange := Ips 0 (2 ^ 32 - 1) true.

(** A range of ports within the ranges of the whitelist: both ends, and both in
    the same one. *)
Definition ports_allowed (p : PortRange) (wl : list PortRange) : bool :=
  port_in_ranges (start_port p) wl &&
  (bool_decide (start_port p = end_port p) ||
   (port_in_ranges (end_port p) wl &&
    existsb (λ r, bool_decide (start_port p >= start_port r) && bool_decide (end_port p ≤ end_port r)) wl)).

Definition protocol_allowed (rule : TFTRule) (allowed : list bytes) : bool :=
  if decide (allowed ≠ [] ∧ has_protocol rule = true ∧ tft_protocol rule ≠ 0)
  then existsb (λ name, bool_decide (protocol_name_to_number name = tft_protocol rule)) allowed else true.

Definition tft_validate_against_whitelist (tft_string : bytes) (whitelist : TrafficSecurityConfig) : verdict :=
  match tft_parse_rule tft_string with
  | None => Malformed
  | Some rule =>
      match (if decide (dest_ip_range whitelist = []) then Some all_ips else parse_ip_range (dest_ip_range whitelist)) with
      | None => Malformed
      | Some ips =>
          if negb (ip_in_range (start_ip (tft_dst_ip rule)) ips) || negb (ip_in_range (end_ip (tft_dst_ip rule)) ips) then Rejected
          else
            match (if decide (dest_port_range whitelist = []) then Some [any_port] else parse_port_range 20 (dest_port_range whitelist)) with
            | None => Malformed
            | Some ports =>
                if negb (ports_allowed (tft_dst_port rule) ports) then Rejected
                else
                  match (if decide (source_port_range whitelist = []) then Some None
                         else Some <$> parse_port_range 20 (source_port_range whitelist)) with
                  | None => Malformed
                  | Some sources =>
                      if negb (match sources with Some l => ports_allowed (tft_src_port rule) l | None => true end) then Rejected
                      else if negb (protocol_allowed rule (allowed_protocols whitelist)) then Rejected
                      else Granted
                  end
            end
      end
  end.

(** ** NAPT rules *)

Inductive NAPTType := NAPT_TYPE_UNKNOWN | NAPT_TYPE_SNAT | NAPT_TYPE_DNAT.

Record NAPTRule := Napt {
  napt_type : NAPTType; napt_src_ip : IPRange; napt_dst_ip : IPRange; napt_protocol : Z; napt_dst_port : PortRange;
  napt_src_port : PortRange; napt_to_ip : IPRange; napt_to_port : PortRange }.

(** The bytes around the last separator. *)
Definition strrchr (sep : Z) (s : bytes) : option (bytes * bytes) :=
  (λ '(a, b), (reverse b, reverse a)) <$> strchr sep (reverse s).

(** The range that [parse_ip_mask] leaves: its code is not looked at, and a range
    stays as it was on an error. *)
Definition parse_ip_mask (s : bytes) (link_ip : option bytes) (range : IPRange) : IPRange :=
  let invalid := Ips (start_ip range) (end_ip range) false in
  let placeholder := same s (str "%LinkIp%") in
  if bool_decide (s = []) || (placeholder && bool_decide (link_ip = None)) then invalid
  else
    let buf := strncpy 64 (if placeholder then default [] link_ip else s) in
    match (match strrchr 46 buf with
           | Some (ip_part, mask_part) =>
               if decide (length (filter (λ c, c = 46) mask_part) = 3%nat) then (mask ← inet_pton mask_part; Some (ip_part, mask)) else None
           | None => Some (buf, 2 ^ 32 - 1)
           end) with
    | None => range
    | Some (ip_part, mask) =>
        match inet_pton ip_part with
        | None => range
        | Some ip => Ips (Z.land ip mask) (Z.lor ip (not32 mask)) true
        end
    end.

Definition w16 (z : Z) : Z := z `mod` 2 ^ 16.

Definition parse_napt_port_range (s : bytes) : PortRange :=
  if decide (s = []) then no_ports
  else match strchr 46 s with
       | Some (_, after) => Ports (w16 (atoi s)) (w16 (atoi after)) true
       | None => Ports (w16 (atoi s)) (w16 (atoi s)) true
       end.

Definition case_is (word s : bytes) : bool := same (toupper <$> s) word.

Definition napt_parse_rule (napt_str : bytes) (link_ip : option bytes) : option NAPTRule :=
  match strtok 44 napt_str with
  | f0 :: f1 :: f2 :: f3 :: f4 :: f5 :: f6 :: f7 :: _ =>
      Some (Napt (if case_is (str "SNAT") f0 then NAPT_TYPE_SNAT else if case_is (str "DNAT") f0 then NAPT_TYPE_DNAT else NAPT_TYPE_UNKNOWN)
              (parse_ip_mask f1 link_ip no_ips) (parse_ip_mask f2 link_ip no_ips) (atoi f3 `mod` 256)
              (parse_napt_port_range f4) (parse_napt_port_range f5) (parse_ip_mask f6 link_ip no_ips) (parse_napt_port_range f7))
  | _ => None
  end.

Definition napt_validate_against_whitelist (napt_str : bytes) (whitelist : TrafficSecurityConfig) (link_ip : option bytes) : verdict :=
  match napt_parse_rule napt_str link_ip with None => Malformed | Some _ => Granted end.

(** ** The check of a request ([magic_cic.c]) *)

(** The rules of a MCAR against the whitelist of the client's profile. *)
Definition mcar_validate_tft_napt_whitelist (profile : option TrafficSecurityConfig) (to_ground to_aircraft napt : list bytes) : bool :=
  match profile with
  | None => true
  | Some wl =>
      forallb (λ s, match tft_validate_against_whitelist s wl with Granted => true | _ => false end) to_ground &&
      forallb (λ s, match tft_validate_against_whitelist s wl with Granted => true | _ => false end) to_aircraft &&
      forallb (λ s, match napt_validate_against_whitelist s wl None with Granted => true | _ => false end) napt
  end.
