(* ===== verification/MagicTftSpec.v ===== *)
(** * What the filters of MAGIC let through

    The addresses that a range in CIDR notation stands for; the rules that the
    whitelist grants, as a containment of their addresses and ports in it; and
    what the check of a NAPT rule comes to. *)

From Stdlib Require Import ZArith Lia String.
From stdpp Require Import base list.
From S2P Require Import Prelude Ostr CoreMsg MagicConfig MagicTft.

(** ** Addresses *)

Lemma octet_bounds s v : octet s = Some v → 0 ≤ v ≤ 255.
Proof.
  unfold octet. case_decide; [done|]. case_match; [done|]. case_match; [done|]. destruct (decide (digits 0 s ≤ 255)); [|done].
  intros [= <-]. split; [|done]. assert (∀ s acc, 0 ≤ acc → 0 ≤ digits acc s) as Hd; [|by apply Hd].
  clear. induction s as [|c s IH]; intros acc Ha; cbn; [done|]. destruct (isdigit c) eqn:Hc; [|done].
  apply bool_decide_eq_true in Hc. apply IH. lia.
Qed.

Lemma inet_pton_bounds s ip : inet_pton s = Some ip → 0 ≤ ip < 2 ^ 32.
Proof.
  unfold inet_pton. do 5 (case_match; try done). intros H'. repeat (apply bind_Some in H' as (? & ?%octet_bounds & H')).
  injection H' as <-. lia.
Qed.

Lemma ip_str_bounds s : 0 ≤ ip_str_to_uint32 s < 2 ^ 32.
Proof. unfold ip_str_to_uint32. destruct (inet_pton s) eqn:H; cbn; [by eapply inet_pton_bounds|lia]. Qed.

(** A mask of [32 - k] bits clears the last [k] bits, and its complement sets them. *)
Lemma mask_testbit k i : 0 ≤ k ≤ 32 → 0 ≤ i → Z.testbit (mask_of (32 - k)) i = bool_decide (k ≤ i < 32).
Proof.
  intros Hk Hi. unfold mask_of. case_decide; [rewrite Z.bits_0, bool_decide_false by lia; done|]. replace (32 - (32 - k)) with k by lia. unfold w32.
  destruct (decide (i < 32)) as [Hlt|Hge].
  - rewrite Z.mod_pow2_bits_low, Z.shiftl_spec by lia. change (2 ^ 32 - 1) with (Z.ones 32). case_bool_decide.
    + apply Z.ones_spec_low. lia.
    + apply Z.testbit_neg_r. lia.
  - rewrite Z.mod_pow2_bits_high by lia. rewrite bool_decide_false by lia. done.
Qed.

Lemma not32_testbit x i : 0 ≤ x < 2 ^ 32 → 0 ≤ i → Z.testbit (not32 x) i = bool_decide (i < 32) && negb (Z.testbit x i).
Proof.
  intros Hx Hi. unfold not32. replace (2 ^ 32 - 1 - x) with (Z.ldiff (Z.ones 32) x).
  2: { change (2 ^ 32 - 1) with (Z.ones 32). symmetry. apply Z.sub_nocarry_ldiff. apply Z.bits_inj'. intros n Hn.
       rewrite Z.ldiff_spec, Z.bits_0. destruct (decide (n < 32)); [rewrite Z.ones_spec_low by lia; by rewrite andb_false_r|].
       rewrite (Z.bits_above_log2 x); [done|lia|]. destruct (decide (x = 0)) as [->|]; [cbn; lia|].
       apply Z.log2_lt_pow2; [lia|]. eapply Z.lt_le_trans; [apply Hx|]. apply Z.pow_le_mono_r; lia. }
  rewrite Z.ldiff_spec. f_equal. case_bool_decide; [apply Z.ones_spec_low; lia|apply Z.ones_spec_high; lia].
Qed.

Lemma cidr_start ip k : 0 ≤ k ≤ 32 → 0 ≤ ip < 2 ^ 32 → Z.land ip (mask_of (32 - k)) = ip - ip `mod` 2 ^ k.
Proof.
  intros Hk Hip. replace (ip - ip `mod` 2 ^ k) with (Z.shiftl (Z.shiftr ip k) k).
  2: { rewrite Z.shiftl_mul_pow2, Z.shiftr_div_pow2 by lia. pose proof (Z.div_mod ip (2 ^ k)). lia. }
  apply Z.bits_inj'. intros n Hn. rewrite Z.land_spec, mask_testbit, Z.shiftl_spec by lia.
  destruct (decide (k ≤ n)) as [Hkn|Hkn].
  - rewrite Z.shiftr_spec by lia. replace (n - k + k) with n by lia. case_bool_decide; [by rewrite andb_true_r|].
    rewrite andb_false_r. symmetry. destruct (decide (ip = 0)) as [->|]; [apply Z.bits_0|]. apply Z.bits_above_log2; [lia|].
    apply Z.log2_lt_pow2; [lia|]. eapply Z.lt_le_trans; [apply Hip|]. apply Z.pow_le_mono_r; lia.
  - rewrite bool_decide_false by lia. rewrite andb_false_r. symmetry. apply Z.testbit_neg_r. lia.
Qed.

Lemma mask_bounds k : 0 ≤ k ≤ 32 → 0 ≤ mask_of (32 - k) < 2 ^ 32.
Proof. intros. unfold mask_of, w32. case_decide; [lia|]. apply Z.mod_pos_bound. lia. Qed.

Lemma cidr_end ip k : 0 ≤ k ≤ 32 → 0 ≤ ip < 2 ^ 32 → Z.lor ip (not32 (mask_of (32 - k))) = ip - ip `mod` 2 ^ k + (2 ^ k - 1).
Proof.
  intros Hk Hip. assert (not32 (mask_of (32 - k)) = Z.ones k) as ->.
  { apply Z.bits_inj'. intros n Hn. rewrite not32_testbit, mask_testbit by (try apply mask_bounds; lia).
    destruct (decide (n < k)); [rewrite Z.ones_spec_low by lia|rewrite Z.ones_spec_high by lia]; repeat case_bool_decide; try done; lia. }
  set (x := Z.lor ip (Z.ones k)).
  assert (x / 2 ^ k = ip / 2 ^ k) as Hd.
  { rewrite <- !Z.shiftr_div_pow2 by lia. unfold x. rewrite Z.shiftr_lor. rewrite (Z.shiftr_div_pow2 (Z.ones k)) by lia.
    rewrite Z.ones_div_pow2, Z.sub_diag by lia. apply Z.lor_0_r. }
  assert (x `mod` 2 ^ k = 2 ^ k - 1) as Hm.
  { rewrite <- Z.land_ones by lia. unfold x. rewrite Z.land_lor_distr_l, Z.land_diag. rewrite Z.ones_equiv in *.
    apply Z.bits_inj'. intros n Hn. rewrite Z.lor_spec, Z.land_spec. change (Z.pred (2 ^ k)) with (Z.pred (2 ^ k)).
    replace (2 ^ k - 1) with (Z.pred (2 ^ k)) by lia. by destruct (Z.testbit ip n), (Z.testbit (Z.pred (2 ^ k)) n). }
  pose proof (Z.div_mod x (2 ^ k)). pose proof (Z.div_mod ip (2 ^ k)). lia.
Qed.

(** The addresses of a range. *)
Definition in_ips (ip : Z) (r : IPRange) : Prop := start_ip r ≤ ip ≤ end_ip r.

(** a range written as an address and a prefix length [p] stands for the
    addresses that share their first [p] bits with it: the mask and its complement
    give the first and the last of them, from the whole address space for 0 to the
    single address for 32. *)
Theorem cidr_range s ip_part prefix_part ip p :
  strchr 47 (trim_whitespace (strncpy 128 s)) = Some (ip_part, prefix_part) →
  inet_pton ip_part = Some ip → ip ≠ 0 → atoi prefix_part = p → 0 ≤ p ≤ 32 →
  ∃ r, parse_ip_range s = Some r ∧ ips_valid r = true ∧ in_ips ip r ∧
    ∀ x, in_ips x r ↔ Z.shiftr x (32 - p) = Z.shiftr ip (32 - p).
Proof.
  intros Hs Hip H0 <- Hp. apply inet_pton_bounds in Hip as Hb. unfold parse_ip_range. rewrite Hs. cbn zeta.
  unfold ip_str_to_uint32. rewrite Hip. cbn [default from_option]. rewrite decide_False by (unfold id; lia). eexists. split; [done|]. split; [done|].
  set (p := atoi prefix_part) in *. unfold in_ips, id. cbn [start_ip end_ip].
  replace p with (32 - (32 - p)) by lia. rewrite cidr_start, cidr_end by lia. replace (32 - (32 - (32 - p))) with (32 - p) by lia.
  rewrite !Z.shiftr_div_pow2 by lia. set (k := 32 - p). assert (0 < 2 ^ k) by (apply Z.pow_pos_nonneg; lia).
  pose proof (Z.mod_pos_bound ip (2 ^ k)). split; [lia|]. intros x. rewrite Z.shiftr_div_pow2 by lia.
  pose proof (Z.div_mod ip (2 ^ k)). pose proof (Z.div_mod x (2 ^ k)). pose proof (Z.mod_pos_bound x (2 ^ k)). split; [|intros He; rewrite He in *; lia].
  intros Hx. assert (2 ^ k * (x / 2 ^ k) - 2 ^ k * (ip / 2 ^ k) < 2 ^ k) by lia.
  assert (2 ^ k * (ip / 2 ^ k) - 2 ^ k * (x / 2 ^ k) < 2 ^ k) by lia. nia.
Qed.

(** ** What is parsed *)

Definition good_ips (r : IPRange) : Prop := ips_valid r = true ∧ start_ip r ≤ end_ip r.
Definition good_ports (p : PortRange) : Prop := ports_valid p = true ∧ start_port p ≤ end_port p.

Lemma parse_ip_range_good s r : parse_ip_range s = Some r → good_ips r.
Proof.
  unfold parse_ip_range. cbn zeta. destruct (strchr 47 _) as [[a b]|].
  - destruct (decide _) as [|Hn]; [done|]. intros [= <-]. split; [done|]. cbn [start_ip end_ip].
    set (p := atoi b) in *. replace p with (32 - (32 - p)) by lia. pose proof (ip_str_bounds a).
    rewrite cidr_start, cidr_end by lia. pose proof (Z.mod_pos_bound (ip_str_to_uint32 a) (2 ^ (32 - p))). lia.
  - destruct (strchr 45 _) as [[a b]|]; (destruct (decide _) as [|Hn]; [done|]); intros [= <-]; split; cbn; try done; lia.
Qed.

Lemma parse_port_token_good t p : parse_port_token t = Some p → good_ports p.
Proof.
  unfold parse_port_token. cbn zeta. destruct (strchr 45 _) as [[a b]|]; (destruct (decide _) as [|Hn]; [done|]);
    intros [= <-]; split; cbn; try done; lia.
Qed.

Lemma parse_port_range_good n s l : parse_port_range n s = Some l → Forall good_ports l.
Proof.
  unfold parse_port_range. intros H%mapM_Some. induction H as [|t p ts ps Hp _ IH]; constructor; [by eapply parse_port_token_good|done].
Qed.

(** The destination port that is kept: a range, or port 0 when none is given. *)
Definition kept_ports (p : PortRange) : Prop := good_ports p ∨ p = no_ports.

Lemma parse_destination_good s ips ports : parse_destination s = Some (ips, ports) → good_ips ips ∧ kept_ports ports.
Proof.
  unfold parse_destination. destruct (strchr 58 s) as [[a b]|].
  - intros (i & Hi & H)%bind_Some. apply bind_Some in H as (l & Hl & [= <- <-]). split; [by eapply parse_ip_range_good|].
    apply parse_port_range_good in Hl as Hg. destruct l as [|p l]; [by right|]. left. by inversion Hg.
  - intros (i & Hi & [= <- <-])%bind_Some. split; [by eapply parse_ip_range_good|]. left. by split.
Qed.

(** What a rule that was read holds; its source ports are never read. *)
Lemma tft_parse_rule_good s rule :
  tft_parse_rule s = Some rule → good_ips (tft_dst_ip rule) ∧ kept_ports (tft_dst_port rule) ∧ tft_src_port rule = no_ports.
Proof.
  unfold tft_parse_rule. intros (p1 & _ & H)%bind_Some. apply bind_Some in H as ([out p2] & _ & H).
  apply bind_Some in H as (p3 & _ & H). apply bind_Some in H as (p4 & _ & H). destruct (word_of 63 p4) as [src p5].
  apply bind_Some in H as (srcr & _ & H). apply bind_Some in H as (p6 & _ & H). destruct (word_of 127 p6) as [dst p7].
  apply bind_Some in H as ([ips ports] & Hd%parse_destination_good & H). destruct Hd. by destruct (skip_spaces p7); injection H as <-.
Qed.

(** ** The whitelist *)

Definition in_ports (x : Z) (p : PortRange) : Prop := start_port p ≤ x ≤ end_port p.

(** The ranges that a whitelist names: everything when it names none. *)
Definition listed_ips (s : bytes) : option IPRange := if decide (s = []) then Some all_ips else parse_ip_range s.
Definition listed_ports (s : bytes) : option (list PortRange) := if decide (s = []) then Some [any_port] else parse_port_range 20 s.

(** Every address of a range is listed; every port of a range is in one listed range. *)
Definition ips_within (s : bytes) (r : IPRange) : Prop := ∃ w, listed_ips s = Some w ∧ ∀ ip, in_ips ip r → in_ips ip w.
Definition ports_within (s : bytes) (p : PortRange) : Prop :=
  ∃ l w, listed_ports s = Some l ∧ w ∈ l ∧ ∀ x, in_ports x p → in_ports x w.

(** The protocol of a rule is listed, when the two name one. *)
Definition protocol_within (l : list bytes) (rule : TFTRule) : Prop :=
  l = [] ∨ has_protocol rule = false ∨ tft_protocol rule = 0 ∨ ∃ name, name ∈ l ∧ protocol_name_to_number name = tft_protocol rule.

Lemma listed_ips_good s w : listed_ips s = Some w → good_ips w.
Proof. unfold listed_ips. case_decide; [by intros [= <-]|apply parse_ip_range_good]. Qed.

Lemma listed_ports_good s l : listed_ports s = Some l → Forall good_ports l.
Proof. unfold listed_ports. case_decide; [intros [= <-]; by repeat constructor|apply parse_port_range_good]. Qed.

Lemma ip_in_range_iff ip w : good_ips w → ip_in_range ip w = true ↔ in_ips ip w.
Proof. intros [Hv _]. unfold ip_in_range, in_ips. rewrite Hv, !andb_true_iff, !bool_decide_eq_true. tauto. Qed.

Lemma port_in_ranges_iff x l : Forall good_ports l → port_in_ranges x l = true ↔ ∃ w, w ∈ l ∧ in_ports x w.
Proof.
  intros Hl. unfold port_in_ranges. rewrite existsb_exists. split; intros (w & Hw & H); exists w.
  - rewrite !andb_true_iff, !bool_decide_eq_true in H. split; [by apply list_elem_of_In|]. unfold in_ports. tauto.
  - rewrite Forall_forall in Hl. destruct (Hl w Hw) as [Hv _]. rewrite Hv, !andb_true_iff, !bool_decide_eq_true.
    split; [by apply list_elem_of_In|]. destruct H. done.
Qed.

Lemma ips_contained r w : start_ip r ≤ end_ip r → (∀ ip, in_ips ip r → in_ips ip w) ↔ in_ips (start_ip r) w ∧ in_ips (end_ip r) w.
Proof. unfold in_ips. intros H. split; [intros Hi; split; apply Hi; lia|intros [] ip Hip; lia]. Qed.

Lemma ports_contained p w : start_port p ≤ end_port p →
  (∀ x, in_ports x p → in_ports x w) ↔ start_port w ≤ start_port p ∧ end_port p ≤ end_port w.
Proof. unfold in_ports. intros H. split; [intros Hi; split; apply Hi; lia|intros [] x Hx; lia]. Qed.

Lemma ports_allowed_iff p l :
  Forall good_ports l → start_port p ≤ end_port p →
  ports_allowed p l = true ↔ ∃ w, w ∈ l ∧ ∀ x, in_ports x p → in_ports x w.
Proof.
  intros Hl Hp. unfold ports_allowed. rewrite andb_true_iff, orb_true_iff, andb_true_iff, bool_decide_eq_true, existsb_exists.
  rewrite !port_in_ranges_iff by done. setoid_rewrite ports_contained; [|done]. setoid_rewrite <- list_elem_of_In.
  setoid_rewrite andb_true_iff. setoid_rewrite bool_decide_eq_true. unfold in_ports. split.
  - intros [(w & Hw & H1) [He|[_ (w' & Hw' & H2 & H3)]]]; [exists w; split; [done|lia]|exists w'; split; [done|lia]].
  - intros (w & Hw & H1 & H2). split; [exists w; split; [done|lia]|]. right. split; exists w; (split; [done|lia]).
Qed.

Lemma protocol_allowed_iff rule l : protocol_allowed rule l = true ↔ protocol_within l rule.
Proof.
  unfold protocol_allowed, protocol_within. case_decide as H.
  - rewrite existsb_exists. setoid_rewrite <- list_elem_of_In. setoid_rewrite bool_decide_eq_true. destruct H as (H1 & H2 & H3).
    split; [by auto|intros [?|[?|[?|?]]]; [done|congruence|done|done]].
  - split; [|done]. intros _. destruct (has_protocol rule) eqn:Hh; [|by right; left]. destruct (decide (l = [])); [by left|].
    destruct (decide (tft_protocol rule = 0)); [by right; right; left|].
    by destruct H.
Qed.

Lemma ips_within_iff s r :
  start_ip r ≤ end_ip r →
  ips_within s r ↔
  match listed_ips s with Some w => ip_in_range (start_ip r) w = true ∧ ip_in_range (end_ip r) w = true | None => False end.
Proof.
  intros Hr. unfold ips_within. destruct (listed_ips s) as [w|] eqn:Hw; [|by split; [intros (? & ? & _)|]].
  apply listed_ips_good in Hw. rewrite !ip_in_range_iff by done. rewrite <- ips_contained by done.
  split; [by intros (? & [= <-] & ?)|eauto].
Qed.

Lemma ports_within_iff s p :
  start_port p ≤ end_port p →
  ports_within s p ↔ match listed_ports s with Some l => ports_allowed p l = true | None => False end.
Proof.
  intros Hp. unfold ports_within. destruct (listed_ports s) as [l|] eqn:Hl; [|by split; [intros (? & ? & ? & _)|]].
  rewrite ports_allowed_iff by (done || by eapply listed_ports_good). split; [intros (? & w & [= <-] & ?); eauto|intros (w & ?); eauto].
Qed.

(** C15: [tft_validate_against_whitelist] grants a rule exactly when it can be read
    and what the code looks at is in the whitelist: every destination address is in
    the listed range; every port of the first range of destination ports, the only
    one that [tft_parse_rule] keeps ([tft_dst_port]; those after it may be any,
    Example [second_port_unchecked]), is in one listed range; the protocol is
    listed, if the whitelist lists some and the rule names one that the code knows;
    and, only if the whitelist lists source ports, port 0 is among these: the
    source ports of a rule are never read.  A list of the whitelist that is empty
    allows every address or port.  Every other rule, and every rule when an entry of
    the whitelist that is needed cannot be read, is refused. *)
Theorem tft_granted_iff s wl :
  tft_validate_against_whitelist s wl = Granted ↔
  ∃ rule, tft_parse_rule s = Some rule ∧
    ips_within (dest_ip_range wl) (tft_dst_ip rule) ∧ ports_within (dest_port_range wl) (tft_dst_port rule) ∧
    (source_port_range wl ≠ [] → ports_within (source_port_range wl) no_ports) ∧
    protocol_within (allowed_protocols wl) rule.
Proof.
  unfold tft_validate_against_whitelist. destruct (tft_parse_rule s) as [rule|] eqn:Hr; [|naive_solver].
  apply tft_parse_rule_good in Hr as ([_ Hips] & Hports & Hsrc).
  assert (start_port (tft_dst_port rule) ≤ end_port (tft_dst_port rule)) as Hp by (destruct Hports as [[_ ?]| ->]; [done|cbn; lia]).
  trans (ips_within (dest_ip_range wl) (tft_dst_ip rule) ∧ ports_within (dest_port_range wl) (tft_dst_port rule) ∧
    (source_port_range wl ≠ [] → ports_within (source_port_range wl) no_ports) ∧ protocol_within (allowed_protocols wl) rule).
  2: { split; [eauto|]. by intros (r & [= <-] & ?). }
  fold (listed_ips (dest_ip_range wl)) (listed_ports (dest_port_range wl)).
  pose proof (ips_within_iff (dest_ip_range wl) (tft_dst_ip rule) Hips) as Hi.
  destruct (listed_ips (dest_ip_range wl)) as [w|]; [|rewrite Hi; split; [done|by intros [[] _]]].
  destruct (ip_in_range (start_ip (tft_dst_ip rule)) w), (ip_in_range (end_ip (tft_dst_ip rule)) w); cbn [negb orb];
    rewrite Hi; [|by split; [|intros [[] _]]..].
  pose proof (ports_within_iff (dest_port_range wl) (tft_dst_port rule) Hp) as Hd.
  destruct (listed_ports (dest_port_range wl)) as [l|]; [|rewrite Hd; split; [done|by intros (_ & [] & _)]].
  rewrite Hd. destruct (ports_allowed (tft_dst_port rule) l); cbn [negb]; [|split; [done|by intros (_ & ? & _)]].
  pose proof (ports_within_iff (source_port_range wl) no_ports ltac:(cbn; lia)) as Hs. unfold listed_ports in Hs. rewrite Hsrc.
  rewrite <- protocol_allowed_iff. destruct (decide (source_port_range wl = [])) as [He|He].
  { cbn [negb]. destruct (protocol_allowed _ _); cbn [negb]; (split; [|by intros (_ & _ & _ & ?)]); [|done]. intros _. do 2 (split; [done|]). by split. }
  rewrite Hs. destruct (parse_port_range 20 (source_port_range wl)) as [ls|]; cbn [fmap option_fmap option_map].
  2: { split; [done|]. intros (_ & _ & Hx & _). by destruct (Hx He). }
  destruct (ports_allowed no_ports ls); cbn [negb]; [|split; [done|]; intros (_ & _ & Hx & _); by specialize (Hx He)].
  destruct (protocol_allowed _ _); cbn [negb]; (split; [|by intros (_ & _ & _ & ?)]); [|done]. intros _. by do 3 (split; [done|]).
Qed.

(** ** NAPT rules *)

Lemma strchr_None sep s : sep ∉ s → strchr sep s = None.
Proof.
  induction s as [|c s IH]; intros Hn; [done|]. cbn. apply not_elem_of_cons in Hn as [Hc Hs]. rewrite decide_False by done. by rewrite IH.
Qed.

Lemma strchr_Some sep s a b : strchr sep s = Some (a, b) → s = a ++ sep :: b ∧ sep ∉ a.
Proof.
  revert a. induction s as [|c s IH]; intros a; cbn; [done|]. case_decide as Hc.
  - intros [= <- <-]. subst. split; [done|]. apply not_elem_of_nil.
  - intros ([a' b'] & Hs & Ha)%fmap_Some. injection Ha as -> ->. apply IH in Hs as [-> Hn]. split; [done|]. by apply not_elem_of_cons.
Qed.

Lemma strrchr_Some sep s a b : strrchr sep s = Some (a, b) → s = a ++ sep :: b ∧ sep ∉ b.
Proof.
  unfold strrchr. intros ([x y] & [Hs Hn]%strchr_Some & Ha)%fmap_Some. injection Ha as -> ->.
  split; [|by rewrite elem_of_reverse]. rewrite <- (reverse_involutive s), Hs, reverse_app, reverse_cons, <- app_assoc. done.
Qed.

Lemma strrchr_None sep s : strrchr sep s = None → sep ∉ s.
Proof.
  unfold strrchr. rewrite fmap_None. intros Hs Hin. apply elem_of_reverse in Hin. revert Hs Hin. generalize (reverse s). clear s.
  intros s. induction s as [|c s IH]; cbn; [intros _; apply not_elem_of_nil|]. case_decide as Hc; [done|]. rewrite fmap_None.
  intros Hs [->|Hin]%elem_of_cons; [done|]. by apply IH.
Qed.

Lemma split_on_none sep s : sep ∉ s → split_on sep s = [s].
Proof.
  induction s as [|c s IH]; intros Hn; [done|]. apply not_elem_of_cons in Hn as [Hc Hs]. cbn. rewrite decide_False by done. by rewrite IH.
Qed.

(** No address is ever read: with a dot what follows the last one is no mask,
    without a dot there is no address. *)
Lemma parse_ip_mask_invalid s link range : ips_valid range = false → ips_valid (parse_ip_mask s link range) = false.
Proof.
  intros Hv. unfold parse_ip_mask. case_match; [done|]. set (buf := strncpy 64 _). clearbody buf.
  destruct (strrchr 46 buf) as [[a b]|] eqn:Hs.
  - apply strrchr_Some in Hs as [_ Hn]. rewrite decide_False; [done|].
    assert (filter (λ c, c = 46) b = []) as ->; [|done].
    induction b as [|c b IH]; [done|]. apply not_elem_of_cons in Hn as [Hc Hb]. rewrite filter_cons_False by congruence. by apply IH.
  - apply strrchr_None in Hs. unfold inet_pton. by rewrite (split_on_none 46 buf Hs).
Qed.

(** C21: the check of a NAPT rule checks nothing of it: every string of eight
    nonempty fields is granted, whatever the whitelist, and no other; and none of
    its addresses is ever read, since the last part of a dotted address is taken
    for its mask. *)
Theorem napt_granted_iff s wl link :
  (napt_validate_against_whitelist s wl link = Granted ↔ (8 ≤ length (strtok 44 s))%nat) ∧
  ∀ rule, napt_parse_rule s link = Some rule →
    ips_valid (napt_src_ip rule) = false ∧ ips_valid (napt_dst_ip rule) = false ∧ ips_valid (napt_to_ip rule) = false.
Proof.
  unfold napt_validate_against_whitelist, napt_parse_rule. generalize (strtok 44 s). intros l. split.
  - do 8 (destruct l as [|? l]; [split; [done|cbn; lia]|]). split; [cbn; lia|done].
  - intros rule. do 8 (destruct l as [|? l]; [done|]). intros [= <-]. cbn. by repeat split; apply parse_ip_mask_invalid.
Qed.

(** ** Examples *)

Module Filters.
Definition wl : TrafficSecurityConfig := Whitelist (str "10.2.2.0/24") (str "80,443,5000-6000") [] [str "tcp"; str "UDP"].
Definition rule : bytes := str "permit out ip from 192.168.0.3 to 10.2.2.8:443 TCP".

Example granted : tft_validate_against_whitelist rule wl = Granted.
Proof. by vm_compute. Qed.

Example outside :
  tft_validate_against_whitelist (str "permit out ip from 192.168.0.3 to 10.2.3.8:443") wl = Rejected ∧
  tft_validate_against_whitelist (str "permit out ip from 192.168.0.3 to 10.2.2.8:22") wl = Rejected ∧
  tft_validate_against_whitelist (str "permit out ip from 192.168.0.3 to 10.2.2.8:5999-6001") wl = Rejected ∧
  tft_validate_against_whitelist (str "permit out ip from 192.168.0.3 to 10.2.2.8:443 ICMP") wl = Rejected ∧
  tft_validate_against_whitelist (str "deny out ip from 192.168.0.3 to 10.2.2.8") wl = Malformed.
Proof. by vm_compute. Qed.

(** Ports after the first range are not looked at; a protocol whose name is not
    known is any protocol, which no list of protocols refuses. *)
Example second_port_unchecked : tft_validate_against_whitelist (str "permit out ip from 192.168.0.3 to 10.2.2.8:80,22") wl = Granted.
Proof. by vm_compute. Qed.

Example unknown_protocol_granted : tft_validate_against_whitelist (str "permit out ip from 192.168.0.3 to 10.2.2.8:80 SCTP") wl = Granted.
Proof. by vm_compute. Qed.

(** With source ports listed, every rule is refused. *)
Example source_ports_refuse_all :
  tft_validate_against_whitelist rule (Whitelist (str "10.2.2.0/24") [] (str "1024-65535") []) = Rejected.
Proof. by vm_compute. Qed.

(** A prefix that is no number opens the whole address space; the prefix 0 of the
    null address is refused. *)
Example no_prefix : parse_ip_range (str "10.2.2.0/abc") = Some all_ips ∧ parse_ip_range (str "0.0.0.0/0") = None.
Proof. by vm_compute. Qed.

(** The format of the specification, with its empty fields, is refused. *)
Example empty_field : napt_validate_against_whitelist (str "SNAT,192.168.1.1,,6,80,,10.2.2.8,80") wl None = Malformed.
Proof. by vm_compute. Qed.

Example anything_granted : napt_validate_against_whitelist (str "x,x,x,x,x,x,x,x") wl None = Granted.
Proof. by vm_compute. Qed.

Lemma cidr_range_witness :
  ∃ r, parse_ip_range (str " 10.2.2.77/24") = Some r ∧ ips_valid r = true ∧ in_ips 167903821 r ∧
    ∀ x, in_ips x r ↔ Z.shiftr x (32 - 24) = Z.shiftr 167903821 (32 - 24).
Proof. by apply (cidr_range (str " 10.2.2.77/24") (str "10.2.2.77") (str "24") 167903821 24); vm_compute. Defined.
End Filters.
